(* ===== verification/_CoqProject ===== *)
-Q . S2P
Prelude.v
GoStrings.v
GoTime.v
GoText.v
Naming.v
OperationModel.v
ApiTypes.v
OperationStateMachine.v
OperationJournal.v
OperationLease.v
LeaseExclusion.v
VerificationPolicy.v
VerificationAgreement.v
VerificationDrift.v
Verifier.v
OperationController.v
OperationSafety.v
OperationProgress.v
PolicyTypes.v
VendorCap.v
HealthPolicy.v
HealthEvaluate.v
HealthController.v
HealthSafety.v
HealthRecovery.v
IntentResources.v
IntentGates.v
IntentSnapshot.v
IntentTranslate.v
IntentSafety.v
IntentCluster.v
UpgradeTypes.v
DriverAdapter.v
DriverJob.v
DriverImage.v
DraClaim.v
Validators.v
UpgradeNode.v
UpgradeMachine.v
UpgradeSpec.v
UpgradeEffects.v
UpgradeSafety.v
UpgradeGates.v
PartitionTypes.v
PartitionProfiles.v
MigObserve.v
MigReading.v
MigSteps.v
MigJob.v
Quiescer.v
NvidiaBackend.v
SharingConfig.v
RngdBackend.v
PartitionPass.v
AcppVerifier.v
PartitionSharing.v
PartitionApply.v
PartitionController.v
PartitionParticipant.v
PartitionSpec.v
PartitionEffects.v
PartitionReady.v
UpgradeController.v
DriverParticipant.v
Uninstall.v
UninstallSafety.v
UninstallGate.v
Workload.v
WorkloadSafety.v
PodSpec.v
ClusterPolicy.v
DevicePlugins.v
DraDriver.v
ClusterPolicyPass.v
ClusterPolicySafety.v
Webhook.v
Descriptor.v
DescriptorController.v
