(* ===== verification/Prelude.v ===== *)
(** * kcloud-operator: verification library (root file)

    kcloud-operator is a Kubernetes operator that installs, partitions, watches
    and repairs accelerators (NVIDIA, Furiosa, Rebellions, Tenstorrent) on the
    nodes of a cluster.  This library models the decision-making part of its Go
    code under [src/internal], [src/api/v1alpha1] and proves what makes it
    correct.

    ** The parts and how they interact

    - Operations ([internal/operation], [internal/controller/operation_*.go]).
      Whatever changes hardware is an [AcceleratorOperation].  It is admitted
      against the other operations' claims, takes the node's lease, records a
      snapshot, applies through a participant, verifies, and commits or
      compensates.  Every status write is fenced by an epoch.
    - Verification ([internal/verification]).  After an operation, and
      periodically, evidence of what the hardware really is: observations are
      compared, judged against a policy, kept while fresh, watched for drift.
    - Health ([internal/health], [internal/controller/acceleratorhealth_controller.go]).
      Signals are folded into a verdict per node; a bad verdict withholds
      allocation, quarantines, and asks for a recovery operation.
    - Intent ([internal/intent]).  A workload names a class and a mode; the
      translation turns it into a resource and a list of nodes, over a snapshot
      of the cluster that the partition policies and the health verdicts shape.
    - Vendor capabilities ([internal/vendorcap]).  What each vendor's support is
      declared to be.
    - Driver upgrades ([internal/upgrade], [internal/validator],
      [internal/driverjob], [internal/driveradapter], [internal/draclaim],
      [driver_upgrade_controller.go], [operation_driver_participant.go]).  One
      state machine per node and vendor takes the node from the loaded driver
      version to the policy's: cordon and quiesce, drain, install (a DaemonSet or
      a Job), validate, reboot when the module cannot be replaced, uncordon; or
      roll back, or fail.
    - Partition policies ([internal/partition] and its [nvidia] and [rngd],
      [internal/naming], [acceleratorpartitionpolicy_controller.go], [acpp_*.go],
      [operation_participants.go], [operation_reboot.go]).  A node's devices are
      divided (MIG, RNGD) or shared (time slicing, MPS).  What a pass is about to
      do it first records in a journal in the policy's status: the cordon, the
      partitions, the reboot.  A later pass resumes or recovers from the journal.
    - Workloads ([acceleratorworkload_controller.go]).  The intent of an
      [AcceleratorWorkload] is translated at every pass and realised as a
      Deployment and, under DRA, a claim template.
    - The cluster policy ([npuclusterpolicy_*.go], [dra_driver.go],
      [dcgm_exporter.go], [vendor_table.go], [node_exclusion.go],
      [vendoroperator_*.go]).  The DaemonSets of every vendor the policy
      declares, the nodes they stay off, and the handover of a node from the
      device plugin to the vendor's DRA driver and back.
    - Descriptors ([internal/descriptor], [acceleratordescriptor_*.go],
      [generated_backend.go]).  A device described once; the operator generates
      a device plugin, a DRA driver, or both.
    - Admission webhooks ([internal/webhook]), and the gate that runs before the
      operator is uninstalled ([internal/uninstall]).
    Health and partitioning create operations, and their participants run the
    upgrade machine and the partition pass for them; operations end with a
    verification; health verdicts and partition policies decide what the
    translation may name; webhooks admit what the controllers then act on; two
    controllers write the device plugin's DaemonSet.

    ** Files

    - [Prelude]: automation, Go's wrapping integers, errors by kind, the state
      and error monad [M] of code that calls the API with its weakest
      precondition [wp], maps and the order the runtime ranges over them
      ([MapRange]); [GoStrings], [GoText], [GoTime]: what the code uses of
      [strings], [sort], [fmt], [strconv], [regexp], [time]; [Naming]
      (internal/naming/naming.go).
    - [ApiTypes], [PolicyTypes]: the fields of [api/v1alpha1] and of [Node] that
      several parts use.
    - [OperationModel] (types.go, model.go, conflict.go), [OperationStateMachine]
      (state_machine.go, gates.go), [OperationJournal] (journal.go, recovery.go,
      snapshot.go, fencing.go), [OperationLease] (lease.go) with
      [LeaseExclusion], [OperationController] (operation_controller.go) with
      [OperationSafety] and [OperationProgress].
    - [VerificationPolicy] (fingerprint.go, policy.go, freshness.go),
      [VerificationAgreement] (agreement.go), [VerificationDrift] (drift.go,
      version_drift.go), [Verifier] (verifier.go).
    - [VendorCap] (registry.go, matrix.go).
    - [HealthPolicy] (signal.go, policy.go, remediation.go), [HealthEvaluate]
      (evaluate.go, device.go), [HealthController] (the reconciler) with
      [HealthSafety] and [HealthRecovery].
    - [IntentResources] (resources.go, dra.go), [IntentGates] (mode.go,
      requirements.go), [IntentSnapshot] (snapshot.go), [IntentTranslate]
      (translate.go) with [IntentSafety] and [IntentCluster].
    - [UpgradeTypes] (the two CRDs, the Kubernetes objects and the API classes),
      [DriverAdapter] (adapter.go), [DriverJob] (job.go, rebootjob.go,
      hostcmdjob.go), [DriverImage] (image names and versions), [DraClaim]
      (draclaim.go), [Validators] (validator.go), [UpgradeNode] (what the machine
      does to nodes, pods and Deployments), [UpgradeMachine] (state_machine.go,
      state_machine_job.go: every handler and [TransitionState]).
      [UpgradeSpec] is the abstract control graph with its attempt counters and
      the writes each state allows; [UpgradeEffects] proves that every handler
      meets it, and holds an API that answers from a fixed picture of the
      cluster, on which the witnesses run; [UpgradeSafety] and [UpgradeGates] are
      the theorems.  [UpgradeController] (driver_upgrade_controller.go),
      [DriverParticipant] (operation_driver_participant.go).
    - [PartitionTypes] (acceleratorpartitionpolicy_types.go, internal/partition's
      types, the API), [PartitionProfiles] (profiles.go, sharing.go,
      rngd/mapping.go), [Quiescer] (quiesce.go); NVIDIA: [MigObserve]
      (migparse.go, observe.go) with [MigReading], [MigSteps] (geometry.go,
      migmode.go, migjob.go) with [MigJob], [NvidiaBackend] (backend.go,
      precondition.go), [SharingConfig] (timeslicing.go); [RngdBackend].
      The controller: [PartitionPass] (the state of a pass, journal, cordon, node
      lock, MIG mode), [AcppVerifier] (acpp_verifier.go), [PartitionSharing]
      (acpp_sharing.go), [PartitionApply] (the run of one target),
      [PartitionController] (the reconciler), [PartitionParticipant]
      (operation_participants.go, operation_reboot.go).  [PartitionSpec] says
      what a pass may write by what the journal holds; [PartitionEffects] and
      [PartitionReady] prove it.
    - [Uninstall] (gate.go) with [UninstallSafety] and [UninstallGate].
    - [PodSpec] (the rendered Pods and the scheduling rules), [Workload]
      (acceleratorworkload_*.go) with [WorkloadSafety].
    - [ClusterPolicy] (npuclusterpolicy_types.go, vendor_table.go,
      node_exclusion.go), [DevicePlugins] (the renderers), [DraDriver]
      (dra_driver.go), [ClusterPolicyPass] (the reconciler) with
      [ClusterPolicySafety].
    - [Webhook] (internal/webhook).
    - [Descriptor] (validate.go, verify.go, compile.go, compare.go),
      [DescriptorController] (the reconciler and its renderer).

    ** How the code is modelled

    A Go function becomes a Rocq function of the same name; a struct a record of
    the fields the code uses; a loop a [foldl] or a [Fixpoint] on the list it
    ranges over.  Code that calls the Kubernetes API is a computation in
    [M W]: a function from the world [W] to a value or an error and the new
    world.  Integers keep Go's width ([wrap32], [wrap64]).  [map] iteration takes
    its order from [MapRange], so a theorem holds for every order the runtime may
    pick.  Interleaving is explicit where it matters: in [LeaseExclusion] each
    API call of each process is a step, and time advances between any two.

    The API server is not under src/.  Each component reads and writes it through
    a class: [LeaseAPI], [OperationAPI], [VerifyAPI], [HealthAPI], [IntentAPI],
    [UpgradeAPI], [PartitionAPI] with [PartitionSeams], [ProbeAPI] and [MpsAPI],
    [UninstallAPI], [WorkloadAPI], [ClusterAPI], [DescriptorAPI].  Other libraries
    are classes as well: [Versions], [Requirements], [Selectors],
    [LabelSelectors], [Scheduler], [Quantities], [FieldRules], [ConfigJSON],
    [TemplateJSON], [Yaml], [Environment], [Clock], [Ticker].  The theorems that
    need more than the calls take it from a class of laws:
    - documented behaviour of the server: [LeaseAPILaws], [OperationAPILaws],
      [VerifyAPILaws], [HealthAPILaws], [UpgradeAPILaws], [UninstallLaws],
      [PatchLaws] (a merge patch changes the labels it names and leaves the
      others), [GeneratedStore], [JournalLaws]; and [SelectorLaws],
      [SchedulerLaws] of label selectors and of the scheduler;
    - that an invariant survives reads and the writes the specification allows:
      [ReadOnly], [PReadOnly], [Kept], [LeavesOperations], [KeepsAw], [KeepsNcp],
      [KeepsDesc].  A theorem over every such invariant says what is written: any
      other write could break one.
    Where a witness needs the laws there is an instance that runs, and the
    witness runs the code on it.

    The laws idealise on two points.  Times are nanoseconds and a stored object is
    read back as it was sent, where [metav1.Time] keeps seconds and
    [metav1.MicroTime] microseconds; and the server fills in no defaults.
    [JournalLaws] has one writer of a policy's journal, the one manager that runs,
    so a patched journal is the journal that was sent.

    ** What the theorems show

    - Operations: [Reconcile_keeps_invariant] (a stored operation always has the
      shape its phase promises), [hardware_only_under_lease] and
      [lease_mutual_exclusion] (hardware is touched only by the holder of the
      node's lease, and two processes never hold it), [fencing_keeps_epochs],
      [Acquire_correct], [Release_correct], [Admit_correct],
      [Conflicts_correct], [success_is_verified], [transition_table_sound],
      the journal and recovery decision, and how long applying and compensating
      can last ([apply_is_bounded], [answered_compensation_is_bounded]).
    - Verification: [Verify_sound], [Evaluate_correct], [EvaluateDrift_correct],
      [CheckFreshness_correct].
    - Health: the verdict and what it stores ([health_verdict_correct],
      [Reconcile_stores_verdict], [Reconcile_withholds]), stickiness
      ([quarantine_sticky]) and recovery ([recovery_is_warranted],
      [ensureRecovery_once], [recovery_history_and_release],
      [recovery_names_identify]).
    - Intent: both gates ([CheckMode_correct], [CheckRequirements_correct]), both
      paths of the translation sound ([Translate_sound], [TranslateDRA_sound]),
      the first complete ([Translate_complete]), refusals that name an axis, and
      the composition with policies and health
      ([translation_avoids_unfit_nodes]).
    - Driver upgrades: a pass, error or not, is a step of the abstract machine
      ([TransitionState_refines]): each move has its evidence, and a pass in
      Rollback counts an attempt, always in DaemonSet mode and in Job mode
      exactly when it has an image to return to and finds no install Job; it
      sends only the writes its state allows ([TransitionState_effects]);
      attempts are bounded ([attempts_bounded]); what a cycle needs to open, to
      pass the drain and to end ([idle_opens_only], [draining_waits],
      [uncordons_only_validated]); cordon and quiesce are undone exactly
      ([cordon_roundtrip], [quiesce_roundtrip]); the image a node gets
      ([resolveDriverImage_choice], [assembled_image_roundtrip]); the controller
      leaves running cycles alone ([sweep_spares_running]) and picks policies by
      [findPolicy_exact_first]; [driverOutcomeFor_events].
    - Partition policies: what a pass over a MIG policy may write is decided by
      the journal the server holds at that moment ([runNvidiaTarget_effects]);
      Ready only after the verification has seen the journal's counts
      ([ready_is_verified]); the Job of a geometry change is replaced only when
      it is over or a reboot took it along, and success means a Job that
      succeeded ([JobExecutor_Run_effects]); a quiesced node is empty
      ([AssertQuiesced_sound]); the text the observe script writes is read back,
      and what cannot be read is an error ([observation_roundtrip],
      [parseObservation_fail_closed]).
    - Workloads: every write of a pass is about the workload
      ([workload_writes]); it comes to rest ([workload_comes_to_rest]); it
      leaves an upgrade's scale-down alone ([quiesce_survives_reconcile]).
    - Cluster policy: every write of a pass ([policy_writes]); the handover to
      DRA and back ends in one of its settled states on every node
      ([handover_settles]); label and affinity exclude the same nodes
      ([exclusion_label_agrees]); the two writers of a device plugin agree
      ([two_writers_agree]).
    - Descriptors: what is generated, refused and compiled
      ([feasible_backends_compile], [comparison_is_of_sets]); the resolved
      devices ([resolution_is_exact]); the rendered objects
      ([generated_objects]); every write of a pass ([descriptor_writes]), and the
      objects it leaves ([pass_leaves_exactly_the_rendered]): those of its
      verdict, with the configured images, or none for one of the listed reasons.
    - Webhooks: what is admitted can be served ([admitted_class_serves],
      [admitted_partition_is_served]); the workload webhook and the controller
      decide alike ([admission_agrees]); the Pod mutator ([mutator_agrees]).
    - Uninstall: nothing happens while a pod uses an accelerator
      ([uninstall_refuses_while_used]); exactly what is removed and what stays
      ([uninstall_removes_exactly]); it ends ([uninstall_ends]).
    - Defects the model shows: [Release_can_remove_a_foreign_lease],
      [failing_compensation_is_never_counted],
      [long_node_names_share_recoveries], [mps_node_taken_for_exclusive], the
      sub-MiB slack of [CheckRequirements_correct],
      [rollback_reuses_finished_job]; the objects [uninstall_removes_exactly]
      says stay; the shared descriptor of [feasible_backends_compile] and
      [generated_objects].

    ** Bounds and fuel

    Most loops follow their data and need no fuel.  A poll with a timeout makes
    as many rounds as its interval fits in the timeout ([ticks_in]).  The wait of
    the uninstall gate reads the clock instead and takes fuel; [uninstall_ends]
    gives the amount with which it returns, and [uninstall_removes_exactly] speaks
    of any fuel with which it does.  [duration_terms], [chunks] and the SHA-256
    padding of [Naming] take the length of their input.  [GoStrings] and [GoTime]
    print numbers by stdpp's [pretty] and by explicit digit counts; RFC 3339 times
    are those of years 0 to 9999.  Strings are sequences of bytes and case
    folding, trimming and quoting are those of ASCII, which is what Kubernetes
    names, labels and the vendors' identifiers are.

    ** Not modelled, and why

    - Generated code (deepcopy), the CRD schemas and [config/]: no logic of
      their own.
    - [internal/apiserver], [cmd/], [pkg/npuctl], [internal/metrics],
      [internal/crdapply]: HTTP handlers, command lines, printing and counters
      over the same objects.
    - [driver_daemonset_controller.go], [toolkit_daemonset_controller.go]: they
      render one DaemonSet per policy and put it there.  The first leaves the
      image alone while a rollback is recorded; the upgrade machine reads the
      DaemonSet from the server and assumes nothing of its image.
    - [migobservation_controller.go]: runs the observer of [MigObserve] at an
      interval and takes an orphaned label off; the partition passes do not rely
      on it.
    - [devicereset_participant.go], [recoverdevice_participant.go]: two more
      participants.  The theorems on operations hold for any participant; the Job
      of the first is in [DriverJob].
    - [descriptor/corpus.go]: mutations for a test corpus.
    - Log lines, events and metric counters inside modelled functions.
    - Panics, contexts and cancellation; the retry loop of [client-go]. *)

From Stdlib Require Export Ascii.
From stdpp Require Export base tactics option list gmap strings pretty sorting.
From Stdlib Require Export ZArith Lia.

#[global] Open Scope Z_scope.

(** ** Proof automation shared by the library *)

Create HintDb go_db discriminated.

(** [simp_opt] clears the equations between options, pairs and sums that case
    analysis leaves behind. *)
Ltac simp_opt :=
  repeat match goal with
  | H : Some _ = Some _ |- _ => injection H as H; subst
  | H : Some _ = None |- _ => discriminate H
  | H : None = Some _ |- _ => discriminate H
  | H : (_, _) = (_, _) |- _ => injection H as H; subst
  | H : inl _ = inl _ |- _ => injection H as H; subst
  | H : inr _ = inr _ |- _ => injection H as H; subst
  | H : inl _ = inr _ |- _ => discriminate H
  | H : inr _ = inl _ |- _ => discriminate H
  end.

(** [split_cases] splits every [match] and [if] of the goal, simplifying. *)
Ltac split_case :=
  match goal with
  | |- context [match ?x with _ => _ end] =>
      lazymatch x with
      | context [match _ with _ => _ end] => fail
      | _ => destruct x eqn:?
      end
  end.
Ltac split_cases := repeat (split_case; simpl in *; simplify_eq; try done).

(** The same on a hypothesis. *)
Ltac split_case_in H :=
  match type of H with
  | context [match ?x with _ => _ end] =>
      lazymatch x with
      | context [match _ with _ => _ end] => fail
      | _ => destruct x eqn:?
      end
  end.
Ltac split_cases_in H := repeat (split_case_in H; simpl in H; simplify_eq; try done).

(** [bool_prop] turns the boolean tests of the code into propositions. *)
Ltac bool_prop :=
  repeat match goal with
  | H : (_ && _)%bool = true |- _ => apply andb_true_iff in H as [? ?]
  | H : (_ || _)%bool = false |- _ => apply orb_false_iff in H as [? ?]
  | H : negb _ = true |- _ => apply negb_true_iff in H
  | H : negb _ = false |- _ => apply negb_false_iff in H
  | H : bool_decide _ = true |- _ => apply bool_decide_eq_true in H
  | H : bool_decide _ = false |- _ => apply bool_decide_eq_false in H
  | H : (_ <? _) = true |- _ => apply Z.ltb_lt in H
  | H : (_ <? _) = false |- _ => apply Z.ltb_ge in H
  | H : (_ <=? _) = true |- _ => apply Z.leb_le in H
  | H : (_ <=? _) = false |- _ => apply Z.leb_gt in H
  | H : (_ =? _) = true |- _ => apply Z.eqb_eq in H
  | H : (_ =? _) = false |- _ => apply Z.eqb_neq in H
  end.

(** [decide_compute] proves a decidable closed goal by running its decision. *)
Ltac decide_compute := refine (bool_decide_unpack _ _); vm_compute; exact I.

(** ** Machine integers

    Go's [int32] and [int64] are two's-complement: a conversion or an
    arithmetic operation keeps the value modulo 2^32 (2^64). *)

Definition wrap32 (z : Z) : Z := (z + 2 ^ 31) mod 2 ^ 32 - 2 ^ 31.
Definition wrap64 (z : Z) : Z := (z + 2 ^ 63) mod 2 ^ 64 - 2 ^ 63.
Definition max_int32 : Z := 2 ^ 31 - 1.
Definition min_int32 : Z := - 2 ^ 31.
Definition max_int64 : Z := 2 ^ 63 - 1.
Definition min_int64 : Z := - 2 ^ 63.
Definition is_int32 (z : Z) : Prop := min_int32 <= z <= max_int32.
Definition is_int64 (z : Z) : Prop := min_int64 <= z <= max_int64.

#[global] Instance is_int32_dec z : Decision (is_int32 z).
Proof. unfold is_int32. apply _. Defined.
#[global] Instance is_int64_dec z : Decision (is_int64 z).
Proof. unfold is_int64. apply _. Defined.

Lemma wrap32_range z : is_int32 (wrap32 z).
Proof.
  unfold is_int32, wrap32, min_int32, max_int32.
  pose proof (Z.mod_pos_bound (z + 2 ^ 31) (2 ^ 32)). lia.
Qed.

Lemma wrap32_id z : is_int32 z → wrap32 z = z.
Proof.
  unfold is_int32, wrap32, min_int32, max_int32. intros ?.
  rewrite Z.mod_small; lia.
Qed.

Lemma wrap64_range z : is_int64 (wrap64 z).
Proof.
  unfold is_int64, wrap64, min_int64, max_int64.
  pose proof (Z.mod_pos_bound (z + 2 ^ 63) (2 ^ 64)). lia.
Qed.

Lemma wrap64_id z : is_int64 z → wrap64 z = z.
Proof.
  unfold is_int64, wrap64, min_int64, max_int64. intros ?.
  rewrite Z.mod_small; lia.
Qed.
#[export] Hint Resolve wrap32_range wrap64_range : go_db.

(** ** Errors

    A Go [error] is nil or carries a message; the code asks the Kubernetes
    client's errors for their reason with [apierrors.IsNotFound] and the like,
    which look through [fmt.Errorf("...: %w", err)]. *)

Inductive ErrKind :=
| KNotFound | KAlreadyExists | KConflict | KNoMatch | KTooManyRequests | KInvalid | KForbidden | KBadRequest
| KClaimAllocated | KMpsNotReady | KDeploymentNotOwned | KTemplateNotOwned | KTemplateDrift | KOther.
#[global] Instance ErrKind_eq_dec : EqDecision ErrKind.
Proof. solve_decision. Defined.

Record GoErr := mkErr { err_kind : ErrKind; err_msg : string }.
#[global] Instance GoErr_eq_dec : EqDecision GoErr.
Proof. solve_decision. Defined.

(** [fmt.Errorf("<prefix>: %w", e)]: the message grows, the kind stays. *)
Definition errorf_w (prefix : string) (e : GoErr) : GoErr :=
  mkErr (err_kind e) (prefix +:+ ": " +:+ err_msg e).
Definition errorf (msg : string) : GoErr := mkErr KOther msg.
Definition is_not_found (e : GoErr) : bool := bool_decide (err_kind e = KNotFound).
Definition is_already_exists (e : GoErr) : bool := bool_decide (err_kind e = KAlreadyExists).
Definition is_conflict (e : GoErr) : bool := bool_decide (err_kind e = KConflict).
Definition is_too_many_requests (e : GoErr) : bool := bool_decide (err_kind e = KTooManyRequests).
Definition is_no_match (e : GoErr) : bool := bool_decide (err_kind e = KNoMatch).

(** ** A state and error monad

    Effectful code is a function from the state it can touch to a value or an
    error and the new state.  The state survives an error: what a function
    wrote before it failed stays written. *)

Definition M (S A : Type) : Type := S → (A + GoErr) * S.

#[global] Instance M_ret S : MRet (M S) := λ A a s, (inl a, s).
#[global] Instance M_bind S : MBind (M S) := λ A B f m s,
  match m s with
  | (inl a, s') => f a s'
  | (inr e, s') => (inr e, s')
  end.
#[global] Instance M_fmap S : FMap (M S) := λ A B f m s,
  match m s with
  | (inl a, s') => (inl (f a), s')
  | (inr e, s') => (inr e, s')
  end.

Definition throw {S A} (e : GoErr) : M S A := λ s, (inr e, s).
Definition gets {S A} (f : S → A) : M S A := λ s, (inl (f s), s).
Definition modify {S} (f : S → S) : M S () := λ s, (inl (), f s).
(** [v, err := m()]: the caller looks at the error itself. *)
Definition try {S A} (m : M S A) : M S (A + GoErr) := λ s,
  match m s with (r, s') => (inl r, s') end.

(** Run [m] on one component of a larger state. *)
Definition zoom {S T A} (get : T → S) (put : S → T → T) (m : M S A) : M T A := λ t,
  match m (get t) with (r, s') => (r, put s' t) end.

(** A loop over a slice. *)
Fixpoint for_each {S A} (f : A → M S ()) (l : list A) : M S () :=
  match l with
  | [] => mret ()
  | x :: l => _ ← f x; for_each f l
  end.

Lemma bind_inl {S A B} (m : M S A) (f : A → M S B) s a s' :
  m s = (inl a, s') → (m ≫= f) s = f a s'.
Proof. unfold mbind, M_bind. by intros ->. Qed.

Lemma bind_inr {S A B} (m : M S A) (f : A → M S B) s e s' :
  m s = (inr e, s') → (m ≫= f) s = (inr e, s').
Proof. unfold mbind, M_bind. by intros ->. Qed.

Lemma bind_inl_inv {S A B} (m : M S A) (f : A → M S B) s b s' :
  (m ≫= f) s = (inl b, s') → ∃ a s1, m s = (inl a, s1) ∧ f a s1 = (inl b, s').
Proof. unfold mbind, M_bind. destruct (m s) as [[a|e] s1]; [eauto|done]. Qed.

Lemma bind_inv {S A B} (m : M S A) (f : A → M S B) s x s' :
  (m ≫= f) s = (x, s') →
  (∃ a s1, m s = (inl a, s1) ∧ f a s1 = (x, s')) ∨ (∃ e, m s = (inr e, s') ∧ x = inr e).
Proof. unfold mbind, M_bind. destruct (m s) as [[a|e] s1]; naive_solver. Qed.

Lemma bind_try_inv {S A B} (m : M S A) (f : A + GoErr → M S B) s x s' :
  (try m ≫= f) s = (x, s') → ∃ r s1, m s = (r, s1) ∧ f r s1 = (x, s').
Proof. unfold mbind, M_bind, try. destruct (m s) as [r s1]; eauto. Qed.

Lemma bind_try {S A B} (m : M S A) (f : A + GoErr → M S B) s :
  (try m ≫= f) s = f (m s).1 (m s).2.
Proof. unfold mbind, M_bind, try. by destruct (m s). Qed.

(** *** Two ways to reason about a computation without running it

    [keeps view m]: [m] leaves [view] of the state as it was, whether it
    succeeds or fails.  [yields m Q]: every value [m] returns satisfies [Q]. *)

Definition keeps {S A B} (view : S → B) (m : M S A) : Prop := ∀ s, view (m s).2 = view s.
Definition yields {S A} (m : M S A) (Q : A → Prop) : Prop := ∀ s a s', m s = (inl a, s') → Q a.

Section Keeps.
Context {S B : Type} (view : S → B).

Lemma keeps_ret {A} (a : A) : keeps view (mret a : M S A).
Proof. by intros s. Qed.
Lemma keeps_throw {A} e : keeps view (throw e : M S A).
Proof. by intros s. Qed.
Lemma keeps_bind {A C} (m : M S A) (f : A → M S C) :
  keeps view m → (∀ a, keeps view (f a)) → keeps view (m ≫= f).
Proof.
  intros Hm Hf s. unfold mbind, M_bind. specialize (Hm s). destruct (m s) as [[a|e] s1]; simpl in *.
  - by rewrite Hf.
  - done.
Qed.
Lemma keeps_try {A} (m : M S A) : keeps view m → keeps view (try m).
Proof. intros Hm s. unfold try. specialize (Hm s). by destruct (m s). Qed.
Lemma keeps_run {A} (m : M S A) s r s' : keeps view m → m s = (r, s') → view s' = view s.
Proof. intros Hm E. specialize (Hm s). by rewrite E in Hm. Qed.
(** Peels a step that leaves the view alone off a run. *)
Lemma bind_keeps_inv {A C} (m : M S A) (f : A → M S C) s x s' :
  keeps view m → (m ≫= f) s = (x, s') →
  (∃ a s1, m s = (inl a, s1) ∧ view s1 = view s ∧ f a s1 = (x, s')) ∨
  (∃ e, m s = (inr e, s') ∧ view s' = view s ∧ x = inr e).
Proof.
  intros Hm [(a & s1 & E1 & E2)|(e & E1 & ->)]%bind_inv; [left|right]; eauto 7 using keeps_run.
Qed.
End Keeps.
#[export] Hint Resolve keeps_ret keeps_throw keeps_bind keeps_try : go_db.

Section Yields.
Context {S : Type}.

Lemma yields_ret {A} (a : A) (Q : A → Prop) : Q a → yields (mret a : M S A) Q.
Proof. intros ? s a' s' [= <- _]. done. Qed.
Lemma yields_throw {A} e (Q : A → Prop) : yields (throw e : M S A) Q.
Proof. by intros s a s' [=]. Qed.
Lemma yields_bind {A C} (m : M S A) (f : A → M S C) (P : A → Prop) Q :
  yields m P → (∀ a, P a → yields (f a) Q) → yields (m ≫= f) Q.
Proof.
  intros Hm Hf s c s' (a & s1 & E1 & E2)%bind_inl_inv. eapply Hf; [by eapply Hm|done].
Qed.
Lemma yields_then {A C} (m : M S A) (f : A → M S C) Q :
  (∀ a, yields (f a) Q) → yields (m ≫= f) Q.
Proof. intros Hf. by apply (yields_bind _ _ (λ _, True)). Qed.
Lemma yields_impl {A} (m : M S A) (P Q : A → Prop) :
  yields m P → (∀ a, P a → Q a) → yields m Q.
Proof. intros Hm H s a s' E. by eapply H, Hm. Qed.
End Yields.

(** *** Weakest preconditions

    [wp m Q s]: running [m] from [s] ends in a result and a state that satisfy
    [Q], whether [m] succeeds or fails.  The first step of a computation decides
    which rule applies, so a proof walks a handler in the order it is written. *)

Definition wp {S A} (m : M S A) (Q : A + GoErr → S → Prop) (s : S) : Prop := Q (m s).1 (m s).2.

Section WP.
Context {S : Type}.

Lemma wp_ret {A} (a : A) Q (s : S) : Q (inl a) s → wp (mret a) Q s.
Proof. done. Qed.
Lemma wp_throw {A} e (Q : A + GoErr → S → Prop) s : Q (inr e) s → wp (throw e) Q s.
Proof. done. Qed.
Lemma wp_bind {A B} (m : M S A) (f : A → M S B) Q s :
  wp m (λ r s', match r with inl a => wp (f a) Q s' | inr e => Q (inr e) s' end) s → wp (m ≫= f) Q s.
Proof. unfold wp, mbind, M_bind. by destruct (m s) as [[a|e] s']. Qed.
Lemma wp_fmap {A B} (f : A → B) (m : M S A) Q s :
  wp m (λ r s', match r with inl a => Q (inl (f a)) s' | inr e => Q (inr e) s' end) s → wp (f <$> m) Q s.
Proof. unfold wp, fmap, M_fmap. by destruct (m s) as [[a|e] s']. Qed.
Lemma wp_try {A} (m : M S A) Q s : wp m (λ r s', Q (inl r) s') s → wp (try m) Q s.
Proof. unfold wp, try. by destruct (m s). Qed.
Lemma wp_gets {A} (f : S → A) Q s : Q (inl (f s)) s → wp (gets f) Q s.
Proof. done. Qed.
Lemma wp_modify (f : S → S) Q s : Q (inl ()) (f s) → wp (modify f) Q s.
Proof. done. Qed.
Lemma wp_mono {A} (m : M S A) (P Q : A + GoErr → S → Prop) s :
  wp m P s → (∀ r s', P r s' → Q r s') → wp m Q s.
Proof. unfold wp. auto. Qed.
Lemma wp_zoom {T A} (get : T → S) put (m : M S A) (Q : A + GoErr → T → Prop) t :
  wp m (λ r s', Q r (put s' t)) (get t) → wp (zoom get put m) Q t.
Proof. unfold wp, zoom. by destruct (m (get t)). Qed.
Lemma wp_run {A} (m : M S A) Q s r s' : wp m Q s → m s = (r, s') → Q r s'.
Proof. unfold wp. intros H E. by rewrite E in H. Qed.
Lemma wp_true {A} (m : M S A) s : wp m (λ _ _, True) s.
Proof. done. Qed.
Lemma wp_for_each {A} (P : S → Prop) (f : A → M S ()) l (s : S) :
  (∀ x s, x ∈ l → P s → wp (f x) (λ _ s', P s') s) → P s → wp (for_each f l) (λ _ s', P s') s.
Proof.
  revert s. induction l as [|x l IH]; intros s Hf HP; simpl; [done|].
  apply wp_bind. eapply wp_mono; [apply Hf; [by left|done]|].
  intros [[]|e] s' HP'; [|done]. apply IH; [|done]. intros. apply Hf; [by right|done].
Qed.
End WP.

(** *** Invariants

    [preserves P m]: [m] keeps [P], whether it succeeds or fails. *)
Definition preserves {S A} (P : S → Prop) (m : M S A) : Prop := ∀ s, P s → wp m (λ _ s', P s') s.

Section Preserves.
Context {S : Type} (P : S → Prop).

Lemma preserves_ret {A} (a : A) : preserves P (mret a : M S A).
Proof. by intros s. Qed.
Lemma preserves_throw {A} e : preserves P (throw e : M S A).
Proof. by intros s. Qed.
Lemma preserves_bind {A B} (m : M S A) (f : A → M S B) :
  preserves P m → (∀ a, preserves P (f a)) → preserves P (m ≫= f).
Proof. intros Hm Hf s HP. apply wp_bind. eapply wp_mono; [by apply Hm|]. intros [a|e] s' HP'; [by apply Hf|done]. Qed.
Lemma preserves_try {A} (m : M S A) : preserves P m → preserves P (try m).
Proof. intros Hm s HP. apply wp_try. by apply Hm. Qed.
Lemma preserves_for_each {A} (f : A → M S ()) l : (∀ x, x ∈ l → preserves P (f x)) → preserves P (for_each f l).
Proof. intros Hf s HP. apply wp_for_each; [|done]. intros x s' Hx HP'. by apply Hf. Qed.
Lemma preserves_keeps {A B} (view : S → B) (m : M S A) :
  keeps view m → (∀ s s', view s' = view s → P s → P s') → preserves P m.
Proof. intros Hm HP s Hs. apply (HP s); [apply Hm|done]. Qed.
(** A step that keeps [P], and what it answered. *)
Lemma wp_try_of {A B} (m : M S A) (f : A + GoErr → M S B) Q s : preserves P m → P s →
  (∀ r s', m s = (r, s') → P s' → wp (f r) Q s') → wp (r ← try m; f r) Q s.
Proof.
  intros Hm HP Hf. unfold wp. rewrite bind_try. specialize (Hm s HP). unfold wp in Hm.
  destruct (m s) as [r s'] eqn:E. by apply Hf.
Qed.

(** [gives R m]: [m] keeps [P], and what it answers satisfies [R]. *)
Definition gives {A} (R : A → Prop) (m : M S A) : Prop :=
  ∀ s, P s → wp m (λ r s', P s' ∧ match r with inl a => R a | inr _ => True end) s.
(** Answered in a state that satisfied [P]. *)
Definition answers {A} (m : M S A) (a : A) : Prop := ∃ s s', P s ∧ m s = (inl a, s').
Lemma gives_preserves {A} R (m : M S A) : gives R m → preserves P m.
Proof. intros Hm s HP. eapply wp_mono; [by apply Hm|]. by intros r s' [? _]. Qed.
Lemma preserves_gives {A} (m : M S A) : preserves P m → gives (answers m) m.
Proof.
  intros Hm s HP. specialize (Hm s HP). unfold wp in *. destruct (m s) as [r s'] eqn:E. split; [done|].
  destruct r; [|done]. by exists s, s'.
Qed.
Lemma preserves_gives_True {A} (m : M S A) : preserves P m → gives (λ _, True) m.
Proof. intros Hm s HP. eapply wp_mono; [by apply Hm|]. by intros [] s'. Qed.
Lemma gives_mono {A} (R Q : A → Prop) (m : M S A) : gives R m → (∀ a, R a → Q a) → gives Q m.
Proof. intros Hm HQ s HP. eapply wp_mono; [by apply Hm|]. intros [a|] s' [? ?]; split; auto. Qed.
Lemma gives_ret {A} (R : A → Prop) (a : A) : R a → gives R (mret a).
Proof. by intros ? s. Qed.
Lemma gives_throw {A} (R : A → Prop) e : gives R (throw e : M S A).
Proof. by intros s. Qed.
Lemma gives_bind {A B} (R : A → Prop) (Q : B → Prop) (m : M S A) f :
  gives R m → (∀ a, R a → gives Q (f a)) → gives Q (m ≫= f).
Proof. intros Hm Hf s HP. apply wp_bind. eapply wp_mono; [by apply Hm|]. intros [a|e] s' [HP' HR]; [by apply Hf|done]. Qed.
(** What comes first only matters for the state. *)
Lemma gives_then {A B} (Q : B → Prop) (m : M S A) f : preserves P m → (∀ a, gives Q (f a)) → gives Q (m ≫= f).
Proof. intros Hm Hf. apply (gives_bind (λ _, True)); [by apply preserves_gives_True|done]. Qed.
Lemma preserves_after {A B} (R : A → Prop) (m : M S A) (f : A → M S B) :
  gives R m → (∀ a, R a → preserves P (f a)) → preserves P (m ≫= f).
Proof. intros Hm Hf. apply (gives_preserves (λ _, True)), (gives_bind R); [done|]. intros a Ha. by apply preserves_gives_True, Hf. Qed.
Lemma wp_after {A B} (R : A → Prop) (m : M S A) (f : A → M S B) Q s : gives R m → P s →
  (∀ a s', P s' → R a → wp (f a) Q s') → (∀ e s', P s' → Q (inr e) s') → wp (m ≫= f) Q s.
Proof. intros Hm HP Hf He. apply wp_bind. eapply wp_mono; [by apply Hm|]. intros [a|e] s' [HP' HR]; auto. Qed.
Lemma gives_checked {A B} (R : A → Prop) (Q : B → Prop) (m : M S A) (f : A + GoErr → M S B) :
  gives R m → (∀ a, R a → gives Q (f (inl a))) → (∀ e, gives Q (f (inr e))) → gives Q (r ← try m; f r).
Proof.
  intros Hm Hok He s HP. apply wp_bind, wp_try. eapply wp_mono; [by apply Hm|].
  intros [a|e] s' [HP' HR]; [by apply Hok|by apply He].
Qed.
Lemma preserves_checked {A B} (R : A → Prop) (m : M S A) (f : A + GoErr → M S B) :
  gives R m → (∀ a, R a → preserves P (f (inl a))) → (∀ e, preserves P (f (inr e))) → preserves P (r ← try m; f r).
Proof.
  intros Hm Hok He. apply (gives_preserves (λ _, True)), (gives_checked R); [done|..]; intros; by apply preserves_gives_True; auto.
Qed.
End Preserves.

(** One step: the rule the head of the computation calls for. *)
Ltac wp_step :=
  lazymatch goal with
  | |- wp (mbind _ _) _ _ => apply wp_bind
  | |- wp (fmap _ _) _ _ => apply wp_fmap
  | |- wp (try _) _ _ => apply wp_try
  | |- wp (mret _) _ _ => apply wp_ret
  | |- wp (throw _) _ _ => apply wp_throw
  | |- wp (gets _) _ _ => apply wp_gets
  | |- wp (modify _) _ _ => apply wp_modify
  | |- wp (if ?b then _ else _) _ _ => destruct b eqn:?
  | |- wp (match ?x with _ => _ end) _ _ => destruct x eqn:?
  | |- ∀ _, _ => intros ?
  end; cbv beta iota.

(** Unfold the monad's combinators in the goal. *)
Ltac munfold :=
  unfold mbind, M_bind, mret, M_ret, fmap, M_fmap, throw, gets, modify, try, zoom in *;
  simpl in *.

(** ** Go maps

    A [map[string]V] is a [gmap string V].  Reading an absent key gives the
    zero value; [range] visits every entry once in an order the runtime
    picks, so a loop over a map takes that order from [MapRange]. *)

Definition mget {V} (zero : V) (m : gmap string V) (k : string) : V := default zero (m !! k).

Class MapRange := {
  range_map : ∀ {V : Type}, gmap string V → list (string * V);
  range_map_perm : ∀ {V : Type} (m : gmap string V), range_map m ≡ₚ map_to_list m;
}.

(** One order the runtime may pick; the witnesses run with it. *)
#[export] Instance map_range_default : MapRange | 100 :=
  {| range_map V m := map_to_list m; range_map_perm V m := Permutation_refl _ |}.

Section MapRange.
Context `{MapRange} {V : Type}.
Implicit Types m : gmap string V.

Lemma elem_of_range_map m k v : (k, v) ∈ range_map m ↔ m !! k = Some v.
Proof. rewrite range_map_perm. apply elem_of_map_to_list. Qed.

Lemma range_map_fst_NoDup m : NoDup (range_map m).*1.
Proof. rewrite range_map_perm. apply NoDup_fst_map_to_list. Qed.

Lemma range_map_nil m : range_map m = [] ↔ m = ∅.
Proof.
  split.
  - intros E. apply map_to_list_empty_iff. apply Permutation_nil.
    by rewrite <-E, range_map_perm.
  - intros ->. apply Permutation_nil. symmetry.
    by rewrite range_map_perm, map_to_list_empty.
Qed.
End MapRange.

(** [set[k] = true] for the keys of a list, and a lookup in such a set. *)
Definition string_set (l : list string) : gset string := list_to_set l.

(** The first element that passes a test, as a Go loop with an early return. *)
Fixpoint find_first {A} (p : A → bool) (l : list A) : option A :=
  match l with
  | [] => None
  | x :: l => if p x then Some x else find_first p l
  end.

Lemma find_first_Some {A} (p : A → bool) l x :
  find_first p l = Some x →
  ∃ l1 l2, l = l1 ++ x :: l2 ∧ p x = true ∧ Forall (λ y, p y = false) l1.
Proof.
  induction l as [|y l IH]; simpl; [done|].
  destruct (p y) eqn:E.
  - intros [= ->]. by exists [], l.
  - intros (l1 & l2 & -> & ? & ?)%IH. exists (y :: l1), l2. eauto.
Qed.

Lemma find_first_None {A} (p : A → bool) l :
  find_first p l = None ↔ Forall (λ y, p y = false) l.
Proof.
  induction l as [|y l IH]; simpl; [split; auto|].
  rewrite Forall_cons. destruct (p y); [naive_solver|]. rewrite IH. naive_solver.
Qed.

Lemma existsb_elem {A} (p : A → bool) l :
  existsb p l = true ↔ ∃ x, x ∈ l ∧ p x = true.
Proof.
  rewrite existsb_exists. by setoid_rewrite <-list_elem_of_In.
Qed.
Lemma existsb_perm {A} (p : A → bool) l l' : l ≡ₚ l' → existsb p l = existsb p l'.
Proof.
  intros P. apply eq_iff_eq_true. rewrite !existsb_elem. by setoid_rewrite P.
Qed.
Lemma filter_none {A} (P : A → Prop) `{!∀ x, Decision (P x)} l : (∀ x, x ∈ l → ¬ P x) → filter P l = [].
Proof.
  induction l as [|x l IH]; intros Hn; [done|]. rewrite filter_cons, decide_False by (apply Hn; by left).
  apply IH. intros y Hy. apply Hn. by right.
Qed.
