(* ===== verification/GoStrings.v ===== *)
(** * The Go string functions the operator uses

    Byte order on strings, [sort.Strings]/[sort.Slice], [strings.Join],
    [strings.ToLower], [strings.EqualFold], [strings.TrimSpace],
    [strings.Cut], the [%q], [%v] and [%d] verbs of [fmt], with the lemmas on
    sorting the components share.

    Case mapping and folding are those of ASCII, the alphabet of every name
    the operator compares (vendors, products, resource names); [%q] escapes
    ASCII and passes the bytes of a multi-byte character through, which is
    what it does on printable text. *)

From S2P Require Import Prelude.

(** ** Order: Go compares strings byte by byte. *)

Definition str_leb (a b : string) : bool := String.leb a b.
Definition str_ltb (a b : string) : bool := negb (String.leb b a).

Lemma str_leb_le a b : str_leb a b = true ↔ String.le a b.
Proof. unfold str_leb, String.le. by destruct (String.leb a b). Qed.

Lemma str_leb_refl a : str_leb a a = true.
Proof. apply str_leb_le. reflexivity. Qed.

Lemma str_leb_trans a b c : str_leb a b = true → str_leb b c = true → str_leb a c = true.
Proof. rewrite !str_leb_le. intros; by etrans. Qed.

Lemma str_leb_antisym a b : str_leb a b = true → str_leb b a = true → a = b.
Proof. rewrite !str_leb_le. apply (anti_symm String.le). Qed.

Lemma str_leb_total a b : str_leb a b = true ∨ str_leb b a = true.
Proof. rewrite !str_leb_le. apply (total String.le). Qed.

Lemma str_ltb_ge a b : str_ltb a b = false ↔ str_leb b a = true.
Proof. unfold str_ltb, str_leb. by destruct (String.leb b a). Qed.

Lemma str_ltb_le a b : str_ltb a b = true → str_leb a b = true.
Proof.
  intros H. destruct (str_leb_total a b) as [|C]; [done|].
  unfold str_ltb in H. unfold str_leb in C. by rewrite C in H.
Qed.

Lemma str_ltb_irrefl a : str_ltb a a = false.
Proof. apply str_ltb_ge, str_leb_refl. Qed.

(** ** Sorting

    [sort.Slice(l, less)] leaves a permutation of [l] in which no later
    element is less than an earlier one.  [sort_slice] computes one: a stable
    insertion sort, which is what Go's own sort runs on up to 12 elements.  On
    longer slices only the relative order of elements that [less] does not
    separate may differ; [sort_slice_unique] is the case without any. *)

Fixpoint insert_by {A} (less : A → A → bool) (x : A) (l : list A) : list A :=
  match l with
  | [] => [x]
  | y :: ys => if less y x then y :: insert_by less x ys else x :: y :: ys
  end.
Definition sort_slice {A} (less : A → A → bool) (l : list A) : list A :=
  foldr (insert_by less) [] l.

Lemma insert_by_perm {A} (less : A → A → bool) x l : insert_by less x l ≡ₚ x :: l.
Proof.
  induction l as [|y l IH]; simpl; [done|]. destruct (less y x); [|done].
  rewrite IH. apply Permutation_swap.
Qed.

Lemma sort_slice_perm {A} (less : A → A → bool) l : sort_slice less l ≡ₚ l.
Proof. induction l as [|x l IH]; simpl; [done|]. by rewrite insert_by_perm, IH. Qed.

Lemma elem_of_sort_slice {A} (less : A → A → bool) x l : x ∈ sort_slice less l ↔ x ∈ l.
Proof. by rewrite sort_slice_perm. Qed.

(** [less] orders [A] when "not less" is a total preorder. *)
Class LessOrder {A} (less : A → A → bool) : Prop := {
  less_ge_trans a b c : less b a = false → less c b = false → less c a = false;
  less_asym a b : less a b = true → less b a = false;
}.
Definition not_after {A} (less : A → A → bool) (a b : A) : Prop := less b a = false.

Lemma insert_by_sorted {A} (less : A → A → bool) `{!LessOrder less} x l :
  StronglySorted (not_after less) l → StronglySorted (not_after less) (insert_by less x l).
Proof.
  induction 1 as [|y l Hs IH Hy]; simpl; [repeat constructor|].
  destruct (less y x) eqn:E.
  - constructor; [done|]. apply Forall_forall. intros z.
    rewrite insert_by_perm, elem_of_cons. intros [->|Hz].
    + by apply less_asym.
    + by eapply Forall_forall in Hy.
  - constructor; [by constructor|]. constructor; [done|].
    eapply Forall_impl; [done|]. intros z ?. by eapply less_ge_trans.
Qed.

Lemma sort_slice_sorted {A} (less : A → A → bool) `{!LessOrder less} l :
  StronglySorted (not_after less) (sort_slice less l).
Proof. induction l; simpl; [constructor|]. by apply insert_by_sorted. Qed.

(** Sorting is deterministic as soon as [less] separates the elements: the
    input's order, and the sorting algorithm, do not matter. *)
Lemma sort_slice_unique {A} (less : A → A → bool) `{!LessOrder less} l l' :
  (∀ a b, a ∈ l → b ∈ l → less a b = false → less b a = false → a = b) →
  l ≡ₚ l' → sort_slice less l = sort_slice less l'.
Proof.
  intros Hsep P. eapply (StronglySorted_unique_strong (not_after less)).
  - intros a b. rewrite !elem_of_sort_slice. intros Ha Hb H1 H2.
    rewrite <-P in Hb. by apply Hsep.
  - by apply sort_slice_sorted.
  - by apply sort_slice_sorted.
  - by rewrite !sort_slice_perm.
Qed.

(** [func(i, j) bool { return key(i) < key(j) }] *)
Definition less_on {A} (key : A → string) (a b : A) : bool := str_ltb (key a) (key b).
#[export] Instance less_on_order {A} (key : A → string) : LessOrder (less_on key).
Proof.
  constructor; unfold less_on.
  - intros a b c. rewrite !str_ltb_ge. intros; by eapply str_leb_trans.
  - intros a b H. apply str_ltb_ge. by apply str_ltb_le.
Qed.
Definition sort_on {A} (key : A → string) : list A → list A := sort_slice (less_on key).
(** [sort.Strings] *)
Definition sort_strings : list string → list string := sort_on id.

(** By one key, then by another: [if f(i) != f(j) { return f(i) < f(j) }; return g(i) < g(j)]. *)
Definition lex_less {A} (f g : A → string) (a b : A) : bool :=
  if bool_decide (f a ≠ f b) then str_ltb (f a) (f b) else str_ltb (g a) (g b).
Lemma lex_less_ge {A} (f g : A → string) a b :
  lex_less f g a b = false ↔
    (f a = f b ∧ str_leb (g b) (g a) = true) ∨ (f a ≠ f b ∧ str_leb (f b) (f a) = true).
Proof. unfold lex_less. case_bool_decide; rewrite str_ltb_ge; naive_solver. Qed.
#[export] Instance lex_less_order {A} (f g : A → string) : LessOrder (lex_less f g).
Proof.
  constructor.
  - intros a b c. rewrite !lex_less_ge. intros [[E1 H1]|[N1 H1]] [[E2 H2]|[N2 H2]].
    + left. split; [congruence|by eapply str_leb_trans].
    + right. split; congruence.
    + right. split; congruence.
    + right. split; [|by eapply str_leb_trans].
      intros E. apply N1. rewrite E in H2. by apply str_leb_antisym.
  - intros a b Hl. apply not_true_iff_false. intros Hl'. unfold lex_less in *.
    repeat case_bool_decide; try congruence;
      apply str_ltb_le in Hl; unfold str_leb, str_ltb in *; by rewrite Hl in Hl'.
Qed.
(** Elements that neither precedes have both keys equal. *)
Lemma lex_less_eq {A} (f g : A → string) a b :
  lex_less f g a b = false → lex_less f g b a = false → f a = f b ∧ g a = g b.
Proof.
  rewrite !lex_less_ge. intros [[E1 H1]|[N1 H1]] [[E2 H2]|[N2 H2]]; try congruence.
  - split; [done|by apply str_leb_antisym].
  - by destruct N1; apply str_leb_antisym.
Qed.

Lemma sort_on_perm {A} (key : A → string) l : sort_on key l ≡ₚ l.
Proof. apply sort_slice_perm. Qed.
Lemma elem_of_sort_on {A} (key : A → string) x l : x ∈ sort_on key l ↔ x ∈ l.
Proof. apply elem_of_sort_slice. Qed.
Lemma elem_of_sort_strings x l : x ∈ sort_strings l ↔ x ∈ l.
Proof. apply elem_of_sort_slice. Qed.
Lemma sort_strings_perm l : sort_strings l ≡ₚ l.
Proof. apply sort_slice_perm. Qed.

Lemma NoDup_key_inj {A} (key : A → string) (l : list A) a b :
  NoDup (key <$> l) → a ∈ l → b ∈ l → key a = key b → a = b.
Proof.
  intros ND (i & Hi)%list_elem_of_lookup (j & Hj)%list_elem_of_lookup E.
  assert (i = j) as ->; [|congruence].
  eapply NoDup_lookup; [done|..]; rewrite list_lookup_fmap.
  - by rewrite Hi.
  - by rewrite Hj, E.
Qed.

Lemma sort_on_unique {A} (key : A → string) l l' :
  NoDup (key <$> l) → l ≡ₚ l' → sort_on key l = sort_on key l'.
Proof.
  intros ND. apply sort_slice_unique; [apply _|].
  intros a b Ha Hb H1 H2. eapply NoDup_key_inj; [done..|].
  apply str_leb_antisym; by apply str_ltb_ge.
Qed.

Lemma sort_strings_unique l l' : l ≡ₚ l' → sort_strings l = sort_strings l'.
Proof.
  apply sort_slice_unique; [apply _|]. intros a b _ _ H1 H2.
  apply str_leb_antisym; by apply str_ltb_ge.
Qed.

Lemma sort_on_sorted {A} (key : A → string) l l1 x l2 y :
  sort_on key l = l1 ++ x :: l2 → y ∈ l2 → str_leb (key x) (key y) = true.
Proof.
  intros E Hy. pose proof (sort_slice_sorted (less_on key) l) as S.
  fold (sort_on key l) in S. rewrite E in S.
  apply StronglySorted_app in S as (_ & _ & S).
  apply StronglySorted_inv in S as [_ S].
  rewrite Forall_forall in S. apply S in Hy. by apply str_ltb_ge.
Qed.

(** ** strings.Join, case, white space, prefixes *)

Fixpoint join (sep : string) (l : list string) : string :=
  match l with
  | [] => ""
  | [x] => x
  | x :: xs => x +:+ sep +:+ join sep xs
  end.

Definition lower_ascii (c : ascii) : ascii :=
  let n := Ascii.N_of_ascii c in
  if ((65 <=? n) && (n <=? 90))%N then Ascii.ascii_of_N (n + 32) else c.
Fixpoint string_map (f : ascii → ascii) (s : string) : string :=
  match s with EmptyString => EmptyString | String c s => String (f c) (string_map f s) end.
(** [strings.ToLower] *)
Definition to_lower (s : string) : string := string_map lower_ascii s.
(** [strings.EqualFold] *)
Definition equal_fold (a b : string) : bool := bool_decide (to_lower a = to_lower b).

Lemma lower_ascii_idem c : lower_ascii (lower_ascii c) = lower_ascii c.
Proof. destruct c as [[] [] [] [] [] [] [] []]; reflexivity. Qed.
Lemma to_lower_idem s : to_lower (to_lower s) = to_lower s.
Proof.
  unfold to_lower. induction s as [|c s IH]; simpl; [done|]. by rewrite lower_ascii_idem, IH.
Qed.

(** Go's ASCII white space: tab, newline, vertical tab, form feed, return, space. *)
Definition is_space (c : ascii) : bool :=
  let n := Ascii.N_of_ascii c in (((9 <=? n) && (n <=? 13)) || (n =? 32))%N.
Fixpoint trim_left (s : string) : string :=
  match s with
  | EmptyString => EmptyString
  | String c s' => if is_space c then trim_left s' else s
  end.
Fixpoint trim_right (s : string) : string :=
  match s with
  | EmptyString => EmptyString
  | String c s' =>
      match trim_right s' with
      | EmptyString => if is_space c then EmptyString else String c EmptyString
      | t => String c t
      end
  end.
(** [strings.TrimSpace] *)
Definition trim_space (s : string) : string := trim_right (trim_left s).

(** [strings.CutPrefix]: what follows the prefix, when it is one. *)
Fixpoint cut_prefix (pre s : string) : option string :=
  match pre, s with
  | EmptyString, _ => Some s
  | String a pre, String b s => if bool_decide (a = b) then cut_prefix pre s else None
  | String _ _, EmptyString => None
  end.
Definition has_prefix (s pre : string) : bool := bool_decide (is_Some (cut_prefix pre s)).
Definition trim_prefix (s pre : string) : string := default s (cut_prefix pre s).
(** [strings.Contains] *)
Fixpoint str_contains (s sub : string) : bool :=
  has_prefix s sub || match s with EmptyString => false | String _ s' => str_contains s' sub end.
Fixpoint has_suffix (s suf : string) : bool :=
  bool_decide (s = suf) ||
  match s with EmptyString => false | String _ s => has_suffix s suf end.
Fixpoint trim_suffix (s suf : string) : string :=
  if bool_decide (s = suf) then EmptyString
  else match s with EmptyString => EmptyString | String c s => String c (trim_suffix s suf) end.

(** [strings.Cut] with a one-byte separator. *)
Fixpoint cut_at (sep : ascii) (s : string) : option (string * string) :=
  match s with
  | EmptyString => None
  | String c s =>
      if bool_decide (c = sep) then Some (EmptyString, s)
      else match cut_at sep s with
           | Some (a, b) => Some (String c a, b)
           | None => None
           end
  end.
(** The same at the last separator ([strings.LastIndex]). *)
Fixpoint cut_last (sep : ascii) (s : string) : option (string * string) :=
  match s with
  | EmptyString => None
  | String c s =>
      match cut_last sep s with
      | Some (a, b) => Some (String c a, b)
      | None => if bool_decide (c = sep) then Some (EmptyString, s) else None
      end
  end.
(** [strings.Contains(s, "<c>")] *)
Definition contains_char (s : string) (c : ascii) : bool := bool_decide (is_Some (cut_at c s)).

Lemma cut_prefix_Some pre s t : cut_prefix pre s = Some t ↔ s = pre +:+ t.
Proof.
  revert s. induction pre as [|a pre IH]; intros s; simpl.
  { change ("" +:+ t) with t. split; congruence. }
  destruct s as [|b s]; simpl; [split; done|].
  change (String a pre +:+ t) with (String a (pre +:+ t)).
  case_bool_decide; subst; rewrite ?IH; split; congruence.
Qed.
Lemma cut_prefix_app pre t : cut_prefix pre (pre +:+ t) = Some t.
Proof. by apply cut_prefix_Some. Qed.

Lemma cut_at_app sep a b : contains_char a sep = false → cut_at sep (a +:+ String sep b) = Some (a, b).
Proof.
  unfold contains_char. intros H%bool_decide_eq_false. induction a as [|c a IH]; simpl in *.
  - by rewrite bool_decide_true.
  - case_bool_decide as E; [destruct H; eauto|].
    rewrite IH; [done|]. destruct (cut_at sep a) as [[]|]; [|done]. destruct H; eauto.
Qed.

Lemma contains_char_cons c d s :
  contains_char (String c s) d = false ↔ c ≠ d ∧ contains_char s d = false.
Proof.
  unfold contains_char. rewrite !bool_decide_eq_false. simpl. case_bool_decide as E.
  - split; [intros []; eauto|]. intros [Hne _]. by destruct Hne.
  - destruct (cut_at d s) as [[a b]|]; split.
    + intros []; eauto.
    + intros [_ []]; eauto.
    + intros _. split; [exact E|]. intros [x Hx]. discriminate Hx.
    + intros _ [x Hx]. discriminate Hx.
Qed.

Lemma cut_last_None sep s : contains_char s sep = false → cut_last sep s = None.
Proof.
  induction s as [|c s IH]; [done|]. intros [Hc Hs]%contains_char_cons. simpl.
  rewrite IH by done. by rewrite bool_decide_eq_false_2.
Qed.

Lemma cut_last_app sep a b :
  contains_char b sep = false → cut_last sep (a +:+ String sep b) = Some (a, b).
Proof.
  intros Hb. induction a as [|c a IH].
  - change ("" +:+ String sep b) with (String sep b). simpl. rewrite cut_last_None by done.
    by rewrite bool_decide_eq_true_2.
  - change (String c a +:+ String sep b) with (String c (a +:+ String sep b)). simpl. by rewrite IH.
Qed.

(** ** fmt verbs *)

(** [%d] *)
Definition sprint_Z (z : Z) : string := pretty z.

Lemma sprint_Z_no_dash z : 0 <= z → contains_char (sprint_Z z) "-" = false.
Proof.
  assert (Hgo : ∀ x s, contains_char s "-" = false → contains_char (pretty_N_go x s) "-" = false).
  { intros x. induction (N.lt_wf_0 x) as [x _ IH]. intros s Hs.
    assert (x = 0 ∨ 0 < x)%N as [->|Hx] by lia; [by rewrite pretty_N_go_0|].
    rewrite pretty_N_go_step by done. apply IH; [by apply N.div_lt|].
    apply contains_char_cons. split; [|done]. unfold pretty_N_char. by repeat case_match. }
  intros Hz. unfold sprint_Z, pretty, pretty_Z. destruct z as [|p|p]; [done| |lia].
  by apply (Hgo (N.pos p) "").
Qed.
Lemma to_lower_app a b : to_lower (a +:+ b) = to_lower a +:+ to_lower b.
Proof.
  induction a as [|c a IH]; [done|].
  exact (f_equal (String (lower_ascii c)) IH).
Qed.
Lemma to_lower_length s : String.length (to_lower s) = String.length s.
Proof. induction s as [|c s IH]; [done|]. exact (f_equal S IH). Qed.
(** Decimal digits have no case. *)
Lemma to_lower_sprint_Z z : 0 <= z → to_lower (sprint_Z z) = sprint_Z z.
Proof.
  assert (Hgo : ∀ x s, to_lower s = s → to_lower (pretty_N_go x s) = pretty_N_go x s).
  { intros x. induction (N.lt_wf_0 x) as [x _ IH]. intros s Hs.
    assert (x = 0 ∨ 0 < x)%N as [->|Hx] by lia; [by rewrite pretty_N_go_0|].
    rewrite pretty_N_go_step by done. apply IH; [by apply N.div_lt|].
    transitivity (String (lower_ascii (pretty_N_char (x `mod` 10))) (to_lower s)); [done|].
    rewrite Hs. f_equal. unfold pretty_N_char. by repeat case_match. }
  intros Hz. unfold sprint_Z, pretty, pretty_Z. destruct z as [|p|p]; [done| |lia].
  by apply (Hgo (N.pos p) "").
Qed.

(** [%v] of a [[]string] *)
Definition sprint_list (l : list string) : string := "[" +:+ join " " l +:+ "]".
(** [%v] of a bool *)
Definition sprint_bool (b : bool) : string := if b then "true" else "false".

Definition hex_digit (n : N) : ascii :=
  if (n <? 10)%N then Ascii.ascii_of_N (48 + n) else Ascii.ascii_of_N (87 + n).
Definition dquote : ascii := Ascii.ascii_of_N 34.
Definition backslash : ascii := Ascii.ascii_of_N 92.
(** One byte of [strconv.Quote]. *)
Definition quote_char (c : ascii) : string :=
  let n := Ascii.N_of_ascii c in
  let esc k := String backslash (String k EmptyString) in
  if (n =? 34)%N then esc dquote
  else if (n =? 92)%N then esc backslash
  else if (n =? 7)%N then esc "a"%char
  else if (n =? 8)%N then esc "b"%char
  else if (n =? 12)%N then esc "f"%char
  else if (n =? 10)%N then esc "n"%char
  else if (n =? 13)%N then esc "r"%char
  else if (n =? 9)%N then esc "t"%char
  else if (n =? 11)%N then esc "v"%char
  else if ((n <? 32) || (n =? 127))%N then
    String backslash (String "x"%char
      (String (hex_digit (n / 16)) (String (hex_digit (n mod 16)) EmptyString)))
  else String c EmptyString.
Fixpoint quote_body (s : string) : string :=
  match s with EmptyString => EmptyString | String c s => quote_char c +:+ quote_body s end.
(** [%q] *)
Definition quote (s : string) : string :=
  String dquote (quote_body s +:+ String dquote EmptyString).

(** ** Small list helpers of the operator's packages *)

(** [dedupe] on a sorted list, [containsString]: membership as a loop. *)
Definition contains_string (l : list string) (want : string) : bool :=
  existsb (λ v, bool_decide (v = want)) l.

Lemma contains_string_true l want : contains_string l want = true ↔ want ∈ l.
Proof.
  unfold contains_string. rewrite existsb_elem. split.
  - intros (x & ? & ?%bool_decide_eq_true). by subst.
  - intros. exists want. by rewrite bool_decide_true.
Qed.

Lemma string_app_nil_r (s : string) : s +:+ "" = s.
Proof. induction s as [|c s IH]; [done|]. change (String c (s +:+ "") = String c s). by rewrite IH. Qed.
Lemma string_app_assoc (a b c : string) : a +:+ (b +:+ c) = (a +:+ b) +:+ c.
Proof.
  induction a as [|x a IH]; [done|].
  change (String x (a +:+ (b +:+ c)) = String x ((a +:+ b) +:+ c)). by rewrite IH.
Qed.
Lemma string_app_length (a b : string) : String.length (a +:+ b) = (String.length a + String.length b)%nat.
Proof. induction a as [|x a IH]; [done|]. exact (f_equal S IH). Qed.
