(* ===== verification/GoTime.v ===== *)
(** * Go's time.Time and time.Duration

    An instant is a number of nanoseconds since the Unix epoch, a duration an
    [int64] of nanoseconds.  [Time.Sub] saturates, [Time.Add] is exact (an
    instant has far more room than a duration), comparisons are on instants. *)

From S2P Require Import Prelude GoStrings.

Definition ns : Z := 1.
Definition microsecond : Z := 1000.
Definition millisecond : Z := 1000000.
Definition second : Z := 1000000000.
Definition minute : Z := 60 * second.
Definition hour : Z := 60 * minute.

(** The zero [time.Time] is January 1, year 1, 00:00 UTC. *)
Definition zero_time : Z := - 62135596800 * second.
Definition is_zero_time (t : Z) : bool := t =? zero_time.

Definition time_add (t d : Z) : Z := t + d.
(** [t.Sub(u)] saturates at the bounds of [time.Duration]. *)
Definition time_sub (t u : Z) : Z := Z.max min_int64 (Z.min max_int64 (t - u)).
Definition time_before (t u : Z) : bool := t <? u.
Definition time_after (t u : Z) : bool := u <? t.
(** [t.Unix()] *)
Definition time_unix (t : Z) : Z := t / second.

Lemma time_sub_ge t u d : min_int64 < d <= max_int64 → d <= time_sub t u ↔ d <= t - u.
Proof. unfold time_sub, min_int64, max_int64. lia. Qed.

Lemma time_sub_le t u d : min_int64 <= d < max_int64 → time_sub t u <= d ↔ t - u <= d.
Proof. unfold time_sub, min_int64, max_int64. lia. Qed.

(** [Duration.Round(m)] for a positive [m]: to the nearest multiple, halves
    away from zero, saturating. *)
Definition duration_round (d m : Z) : Z :=
  if m <=? 0 then d else
  let r := Z.rem d m in
  if d <? 0 then
    let r := - r in
    if r + r <? m then d + r
    else let d1 := d - m + r in if d1 >=? min_int64 then d1 else min_int64
  else
    if r + r <? m then d - r
    else let d1 := d + m - r in if d1 <=? max_int64 then d1 else max_int64.

(** [Duration.String] *)
Fixpoint strip_zeros_rev (l : list ascii) : list ascii :=
  match l with
  | c :: l' => if bool_decide (c = "0"%char) then strip_zeros_rev l' else l
  | [] => []
  end.
(** The fraction [v mod 10^prec] on [prec] digits, trailing zeros dropped,
    with the dot when something is left. *)
Fixpoint digits_rev (prec : nat) (v : N) : list ascii :=
  match prec with
  | O => []
  | S p => Ascii.ascii_of_N (48 + v mod 10) :: digits_rev p (v / 10)
  end.
Definition fmt_frac (prec : nat) (v : N) : string :=
  match strip_zeros_rev (digits_rev prec v) with
  | [] => ""
  | ds => "." +:+ String.string_of_list_ascii (reverse ds)
  end.
Definition duration_string (d : Z) : string :=
  let u := Z.to_N (Z.abs d) in
  let body :=
    if (u =? 0)%N then "0s"
    else if (u <? 1000)%N then pretty u +:+ "ns"
    else if (u <? 1000000)%N then pretty (u / 1000)%N +:+ fmt_frac 3 u +:+ "µs"
    else if (u <? 1000000000)%N then pretty (u / 1000000)%N +:+ fmt_frac 6 u +:+ "ms"
    else
      let s := (u / 1000000000)%N in
      let secs := pretty (s mod 60)%N +:+ fmt_frac 9 u +:+ "s" in
      let m := (s / 60)%N in
      if (m =? 0)%N then secs
      else
        let h := (m / 60)%N in
        (if (h =? 0)%N then "" else pretty h +:+ "h")
          +:+ pretty (m mod 60)%N +:+ "m" +:+ secs
  in
  if d <? 0 then "-" +:+ body else body.

Example duration_string_20m : duration_string (20 * minute) = "20m0s".
Proof. vm_compute. reflexivity. Qed.
Example duration_string_mixed :
  duration_string (hour + 2 * minute + 3 * second + 450 * millisecond) = "1h2m3.45s".
Proof. vm_compute. reflexivity. Qed.
Example duration_round_half : duration_round (1500 * millisecond) second = 2 * second.
Proof. reflexivity. Qed.

(** ** [t.UTC().Format(time.RFC3339)] for the years 0 to 9999: the proleptic
    Gregorian date of a day number counted from 1970-01-01. *)
Definition civil_date (days : Z) : Z * Z * Z :=
  let z := days + 719468 in
  let era := z / 146097 in
  let doe := z mod 146097 in
  let yoe := (doe - doe / 1460 + doe / 36524 - doe / 146096) / 365 in
  let doy := doe - (365 * yoe + yoe / 4 - yoe / 100) in
  let mp := (5 * doy + 2) / 153 in
  let d := doy - (153 * mp + 2) / 5 + 1 in
  let m := if mp <? 10 then mp + 3 else mp - 9 in
  ((if m <=? 2 then yoe + era * 400 + 1 else yoe + era * 400), m, d).
Definition pad_digits (n : nat) (v : Z) : string :=
  String.string_of_list_ascii (reverse (digits_rev n (Z.to_N v))).
Definition format_rfc3339 (t : Z) : string :=
  let secs := time_unix t in
  let '(y, m, d) := civil_date (secs / 86400) in
  let s := secs mod 86400 in
  pad_digits 4 y +:+ "-" +:+ pad_digits 2 m +:+ "-" +:+ pad_digits 2 d +:+ "T" +:+
  pad_digits 2 (s / 3600) +:+ ":" +:+ pad_digits 2 (s / 60 mod 60) +:+ ":" +:+
  pad_digits 2 (s mod 60) +:+ "Z".
Example format_rfc3339_zero : format_rfc3339 zero_time = "0001-01-01T00:00:00Z".
Proof. vm_compute. reflexivity. Qed.
Example format_rfc3339_leap : format_rfc3339 (1709251199 * second) = "2024-02-29T23:59:59Z".
Proof. vm_compute. reflexivity. Qed.

(** ** [time.Parse(time.RFC3339, s)], as an instant *)

Definition digit_val (c : ascii) : option Z :=
  let n := Z.of_N (Ascii.N_of_ascii c) in if (48 <=? n) && (n <=? 57) then Some (n - 48) else None.
(** [getnum]: two digits, or one where the layout does not fix the width. *)
Definition getnum (fixed : bool) (s : string) : option (Z * string) :=
  match s with
  | String c1 s1 =>
      d1 ← digit_val c1;
      match s1 with
      | String c2 s2 =>
          match digit_val c2 with
          | Some d2 => Some (10 * d1 + d2, s2)
          | None => if fixed then None else Some (d1, s1)
          end
      | EmptyString => if fixed then None else Some (d1, s1)
      end
  | EmptyString => None
  end.
Definition expect (c : ascii) (s : string) : option string :=
  match s with String c' s' => if bool_decide (c' = c) then Some s' else None | EmptyString => None end.
Definition in_range (lo hi v : Z) : option () := if (lo <=? v) && (v <=? hi) then Some () else None.

Fixpoint take_digits (s : string) : list Z * string :=
  match s with
  | String c s' =>
      match digit_val c with
      | Some d => let (ds, rest) := take_digits s' in (d :: ds, rest)
      | None => ([], s)
      end
  | EmptyString => ([], s)
  end.
(** The fraction of a second, which the layout allows without naming it; digits
    past the ninth are dropped. *)
Definition parse_fraction (s : string) : Z * string :=
  match s with
  | String c s' =>
      if bool_decide (c = "."%char ∨ c = ","%char) then
        match take_digits s' with
        | ([], _) => (0, s)
        | (ds, rest) =>
            (foldl (λ v d, 10 * v + d) 0 (take 9 (ds ++ replicate 9 0)), rest)
        end
      else (0, s)
  | EmptyString => (0, s)
  end.
(** The offset of the zone, in seconds. *)
Definition parse_zone (s : string) : option (Z * string) :=
  match s with
  | String c s' =>
      if bool_decide (c = "Z"%char) then Some (0, s')
      else
        sign ← (if bool_decide (c = "+"%char) then Some 1
                else if bool_decide (c = "-"%char) then Some (-1) else None);
        '(hh, s1) ← getnum true s';
        s2 ← expect ":" s1;
        '(mm, s3) ← getnum true s2;
        _ ← in_range 0 24 hh; _ ← in_range 0 60 mm;
        Some (sign * ((hh * 60 + mm) * 60), s3)
  | EmptyString => None
  end.
Definition parse_year (s : string) : option (Z * string) :=
  '(a, s1) ← getnum true s; '(b, s2) ← getnum true s1; Some (100 * a + b, s2).

Definition is_leap (y : Z) : bool := (y mod 4 =? 0) && (negb (y mod 100 =? 0) || (y mod 400 =? 0)).
Definition days_in (m y : Z) : Z :=
  if m =? 2 then (if is_leap y then 29 else 28)
  else if (m =? 4) || (m =? 6) || (m =? 9) || (m =? 11) then 30 else 31.
(** The day number of a date, from 1970-01-01. *)
Definition civil_days (y m d : Z) : Z :=
  let y' := if m <=? 2 then y - 1 else y in
  let era := y' / 400 in
  let yoe := y' mod 400 in
  let mp := if m <=? 2 then m + 9 else m - 3 in
  era * 146097 + (yoe * 365 + yoe / 4 - yoe / 100 + ((153 * mp + 2) / 5 + d - 1)) - 719468.

Definition parse_rfc3339 (s : string) : option Z :=
  '(y, s) ← parse_year s; s ← expect "-" s;
  '(mo, s) ← getnum true s; _ ← in_range 1 12 mo; s ← expect "-" s;
  '(d, s) ← getnum true s; s ← expect "T" s;
  '(hh, s) ← getnum false s; _ ← in_range 0 23 hh; s ← expect ":" s;
  '(mi, s) ← getnum true s; _ ← in_range 0 59 mi; s ← expect ":" s;
  '(ss, s) ← getnum true s; _ ← in_range 0 59 ss;
  let (frac, s) := parse_fraction s in
  '(off, s) ← parse_zone s;
  match s with
  | EmptyString =>
      _ ← in_range 1 (days_in mo y) d;
      Some ((civil_days y mo d * 86400 + hh * 3600 + mi * 60 + ss - off) * second + frac)
  | String _ _ => None
  end.
Example parse_rfc3339_leap : parse_rfc3339 "2024-02-29T23:59:59Z" = Some (1709251199 * second).
Proof. vm_compute. reflexivity. Qed.
Example parse_rfc3339_zone :
  parse_rfc3339 "2026-08-04T09:00:00.25+09:00" = Some (1785801600 * second + 250 * millisecond).
Proof. vm_compute. reflexivity. Qed.
Example parse_rfc3339_bad : parse_rfc3339 "2023-02-29T00:00:00Z" = None.
Proof. vm_compute. reflexivity. Qed.

(** ** [time.ParseDuration]

    A signed sequence of decimal numbers with units; [None] for its errors.
    Go multiplies the digits after the point by [float64(unit) / scale]; here the
    product is exact and rounded down. *)

Definition unit_of (u : string) : option Z :=
  let micro c1 c2 := String (Ascii.ascii_of_N c1) (String (Ascii.ascii_of_N c2) "s") in
  if bool_decide (u = "ns") then Some ns
  else if bool_decide (u = "us") || bool_decide (u = micro 194%N 181%N) || bool_decide (u = micro 206%N 188%N)
  then Some microsecond
  else if bool_decide (u = "ms") then Some millisecond
  else if bool_decide (u = "s") then Some second
  else if bool_decide (u = "m") then Some minute
  else if bool_decide (u = "h") then Some hour
  else None.
Definition starts_number (c : ascii) : bool := bool_decide (c = "."%char) || bool_decide (is_Some (digit_val c)).
Fixpoint take_unit (s : string) : string * string :=
  match s with
  | String c s' => if starts_number c then ("", s) else let (u, rest) := take_unit s' in (String c u, rest)
  | EmptyString => ("", s)
  end.
Definition number_of (ds : list Z) : Z := foldl (λ v d, 10 * v + d) 0 ds.

(** One number and its unit at a time; each takes at least one character. *)
Fixpoint duration_terms (fuel : nat) (acc : Z) (s : string) : option Z :=
  match s, fuel with
  | EmptyString, _ => Some acc
  | _, O => None
  | String c _, S fuel' =>
      if negb (starts_number c) then None
      else
        let (whole, s1) := take_digits s in
        let '(frac, s2) := match s1 with
                           | String c1 s1' => if bool_decide (c1 = "."%char) then take_digits s1' else ([], s1)
                           | EmptyString => ([], s1)
                           end in
        if (2 ^ 63 <? number_of whole) || bool_decide (whole = [] ∧ frac = []) then None
        else
          let (u, s3) := take_unit s2 in
          unit ← unit_of u;
          let v := number_of whole * unit in
          let v := v + number_of frac * unit / 10 ^ Z.of_nat (length frac) in
          if (2 ^ 63 <? v) || (2 ^ 63 <? acc + v) then None else duration_terms fuel' (acc + v) s3
  end.
Definition parse_duration (s : string) : option Z :=
  let (neg, body) := match s with
                     | String c s' => if bool_decide (c = "-"%char) then (true, s')
                                      else if bool_decide (c = "+"%char) then (false, s') else (false, s)
                     | EmptyString => (false, s)
                     end in
  if bool_decide (body = "0") then Some 0
  else if bool_decide (body = "") then None
  else
    d ← duration_terms (String.length body) 0 body;
    if neg then Some (- d) else if max_int64 <? d then None else Some d.
Example parse_duration_ok : parse_duration "1h15m30.5s" = Some (4530 * second + 500 * millisecond).
Proof. vm_compute. reflexivity. Qed.
Example parse_duration_bad :
  parse_duration "" = None ∧ parse_duration "5" = None ∧ parse_duration "1d" = None ∧ parse_duration "." = None.
Proof. vm_compute. auto. Qed.

(** ** The clock: a reading, which may also let time pass. *)
Class Clock (W : Type) := { time_now : W → Z * W }.
Definition read_clock {W} `{Clock W} : M W Z := λ w, let (t, w') := time_now w in (inl t, w').
(** [if x.Now == nil { return time.Now() }; return x.Now()] *)
Definition clock_of {W} `{Clock W} (seam : option (W → Z * W)) : M W Z :=
  match seam with
  | None => read_clock
  | Some f => λ w, let (t, w') := f w in (inl t, w')
  end.

(** ** Waiting with a ticker and a deadline

    [select] between [ctx.Done()], the deadline and the ticker: [next_tick] answers
    whether the ticker came first, and throws the context's error when the context
    ends.  A ticker of period [p] fires at most [d / p] times before a deadline of
    [d], which is the fuel of the loops below. *)
Class Ticker (W : Type) := { next_tick : M W bool }.

Section Poll.
Context {W : Type} `{Ticker W} {A : Type}.

(** The loop that looks first and waits after: [step] answers [None] to go on. *)
Fixpoint poll_now (ticks : nat) (step : M W (option A)) (late : GoErr) : M W A :=
  r ← step;
  match r with
  | Some a => mret a
  | None => match ticks with
            | O => throw late
            | S k => tick ← next_tick; if (tick : bool) then poll_now k step late else throw late
            end
  end.
(** The loop that waits for the first tick before it looks. *)
Definition poll_after (ticks : nat) (step : M W (option A)) (late : GoErr) : M W A :=
  match ticks with
  | O => throw late
  | S k => tick ← next_tick; if (tick : bool) then poll_now k step late else throw late
  end.

Lemma wp_poll_now (I : W → Prop) (Q : A → Prop) ticks step late w :
  (∀ w, I w → wp next_tick (λ _ w', I w') w) →
  (∀ w, I w → wp step (λ r w', I w' ∧ ∀ a, r = inl (Some a) → Q a) w) → I w →
  wp (poll_now ticks step late) (λ r w', I w' ∧ ∀ a, r = inl a → Q a) w.
Proof.
  intros Ht Hs. revert w. induction ticks as [|k IH]; intros w HI; simpl; apply wp_bind.
  all: eapply wp_mono; [by apply Hs|]; intros [[a|]|e] w' [HI' HQ]; [by split; [|intros ? [= <-]; auto]| |by split].
  - by split.
  - apply wp_bind. eapply wp_mono; [by apply Ht|]. intros [[]|e] w1 HI1; [by apply IH|by split..].
Qed.
Lemma wp_poll_after (I : W → Prop) (Q : A → Prop) ticks step late w :
  (∀ w, I w → wp next_tick (λ _ w', I w') w) →
  (∀ w, I w → wp step (λ r w', I w' ∧ ∀ a, r = inl (Some a) → Q a) w) → I w →
  wp (poll_after ticks step late) (λ r w', I w' ∧ ∀ a, r = inl a → Q a) w.
Proof.
  intros Ht Hs HI. destruct ticks as [|k]; [by split|]. apply wp_bind.
  eapply wp_mono; [by apply Ht|]. intros [[]|e] w1 HI1; [by apply (wp_poll_now I Q)|by split..].
Qed.
End Poll.
