(* ===== verification/GoText.v ===== *)
(** * What the code uses of [strings], [strconv] and [regexp] to read text

    Splitting into lines and fields, searching for a substring, scanning runs of
    characters and reading decimal integers; the strings are sequences of bytes. *)

From S2P Require Import Prelude GoStrings GoTime.

(** ** Scanning *)

Definition is_digit (c : ascii) : bool := bool_decide (is_Some (digit_val c)).
(** An ASCII letter or digit. *)
Definition is_alnum (c : ascii) : bool :=
  let n := Ascii.N_of_ascii c in
  ((48 <=? n) && (n <=? 57) || (65 <=? n) && (n <=? 90) || (97 <=? n) && (n <=? 122))%N.
Fixpoint str_forall (p : ascii → bool) (s : string) : bool :=
  match s with EmptyString => true | String c s => p c && str_forall p s end.
(** The longest prefix of characters that satisfy [p], and the rest. *)
Fixpoint str_span (p : ascii → bool) (s : string) : string * string :=
  match s with
  | EmptyString => ("", "")
  | String c s' => if p c then let (a, b) := str_span p s' in (String c a, b) else ("", s)
  end.
(** [[0-9]+] and nothing else. *)
Definition all_digits (s : string) : bool := negb (bool_decide (s = "")) && str_forall is_digit s.
Definition newline : ascii := Ascii.ascii_of_N 10.
Lemma str_span_app p a b :
  str_forall p a = true → (∀ c s, b = String c s → p c = false) → str_span p (a +:+ b) = (a, b).
Proof.
  intros Ha Hb. induction a as [|c a IH]; simpl in *.
  - change ("" +:+ b) with b. destruct b as [|c b]; [done|]. simpl. by rewrite (Hb c b).
  - change (String c a +:+ b) with (String c (a +:+ b)). simpl. bool_prop. rewrite H. by rewrite IH.
Qed.

(** [strings.Trim(s, cutset)] *)
Definition trim_left_of (cutset s : string) : string := (str_span (contains_char cutset) s).2.
Fixpoint trim_right_of (cutset s : string) : string :=
  match s with
  | EmptyString => EmptyString
  | String c s' =>
      match trim_right_of cutset s' with
      | EmptyString => if contains_char cutset c then EmptyString else String c EmptyString
      | t => String c t
      end
  end.
Definition trim_of (cutset s : string) : string := trim_right_of cutset (trim_left_of cutset s).

(** [strings.Index(s, pat)] as the two parts around the first occurrence. *)
Fixpoint cut_str (pat s : string) : option (string * string) :=
  match cut_prefix pat s with
  | Some r => Some (EmptyString, r)
  | None =>
      match s with
      | EmptyString => None
      | String c s' =>
          match cut_str pat s' with Some (a, b) => Some (String c a, b) | None => None end
      end
  end.

(** [strings.Split(s, sep)], [sep] one byte. *)
Fixpoint split_on (sep : ascii) (s : string) : list string :=
  match s with
  | EmptyString => [EmptyString]
  | String c s' =>
      if bool_decide (c = sep) then EmptyString :: split_on sep s'
      else match split_on sep s' with
           | [] => [String c EmptyString]
           | w :: ws => String c w :: ws
           end
  end.

(** [strings.Fields(s)] *)
Definition fields (s : string) : list string :=
  filter (λ w, w ≠ "") (split_on " " (string_map (λ c, if is_space c then " "%char else c) s)).

(** [strconv.Atoi]: a sign, decimal digits, and the range of [int] *)
Definition atoi (s : string) : option Z :=
  let '(neg, body) := match s with
                      | String c s' => if bool_decide (c = "-"%char) then (true, s')
                                       else if bool_decide (c = "+"%char) then (false, s') else (false, s)
                      | EmptyString => (false, s)
                      end in
  if negb (all_digits body) then None
  else let n := number_of (take_digits body).1 in
       let v := if neg then - n else n in
       if bool_decide (is_int64 v) then Some v else None.
Example atoi_runs : (atoi "-12", atoi "+7", atoi "", atoi "1x", atoi "9223372036854775808")
  = (Some (-12), Some 7, None, None, None).
Proof. vm_compute. reflexivity. Qed.
Example fields_runs : fields "  a bc	 d " = ["a"; "bc"; "d"].
Proof. vm_compute. reflexivity. Qed.

(** ** Lemmas *)

Lemma string_cons_app c a b : String c a +:+ b = String c (a +:+ b).
Proof. done. Qed.
Lemma string_nil_app b : EmptyString +:+ b = b.
Proof. done. Qed.

Lemma split_on_ne sep s : split_on sep s ≠ [].
Proof. destruct s as [|c s]; simpl; [done|]. case_bool_decide; [done|]. by destruct (split_on sep s). Qed.

Lemma join_cons sep x l : l ≠ [] → join sep (x :: l) = x +:+ sep +:+ join sep l.
Proof. by destruct l. Qed.
Lemma join_String sep c w l : join sep (String c w :: l) = String c (join sep (w :: l)).
Proof. by destruct l. Qed.

(** Splitting and joining are inverse. *)
Lemma join_split sep s : join (String sep "") (split_on sep s) = s.
Proof.
  induction s as [|c s IH]; [done|]. simpl. case_bool_decide as E.
  - rewrite join_cons by apply split_on_ne. rewrite IH. by subst.
  - pose proof (split_on_ne sep s). destruct (split_on sep s) as [|w ws]; [done|]. by rewrite join_String, IH.
Qed.
Lemma split_on_app sep a b :
  contains_char a sep = false → split_on sep (a +:+ String sep b) = a :: split_on sep b.
Proof.
  induction a as [|c a IH]; intros Hc; rewrite ?string_nil_app, ?string_cons_app; simpl.
  - by rewrite bool_decide_true.
  - apply contains_char_cons in Hc as [? ?]. rewrite bool_decide_false by done. by rewrite IH.
Qed.
Lemma split_on_one sep a : contains_char a sep = false → split_on sep a = [a].
Proof.
  induction a as [|c a IH]; intros Hc; simpl; [done|].
  apply contains_char_cons in Hc as [? ?]. rewrite bool_decide_false by done. by rewrite IH.
Qed.

(** *** Decimal digits *)

Lemma digit_val_pretty n : (n < 10)%N → digit_val (pretty_N_char n) = Some (Z.of_N n).
Proof.
  intros Hn. assert (n = 0 ∨ n = 1 ∨ n = 2 ∨ n = 3 ∨ n = 4 ∨ n = 5 ∨ n = 6 ∨ n = 7 ∨ n = 8 ∨ n = 9)%N as Hc by lia.
  by repeat destruct Hc as [->|Hc]; subst.
Qed.
Lemma number_of_cons d ds : number_of (d :: ds) = d * 10 ^ Z.of_nat (length ds) + number_of ds.
Proof.
  assert (Hgo : ∀ ds a, foldl (λ v d, 10 * v + d) a ds = a * 10 ^ Z.of_nat (length ds) + number_of ds).
  { clear. unfold number_of. induction ds as [|d ds IH]; intros a; simpl foldl; simpl length; [lia|].
    rewrite IH, (IH (10 * 0 + d)). rewrite Nat2Z.inj_succ, Z.pow_succ_r by lia. lia. }
  change (number_of (d :: ds)) with (foldl (λ v d, 10 * v + d) (10 * 0 + d) ds). rewrite Hgo. lia.
Qed.
Lemma take_digits_pretty x s ds : take_digits s = (ds, "") →
  ∃ ds', take_digits (pretty_N_go x s) = (ds', "")
         ∧ number_of ds' = Z.of_N x * 10 ^ Z.of_nat (length ds) + number_of ds.
Proof.
  revert s ds. induction (N.lt_wf_0 x) as [x _ IH]. intros s ds Hs.
  assert (x = 0 ∨ 0 < x)%N as [->|Hx] by lia; [rewrite pretty_N_go_0; eauto|].
  rewrite pretty_N_go_step by done.
  destruct (IH (x / 10)%N (N.div_lt x 10 Hx eq_refl) (String (pretty_N_char (x mod 10)) s) (Z.of_N (x mod 10) :: ds)) as (ds'&E&Hn).
  { simpl. by rewrite digit_val_pretty, Hs by (by apply N.mod_lt). }
  exists ds'. split; [exact E|]. rewrite Hn, number_of_cons. simpl length.
  rewrite Nat2Z.inj_succ, Z.pow_succ_r by lia.
  rewrite (N.div_mod x 10) at 3 by done. lia.
Qed.
Lemma take_digits_all s ds : take_digits s = (ds, "") → str_forall is_digit s = true.
Proof.
  revert ds. induction s as [|c s IH]; intros ds; simpl; [done|]. unfold is_digit.
  destruct (digit_val c) as [d|] eqn:E; [|done]. destruct (take_digits s) as [ds' r] eqn:Es. intros [= <- ->].
  rewrite bool_decide_eq_true_2 by done. simpl. by eapply IH.
Qed.
Lemma atoi_digits s ds : take_digits s = (ds, "") → s ≠ "" → is_int64 (number_of ds) → atoi s = Some (number_of ds).
Proof.
  intros Hs Hne Hi. assert (Hall := take_digits_all _ _ Hs). unfold atoi.
  destruct s as [|c s]; [done|]. assert (Hall' := Hall). simpl in Hall'. bool_prop.
  rewrite (bool_decide_eq_false_2 (c = "-"%char)) by (by intros ->).
  rewrite (bool_decide_eq_false_2 (c = "+"%char)) by (by intros ->).
  unfold all_digits. rewrite bool_decide_eq_false_2 by done. rewrite Hall, Hs. simpl negb. cbv iota zeta. simpl fst.
  by rewrite bool_decide_eq_true_2.
Qed.
Lemma atoi_sprint n : 0 <= n → is_int64 n → atoi (sprint_Z n) = Some n.
Proof.
  intros Hn Hi. destruct n as [|p|p]; [done| |lia]. change (sprint_Z (Z.pos p)) with (pretty_N_go (N.pos p) "").
  destruct (take_digits_pretty (N.pos p) "" [] eq_refl) as (ds&E&Hds). simpl in Hds. rewrite Z.mul_1_r, Z.add_0_r in Hds.
  rewrite (atoi_digits _ ds E); [by rewrite Hds| |by rewrite Hds].
  intros E0. rewrite E0 in E. injection E as <-. discriminate.
Qed.

(** ** Facts about searching and splitting text

    A first occurrence stays the first one when the text grows at its end; a
    pattern without a newline lies inside one line; trimming and splitting only
    take text away. *)


(** ** Prefixes and occurrences *)

Lemma string_app_inj_l a b c : a +:+ b = a +:+ c → b = c.
Proof. induction a as [|x a IH]; [done|]. rewrite !string_cons_app. intros [= E]. auto. Qed.

Lemma cut_prefix_grow pat s r t : cut_prefix pat s = Some r → cut_prefix pat (s +:+ t) = Some (r +:+ t).
Proof. rewrite !cut_prefix_Some. intros ->. by rewrite string_app_assoc. Qed.
Lemma cut_prefix_None_grow pat s t :
  cut_prefix pat s = None → (String.length pat <= String.length s)%nat → cut_prefix pat (s +:+ t) = None.
Proof.
  revert s. induction pat as [|c pat IH]; intros [|d s]; simpl; [done..|lia|]. case_bool_decide; [|done].
  intros. apply IH; [done|lia].
Qed.

Lemma cut_str_Some pat s a b : cut_str pat s = Some (a, b) → s = a +:+ pat +:+ b.
Proof.
  revert a. induction s as [|c s IH]; intros a; simpl.
  - destruct (cut_prefix pat "") as [r|] eqn:E; [|done]. intros [= <- <-]. by apply cut_prefix_Some in E.
  - destruct (cut_prefix pat (String c s)) as [r|] eqn:E.
    + intros [= <- <-]. by apply cut_prefix_Some in E.
    + destruct (cut_str pat s) as [[a' b']|] eqn:Es; [|done]. intros [= <- <-].
      rewrite string_cons_app. f_equal. by apply IH.
Qed.
Lemma cut_str_length pat s a b : cut_str pat s = Some (a, b) → (String.length pat <= String.length s)%nat.
Proof. intros ->%cut_str_Some. rewrite !string_app_length. lia. Qed.

Lemma cut_str_grow pat s a b t : cut_str pat s = Some (a, b) → cut_str pat (s +:+ t) = Some (a, b +:+ t).
Proof.
  revert a. induction s as [|c s IH]; intros a; simpl.
  - destruct (cut_prefix pat "") as [r|] eqn:E; [|done]. intros [= <- <-]. apply cut_prefix_Some in E.
    destruct pat; [|done]. rewrite string_nil_app in E. subst r. by destruct t.
  - destruct (cut_prefix pat (String c s)) as [r|] eqn:E.
    + intros [= <- <-]. pose proof (cut_prefix_grow _ (String c s) r t E) as G. rewrite string_cons_app in G. by rewrite G.
    + destruct (cut_str pat s) as [[a' b']|] eqn:Es; [|done]. intros [= <- <-].
      assert (G : cut_prefix pat (String c s +:+ t) = None)
        by (apply cut_prefix_None_grow; [done|]; apply cut_str_length in Es; simpl; lia).
      rewrite string_cons_app in G. rewrite G. by rewrite (IH a').
Qed.

Lemma cut_str_here pat b : cut_str pat (pat +:+ b) = Some ("", b).
Proof. pose proof (cut_prefix_app pat b) as Hp. destruct (pat +:+ b); simpl; by rewrite Hp. Qed.

Lemma has_prefix_true s pre : has_prefix s pre = true ↔ ∃ t, s = pre +:+ t.
Proof.
  unfold has_prefix. rewrite bool_decide_eq_true. split; intros [t Ht]; exists t; by apply cut_prefix_Some.
Qed.
Lemma str_contains_true s sub : str_contains s sub = true ↔ ∃ a b, s = a +:+ sub +:+ b.
Proof.
  induction s as [|c s IH]; simpl; rewrite orb_true_iff, has_prefix_true.
  - split; [intros [[t ->]|[=]]; by exists "", t|]. intros (a & b & E). left.
    destruct a; [|done]. rewrite string_nil_app in E. by exists b.
  - rewrite IH. split.
    + intros [[t ->]|(a & b & ->)]; [by exists "", t|by exists (String c a), b].
    + intros ([|d a] & b & E); [left; by exists b|right]. rewrite string_cons_app in E. injection E as _ ->. eauto.
Qed.
Lemma str_contains_infix a s b sub : str_contains s sub = true → str_contains (a +:+ s +:+ b) sub = true.
Proof.
  rewrite !str_contains_true. intros (x & y & ->). exists (a +:+ x), (y +:+ b). by rewrite !string_app_assoc.
Qed.
Lemma str_contains_shorter s x y : str_contains s x = false → str_contains s (x +:+ y) = false.
Proof.
  rewrite <-!not_true_iff_false, !str_contains_true. intros Hn (a & b & ->). apply Hn.
  exists a, (y +:+ b). by rewrite !string_app_assoc.
Qed.

(** A pattern without the separator lies on one side of it. *)
Lemma prefix_before_sep sep pat x y r :
  contains_char pat sep = false → x +:+ String sep y = pat +:+ r → ∃ z, x = pat +:+ z.
Proof.
  revert x. induction pat as [|c pat IH]; intros x Hc E; [by exists x|].
  apply contains_char_cons in Hc as [Hne Hc]. destruct x as [|d x].
  - rewrite string_nil_app, string_cons_app in E. by injection E as <- _.
  - rewrite !string_cons_app in E. injection E as <- E. destruct (IH x Hc E) as [z ->]. by exists z.
Qed.
Lemma str_contains_sep sep pat x y : contains_char pat sep = false →
  str_contains (x +:+ String sep y) pat = str_contains x pat || str_contains y pat.
Proof.
  intros Hc. apply eq_iff_eq_true. rewrite orb_true_iff. split.
  - induction x as [|c x IH].
    + rewrite string_nil_app. simpl. rewrite orb_true_iff. intros [Hp|Hp]; [|by right]. left.
      apply has_prefix_true in Hp as [r E]. destruct (prefix_before_sep sep pat "" y r Hc E) as [z Hz].
      destruct pat; [done|]. discriminate Hz.
    + rewrite string_cons_app. simpl. rewrite !orb_true_iff. intros [Hp|Hp].
      * apply has_prefix_true in Hp as [r E]. destruct (prefix_before_sep sep pat (String c x) y r Hc E) as [z ->].
        left. left. apply has_prefix_true. eauto.
      * destruct (IH Hp) as [|]; auto.
  - intros [Hx|Hy].
    + rewrite <-(string_nil_app (x +:+ _)). by apply str_contains_infix.
    + rewrite <-(string_app_nil_r (x +:+ String sep y)).
      replace ((x +:+ String sep y) +:+ "") with ((x +:+ String sep "") +:+ y +:+ "") by
        (rewrite !string_app_nil_r, <-string_app_assoc; done).
      by apply str_contains_infix.
Qed.
(** Then the first occurrence of a marker that starts a line is that marker. *)
Lemma cut_str_line sep pat a b : contains_char pat sep = false → str_contains a pat = false → pat ≠ "" →
  cut_str pat (a +:+ String sep (pat +:+ b)) = Some (a +:+ String sep "", b).
Proof.
  intros Hc Hn Hne.
  assert (Hhead : ∀ x, str_contains x pat = false → cut_prefix pat (x +:+ String sep (pat +:+ b)) = None).
  { intros x Hx. destruct (cut_prefix pat _) as [r|] eqn:E; [|done]. apply cut_prefix_Some in E.
    destruct (prefix_before_sep sep pat x _ r Hc E) as [z ->].
    apply not_true_iff_false in Hx. destruct Hx. apply str_contains_true. by exists "", z. }
  induction a as [|c a IH].
  - rewrite string_nil_app. pose proof (Hhead "" Hn) as H0. rewrite string_nil_app in H0. simpl. rewrite H0.
    by rewrite cut_str_here.
  - pose proof (Hhead (String c a) Hn) as H0. rewrite string_cons_app in H0 |- *. simpl cut_str. rewrite H0.
    simpl in Hn. apply orb_false_iff in Hn as [_ Hn]. by rewrite IH.
Qed.

(** ** Trimming and splitting take infixes *)

Lemma trim_left_suffix s : ∃ a, s = a +:+ trim_left s.
Proof.
  induction s as [|c s [a IH]]; simpl; [by exists ""|]. destruct (is_space c); [|by exists ""].
  exists (String c a). by rewrite string_cons_app, <-IH.
Qed.
Lemma trim_right_prefix s : ∃ b, s = trim_right s +:+ b.
Proof.
  induction s as [|c s [b IH]]; simpl; [by exists ""|]. destruct (trim_right s) as [|d t] eqn:E.
  - rewrite string_nil_app in IH. subst b. destruct (is_space c); [by exists (String c s)|by exists s].
  - exists b. by rewrite string_cons_app, <-IH.
Qed.
Lemma trim_space_infix s : ∃ a b, s = a +:+ trim_space s +:+ b.
Proof.
  unfold trim_space. destruct (trim_left_suffix s) as [a Ha]. destruct (trim_right_prefix (trim_left s)) as [b Hb].
  exists a, b. by rewrite <-Hb.
Qed.
Lemma split_on_infix sep s x : x ∈ split_on sep s → ∃ a b, s = a +:+ x +:+ b.
Proof.
  revert x. induction s as [|c s IH]; intros x; simpl; [intros ->%list_elem_of_singleton; by exists "", ""|].
  case_bool_decide.
  - intros [->|Hx]%elem_of_cons; [by exists "", (String c s)|]. destruct (IH x Hx) as (a & b & ->).
    by exists (String c a), b.
  - pose proof (split_on_ne sep s). pose proof (join_split sep s) as Hj.
    destruct (split_on sep s) as [|w ws]; [done|]. intros [->|Hx]%elem_of_cons.
    + exists "". destruct ws as [|w' ws]; [exists ""|exists (String sep "" +:+ join (String sep "") (w' :: ws))].
      * rewrite string_nil_app, string_cons_app, string_app_nil_r. by rewrite <-Hj.
      * rewrite string_nil_app, string_cons_app. by rewrite <-Hj.
    + destruct (IH x) as (a & b & ->); [by right|]. by exists (String c a), b.
Qed.
Lemma split_on_char sep s x : x ∈ split_on sep s → contains_char x sep = false.
Proof.
  revert x. induction s as [|c s IH]; intros x; simpl; [by intros ->%list_elem_of_singleton|].
  case_bool_decide as E.
  - intros [->|Hx]%elem_of_cons; auto.
  - pose proof (split_on_ne sep s). destruct (split_on sep s) as [|w ws]; [done|]. intros [->|Hx]%elem_of_cons.
    + apply contains_char_cons. split; [done|]. apply IH. by left.
    + apply IH. by right.
Qed.
Lemma trim_suffix_app a suf : trim_suffix (a +:+ suf) suf = a.
Proof.
  induction a as [|c a IH].
  - rewrite string_nil_app. destruct suf; [done|]. simpl. by rewrite bool_decide_true.
  - rewrite string_cons_app. simpl. rewrite bool_decide_false; [by rewrite IH|].
    intros E. apply (f_equal String.length) in E. simpl in E. rewrite string_app_length in E. lia.
Qed.
Lemma has_suffix_app a suf : has_suffix (a +:+ suf) suf = true.
Proof.
  induction a as [|c a IH].
  - rewrite string_nil_app. destruct suf; [done|]. simpl. by rewrite bool_decide_true.
  - rewrite string_cons_app. simpl. by rewrite IH, orb_true_r.
Qed.
(** A string whose ends are no blanks is its own trimming. *)
Lemma trim_right_end s c : is_space c = false → trim_right (s +:+ String c "") = s +:+ String c "".
Proof.
  intros Hc. induction s as [|d s IH]; [simpl; by rewrite Hc|]. rewrite string_cons_app. simpl. rewrite IH.
  by destruct s.
Qed.
Lemma trim_space_id c s d : is_space c = false → is_space d = false →
  trim_space (String c s +:+ String d "") = String c s +:+ String d "".
Proof.
  intros Hc Hd. unfold trim_space. rewrite string_cons_app. simpl. rewrite Hc.
  change (String c (s +:+ String d "")) with (String c s +:+ String d ""). by apply trim_right_end.
Qed.
Lemma trim_right_solid s : str_forall (λ c, negb (is_space c)) s = true → trim_right s = s.
Proof.
  induction s as [|c s IH]; [done|]. simpl. intros [Hc Hs]%andb_true_iff. rewrite IH by done.
  apply negb_true_iff in Hc. rewrite Hc. by destruct s.
Qed.
Lemma trim_space_solid s : str_forall (λ c, negb (is_space c)) s = true → trim_space s = s.
Proof.
  intros Hs. unfold trim_space.
  assert (El : trim_left s = s); [|by rewrite El; apply trim_right_solid].
  destruct s as [|c s]; [done|]. simpl in *. apply andb_true_iff in Hs as [Hc _]. apply negb_true_iff in Hc. by rewrite Hc.
Qed.
Lemma trim_space_empty s : trim_space s = "" → str_forall is_space s = true.
Proof.
  unfold trim_space. assert (Hr : ∀ s, trim_right s = "" → str_forall is_space s = true).
  { clear. induction s as [|c s IH]; [done|]. simpl. destruct (trim_right s); [|done].
    destruct (is_space c); [|done]. simpl. auto. }
  induction s as [|c s IH]; [done|]. simpl. destruct (is_space c) eqn:Ec; [|].
  - intros H. simpl. auto.
  - intros H. apply Hr in H. simpl in H. by rewrite Ec in H.
Qed.

(** Splitting at a separator in the text, and blanks at its ends. *)
Lemma split_on_sep sep a b : split_on sep (a +:+ String sep b) = split_on sep a ++ split_on sep b.
Proof.
  induction a as [|c a IH].
  - rewrite string_nil_app. simpl. by rewrite bool_decide_true.
  - rewrite string_cons_app. simpl. rewrite IH. case_bool_decide; [done|].
    pose proof (split_on_ne sep a). by destruct (split_on sep a).
Qed.
Lemma trim_right_blank s c : is_space c = true → trim_right (s +:+ String c "") = trim_right s.
Proof.
  intros Hc. induction s as [|d s IH]; [by rewrite string_nil_app; simpl; rewrite Hc|].
  rewrite string_cons_app. simpl. by rewrite IH.
Qed.
Lemma trim_space_around c s d : is_space c = true → is_space d = true →
  trim_space (String c (s +:+ String d "")) = trim_space s.
Proof.
  intros Hc Hd. unfold trim_space. simpl. rewrite Hc.
  induction s as [|x s IH]; [rewrite string_nil_app; simpl; by rewrite Hd|].
  rewrite string_cons_app. simpl. destruct (is_space x); [done|].
  change (String x (s +:+ String d "")) with (String x s +:+ String d ""). by apply trim_right_blank.
Qed.
