(* ===== verification/Naming.v ===== *)
(** * internal/naming: names of generated objects

    Models [naming.go]: DaemonSet and Job names, a pure function of what they
    are for.  The Job name of a node carries eight hexadecimal digits of the
    SHA-256 of the node's name. *)

From S2P Require Import Prelude GoStrings.

(** ** crypto/sha256

    [sha256.Sum256] on the bytes of a string (FIPS 180-4), and the hexadecimal
    prefix that generated names carry.  Words are [N] below [2 ^ 32]. *)


Module Sha256.
Open Scope N_scope.

Definition word (n : N) : N := n mod 2 ^ 32.
Definition add (a b : N) : N := word (a + b).
Definition rotr (n : N) (w : N) : N := N.lor (N.shiftr w n) (word (N.shiftl w (32 - n))).
Definition not32 (w : N) : N := N.lxor w (2 ^ 32 - 1).

(** The constants: the first 32 bits of the fractional parts of the cube roots
    of the first 64 primes, and of the square roots of the first eight. *)
Definition primes : list N :=
  filter (fun n => Is_true (forallb (fun d => negb (n mod N.of_nat d =? 0)) (seq 2 (N.to_nat (N.sqrt n) - 1))))
    (map N.of_nat (seq 2 310)).
(** The largest [r] below [bound] with [r ^ 3 <= n], bit by bit. *)
Definition cube_root (bits : nat) (n : N) : N :=
  fold_left (fun r b => let r' := r + 2 ^ N.of_nat b in if r' ^ 3 <=? n then r' else r) (rev (seq 0 bits)) 0.
Definition K : list N := Eval vm_compute in map (fun p => word (cube_root 36 (p * 2 ^ 96))) (firstn 64 primes).
Definition H0 : list N := Eval vm_compute in map (fun p => word (N.sqrt (p * 2 ^ 64))) (firstn 8 primes).

(** Padding: a one bit, zeros, and the length in bits, to a multiple of 64 bytes. *)
Definition big_endian (bytes : nat) (n : N) : list N :=
  map (fun i => N.land (N.shiftr n (8 * N.of_nat i)) 255) (rev (seq 0 bytes)).
Definition pad (msg : list N) : list N :=
  let l := length msg in
  msg ++ [128] ++ repeat 0 ((64 - (l + 9) mod 64) mod 64)%nat ++ big_endian 8 (8 * N.of_nat l).

Fixpoint words (fuel : nat) (l : list N) : list N :=
  match fuel, l with
  | S fuel', a :: b :: c :: d :: l' =>
      N.shiftl a 24 + N.shiftl b 16 + N.shiftl c 8 + d :: words fuel' l'
  | _, _ => []
  end.

(** The message schedule, newest word first. *)
Fixpoint schedule (n : nat) (w : list N) : list N :=
  match n with
  | O => w
  | S n' =>
      let at_ i := List.nth i w 0 in
      let s0 := let x := at_ 14%nat in N.lxor (N.lxor (rotr 7 x) (rotr 18 x)) (N.shiftr x 3) in
      let s1 := let x := at_ 1%nat in N.lxor (N.lxor (rotr 17 x) (rotr 19 x)) (N.shiftr x 10) in
      schedule n' (add (add (at_ 15%nat) s0) (add (at_ 6%nat) s1) :: w)
  end.

Definition round (st : list N) (kw : N * N) : list N :=
  match st with
  | [a; b; c; d; e; f; g; h] =>
      let S1 := N.lxor (N.lxor (rotr 6 e) (rotr 11 e)) (rotr 25 e) in
      let ch := N.lxor (N.land e f) (N.land (not32 e) g) in
      let t1 := add (add (add h S1) (add ch (fst kw))) (snd kw) in
      let S0 := N.lxor (N.lxor (rotr 2 a) (rotr 13 a)) (rotr 22 a) in
      let maj := N.lxor (N.lxor (N.land a b) (N.land a c)) (N.land b c) in
      [add t1 (add S0 maj); a; b; c; add d t1; e; f; g]
  | _ => st
  end.

Definition block (st w : list N) : list N :=
  zip_with add st (fold_left round (combine K (rev (schedule 48 (rev w)))) st).
Fixpoint blocks (fuel : nat) (st w : list N) : list N :=
  match fuel, w with
  | S fuel', _ :: _ => blocks fuel' (block st (firstn 16 w)) (skipn 16 w)
  | _, _ => st
  end.
End Sha256.

Definition string_bytes (s : string) : list N := Ascii.N_of_ascii <$> String.list_ascii_of_string s.

(** [sha256.Sum256]: 32 bytes. *)
Definition sum256 (s : string) : list N :=
  let m := Sha256.pad (string_bytes s) in
  Sha256.blocks (length m) Sha256.H0 (Sha256.words (length m) m) ≫= Sha256.big_endian 4.

(** [hex.EncodeToString], [%x] *)
Definition hex (bytes : list N) : string :=
  foldr (λ b acc, String (hex_digit (b / 16)) (String (hex_digit (b mod 16)) acc)) "" bytes.

Example sum256_abc :
  hex (sum256 "abc") = "ba7816bf8f01cfea414140de5dae2223b00361a396177a9cb410ff61f20015ad".
Proof. vm_compute. reflexivity. Qed.
Example sum256_empty :
  hex (sum256 "") = "e3b0c44298fc1c149afbf4c8996fb92427ae41e4649b934ca495991b7852b855".
Proof. vm_compute. reflexivity. Qed.
Example sum256_two_blocks :
  hex (sum256 "abcdbcdecdefdefgefghfghighijhijkijkljklmklmnlmnomnopnopq") =
  "248d6a61d20638b8e5c026930c3e6039a33ce45964ff2167f6ecedd419db06c1".
Proof. vm_compute. reflexivity. Qed.

Lemma hex_length bytes : String.length (hex bytes) = (2 * length bytes)%nat.
Proof. induction bytes as [|b bs IH]; [done|]. cbn [hex foldr String.length length]. fold (hex bs). rewrite IH. lia. Qed.


Definition vendorNvidia : string := "nvidia".
Definition vendorFuriosa : string := "furiosa".
Definition operatorNamespaceDefault : string := "kube-system".
(** The process environment, [os.Getenv("OPERATOR_NAMESPACE")]. *)
Definition OperatorNamespace (env : string) : string :=
  if bool_decide (env = "") then operatorNamespaceDefault else env.

(** The switch on vendor and model that the name builders share. *)
Definition vendor_stem (nvidia suffix : string) (vendor model : string) : string :=
  let v := to_lower vendor in
  let m := to_lower model in
  if bool_decide (v = vendorNvidia) then nvidia
  else if bool_decide (v = vendorFuriosa) then
    if bool_decide (m = "") then "kcloud-furiosa" +:+ suffix else "kcloud-furiosa-" +:+ m +:+ suffix
  else if bool_decide (m = "") then "kcloud-" +:+ v +:+ suffix
  else "kcloud-" +:+ v +:+ "-" +:+ m +:+ suffix.

Definition DriverDSName (vendor model : string) : string :=
  vendor_stem "kcloud-nvidia-driver" "-driver" vendor model.
Definition ToolkitDSName (vendor model : string) : string :=
  vendor_stem "nvidia-toolkit" "-toolkit" vendor model.

(** [hex.EncodeToString(sum[:])[:8]] *)
Definition short_hash (s : string) : string := hex (take 4 (sum256 s)).

Definition InstallJobName (vendor model nodeName : string) : string :=
  vendor_stem "kcloud-nvidia" "" vendor model +:+ "-install-" +:+ short_hash nodeName.
Definition RebootJobName (nodeName : string) : string := "kcloud-node-reboot-" +:+ short_hash nodeName.
Definition AcppRebootJobName (nodeName : string) : string := RebootJobName nodeName +:+ "-acpp".
Definition DeviceResetJobName (nodeName vendor transactionID : string) : string :=
  "kcloud-device-reset-" +:+ short_hash (nodeName +:+ "/" +:+ vendor +:+ "/" +:+ transactionID).

#[global] Opaque short_hash.

Example InstallJobName_demo : InstallJobName "NVIDIA" "a30" "worker1" = "kcloud-nvidia-install-34aa1081".
Proof. vm_compute. reflexivity. Qed.
