(* ===== verification/OperationModel.v ===== *)
(** * internal/operation: operation types, resource keys and admission

    Models [model.go] (types, keys, the pairwise verdict [Conflicts]) and
    [conflict.go] (admission of a candidate against the active operations).

    A [Type] and a [ResourceKey] are Go strings, so any string may arrive: the
    constants are the known values and the destructiveness table is a map that
    an unknown type misses. *)

From S2P Require Import Prelude GoStrings.

(** ** model.go *)

Definition OpType : Type := string.
Definition DriverInstall : OpType := "DriverInstall".
Definition DriverUpgrade : OpType := "DriverUpgrade".
Definition DriverRollback : OpType := "DriverRollback".
Definition PartitionReconfigure : OpType := "PartitionReconfigure".
Definition SharingModeChange : OpType := "SharingModeChange".
Definition DevicePluginRestart : OpType := "DevicePluginRestart".
Definition NodeReboot : OpType := "NodeReboot".
Definition Revalidate : OpType := "Revalidate".
Definition Quarantine : OpType := "Quarantine".
Definition RecoverDevice : OpType := "RecoverDevice".
Definition DeviceReset : OpType := "DeviceReset".

Definition AllTypes : list OpType :=
  [DriverInstall; DriverUpgrade; DriverRollback; PartitionReconfigure;
   SharingModeChange; DevicePluginRestart; NodeReboot; Revalidate; Quarantine;
   RecoverDevice; DeviceReset].

Definition destructive : gmap string bool := list_to_map
  [(DriverInstall, true); (DriverUpgrade, true); (DriverRollback, true);
   (PartitionReconfigure, true); (SharingModeChange, true);
   (DevicePluginRestart, true); (NodeReboot, true); (RecoverDevice, true);
   (DeviceReset, true); (Revalidate, false); (Quarantine, false)].

Definition ResourceKey : Type := string.
Definition NodeCordonKey (node : string) : ResourceKey := "node/" +:+ node +:+ "/cordon".
Definition NodeRebootKey (node : string) : ResourceKey := "node/" +:+ node +:+ "/reboot".
Definition DeviceDriverKey (pci : string) : ResourceKey := "device/" +:+ (pci +:+ "/driver").
Definition DevicePartitionKey (pci : string) : ResourceKey := "device/" +:+ (pci +:+ "/partition").
Definition DeviceSharingKey (pci : string) : ResourceKey := "device/" +:+ (pci +:+ "/sharing").
Definition ClusterDPConfigKey (dsName : string) : ResourceKey := "cluster/" +:+ dsName +:+ "/config".
Definition ClusterMPSDaemonKey : ResourceKey := "cluster/nvidia-mps-daemon".

Inductive Verdict := VerdictParallel | VerdictConflict | VerdictDependent.
#[global] Instance Verdict_eq_dec : EqDecision Verdict.
Proof. solve_decision. Defined.

Definition isDestructive (t : OpType) : bool :=
  match destructive !! t with Some d => d | None => true end.

Definition isDependentPair (a b : OpType) : bool :=
  (bool_decide (a = DevicePluginRestart) && bool_decide (b = PartitionReconfigure)) ||
  (bool_decide (b = DevicePluginRestart) && bool_decide (a = PartitionReconfigure)).

Definition deviceOf (k : ResourceKey) : string :=
  match cut_prefix "device/" k with
  | None => ""
  | Some rest =>
      match cut_at "/"%char rest with
      | None => ""
      | Some (pci, _) => pci
      end
  end.

(** The device addresses a key list names. *)
Definition devicesOf (l : list ResourceKey) : gset string :=
  list_to_set (filter (λ pci, pci ≠ "") (deviceOf <$> l)).

Definition sharesDevice (a b : list ResourceKey) : bool :=
  let set := devicesOf a in
  existsb (λ k, let pci := deviceOf k in
    bool_decide (pci ≠ "") && bool_decide (pci ∈ set)) b.

Definition overlaps (a b : list ResourceKey) : bool :=
  let set : gset string := list_to_set a in
  existsb (λ k, bool_decide (k ∈ set)) b.

Definition Conflicts (a b : OpType) (keysA keysB : list ResourceKey) : Verdict :=
  if negb (isDestructive a) || negb (isDestructive b) then VerdictParallel
  else if isDependentPair a b then VerdictDependent
  else if overlaps keysA keysB || sharesDevice keysA keysB then VerdictConflict
  else VerdictParallel.

(** ** conflict.go *)

Record Claim := mkClaim { Claim_Name : string; Claim_Type : OpType; Claim_Keys : list ResourceKey }.
#[global] Instance Claim_eq_dec : EqDecision Claim.
Proof. solve_decision. Defined.

Inductive Admission := AdmitNow | AdmitBlocked | AdmitAfter.
#[global] Instance Admission_eq_dec : EqDecision Admission.
Proof. solve_decision. Defined.

Definition touches (a b : list ResourceKey) : bool := overlaps a b || sharesDevice a b.

(** The loop of [Admit] over the active claims sorted by name. *)
Fixpoint admitLoop (candidate : Claim) (after : string) (l : list Claim) : Admission * string :=
  match l with
  | [] => if bool_decide (after ≠ "") then (AdmitAfter, after) else (AdmitNow, "")
  | a :: l =>
      if bool_decide (Claim_Name a = Claim_Name candidate) then admitLoop candidate after l
      else match Conflicts (Claim_Type candidate) (Claim_Type a)
                           (Claim_Keys candidate) (Claim_Keys a) with
           | VerdictConflict => (AdmitBlocked, Claim_Name a)
           | VerdictDependent =>
               let after :=
                 if bool_decide (after = "") && touches (Claim_Keys candidate) (Claim_Keys a)
                 then Claim_Name a else after in
               admitLoop candidate after l
           | VerdictParallel => admitLoop candidate after l
           end
  end.

Definition Admit (candidate : Claim) (active : list Claim) : Admission * string :=
  admitLoop candidate "" (sort_on Claim_Name active).

(** ** Keys and devices *)

Lemma elem_of_devicesOf l pci :
  pci ∈ devicesOf l ↔ pci ≠ "" ∧ ∃ k, k ∈ l ∧ deviceOf k = pci.
Proof.
  unfold devicesOf. rewrite elem_of_list_to_set, list_elem_of_filter, list_elem_of_fmap.
  naive_solver.
Qed.

Lemma sharesDevice_true a b :
  sharesDevice a b = true ↔
  ∃ ka kb, ka ∈ a ∧ kb ∈ b ∧ deviceOf ka = deviceOf kb ∧ deviceOf ka ≠ "".
Proof.
  unfold sharesDevice. rewrite existsb_elem. split.
  - intros (kb & ? & [?%bool_decide_eq_true H%bool_decide_eq_true]%andb_true_iff).
    apply elem_of_devicesOf in H as (_ & ka & ? & E). exists ka, kb. by rewrite E.
  - intros (ka & kb & ? & ? & E & ?). exists kb. split; [done|].
    rewrite <-E, !bool_decide_true; [done| |done]. apply elem_of_devicesOf. eauto.
Qed.

Lemma overlaps_true a b : overlaps a b = true ↔ ∃ k, k ∈ a ∧ k ∈ b.
Proof.
  unfold overlaps. rewrite existsb_elem.
  setoid_rewrite bool_decide_eq_true. setoid_rewrite elem_of_list_to_set. naive_solver.
Qed.

Lemma sharesDevice_comm a b : sharesDevice a b = sharesDevice b a.
Proof.
  apply eq_iff_eq_true. rewrite !sharesDevice_true.
  split; intros (x & y & ? & ? & E & ?); exists y, x; rewrite E in *; auto.
Qed.
Lemma overlaps_comm a b : overlaps a b = overlaps b a.
Proof. apply eq_iff_eq_true. rewrite !overlaps_true. naive_solver. Qed.
Lemma isDependentPair_comm a b : isDependentPair a b = isDependentPair b a.
Proof. unfold isDependentPair. by rewrite orb_comm. Qed.

Lemma deviceOf_facet pci facet :
  contains_char pci "/" = false →
  deviceOf ("device/" +:+ (pci +:+ String "/" facet)) = pci.
Proof.
  intros H. unfold deviceOf. rewrite cut_prefix_app. by rewrite cut_at_app.
Qed.

(** ** What admission decides *)

Section Admit.
Context (c : Claim).

(** [a] is in the candidate's way. *)
Definition blocks (a : Claim) : Prop :=
  Claim_Name a ≠ Claim_Name c ∧
  Conflicts (Claim_Type c) (Claim_Type a) (Claim_Keys c) (Claim_Keys a) = VerdictConflict.

(** The candidate is a follow-up step of [a], on a resource they share. *)
Definition precedes (a : Claim) : Prop :=
  Claim_Name a ≠ Claim_Name c ∧ Claim_Name a ≠ "" ∧
  Conflicts (Claim_Type c) (Claim_Type a) (Claim_Keys c) (Claim_Keys a) = VerdictDependent ∧
  touches (Claim_Keys c) (Claim_Keys a) = true.

(** [n] is the least name among the elements of [l] that satisfy [P]. *)
Definition least_name (P : Claim → Prop) (l : list Claim) (n : string) : Prop :=
  (∃ a, a ∈ l ∧ P a ∧ Claim_Name a = n) ∧
  ∀ a, a ∈ l → P a → str_leb n (Claim_Name a) = true.

(** The admission of [c] against [l], [after] being a predecessor already found. *)
Definition admits (after : string) (l : list Claim) (r : Admission * string) : Prop :=
  match r with
  | (AdmitBlocked, n) => least_name blocks l n
  | (AdmitAfter, n) =>
      (∀ a, a ∈ l → ¬ blocks a) ∧ n ≠ "" ∧
      (if bool_decide (after = "") then least_name precedes l n else n = after)
  | (AdmitNow, n) =>
      (∀ a, a ∈ l → ¬ blocks a) ∧ (∀ a, a ∈ l → ¬ precedes a) ∧ n = "" ∧ after = ""
  end.

Lemma least_name_here P a l :
  (∀ b, b ∈ l → str_leb (Claim_Name a) (Claim_Name b) = true) →
  P a → least_name P (a :: l) (Claim_Name a).
Proof.
  intros Hmin Ha. split.
  - exists a. rewrite elem_of_cons. auto.
  - intros b [->|Hb]%elem_of_cons _; [apply str_leb_refl|by apply Hmin].
Qed.

Lemma least_name_skip P a l n : ¬ P a → least_name P l n → least_name P (a :: l) n.
Proof.
  intros Hn [(b & ? & ? & ?) Hmin]. split.
  - exists b. rewrite elem_of_cons. auto.
  - intros x [->|?]%elem_of_cons ?; [done|by apply Hmin].
Qed.

Lemma admits_skip after a l r :
  ¬ blocks a → (after = "" → ¬ precedes a) → admits after l r → admits after (a :: l) r.
Proof.
  intros Hb Hp. destruct r as [[] n]; simpl.
  - intros (? & ? & ? & ?). split_and!; [..|done|done]; intros x [->|?]%elem_of_cons; auto.
  - by apply least_name_skip.
  - intros (? & ? & H). split_and!; [intros x [->|?]%elem_of_cons; auto|done|].
    case_bool_decide; [|done]. apply least_name_skip; auto.
Qed.

(** Once a predecessor is known the rest of the list only has to be free of
    conflicts. *)
Lemma admits_found a l r :
  (∀ b, b ∈ l → str_leb (Claim_Name a) (Claim_Name b) = true) →
  ¬ blocks a → precedes a → admits (Claim_Name a) l r → admits "" (a :: l) r.
Proof.
  intros Hmin Hb Hp. pose proof Hp as (_ & Hne & _). destruct r as [[] n]; simpl.
  - intros (_ & _ & _ & ?). done.
  - by apply least_name_skip.
  - rewrite bool_decide_false by done. intros (? & ? & ->).
    split_and!; [intros x [->|?]%elem_of_cons; auto|done|]. by apply least_name_here.
Qed.

Lemma admitLoop_admits l after :
  StronglySorted (not_after (less_on Claim_Name)) l → admits after l (admitLoop c after l).
Proof.
  intros S. revert after. induction S as [|a l S IH Ha]; intros after; simpl.
  { case_bool_decide as E; simpl.
    - split_and!; [intros ? []%elem_of_nil|done|]. by rewrite bool_decide_false.
    - split_and!; try done; intros ? []%elem_of_nil. }
  assert (Hmin : ∀ b, b ∈ l → str_leb (Claim_Name a) (Claim_Name b) = true).
  { intros b Hb. rewrite Forall_forall in Ha. by apply str_ltb_ge, (Ha b). }
  case_bool_decide as En.
  { apply admits_skip; [by intros []|by intros _ []|apply IH]. }
  destruct (Conflicts _ _ _ _) eqn:Ec.
  - apply admits_skip; [intros []; congruence|intros _ (? & ? & ? & ?); congruence|apply IH].
  - by apply least_name_here; [|split].
  - assert (Hnb : ¬ blocks a) by (intros []; congruence).
    destruct (bool_decide (after = "") && touches _ _)%bool eqn:Et; bool_prop.
    + subst after. destruct (decide (Claim_Name a = "")) as [E|E].
      * apply admits_skip; [done|by intros _ (? & ? & ?)|]. rewrite E. apply IH.
      * apply admits_found; [done..| |apply IH]. by split_and!.
    + apply admits_skip; [done| |apply IH]. intros -> (? & ? & ? & Ht).
      rewrite bool_decide_true in Et by done. simpl in Et. congruence.
Qed.

Lemma least_name_proper P l l' n :
  (∀ a, a ∈ l ↔ a ∈ l') → least_name P l n → least_name P l' n.
Proof. unfold least_name. naive_solver. Qed.

Lemma admits_proper after l l' r :
  (∀ a, a ∈ l ↔ a ∈ l') → admits after l r → admits after l' r.
Proof.
  intros E. destruct r as [[] n]; simpl; [naive_solver|by apply least_name_proper|].
  intros (? & ? & ?). split_and!; [naive_solver|done|].
  case_bool_decide; [by eapply least_name_proper|done].
Qed.

Lemma least_name_fun P l n n' : least_name P l n → least_name P l n' → n = n'.
Proof.
  intros [(a & ? & ? & <-) Hm1] [(b & ? & ? & <-) Hm2].
  apply str_leb_antisym; auto.
Qed.

Lemma admits_fun l r r' : admits "" l r → admits "" l r' → r = r'.
Proof.
  assert (Hl : ∀ P n, least_name P l n → (∀ a, a ∈ l → ¬ P a) → False).
  { intros P n [(a & Ha & Hp & _) _] Hn. by eapply Hn. }
  destruct r as [[] n], r' as [[] n']; simpl; intros Hr1 Hr2; destruct_and?;
    subst; try done; try (exfalso; by eauto);
    f_equal; eauto using least_name_fun.
Qed.

Lemma Admit_admits l : admits "" l (Admit c l).
Proof.
  eapply admits_proper; [|apply admitLoop_admits, (sort_slice_sorted (less_on Claim_Name) l)].
  intros a. apply elem_of_sort_slice.
Qed.
End Admit.

(** ** Properties *)

(** The verdict of two operations does not depend on which is asked first,
    and two destructive operations run in parallel only when their keys name
    no common resource and no common physical device. *)
Theorem Conflicts_correct a b ka kb :
  Conflicts a b ka kb = Conflicts b a kb ka ∧
  (Conflicts a b ka kb = VerdictParallel ↔
     isDestructive a = false ∨ isDestructive b = false ∨
     (isDependentPair a b = false ∧
      (∀ k, k ∈ ka → k ∉ kb) ∧
      ∀ k k', k ∈ ka → k' ∈ kb → deviceOf k = deviceOf k' → deviceOf k = "")).
Proof.
  split.
  { unfold Conflicts. by rewrite orb_comm, isDependentPair_comm, overlaps_comm, sharesDevice_comm. }
  unfold Conflicts. destruct (isDestructive a), (isDestructive b); simpl; try naive_solver.
  destruct (isDependentPair a b); [naive_solver|].
  destruct (overlaps ka kb) eqn:Eo; simpl.
  { apply overlaps_true in Eo as (k & ? & ?). naive_solver. }
  destruct (sharesDevice ka kb) eqn:Es.
  { apply sharesDevice_true in Es as (k & k' & ? & ? & ? & ?). naive_solver. }
  split; [|done]. intros _. right; right. split_and!; [done|..].
  - intros k H1 H2. rewrite <-not_true_iff_false, overlaps_true in Eo. eauto.
  - intros k k' ? ? E. rewrite <-not_true_iff_false, sharesDevice_true in Es.
    destruct (decide (deviceOf k = "")); [done|]. exfalso. eauto 10.
Qed.

(** Two destructive operations that take different facets (driver,
    partition, sharing) of one device conflict although their keys differ,
    unless they are the plugin-restart/partition pair, which is ordered. *)
Theorem facets_of_a_device_conflict a b pci ka kb
    (Ha : isDestructive a = true) (Hb : isDestructive b = true)
    (Hp : pci ≠ "") (Hs : contains_char pci "/" = false)
    (Hka : DeviceDriverKey pci ∈ ka)
    (Hkb : DevicePartitionKey pci ∈ kb ∨ DeviceSharingKey pci ∈ kb) :
  Conflicts a b ka kb = if isDependentPair a b then VerdictDependent else VerdictConflict.
Proof.
  unfold Conflicts. rewrite Ha, Hb; simpl. destruct (isDependentPair a b); [done|].
  enough (sharesDevice ka kb = true) as -> by by rewrite orb_true_r.
  apply sharesDevice_true.
  assert (Hd : deviceOf (DeviceDriverKey pci) = pci) by by apply (deviceOf_facet pci "driver").
  destruct Hkb as [Hkb|Hkb]; do 2 eexists; split_and!; try done; rewrite Hd; try done;
    symmetry; [by apply (deviceOf_facet pci "partition")|by apply (deviceOf_facet pci "sharing")].
Qed.

Lemma facets_of_a_device_conflict_witness :
  Conflicts DriverUpgrade SharingModeChange
    [NodeCordonKey "w1"; DeviceDriverKey "0000:65:00.0"] [DeviceSharingKey "0000:65:00.0"]
  = VerdictConflict.
Proof.
  apply (facets_of_a_device_conflict DriverUpgrade SharingModeChange "0000:65:00.0");
    [vm_compute; reflexivity|vm_compute; reflexivity|discriminate|vm_compute; reflexivity|..].
  - right. left.
  - right. left.
Defined.

(** Admission answers exactly: blocked by the least name in conflict when
    there is one; otherwise after the least name the candidate depends on and
    shares a resource with; otherwise now.  The candidate's own entry never
    counts. *)
Theorem Admit_correct c active : admits c "" active (Admit c active).
Proof. apply Admit_admits. Qed.

(** The answer does not depend on the order in which the API server lists
    the active operations, nor on repeated entries. *)
Theorem Admit_order_independent c active active'
    (Hsame : ∀ a, a ∈ active ↔ a ∈ active') :
  Admit c active = Admit c active'.
Proof.
  eapply admits_fun; [|apply Admit_admits].
  eapply admits_proper; [done|apply Admit_admits].
Qed.

Lemma Admit_order_independent_witness :
  let x := mkClaim "x" DriverUpgrade [DeviceDriverKey "p0"] in
  let y := mkClaim "b" PartitionReconfigure [DevicePartitionKey "p0"] in
  let z := mkClaim "a" SharingModeChange [DeviceSharingKey "p0"] in
  Admit x [y; z] = Admit x [z; y; z] ∧ Admit x [y; z] = (AdmitBlocked, "a").
Proof.
  split; [|vm_compute; reflexivity].
  apply Admit_order_independent. intros a. set_unfold. tauto.
Defined.
