(* ===== verification/ApiTypes.v ===== *)
(** * api/v1alpha1 and the Kubernetes objects the components read

    Records for the CRD types of [api/v1alpha1] that the modelled components
    share, and the fields they use of the Kubernetes [Node].  A [metav1.Time]
    is an instant ([Z] nanoseconds), a pointer field an [option], a Go map a
    [gmap], a [resource.Quantity] its [Value()] (an [int64]). *)

From S2P Require Import Prelude GoStrings GoTime OperationModel.

(** ** corev1.Node *)

(** An entry of [status.conditions]: its type and its status. *)
Record Condition := mkCondition { Cond_Type : string; Cond_Status : string }.
Definition ConditionTrue : string := "True".
Definition NodeReady : string := "Ready".

Record Node := mkNode {
  Node_Name : string;
  Node_Labels : gmap string string;
  Node_Annotations : gmap string string;
  Node_Unschedulable : bool;
  Node_Allocatable : gmap string Z;
  Node_Conditions : list Condition;
  Node_BootID : string;
  Node_KernelVersion : string;
  Node_DeletionTimestamp : option Z;
}.

(** ** acceleratoroperation_types.go *)

Definition OpPhasePending : string := "Pending".
Definition OpPhasePlanning : string := "Planning".
Definition OpPhasePrepared : string := "Prepared".
Definition OpPhaseQuiescing : string := "Quiescing".
Definition OpPhaseApplying : string := "Applying".
Definition OpPhaseWaitingForReboot : string := "WaitingForReboot".
Definition OpPhaseVerifying : string := "Verifying".
Definition OpPhaseSucceeded : string := "Succeeded".
Definition OpPhaseRollingBack : string := "RollingBack".
Definition OpPhaseRolledBack : string := "RolledBack".
Definition OpPhaseBlocked : string := "Blocked".
Definition OpPhaseManualRecoveryRequired : string := "ManualRecoveryRequired".

Definition AllOperationPhases : list string :=
  [OpPhasePending; OpPhasePlanning; OpPhasePrepared; OpPhaseQuiescing;
   OpPhaseApplying; OpPhaseWaitingForReboot; OpPhaseVerifying; OpPhaseSucceeded;
   OpPhaseRollingBack; OpPhaseRolledBack; OpPhaseBlocked; OpPhaseManualRecoveryRequired].

Record OperationOwner := mkOperationOwner {
  Owner_Kind : string; Owner_Name : string; Owner_UID : string; Owner_Generation : Z;
}.

Record AcceleratorOperationSpec := mkOperationSpec {
  Spec_Type : string;
  Spec_NodeName : string;
  Spec_Vendor : string;
  Spec_TransactionID : string;
  Spec_Owner : OperationOwner;
  Spec_ResourceKeys : list string;
}.

Record OperationJournalEntry := mkEntry {
  Entry_Step : string; Entry_Epoch : Z; Entry_At : Z; Entry_Detail : string;
}.
#[global] Instance OperationJournalEntry_eq_dec : EqDecision OperationJournalEntry.
Proof. solve_decision. Defined.

Record OperationSnapshot := mkSnapshot {
  Snap_Allocatable : gmap string Z;
  Snap_Geometry : gmap string string;
  Snap_MigPhase : string;
  Snap_BootID : string;
  Snap_CordonedByPolicy : bool;
}.

Record AcceleratorOperationStatus := mkOpStatus {
  St_Phase : string;
  St_Epoch : Z;
  St_LeaseHolder : string;
  St_LeaseExpiry : option Z;
  St_Journal : list OperationJournalEntry;
  St_Snapshot : option OperationSnapshot;
  St_BlockedBy : string;
  St_Message : string;
  St_RollbackAttempts : Z;
  St_ObserveFailures : Z;
  St_ObservedGeneration : Z;
}.

Record AcceleratorOperation := mkOperation {
  Op_Name : string;
  Op_Generation : Z;
  Op_ResourceVersion : string;
  Op_CreationTimestamp : Z;
  Op_Spec : AcceleratorOperationSpec;
  Op_Status : AcceleratorOperationStatus;
}.

(** Assignments to the fields of [op.Status]. *)
Definition set_phase (v : string) (s : AcceleratorOperationStatus) := mkOpStatus
  v (St_Epoch s) (St_LeaseHolder s) (St_LeaseExpiry s) (St_Journal s) (St_Snapshot s)
  (St_BlockedBy s) (St_Message s) (St_RollbackAttempts s) (St_ObserveFailures s)
  (St_ObservedGeneration s).
Definition set_epoch (v : Z) (s : AcceleratorOperationStatus) := mkOpStatus
  (St_Phase s) v (St_LeaseHolder s) (St_LeaseExpiry s) (St_Journal s) (St_Snapshot s)
  (St_BlockedBy s) (St_Message s) (St_RollbackAttempts s) (St_ObserveFailures s)
  (St_ObservedGeneration s).
Definition set_holder (v : string) (s : AcceleratorOperationStatus) := mkOpStatus
  (St_Phase s) (St_Epoch s) v (St_LeaseExpiry s) (St_Journal s) (St_Snapshot s)
  (St_BlockedBy s) (St_Message s) (St_RollbackAttempts s) (St_ObserveFailures s)
  (St_ObservedGeneration s).
Definition set_expiry (v : option Z) (s : AcceleratorOperationStatus) := mkOpStatus
  (St_Phase s) (St_Epoch s) (St_LeaseHolder s) v (St_Journal s) (St_Snapshot s)
  (St_BlockedBy s) (St_Message s) (St_RollbackAttempts s) (St_ObserveFailures s)
  (St_ObservedGeneration s).
Definition set_journal (v : list OperationJournalEntry) (s : AcceleratorOperationStatus) := mkOpStatus
  (St_Phase s) (St_Epoch s) (St_LeaseHolder s) (St_LeaseExpiry s) v (St_Snapshot s)
  (St_BlockedBy s) (St_Message s) (St_RollbackAttempts s) (St_ObserveFailures s)
  (St_ObservedGeneration s).
Definition set_snapshot (v : option OperationSnapshot) (s : AcceleratorOperationStatus) := mkOpStatus
  (St_Phase s) (St_Epoch s) (St_LeaseHolder s) (St_LeaseExpiry s) (St_Journal s) v
  (St_BlockedBy s) (St_Message s) (St_RollbackAttempts s) (St_ObserveFailures s)
  (St_ObservedGeneration s).
Definition set_blocked_by (v : string) (s : AcceleratorOperationStatus) := mkOpStatus
  (St_Phase s) (St_Epoch s) (St_LeaseHolder s) (St_LeaseExpiry s) (St_Journal s) (St_Snapshot s)
  v (St_Message s) (St_RollbackAttempts s) (St_ObserveFailures s) (St_ObservedGeneration s).
Definition set_message (v : string) (s : AcceleratorOperationStatus) := mkOpStatus
  (St_Phase s) (St_Epoch s) (St_LeaseHolder s) (St_LeaseExpiry s) (St_Journal s) (St_Snapshot s)
  (St_BlockedBy s) v (St_RollbackAttempts s) (St_ObserveFailures s) (St_ObservedGeneration s).
Definition set_rollback_attempts (v : Z) (s : AcceleratorOperationStatus) := mkOpStatus
  (St_Phase s) (St_Epoch s) (St_LeaseHolder s) (St_LeaseExpiry s) (St_Journal s) (St_Snapshot s)
  (St_BlockedBy s) (St_Message s) v (St_ObserveFailures s) (St_ObservedGeneration s).
Definition set_observe_failures (v : Z) (s : AcceleratorOperationStatus) := mkOpStatus
  (St_Phase s) (St_Epoch s) (St_LeaseHolder s) (St_LeaseExpiry s) (St_Journal s) (St_Snapshot s)
  (St_BlockedBy s) (St_Message s) (St_RollbackAttempts s) v (St_ObservedGeneration s).
Definition set_observed_generation (v : Z) (s : AcceleratorOperationStatus) := mkOpStatus
  (St_Phase s) (St_Epoch s) (St_LeaseHolder s) (St_LeaseExpiry s) (St_Journal s) (St_Snapshot s)
  (St_BlockedBy s) (St_Message s) (St_RollbackAttempts s) (St_ObserveFailures s) v.
Definition on_status (f : AcceleratorOperationStatus → AcceleratorOperationStatus)
    (op : AcceleratorOperation) : AcceleratorOperation :=
  mkOperation (Op_Name op) (Op_Generation op) (Op_ResourceVersion op) (Op_CreationTimestamp op) (Op_Spec op) (f (Op_Status op)).
Definition set_resource_version (rv : string) (op : AcceleratorOperation) : AcceleratorOperation :=
  mkOperation (Op_Name op) (Op_Generation op) rv (Op_CreationTimestamp op) (Op_Spec op) (Op_Status op).

(** ** nodedevicereport_types.go *)

Record DeviceEntry := mkDeviceEntry {
  De_Vendor : string;
  De_Model : string;
  De_Count : Z;
  De_DriverLoaded : bool;
  De_DriverVersion : string;
  De_DriverVersionDetail : string;
  De_NeedsReboot : bool;
  De_MemoryMiB : Z;
  De_PCIeAddress : string;
  De_MigModeCurrent : string;
  De_MigCurrentGeometry : string;
  De_MigObservationError : string;
  De_FirmwareVersion : string;
  De_MigModePending : string;
  De_MigLgipOutput : string;
}.
Record ValidationStep := mkValidationStep { Vstep_Name : string; Vstep_Passed : bool; Vstep_NotApplicable : bool }.
Record ValidationStatus := mkValidationStatus { Vs_Passed : bool; Vs_Steps : list ValidationStep }.
Record NodeDeviceReport := mkNDR {
  Ndr_NodeName : string;
  Ndr_Devices : list DeviceEntry;
  Ndr_Validation : option ValidationStatus;
  Ndr_ObservedAt : option Z;
}.

(** ** acceleratorverificationpolicy_types.go

    A [*metav1.Duration] is an optional number of nanoseconds. *)

Record AcceleratorVerificationPolicySpec := mkVerificationPolicySpec {
  Avp_NodeSelector : gmap string string;
  Avp_Checks : list string;
  Avp_TTL : option Z;
  Avp_InvalidateOn : list string;
  Avp_DriftGracePeriod : option Z;
}.
Record AcceleratorVerificationPolicy := mkVerificationPolicy {
  Avp_Name : string;
  Avp_Spec : AcceleratorVerificationPolicySpec;
}.

(** ** acceleratorevidence_types.go *)

Definition EvidenceLevelObserved : string := "Observed".
Definition EvidenceLevelFunctionallyVerified : string := "FunctionallyVerified".
Definition EvidenceLevelAllocationVerified : string := "AllocationVerified".

Definition EvidenceCheckDeviceObservation : string := "DeviceObservation".
Definition EvidenceCheckNodeDeviceReport : string := "NodeDeviceReport".
Definition EvidenceCheckAdvertisement : string := "Advertisement".
Definition EvidenceCheckAllocationProbe : string := "AllocationProbe".

Record EnvironmentFingerprint := mkFingerprint {
  Fp_BootID : string;
  Fp_KernelVersion : string;
  Fp_DriverVersion : string;
  Fp_FirmwareVersion : string;
  Fp_Generation : Z;
}.
#[global] Instance EnvironmentFingerprint_eq_dec : EqDecision EnvironmentFingerprint.
Proof. solve_decision. Defined.

Record EvidenceCheck := mkCheck {
  Ec_Name : string;
  Ec_Target : string;
  Ec_Passed : bool;
  Ec_Message : string;
  Ec_ProbedAt : option Z;
}.
#[global] Instance EvidenceCheck_eq_dec : EqDecision EvidenceCheck.
Proof. solve_decision. Defined.

Record AcceleratorEvidenceSpec := mkEvidenceSpec { Evs_NodeName : string; Evs_Vendor : string }.
Record AcceleratorEvidenceStatus := mkEvidenceStatus {
  Es_Level : string;
  Es_Fingerprint : EnvironmentFingerprint;
  Es_Checks : list EvidenceCheck;
  Es_AdvertisedResources : gmap string Z;
  Es_ObservedAt : Z;
  Es_ExpiresAt : option Z;
  Es_SourcePolicy : string;
  Es_Reason : string;
}.
#[global] Instance AcceleratorEvidenceStatus_eq_dec : EqDecision AcceleratorEvidenceStatus.
Proof. solve_decision. Defined.
Record AcceleratorEvidence := mkEvidence {
  Ev_Name : string;
  Ev_ResourceVersion : string;
  Ev_Spec : AcceleratorEvidenceSpec;
  Ev_Status : AcceleratorEvidenceStatus;
}.
Definition zero_fingerprint : EnvironmentFingerprint := mkFingerprint "" "" "" "" 0.
Definition zero_evidence_status : AcceleratorEvidenceStatus :=
  mkEvidenceStatus "" zero_fingerprint [] ∅ zero_time None "" "".

(** ** driverupgradestate_types.go: the states and what they allow *)

Definition UpgradeStateIdle : string := "Idle".
Definition UpgradeStateRequired : string := "UpgradeRequired".
Definition UpgradeStatePreFlight : string := "PreFlight".
Definition UpgradeStateCordoning : string := "Cordoning".
Definition UpgradeStateDraining : string := "Draining".
Definition UpgradeStateUpgrading : string := "Upgrading".
Definition UpgradeStateValidating : string := "Validating".
Definition UpgradeStateUncordoning : string := "Uncordoning".
Definition UpgradeStateRollback : string := "Rollback".
Definition UpgradeStateFailed : string := "Failed".
Definition UpgradeStateUnverifiedVersion : string := "UnverifiedVersion".
Definition UpgradeStateHostAhead : string := "HostAhead".
Definition UpgradeStateRebootRequired : string := "RebootRequired".
Definition UpgradeStateRebooting : string := "Rebooting".

Definition UpgradeCycleClosed (state : string) : bool :=
  contains_string ["" ; UpgradeStateIdle; UpgradeStateFailed; UpgradeStateHostAhead;
                   UpgradeStateUnverifiedVersion] state.
Definition VersionObservationAllowed (state : string) : bool :=
  contains_string [UpgradeStateIdle; UpgradeStateUnverifiedVersion; UpgradeStateHostAhead] state.

(** ** internal/controller: creating operations, and the resource keys of a driver operation

    What the delegating controllers share: the create call, and
    [ResourceKeysForDriver] of [operation_driver_participant.go]. *)


(** Creating an operation, and the status it is created with. *)
Class OperationCreateAPI (W : Type) := { operation_create : AcceleratorOperation → M W () }.
Definition zero_op_status : AcceleratorOperationStatus :=
  mkOpStatus "" 0 "" None [] None "" "" 0 0 0.

Definition ResourceKeysForDriver (nodeName : string) (pcis : list string) : list string :=
  (DeviceDriverKey <$> filter (λ pci, pci ≠ "") pcis) ++ [NodeCordonKey nodeName; NodeRebootKey nodeName].
