(* ===== verification/OperationStateMachine.v ===== *)
(** * internal/operation/state_machine.go: the operation phase machine

    Phases and events are Go strings; the transition table is a map of maps,
    and a pair it does not hold is not a transition. *)

From S2P Require Import Prelude GoStrings ApiTypes.

Definition Event : Type := string.
Definition EventConflict : Event := "Conflict".
Definition EventPreflightPassed : Event := "PreflightPassed".
Definition EventLeaseAcquired : Event := "LeaseAcquired".
Definition EventQuiesced : Event := "Quiesced".
Definition EventApplyStarted : Event := "ApplyStarted".
Definition EventRebootRequired : Event := "RebootRequired".
Definition EventBootObserved : Event := "BootObserved".
Definition EventApplyDone : Event := "ApplyDone".
Definition EventApplyFailed : Event := "ApplyFailed".
Definition EventVerifyPassed : Event := "VerifyPassed".
Definition EventVerifyFailed : Event := "VerifyFailed".
Definition EventCompensated : Event := "Compensated".
Definition EventCompensationFailed : Event := "CompensationFailed".
Definition EventDependencyResolved : Event := "DependencyResolved".

Definition AllEvents : list Event :=
  [EventConflict; EventPreflightPassed; EventLeaseAcquired; EventQuiesced;
   EventApplyStarted; EventRebootRequired; EventBootObserved; EventApplyDone;
   EventApplyFailed; EventVerifyPassed; EventVerifyFailed; EventCompensated;
   EventCompensationFailed; EventDependencyResolved].

(** The table, row by row, as the source writes it. *)
Definition transition_rows : list (string * list (Event * string)) :=
  [(OpPhasePending,
     [(EventPreflightPassed, OpPhasePlanning); (EventConflict, OpPhaseBlocked)]);
   (OpPhasePlanning,
     [(EventConflict, OpPhaseBlocked); (EventLeaseAcquired, OpPhasePrepared)]);
   (OpPhasePrepared,
     [(EventQuiesced, OpPhaseQuiescing); (EventApplyFailed, OpPhaseRollingBack)]);
   (OpPhaseQuiescing,
     [(EventApplyStarted, OpPhaseApplying); (EventApplyFailed, OpPhaseRollingBack)]);
   (OpPhaseApplying,
     [(EventRebootRequired, OpPhaseWaitingForReboot); (EventApplyDone, OpPhaseVerifying);
      (EventApplyFailed, OpPhaseRollingBack)]);
   (OpPhaseWaitingForReboot,
     [(EventBootObserved, OpPhaseApplying); (EventApplyFailed, OpPhaseRollingBack)]);
   (OpPhaseVerifying,
     [(EventVerifyPassed, OpPhaseSucceeded); (EventVerifyFailed, OpPhaseRollingBack)]);
   (OpPhaseRollingBack,
     [(EventCompensated, OpPhaseRolledBack);
      (EventCompensationFailed, OpPhaseManualRecoveryRequired)]);
   (OpPhaseBlocked,
     [(EventDependencyResolved, OpPhasePlanning)])].
Definition transitions : gmap string (gmap string string) :=
  list_to_map ((λ '(p, row), (p, list_to_map row)) <$> transition_rows).

Definition Next (from : string) (e : Event) : option string := transitions !! from ≫= (.!! e).

Definition IsTerminal (phase : string) : bool :=
  bool_decide (phase = OpPhaseSucceeded) || bool_decide (phase = OpPhaseRolledBack) ||
  bool_decide (phase = OpPhaseManualRecoveryRequired).

Definition hasAnyTransition (phase : string) : bool :=
  bool_decide (mget ∅ transitions phase ≠ ∅).

(** ** The edges of the table *)

Definition edges : list (string * Event * string) :=
  '(p, row) ← transition_rows; '(e, q) ← row; [(p, e, q)].

Lemma Next_edge p e q : Next p e = Some q → (p, e, q) ∈ edges.
Proof.
  unfold Next, transitions. intros H. apply bind_Some in H as (row & Hp & Hq).
  apply elem_of_list_to_map_2 in Hp.
  apply list_elem_of_fmap in Hp as ([p' l] & [= -> ->] & Hl).
  apply elem_of_list_to_map_2 in Hq.
  unfold edges. apply list_elem_of_bind. exists (p', l). split; [|done].
  apply list_elem_of_bind. exists (e, q). split; [by left|done].
Qed.

(** Case analysis on a transition. *)
Ltac edge_cases H :=
  apply Next_edge in H; unfold edges in H; simpl in H;
  repeat (apply elem_of_cons in H as [H|H];
    [first [discriminate H|injection H; clear H; intros; subst]|]);
  [..|by apply elem_of_nil in H].

(** ** Runs *)

Fixpoint run (p : string) (es : list Event) : option string :=
  match es with
  | [] => Some p
  | e :: es => Next p e ≫= λ q, run q es
  end.

Lemma run_snoc p es e : run p (es ++ [e]) = run p es ≫= λ q, Next q e.
Proof.
  revert p. induction es as [|e' es IH]; intros p; simpl.
  - by destruct (Next p e).
  - destruct (Next p e'); simpl; [apply IH|done].
Qed.

(** What a run from [Pending] must have seen, in this order, to be in a phase. *)
Definition must_see (p : string) : list Event :=
  let before_apply := [EventLeaseAcquired; EventQuiesced; EventApplyStarted] in
  if bool_decide (p = OpPhasePrepared) then [EventLeaseAcquired]
  else if bool_decide (p = OpPhaseQuiescing) then [EventLeaseAcquired; EventQuiesced]
  else if bool_decide (p = OpPhaseApplying) then before_apply
  else if bool_decide (p = OpPhaseWaitingForReboot) then before_apply ++ [EventRebootRequired]
  else if bool_decide (p = OpPhaseVerifying) then before_apply ++ [EventApplyDone]
  else if bool_decide (p = OpPhaseSucceeded)
    then before_apply ++ [EventApplyDone; EventVerifyPassed]
  else if bool_decide (p = OpPhaseRollingBack) then [EventLeaseAcquired]
  else if bool_decide (p = OpPhaseRolledBack) then [EventLeaseAcquired; EventCompensated]
  else if bool_decide (p = OpPhaseManualRecoveryRequired)
    then [EventLeaseAcquired; EventCompensationFailed]
  else [].

Lemma must_see_step p e q : Next p e = Some q → must_see q `sublist_of` must_see p ++ [e].
Proof. intros H. edge_cases H; vm_compute; repeat constructor. Qed.

Lemma must_see_run es p : run OpPhasePending es = Some p → must_see p `sublist_of` es.
Proof.
  revert p. induction es as [|e es IH] using rev_ind; intros p.
  - intros [= <-]. vm_compute. constructor.
  - rewrite run_snoc. intros (q & Hq & He)%bind_Some.
    etrans; [by apply must_see_step|]. apply sublist_app; [by apply IH|done].
Qed.

(** The shortest way out of every phase. *)
Definition exit_plan (p : string) : list Event :=
  let rollback := [EventApplyFailed; EventCompensated] in
  if bool_decide (p = OpPhasePending) then [EventPreflightPassed; EventLeaseAcquired] ++ rollback
  else if bool_decide (p = OpPhaseBlocked)
    then [EventDependencyResolved; EventLeaseAcquired] ++ rollback
  else if bool_decide (p = OpPhasePlanning) then EventLeaseAcquired :: rollback
  else if bool_decide (p = OpPhaseVerifying) then [EventVerifyPassed]
  else if bool_decide (p = OpPhaseRollingBack) then [EventCompensated]
  else if IsTerminal p then []
  else rollback.

(** ** Properties *)

(** The table is closed and has no dead end: a transition leads from a
    non-terminal phase to a phase of the CRD enum, a terminal phase absorbs
    every event, a phase has a transition exactly when it is not terminal, and
    from every phase at most four events reach a terminal one. *)
Theorem transition_table_sound :
  (∀ p e q, Next p e = Some q →
     p ∈ AllOperationPhases ∧ q ∈ AllOperationPhases ∧ e ∈ AllEvents ∧ IsTerminal p = false) ∧
  (∀ p, p ∈ AllOperationPhases → hasAnyTransition p = negb (IsTerminal p)) ∧
  (∀ p, p ∈ AllOperationPhases →
     ∃ es q, run p es = Some q ∧ IsTerminal q = true ∧ (length es ≤ 4)%nat).
Proof.
  split_and!.
  - intros p e q H. edge_cases H;
      (split_and!; [decide_compute..|reflexivity]).
  - apply Forall_forall. decide_compute.
  - intros p Hp. exists (exit_plan p).
    assert (Hrun : Forall (λ p, match run p (exit_plan p) with
      | Some q => IsTerminal q = true ∧ (length (exit_plan p) ≤ 4)%nat | None => False end)
      AllOperationPhases) by (repeat constructor; vm_compute; lia).
    rewrite Forall_forall in Hrun. specialize (Hrun p Hp).
    destruct (run p (exit_plan p)) as [q|]; [|done]. exists q. naive_solver.
Qed.

(** C40. An operation reaches [Succeeded] only through the lease, the quiesce,
    the start and the end of the apply, and a passed verification, in that
    order; it reaches [RolledBack] only after the lease and a compensation. *)
Theorem success_is_verified es p
    (Hrun : run OpPhasePending es = Some p) :
  (p = OpPhaseSucceeded →
     [EventLeaseAcquired; EventQuiesced; EventApplyStarted; EventApplyDone; EventVerifyPassed]
       `sublist_of` es ∧ last es = Some EventVerifyPassed) ∧
  (p = OpPhaseRolledBack → [EventLeaseAcquired; EventCompensated] `sublist_of` es) ∧
  (p = OpPhaseApplying → [EventLeaseAcquired; EventQuiesced; EventApplyStarted] `sublist_of` es).
Proof.
  pose proof (must_see_run es p Hrun) as Hm.
  split_and!; intros ->; [split|..]; try exact Hm.
  destruct es as [|e es _] using rev_ind; [done|]. rewrite last_snoc.
  rewrite run_snoc in Hrun. apply bind_Some in Hrun as (q & _ & He). by edge_cases He.
Qed.

Lemma success_is_verified_witness :
  let es := [EventPreflightPassed; EventLeaseAcquired; EventQuiesced; EventApplyStarted;
             EventRebootRequired; EventBootObserved; EventApplyDone; EventVerifyPassed] in
  run OpPhasePending es = Some OpPhaseSucceeded ∧ last es = Some EventVerifyPassed.
Proof.
  intros es. assert (H : run OpPhasePending es = Some OpPhaseSucceeded) by reflexivity.
  split; [exact H|].
  exact (proj2 (proj1 (success_is_verified es OpPhaseSucceeded H) eq_refl)).
Defined.
