(* ===== verification/OperationJournal.v ===== *)
(** * internal/operation: journal, crash recovery, snapshot, fencing, gates

    Models [journal.go], [recovery.go], [snapshot.go], [fencing.go] and
    [gates.go]. *)

From S2P Require Import Prelude GoStrings GoTime ApiTypes.

(** ** journal.go *)

Definition StepPlanned : string := "Planned".
Definition StepLeaseAcquired : string := "LeaseAcquired".
Definition StepSnapshotTaken : string := "SnapshotTaken".
Definition StepQuiesced : string := "Quiesced".
Definition StepApplyStarted : string := "ApplyStarted".
Definition StepApplyFinished : string := "ApplyFinished".
Definition StepRebootRequested : string := "RebootRequested".
Definition StepRebootObserved : string := "RebootObserved".
Definition StepDeviceResetRequested : string := "DeviceResetRequested".
Definition StepVerifyStarted : string := "VerifyStarted".
Definition StepCommitted : string := "Committed".
Definition StepRollbackStarted : string := "RollbackStarted".
Definition StepRollbackFinished : string := "RollbackFinished".

Definition same_step (step : string) (epoch : Z) (e : OperationJournalEntry) : bool :=
  bool_decide (Entry_Step e = step) && bool_decide (Entry_Epoch e = epoch).

Definition AppendJournal (entries : list OperationJournalEntry) (step : string) (epoch at_ : Z)
    (detail : string) : list OperationJournalEntry :=
  if existsb (same_step step epoch) entries then entries
  else entries ++ [mkEntry step epoch at_ detail].

Definition HasStep (entries : list OperationJournalEntry) (step : string) : bool :=
  existsb (λ e, bool_decide (Entry_Step e = step)) entries.

Definition LastStep (entries : list OperationJournalEntry) : string :=
  match last entries with None => "" | Some e => Entry_Step e end.

(** ** fencing.go *)

Definition NextEpoch (cur : Z) : Z := wrap64 (cur + 1).

(** ** recovery.go *)

Inductive RecoveryDecision :=
| RecoverRestart | RecoverCommit | RecoverRollback | RecoverWait | RecoverManual.
#[global] Instance RecoveryDecision_eq_dec : EqDecision RecoveryDecision.
Proof. solve_decision. Defined.

Record RecoveryInput := mkRecoveryInput {
  Ri_Journal : list OperationJournalEntry;
  Ri_ObservationOK : bool;
  Ri_ObservedGeometry : gmap string string;
  Ri_ExpectedGeometry : string;
  Ri_ObserveFailures : Z;
  Ri_MaxObserveFailures : Z;
}.

Section Recovery.
Context `{MapRange}.

(** The loop over the observed devices stops at the first that differs. *)
Definition firstMismatch (expected : string) (m : gmap string string) : option (string * string) :=
  find_first (λ '(_, got), bool_decide (got ≠ expected)) (range_map m).

Definition DecideRecovery (inp : RecoveryInput) : RecoveryDecision * string :=
  if negb (HasStep (Ri_Journal inp) StepApplyStarted) then
    (RecoverRestart, "no apply was journalled; hardware was not touched")
  else if negb (Ri_ObservationOK inp) then
    if (Ri_MaxObserveFailures inp <=? Ri_ObserveFailures inp) && (0 <? Ri_MaxObserveFailures inp)
    then (RecoverManual, "device observation failed " +:+ sprint_Z (Ri_ObserveFailures inp)
                           +:+ " times; refusing to guess")
    else (RecoverWait, "device observation unavailable; withholding judgement")
  else if bool_decide (Ri_ExpectedGeometry inp = "") then
    (RecoverRollback, "no target geometry to compare against; cannot claim the apply landed")
  else if bool_decide (Ri_ObservedGeometry inp = ∅) then
    (RecoverRollback, "no device observed; cannot claim the apply landed")
  else match firstMismatch (Ri_ExpectedGeometry inp) (Ri_ObservedGeometry inp) with
       | Some (pci, got) =>
           (RecoverRollback, "device " +:+ pci +:+ " is " +:+ quote got +:+ ", expected "
                               +:+ quote (Ri_ExpectedGeometry inp))
       | None => (RecoverCommit, "every observed device already matches the target")
       end.
End Recovery.

(** ** snapshot.go *)

(** [int32(v)] after the clamp at [math.MaxInt32]. *)
Definition clamp32 (v : Z) : Z := wrap32 (if max_int32 <? v then max_int32 else v).

Definition BuildSnapshot (node : option Node) (geometry : gmap string string)
    (migPhase : string) (cordonedByPolicy : bool) : option OperationSnapshot :=
  match node with
  | None => None
  | Some node =>
      Some (mkSnapshot (clamp32 <$> Node_Allocatable node) geometry migPhase
              (Node_BootID node) cordonedByPolicy)
  end.

(** ** gates.go *)

Record Gates := mkGates {
  DisableConflict : bool;
  DisableLease : bool;
  DisableJournal : bool;
  DisableFencing : bool;
  DisableVerify : bool;
}.
(** Go's zero value: every axis on. *)
Definition zero_gates : Gates := mkGates false false false false false.

Record Baseline := mkBaseline { Bl_Name : string; Bl_Desc : string; Bl_Gates : Gates }.
Definition Baselines : list Baseline :=
  [mkBaseline "B0" "조정자 없음(축 전부 꺼짐)" (mkGates true true true true true);
   mkBaseline "B1" "잠금만" (mkGates true false true true true);
   mkBaseline "B2" "조정자 전체(충돌+저널+펜싱+검증)" zero_gates;
   mkBaseline "B3" "B2 + Health Manager" zero_gates].

(** ** Journal lemmas *)

Lemma HasStep_true es step : HasStep es step = true ↔ ∃ e, e ∈ es ∧ Entry_Step e = step.
Proof. unfold HasStep. rewrite existsb_elem. by setoid_rewrite bool_decide_eq_true. Qed.

Lemma same_step_true step epoch e :
  same_step step epoch e = true ↔ Entry_Step e = step ∧ Entry_Epoch e = epoch.
Proof. unfold same_step. by rewrite andb_true_iff, !bool_decide_eq_true. Qed.

Lemma AppendJournal_prefix es step epoch at_ d :
  es `prefix_of` AppendJournal es step epoch at_ d.
Proof. unfold AppendJournal. destruct (existsb _ _); [done|by eexists]. Qed.

Lemma AppendJournal_has es step epoch at_ d :
  existsb (same_step step epoch) (AppendJournal es step epoch at_ d) = true.
Proof.
  unfold AppendJournal. destruct (existsb _ es) eqn:E; [done|].
  apply existsb_elem. exists (mkEntry step epoch at_ d).
  split; [set_solver|by apply same_step_true].
Qed.

Lemma HasStep_append es step epoch at_ d : HasStep (AppendJournal es step epoch at_ d) step = true.
Proof.
  pose proof (AppendJournal_has es step epoch at_ d) as H.
  apply existsb_elem in H as (e & ? & [? _]%same_step_true). apply HasStep_true. eauto.
Qed.

Lemma HasStep_prefix es es' step : es `prefix_of` es' → HasStep es step = true → HasStep es' step = true.
Proof. intros [k ->]. rewrite !HasStep_true. set_solver. Qed.

(** The journal holds each (step, epoch) at most once. *)
Definition journal_wf (es : list OperationJournalEntry) : Prop :=
  NoDup ((λ e, (Entry_Step e, Entry_Epoch e)) <$> es).

Lemma AppendJournal_wf es step epoch at_ d :
  journal_wf es → journal_wf (AppendJournal es step epoch at_ d).
Proof.
  unfold journal_wf, AppendJournal. intros ND. destruct (existsb _ _) eqn:E; [done|].
  rewrite fmap_app. apply NoDup_app. split_and!; [done| |apply NoDup_singleton].
  intros x (e & -> & He)%list_elem_of_fmap [= H1 H2]%list_elem_of_singleton.
  apply not_true_iff_false in E. apply E, existsb_elem. exists e.
  split; [done|]. by apply same_step_true.
Qed.
#[export] Hint Resolve AppendJournal_prefix AppendJournal_wf : go_db.

Section RecoveryLemmas.
Context `{MapRange}.

Lemma firstMismatch_None expected m :
  firstMismatch expected m = None ↔ map_Forall (λ _ got, got = expected) m.
Proof.
  unfold firstMismatch. rewrite find_first_None, Forall_forall. split.
  - intros Hf k v Hk. specialize (Hf (k, v)). rewrite elem_of_range_map in Hf.
    specialize (Hf Hk). simpl in Hf. bool_prop. by apply dec_stable.
  - intros Hm [k v] Hk%elem_of_range_map. apply Hm in Hk. subst.
    apply bool_decide_eq_false. auto.
Qed.
End RecoveryLemmas.

(** The verdict as a table over the observation: what [DecideRecovery] means. *)
Definition recovery_spec (inp : RecoveryInput) : RecoveryDecision :=
  if decide (Exists (λ e, Entry_Step e = StepApplyStarted) (Ri_Journal inp)) then
    if Ri_ObservationOK inp then
      if decide (Ri_ExpectedGeometry inp ≠ "" ∧ Ri_ObservedGeometry inp ≠ ∅ ∧
                 map_Forall (λ _ got, got = Ri_ExpectedGeometry inp) (Ri_ObservedGeometry inp))
      then RecoverCommit else RecoverRollback
    else if decide (0 < Ri_MaxObserveFailures inp <= Ri_ObserveFailures inp)
         then RecoverManual else RecoverWait
  else RecoverRestart.

(** ** Properties *)

(** Journalling a step only appends, at most one line, after which the
    step is recorded for that epoch; doing it again, at any time and with any
    detail, changes nothing; and (step, epoch) pairs stay unique. *)
Theorem AppendJournal_correct es step epoch at_ detail :
  let es' := AppendJournal es step epoch at_ detail in
  (∃ tl, es' = es ++ tl ∧ (length tl ≤ 1)%nat) ∧
  (∃ e, e ∈ es' ∧ Entry_Step e = step ∧ Entry_Epoch e = epoch) ∧
  (∀ at2 detail2, AppendJournal es' step epoch at2 detail2 = es') ∧
  (journal_wf es → journal_wf es').
Proof.
  intros es'. split_and!.
  - unfold es', AppendJournal. destruct (existsb _ es); [exists []; rewrite app_nil_r; simpl; eauto with lia|eexists [_]; simpl; eauto].
  - pose proof (AppendJournal_has es step epoch at_ detail) as H.
    apply existsb_elem in H as (e & ? & [? ?]%same_step_true). eauto.
  - intros at2 d2. unfold AppendJournal at 1. unfold es' at 1. by rewrite AppendJournal_has.
  - apply AppendJournal_wf.
Qed.

(** Crash recovery decides by the table: restart exactly when no apply was
    journalled, commit exactly when the observation succeeded and every
    observed device is at the stated target, roll back only on a successful
    observation, and wait (or call for a human after the failure bound) when
    the devices could not be observed.  The order in which the runtime visits
    the observed devices never changes the decision. *)
Theorem DecideRecovery_correct `{MapRange} inp : (DecideRecovery inp).1 = recovery_spec inp.
Proof.
  unfold DecideRecovery, recovery_spec.
  destruct (HasStep _ _) eqn:Eh; simpl.
  - rewrite decide_True by (apply Exists_exists, HasStep_true; done).
    destruct (Ri_ObservationOK inp); simpl.
    + case_bool_decide; [by rewrite decide_False by naive_solver|].
      case_bool_decide; [by rewrite decide_False by naive_solver|].
      destruct (firstMismatch _ _) as [[pci got]|] eqn:Em; simpl.
      * rewrite decide_False; [done|]. intros (_ & _ & Hm).
        by apply firstMismatch_None in Hm; rewrite Hm in Em.
      * apply firstMismatch_None in Em. by rewrite decide_True.
    + destruct (_ && _)%bool eqn:E; simpl.
      * bool_prop. by rewrite decide_True.
      * rewrite decide_False; [done|]. intros [??]. apply not_true_iff_false in E. apply E.
        by rewrite andb_true_iff, Z.leb_le, Z.ltb_lt.
  - rewrite decide_False; [done|]. rewrite Exists_exists. intros Hx%HasStep_true. congruence.
Qed.

(** The snapshot exists exactly when the node was read; it then has the
    node's resources, each within [int32] and never above what the node
    offers when that is not negative, so no rollback target is negative. *)
Theorem BuildSnapshot_bounds node geometry mig cordoned :
  (is_Some (BuildSnapshot node geometry mig cordoned) ↔ is_Some node) ∧
  ∀ n s, node = Some n → BuildSnapshot node geometry mig cordoned = Some s →
    Snap_Geometry s = geometry ∧ Snap_BootID s = Node_BootID n ∧
    dom (Snap_Allocatable s) = dom (Node_Allocatable n) ∧
    ∀ k v, Node_Allocatable n !! k = Some v →
      ∃ w, Snap_Allocatable s !! k = Some w ∧ is_int32 w ∧
           (0 <= v → w = Z.min v max_int32).
Proof.
  split; [destruct node; simpl; split; intros [? ?]; eauto; done|].
  intros n s -> [= <-]. simpl. split_and!; [done..| |].
  { apply set_eq. intros k. rewrite !elem_of_dom, lookup_fmap. by rewrite fmap_is_Some. }
  intros k v Hv. exists (clamp32 v). rewrite lookup_fmap, Hv. split_and!; [done| |].
  - apply wrap32_range.
  - unfold clamp32. intros. destruct (max_int32 <? v) eqn:E; bool_prop;
      rewrite wrap32_id; unfold is_int32, min_int32, max_int32 in *; lia.
Qed.

Lemma BuildSnapshot_bounds_witness :
  let n := mkNode "w1" ∅ ∅ false (list_to_map [("memory", 2 ^ 40); ("nvidia.com/gpu", 4)]) [] "b" "k" None in
  ∃ s w, BuildSnapshot (Some n) ∅ "" false = Some s ∧
    Snap_Allocatable s !! "memory" = Some w ∧ w = max_int32.
Proof.
  intros n. destruct (BuildSnapshot_bounds (Some n) ∅ "" false) as [_ H].
  destruct (H n _ eq_refl eq_refl) as (_ & _ & _ & Hk).
  destruct (Hk "memory" (2 ^ 40)) as (w & Hw & _ & Hmin); [vm_compute; reflexivity|].
  eexists _, w. split; [reflexivity|]. split; [exact Hw|]. rewrite Hmin; [reflexivity|lia].
Defined.

Lemma AppendJournal_correct_witness :
  journal_wf (AppendJournal [mkEntry StepPlanned 0 10 ""] StepApplyStarted 1 20 "") ∧
  length (AppendJournal [mkEntry StepPlanned 0 10 ""] StepApplyStarted 1 20 "") = 2%nat.
Proof.
  split; [|reflexivity].
  apply (AppendJournal_correct [mkEntry StepPlanned 0 10 ""] StepApplyStarted 1 20 "").
  apply NoDup_singleton.
Defined.
