(* ===== verification/OperationLease.v ===== *)
(** * internal/operation/lease.go: the per-node lease

    The Kubernetes client is an interface, [LeaseAPI], over an abstract world
    [W]; what the code relies on of the API server (optimistic concurrency on
    resourceVersion) is the class [LeaseAPILaws].  [Acquire] is a read
    followed by one conditional write, and the two halves are separate
    definitions, so that several processes can be interleaved between them. *)

From S2P Require Import Prelude GoStrings GoTime.

Record Lease := mkLease {
  L_Namespace : string;
  L_Name : string;
  L_ResourceVersion : Z;
  L_HolderIdentity : option string;
  L_LeaseDurationSeconds : option Z;
  L_AcquireTime : option Z;
  L_RenewTime : option Z;
}.
Definition L_key (l : Lease) : string * string := (L_Namespace l, L_Name l).
Definition with_rv (rv : Z) (l : Lease) : Lease :=
  mkLease (L_Namespace l) (L_Name l) rv (L_HolderIdentity l) (L_LeaseDurationSeconds l)
    (L_AcquireTime l) (L_RenewTime l).

(** ** The API server, as the client package sees it *)

Class LeaseAPI (W : Type) := {
  lease_get : string * string → M W Lease;
  lease_create : Lease → M W ();
  lease_update : Lease → M W ();
  lease_delete : Lease → M W ();
}.

(** Documented behaviour: a read does not write; a write either has its whole
    effect or none, and may report an error in both cases (a timeout), but the
    precise refusals (already exists, conflict, not found) come without effect;
    create needs the name to be free, update needs the submitted
    resourceVersion to be the stored one, and each write stores a
    resourceVersion never used before.  Delete is by name. *)
Class LeaseAPILaws (W : Type) `{LeaseAPI W} := {
  api_ok : W → Prop;
  leases : W → gmap (string * string) Lease;
  revision : W → Z;
  leases_law w k l : api_ok w → leases w !! k = Some l →
    L_key l = k ∧ L_ResourceVersion l <= revision w;
  lease_get_law w k r w' : api_ok w → lease_get k w = (r, w') →
    api_ok w' ∧ leases w' = leases w ∧ revision w' = revision w ∧
    match r with
    | inl l => leases w !! k = Some l
    | inr e => err_kind e = KNotFound → leases w !! k = None
    end;
  lease_create_law w l r w' : api_ok w → lease_create l w = (r, w') →
    api_ok w' ∧ revision w <= revision w' ∧
    ((leases w' = leases w ∧ r ≠ inl ()) ∨
     (∃ rv, leases w !! L_key l = None ∧ revision w < rv ∧
        leases w' = <[L_key l := with_rv rv l]> (leases w) ∧
        (∀ e, r = inr e → err_kind e ≠ KAlreadyExists)));
  lease_update_law w l r w' : api_ok w → lease_update l w = (r, w') →
    api_ok w' ∧ revision w <= revision w' ∧
    ((leases w' = leases w ∧ r ≠ inl ()) ∨
     (∃ cur rv, leases w !! L_key l = Some cur ∧ L_ResourceVersion cur = L_ResourceVersion l ∧
        revision w < rv ∧ leases w' = <[L_key l := with_rv rv l]> (leases w) ∧
        (∀ e, r = inr e → err_kind e ≠ KConflict)));
  lease_delete_law w l r w' : api_ok w → lease_delete l w = (r, w') →
    api_ok w' ∧ revision w <= revision w' ∧
    ((leases w' = leases w ∧ (r = inl () → leases w !! L_key l = None) ∧
      (∀ e, r = inr e → err_kind e = KNotFound → leases w !! L_key l = None)) ∨
     leases w' = delete (L_key l) (leases w));
}.

(** ** lease.go *)

Definition NodeLeaseName (node : string) : string := "kcloud-node-" +:+ node.

Record LeaseManager := mkLeaseManager { Lm_Namespace : string; Lm_Duration : Z }.

Definition duration (m : LeaseManager) : Z :=
  if Lm_Duration m <=? 0 then 60 * second else Lm_Duration m.
(** [int32(m.duration().Seconds())] *)
Definition durationSeconds (m : LeaseManager) : Z := wrap32 (Z.quot (duration m) second).
Definition leaseKey (m : LeaseManager) (node : string) : string * string :=
  (Lm_Namespace m, NodeLeaseName node).

Definition leaseExpired (l : Lease) (now : Z) : bool :=
  match L_RenewTime l, L_LeaseDurationSeconds l with
  | Some renew, Some secs => negb (time_before now (time_add renew (secs * second)))
  | _, _ => true
  end.

(** Somebody else holds [l] and it is still alive. *)
Definition heldByOther (l : Lease) (holder : string) (now : Z) : bool :=
  match L_HolderIdentity l with
  | Some cur => bool_decide (cur ≠ holder) && negb (leaseExpired l now)
  | None => false
  end.

Section Lease.
Context {W : Type} `{LeaseAPI W} (m : LeaseManager).

Definition AcquireRead (node : string) : M W (Lease + GoErr) := try (lease_get (leaseKey m node)).

Definition AcquireWrite (node holder : string) (now : Z) (r : Lease + GoErr) : M W (bool * Z) :=
  let seconds := durationSeconds m in
  let expiry := time_add now (duration m) in
  let name := NodeLeaseName node in
  match r with
  | inr err =>
      if is_not_found err then
        let lease := mkLease (Lm_Namespace m) name 0 (Some holder) (Some seconds)
                             (Some now) (Some now) in
        cr ← try (lease_create lease);
        match cr with
        | inr cerr =>
            if is_already_exists cerr then mret (false, zero_time)
            else throw (errorf_w ("lease: create " +:+ name) cerr)
        | inl () => mret (true, expiry)
        end
      else throw (errorf_w ("lease: get " +:+ name) err)
  | inl lease =>
      if heldByOther lease holder now then mret (false, zero_time)
      else
        let lease := mkLease (L_Namespace lease) (L_Name lease) (L_ResourceVersion lease)
          (Some holder) (Some seconds)
          (match L_AcquireTime lease with None => Some now | a => a end) (Some now) in
        ur ← try (lease_update lease);
        match ur with
        | inr uerr =>
            if is_conflict uerr then mret (false, zero_time)
            else throw (errorf_w ("lease: update " +:+ name) uerr)
        | inl () => mret (true, expiry)
        end
  end.

Definition Acquire (node holder : string) (now : Z) : M W (bool * Z) :=
  r ← AcquireRead node; AcquireWrite node holder now r.

(** [client.IgnoreNotFound] *)
Definition ignore_not_found (mm : M W ()) : M W () :=
  r ← try mm;
  match r with inr e => if is_not_found e then mret () else throw e | inl () => mret () end.

Definition ReleaseRead (node : string) : M W (Lease + GoErr) := try (lease_get (leaseKey m node)).
Definition ReleaseWrite (holder : string) (r : Lease + GoErr) : M W () :=
  match r with
  | inr err => if is_not_found err then mret () else throw err
  | inl lease =>
      match L_HolderIdentity lease with
      | Some cur =>
          if bool_decide (cur ≠ holder) then mret () else ignore_not_found (lease_delete lease)
      | None => mret ()
      end
  end.
Definition Release (node holder : string) : M W () :=
  r ← ReleaseRead node; ReleaseWrite holder r.
End Lease.

(** ** An API server that never fails, to run the definitions *)

Record MemLeases := mkMem { mem_leases : gmap (string * string) Lease; mem_rev : Z }.

#[export] Instance mem_api : LeaseAPI MemLeases := {|
  lease_get k w :=
    match mem_leases w !! k with
    | Some l => (inl l, w)
    | None => (inr (mkErr KNotFound "not found"), w)
    end;
  lease_create l w :=
    match mem_leases w !! L_key l with
    | Some _ => (inr (mkErr KAlreadyExists "already exists"), w)
    | None => let rv := mem_rev w + 1 in
              (inl (), mkMem (<[L_key l := with_rv rv l]> (mem_leases w)) rv)
    end;
  lease_update l w :=
    match mem_leases w !! L_key l with
    | Some cur =>
        if L_ResourceVersion cur =? L_ResourceVersion l
        then let rv := mem_rev w + 1 in
             (inl (), mkMem (<[L_key l := with_rv rv l]> (mem_leases w)) rv)
        else (inr (mkErr KConflict "conflict"), w)
    | None => (inr (mkErr KNotFound "not found"), w)
    end;
  lease_delete l w :=
    match mem_leases w !! L_key l with
    | Some _ => (inl (), mkMem (delete (L_key l) (mem_leases w)) (mem_rev w))
    | None => (inr (mkErr KNotFound "not found"), w)
    end;
|}.

#[export] Instance mem_laws : LeaseAPILaws MemLeases.
Proof.
  refine {|
    api_ok w := ∀ k l, mem_leases w !! k = Some l → L_key l = k ∧ L_ResourceVersion l <= mem_rev w;
    leases := mem_leases; revision := mem_rev |}.
  - auto.
  - intros w k r w' Hok E. simpl in E. destruct (mem_leases w !! k) eqn:Ek; simplify_eq; auto.
  - intros w l r w' Hok E. simpl in E. destruct (mem_leases w !! L_key l) eqn:Ek; simplify_eq.
    + split_and!; [done|lia|]. by left.
    + simpl. split_and!; [|lia|].
      * intros k l' Hl. destruct (decide (L_key l = k)) as [<-|Hne].
        -- rewrite lookup_insert_eq in Hl. simplify_eq. simpl. split; [done|lia].
        -- rewrite lookup_insert_ne in Hl by done. apply Hok in Hl. intuition lia.
      * right. exists (mem_rev w + 1). split_and!; [done|lia|done|done].
  - intros w l r w' Hok E. simpl in E. destruct (mem_leases w !! L_key l) as [cur|] eqn:Ek.
    + destruct (_ =? _) eqn:Erv; simplify_eq; bool_prop.
      * simpl. split_and!; [|lia|].
        -- intros k l' Hl. destruct (decide (L_key l = k)) as [<-|Hne].
           ++ rewrite lookup_insert_eq in Hl. simplify_eq. simpl. split; [done|lia].
           ++ rewrite lookup_insert_ne in Hl by done. apply Hok in Hl. intuition lia.
        -- right. exists cur, (mem_rev w + 1). split_and!; [done..|lia|done|done].
      * split_and!; [done|lia|]. by left.
    + simplify_eq. split_and!; [done|lia|]. by left.
  - intros w l r w' Hok E. simpl in E. destruct (mem_leases w !! L_key l) as [cur|] eqn:Ek; simplify_eq.
    + simpl. split_and!; [|lia|by right].
      intros k l' [_ Hl]%lookup_delete_Some. by apply Hok.
    + split_and!; [done|lia|]. left. done.
Defined.
