(* ===== verification/LeaseExclusion.v ===== *)
(** * Mutual exclusion of the node lease

    Several processes run [Acquire] (and [Release]) on one node's lease
    against one API server.  The system's state is the server, a clock the
    processes share, the read each process is in the middle of acting on, and
    the instant each process was last granted the lease; the halves of
    [Acquire] interleave freely. *)

From S2P Require Import Prelude GoStrings GoTime OperationLease.
From stdpp Require Import relations.
#[local] Open Scope Z_scope.

Section Exclusion.
Context {W : Type} `{LeaseAPILaws W} (m : LeaseManager) (node : string).
Notation key := (leaseKey m node).
(** How long a grant lasts. *)
Definition grantTime : Z := durationSeconds m * second.

(** [l] is the lease [h] was granted at [now]. *)
Definition granted (h : string) (now : Z) (l : Lease) : Prop :=
  L_key l = key ∧ L_HolderIdentity l = Some h ∧
  L_LeaseDurationSeconds l = Some (durationSeconds m) ∧ L_RenewTime l = Some now.

(** What a read lets the write rely on. *)
Definition read_allows (h : string) (now : Z) (w : W) (rd : Lease + GoErr) : Prop :=
  match rd with
  | inl l0 => heldByOther l0 h now = false ∧
      ∃ cur, leases w !! key = Some cur ∧ L_ResourceVersion cur = L_ResourceVersion l0
  | inr e => leases w !! key = None
  end.

Definition read_key (rd : Lease + GoErr) : Prop :=
  match rd with inl l0 => L_key l0 = key | inr _ => True end.

(** The write of [Acquire] either leaves the leases alone, and then did not
    grant, or stores the caller's lease, and then did not refuse. *)
Lemma AcquireWrite_cases h now rd w r w' :
  api_ok w → read_key rd → AcquireWrite m node h now rd w = (r, w') →
  api_ok w' ∧ revision w <= revision w' ∧
  ((leases w' = leases w ∧ ∀ e, r ≠ inl (true, e)) ∨
   (∃ l, granted h now l ∧ revision w < L_ResourceVersion l ∧
      leases w' = <[key := l]> (leases w) ∧ read_allows h now w rd ∧
      ∀ b e, r = inl (b, e) → b = true ∧ e = time_add now (duration m))).
Proof.
  intros Hok Hk E. unfold AcquireWrite in E. destruct rd as [l0|err].
  - destruct (heldByOther l0 h now) eqn:Eh.
    { munfold. simplify_eq. split_and!; [done|lia|]. left. split; [done|]. congruence. }
    munfold. destruct (lease_update _ w) as [ur w1] eqn:Eu.
    destruct (lease_update_law _ _ _ _ Hok Eu) as (Hok1 & Hrev & Hc).
    assert (w' = w1) as -> by (destruct ur as [[]|?]; [by simplify_eq|];
      destruct (is_conflict _); by simplify_eq).
    split_and!; [done..|]. destruct Hc as [[Heq Hne]|(cur & rv & Hcur & Hrv & Hlt & Hl & He)].
    + left. split; [done|]. destruct ur as [[]|?]; [done|].
      destruct (is_conflict _); simplify_eq; congruence.
    + right. eexists. simpl in Hcur, Hl, Hrv. unfold L_key in Hcur, Hl; simpl in Hcur, Hl.
      fold (L_key l0) in Hcur, Hl. simpl in Hk. rewrite Hk in Hcur, Hl.
      split; [|split; [|split; [exact Hl|]]]; [by split_and!|done|].
      split; [by eauto|]. intros b e ->. destruct ur as [[]|uerr]; [by simplify_eq|].
      destruct (is_conflict uerr) eqn:Ec; simplify_eq.
      unfold is_conflict in Ec. bool_prop. by destruct (He uerr eq_refl).
  - destruct (is_not_found err) eqn:En.
    2: { munfold. simplify_eq. split_and!; [done|lia|]. left. split; [done|]. congruence. }
    munfold. destruct (lease_create _ w) as [cr w1] eqn:Eu.
    destruct (lease_create_law _ _ _ _ Hok Eu) as (Hok1 & Hrev & Hc).
    assert (w' = w1) as -> by (destruct cr as [[]|?]; [by simplify_eq|];
      destruct (is_already_exists _); by simplify_eq).
    split_and!; [done..|]. destruct Hc as [[Heq Hne]|(rv & Hnone & Hlt & Hl & He)].
    + left. split; [done|]. destruct cr as [[]|?]; [done|].
      destruct (is_already_exists _); simplify_eq; congruence.
    + right. eexists. split; [|split; [|split; [exact Hl|]]]; [by split_and!|done|].
      split; [done|]. intros b e ->. destruct cr as [[]|cerr]; [by simplify_eq|].
      destruct (is_already_exists cerr) eqn:Ec; simplify_eq.
      unfold is_already_exists in Ec. bool_prop. by destruct (He cerr eq_refl).
Qed.

Lemma AcquireRead_law w r w' :
  api_ok w → AcquireRead m node w = (r, w') →
  ∃ rd, r = inl rd ∧ read_key rd ∧ api_ok w' ∧ leases w' = leases w ∧ revision w' = revision w ∧
    match rd with inl l => leases w !! key = Some l | inr e => err_kind e = KNotFound → leases w !! key = None end.
Proof.
  unfold AcquireRead, try. intros Hok E. destruct (lease_get _ w) as [rd w1] eqn:Eg.
  simplify_eq. destruct (lease_get_law _ _ _ _ Hok Eg) as (? & Hl & ? & Hr).
  exists rd. split_and!; try done. destruct rd; [|done]. simpl.
  by destruct (leases_law w _ _ Hok Hr).
Qed.

(** [Release] as one uninterrupted call. *)
Lemma Release_cases h w r w' :
  api_ok w → Release m node h w = (r, w') →
  api_ok w' ∧ revision w <= revision w' ∧
  (leases w' = leases w ∨
   (∃ l, leases w !! key = Some l ∧ L_HolderIdentity l = Some h ∧
      leases w' = delete key (leases w))).
Proof.
  unfold Release, ReleaseRead, ReleaseWrite, ignore_not_found. intros Hok E. munfold.
  destruct (lease_get _ w) as [rd w1] eqn:Eg.
  destruct (lease_get_law _ _ _ _ Hok Eg) as (Hok1 & Hl1 & Hr1 & Hrd).
  destruct rd as [l|e].
  2: { destruct (is_not_found e); simplify_eq; (split_and!; [done|lia|by left]). }
  destruct (L_HolderIdentity l) as [cur|] eqn:Eh.
  2: { simplify_eq. split_and!; [done|lia|by left]. }
  case_bool_decide as Ec; [simplify_eq; split_and!; [done|lia|by left]|]. subst cur.
  destruct (lease_delete l w1) as [dr w2] eqn:Ed.
  destruct (lease_delete_law _ _ _ _ Hok1 Ed) as (Hok2 & Hr2 & Hd).
  assert (w' = w2) as -> by (destruct dr as [[]|e]; [by simplify_eq|];
    destruct (is_not_found e); by simplify_eq).
  destruct (leases_law w _ _ Hok Hrd) as [Hkey _]. rewrite Hkey, Hl1 in Hd.
  split_and!; [done|lia|]. destruct Hd as [[-> _]| ->]; eauto.
Qed.

(** ** The interleaved system *)

Record sys := mkSys {
  s_world : W;
  s_clock : Z;
  s_reads : gmap string (Z * (Lease + GoErr));
  s_grants : gmap string Z;
}.

(** What a process believes after the write returned [r]. *)
Definition after_write (h : string) (now : Z) (r : bool * Z + GoErr) (g : gmap string Z) :
    gmap string Z :=
  match r with
  | inl (true, _) => <[h := now]> g
  | inl (false, _) => delete h g
  | inr _ => g
  end.

Inductive lstep : sys → sys → Prop :=
| step_tick w t t' rs g : t <= t' → lstep (mkSys w t rs g) (mkSys w t' rs g)
| step_read h w t rs g rd w' :
    AcquireRead m node w = (inl rd, w') →
    lstep (mkSys w t rs g) (mkSys w' t (<[h := (t, rd)]> rs) g)
| step_write h now rd w t rs g r w' :
    rs !! h = Some (now, rd) →
    AcquireWrite m node h now rd w = (r, w') →
    lstep (mkSys w t rs g) (mkSys w' t (delete h rs) (after_write h now r g))
| step_release h w t rs g r w' :
    Release m node h w = (r, w') →
    lstep (mkSys w t rs g) (mkSys w' t rs (delete h g)).

(** A process holds the lease while its last grant lasts. *)
Definition holds (s : sys) (h : string) : Prop :=
  ∃ now, s_grants s !! h = Some now ∧ s_clock s < now + grantTime.

Definition read_inv (w : W) (t now : Z) (rd : Lease + GoErr) : Prop :=
  now <= t ∧ read_key rd ∧
  match rd with
  | inl l => L_ResourceVersion l <= revision w ∧
      ∀ cur, leases w !! key = Some cur → L_ResourceVersion cur = L_ResourceVersion l → cur = l
  | inr _ => True
  end.

Record sys_inv (s : sys) : Prop := {
  inv_api : api_ok (s_world s);
  inv_reads h now rd : s_reads s !! h = Some (now, rd) →
    read_inv (s_world s) (s_clock s) now rd;
  inv_order h now rd g : s_reads s !! h = Some (now, rd) → s_grants s !! h = Some g → g <= now;
  inv_past h g : s_grants s !! h = Some g → g <= s_clock s;
  inv_grants h g : s_grants s !! h = Some g → s_clock s < g + grantTime →
    ∃ l renew, granted h renew l ∧ leases (s_world s) !! key = Some l ∧
      g <= renew <= s_clock s;
}.

(** A live grant of somebody else keeps the write from happening. *)
Lemma live_grant_blocks s h h' now rd :
  sys_inv s → s_reads s !! h = Some (now, rd) → h ≠ h' → holds s h' →
  ¬ read_allows h now (s_world s) rd.
Proof.
  intros I Hr Hne (g & Hg & Hlive) Ha.
  destruct (inv_grants s I _ _ Hg Hlive) as (l & renew & (Hk & Hh & Hd & Hn) & Hl & Hgr).
  destruct (inv_reads s I _ _ _ Hr) as (Ht & _ & Hrd).
  destruct rd as [l0|e]; simpl in Ha; [|congruence].
  destruct Ha as (Hnot & cur & Hcur & Hrv). destruct Hrd as [_ Hrd].
  apply Hrd in Hcur as E; [|done]. subst cur. simplify_eq.
  unfold heldByOther in Hnot. rewrite Hh, bool_decide_true in Hnot by done.
  unfold leaseExpired, time_before, time_add in Hnot. rewrite Hn, Hd in Hnot.
  apply negb_false_iff, negb_true_iff, Z.ltb_ge in Hnot. unfold grantTime in Hlive. lia.
Qed.

Definition initial (s : sys) : Prop :=
  api_ok (s_world s) ∧ s_reads s = ∅ ∧ s_grants s = ∅.

Lemma initial_inv s : initial s → sys_inv s.
Proof.
  intros (? & Hr & Hg). constructor; [done|..]; intros *; rewrite ?Hr, ?Hg, ?lookup_empty; done.
Qed.

(** Reads stay valid when the leases do not change. *)
Lemma read_inv_mono w w' t t' now rd :
  t <= t' → revision w <= revision w' → leases w' !! key = leases w !! key →
  read_inv w t now rd → read_inv w' t' now rd.
Proof.
  intros Ht Hrev Hl (? & ? & Hrd). split_and!; [lia|done|]. destruct rd; [|done].
  rewrite Hl. destruct Hrd. split; [lia|done].
Qed.

(** Reads stay valid when the lease is replaced by a fresh revision or removed. *)
Lemma read_inv_write w w' t now rd cur' :
  revision w <= revision w' → leases w' !! key = cur' →
  (∀ l, cur' = Some l → revision w < L_ResourceVersion l) →
  read_inv w t now rd → read_inv w' t now rd.
Proof.
  intros Hrev Hl Hfresh (? & ? & Hrd). split_and!; [done|done|]. destruct rd as [l|]; [|done].
  destruct Hrd as [Hle _]. split; [lia|]. rewrite Hl. intros cur -> E.
  specialize (Hfresh cur eq_refl). lia.
Qed.

Lemma tick_inv w t t' rs g : t <= t' → sys_inv (mkSys w t rs g) → sys_inv (mkSys w t' rs g).
Proof.
  intros Ht [Ha Hr Ho Hp Hg]. constructor; simpl in *; [done|..].
  - intros h now rd Hrd. apply (read_inv_mono w w t t'); [done|lia|done|by eapply Hr].
  - done.
  - intros h x Hx. apply Hp in Hx. lia.
  - intros h x Hx Hlive. destruct (Hg h x Hx) as (l & renew & ? & ? & ?); [lia|].
    exists l, renew. split_and!; [done..|lia|lia].
Qed.

Lemma read_step_inv h w t rs g rd w' :
  AcquireRead m node w = (inl rd, w') → sys_inv (mkSys w t rs g) →
  sys_inv (mkSys w' t (<[h := (t, rd)]> rs) g).
Proof.
  intros E [Ha Hr Ho Hp Hg]. simpl in *.
  destruct (AcquireRead_law w _ _ Ha E) as (rd' & [= <-] & Hk & Ha' & Hl & Hrev & Hrd).
  constructor; simpl; [done|..].
  - intros h1 now rd1 Hx. destruct (decide (h = h1)) as [->|Hne].
    + rewrite lookup_insert_eq in Hx. simplify_eq. split_and!; [lia|done|].
      destruct rd1 as [l|]; [|done]. rewrite Hl, Hrev.
      destruct (leases_law w _ _ Ha Hrd). split; [done|]. intros. congruence.
    + rewrite lookup_insert_ne in Hx by done.
      apply (read_inv_mono w w' t t); [lia|lia|by rewrite Hl|by eapply Hr].
  - intros h1 now rd1 x Hx Hgx. destruct (decide (h = h1)) as [->|Hne].
    + rewrite lookup_insert_eq in Hx. simplify_eq. by eapply Hp.
    + rewrite lookup_insert_ne in Hx by done. by eapply Ho.
  - done.
  - rewrite Hl. done.
Qed.

(** The part of the invariant that concerns the other processes survives a
    write that stores or removes the lease when nobody else holds it. *)
Lemma others_keep_nothing s h now rd :
  sys_inv s → s_reads s !! h = Some (now, rd) → read_allows h now (s_world s) rd →
  ∀ h' g, h ≠ h' → s_grants s !! h' = Some g → ¬ s_clock s < g + grantTime.
Proof.
  intros I Hr Ha h' g Hne Hg Hlive.
  eapply (live_grant_blocks s h h'); [done..| |done]. by exists g.
Qed.

Lemma after_write_lookup h now r g h' x :
  after_write h now r g !! h' = Some x →
  g !! h' = Some x ∨ (h = h' ∧ x = now ∧ ∃ e, r = inl (true, e)).
Proof.
  unfold after_write. destruct r as [[[] e]|]; [|by intros [_ ?]%lookup_delete_Some; left|by left].
  destruct (decide (h = h')) as [->|]; [|rewrite lookup_insert_ne by done; by left].
  rewrite lookup_insert_eq. intros [= <-]. right. eauto.
Qed.

Lemma write_step_inv h now rd w t rs g r w' :
  rs !! h = Some (now, rd) → AcquireWrite m node h now rd w = (r, w') →
  sys_inv (mkSys w t rs g) → sys_inv (mkSys w' t (delete h rs) (after_write h now r g)).
Proof.
  intros Hh E I. pose proof I as [Ha Hr Ho Hp Hg]. simpl in *.
  pose proof (Hr _ _ _ Hh) as (Hnow & Hk & _).
  destruct (AcquireWrite_cases h now rd w r w' Ha Hk E) as (Ha' & Hrev & Hc).
  constructor; simpl; [done|..].
  - intros h1 n1 rd1 [_ Hx]%lookup_delete_Some. apply Hr in Hx.
    destruct Hc as [[Hl _]|(l & _ & Hfresh & Hl & _)].
    + apply (read_inv_mono w w' t t); [lia|done|by rewrite Hl|done].
    + eapply (read_inv_write w w' t n1 rd1 (Some l)); [done| |by intros ? [= <-]|done].
      by rewrite Hl, lookup_insert_eq.
  - intros h1 n1 rd1 x [Hne Hx]%lookup_delete_Some Hgx.
    apply after_write_lookup in Hgx as [Hgx|(-> & _)]; [by eapply Ho|done].
  - intros h1 x [?|(_ & -> & _)]%after_write_lookup; [by eapply Hp|done].
  - intros h1 x Hgx Hlive.
    destruct Hc as [[Hl Hno]|(l & Hgr & _ & Hl & Hallow & _)].
    + rewrite Hl. apply after_write_lookup in Hgx as [Hgx|(_ & _ & e & ->)]; [by eapply Hg|].
      by destruct (Hno e).
    + exists l, now. rewrite Hl, lookup_insert_eq.
      pose proof (others_keep_nothing _ h now rd I Hh Hallow h1 x) as Hoth. simpl in Hoth.
      apply after_write_lookup in Hgx as [Hgx|(<- & -> & _)]; [|done].
      destruct (decide (h = h1)) as [<-|Hne]; [|by destruct Hoth].
      split_and!; [done|done| |done]. by eapply Ho.
Qed.

Lemma release_step_inv h w t rs g r w' :
  Release m node h w = (r, w') → sys_inv (mkSys w t rs g) →
  sys_inv (mkSys w' t rs (delete h g)).
Proof.
  intros E [Ha Hr Ho Hp Hg]. simpl in *.
  destruct (Release_cases h w r w' Ha E) as (Ha' & Hrev & Hc).
  constructor; simpl; [done|..].
  - intros h1 n1 rd1 Hx. apply Hr in Hx. destruct Hc as [Hl|(l & _ & _ & Hl)].
    + apply (read_inv_mono w w' t t); [lia|done|by rewrite Hl|done].
    + eapply (read_inv_write w w' t n1 rd1 None); [done| |done|done]. by rewrite Hl, lookup_delete_eq.
  - intros h1 n1 rd1 x Hx [_ ?]%lookup_delete_Some. by eapply Ho.
  - intros h1 x [_ ?]%lookup_delete_Some. by eapply Hp.
  - intros h1 x [Hne Hgx]%lookup_delete_Some Hlive.
    destruct (Hg _ _ Hgx Hlive) as (l & renew & Hgr & Hl1 & ?).
    exists l, renew. split_and!; [done| |lia|lia].
    destruct Hc as [Hl|(l2 & Hl2 & Hh2 & Hl)]; rewrite Hl; [done|].
    destruct Hgr as (_ & Hh & _). rewrite Hl1 in Hl2. congruence.
Qed.

Lemma lstep_inv s s' : lstep s s' → sys_inv s → sys_inv s'.
Proof.
  destruct 1; eauto using tick_inv, read_step_inv, write_step_inv, release_step_inv.
Qed.

Lemma reachable_inv s0 s : initial s0 → rtc lstep s0 s → sys_inv s.
Proof.
  intros Hi Hr. apply initial_inv in Hi. induction Hr; eauto using lstep_inv.
Qed.
End Exclusion.
Arguments mkSys {W} _ _ _ _.

(** ** Properties *)

(** C32. At every instant of every interleaving of reads, conditional writes
    and uninterrupted releases, at most one process holds a live grant of the
    node's lease, whatever errors and timeouts the API server reports. *)
Theorem lease_mutual_exclusion {W} `{LeaseAPILaws W} m node (s0 s : sys)
    (Hinit : initial s0) (Hrun : rtc (lstep m node) s0 s) h h' :
  holds m s h → holds m s h' → h = h'.
Proof.
  intros Hh Hh'. pose proof (reachable_inv m node s0 s Hinit Hrun) as I.
  destruct Hh as (g & Hg & Hl), Hh' as (g' & Hg' & Hl').
  destruct (inv_grants m node s I _ _ Hg Hl) as (l & r & (_ & Ho & _) & Hk & _).
  destruct (inv_grants m node s I _ _ Hg' Hl') as (l' & r' & (_ & Ho' & _) & Hk' & _).
  congruence.
Qed.

(** One call of [Acquire]: success means the server now stores a lease of
    the caller, renewed at the call's instant, with the reported expiry, and
    that nobody else held a live one; and while somebody else does, the answer
    is a refusal without error that leaves the server unchanged, unless the
    read itself failed. *)
Theorem Acquire_correct {W} `{LeaseAPILaws W} m node h now w r w'
    (Hok : api_ok w) (Hrun : Acquire m node h now w = (r, w')) :
  (∀ e, r = inl (true, e) →
     e = time_add now (duration m) ∧
     (∃ l, granted m node h now l ∧ leases w' !! leaseKey m node = Some l) ∧
     (∀ l0, leases w !! leaseKey m node = Some l0 → heldByOther l0 h now = false)) ∧
  (∀ l0, leases w !! leaseKey m node = Some l0 → heldByOther l0 h now = true →
     leases w' = leases w ∧ (r = inl (false, zero_time) ∨ ∃ e, r = inr e)).
Proof.
  unfold Acquire in Hrun. unfold mbind, M_bind in Hrun.
  destruct (AcquireRead m node w) as [rr w1] eqn:Er.
  destruct (AcquireRead_law m node w rr w1 Hok Er) as (rd & -> & Hk & Hok1 & Hl1 & Hrev1 & Hrd).
  destruct (AcquireWrite_cases m node h now rd w1 r w' Hok1 Hk Hrun) as (_ & _ & Hc).
  split.
  - intros e ->. destruct Hc as [[_ Hno]|(l & Hgr & _ & Hl & Ha & Hb)]; [by destruct (Hno e)|].
    destruct (Hb true e eq_refl) as [_ ->]. split_and!; [done| |].
    + exists l. split; [done|]. by rewrite Hl, lookup_insert_eq.
    + intros l0 Hl0. destruct rd as [l1|]; simpl in Ha; [|congruence].
      destruct Ha as [Ha _]. congruence.
  - intros l0 Hl0 Hheld. destruct rd as [l1|err].
    + assert (l1 = l0) as -> by congruence.
      unfold AcquireWrite in Hrun. rewrite Hheld in Hrun. munfold. simplify_eq. auto.
    + unfold AcquireWrite in Hrun. destruct (is_not_found err) eqn:En.
      * unfold is_not_found in En. bool_prop. specialize (Hrd En). congruence.
      * munfold. simplify_eq. eauto.
Qed.

(** The server records [h] as the holder of the node's lease. *)
Definition owns {W} `{LeaseAPILaws W} (m : LeaseManager) (node h : string) (w : W) : Prop :=
  ∃ l, leases w !! leaseKey m node = Some l ∧ L_HolderIdentity l = Some h.

(** One uninterrupted call of [Release] removes the caller's own lease or
    leaves the server alone; and when it reports no error, the caller does not
    own the node afterwards. *)
Theorem Release_correct {W} `{LeaseAPILaws W} m node h w r w'
    (Hok : api_ok w) (Hrun : Release m node h w = (r, w')) :
  (leases w' = leases w ∨
   owns m node h w ∧ leases w' = delete (leaseKey m node) (leases w)) ∧
  (r = inl () → ¬ owns m node h w').
Proof.
  split; [destruct (Release_cases m node h w r w' Hok Hrun) as (_ & _ & Hc);
          unfold owns; naive_solver|].
  intros -> (l & Hl & Hh). unfold Release, ReleaseRead, ReleaseWrite, ignore_not_found in Hrun.
  munfold. destruct (lease_get _ w) as [rd w1] eqn:Eg.
  destruct (lease_get_law _ _ _ _ Hok Eg) as (Hok1 & Hl1 & _ & Hrd).
  destruct rd as [l0|e].
  2: { destruct (is_not_found e) eqn:En; simplify_eq. unfold is_not_found in En. bool_prop.
       specialize (Hrd En). congruence. }
  destruct (leases_law w _ _ Hok Hrd) as [Hkey _].
  destruct (L_HolderIdentity l0) as [cur|] eqn:Eh; [|simplify_eq; congruence].
  case_bool_decide as Ec; [simplify_eq; congruence|].
  destruct (lease_delete l0 w1) as [dr w2] eqn:Ed.
  destruct (lease_delete_law _ _ _ _ Hok1 Ed) as (_ & _ & Hd). rewrite Hkey in Hd.
  assert (w' = w2) as -> by (destruct dr as [[]|e]; [by simplify_eq|];
    destruct (is_not_found e); by simplify_eq).
  destruct Hd as [(Hd & Hdel & Hgone)|Hd]; rewrite Hd in Hl; [|by rewrite lookup_delete_eq in Hl].
  rewrite Hl1 in *. destruct dr as [[]|e]; [by rewrite Hdel in Hl|].
  destruct (is_not_found e) eqn:En; [|done]. unfold is_not_found in En. bool_prop.
  by rewrite (Hgone e) in Hl.
Qed.

(** ** Witnesses, on the server that never fails *)

Definition demo_manager : LeaseManager := mkLeaseManager "kcloud" (60 * second).
Definition empty_store : MemLeases := mkMem ∅ 0.
Lemma empty_store_ok : api_ok empty_store.
Proof. intros k l H. discriminate H. Qed.

Lemma Acquire_correct_witness :
  ∃ w, Acquire demo_manager "w1" "op-a" 5 empty_store = (inl (true, 60 * second + 5), w) ∧
    ∃ l, granted demo_manager "w1" "op-a" 5 l ∧
         leases w !! leaseKey demo_manager "w1" = Some l.
Proof.
  eexists. split; [vm_compute; reflexivity|].
  match goal with |- context [leases ?w !! _] =>
    destruct (Acquire_correct demo_manager "w1" "op-a" 5 empty_store (inl (true, 60 * second + 5)) w)
      as [H _]; [exact empty_store_ok|vm_compute; reflexivity|]
  end.
  destruct (H _ eq_refl) as (_ & Hl & _). exact Hl.
Defined.

Lemma Release_correct_witness :
  let w := (Acquire demo_manager "w1" "op-a" 5 empty_store).2 in
  let w' := (Release demo_manager "w1" "op-a" w).2 in
  api_ok w ∧ ¬ owns demo_manager "w1" "op-a" w'.
Proof.
  intros w w'.
  assert (Hok : api_ok w).
  { destruct (AcquireWrite_cases demo_manager "w1" "op-a" 5
      (inr (mkErr KNotFound "not found")) empty_store _ w empty_store_ok I eq_refl) as [Hok _].
    exact Hok. }
  split; [exact Hok|].
  destruct (Release_correct demo_manager "w1" "op-a" w (inl ()) w' Hok) as [_ H];
    [vm_compute; reflexivity|].
  apply H. reflexivity.
Defined.

Lemma lease_mutual_exclusion_witness :
  let s0 := mkSys empty_store 5 ∅ ∅ in
  ∃ s : sys, rtc (lstep demo_manager "w1") s0 s ∧ holds demo_manager s "op-a" ∧
    ∀ h, holds demo_manager s h → h = "op-a".
Proof.
  intros s0. eexists.
  assert (Hrun : rtc (lstep demo_manager "w1") s0
    (mkSys (Acquire demo_manager "w1" "op-a" 5 empty_store).2 5 ∅ {["op-a" := 5]})).
  { eapply rtc_l; [apply (step_read _ _ "op-a" _ _ _ _ (inr (mkErr KNotFound "not found"))); reflexivity|].
    eapply rtc_l; [apply (step_write demo_manager "w1" "op-a" 5 (inr (mkErr KNotFound "not found")) empty_store 5
      (<["op-a" := (5, inr (mkErr KNotFound "not found"))]> ∅) ∅ (inl (true, 60 * second + 5))
      (Acquire demo_manager "w1" "op-a" 5 empty_store).2); vm_compute; reflexivity|].
    exact (rtc_refl _ _). }
  split; [exact Hrun|].
  assert (Ha : holds demo_manager (mkSys (Acquire demo_manager "w1" "op-a" 5 empty_store).2 5 ∅
    {["op-a" := 5]}) "op-a").
  { exists 5. split; [reflexivity|]. vm_compute. reflexivity. }
  split; [exact Ha|]. intros h Hh.
  refine (lease_mutual_exclusion demo_manager "w1" s0 _ _ Hrun h "op-a" Hh Ha).
  split; [exact empty_store_ok|]. split; reflexivity.
Defined.

(** [Release] deletes by name, without a precondition on what it read: if
    the lease expires and is taken over between its read and its delete, it
    removes the new owner's lease, and a third process is then granted the
    node while the second one's grant is still live. *)
Theorem Release_can_remove_a_foreign_lease :
  let m := demo_manager in
  let w1 := (Acquire m "w1" "op-a" 0 empty_store).2 in
  (** [op-a] is about to release: it has read its own lease *)
  let '(ra, w2) := ReleaseRead m "w1" w1 in
  (** 60 s later the lease has expired and [op-b] takes it *)
  let '(gb, w3) := Acquire m "w1" "op-b" (60 * second) w2 in
  (** [op-a] finishes its release *)
  let '(da, w4) := (ra' ← (λ w, (ra, w)); ReleaseWrite "op-a" ra') w3 in
  (** one second later [op-c] asks *)
  let '(gc, w5) := Acquire m "w1" "op-c" (61 * second) w4 in
  gb = inl (true, 120 * second) ∧ da = inl () ∧ gc = inl (true, 121 * second) ∧
  leases w4 !! leaseKey m "w1" = None ∧
  61 * second < 60 * second + grantTime m.
Proof. vm_compute. split_and!; reflexivity. Qed.
