(* ===== verification/VerificationPolicy.v ===== *)
(** * internal/verification: fingerprint, policy and freshness

    Models [fingerprint.go], [policy.go] and [freshness.go]: what environment
    a piece of evidence was taken in, which policy a node follows, and when
    evidence may still be believed. *)

From S2P Require Import Prelude GoStrings GoTime ApiTypes.

(** ** fingerprint.go *)

Definition FieldBootID : string := "BootID".
Definition FieldKernelVersion : string := "KernelVersion".
Definition FieldDriverVersion : string := "DriverVersion".
Definition FieldFirmwareVersion : string := "FirmwareVersion".
Definition FieldGeneration : string := "Generation".

Definition pickDevice (ndr : option NodeDeviceReport) (vendor : string) : option DeviceEntry :=
  match ndr with
  | None => None
  | Some r =>
      let cands := filter (λ d, vendor = "" ∨ De_Vendor d = vendor) (Ndr_Devices r) in
      head (sort_on De_PCIeAddress cands)
  end.

Definition Compute (node : option Node) (ndr : option NodeDeviceReport) (vendor : string)
    (generation : Z) : EnvironmentFingerprint :=
  let d := pickDevice ndr vendor in
  mkFingerprint (from_option Node_BootID "" node) (from_option Node_KernelVersion "" node)
    (from_option De_DriverVersion "" d) (from_option De_FirmwareVersion "" d) generation.

Definition ChangedFields (old cur : EnvironmentFingerprint) : list string :=
  sort_strings
    ((if bool_decide (Fp_BootID old ≠ Fp_BootID cur) then [FieldBootID] else []) ++
     (if bool_decide (Fp_DriverVersion old ≠ Fp_DriverVersion cur) then [FieldDriverVersion] else []) ++
     (if bool_decide (Fp_FirmwareVersion old ≠ Fp_FirmwareVersion cur)
      then [FieldFirmwareVersion] else []) ++
     (if bool_decide (Fp_Generation old ≠ Fp_Generation cur) then [FieldGeneration] else []) ++
     (if bool_decide (Fp_KernelVersion old ≠ Fp_KernelVersion cur)
      then [FieldKernelVersion] else [])).

(** ** policy.go *)

Definition defaultTTL : Z := 30 * minute.
Definition defaultDriftGracePeriod : Z := 30 * second.

Record EffectivePolicy := mkPolicy {
  Pol_Checks : gmap string bool;
  Pol_TTL : Z;
  Pol_InvalidateOn : list string;
  Pol_DriftGracePeriod : Z;
}.

Definition Enabled (p : EffectivePolicy) (check : string) : bool := mget false (Pol_Checks p) check.

Definition DefaultPolicy : EffectivePolicy := mkPolicy
  (list_to_map [(EvidenceCheckDeviceObservation, true); (EvidenceCheckNodeDeviceReport, true);
                (EvidenceCheckAdvertisement, true); (EvidenceCheckAllocationProbe, false)])
  defaultTTL
  [FieldBootID; FieldDriverVersion; FieldKernelVersion; FieldGeneration]
  defaultDriftGracePeriod.

(** The loop returns false at the first key that differs, so the order in
    which it visits the selector does not show. *)
Definition selectorMatches (sel labels : gmap string string) : bool :=
  forallb (λ '(k, v), bool_decide (mget "" labels k = v)) (map_to_list sel).

Definition positive_or (d : option Z) (keep : Z) : Z :=
  match d with Some v => if 0 <? v then v else keep | None => keep end.

Definition apply (eff : EffectivePolicy) (spec : AcceleratorVerificationPolicySpec) : EffectivePolicy :=
  mkPolicy
    (if bool_decide (Avp_Checks spec = []) then Pol_Checks eff
     else list_to_map ((λ c, (c, true)) <$> Avp_Checks spec))
    (positive_or (Avp_TTL spec) (Pol_TTL eff))
    (if bool_decide (Avp_InvalidateOn spec = []) then Pol_InvalidateOn eff else Avp_InvalidateOn spec)
    (positive_or (Avp_DriftGracePeriod spec) (Pol_DriftGracePeriod eff)).

Definition Resolve (l : list AcceleratorVerificationPolicy) (nodeLabels : gmap string string)
    : EffectivePolicy :=
  match find_first (λ p, selectorMatches (Avp_NodeSelector (Avp_Spec p)) nodeLabels)
                   (sort_on Avp_Name l) with
  | Some p => apply DefaultPolicy (Avp_Spec p)
  | None => DefaultPolicy
  end.

(** ** freshness.go *)

Definition FreshValid : string := "Valid".
Definition FreshExpired : string := "Expired".
Definition FreshEnvironmentChanged : string := "EnvironmentChanged".
Definition FreshAbsent : string := "Absent".
Definition FreshNoLevel : string := "NoLevel".

Definition IsFresh (verdict : string) : bool := bool_decide (verdict = FreshValid).

Definition watchedChanges (old cur : EnvironmentFingerprint) (invalidateOn : list string) : list string :=
  if bool_decide (invalidateOn = []) then []
  else filter (λ f, f ∈ string_set invalidateOn) (ChangedFields old cur).

Definition CheckFreshness (ev : option AcceleratorEvidence) (now : Z) (cur : EnvironmentFingerprint)
    (invalidateOn : list string) : string * string :=
  match ev with
  | None => (FreshAbsent, "no evidence recorded for this node")
  | Some ev =>
      let st := Ev_Status ev in
      if bool_decide (Es_Level st = "") then
        (FreshNoLevel, "evidence has no level (a previous verification did not pass)")
      else
        let changed := watchedChanges (Es_Fingerprint st) cur invalidateOn in
        if negb (bool_decide (changed = [])) then
          (FreshEnvironmentChanged,
            "environment changed since verification: " +:+ join ", " changed)
        else match Es_ExpiresAt st with
        | None => (FreshExpired, "evidence has no expiry")
        | Some e =>
            if negb (time_before now e) then
              (FreshExpired, "evidence expired at " +:+ format_rfc3339 e)
            else (FreshValid, "")
        end
  end.

(** ** Properties *)

Lemma selectorMatches_spec sel labels :
  selectorMatches sel labels = true ↔ ∀ k v, sel !! k = Some v → mget "" labels k = v.
Proof.
  unfold selectorMatches. rewrite forallb_forall. split.
  - intros H k v Hk. specialize (H (k, v)). simpl in H.
    rewrite <-list_elem_of_In, elem_of_map_to_list, bool_decide_eq_true in H. auto.
  - intros H [k v]. rewrite <-list_elem_of_In, elem_of_map_to_list, bool_decide_eq_true. auto.
Qed.

(** The node carries every label the policy's selector asks for. *)
Definition selects (labels : gmap string string) (p : AcceleratorVerificationPolicy) : Prop :=
  ∀ k v, Avp_NodeSelector (Avp_Spec p) !! k = Some v → mget "" labels k = v.

Lemma selects_spec labels p :
  selectorMatches (Avp_NodeSelector (Avp_Spec p)) labels = true ↔ selects labels p.
Proof. apply selectorMatches_spec. Qed.

(** What a usable policy guarantees. *)
Definition policy_ok (p : EffectivePolicy) : Prop :=
  0 < Pol_TTL p ∧ 0 < Pol_DriftGracePeriod p ∧ Pol_InvalidateOn p ≠ [] ∧
  ∃ c, Enabled p c = true.

Lemma positive_or_pos d keep : 0 < keep → 0 < positive_or d keep.
Proof. unfold positive_or. destruct d as [v|]; [|done]. destruct (0 <? v) eqn:E; bool_prop; lia. Qed.

Lemma DefaultPolicy_ok : policy_ok DefaultPolicy.
Proof. split_and!; [done..|]. by exists EvidenceCheckDeviceObservation. Qed.

Lemma apply_ok eff spec : policy_ok eff → policy_ok (apply eff spec).
Proof.
  intros (Ht & Hg & Hi & c & Hc). unfold policy_ok, apply; simpl.
  split_and!; [by apply positive_or_pos..|by case_bool_decide|].
  unfold Enabled; simpl. case_bool_decide as E; [by exists c|].
  destruct (Avp_Checks spec) as [|c0 cs]; [done|]. exists c0. simpl.
  unfold mget. by rewrite lookup_insert_eq.
Qed.

Lemma Resolve_ok l labels : policy_ok (Resolve l labels).
Proof. unfold Resolve. destruct (find_first _ _); [apply apply_ok|]; apply DefaultPolicy_ok. Qed.

(** [Resolve] picks the matching policy whose name comes first (or the
    built-in defaults when none matches), independently of the order the API
    server lists them in, and what it answers is always usable: positive TTL
    and grace, at least one watched field and one enabled check. *)
Theorem Resolve_correct l labels :
  ((∃ p, p ∈ l ∧ selects labels p ∧
      (∀ q, q ∈ l → selects labels q → str_leb (Avp_Name p) (Avp_Name q) = true) ∧
      Resolve l labels = apply DefaultPolicy (Avp_Spec p)) ∨
   ((∀ p, p ∈ l → ¬ selects labels p) ∧ Resolve l labels = DefaultPolicy)) ∧
  policy_ok (Resolve l labels) ∧
  (∀ l', NoDup (Avp_Name <$> l) → l ≡ₚ l' → Resolve l' labels = Resolve l labels).
Proof.
  split_and!.
  - unfold Resolve. destruct (find_first _ _) as [p|] eqn:E.
    + left. apply find_first_Some in E as (l1 & l2 & Es & Hp & Hl1).
      exists p. apply selects_spec in Hp. split_and!; [|done| |done].
      * apply (elem_of_sort_on Avp_Name). rewrite Es. set_solver.
      * intros q Hq Hm. apply (elem_of_sort_on Avp_Name) in Hq. rewrite Es in Hq.
        apply elem_of_app in Hq as [Hq|Hq].
        { rewrite Forall_forall in Hl1. specialize (Hl1 q Hq). simpl in Hl1.
          apply selects_spec in Hm. congruence. }
        apply elem_of_cons in Hq as [->|Hq]; [apply str_leb_refl|].
        by eapply sort_on_sorted.
    + right. rewrite find_first_None, Forall_forall in E. split; [|done].
      intros p Hp Hm. apply (elem_of_sort_on Avp_Name), E in Hp.
      apply selects_spec in Hm. simpl in Hp. congruence.
  - apply Resolve_ok.
  - intros l' ND P. unfold Resolve. by rewrite (sort_on_unique Avp_Name l l').
Qed.

(** The value of an environment axis. *)
Definition field_value (f : string) (fp : EnvironmentFingerprint) : string :=
  if bool_decide (f = FieldBootID) then Fp_BootID fp
  else if bool_decide (f = FieldKernelVersion) then Fp_KernelVersion fp
  else if bool_decide (f = FieldDriverVersion) then Fp_DriverVersion fp
  else if bool_decide (f = FieldFirmwareVersion) then Fp_FirmwareVersion fp
  else if bool_decide (f = FieldGeneration) then sprint_Z (Fp_Generation fp) else "".

Lemma ChangedFields_spec f old cur : f ∈ ChangedFields old cur ↔ field_value f old ≠ field_value f cur.
Proof.
  unfold ChangedFields, field_value. rewrite elem_of_sort_strings, !elem_of_app.
  assert (Hg : sprint_Z (Fp_Generation old) ≠ sprint_Z (Fp_Generation cur) ↔
               Fp_Generation old ≠ Fp_Generation cur).
  { unfold sprint_Z. split; intros H E; apply H; [by rewrite E|by apply (inj pretty) in E]. }
  repeat case_bool_decide; subst; simpl in *; rewrite ?elem_of_nil, ?list_elem_of_singleton;
    try (unfold FieldBootID, FieldKernelVersion, FieldDriverVersion, FieldFirmwareVersion,
           FieldGeneration in *; simplify_eq; naive_solver).
Qed.

(** Evidence is fresh exactly when it exists, has a level, no watched
    environment axis has changed since it was taken, and its expiry is known and
    still ahead; every other case is refused (fail closed). *)
Theorem CheckFreshness_correct ev now cur invalidateOn :
  IsFresh (CheckFreshness ev now cur invalidateOn).1 = true ↔
  ∃ e x, ev = Some e ∧ Es_Level (Ev_Status e) ≠ "" ∧
    (∀ f, f ∈ invalidateOn → field_value f (Es_Fingerprint (Ev_Status e)) = field_value f cur) ∧
    Es_ExpiresAt (Ev_Status e) = Some x ∧ now < x.
Proof.
  unfold CheckFreshness. destruct ev as [e|]; [|split; [done|naive_solver]].
  assert (Hw : watchedChanges (Es_Fingerprint (Ev_Status e)) cur invalidateOn = [] ↔
    ∀ f, f ∈ invalidateOn → field_value f (Es_Fingerprint (Ev_Status e)) = field_value f cur).
  { unfold watchedChanges. case_bool_decide as Ei; [subst; split; [intros _ f []%elem_of_nil|done]|].
    split.
    - intros H f Hf. destruct (decide (field_value f (Es_Fingerprint (Ev_Status e)) = field_value f cur))
        as [|Hne]; [done|]. apply ChangedFields_spec in Hne. exfalso.
      apply (filter_nil_not_elem_of _ _ f H); [|done]. unfold string_set. set_solver.
    - intros H. apply elem_of_nil_inv. intros f [Hs Hf]%list_elem_of_filter.
      apply ChangedFields_spec in Hf. apply Hf, H. unfold string_set in Hs. set_solver. }
  case_bool_decide as El; [split; [done|naive_solver]|].
  case_bool_decide as Ec; simpl.
  - destruct (Es_ExpiresAt (Ev_Status e)) as [x|] eqn:Ex; [|split; [done|naive_solver]].
    unfold time_before. destruct (now <? x) eqn:Et; bool_prop; simpl.
    + split; [|done]. intros _. exists e, x. pose proof (proj1 Hw Ec). auto.
    + split; [done|]. intros (? & y & [= <-] & _ & _ & ? & ?). simplify_eq. lia.
  - split; [done|]. intros (? & y & [= <-] & _ & Hf & _). by apply Hw in Hf.
Qed.
