(* ===== verification/VerificationAgreement.v ===== *)
(** * internal/verification/agreement.go: do the observations agree?

    [Evaluate] runs the checks the policy enables over the collected
    observations and answers with a level or with the checks that failed.  The
    closure [record] appends to the result's checks and to the list of failed
    names; here it is a step on the record of the two. *)

From S2P Require Import Prelude GoStrings GoTime ApiTypes VerificationPolicy.

Record Expectation := mkExpectation {
  Ex_Profile : string;
  Ex_CountPerDevice : Z;
  Ex_Geometry : string;
  Ex_Allocatable : gmap string Z;
  Ex_ProbeResource : string;
}.

Record Inputs := mkInputs {
  In_Expectation : Expectation;
  In_ObservedGeometry : gmap string string;
  In_ObservationErrors : gmap string string;
  In_ReportGeometry : gmap string string;
  In_ReportErrors : gmap string string;
  In_ReportValidationPassed : option bool;
  In_ExpectedDevices : Z;
  In_ReportValidationSkipped : string;
  In_Allocatable : gmap string Z;
  In_ProbeAttempted : bool;
  In_ProbeAllocated : bool;
  In_ProbeMessage : string;
}.

Record Result := mkResult {
  Res_Level : string; Res_Agreed : bool; Res_Checks : list EvidenceCheck; Res_Reason : string;
}.

Record recorder := mkRecorder { rec_checks : list EvidenceCheck; rec_failed : list string }.
Definition record (name target : string) (passed : bool) (msg : string) (r : recorder) : recorder :=
  mkRecorder (rec_checks r ++ [mkCheck name target passed msg None])
    (if passed then rec_failed r else rec_failed r ++ [name]).


(** The union of the maps' keys, sorted. *)
Definition sortedKeys {V} (ms : list (gmap string V)) : list string :=
  sort_strings (elements (⋃ (dom <$> ms) : gset string)).

Definition check_less (a b : EvidenceCheck) : bool :=
  if bool_decide (Ec_Name a ≠ Ec_Name b) then str_ltb (Ec_Name a) (Ec_Name b)
  else str_ltb (Ec_Target a) (Ec_Target b).
Definition sortChecks : list EvidenceCheck → list EvidenceCheck := sort_slice check_less.

(** [dedupe] drops an element equal to the one before it. *)
Fixpoint dedupe_from (prev : option string) (l : list string) : list string :=
  match l with
  | [] => []
  | s :: l => if bool_decide (prev = Some s) then dedupe_from (Some s) l
              else s :: dedupe_from (Some s) l
  end.
Definition dedupe : list string → list string := dedupe_from None.

Definition observeDevice (inp : Inputs) (r : recorder) (pci : string) : recorder :=
  let name := EvidenceCheckDeviceObservation in
  let errMsg := mget "" (In_ObservationErrors inp) pci in
  let want := Ex_Geometry (In_Expectation inp) in
  if bool_decide (errMsg ≠ "") then record name pci false ("observation failed: " +:+ errMsg) r
  else match In_ObservedGeometry inp !! pci with
  | None => record name pci false "no geometry observed" r
  | Some got =>
      if bool_decide (want = "") then record name pci true "geometry not constrained by spec" r
      else if bool_decide (got ≠ want) then
        record name pci false
          ("device geometry " +:+ quote got +:+ " != expected " +:+ quote want) r
      else record name pci true "" r
  end.

Definition evalDeviceObservation (inp : Inputs) (r : recorder) : recorder :=
  if bool_decide (In_ObservedGeometry inp = ∅) && bool_decide (In_ObservationErrors inp = ∅) then
    record EvidenceCheckDeviceObservation "" false "no device observation available" r
  else foldl (observeDevice inp) r (sortedKeys [In_ObservedGeometry inp; In_ObservationErrors inp]).

Definition compareReported (inp : Inputs) (cr : bool * recorder) (pci : string) : bool * recorder :=
  let name := EvidenceCheckNodeDeviceReport in
  let '(compared, r) := cr in
  let msg := mget "" (In_ReportErrors inp) pci in
  let got := mget "" (In_ReportGeometry inp) pci in
  let want := Ex_Geometry (In_Expectation inp) in
  if bool_decide (msg ≠ "") then
    (false, record name pci true ("node agent could not observe this device: " +:+ msg) r)
  else if bool_decide (got ≠ want) then
    (compared, record name pci false
      ("report geometry " +:+ quote got +:+ " != expected " +:+ quote want) r)
  else (compared, record name pci true "" r).

Definition evalNodeDeviceReport (inp : Inputs) (r : recorder) : bool * recorder :=
  let name := EvidenceCheckNodeDeviceReport in
  let skipped := In_ReportValidationSkipped inp in
  let reported := Z.of_nat (size (In_ReportGeometry inp)) in
  if bool_decide (skipped = "") && bool_decide (In_ReportValidationPassed inp = Some false) then
    (false, record name "" false "node agent validation reported a failure" r)
  else
    let r := if bool_decide (skipped = "") then r
             else record name "" true ("node agent validation not applied: " +:+ skipped) r in
    if bool_decide (In_ReportGeometry inp = ∅) then
      (false, record name "" false "no node device report geometry available" r)
    else
      let r := if bool_decide (In_ReportValidationPassed inp = None) && bool_decide (skipped = "")
               then record name "" true "node agent validation has not run yet" r else r in
      if (0 <? In_ExpectedDevices inp) && (reported <? In_ExpectedDevices inp) then
        (false, record name "" false
          ("report has " +:+ sprint_Z reported +:+ " matching devices, expected at least " +:+
           sprint_Z (In_ExpectedDevices inp)) r)
      else if bool_decide (Ex_Geometry (In_Expectation inp) = "") then
        (true, record name "" true
          "no report geometry to compare (spec has no geometry constraint)" r)
      else foldl (compareReported inp) (true, r) (sortedKeys [In_ReportGeometry inp]).

Definition advertise (inp : Inputs) (r : recorder) (res : string) : recorder :=
  let name := EvidenceCheckAdvertisement in
  let want := mget 0 (Ex_Allocatable (In_Expectation inp)) res in
  match In_Allocatable inp !! res with
  | None => record name res (want <=? 0) "resource not advertised" r
  | Some got =>
      if got <? want then
        record name res false
          ("advertised " +:+ sprint_Z got +:+ " < expected " +:+ sprint_Z want) r
      else record name res true "" r
  end.

Definition evalAdvertisement (inp : Inputs) (r : recorder) : bool * recorder :=
  if bool_decide (Ex_Allocatable (In_Expectation inp) = ∅) then
    (false, record EvidenceCheckAdvertisement "" true "no advertisement expectation to compare" r)
  else (true, foldl (advertise inp) r (sortedKeys [Ex_Allocatable (In_Expectation inp)])).

Definition evalProbe (inp : Inputs) (r : recorder) : recorder :=
  if negb (In_ProbeAttempted inp) then
    record EvidenceCheckAllocationProbe "" false "probe required by policy but not attempted" r
  else record EvidenceCheckAllocationProbe (Ex_ProbeResource (In_Expectation inp))
         (In_ProbeAllocated inp) (In_ProbeMessage inp) r.

Definition levelFor (p : EffectivePolicy) (advertisementApplicable : bool) : string :=
  if Enabled p EvidenceCheckAdvertisement && negb advertisementApplicable then EvidenceLevelObserved
  else if Enabled p EvidenceCheckAllocationProbe then EvidenceLevelAllocationVerified
  else if Enabled p EvidenceCheckAdvertisement then EvidenceLevelFunctionallyVerified
  else EvidenceLevelObserved.

(** The checks the policy enables, in order: is the report comparable, is the
    advertisement applicable, and what was recorded. *)
Definition runChecks (inp : Inputs) (p : EffectivePolicy) : bool * bool * recorder :=
  let r := mkRecorder [] [] in
  let r := if Enabled p EvidenceCheckDeviceObservation then evalDeviceObservation inp r else r in
  let cr := if Enabled p EvidenceCheckNodeDeviceReport then evalNodeDeviceReport inp r else (true, r) in
  let ar := if Enabled p EvidenceCheckAdvertisement then evalAdvertisement inp cr.2 else (true, cr.2) in
  let r := if Enabled p EvidenceCheckAllocationProbe then evalProbe inp ar.2 else ar.2 in
  (cr.1, ar.1, r).

Definition Evaluate (inp : Inputs) (p : EffectivePolicy) : Result :=
  let '(reportComparable, advertisementApplicable, r) := runChecks inp p in
  let checks := sortChecks (rec_checks r) in
  if bool_decide (rec_failed r ≠ []) then
    mkResult "" false checks
      ("checks failed: " +:+ join ", " (dedupe (sort_strings (rec_failed r))))
  else mkResult (levelFor p (advertisementApplicable && reportComparable)) true checks "".

(** ** What agreement means *)

Definition device_axis_ok (inp : Inputs) : Prop :=
  let want := Ex_Geometry (In_Expectation inp) in
  (In_ObservedGeometry inp ≠ ∅ ∨ In_ObservationErrors inp ≠ ∅) ∧
  ∀ pci, is_Some (In_ObservedGeometry inp !! pci) ∨ is_Some (In_ObservationErrors inp !! pci) →
    mget "" (In_ObservationErrors inp) pci = "" ∧
    ∃ got, In_ObservedGeometry inp !! pci = Some got ∧ (want = "" ∨ got = want).

Definition report_axis_ok (inp : Inputs) : Prop :=
  let want := Ex_Geometry (In_Expectation inp) in
  (In_ReportValidationSkipped inp ≠ "" ∨ In_ReportValidationPassed inp ≠ Some false) ∧
  In_ReportGeometry inp ≠ ∅ ∧
  In_ExpectedDevices inp <= Z.of_nat (size (In_ReportGeometry inp)) ∧
  (want = "" ∨ ∀ pci got, In_ReportGeometry inp !! pci = Some got →
                 mget "" (In_ReportErrors inp) pci ≠ "" ∨ got = want).

Definition advertisement_axis_ok (inp : Inputs) : Prop :=
  ∀ res want, Ex_Allocatable (In_Expectation inp) !! res = Some want →
    match In_Allocatable inp !! res with None => want <= 0 | Some got => want <= got end.

Definition probe_axis_ok (inp : Inputs) : Prop :=
  In_ProbeAttempted inp = true ∧ In_ProbeAllocated inp = true.

(** Every check the policy enables passes. *)
Definition all_axes_ok (inp : Inputs) (p : EffectivePolicy) : Prop :=
  (Enabled p EvidenceCheckDeviceObservation = true → device_axis_ok inp) ∧
  (Enabled p EvidenceCheckNodeDeviceReport = true → report_axis_ok inp) ∧
  (Enabled p EvidenceCheckAdvertisement = true → advertisement_axis_ok inp) ∧
  (Enabled p EvidenceCheckAllocationProbe = true → probe_axis_ok inp).

(** Some advertised amount was compared, and no reported device was left out
    of the comparison. *)
Definition compared_all (inp : Inputs) (p : EffectivePolicy) : Prop :=
  Ex_Allocatable (In_Expectation inp) ≠ ∅ ∧
  (Enabled p EvidenceCheckNodeDeviceReport = true → Ex_Geometry (In_Expectation inp) = "" ∨
    ∀ pci, is_Some (In_ReportGeometry inp !! pci) → mget "" (In_ReportErrors inp) pci = "").

Definition failed_names (cs : list EvidenceCheck) : list string :=
  Ec_Name <$> filter (λ c, Ec_Passed c = false) cs.
(** The two lists of the recorder tell the same story. *)
Definition rec_ok (r : recorder) : Prop := rec_failed r = failed_names (rec_checks r).

Lemma record_ok name target passed msg r : rec_ok r → rec_ok (record name target passed msg r).
Proof.
  unfold rec_ok, failed_names, record; simpl. intros ->. rewrite filter_app, fmap_app.
  destruct passed; simpl; [by rewrite app_nil_r|done].
Qed.
#[export] Hint Resolve record_ok : go_db.

Lemma record_none_failed name target passed msg r :
  rec_failed (record name target passed msg r) = [] ↔ passed = true ∧ rec_failed r = [].
Proof. destruct passed; simpl; [naive_solver|]. split; [intros []%app_nil; done|naive_solver]. Qed.

Lemma foldl_ind {A B} (I : A → Prop) (f : A → B → A) :
  (∀ a b, I a → I (f a b)) → ∀ l a, I a → I (foldl f a l).
Proof. intros H. induction l; simpl; auto. Qed.

Lemma foldl_none_failed {A B} (get : A → recorder) (f : A → B → A) (P : B → Prop) :
  (∀ a b, rec_failed (get (f a b)) = [] ↔ P b ∧ rec_failed (get a) = []) →
  ∀ l a, rec_failed (get (foldl f a l)) = [] ↔ (∀ b, b ∈ l → P b) ∧ rec_failed (get a) = [].
Proof.
  intros H l. induction l as [|b l IH]; intros a; simpl; [set_solver|].
  rewrite IH, H. setoid_rewrite elem_of_cons. naive_solver.
Qed.

Lemma foldl_none_failed_rec {B} (f : recorder → B → recorder) (P : B → Prop) :
  (∀ a b, rec_failed (f a b) = [] ↔ P b ∧ rec_failed a = []) →
  ∀ l a, rec_failed (foldl f a l) = [] ↔ (∀ b, b ∈ l → P b) ∧ rec_failed a = [].
Proof. exact (foldl_none_failed id f P). Qed.

Lemma elem_of_sortedKeys {V} (ms : list (gmap string V)) k :
  k ∈ sortedKeys ms ↔ ∃ m, m ∈ ms ∧ is_Some (m !! k).
Proof.
  unfold sortedKeys. rewrite elem_of_sort_strings, elem_of_elements, elem_of_union_list.
  setoid_rewrite list_elem_of_fmap. setoid_rewrite <-elem_of_dom. naive_solver.
Qed.

(** ** Axis by axis *)

Lemma is_Some_mget {V} (z : V) (m : gmap string V) k : is_Some (m !! k) → m !! k = Some (mget z m k).
Proof. unfold mget. by intros [v ->]. Qed.

Lemma observeDevice_none_failed inp r pci :
  rec_failed (observeDevice inp r pci) = [] ↔
  (mget "" (In_ObservationErrors inp) pci = "" ∧
   ∃ got, In_ObservedGeometry inp !! pci = Some got ∧
     (Ex_Geometry (In_Expectation inp) = "" ∨ got = Ex_Geometry (In_Expectation inp))) ∧
  rec_failed r = [].
Proof.
  unfold observeDevice. case_bool_decide; [rewrite record_none_failed; naive_solver|].
  destruct (In_ObservedGeometry inp !! pci) as [got|]; [|rewrite record_none_failed; naive_solver].
  repeat case_bool_decide; rewrite record_none_failed; naive_solver.
Qed.

Lemma evalDeviceObservation_none_failed inp r :
  rec_failed (evalDeviceObservation inp r) = [] ↔ device_axis_ok inp ∧ rec_failed r = [].
Proof.
  unfold evalDeviceObservation, device_axis_ok. destruct (_ && _) eqn:E; bool_prop.
  - rewrite record_none_failed. naive_solver.
  - rewrite (foldl_none_failed_rec _ _ (observeDevice_none_failed inp)).
    setoid_rewrite elem_of_sortedKeys. apply and_iff_compat_r.
    assert (In_ObservedGeometry inp ≠ ∅ ∨ In_ObservationErrors inp ≠ ∅) as Hne.
    { apply andb_false_iff in E as [E|E]; bool_prop; auto. }
    split.
    + intros H. split; [done|]. intros pci Hp. apply H.
      destruct Hp; eexists; (split; [|done]); set_solver.
    + intros [_ H] pci (m & Hm & Hs). apply H. set_unfold. naive_solver.
Qed.

Lemma compareReported_none_failed inp (cr : bool * recorder) pci :
  rec_failed (compareReported inp cr pci).2 = [] ↔
  (mget "" (In_ReportErrors inp) pci ≠ "" ∨
   mget "" (In_ReportGeometry inp) pci = Ex_Geometry (In_Expectation inp)) ∧ rec_failed cr.2 = [].
Proof.
  destruct cr as [b r]. unfold compareReported.
  case_bool_decide; [|case_bool_decide]; cbn [snd]; rewrite record_none_failed; [tauto| |tauto].
  split; [by intros [? _]|tauto].
Qed.

Lemma evalNodeDeviceReport_none_failed inp r :
  rec_failed (evalNodeDeviceReport inp r).2 = [] ↔ report_axis_ok inp ∧ rec_failed r = [].
Proof.
  unfold evalNodeDeviceReport, report_axis_ok.
  destruct (bool_decide _ && bool_decide (In_ReportValidationPassed inp = Some false)) eqn:E1; bool_prop.
  { cbn [snd]. rewrite record_none_failed. split; [by intros [? _]|]. intros [([?|?] & _) _]; done. }
  apply andb_false_iff in E1.
  assert (In_ReportValidationSkipped inp ≠ "" ∨ In_ReportValidationPassed inp ≠ Some false) as Hv.
  { destruct E1; bool_prop; auto. }
  set (r1 := if bool_decide (In_ReportValidationSkipped inp = "") then r else _).
  assert (Hr1 : rec_failed r1 = [] ↔ rec_failed r = []).
  { unfold r1. case_bool_decide; rewrite ?record_none_failed; naive_solver. }
  destruct (bool_decide (In_ReportGeometry inp = ∅)) eqn:E2; bool_prop; [cbn [snd]; rewrite record_none_failed; naive_solver|].
  match goal with |- context [if _ && bool_decide (In_ReportValidationSkipped inp = "") then ?x else ?y] =>
    set (r2 := if _ && bool_decide (In_ReportValidationSkipped inp = "") then x else y) end.
  assert (Hr2 : rec_failed r2 = [] ↔ rec_failed r = []).
  { unfold r2. destruct (_ && _); rewrite ?record_none_failed; naive_solver. }
  clearbody r1 r2. destruct (_ && (_ <? _)) eqn:E3; bool_prop.
  { cbn [snd]. rewrite record_none_failed. split; [naive_solver|]. intros [(_ & _ & ? & _) _]. lia. }
  assert (In_ExpectedDevices inp <= Z.of_nat (size (In_ReportGeometry inp))) as Hn.
  { apply andb_false_iff in E3 as [E3|E3]; bool_prop; lia. }
  destruct (bool_decide (Ex_Geometry (In_Expectation inp) = "")) eqn:E4; bool_prop; [cbn [snd]; rewrite record_none_failed; naive_solver|].
  rewrite (foldl_none_failed snd _ _ (compareReported_none_failed inp)). simpl.
  rewrite Hr2. apply and_iff_compat_r. setoid_rewrite elem_of_sortedKeys. split.
  - intros H. split_and!; [done..|]. right. intros pci got Hg.
    destruct (H pci) as [|Hq]; [set_solver|by left|right]. unfold mget in Hq. by rewrite Hg in Hq.
  - intros (_ & _ & _ & [?|H]) pci (m & Hm & Hs); [done|]. apply list_elem_of_singleton in Hm as ->.
    apply (H pci). by apply is_Some_mget.
Qed.

Lemma advertise_none_failed inp r res :
  rec_failed (advertise inp r res) = [] ↔
  (let want := mget 0 (Ex_Allocatable (In_Expectation inp)) res in
   match In_Allocatable inp !! res with None => want <= 0 | Some got => want <= got end) ∧
  rec_failed r = [].
Proof.
  unfold advertise. simpl. destruct (In_Allocatable inp !! res) as [got|].
  - destruct (_ <? _) eqn:E; bool_prop; rewrite record_none_failed; [|naive_solver].
    split; [naive_solver|]. intros [? _]. lia.
  - by rewrite record_none_failed, Z.leb_le.
Qed.

Lemma evalAdvertisement_none_failed inp r :
  rec_failed (evalAdvertisement inp r).2 = [] ↔ advertisement_axis_ok inp ∧ rec_failed r = [].
Proof.
  unfold evalAdvertisement, advertisement_axis_ok. case_bool_decide as E; cbn [snd].
  { rewrite record_none_failed, E. split; [|naive_solver]. intros [_ ?]. split; [|done].
    intros res want Hw. by rewrite lookup_empty in Hw. }
  rewrite (foldl_none_failed_rec _ _ (advertise_none_failed inp)). apply and_iff_compat_r.
  setoid_rewrite elem_of_sortedKeys. split.
  - intros Ha res want Hw. specialize (Ha res). unfold mget in Ha. rewrite Hw in Ha. apply Ha. set_solver.
  - intros Ha res (m & Hm & Hs). apply list_elem_of_singleton in Hm as ->.
    apply (Ha res). by apply is_Some_mget.
Qed.

Lemma evalProbe_none_failed inp r :
  rec_failed (evalProbe inp r) = [] ↔ probe_axis_ok inp ∧ rec_failed r = [].
Proof.
  unfold evalProbe, probe_axis_ok. destruct (In_ProbeAttempted inp); cbn [negb];
    rewrite record_none_failed; naive_solver.
Qed.

Lemma evalDeviceObservation_ok inp r : rec_ok r → rec_ok (evalDeviceObservation inp r).
Proof.
  intros Hr. unfold evalDeviceObservation. destruct (_ && _); [auto with go_db|].
  apply foldl_ind; [|done]. intros a pci Ha. unfold observeDevice.
  repeat case_match; auto with go_db.
Qed.

Lemma evalNodeDeviceReport_ok inp r : rec_ok r → rec_ok (evalNodeDeviceReport inp r).2.
Proof.
  intros Hr. unfold evalNodeDeviceReport.
  repeat (case_match; cbn [snd]; auto 6 with go_db);
  (apply (foldl_ind (λ cr, rec_ok cr.2)); [|cbn [snd]; auto with go_db];
   intros [b a] pci Ha; unfold compareReported; repeat case_match; cbn [snd]; auto with go_db).
Qed.

Lemma evalAdvertisement_ok inp r : rec_ok r → rec_ok (evalAdvertisement inp r).2.
Proof.
  intros Hr. unfold evalAdvertisement. case_match; cbn [snd]; [auto with go_db|].
  apply foldl_ind; [|done]. intros a res Ha. unfold advertise. repeat case_match; auto with go_db.
Qed.

Lemma evalProbe_ok inp r : rec_ok r → rec_ok (evalProbe inp r).
Proof. intros Hr. unfold evalProbe. case_match; auto with go_db. Qed.

Lemma compareReported_fst inp l b r :
  (foldl (compareReported inp) (b, r) l).1 = true ↔
  b = true ∧ ∀ pci, pci ∈ l → mget "" (In_ReportErrors inp) pci = "".
Proof.
  revert b r. induction l as [|pci l IH]; intros b r; simpl; [set_solver|].
  setoid_rewrite elem_of_cons. case_bool_decide; [|case_bool_decide]; rewrite IH; naive_solver.
Qed.

Lemma report_comparable inp r :
  report_axis_ok inp →
  (evalNodeDeviceReport inp r).1 = true ↔
  (Ex_Geometry (In_Expectation inp) = "" ∨
   ∀ pci, is_Some (In_ReportGeometry inp !! pci) → mget "" (In_ReportErrors inp) pci = "").
Proof.
  intros (Hv & Hne & Hn & _). unfold evalNodeDeviceReport.
  destruct (bool_decide _ && bool_decide (In_ReportValidationPassed inp = Some false)) eqn:E1; bool_prop.
  { by destruct Hv. }
  rewrite (bool_decide_eq_false_2 _ Hne).
  destruct (_ && (_ <? _)) eqn:E3; bool_prop; [lia|].
  destruct (bool_decide (Ex_Geometry (In_Expectation inp) = "")) eqn:E4; bool_prop; [naive_solver|].
  rewrite compareReported_fst. setoid_rewrite elem_of_sortedKeys. split.
  - intros [_ H]. right. intros pci Hp. apply H. set_solver.
  - intros [?|H]; [done|]. split; [done|]. intros pci (m & ->%list_elem_of_singleton & Hs). auto.
Qed.

Lemma advertisement_applicable inp r :
  (evalAdvertisement inp r).1 = true ↔ Ex_Allocatable (In_Expectation inp) ≠ ∅.
Proof. unfold evalAdvertisement. case_bool_decide; simpl; naive_solver. Qed.

(** The level a full agreement earns. *)
Definition earned_level (p : EffectivePolicy) (complete : Prop) (level : string) : Prop :=
  (level = EvidenceLevelAllocationVerified ↔
     Enabled p EvidenceCheckAllocationProbe = true ∧
     (Enabled p EvidenceCheckAdvertisement = true → complete)) ∧
  (level = EvidenceLevelFunctionallyVerified ↔
     Enabled p EvidenceCheckAllocationProbe = false ∧
     Enabled p EvidenceCheckAdvertisement = true ∧ complete) ∧
  (level = EvidenceLevelAllocationVerified ∨ level = EvidenceLevelFunctionallyVerified ∨
   level = EvidenceLevelObserved).

Lemma levelFor_earned p b (complete : Prop) :
  (Enabled p EvidenceCheckAdvertisement = true → b = true ↔ complete) →
  earned_level p complete (levelFor p b).
Proof.
  intros H. unfold earned_level, levelFor.
  destruct (Enabled p EvidenceCheckAdvertisement), (Enabled p EvidenceCheckAllocationProbe), b;
    simpl; unfold EvidenceLevelAllocationVerified, EvidenceLevelFunctionallyVerified,
      EvidenceLevelObserved; naive_solver.
Qed.

Lemma enabled_step (b : bool) (P : Prop) (r r' : recorder) :
  (rec_failed r' = [] ↔ P ∧ rec_failed r = []) →
  rec_failed (if b then r' else r) = [] ↔ (b = true → P) ∧ rec_failed r = [].
Proof. destruct b; naive_solver. Qed.

Lemma enabled_step_snd (b : bool) (P : Prop) (r : recorder) (r' : bool * recorder) :
  (rec_failed r'.2 = [] ↔ P ∧ rec_failed r = []) →
  rec_failed (if b then r' else (true, r)).2 = [] ↔ (b = true → P) ∧ rec_failed r = [].
Proof. destruct b; naive_solver. Qed.

Lemma no_failed_names cs : failed_names cs = [] ↔ Forall (λ c, Ec_Passed c = true) cs.
Proof.
  unfold failed_names. induction cs as [|c cs IH]; [done|].
  rewrite filter_cons, Forall_cons. destruct (Ec_Passed c) eqn:E; simpl; naive_solver.
Qed.

Lemma enabled_ok (b : bool) r r' : rec_ok r → rec_ok r' → rec_ok (if b then r' else r).
Proof. by destruct b. Qed.

Lemma enabled_ok_snd (b : bool) r (r' : bool * recorder) :
  rec_ok r → rec_ok r'.2 → rec_ok (if b then r' else (true, r)).2.
Proof. by destruct b. Qed.
#[local] Hint Resolve enabled_ok enabled_ok_snd evalDeviceObservation_ok evalNodeDeviceReport_ok
  evalAdvertisement_ok evalProbe_ok : go_db.

Lemma runChecks_ok inp p : rec_ok (runChecks inp p).2.
Proof.
  assert (rec_ok (mkRecorder [] [])) by done. unfold runChecks. cbn [snd]. auto 10 with go_db.
Qed.

Lemma runChecks_none_failed inp p : rec_failed (runChecks inp p).2 = [] ↔ all_axes_ok inp p.
Proof.
  unfold runChecks, all_axes_ok. cbn [snd].
  rewrite (enabled_step _ _ _ _ (evalProbe_none_failed _ _)).
  rewrite (enabled_step_snd _ _ _ _ (evalAdvertisement_none_failed _ _)).
  rewrite (enabled_step_snd _ _ _ _ (evalNodeDeviceReport_none_failed _ _)).
  rewrite (enabled_step _ _ _ _ (evalDeviceObservation_none_failed _ _)). cbn [rec_failed]. tauto.
Qed.

Lemma runChecks_complete inp p :
  all_axes_ok inp p → Enabled p EvidenceCheckAdvertisement = true →
  ((runChecks inp p).1.2 && (runChecks inp p).1.1)%bool = true ↔ compared_all inp p.
Proof.
  intros (_ & Hr & _) Ha. unfold runChecks, compared_all. cbn [fst snd].
  rewrite Ha, andb_true_iff, advertisement_applicable.
  destruct (Enabled p EvidenceCheckNodeDeviceReport); [|naive_solver].
  rewrite report_comparable by auto. naive_solver.
Qed.

Lemma Evaluate_agreed inp p : Res_Agreed (Evaluate inp p) = true ↔ all_axes_ok inp p.
Proof.
  pose proof (runChecks_none_failed inp p) as Hall. unfold Evaluate.
  destruct (runChecks inp p) as [[c a] r]. cbn [snd] in Hall. rewrite <-Hall.
  case_bool_decide; simpl; split; [done|done|intros _|done]. by destruct (rec_failed r) as [|? ?].
Qed.

Lemma Evaluate_checks inp p :
  Res_Agreed (Evaluate inp p) = true ↔ Forall (λ c, Ec_Passed c = true) (Res_Checks (Evaluate inp p)).
Proof.
  pose proof (runChecks_ok inp p) as Hok. unfold Evaluate.
  destruct (runChecks inp p) as [[c a] r]. cbn [snd] in Hok.
  assert (Hpass : rec_failed r = [] ↔ Forall (λ c, Ec_Passed c = true) (sortChecks (rec_checks r))).
  { unfold sortChecks. by rewrite Hok, no_failed_names, sort_slice_perm. }
  case_bool_decide; simpl; rewrite <-Hpass; split; [done|done|intros _|done].
  by destruct (rec_failed r) as [|? ?].
Qed.

Lemma Evaluate_level inp p :
  (Res_Agreed (Evaluate inp p) = false → Res_Level (Evaluate inp p) = "") ∧
  (Res_Agreed (Evaluate inp p) = true → earned_level p (compared_all inp p) (Res_Level (Evaluate inp p))).
Proof.
  split; intros Ha.
  - revert Ha. unfold Evaluate. destruct (runChecks inp p) as [[c a] r]. by case_bool_decide.
  - pose proof (proj1 (Evaluate_agreed inp p) Ha) as Hall. revert Ha.
    pose proof (runChecks_complete inp p) as Hcomp. unfold Evaluate.
    destruct (runChecks inp p) as [[c a] r]. cbn [fst snd] in *.
    case_bool_decide; simpl; [done|]. intros _. apply levelFor_earned. tauto.
Qed.

Lemma earned_level_nonempty p P level : earned_level p P level → level ≠ "".
Proof. intros (_ & _ & [->|[->| ->]]); done. Qed.

(** A verification agrees exactly when every check its policy enables
    holds, which is also when every check it recorded passed; only then does it
    grant a level.  [FunctionallyVerified] and, where the policy looks at the
    advertisement, [AllocationVerified] need a complete comparison: a nonempty
    advertisement and no device the node agent could not observe. *)
Theorem Evaluate_correct inp p :
  let res := Evaluate inp p in
  (Res_Agreed res = true ↔ all_axes_ok inp p) ∧
  (Res_Agreed res = true ↔ Forall (λ c, Ec_Passed c = true) (Res_Checks res)) ∧
  (Res_Agreed res = true ↔ Res_Reason res = "") ∧
  (Res_Agreed res = false → Res_Level res = "") ∧
  (Res_Agreed res = true → earned_level p (compared_all inp p) (Res_Level res)).
Proof.
  split_and!; [apply Evaluate_agreed|apply Evaluate_checks| |apply Evaluate_level..].
  unfold Evaluate. destruct (runChecks inp p) as [[c a] r]. by case_bool_decide.
Qed.

(** A policy without the advertisement check grants [AllocationVerified] to a
    device the node agent could not observe, although the comment on
    [ReportErrors] says that this axis then holds the level at [Observed]. *)
Definition unobserved_inputs : Inputs := mkInputs
  (mkExpectation "balanced" 2 "2x1g.10gb" ∅ "nvidia.com/gpu") ∅ ∅
  {["0000:01:00.0" := ""]} {["0000:01:00.0" := "no permission"]}
  (Some true) 0 "" ∅ true true "exit=0".
Definition report_and_probe : EffectivePolicy := mkPolicy
  {[EvidenceCheckNodeDeviceReport := true; EvidenceCheckAllocationProbe := true]}
  defaultTTL [] defaultDriftGracePeriod.
Lemma unobserved_device_not_held_at_Observed :
  Res_Level (Evaluate unobserved_inputs report_and_probe) = EvidenceLevelAllocationVerified ∧
  (evalNodeDeviceReport unobserved_inputs (mkRecorder [] [])).1 = false.
Proof. split; vm_compute; reflexivity. Qed.
