(* ===== verification/VerificationDrift.v ===== *)
(** * internal/verification: advertisement drift and version drift

    Models [drift.go] and [version_drift.go]: pure judgements on what the
    caller collected, which only detect and never act. *)

From S2P Require Import Prelude GoStrings GoTime ApiTypes.

(** ** drift.go *)

Inductive DriftVerdict := DriftNone | DriftSuppressed | DriftSuspected | DriftConfirmed.
#[global] Instance DriftVerdict_eq_dec : EqDecision DriftVerdict.
Proof. solve_decision. Defined.

Record DriftInput := mkDriftInput {
  Dr_Expected : gmap string Z;
  Dr_Actual : gmap string Z;
  Dr_RolloutInProgress : bool;
  Dr_NodeReady : bool;
  Dr_ApplyInFlight : bool;
  Dr_Terminating : bool;
  Dr_EvidenceFresh : bool;
  Dr_FirstSuspectedAt : option Z;
  Dr_AlreadyConfirmed : bool;
  Dr_Now : Z;
  Dr_Grace : Z;
}.

Definition suppressionReason (inp : DriftInput) : string :=
  if Dr_RolloutInProgress inp then "device plugin rollout in progress"
  else if negb (Dr_NodeReady inp) then "node is not Ready"
  else if Dr_ApplyInFlight inp then "an apply is in flight on this node"
  else if Dr_Terminating inp then "the policy or node is terminating"
  else "".

Definition shortfall_of (expected actual : gmap string Z) (k : string) : list string :=
  let want := mget 0 expected k in
  let got := mget 0 actual k in
  if want <=? 0 then []
  else if got <? want then
    [k +:+ "=" +:+ sprint_Z got +:+ " (expected " +:+ sprint_Z want +:+ ")"]
  else [].
Definition shortfalls (expected actual : gmap string Z) : list string :=
  sort_strings (elements (dom expected)) ≫= shortfall_of expected actual.

Definition EvaluateDrift (inp : DriftInput) : DriftVerdict * string :=
  if negb (Dr_EvidenceFresh inp) || bool_decide (Dr_Expected inp = ∅) then (DriftNone, "")
  else if negb (bool_decide (suppressionReason inp = "")) then
    (DriftSuppressed, suppressionReason inp)
  else
    let missing := shortfalls (Dr_Expected inp) (Dr_Actual inp) in
    if bool_decide (missing = []) then (DriftNone, "")
    else
      let detail := join ", " missing in
      let below := "advertisement below verified baseline: " +:+ detail in
      if Dr_AlreadyConfirmed inp then (DriftConfirmed, below)
      else match Dr_FirstSuspectedAt inp with
      | None => (DriftSuspected, below)
      | Some first =>
          let elapsed := time_sub (Dr_Now inp) first in
          if Dr_Grace inp <=? elapsed then
            (DriftConfirmed, "advertisement below verified baseline for " +:+
              duration_string (duration_round elapsed second) +:+ ": " +:+ detail)
          else (DriftSuspected, below)
      end.

(** ** version_drift.go *)

Inductive VersionDriftVerdict :=
| VersionDriftNone | VersionDriftSuppressed | VersionDriftUnknown
| VersionDriftPending | VersionDriftConfirmed.
#[global] Instance VersionDriftVerdict_eq_dec : EqDecision VersionDriftVerdict.
Proof. solve_decision. Defined.

Record VersionDriftInput := mkVersionDriftInput {
  Vd_State : string;
  Vd_DeclaredVersion : string;
  Vd_ObservedVersion : string;
  Vd_ObservedAt : Z;
  Vd_Since : Z;
  Vd_Grace : Z;
}.

Definition EvaluateVersionDrift (inp : VersionDriftInput) : VersionDriftVerdict * string :=
  if bool_decide (Vd_ObservedVersion inp = "") then
    (VersionDriftUnknown, "실측 버전이 없다 — 확인하지 못한 것을 어긋남으로 읽지 않는다")
  else if negb (VersionObservationAllowed (Vd_State inp)) then
    (VersionDriftSuppressed, "상태가 " +:+ quote (Vd_State inp) +:+ " 라 판정하지 않는다")
  else if bool_decide (Vd_DeclaredVersion inp = Vd_ObservedVersion inp) then (VersionDriftNone, "")
  else if is_zero_time (Vd_Since inp) ||
          (time_sub (Vd_ObservedAt inp) (Vd_Since inp) <? Vd_Grace inp) then
    (VersionDriftPending,
      "선언 " +:+ Vd_DeclaredVersion inp +:+ " ↔ 실측 " +:+ Vd_ObservedVersion inp +:+
      " 가 어긋나나 유예 " +:+ duration_string (Vd_Grace inp) +:+ " 를 아직 넘지 않았다")
  else
    (VersionDriftConfirmed,
      "선언 " +:+ Vd_DeclaredVersion inp +:+ " ↔ 실측 " +:+ Vd_ObservedVersion inp +:+ " 가 " +:+
      duration_string (Vd_Grace inp) +:+
      " 이상 어긋난 채 유지된다 — 호스트가 operator 밖에서 바뀌었을 수 있다. 감지 전용이므로 자동으로 되돌리지 않는다").

(** ** Properties *)

(** Some resource the baseline promises is advertised below it. *)
Definition below_baseline (inp : DriftInput) : Prop :=
  ∃ k want, Dr_Expected inp !! k = Some want ∧ 0 < want ∧ mget 0 (Dr_Actual inp) k < want.
(** Nothing on the node explains an advertisement gap. *)
Definition undisturbed (inp : DriftInput) : Prop :=
  Dr_RolloutInProgress inp = false ∧ Dr_NodeReady inp = true ∧
  Dr_ApplyInFlight inp = false ∧ Dr_Terminating inp = false.
(** A previous pass confirmed it, or it was first seen at least a grace ago. *)
Definition settled (inp : DriftInput) : Prop :=
  Dr_AlreadyConfirmed inp = true ∨
  ∃ first, Dr_FirstSuspectedAt inp = Some first ∧ Dr_Grace inp <= time_sub (Dr_Now inp) first.

Lemma shortfall_of_spec expected actual k x :
  x ∈ shortfall_of expected actual k → 0 < mget 0 expected k ∧ mget 0 actual k < mget 0 expected k.
Proof.
  unfold shortfall_of. destruct (_ <=? 0) eqn:E1; bool_prop; [set_solver|].
  destruct (_ <? _) eqn:E2; bool_prop; [done|set_solver].
Qed.

Lemma shortfalls_spec inp :
  shortfalls (Dr_Expected inp) (Dr_Actual inp) ≠ [] ↔ below_baseline inp.
Proof.
  unfold shortfalls, below_baseline. split.
  - destruct (_ ≫= _) as [|x l] eqn:E; [done|]. intros _.
    assert (Hx : x ∈ x :: l) by left. rewrite <-E in Hx.
    apply list_elem_of_bind in Hx as (k & Hx & Hk).
    rewrite elem_of_sort_strings, elem_of_elements, elem_of_dom in Hk. destruct Hk as [want Hk].
    apply shortfall_of_spec in Hx. exists k, want. unfold mget at 1 3 in Hx. by rewrite Hk in Hx.
  - intros (k & want & Hk & Hpos & Hlt) H.
    assert (Hin : k ∈ sort_strings (elements (dom (Dr_Expected inp)))).
    { rewrite elem_of_sort_strings, elem_of_elements, elem_of_dom. by exists want. }
    apply list_elem_of_split in Hin as (l1 & l2 & E). rewrite E, bind_app, bind_cons in H.
    apply app_nil in H as [_ [H _]%app_nil]. unfold shortfall_of in H.
    assert (Hw : mget 0 (Dr_Expected inp) k = want) by (unfold mget; by rewrite Hk).
    rewrite Hw in H. rewrite (proj2 (Z.leb_gt want 0)), (proj2 (Z.ltb_lt _ _) Hlt) in H by lia. done.
Qed.

Lemma suppressionReason_spec inp : suppressionReason inp = "" ↔ undisturbed inp.
Proof.
  unfold suppressionReason, undisturbed.
  destruct (Dr_RolloutInProgress inp), (Dr_NodeReady inp), (Dr_ApplyInFlight inp), (Dr_Terminating inp);
    simpl; naive_solver.
Qed.

(** The drift verdict: a collapse is confirmed exactly when there is fresh
    evidence to compare with, nothing on the node explains a gap, a promised
    resource is short, and this has lasted the grace period (or was confirmed
    before); a first sight is only ever suspected, whatever the grace. *)
Theorem EvaluateDrift_correct inp :
  let v := (EvaluateDrift inp).1 in
  let judged := Dr_EvidenceFresh inp = true ∧ Dr_Expected inp ≠ ∅ in
  (v = DriftConfirmed ↔ judged ∧ undisturbed inp ∧ below_baseline inp ∧ settled inp) ∧
  (v = DriftSuspected ↔ judged ∧ undisturbed inp ∧ below_baseline inp ∧ ¬ settled inp) ∧
  (v = DriftSuppressed ↔ judged ∧ ¬ undisturbed inp) ∧
  (v = DriftNone ↔ ¬ judged ∨ (undisturbed inp ∧ ¬ below_baseline inp)).
Proof.
  unfold EvaluateDrift. simpl.
  destruct (Dr_EvidenceFresh inp) eqn:Ef; simpl; [|naive_solver].
  case_bool_decide as Ee; [simpl; naive_solver|].
  rewrite <-suppressionReason_spec. case_bool_decide as Es; simpl; [|naive_solver].
  pose proof (shortfalls_spec inp) as Hs.
  case_bool_decide as Em; simpl; [rewrite <-Hs; naive_solver|]. apply Hs in Em. clear Hs.
  unfold settled. destruct (Dr_AlreadyConfirmed inp); simpl; [naive_solver|].
  destruct (Dr_FirstSuspectedAt inp) as [first|]; simpl; [|naive_solver].
  destruct (_ <=? _) eqn:Eg; bool_prop; simpl; naive_solver lia.
Qed.

(** A version drift is confirmed exactly when a version was observed outside an
    upgrade cycle, it differs from the declared one, and the mismatch has been
    known for the whole grace period; without an observation the answer is
    unknown, never drift. *)
Theorem EvaluateVersionDrift_correct inp
    (Hgrace : min_int64 < Vd_Grace inp <= max_int64) :
  let v := (EvaluateVersionDrift inp).1 in
  let judged := Vd_ObservedVersion inp ≠ "" ∧
    Vd_State inp ∈ [UpgradeStateIdle; UpgradeStateUnverifiedVersion; UpgradeStateHostAhead] in
  let known_since_grace :=
    Vd_Since inp ≠ zero_time ∧ Vd_Since inp + Vd_Grace inp <= Vd_ObservedAt inp in
  (v = VersionDriftConfirmed ↔
     judged ∧ Vd_DeclaredVersion inp ≠ Vd_ObservedVersion inp ∧ known_since_grace) ∧
  (v = VersionDriftPending ↔
     judged ∧ Vd_DeclaredVersion inp ≠ Vd_ObservedVersion inp ∧ ¬ known_since_grace) ∧
  (v = VersionDriftNone ↔ judged ∧ Vd_DeclaredVersion inp = Vd_ObservedVersion inp) ∧
  (v = VersionDriftUnknown ↔ Vd_ObservedVersion inp = "").
Proof.
  simpl. unfold EvaluateVersionDrift. rewrite <-contains_string_true.
  fold (VersionObservationAllowed (Vd_State inp)).
  case_bool_decide; simpl; [naive_solver|].
  destruct (VersionObservationAllowed _); simpl; [|naive_solver].
  case_bool_decide; simpl; [naive_solver|].
  destruct (_ || _) eqn:E; simpl.
  - unfold is_zero_time in E. apply orb_true_iff in E as [E|E]; bool_prop.
    + naive_solver.
    + assert (¬ Vd_Grace inp <= time_sub (Vd_ObservedAt inp) (Vd_Since inp)) as Hn by lia.
      rewrite time_sub_ge in Hn by done. naive_solver lia.
  - unfold is_zero_time in E. bool_prop.
    assert (Vd_Grace inp <= time_sub (Vd_ObservedAt inp) (Vd_Since inp)) as Hn by lia.
    rewrite time_sub_ge in Hn by done. naive_solver lia.
Qed.

Definition host_upgraded_by_hand : VersionDriftInput :=
  mkVersionDriftInput UpgradeStateIdle "535.1" "550.2" (2 * hour) hour (30 * minute).
Lemma EvaluateVersionDrift_correct_witness :
  (min_int64 < Vd_Grace host_upgraded_by_hand <= max_int64) ∧
  Vd_DeclaredVersion host_upgraded_by_hand ≠ Vd_ObservedVersion host_upgraded_by_hand.
Proof.
  assert (H : min_int64 < Vd_Grace host_upgraded_by_hand <= max_int64) by (split; reflexivity || discriminate).
  split; [exact H|].
  apply (proj1 (proj1 (EvaluateVersionDrift_correct host_upgraded_by_hand H)) eq_refl).
Defined.
