(* ===== verification/Verifier.v ===== *)
(** * internal/verification/verifier.go: the verifier

    [Verify] reads the node, its device report and the policies, runs or reuses
    an allocation probe, evaluates, and records the result as the node's
    [AcceleratorEvidence].  The Kubernetes client, the metrics counter and the
    prober are interfaces over an abstract world [W]. *)

From S2P Require Import Prelude GoStrings GoTime ApiTypes VerificationPolicy VerificationAgreement.

(** ** The client, as the verifier sees it

    [evidence_create] and [evidence_status_update] answer with the object as
    the server stored it: the client writes it back into the caller's
    variable. *)

Class VerifyAPI (W : Type) := {
  node_get : string → M W Node;
  report_get : string → M W NodeDeviceReport;
  policy_list : M W (list AcceleratorVerificationPolicy);
  evidence_get : string → M W AcceleratorEvidence;
  evidence_create : AcceleratorEvidence → M W AcceleratorEvidence;
  evidence_status_update : AcceleratorEvidence → M W AcceleratorEvidence;
  evidence_records_inc : string → string → M W ();
}.

(** Documented behaviour of the API server: reads do not write; a successful
    create stores the spec and drops the status (it is a subresource); a
    successful status update stores the status. *)
Class VerifyAPILaws (W : Type) `{VerifyAPI W} := {
  nodes_of : W → gmap string Node;
  reports_of : W → gmap string NodeDeviceReport;
  policies_of : W → list AcceleratorVerificationPolicy;
  evidence_of : W → gmap string AcceleratorEvidence;
  same_cluster : W → W → Prop :=
    λ w w', nodes_of w' = nodes_of w ∧ reports_of w' = reports_of w ∧
            policies_of w' = policies_of w ∧ evidence_of w' = evidence_of w;
  node_get_law n w r w' : node_get n w = (r, w') → same_cluster w w' ∧
    ∀ x, r = inl x → nodes_of w !! n = Some x;
  report_get_law n w r w' : report_get n w = (r, w') → same_cluster w w' ∧
    match r with
    | inl x => reports_of w !! n = Some x
    | inr e => err_kind e = KNotFound → reports_of w !! n = None
    end;
  policy_list_law w r w' : policy_list w = (r, w') → same_cluster w w' ∧
    ∀ l, r = inl l → l = policies_of w;
  evidence_get_law n w r w' : evidence_get n w = (r, w') → same_cluster w w' ∧
    match r with
    | inl x => evidence_of w !! n = Some x ∧ Ev_Name x = n
    | inr e => err_kind e = KNotFound → evidence_of w !! n = None
    end;
  evidence_create_law ev w ev' w' : evidence_create ev w = (inl ev', w') →
    Ev_Name ev' = Ev_Name ev ∧ Ev_Spec ev' = Ev_Spec ev ∧ Ev_Status ev' = zero_evidence_status ∧
    evidence_of w' = <[Ev_Name ev := ev']> (evidence_of w);
  evidence_status_update_law ev w ev' w' : evidence_status_update ev w = (inl ev', w') →
    Ev_Name ev' = Ev_Name ev ∧ Ev_Status ev' = Ev_Status ev ∧
    evidence_of w' = <[Ev_Name ev := ev']> (evidence_of w);
  evidence_records_inc_law vendor level w r w' : evidence_records_inc vendor level w = (r, w') →
    r = inl () ∧ same_cluster w w';
}.

(** ** Requests and probes *)

Record ProbeResult := mkProbeResult {
  Pr_Allocated : bool; Pr_ExitCode : option Z; Pr_Output : string;
}.
Definition Message (r : ProbeResult) : string :=
  join " "
    ((match Pr_ExitCode r with Some c => ["exit=" +:+ sprint_Z c] | None => [] end) ++
     (if bool_decide (Pr_Output r = "") then [] else [Pr_Output r])).

Record Request := mkRequest {
  Rq_NodeName : string;
  Rq_Vendor : string;
  Rq_SourcePolicy : string;
  Rq_Generation : Z;
  Rq_Expectation : Expectation;
  Rq_ObservedGeometry : gmap string string;
  Rq_ObservationErrors : gmap string string;
  Rq_TargetDevices : list string;
  Rq_Product : string;
  Rq_ExpectedDevices : Z;
  Rq_DescriptorManaged : bool;
}.

(** ** What the request compares against *)

(** The report's device belongs to the vendor and to the targets of the request. *)
Definition wanted (vendor : string) (targets : list string) (d : DeviceEntry) : bool :=
  (bool_decide (vendor = "") || equal_fold (De_Vendor d) vendor) &&
  (bool_decide (targets = []) || contains_string targets (De_PCIeAddress d)).

Definition reportGeometry (ndr : option NodeDeviceReport) (vendor : string) (targets : list string)
    : gmap string string :=
  match ndr with
  | None => ∅
  | Some r =>
      foldl (λ out '(i, d),
        if wanted vendor targets d then
          let key := if bool_decide (De_PCIeAddress d = "")
                     then De_Vendor d +:+ "/" +:+ De_Model d +:+ "#" +:+ sprint_Z (Z.of_nat i)
                     else De_PCIeAddress d in
          <[key := De_MigCurrentGeometry d]> out
        else out) ∅ (imap pair (Ndr_Devices r))
  end.

Definition reportGeometryByProduct (ndr : option NodeDeviceReport) (product : string)
    : gmap string string :=
  match ndr with
  | None => ∅
  | Some r =>
      foldl (λ out '(i, d),
        if equal_fold (De_Model d) product then
          let key := if bool_decide (De_PCIeAddress d = "")
                     then De_Model d +:+ "#" +:+ sprint_Z (Z.of_nat i)
                     else "PCI-" +:+ De_PCIeAddress d in
          <[key := De_MigCurrentGeometry d]> out
        else out) ∅ (imap pair (Ndr_Devices r))
  end.

Definition reportErrors (ndr : option NodeDeviceReport) (vendor : string) (targets : list string)
    : gmap string string :=
  match ndr with
  | None => ∅
  | Some r =>
      foldl (λ out d,
        if wanted vendor targets d then
          if bool_decide (De_MigObservationError d ≠ "") && bool_decide (De_PCIeAddress d ≠ "")
          then <[De_PCIeAddress d := De_MigObservationError d]> out else out
        else out) ∅ (Ndr_Devices r)
  end.

Definition allocatableOf (node : Node) : gmap string Z :=
  (λ v, wrap32 (if max_int32 <? v then max_int32 else v)) <$> Node_Allocatable node.

(** The inputs of [Verify] before the probe. *)
Definition requestInputs (req : Request) (node : Node) (ndr : option NodeDeviceReport) : Inputs :=
  let byProduct := bool_decide (Rq_Product req ≠ "") in
  let validation := Vs_Passed <$> (ndr ≫= Ndr_Validation) in
  mkInputs (Rq_Expectation req) (Rq_ObservedGeometry req) (Rq_ObservationErrors req)
    (if byProduct then reportGeometryByProduct ndr (Rq_Product req)
     else reportGeometry ndr (Rq_Vendor req) (Rq_TargetDevices req))
    (reportErrors ndr (Rq_Vendor req) (Rq_TargetDevices req))
    (if Rq_DescriptorManaged req then None else validation)
    (if byProduct then Rq_ExpectedDevices req else 0)
    (match validation with
     | Some _ => if Rq_DescriptorManaged req
                 then "descriptor-managed backend, vendor device-plugin validation is not authoritative"
                 else ""
     | None => ""
     end)
    (allocatableOf node) false false "".

(** What the probe step found: allocated or not, the message, and when the
    probe really ran. *)
Record probed := mkProbed { Po_Allocated : bool; Po_Message : string; Po_At : Z }.
Definition with_probe (inp : Inputs) (o : option probed) : Inputs :=
  match o with
  | None => inp
  | Some o => mkInputs (In_Expectation inp) (In_ObservedGeometry inp) (In_ObservationErrors inp)
      (In_ReportGeometry inp) (In_ReportErrors inp) (In_ReportValidationPassed inp)
      (In_ExpectedDevices inp) (In_ReportValidationSkipped inp) (In_Allocatable inp)
      true (Po_Allocated o) (Po_Message o)
  end.

Definition probeReuseMarker : string := "probe result reused, no pod scheduled this pass".
Definition reuseMessage (orig : string) : string :=
  if has_prefix orig probeReuseMarker then orig
  else if bool_decide (orig = "") then probeReuseMarker
  else probeReuseMarker +:+ ": " +:+ orig.

(** The first check of the probe on the requested resource decides. *)
Definition probe_check_of (resource : string) (c : EvidenceCheck) : bool :=
  bool_decide (Ec_Name c = EvidenceCheckAllocationProbe) && bool_decide (Ec_Target c = resource).
Definition reusableProbe (ev : option AcceleratorEvidence) (req : Request) (now ttl : Z)
    : option (string * Z) :=
  match ev with
  | None => None
  | Some ev =>
      if bool_decide (Evs_Vendor (Ev_Spec ev) ≠ Rq_Vendor req) then None
      else match find_first (probe_check_of (Ex_ProbeResource (Rq_Expectation req)))
                            (Es_Checks (Ev_Status ev)) with
      | None => None
      | Some c =>
          match Ec_ProbedAt c with
          | Some at_ =>
              if negb (Ec_Passed c) || negb (time_before now (time_add at_ ttl)) then None
              else Some (reuseMessage (Ec_Message c), at_)
          | None => None
          end
      end
  end.

(** The probe's time goes onto the probe checks. *)
Definition stamp (o : option probed) (c : EvidenceCheck) : EvidenceCheck :=
  match o with
  | Some o =>
      if bool_decide (Ec_Name c = EvidenceCheckAllocationProbe)
      then mkCheck (Ec_Name c) (Ec_Target c) (Ec_Passed c) (Ec_Message c) (Some (Po_At o)) else c
  | None => c
  end.

Definition without_times (s : AcceleratorEvidenceStatus) : AcceleratorEvidenceStatus :=
  mkEvidenceStatus (Es_Level s) (Es_Fingerprint s) (Es_Checks s) (Es_AdvertisedResources s)
    zero_time None (Es_SourcePolicy s) (Es_Reason s).
Definition statusEquivalent (a b : AcceleratorEvidenceStatus) : bool :=
  bool_decide (without_times a = without_times b).

(** The status a verification would like to store. *)
Definition nextStatus (req : Request) (p : EffectivePolicy) (res : Result) (checks : list EvidenceCheck)
    (node : Node) (ndr : option NodeDeviceReport) (now : Z) : AcceleratorEvidenceStatus :=
  mkEvidenceStatus (Res_Level res)
    (Compute (Some node) ndr (Rq_Vendor req) (Rq_Generation req)) checks
    (if Res_Agreed res then Ex_Allocatable (Rq_Expectation req) else ∅)
    now (Some (time_add now (Pol_TTL p))) (Rq_SourcePolicy req) (Res_Reason res).

(** ** Verify *)

Record Verifier (W : Type) := mkVerifier {
  Vf_Prober : option (string → string → string → M W ProbeResult);
  Vf_Now : option (W → Z * W);
}.
Arguments mkVerifier {W} _ _.
Arguments Vf_Prober {W} _.
Arguments Vf_Now {W} _.

Section Verify.
Context {W : Type} `{VerifyAPI W} `{Clock W} (v : Verifier W).

Definition now : M W Z := clock_of (Vf_Now v).

(** [fmt.Errorf("<what> %q: %w", name, err)] for every error but a NotFound,
    which is an absence. *)
Definition get_optional {A} (wrap : GoErr → GoErr) (get : M W A) : M W (option A) :=
  r ← try get;
  match r with
  | inl a => mret (Some a)
  | inr e => if is_not_found e then mret None else throw (wrap e)
  end.
(** [if err != nil { return nil, fmt.Errorf(...) }] *)
Definition or_wrap {A} (wrap : GoErr → GoErr) (m : M W A) : M W A :=
  r ← try m;
  match r with inl a => mret a | inr e => throw (wrap e) end.

Definition Load (nodeName : string) : M W (option AcceleratorEvidence) :=
  get_optional id (evidence_get nodeName).
Definition loadReport (nodeName : string) : M W (option NodeDeviceReport) :=
  get_optional (errorf_w ("verify: get NodeDeviceReport " +:+ quote nodeName)) (report_get nodeName).
Definition resolvePolicy (labels : gmap string string) : M W EffectivePolicy :=
  l ← or_wrap (errorf_w "verify: list AcceleratorVerificationPolicy") policy_list;
  mret (Resolve l labels).

(** The probe step: skipped, reused, or run. *)
Definition probeStep (req : Request) (p : EffectivePolicy) : M W (option probed) :=
  let resource := Ex_ProbeResource (Rq_Expectation req) in
  match Vf_Prober v with
  | Some probe =>
      if Enabled p EvidenceCheckAllocationProbe && negb (bool_decide (resource = "")) then
        existing ← or_wrap (errorf_w ("verify: load evidence " +:+ quote (Rq_NodeName req)))
                           (Load (Rq_NodeName req));
        t ← now;
        match reusableProbe existing req t (Pol_TTL p) with
        | Some (msg, prev) => mret (Some (mkProbed true msg prev))
        | None =>
            pr ← try (probe (Rq_NodeName req) resource (Rq_Vendor req));
            mret (Some match pr with
                       | inr perr => mkProbed false (err_msg perr) t
                       | inl pr => mkProbed (Pr_Allocated pr) (Message pr) t
                       end)
        end
      else mret None
  | None => mret None
  end.

Definition getOrCreate (req : Request) : M W AcceleratorEvidence :=
  r ← try (evidence_get (Rq_NodeName req));
  match r with
  | inl ev => mret ev
  | inr e =>
      if is_not_found e then
        or_wrap (errorf_w ("verify: create evidence " +:+ quote (Rq_NodeName req)))
          (evidence_create (mkEvidence (Rq_NodeName req) ""
             (mkEvidenceSpec (Rq_NodeName req) (Rq_Vendor req)) zero_evidence_status))
      else throw (errorf_w ("verify: get evidence " +:+ quote (Rq_NodeName req)) e)
  end.

(** Nothing new to say, and more than half the TTL is left. *)
Definition keepStored (stored next : AcceleratorEvidenceStatus) (now ttl : Z) : bool :=
  statusEquivalent stored next &&
  match Es_ExpiresAt stored with
  | Some x => time_before (time_add now (Z.quot ttl 2)) x
  | None => false
  end.

Definition upsert (req : Request) (p : EffectivePolicy) (res : Result) (checks : list EvidenceCheck)
    (node : Node) (ndr : option NodeDeviceReport) : M W AcceleratorEvidence :=
  ev ← getOrCreate req;
  t ← now;
  let next := nextStatus req p res checks node ndr t in
  if keepStored (Ev_Status ev) next t (Pol_TTL p) then mret ev
  else
    ev' ← or_wrap (errorf_w ("verify: update evidence status " +:+ quote (Rq_NodeName req)))
      (evidence_status_update
        (mkEvidence (Ev_Name ev) (Ev_ResourceVersion ev) (Ev_Spec ev) next));
    _ ← evidence_records_inc (Rq_Vendor req) (Res_Level res);
    mret ev'.

Definition Verify (req : Request) : M W AcceleratorEvidence :=
  node ← or_wrap (errorf_w ("verify: get node " +:+ quote (Rq_NodeName req)))
                 (node_get (Rq_NodeName req));
  ndr ← loadReport (Rq_NodeName req);
  policy ← resolvePolicy (Node_Labels node);
  o ← probeStep req policy;
  let res := Evaluate (with_probe (requestInputs req node ndr) o) policy in
  upsert req policy res (stamp o <$> Res_Checks res) node ndr.
End Verify.

(** ** Properties *)

Section Soundness.
Context {W : Type} `{VerifyAPILaws W} `{Clock W} (v : Verifier W).
Context (Hnow : ∀ w, same_cluster w (now v w).2).

(** [t] is a time the verifier read. *)
Definition clock_reading (t : Z) : Prop := ∃ w w', now v w = (inl t, w').

Lemma or_wrap_inl {A} wrap (m : M W A) w a w' : or_wrap wrap m w = (inl a, w') → m w = (inl a, w').
Proof. unfold or_wrap. munfold. destruct (m w) as [[?|?] ?]; intros; by simplify_eq. Qed.

Lemma now_inv w t w' : now v w = (inl t, w') → clock_reading t.
Proof. intros. by exists w, w'. Qed.

Lemma same_cluster_trans (w w1 w2 : W) : same_cluster w w1 → same_cluster w1 w2 → same_cluster w w2.
Proof.
  unfold same_cluster. intros (?&?&?&?) (?&?&?&?). split_and!; congruence.
Qed.

(** Where a passing probe result came from: either it was run in this pass, or
    the stored evidence of the same vendor holds a passed check of the same
    resource taken less than a TTL ago. *)
Definition backed_by_probe (w0 : W) (req : Request) (ttl : Z) (o : probed) : Prop :=
  (∃ probe w w' pr, Vf_Prober v = Some probe ∧
     probe (Rq_NodeName req) (Ex_ProbeResource (Rq_Expectation req)) (Rq_Vendor req) w = (inl pr, w') ∧
     Pr_Allocated pr = true ∧ clock_reading (Po_At o)) ∨
  (∃ old c t, evidence_of w0 !! Rq_NodeName req = Some old ∧ Evs_Vendor (Ev_Spec old) = Rq_Vendor req ∧
     c ∈ Es_Checks (Ev_Status old) ∧ Ec_Name c = EvidenceCheckAllocationProbe ∧
     Ec_Target c = Ex_ProbeResource (Rq_Expectation req) ∧ Ec_Passed c = true ∧
     Ec_ProbedAt c = Some (Po_At o) ∧ clock_reading t ∧ t < Po_At o + ttl).

Lemma reusableProbe_Some ev req t ttl msg at_ :
  reusableProbe ev req t ttl = Some (msg, at_) →
  ∃ old c, ev = Some old ∧ Evs_Vendor (Ev_Spec old) = Rq_Vendor req ∧
    c ∈ Es_Checks (Ev_Status old) ∧ Ec_Name c = EvidenceCheckAllocationProbe ∧
    Ec_Target c = Ex_ProbeResource (Rq_Expectation req) ∧ Ec_Passed c = true ∧
    Ec_ProbedAt c = Some at_ ∧ t < at_ + ttl.
Proof.
  unfold reusableProbe. destruct ev as [old|]; [|done]. case_bool_decide as Ev; [done|].
  destruct (find_first _ _) as [c|] eqn:Ec; [|done].
  apply find_first_Some in Ec as (l1 & l2 & El & Hc & _). unfold probe_check_of in Hc. bool_prop.
  destruct (Ec_ProbedAt c) as [a|] eqn:Ea; [|done].
  destruct (_ || _) eqn:E; [done|]. bool_prop. intros [= _ ->].
  unfold time_before, time_add in *. bool_prop.
  exists old, c. rewrite El. split_and!; try done. set_solver.
Qed.

Lemma probeStep_inv req p w o w' :
  probeStep v req p w = (inl (Some o), w') → Po_Allocated o = true → backed_by_probe w req (Pol_TTL p) o.
Proof.
  unfold probeStep. destruct (Vf_Prober v) as [probe|] eqn:Ep; [|done].
  destruct (_ && _); [|done]. intros (ex & w1 & E1%or_wrap_inl & E)%bind_inl_inv Ha.
  apply bind_inl_inv in E as (t & w2 & E2 & E). apply now_inv in E2.
  destruct (reusableProbe ex req t (Pol_TTL p)) as [[msg prev]|] eqn:Er.
  - right. munfold. simplify_eq. simpl.
    apply reusableProbe_Some in Er as (old & c & -> & Hv & Hc & ?).
    exists old, c, t. unfold Load, get_optional in E1. munfold.
    destruct (evidence_get _ w) as [[old'|e] w3] eqn:Eg; [|destruct (is_not_found e); by simplify_eq].
    simplify_eq. apply evidence_get_law in Eg as [_ [? _]]. naive_solver.
  - left. apply bind_inl_inv in E as (pr & w3 & E3 & E). munfold.
    destruct (probe _ _ _ w2) as [[pr'|e] w4] eqn:Epr; simplify_eq; simpl in *.
    exists probe, w2. eauto 6.
Qed.

(** The write half: what is stored in the end says the same as the evaluation,
    and stays valid for more than half the TTL. *)
Lemma upsert_inv req p res checks node ndr w ev w' :
  0 < Pol_TTL p → upsert v req p res checks node ndr w = (inl ev, w') →
  ∃ t, clock_reading t ∧
    evidence_of w' !! Rq_NodeName req = Some ev ∧
    without_times (Ev_Status ev) = without_times (nextStatus req p res checks node ndr t) ∧
    ∃ x, Es_ExpiresAt (Ev_Status ev) = Some x ∧ t + Z.quot (Pol_TTL p) 2 < x.
Proof.
  intros Httl (ev0 & w1 & E1 & E)%bind_inl_inv. apply bind_inl_inv in E as (t & w2 & E2 & E).
  assert (Hev0 : evidence_of w1 !! Rq_NodeName req = Some ev0 ∧ Ev_Name ev0 = Rq_NodeName req).
  { unfold getOrCreate in E1. munfold. destruct (evidence_get _ w) as [[ev1|e] w3] eqn:Eg.
    - simplify_eq. apply evidence_get_law in Eg as [(_ & _ & _ & ->) Hg]. done.
    - destruct (is_not_found e); [|by simplify_eq]. apply or_wrap_inl in E1.
      apply evidence_create_law in E1 as (Hn & _ & _ & ->). simpl in *. by rewrite lookup_insert_eq. }
  exists t. split; [by eapply now_inv|].
  unfold keepStored in E. destruct (_ && _) eqn:Ek.
  - munfold. simplify_eq. apply andb_true_iff in Ek as [Es Ex]. unfold statusEquivalent in Es. bool_prop.
    destruct (Es_ExpiresAt (Ev_Status ev)) as [x|]; [|done]. unfold time_before, time_add in Ex.
    bool_prop. specialize (Hnow w1). rewrite E2 in Hnow. destruct Hnow as (_ & _ & _ & Hn).
    simpl in Hn. rewrite Hn. split_and!; [tauto|done|eauto].
  - apply bind_inl_inv in E as (ev1 & w3 & E3%or_wrap_inl & E).
    apply bind_inl_inv in E as (u & w4 & E4 & E). munfold. simplify_eq.
    apply evidence_status_update_law in E3 as (_ & Hs & Hw). simpl in *.
    apply evidence_records_inc_law in E4 as (_ & _ & _ & _ & Hr).
    destruct Hev0 as [_ Hn0]. rewrite Hr, Hw, Hn0, lookup_insert_eq, Hs. split_and!; [done..|].
    exists (time_add t (Pol_TTL p)). split; [done|]. unfold time_add.
    pose proof (Z.quot_lt (Pol_TTL p) 2). lia.
Qed.
Lemma loadReport_inv n w ndr w' :
  loadReport n w = (inl ndr, w') → same_cluster w w' ∧ ndr = reports_of w !! n.
Proof.
  unfold loadReport, get_optional. munfold. destruct (report_get n w) as [[r|e] w1] eqn:E;
    apply report_get_law in E as [Hs Hr].
  - intros. by simplify_eq.
  - destruct (is_not_found e) eqn:En; intros; simplify_eq. unfold is_not_found in En. bool_prop.
    split; [done|]. symmetry. auto.
Qed.

Lemma resolvePolicy_inv labels w p w' :
  resolvePolicy labels w = (inl p, w') → same_cluster w w' ∧ p = Resolve (policies_of w) labels.
Proof.
  unfold resolvePolicy. intros (l & w1 & E1%or_wrap_inl & E)%bind_inl_inv.
  apply policy_list_law in E1 as [Hs Hl]. munfold. simplify_eq. by rewrite (Hl l).
Qed.

(** The probe check of a level that needed one carries the probe's time. *)
Lemma probe_level_probed inp p :
  Res_Level (Evaluate inp p) = EvidenceLevelAllocationVerified →
  Enabled p EvidenceCheckAllocationProbe = true ∧ all_axes_ok inp p.
Proof.
  intros Hl. destruct (Evaluate_level inp p) as [Hf Ht]. pose proof (Evaluate_agreed inp p) as Ha.
  destruct (Res_Agreed (Evaluate inp p)).
  - destruct (Ht eq_refl) as (Hav & _). tauto.
  - rewrite Hf in Hl by done. done.
Qed.
End Soundness.

(** C37. A successful [Verify] stores, as the node's evidence, exactly what the
    evaluation of the cluster's state says: a level is granted if and only if
    every check of the node's policy passes, the fingerprint is the present
    environment, a baseline is kept only on agreement, the evidence stays
    valid for more than half the policy's TTL, and [AllocationVerified] rests
    on an allocation that was probed in this pass or less than a TTL ago. *)
Theorem Verify_sound {W} `{VerifyAPILaws W} `{Clock W} (v : Verifier W) req w ev w'
    (Hnow : ∀ w, same_cluster w (now v w).2)
    (Hrun : Verify v req w = (inl ev, w')) :
  ∃ node o t, let name := Rq_NodeName req in
    let p := Resolve (policies_of w) (Node_Labels node) in
    let ndr := reports_of w !! name in
    let inp := with_probe (requestInputs req node ndr) o in
    let st := Ev_Status ev in
    nodes_of w !! name = Some node ∧ clock_reading v t ∧ evidence_of w' !! name = Some ev ∧
    (Es_Level st ≠ "" ↔ all_axes_ok inp p) ∧
    Es_Fingerprint st = Compute (Some node) ndr (Rq_Vendor req) (Rq_Generation req) ∧
    (Es_AdvertisedResources st = ∅ ∨
     all_axes_ok inp p ∧ Es_AdvertisedResources st = Ex_Allocatable (Rq_Expectation req)) ∧
    (∃ x, Es_ExpiresAt st = Some x ∧ t + Z.quot (Pol_TTL p) 2 < x) ∧
    (Es_Level st = EvidenceLevelAllocationVerified →
       ∃ po, o = Some po ∧ backed_by_probe v w req (Pol_TTL p) po).
Proof.
  unfold Verify in Hrun. apply bind_inl_inv in Hrun as (node & w1 & E1%or_wrap_inl & E).
  apply node_get_law in E1 as [Hs1 Hnode]. specialize (Hnode _ eq_refl).
  apply bind_inl_inv in E as (ndr & w2 & [Hs2 Hndr]%loadReport_inv & E).
  apply bind_inl_inv in E as (p & w3 & [Hs3 Hp]%resolvePolicy_inv & E).
  apply bind_inl_inv in E as (o & w4 & Eo & E).
  pose proof (same_cluster_trans _ _ _ Hs1 Hs2) as Hs12.
  pose proof (same_cluster_trans _ _ _ Hs12 Hs3) as Hs13.
  destruct Hs1 as (_ & Hr1 & _). destruct Hs12 as (_ & _ & Hp12 & _).
  rewrite Hp12 in Hp. rewrite Hr1 in Hndr.
  assert (policy_ok p) as (Httl & _) by (subst p; apply Resolve_ok).
  apply upsert_inv in E as (t & Ht & Hev & Hst & Hx); [|done..].
  exists node, o, t. cbv zeta. rewrite <-Hp, <-Hndr.
  unfold without_times, nextStatus in Hst. injection Hst as Hl Hfp Hc Had Hsp Hre.
  set (inp := with_probe (requestInputs req node ndr) o) in *.
  pose proof (Evaluate_agreed inp p) as Hag. destruct (Evaluate_level inp p) as [Hlf Hlt].
  rewrite Hl, Hfp, Had. split_and!; try done.
  - rewrite <-Hag. destruct (Res_Agreed (Evaluate inp p)); [|naive_solver].
    split; [done|]. intros _. by eapply earned_level_nonempty, Hlt.
  - destruct (Res_Agreed (Evaluate inp p)); [right|by left]. split; [by apply Hag|done].
  - intros [He (_ & _ & _ & Hpr)]%probe_level_probed. destruct (Hpr He) as [Hat Hal].
    destruct o as [po|]; [|done]. exists po. split; [done|].
    destruct Hs13 as (_ & _ & _ & Hev13).
    destruct (probeStep_inv v Hnow req p w3 po w4 Eo Hal) as [?|Hb]; [by left|right].
    by rewrite Hev13 in Hb.
Qed.

(** ** A cluster in memory, to run the verifier *)

Record MemCluster := mkMemCluster {
  Mc_Nodes : gmap string Node;
  Mc_Reports : gmap string NodeDeviceReport;
  Mc_Policies : list AcceleratorVerificationPolicy;
  Mc_Evidence : gmap string AcceleratorEvidence;
  Mc_Clock : Z;
}.
Definition lookup_or_not_found {A} (m : gmap string A) (n : string) : A + GoErr :=
  match m !! n with Some a => inl a | None => inr (mkErr KNotFound "not found") end.
Definition put_evidence (ev : AcceleratorEvidence) (w : MemCluster) : MemCluster :=
  mkMemCluster (Mc_Nodes w) (Mc_Reports w) (Mc_Policies w)
    (<[Ev_Name ev := ev]> (Mc_Evidence w)) (Mc_Clock w).

(** An object is stored under its own name. *)
Definition named (n : string) (ev : AcceleratorEvidence) : AcceleratorEvidence :=
  mkEvidence n (Ev_ResourceVersion ev) (Ev_Spec ev) (Ev_Status ev).

#[export] Instance mem_clock : Clock MemCluster :=
  {| time_now w := (Mc_Clock w,
       mkMemCluster (Mc_Nodes w) (Mc_Reports w) (Mc_Policies w) (Mc_Evidence w) (Mc_Clock w + second)) |}.
#[export] Instance mem_verify_api : VerifyAPI MemCluster := {|
  node_get n w := (lookup_or_not_found (Mc_Nodes w) n, w);
  report_get n w := (lookup_or_not_found (Mc_Reports w) n, w);
  policy_list w := (inl (Mc_Policies w), w);
  evidence_get n w := (lookup_or_not_found (map_imap (λ n ev, Some (named n ev)) (Mc_Evidence w)) n, w);
  evidence_create ev w :=
    let ev' := mkEvidence (Ev_Name ev) "1" (Ev_Spec ev) zero_evidence_status in
    match Mc_Evidence w !! Ev_Name ev with
    | Some _ => (inr (mkErr KAlreadyExists "already exists"), w)
    | None => (inl ev', put_evidence ev' w)
    end;
  evidence_status_update ev w := (inl ev, put_evidence ev w);
  evidence_records_inc _ _ w := (inl (), w);
|}.

Lemma lookup_or_not_found_inl {A} (m : gmap string A) n a : lookup_or_not_found m n = inl a → m !! n = Some a.
Proof. unfold lookup_or_not_found. destruct (m !! n); naive_solver. Qed.
Lemma lookup_or_not_found_inr {A} (m : gmap string A) n e : lookup_or_not_found m n = inr e → m !! n = None.
Proof. unfold lookup_or_not_found. destruct (m !! n); naive_solver. Qed.

#[export] Instance mem_verify_laws : VerifyAPILaws MemCluster.
Proof.
  refine {| nodes_of := Mc_Nodes; reports_of := Mc_Reports; policies_of := Mc_Policies;
            evidence_of w := map_imap (λ n ev, Some (named n ev)) (Mc_Evidence w) |}.
  - intros n w r w' [= <- <-]. split; [done|]. intros x. apply lookup_or_not_found_inl.
  - intros n w r w' [= <- <-]. split; [done|]. destruct (lookup_or_not_found _ _) eqn:E.
    + by apply lookup_or_not_found_inl.
    + intros _. by eapply lookup_or_not_found_inr.
  - intros w r w' [= <- <-]. split; [done|]. naive_solver.
  - intros n w r w' E. cbn in E. injection E as <- <-. split; [done|].
    destruct (lookup_or_not_found _ _) eqn:E.
    + apply lookup_or_not_found_inl in E. split; [done|].
      rewrite map_lookup_imap in E. by destruct (Mc_Evidence w !! n); simplify_eq/=.
    + intros _. by eapply lookup_or_not_found_inr.
  - intros ev w ev' w' E. cbn in E. destruct (Mc_Evidence w !! Ev_Name ev); simplify_eq.
    split_and!; try done. simpl. by rewrite (map_imap_insert_Some _ _ _ _ (named (Ev_Name ev) (mkEvidence (Ev_Name ev) "1" (Ev_Spec ev) zero_evidence_status))).
  - intros ev w ev' w' E. cbn in E. simplify_eq. split_and!; try done. simpl.
    rewrite (map_imap_insert_Some _ _ _ _ (named (Ev_Name ev') ev')) by done. by destruct ev'.
  - intros vendor level w r w' E. cbn in E. by simplify_eq.
Defined.

(** A node with one partitioned device, verified with a probe that allocates. *)
Definition demo_probe_policy : AcceleratorVerificationPolicy := mkVerificationPolicy "probe"
  (mkVerificationPolicySpec ∅ [EvidenceCheckDeviceObservation; EvidenceCheckNodeDeviceReport;
     EvidenceCheckAdvertisement; EvidenceCheckAllocationProbe] None [] None).
Definition demo_device : DeviceEntry :=
  mkDeviceEntry "nvidia" "A30" 1 true "550.2" "" false 24576 "0000:01:00.0" "Enabled" "4x1g.6gb" "" "" "" "".
Definition demo_cluster : MemCluster := mkMemCluster
  {["w1" := mkNode "w1" ∅ ∅ false {["nvidia.com/mig-1g.6gb" := 4]} [] "boot-1" "6.8" None]}
  {["w1" := mkNDR "w1" [demo_device] (Some (mkValidationStatus true [])) None]}
  [demo_probe_policy] ∅ hour.
Definition demo_request : Request := mkRequest "w1" "nvidia" "acpp-a" 3
  (mkExpectation "quarter" 4 "4x1g.6gb" {["nvidia.com/mig-1g.6gb" := 4]} "nvidia.com/mig-1g.6gb")
  {["0000:01:00.0" := "4x1g.6gb"]} ∅ [] "" 0 false.
Definition demo_verifier : Verifier MemCluster :=
  mkVerifier (Some (λ _ _ _ w, (inl (mkProbeResult true (Some 0) ""), w))) None.

Lemma Verify_sound_witness :
  let (r, w') := Verify demo_verifier demo_request demo_cluster in
  ∃ ev, r = inl ev ∧ Es_Level (Ev_Status ev) = EvidenceLevelAllocationVerified ∧
    evidence_of w' !! "w1" = Some ev.
Proof.
  destruct (Verify demo_verifier demo_request demo_cluster) as [r w'] eqn:E.
  destruct r as [ev|e]; [|exfalso; vm_compute in E; discriminate E].
  exists ev. split; [reflexivity|]. split.
  - vm_compute in E. by injection E as <- _.
  - destruct (Verify_sound demo_verifier demo_request demo_cluster ev w')
      as (node & o & t & _ & _ & Hev & _); [intros w; repeat split|exact E|exact Hev].
Defined.
