(* ===== verification/OperationController.v ===== *)
(** * internal/controller/operation_controller.go: the transaction driver

    One [Reconcile] is one pass over one [AcceleratorOperation]: renew the node
    lease, take one step of the phase machine, write the status back through
    the epoch fence.  The passes talk to the world through the API server, the
    clock and the registered participants; the operation itself is a value
    threaded through the step (the code's [op] pointer), which is dropped when
    the step fails. *)

From S2P Require Import Prelude GoStrings GoTime ApiTypes OperationModel OperationStateMachine OperationJournal OperationLease VerificationPolicy VerificationAgreement Verifier.

Definition maxRollbackAttempts : Z := 3.
Definition maxApplyDuration : Z := 20 * minute.
Definition maxVerifyGrace : Z := 3 * minute.
Definition maxObserveFailures : Z := 5.
Definition opRequeue : Z := 10 * second.

(** [ctrl.Result] *)
Record CtrlResult := mkRes { Requeue : bool; RequeueAfter : Z }.
Definition zero_res : CtrlResult := mkRes false 0.
Definition requeue_after (d : Z) : CtrlResult := mkRes false d.

Definition requeueOr (d : Z) : Z := if d <=? 0 then opRequeue else d.

Definition verdictName (v : Admission) : string :=
  match v with AdmitAfter => "admitted after a dependency" | _ => "admitted" end.

Definition ClaimOf (op : AcceleratorOperation) : Claim :=
  mkClaim (Op_Name op) (Spec_Type (Op_Spec op)) (Spec_ResourceKeys (Op_Spec op)).

(** ** participant.go *)

Record Outcome := mkOutcome { Out_Event : Event; Out_Message : string; Out_RequeueAfter : Z }.

(** [Apply] gets the operation by reference and may leave it changed. *)
Record Participant (W : Type) := mkParticipant {
  Pa_Apply : AcceleratorOperation → M W (Outcome * AcceleratorOperation);
  Pa_Rollback : AcceleratorOperation → M W Outcome;
  Pa_VerifyRequest : AcceleratorOperation → M W (Request * bool);
}.
Arguments mkParticipant {W} _ _ _.
Arguments Pa_Apply {W} _ _ _.
Arguments Pa_Rollback {W} _ _ _.
Arguments Pa_VerifyRequest {W} _ _ _.

Definition Registry (W : Type) : Type := gmap OpType (Participant W).
Definition For {W} (r : Registry W) (t : OpType) : option (Participant W) := r !! t.

Class OperationAPI (W : Type) := {
  op_get : string → M W AcceleratorOperation;
  op_list : M W (list AcceleratorOperation);
  op_status_update : AcceleratorOperation → M W ();
}.

Record AcceleratorOperationReconciler (W : Type) := mkReconciler {
  Rc_Participants : Registry W;
  Rc_Leases : LeaseManager;
  Rc_LeaseNow : option (W → Z * W);
  Rc_Verification : option (Verifier W);
  Rc_Gates : Gates;
  Rc_Now : option (W → Z * W);
}.
Arguments mkReconciler {W} _ _ _ _ _ _.
Arguments Rc_Participants {W} _.
Arguments Rc_Leases {W} _.
Arguments Rc_LeaseNow {W} _.
Arguments Rc_Verification {W} _.
Arguments Rc_Gates {W} _.
Arguments Rc_Now {W} _.

(** ** Journal times *)

Definition applyStartedAt (entries : list OperationJournalEntry) : option Z :=
  Entry_At <$> find_first (λ e, bool_decide (Entry_Step e = StepApplyStarted)) entries.
Definition lastJournalAt (entries : list OperationJournalEntry) (step : string) : option Z :=
  foldl (λ out e, if bool_decide (Entry_Step e = step) then Some (Entry_At e) else out) None entries.

(** The phase the step moves to ("" for none), the result, and the operation
    as the step leaves it. *)
Definition StepResult : Type := string * CtrlResult * AcceleratorOperation.

Section Controller.
Context {W : Type} `{OperationAPI W} `{LeaseAPI W} `{VerifyAPI W} `{Clock W} `{MapRange}.
Context (r : AcceleratorOperationReconciler W).

Definition leases_acquire (node holder : string) : M W (bool * Z) :=
  t ← clock_of (Rc_LeaseNow r); Acquire (Rc_Leases r) node holder t.
Definition leases_release (node holder : string) : M W () := Release (Rc_Leases r) node holder.

Definition journal (step detail : string) (op : AcceleratorOperation) : M W AcceleratorOperation :=
  if DisableJournal (Rc_Gates r) then mret op
  else
    t ← clock_of (Rc_Now r);
    mret (on_status (λ s, set_journal
      (AppendJournal (St_Journal s) step (St_Epoch s) t detail) s) op).

(** The status write: a fresh read, and the write it decides.  Other processes
    may write between the two. *)
Definition fenceRead (op : AcceleratorOperation) : M W (AcceleratorOperation + GoErr) :=
  try (op_get (Op_Name op)).
Definition fenceWrite (op : AcceleratorOperation) (g : AcceleratorOperation + GoErr) : M W () :=
  match g with
  | inr e => if is_not_found e then mret () else throw e
  | inl fresh =>
      if (St_Epoch (Op_Status op) <? St_Epoch (Op_Status fresh)) && negb (DisableFencing (Rc_Gates r))
      then mret ()
      else op_status_update
             (set_resource_version (Op_ResourceVersion fresh)
               (on_status (set_observed_generation (Op_Generation op)) op))
  end.
Definition writeStatus (op : AcceleratorOperation) : M W () := g ← fenceRead op; fenceWrite op g.

(** The other operations that already hold a claim. *)
Definition claims_now (op o : AcceleratorOperation) : bool :=
  let phase := St_Phase (Op_Status o) in
  negb (bool_decide (Op_Name o = Op_Name op) || IsTerminal phase || bool_decide (phase = OpPhaseBlocked))
  && negb (bool_decide (phase = "") || bool_decide (phase = OpPhasePending)).

Definition stepAdmit (op : AcceleratorOperation) : M W StepResult :=
  l ← op_list;
  let active := ClaimOf <$> filter (λ o, claims_now op o = true) l in
  let '(verdict, blockedBy) :=
    if DisableConflict (Rc_Gates r) then (AdmitNow, "") else Admit (ClaimOf op) active in
  if bool_decide (verdict = AdmitBlocked) then
    let op' := on_status (λ s, set_message ("waiting for " +:+ blockedBy) (set_blocked_by blockedBy s)) op in
    mret (if bool_decide (St_Phase (Op_Status op) = OpPhaseBlocked) then "" else OpPhaseBlocked,
          requeue_after opRequeue, op')
  else
    op' ← journal StepPlanned (verdictName verdict)
            (on_status (λ s, set_message "" (set_blocked_by "" s)) op);
    mret (OpPhasePlanning, zero_res, op').

Definition stepAcquire (op : AcceleratorOperation) : M W StepResult :=
  if DisableLease (Rc_Gates r) then mret (OpPhasePrepared, zero_res, op)
  else
    let heldBefore := bool_decide (St_LeaseHolder (Op_Status op) = Op_Name op) in
    a ← leases_acquire (Spec_NodeName (Op_Spec op)) (Op_Name op);
    let '(ok, expiry) := a in
    if negb ok then
      mret ("", requeue_after opRequeue, on_status (set_message "waiting for the node lease") op)
    else
      let op := on_status (λ s, set_expiry (Some expiry) (set_holder (Op_Name op) s)) op in
      let op := if heldBefore then op
                else on_status (λ s, set_epoch (NextEpoch (St_Epoch s)) s) op in
      op ← journal StepLeaseAcquired ("epoch " +:+ sprint_Z (St_Epoch (Op_Status op))) op;
      mret (OpPhasePrepared, zero_res, op).

Definition stepSnapshot (op : AcceleratorOperation) : M W StepResult :=
  g ← try (node_get (Spec_NodeName (Op_Spec op)));
  match g with
  | inr e =>
      if is_not_found e then
        mret (OpPhaseRollingBack, zero_res,
          on_status (set_message "node not found; refusing to apply without a snapshot") op)
      else throw e
  | inl node =>
      let op := match St_Snapshot (Op_Status op) with
                | None => on_status (set_snapshot (BuildSnapshot (Some node) ∅ "" false)) op
                | Some _ => op
                end in
      op ← journal StepSnapshotTaken "" op;
      op ← journal StepQuiesced "" op;
      mret (OpPhaseQuiescing, zero_res, op)
  end.

(** What the participant lets be observed for the recovery decision. *)
Definition observeForRecovery (op : AcceleratorOperation) : M W RecoveryInput :=
  let base ok obs exp := mkRecoveryInput (St_Journal (Op_Status op)) ok obs exp
    (St_ObserveFailures (Op_Status op)) maxObserveFailures in
  match For (Rc_Participants r) (Spec_Type (Op_Spec op)) with
  | None => mret (base true ∅ "")
  | Some p =>
      v ← try (Pa_VerifyRequest p op);
      mret match v with
      | inl (req, true) => base (bool_decide (Rq_ObservationErrors req = ∅)) (Rq_ObservedGeometry req)
                             (Ex_Geometry (Rq_Expectation req))
      | _ => base true ∅ ""
      end
  end.

Definition decideAfterApplyFailure (op : AcceleratorOperation) (msg : string) : M W StepResult :=
  inp ← observeForRecovery op;
  let '(decision, reason) := DecideRecovery inp in
  let op := on_status (set_message (msg +:+ " | recovery: " +:+ reason)) op in
  match decision with
  | RecoverCommit =>
      op ← journal StepApplyFinished "recovered by observation" (on_status (set_observe_failures 0) op);
      op ← journal StepVerifyStarted "" op;
      mret (OpPhaseVerifying, zero_res, op)
  | RecoverWait =>
      mret ("", requeue_after opRequeue,
        on_status (λ s, set_observe_failures (wrap32 (St_ObserveFailures s + 1)) s) op)
  | RecoverManual => mret (OpPhaseManualRecoveryRequired, zero_res, op)
  | RecoverRestart => mret ("", requeue_after opRequeue, op)
  | RecoverRollback => mret (OpPhaseRollingBack, zero_res, on_status (set_observe_failures 0) op)
  end.

(** [started != nil && r.now().Sub(started.Time) >= maxApplyDuration] *)
Definition applyStalled (op : AcceleratorOperation) : M W bool :=
  match applyStartedAt (St_Journal (Op_Status op)) with
  | None => mret false
  | Some started => t ← clock_of (Rc_Now r); mret (maxApplyDuration <=? time_sub t started)
  end.

Definition hand_over (msg : string) (op : AcceleratorOperation) : StepResult :=
  (OpPhaseManualRecoveryRequired, zero_res, on_status (set_message msg) op).

(** The end of [stepApply]: the event must be a transition. *)
Definition nextByEvent (e : Event) (op : AcceleratorOperation) : M W StepResult :=
  match Next (St_Phase (Op_Status op)) e with
  | Some next => mret (next, zero_res, op)
  | None => throw (errorf ("participant returned " +:+ quote e +:+
                           " which is not a transition from " +:+ quote (St_Phase (Op_Status op))))
  end.

(** [stepApply] once the reboot wait is settled. *)
Definition handleOutcome (out : Outcome) (op : AcceleratorOperation) : M W StepResult :=
  if bool_decide (Out_Event out = "") then
    stalled ← applyStalled op;
    if (stalled : bool) then
      mret (hand_over ("apply stalled for over " +:+ duration_string maxApplyDuration +:+
                     " with no progress: " +:+ Out_Message out) op)
    else mret ("", requeue_after (requeueOr (Out_RequeueAfter out)), op)
  else if bool_decide (Out_Event out = EventApplyFailed) then
    decideAfterApplyFailure op (Out_Message out)
  else
    op ← (if bool_decide (Out_Event out = EventApplyDone) then
            op ← journal StepApplyFinished (Out_Message out) op; journal StepVerifyStarted "" op
          else mret op);
    op ← (if bool_decide (Out_Event out = EventRebootRequired)
          then journal StepRebootRequested (Out_Message out) op else mret op);
    nextByEvent (Out_Event out) op.

Definition stepApply (op : AcceleratorOperation) : M W StepResult :=
  match For (Rc_Participants r) (Spec_Type (Op_Spec op)) with
  | None => mret (hand_over ("no participant registered for " +:+ Spec_Type (Op_Spec op)) op)
  | Some p =>
      o ← Pa_Apply p op;
      let '(out, op) := o in
      let op := on_status (set_message (Out_Message out)) op in
      if bool_decide (St_Phase (Op_Status op) = OpPhaseWaitingForReboot) then
        if bool_decide (Out_Event out = EventBootObserved) then
          op ← journal StepRebootObserved (Out_Message out) op;
          nextByEvent (Out_Event out) op
        else if bool_decide (Out_Event out = EventRebootRequired) then
          stalled ← applyStalled op;
          if (stalled : bool) then
            mret (hand_over ("node did not come back within " +:+ duration_string maxApplyDuration +:+
                           ": " +:+ Out_Message out) op)
          else mret ("", requeue_after opRequeue, op)
        else handleOutcome out (on_status (set_phase OpPhaseApplying) op)
      else handleOutcome out op
  end.

Definition stepVerify (op : AcceleratorOperation) : M W StepResult :=
  match For (Rc_Participants r) (Spec_Type (Op_Spec op)) with
  | None => mret (OpPhaseManualRecoveryRequired, zero_res, op)
  | Some p =>
      v ← Pa_VerifyRequest p op;
      let '(req, applicable) := v in
      let unverified :=
        op ← journal StepCommitted "verification not applicable" op;
        mret (OpPhaseSucceeded, zero_res, op) in
      match Rc_Verification r with
      | None => unverified
      | Some verifier =>
          if negb applicable || DisableVerify (Rc_Gates r) then unverified
          else
            ev ← Verify verifier req;
            let st := Ev_Status ev in
            if bool_decide (Es_Level st = "") then
              waiting ← match lastJournalAt (St_Journal (Op_Status op)) StepVerifyStarted with
                        | None => mret false
                        | Some started =>
                            t ← clock_of (Rc_Now r); mret (time_sub t started <? maxVerifyGrace)
                        end;
              if (waiting : bool) then
                mret ("", requeue_after opRequeue,
                  on_status (set_message ("verification not settled yet: " +:+ Es_Reason st)) op)
              else
                mret (OpPhaseRollingBack, zero_res,
                  on_status (set_message ("verification disagreed after " +:+
                    duration_string maxVerifyGrace +:+ ": " +:+ Es_Reason st)) op)
            else
              op ← journal StepCommitted ("evidence level " +:+ Es_Level st) op;
              mret (OpPhaseSucceeded, zero_res, op)
      end
  end.

Definition stepRollback (op : AcceleratorOperation) : M W StepResult :=
  match For (Rc_Participants r) (Spec_Type (Op_Spec op)) with
  | None => mret (OpPhaseManualRecoveryRequired, zero_res, op)
  | Some p =>
      op ← journal StepRollbackStarted "" op;
      let op := on_status (λ s, set_rollback_attempts (wrap32 (St_RollbackAttempts s + 1)) s) op in
      out ← Pa_Rollback p op;
      let op := on_status (set_message (Out_Message out)) op in
      let attempts := St_RollbackAttempts (Op_Status op) in
      if bool_decide (Out_Event out = EventCompensated) then
        op ← journal StepRollbackFinished (Out_Message out) op;
        mret (OpPhaseRolledBack, zero_res, op)
      else if bool_decide (Out_Event out = EventCompensationFailed) || (maxRollbackAttempts <=? attempts)
      then mret (hand_over ("compensation gave up after " +:+ sprint_Z attempts +:+ " attempts: " +:+
                          Out_Message out) op)
      else mret ("", requeue_after (requeueOr (Out_RequeueAfter out)), op)
  end.

Definition step (op : AcceleratorOperation) : M W StepResult :=
  let phase := St_Phase (Op_Status op) in
  if contains_string [OpPhasePending; OpPhaseBlocked] phase then stepAdmit op
  else if bool_decide (phase = OpPhasePlanning) then stepAcquire op
  else if bool_decide (phase = OpPhasePrepared) then stepSnapshot op
  else if bool_decide (phase = OpPhaseQuiescing) then
    op ← journal StepApplyStarted "" op; mret (OpPhaseApplying, zero_res, op)
  else if contains_string [OpPhaseApplying; OpPhaseWaitingForReboot] phase then stepApply op
  else if bool_decide (phase = OpPhaseVerifying) then stepVerify op
  else if bool_decide (phase = OpPhaseRollingBack) then stepRollback op
  else mret ("", zero_res, op).

(** One step and the write that ends the pass. *)
Definition advance (op : AcceleratorOperation) : M W CtrlResult :=
  sr ← try (step op);
  match sr with
  | inr e => mret (requeue_after opRequeue)
  | inl (next, res, op) =>
      let moved := negb (bool_decide (next = "")) in
      _ ← (if moved && IsTerminal next && negb (DisableLease (Rc_Gates r))
           then try (leases_release (Spec_NodeName (Op_Spec op)) (Op_Name op))
           else mret (inl ()));
      _ ← writeStatus (if moved then on_status (set_phase next) op else op);
      mret (if moved && negb (IsTerminal next) then mkRes true 0 else res)
  end.

(** The renewal at the start of a pass: an error, lost, or the operation with
    its expiry refreshed. *)
Definition loseLease (op : AcceleratorOperation) : AcceleratorOperation :=
  on_status (λ s, set_message "lost the node lease to another process; re-queuing for it"
    (set_phase OpPhasePlanning (set_holder "" s))) op.

Definition Reconcile (name : string) : M W CtrlResult :=
  g ← try (op_get name);
  match g with
  | inr e => if is_not_found e then mret zero_res else throw e
  | inl op =>
      let op := if bool_decide (St_Phase (Op_Status op) = "")
                then on_status (set_phase OpPhasePending) op else op in
      if IsTerminal (St_Phase (Op_Status op)) then mret zero_res
      else if bool_decide (St_LeaseHolder (Op_Status op) = Op_Name op) && negb (DisableLease (Rc_Gates r))
      then
        a ← try (leases_acquire (Spec_NodeName (Op_Spec op)) (Op_Name op));
        match a with
        | inr e => mret (requeue_after opRequeue)
        | inl (false, _) => _ ← writeStatus (loseLease op); mret (requeue_after opRequeue)
        | inl (true, expiry) => advance (on_status (set_expiry (Some expiry)) op)
        end
      else advance op
  end.
End Controller.
