(* ===== verification/OperationSafety.v ===== *)
(** * Safety of the transaction driver

    What every pass of [Reconcile] preserves about the stored operations:
    no hardware phase without the node lease, a snapshot and a journalled start,
    no success without a journalled commit, a bounded number of compensations,
    an epoch that never goes back.  The API server is known through
    [OperationAPILaws]; everything else a pass touches (leases, evidence,
    clocks, participants) only has to leave the stored operations alone. *)

From S2P Require Import Prelude GoStrings GoTime ApiTypes OperationModel OperationStateMachine OperationJournal OperationLease VerificationPolicy VerificationAgreement Verifier OperationController.

(** ** The API server *)

Class OperationAPILaws (W : Type) `{OperationAPI W} := {
  ops_of : W → gmap string AcceleratorOperation;
  (** every resourceVersion an operation was ever stored with *)
  revs_of : W → gset string;
  ops_view : W → gmap string AcceleratorOperation * gset string := λ w, (ops_of w, revs_of w);
  ops_of_law w n o : ops_of w !! n = Some o → Op_Name o = n ∧ Op_ResourceVersion o ∈ revs_of w;
  op_get_law n w r w' : op_get n w = (r, w') → ops_view w' = ops_view w ∧
    match r with
    | inl o => ops_of w !! n = Some o
    | inr e => err_kind e = KNotFound → ops_of w !! n = None
    end;
  op_list_law w r w' : op_list w = (r, w') → ops_view w' = ops_view w ∧
    ∀ l, r = inl l → ∀ o, o ∈ l ↔ ops_of w !! Op_Name o = Some o;
  (** Optimistic concurrency: the write happens only over the version it was
      computed from, and stores the status (only) under a new version. *)
  op_status_update_law o w r w' : op_status_update o w = (r, w') →
    (r ≠ inl () ∧ ops_view w' = ops_view w) ∨
    (∃ cur rv, ops_of w !! Op_Name o = Some cur ∧ Op_ResourceVersion cur = Op_ResourceVersion o ∧
       rv ∉ revs_of w ∧ revs_of w' = {[rv]} ∪ revs_of w ∧
       ops_of w' = <[Op_Name o := mkOperation (Op_Name cur) (Op_Generation cur) rv (Op_CreationTimestamp cur) (Op_Spec cur)
                                    (Op_Status o)]> (ops_of w));
}.

(** The other interfaces do not write operations. *)
Class LeavesOperations (W : Type) `{OperationAPILaws W} `{LeaseAPI W} `{VerifyAPI W} `{Clock W} := {
  lease_get_keeps k : keeps ops_view (lease_get k);
  lease_create_keeps l : keeps ops_view (lease_create l);
  lease_update_keeps l : keeps ops_view (lease_update l);
  lease_delete_keeps l : keeps ops_view (lease_delete l);
  node_get_keeps n : keeps ops_view (node_get n);
  report_get_keeps n : keeps ops_view (report_get n);
  policy_list_keeps : keeps ops_view policy_list;
  evidence_get_keeps n : keeps ops_view (evidence_get n);
  evidence_create_keeps e : keeps ops_view (evidence_create e);
  evidence_update_keeps e : keeps ops_view (evidence_status_update e);
  evidence_inc_keeps a b : keeps ops_view (evidence_records_inc a b);
  time_keeps w : ops_view (time_now w).2 = ops_view w;
}.

(** ** What is stored about an operation *)

Definition holding_phases : list string :=
  [OpPhasePrepared; OpPhaseQuiescing; OpPhaseApplying; OpPhaseWaitingForReboot;
   OpPhaseVerifying; OpPhaseRollingBack].
Definition snapshot_phases : list string :=
  [OpPhaseQuiescing; OpPhaseApplying; OpPhaseWaitingForReboot; OpPhaseVerifying].
Definition applying_phases : list string :=
  [OpPhaseApplying; OpPhaseWaitingForReboot; OpPhaseVerifying].

Record op_inv (g : Gates) (op : AcceleratorOperation) : Prop := mkOpInv {
  inv_phase : contains_string ("" :: AllOperationPhases) (St_Phase (Op_Status op)) = true;
  inv_holder : DisableLease g = false → contains_string holding_phases (St_Phase (Op_Status op)) = true →
    St_LeaseHolder (Op_Status op) = Op_Name op;
  inv_snapshot : contains_string snapshot_phases (St_Phase (Op_Status op)) = true →
    St_Snapshot (Op_Status op) ≠ None;
  inv_started : DisableJournal g = false →
    contains_string applying_phases (St_Phase (Op_Status op)) = true →
    HasStep (St_Journal (Op_Status op)) StepApplyStarted = true;
  inv_verify : DisableJournal g = false →
    contains_string [OpPhaseVerifying; OpPhaseSucceeded] (St_Phase (Op_Status op)) = true →
    HasStep (St_Journal (Op_Status op)) StepVerifyStarted = true;
  inv_committed : DisableJournal g = false →
    contains_string [OpPhaseSucceeded] (St_Phase (Op_Status op)) = true →
    HasStep (St_Journal (Op_Status op)) StepCommitted = true;
  inv_attempts : IsTerminal (St_Phase (Op_Status op)) = false →
    0 <= St_RollbackAttempts (Op_Status op) < maxRollbackAttempts;
}.

(** [op'] is [op] with more journal. *)
Definition journal_grows (op op' : AcceleratorOperation) : Prop :=
  ∃ j, op' = on_status (set_journal j) op ∧
    ∀ s, HasStep (St_Journal (Op_Status op)) s = true → HasStep j s = true.

(** A participant may add to the journal, and writes no operation itself. *)
Record participant_ok {W} `{OperationAPILaws W} (p : Participant W) : Prop := {
  apply_grows op : yields (Pa_Apply p op) (λ x, journal_grows op x.2);
  apply_keeps op : keeps ops_view (Pa_Apply p op);
  rollback_keeps op : keeps ops_view (Pa_Rollback p op);
  verify_request_keeps op : keeps ops_view (Pa_VerifyRequest p op);
}.

Definition seam_keeps {W} `{OperationAPILaws W} (f : option (W → Z * W)) : Prop :=
  ∀ g w, f = Some g → ops_view (g w).2 = ops_view w.

Record reconciler_ok {W} `{OperationAPILaws W} (r : AcceleratorOperationReconciler W) : Prop := {
  participants_ok t p : For (Rc_Participants r) t = Some p → participant_ok p;
  lease_now_keeps : seam_keeps (Rc_LeaseNow r);
  now_keeps : seam_keeps (Rc_Now r);
  verifier_now_keeps v : Rc_Verification r = Some v → seam_keeps (Vf_Now v);
  prober_keeps v f a b c : Rc_Verification r = Some v → Vf_Prober v = Some f → keeps ops_view (f a b c);
}.

(** Tests of membership in a list of phases that are already decided. *)
Ltac decided_phases :=
  try match goal with
  | H : ?b = true |- _ => exfalso; exact (eq_true_false_abs b H eq_refl)
  | H : ?b = false |- _ => exfalso; exact (eq_true_false_abs b eq_refl H)
  end.
(** The fields of [op_inv] for an operation whose phase is known. *)
Ltac inv_fields :=
  constructor; simpl; intros; try reflexivity; try done; decided_phases; auto with go_db.

(** ** One step keeps the invariant *)

Definition settle (next : string) (op : AcceleratorOperation) : AcceleratorOperation :=
  if bool_decide (next = "") then op else on_status (set_phase next) op.

Lemma HasStep_append_mono es step epoch t d s :
  HasStep es s = true → HasStep (AppendJournal es step epoch t d) s = true.
Proof.
  rewrite !HasStep_true. intros (e & He & Hs). exists e. split; [|done].
  unfold AppendJournal. case_match; [done|]. apply elem_of_app. by left.
Qed.
Lemma HasStep_appended es step epoch t d : HasStep (AppendJournal es step epoch t d) step = true.
Proof.
  apply HasStep_true. unfold AppendJournal. destruct (existsb _ es) eqn:E.
  - apply existsb_elem in E as (e & He & [? _]%same_step_true). eauto.
  - eexists. split; [apply elem_of_app; right; by left|done].
Qed.

Section Steps.
Context {W : Type} `{OperationAPILaws W} `{LeaseAPI W} `{VerifyAPI W} `{Clock W} `{MapRange}.
Context (r : AcceleratorOperationReconciler W) (Hr : reconciler_ok r).
Notation g := (Rc_Gates r).

(** What is known after [journal], and what the rest of a step may rely on. *)
Lemma yields_journal1 step detail op (Q : AcceleratorOperation → Prop) :
  (∀ j, (∀ s, HasStep (St_Journal (Op_Status op)) s = true → HasStep j s = true) →
        (DisableJournal g = false → HasStep j step = true) →
        Q (on_status (set_journal j) op)) →
  yields (journal r step detail op) Q.
Proof.
  intros HQ. unfold journal. destruct (DisableJournal g).
  - apply yields_ret. destruct op as [n gn rv ct sp st]. destruct st. by apply (HQ St_Journal).
  - apply yields_then. intros t. apply yields_ret.
    apply HQ; intros; [by apply HasStep_append_mono|apply HasStep_appended].
Qed.
Lemma yields_journal {A} step detail op (f : AcceleratorOperation → M W A) (Q : A → Prop) :
  (∀ j, (∀ s, HasStep (St_Journal (Op_Status op)) s = true → HasStep j s = true) →
        (DisableJournal g = false → HasStep j step = true) →
        yields (f (on_status (set_journal j) op)) Q) →
  yields (journal r step detail op ≫= f) Q.
Proof. intros HQ. eapply yields_bind; [by apply (yields_journal1 _ _ _ (λ op', yields (f op') Q))|done]. Qed.

(** What a step promises, as a predicate on its result. *)
Definition step_post (op : AcceleratorOperation) (sr : StepResult) : Prop :=
  op_inv g (settle sr.1.1 sr.2) ∧ Op_Name sr.2 = Op_Name op ∧
  (min_int64 <= St_Epoch (Op_Status op) < max_int64 →
   St_Epoch (Op_Status op) <= St_Epoch (Op_Status sr.2)).

(** Staying in the phase: only the journal (growing) and fields the invariant
    does not look at have changed. *)
Lemma stay_post op op' res :
  op_inv g op → St_Phase (Op_Status op') = St_Phase (Op_Status op) → Op_Name op' = Op_Name op →
  St_LeaseHolder (Op_Status op') = St_LeaseHolder (Op_Status op) →
  St_Snapshot (Op_Status op') = St_Snapshot (Op_Status op) →
  St_RollbackAttempts (Op_Status op') = St_RollbackAttempts (Op_Status op) →
  St_Epoch (Op_Status op') = St_Epoch (Op_Status op) →
  (∀ s, HasStep (St_Journal (Op_Status op)) s = true → HasStep (St_Journal (Op_Status op')) s = true) →
  step_post op ("", res, op').
Proof.
  intros [] Ep En Eh Es Ea Ee Hj. unfold step_post, settle; simpl.
  split; [|split; [done|intros; lia]]. constructor; rewrite ?Ep, ?En, ?Eh, ?Es, ?Ea; auto.
Qed.

Lemma NextEpoch_le e : e < max_int64 → min_int64 <= e → e <= NextEpoch e.
Proof. intros. unfold NextEpoch. rewrite wrap64_id; unfold is_int64, min_int64, max_int64 in *; lia. Qed.

Lemma stepAdmit_post op :
  op_inv g op → contains_string [OpPhasePending; OpPhaseBlocked] (St_Phase (Op_Status op)) = true →
  yields (stepAdmit r op) (step_post op).
Proof.
  intros Hi Hp.
  assert (0 <= St_RollbackAttempts (Op_Status op) < maxRollbackAttempts) as Ha.
  { apply Hi. apply contains_string_true in Hp. set_unfold in Hp.
    destruct Hp as [-> | [-> | []]]; reflexivity. }
  unfold stepAdmit. apply yields_then. intros l.
  destruct (if DisableConflict g then _ else _) as [verdict blockedBy].
  case_bool_decide.
  - apply yields_ret. case_bool_decide as Hb; [by apply stay_post|].
    split; [|split; [done|simpl; lia]]. simpl. inv_fields.
  - apply yields_journal; intros j Hj1 Hj2. apply yields_ret.
    split; [|split; [done|simpl; lia]]. simpl. inv_fields.
Qed.

Lemma stepAcquire_post op :
  op_inv g op → St_Phase (Op_Status op) = OpPhasePlanning → yields (stepAcquire r op) (step_post op).
Proof.
  intros Hi Hp. assert (0 <= St_RollbackAttempts (Op_Status op) < maxRollbackAttempts) as Ha.
  { apply Hi. by rewrite Hp. }
  unfold stepAcquire. destruct (DisableLease g) eqn:El.
  - apply yields_ret. split; [|split; [done|simpl; lia]]. simpl. inv_fields. congruence.
  - apply yields_then. intros [[] expiry]; simpl; [|by apply yields_ret, stay_post].
    apply yields_journal; intros j Hj1 Hj2. apply yields_ret. split; [|split].
    + simpl. case_bool_decide; inv_fields.
    + by case_bool_decide.
    + intros He. simpl. case_bool_decide; simpl; [lia|apply NextEpoch_le; lia].
Qed.

Lemma stepSnapshot_post op :
  op_inv g op → St_Phase (Op_Status op) = OpPhasePrepared → yields (stepSnapshot r op) (step_post op).
Proof.
  intros Hi Hp. assert (0 <= St_RollbackAttempts (Op_Status op) < maxRollbackAttempts) as Ha.
  { apply Hi. by rewrite Hp. }
  pose proof (inv_holder g op Hi) as Hh. rewrite Hp in Hh.
  unfold stepSnapshot. apply yields_then. intros [node|e].
  - set (op1 := match St_Snapshot (Op_Status op) with None => _ | Some _ => _ end).
    assert (Hop1 : St_Snapshot (Op_Status op1) ≠ None ∧ Op_Name op1 = Op_Name op ∧
      St_LeaseHolder (Op_Status op1) = St_LeaseHolder (Op_Status op) ∧
      St_RollbackAttempts (Op_Status op1) = St_RollbackAttempts (Op_Status op) ∧
      St_Epoch (Op_Status op1) = St_Epoch (Op_Status op)).
    { unfold op1. destruct (St_Snapshot (Op_Status op)) eqn:Es; [by rewrite Es|done]. }
    clearbody op1. destruct Hop1 as (Hs & Hn & Hl & Hat & He).
    apply yields_journal; intros j Hj1 Hj2. apply yields_journal; intros j' Hj3 Hj4.
    apply yields_ret. split; [|split; [done|simpl; rewrite He; lia]].
    simpl. inv_fields; rewrite ?Hl, ?Hn, ?Hat; auto.
  - case_match; [|apply yields_throw]. apply yields_ret. split; [|split; [done|simpl; lia]].
    simpl. inv_fields.
Qed.

(** The operation in [Applying] or [WaitingForReboot]. *)
Definition being_applied (op : AcceleratorOperation) : Prop :=
  contains_string [OpPhaseApplying; OpPhaseWaitingForReboot] (St_Phase (Op_Status op)) = true.
(** [op'] is [op] during the apply step: journal grown, phase possibly moved
    between the two applying phases. *)
Record same_apply (op op' : AcceleratorOperation) : Prop := {
  sa_name : Op_Name op' = Op_Name op;
  sa_phase : being_applied op';
  sa_holder : St_LeaseHolder (Op_Status op') = St_LeaseHolder (Op_Status op);
  sa_snapshot : St_Snapshot (Op_Status op') = St_Snapshot (Op_Status op);
  sa_attempts : St_RollbackAttempts (Op_Status op') = St_RollbackAttempts (Op_Status op);
  sa_epoch : St_Epoch (Op_Status op') = St_Epoch (Op_Status op);
  sa_journal s : HasStep (St_Journal (Op_Status op)) s = true → HasStep (St_Journal (Op_Status op')) s = true;
}.

(** Where the apply step may lead. *)
Definition apply_exit (next : string) : Prop :=
  contains_string ["" ; OpPhaseApplying; OpPhaseWaitingForReboot; OpPhaseVerifying;
                   OpPhaseRollingBack; OpPhaseManualRecoveryRequired] next = true.

Lemma apply_post op op' next res :
  op_inv g op → being_applied op → same_apply op op' → apply_exit next →
  (next = OpPhaseVerifying → DisableJournal g = false →
     HasStep (St_Journal (Op_Status op')) StepVerifyStarted = true) →
  step_post op (next, res, op').
Proof.
  intros [Ip Ih Is Ij Iv Ic Ia] Hp [Sn Sp Sh Ss Sa Se Sj] Hx Hv. unfold step_post, settle; simpl.
  split; [|split; [done|rewrite Se; lia]].
  assert (Hph : ∀ o, being_applied o → St_Phase (Op_Status o) = OpPhaseApplying ∨
    St_Phase (Op_Status o) = OpPhaseWaitingForReboot).
  { intros o Ho. apply contains_string_true in Ho. set_unfold in Ho. naive_solver. }
  assert (Hop : DisableLease g = false → St_LeaseHolder (Op_Status op) = Op_Name op).
  { intros. apply Ih; [done|]. by destruct (Hph op Hp) as [-> | ->]. }
  assert (Hop2 : St_Snapshot (Op_Status op) ≠ None).
  { apply Is. by destruct (Hph op Hp) as [-> | ->]. }
  assert (Hop3 : DisableJournal g = false → HasStep (St_Journal (Op_Status op)) StepApplyStarted = true).
  { intros. apply Ij; [done|]. by destruct (Hph op Hp) as [-> | ->]. }
  assert (Hop4 : 0 <= St_RollbackAttempts (Op_Status op) < maxRollbackAttempts).
  { apply Ia. by destruct (Hph op Hp) as [-> | ->]. }
  case_bool_decide as En.
  - constructor; rewrite ?Sn, ?Sh, ?Ss, ?Sa; auto; destruct (Hph op' Sp) as [Hq | Hq]; rewrite Hq;
      intros; try done; decided_phases.
  - apply contains_string_true in Hx. set_unfold in Hx.
    destruct Hx as [-> | [-> | [-> | [-> | [-> | [-> | []]]]]]].
    { done. }
    all: constructor; simpl; rewrite ?Sn, ?Sh, ?Ss, ?Sa; intros; decided_phases.
    all: auto.
Qed.

Lemma same_apply_refl op : being_applied op → same_apply op op.
Proof. by constructor. Qed.
Lemma same_apply_trans op op1 op2 : same_apply op op1 → same_apply op1 op2 → same_apply op op2.
Proof. intros [] []. constructor; try congruence; auto. Qed.
(** Changes an apply step makes to the operation. *)
Lemma same_apply_journal op op' j :
  same_apply op op' → (∀ s, HasStep (St_Journal (Op_Status op')) s = true → HasStep j s = true) →
  same_apply op (on_status (set_journal j) op').
Proof. intros [] Hj. constructor; simpl; auto. Qed.
Lemma same_apply_message op op' msg : same_apply op op' → same_apply op (on_status (set_message msg) op').
Proof. intros []. constructor; simpl; auto. Qed.
Lemma same_apply_failures op op' f :
  same_apply op op' → same_apply op (on_status (λ s, set_observe_failures (f s) s) op').
Proof. intros []. constructor; simpl; auto. Qed.
Lemma same_apply_applying op op' :
  same_apply op op' → same_apply op (on_status (set_phase OpPhaseApplying) op').
Proof. intros []. constructor; simpl; auto. done. Qed.
#[local] Hint Resolve same_apply_refl same_apply_message same_apply_failures same_apply_applying : go_db.

Lemma decide_post op op' msg :
  op_inv g op → being_applied op → same_apply op op' →
  yields (decideAfterApplyFailure r op' msg) (step_post op).
Proof.
  intros Hi Hp Hs. unfold decideAfterApplyFailure. apply yields_then. intros inp.
  destruct (DecideRecovery inp) as [[] reason].
  - apply yields_ret, apply_post; auto with go_db; done.
  - apply yields_journal. intros j Hj1 Hj2. apply yields_journal. intros j' Hj3 Hj4.
    apply yields_ret, apply_post; auto; [|done].
    apply same_apply_journal; [|done]. apply same_apply_journal; [|done].
    apply (same_apply_failures _ _ (λ _, 0)). auto with go_db.
  - apply yields_ret, apply_post; auto; [|done|done].
    apply (same_apply_failures _ _ (λ _, 0)). auto with go_db.
  - apply yields_ret, apply_post; auto with go_db; done.
  - apply yields_ret, apply_post; auto with go_db; done.
Qed.

Lemma applying_edge p e q :
  contains_string [OpPhaseApplying; OpPhaseWaitingForReboot] p = true → Next p e = Some q →
  apply_exit q ∧ (q = OpPhaseVerifying → e = EventApplyDone).
Proof. intros Hp H'. revert Hp. edge_cases H'; vm_compute; try done. Qed.

(** A participant's event moves the phase along the table. *)
Lemma nextByEvent_post op op' e :
  op_inv g op → being_applied op → same_apply op op' →
  (Next (St_Phase (Op_Status op')) e = Some OpPhaseVerifying → DisableJournal g = false →
     HasStep (St_Journal (Op_Status op')) StepVerifyStarted = true) →
  yields (nextByEvent e op' : M W StepResult) (step_post op).
Proof.
  intros Hi Hp Hs Hv. unfold nextByEvent.
  destruct (Next _ e) as [next|] eqn:En; [|apply yields_throw].
  apply yields_ret, apply_post; auto; [|intros ->; auto].
  by destruct (applying_edge (St_Phase (Op_Status op')) e next (sa_phase _ _ Hs) En).
Qed.

Lemma handleOutcome_post op op' out :
  op_inv g op → being_applied op → same_apply op op' →
  yields (handleOutcome r out op') (step_post op).
Proof.
  intros Hi Hp Hs. unfold handleOutcome. case_bool_decide as E1.
  { apply yields_then. intros []; apply yields_ret, apply_post; auto with go_db; done. }
  case_bool_decide as E2; [by apply decide_post|].
  destruct (bool_decide (Out_Event out = EventApplyDone)) eqn:E3; bool_prop.
  - apply (yields_bind _ _ (λ op1, same_apply op op1 ∧ (DisableJournal g = false →
      HasStep (St_Journal (Op_Status op1)) StepVerifyStarted = true))).
    { apply yields_journal. intros j Hj1 Hj2. apply yields_journal1. intros j' Hj3 Hj4.
      split; [|done]. apply same_apply_journal; [|done]. by apply same_apply_journal. }
    intros op1 [Hs1 Hv]. rewrite E3. apply nextByEvent_post; auto.
  - apply (yields_bind _ _ (same_apply op)); [by apply yields_ret|]. intros op1 Hs1.
    apply (yields_bind _ _ (same_apply op)).
    { case_bool_decide; [|by apply yields_ret]. apply yields_journal1. intros j Hj1 _.
      by apply same_apply_journal. }
    intros op2 Hs2. apply nextByEvent_post; auto. intros Hn.
    by destruct (applying_edge _ _ _ (sa_phase _ _ Hs2) Hn) as [_ ?]; auto.
Qed.

Lemma stepApply_post op :
  op_inv g op → being_applied op → yields (stepApply r op) (step_post op).
Proof.
  intros Hi Hp. unfold stepApply. destruct (For _ _) as [p|] eqn:Ep.
  2: { apply yields_ret, apply_post; auto with go_db; done. }
  eapply yields_bind; [apply (apply_grows p (participants_ok r Hr _ _ Ep))|].
  intros [out op'] (j & Hop & Hj). simpl in Hop. subst op'.
  assert (Hs : same_apply op (on_status (set_journal j) op)) by (apply same_apply_journal; auto with go_db).
  apply (same_apply_message _ _ (Out_Message out)) in Hs.
  case_bool_decide as E1; [case_bool_decide as E2; [|case_bool_decide as E3]|].
  - apply yields_journal. intros j' Hj1 _. apply nextByEvent_post; auto.
    + by apply same_apply_journal.
    + intros Hn. simpl in Hn, E1. rewrite E1, E2 in Hn. discriminate Hn.
  - apply yields_then. intros []; apply yields_ret, apply_post; auto with go_db; done.
  - apply handleOutcome_post; auto with go_db.
  - by apply handleOutcome_post.
Qed.

Lemma stepVerify_post op :
  op_inv g op → St_Phase (Op_Status op) = OpPhaseVerifying → yields (stepVerify r op) (step_post op).
Proof.
  intros Hi Hp.
  assert (0 <= St_RollbackAttempts (Op_Status op) < maxRollbackAttempts) as Ha.
  { apply Hi. by rewrite Hp. }
  pose proof (inv_holder g op Hi) as Hh. pose proof (inv_verify g op Hi) as Hv.
  rewrite Hp in Hh, Hv. unfold stepVerify. destruct (For _ _) as [p|].
  2: { apply yields_ret. split; [|split; [done|simpl; lia]]. simpl. inv_fields. }
  apply yields_then. intros [req applicable].
  assert (Hdone : ∀ detail, yields (op ← journal r StepCommitted detail op;
                                    mret (OpPhaseSucceeded, zero_res, op)) (step_post op)).
  { intros detail. apply yields_journal. intros j Hj1 Hj2. apply yields_ret.
    split; [|split; [done|simpl; lia]]. simpl. inv_fields. }
  destruct (Rc_Verification r) as [verifier|]; [|apply Hdone].
  case_match; [apply Hdone|]. apply yields_then. intros ev. case_bool_decide; [|apply Hdone].
  apply yields_then. intros []; apply yields_ret; [by apply stay_post|].
  split; [|split; [done|simpl; lia]]. simpl. inv_fields.
Qed.

Lemma stepRollback_post op :
  op_inv g op → St_Phase (Op_Status op) = OpPhaseRollingBack → yields (stepRollback r op) (step_post op).
Proof.
  intros Hi Hp.
  assert (0 <= St_RollbackAttempts (Op_Status op) < maxRollbackAttempts) as Ha.
  { apply Hi. by rewrite Hp. }
  pose proof (inv_holder g op Hi) as Hh. rewrite Hp in Hh.
  unfold stepRollback. destruct (For _ _) as [p|].
  2: { apply yields_ret. split; [|split; [done|simpl; lia]]. simpl. inv_fields. }
  apply yields_journal. intros j Hj1 Hj2. apply yields_then. intros out.
  destruct (bool_decide (Out_Event out = EventCompensated)).
  { apply yields_journal. intros j' Hj3 Hj4. apply yields_ret.
    split; [|split; [done|simpl; lia]]. simpl. inv_fields. }
  destruct (_ || _) eqn:E; apply yields_ret; (split; [|split; [done|simpl; lia]]); simpl; [inv_fields|].
  apply orb_false_iff in E as [_ E]. simpl in E. bool_prop.
  assert (wrap32 (St_RollbackAttempts (Op_Status op) + 1) = St_RollbackAttempts (Op_Status op) + 1) as Hw.
  { apply wrap32_id. unfold is_int32, min_int32, max_int32, maxRollbackAttempts in *. lia. }
  unfold settle. simpl. constructor; simpl; rewrite ?Hp; intros; decided_phases; auto.
  rewrite Hw. lia.
Qed.

Lemma step_post_holds op :
  op_inv g op → IsTerminal (St_Phase (Op_Status op)) = false → St_Phase (Op_Status op) ≠ "" →
  yields (step r op) (step_post op).
Proof.
  intros Hi Ht Hne. unfold step.
  destruct (contains_string [OpPhasePending; OpPhaseBlocked] _) eqn:E1; [by apply stepAdmit_post|].
  case_bool_decide as E2; [by apply stepAcquire_post|].
  case_bool_decide as E3; [by apply stepSnapshot_post|].
  case_bool_decide as E4.
  { assert (0 <= St_RollbackAttempts (Op_Status op) < maxRollbackAttempts) as Ha.
    { apply Hi. by rewrite E4. }
    pose proof (inv_holder g op Hi) as Hh. pose proof (inv_snapshot g op Hi) as Hs.
    rewrite E4 in Hh, Hs. apply yields_journal. intros j Hj1 Hj2. apply yields_ret.
    split; [|split; [done|simpl; lia]]. simpl. inv_fields. }
  destruct (contains_string [OpPhaseApplying; OpPhaseWaitingForReboot] _) eqn:E5; [by apply stepApply_post|].
  case_bool_decide as E6; [by apply stepVerify_post|].
  case_bool_decide as E7; [by apply stepRollback_post|].
  by apply yields_ret, stay_post.
Qed.
End Steps.

(** ** A step writes no operation *)

Section Frame.
Context {W : Type} `{LeavesOperations W} `{MapRange}.
Context (r : AcceleratorOperationReconciler W) (Hr : reconciler_ok r).

(** Walks through a computation whose calls are known to keep the view. *)
Ltac keeps_walk :=
  repeat first
    [ solve [eauto 4 with go_db nocore] | apply keeps_ret | apply keeps_throw | apply keeps_try
    | apply keeps_bind; [|intros ?] | case_match ].

Lemma clock_keeps (f : option (W → Z * W)) : seam_keeps f → keeps ops_view (clock_of f).
Proof.
  intros Hf w. unfold clock_of, read_clock. destruct f as [h|].
  - specialize (Hf h w eq_refl). by destruct (h w).
  - pose proof (time_keeps w). by destruct (time_now w).
Qed.
#[local] Hint Resolve clock_keeps lease_get_keeps lease_create_keeps lease_update_keeps lease_delete_keeps
  node_get_keeps report_get_keeps policy_list_keeps evidence_get_keeps evidence_create_keeps
  evidence_update_keeps evidence_inc_keeps lease_now_keeps now_keeps verifier_now_keeps prober_keeps
  apply_keeps rollback_keeps verify_request_keeps participants_ok : go_db.

Lemma journal_keeps step d op : keeps ops_view (journal r step d op).
Proof. unfold journal. keeps_walk. Qed.
Lemma acquire_keeps node h : keeps ops_view (leases_acquire r node h).
Proof. unfold leases_acquire, Acquire, AcquireRead, AcquireWrite. keeps_walk. Qed.
Lemma release_keeps node h : keeps ops_view (leases_release r node h).
Proof. unfold leases_release, Release, ReleaseRead, ReleaseWrite, ignore_not_found. keeps_walk. Qed.
Lemma list_keeps : keeps ops_view op_list.
Proof. intros w. destruct (op_list w) as [l w'] eqn:E. by apply op_list_law in E as [? _]. Qed.
Lemma op_get_keeps n : keeps ops_view (op_get n).
Proof. intros w. destruct (op_get n w) as [l w'] eqn:E. by apply op_get_law in E as [? _]. Qed.
#[local] Hint Resolve journal_keeps acquire_keeps release_keeps list_keeps op_get_keeps : go_db.

Lemma Verify_keeps v req : Rc_Verification r = Some v → keeps ops_view (Verify v req).
Proof.
  intros Hv.
  assert (Hn : keeps ops_view (now v)) by (unfold now; eauto with go_db).
  unfold Verify, loadReport, resolvePolicy, probeStep, Load, upsert, getOrCreate, get_optional, or_wrap.
  keeps_walk.
Qed.
#[local] Hint Resolve Verify_keeps : go_db.

Lemma stalled_keeps op : keeps ops_view (applyStalled r op).
Proof. unfold applyStalled. keeps_walk. Qed.
#[local] Hint Resolve stalled_keeps : go_db.
Lemma decide_keeps op msg : keeps ops_view (decideAfterApplyFailure r op msg).
Proof. unfold decideAfterApplyFailure, observeForRecovery. keeps_walk. Qed.
Lemma nextByEvent_keeps e op : keeps ops_view (nextByEvent e op : M W StepResult).
Proof. unfold nextByEvent. keeps_walk. Qed.
#[local] Hint Resolve decide_keeps nextByEvent_keeps : go_db.
Lemma handleOutcome_keeps out op : keeps ops_view (handleOutcome r out op).
Proof. unfold handleOutcome. keeps_walk. Qed.
#[local] Hint Resolve handleOutcome_keeps : go_db.

Lemma step_keeps op : keeps ops_view (step r op).
Proof.
  unfold step, stepAdmit, stepAcquire, stepSnapshot, stepApply, stepVerify, stepRollback. keeps_walk.
Qed.
End Frame.

(** ** One pass *)

Section Pass.
Context {W : Type} `{LeavesOperations W} `{MapRange}.
Context (r : AcceleratorOperationReconciler W) (Hr : reconciler_ok r).
Notation g := (Rc_Gates r).

(** Every stored operation satisfies the invariant. *)
Definition all_inv (w : W) : Prop := ∀ n o, ops_of w !! n = Some o → op_inv g o.

(** A pass over [n] wrote nothing, or one status for [n] that [P] relates to
    the one it replaced. *)
Definition writes_only (n : string) (P : AcceleratorOperation → AcceleratorOperation → Prop) (w w' : W)
    : Prop :=
  ops_of w' = ops_of w ∨
  ∃ cur o, ops_of w !! n = Some cur ∧ Op_Name o = n ∧ P cur o ∧ ops_of w' = <[n := o]> (ops_of w).

Lemma view_ops (w w' : W) : ops_view w' = ops_view w → ops_of w' = ops_of w.
Proof. by intros [=]. Qed.

Ltac unchanged := left; first [assumption | by apply view_ops].

Lemma op_inv_status op n gn rv ct sp gen :
  op_inv g op → n = Op_Name op →
  op_inv g (mkOperation n gn rv ct sp (set_observed_generation gen (Op_Status op))).
Proof. intros [] ->. by constructor. Qed.

Lemma writeStatus_effect op w res w' :
  op_inv g op → writeStatus r op w = (res, w') →
  writes_only (Op_Name op) (λ cur o, op_inv g o ∧
    (DisableFencing g = false → St_Epoch (Op_Status cur) <= St_Epoch (Op_Status o))) w w'.
Proof.
  intros Hi. unfold writeStatus, fenceRead, fenceWrite. munfold. destruct (op_get _ w) as [[fresh|e] w1] eqn:Eg;
    apply op_get_law in Eg as [Hv Hg].
  2: { destruct (is_not_found e); intros; simplify_eq; unchanged. }
  destruct ((_ <? _) && _) eqn:Ef; [intros; simplify_eq; unchanged|].
  intros E. apply op_status_update_law in E as [[_ Hv2]|(cur & rv & Hc & Hrv & _ & _ & Hw)].
  { left. rewrite (view_ops _ _ Hv2). by apply view_ops. }
  right. simpl in Hc, Hw. rewrite (view_ops _ _ Hv) in Hc, Hw. assert (cur = fresh) as -> by congruence.
  pose proof (ops_of_law w _ _ Hc) as [Hn _].
  eexists fresh, _. refine (conj Hc (conj _ (conj _ Hw))); [done|split].
  - by apply op_inv_status.
  - simpl. intros Hf. rewrite Hf, andb_true_r in Ef. by bool_prop.
Qed.

Lemma writes_only_view n P w w1 w' :
  ops_view w1 = ops_view w → writes_only n P w1 w' → writes_only n P w w'.
Proof. intros [= Ho _]. unfold writes_only. by rewrite Ho. Qed.

Lemma advance_effect op w res w' :
  op_inv g op → IsTerminal (St_Phase (Op_Status op)) = false → St_Phase (Op_Status op) ≠ "" →
  advance r op w = (res, w') →
  writes_only (Op_Name op) (λ cur o, op_inv g o ∧
    (DisableFencing g = false → St_Epoch (Op_Status cur) <= St_Epoch (Op_Status o))) w w'.
Proof.
  intros Hi Ht Hne E. unfold advance in E.
  pose proof (step_post_holds r Hr op Hi Ht Hne) as Hpost. pose proof (step_keeps r Hr op w) as Hk.
  apply bind_try_inv in E as (sr & w1 & Es & E). rewrite Es in Hk. simpl in Hk.
  destruct sr as [[[next sres] op']|e]; [|munfold; simplify_eq; unchanged].
  destruct (Hpost _ _ _ Es) as (Hinv & Hn & _). simpl in Hinv, Hn.
  assert (Hset : (if negb (bool_decide (next = "")) then on_status (set_phase next) op' else op')
                 = settle next op') by (unfold settle; by case_bool_decide).
  rewrite Hset in E. clear Hset.
  apply (writes_only_view _ _ _ w1); [done|].
  apply bind_inv in E as [(u & w2 & Erel & E)|(e & Erel & _)].
  2: { destruct (_ && _ && _) in Erel; unfold try, mret, M_ret in Erel;
         [destruct (leases_release _ _ _ w1)|]; discriminate Erel. }
  assert (ops_view w2 = ops_view w1) as Hw2.
  { revert Erel. destruct (_ && _ && _); apply keeps_run; [apply keeps_try, release_keeps; done|apply keeps_ret]. }
  apply (writes_only_view _ _ _ w2); [done|]. rewrite <-Hn.
  destruct (writeStatus r (settle next op') w2) as [wr w3] eqn:Ew.
  assert (w' = w3) as ->.
  { apply bind_inv in E as [(? & ? & E1 & E2)|(? & E1 & _)]; unfold mret, M_ret in *; congruence. }
  replace (Op_Name op') with (Op_Name (settle next op')) by (unfold settle; by case_bool_decide).
  by eapply writeStatus_effect.
Qed.

Lemma loseLease_inv op :
  op_inv g op → IsTerminal (St_Phase (Op_Status op)) = false → op_inv g (loseLease op).
Proof.
  intros Hi Ht. pose proof (inv_attempts g op Hi Ht). unfold loseLease. inv_fields.
Qed.

Lemma Reconcile_effect n w res w' :
  all_inv w → Reconcile r n w = (res, w') →
  writes_only n (λ cur o, op_inv g o ∧ IsTerminal (St_Phase (Op_Status cur)) = false ∧
    (DisableFencing g = false → St_Epoch (Op_Status cur) <= St_Epoch (Op_Status o))) w w'.
Proof.
  intros Hall E. unfold Reconcile in E. apply bind_try_inv in E as (got & w1 & Eg & E).
  apply op_get_law in Eg as [Hv Hg]. destruct got as [op|e].
  2: { unfold mret, M_ret, throw in E. destruct (is_not_found e); simplify_eq; unchanged. }
  revert E.
  set (op1 := if bool_decide (_ = "") then _ else _).
  destruct (ops_of_law w n op Hg) as [Hname _].
  assert (Hop1 : op_inv g op1 ∧ Op_Name op1 = n ∧ St_Phase (Op_Status op1) ≠ "" ∧
    IsTerminal (St_Phase (Op_Status op1)) = IsTerminal (St_Phase (Op_Status op))).
  { specialize (Hall n op Hg). unfold op1. case_bool_decide as Ep; [|done].
    split_and!; [|done|done|by rewrite Ep].
    pose proof (inv_attempts g op Hall) as Ha. rewrite Ep in Ha. specialize (Ha eq_refl). inv_fields. }
  clearbody op1. destruct Hop1 as (Hi & Hn1 & Hne & Hterm). rewrite Hterm.
  destruct (IsTerminal (St_Phase (Op_Status op))) eqn:Ht.
  { unfold mret, M_ret. intros; simplify_eq; unchanged. }
  assert (Hstrong : ∀ w2, ops_view w2 = ops_view w →
    writes_only n (λ cur o, op_inv g o ∧
      (DisableFencing g = false → St_Epoch (Op_Status cur) <= St_Epoch (Op_Status o))) w2 w' →
    writes_only n (λ cur o, op_inv g o ∧ IsTerminal (St_Phase (Op_Status cur)) = false ∧
      (DisableFencing g = false → St_Epoch (Op_Status cur) <= St_Epoch (Op_Status o))) w w').
  { intros w2 Hw2 Hwr. apply (writes_only_view _ _ w) in Hwr; [|done].
    destruct Hwr as [?|(cur & o & Hc & ? & [? ?] & ?)]; [by left|right].
    exists cur, o. assert (cur = op) as -> by congruence. split_and!; done. }
  rewrite <-Hn1. rewrite <-Hn1 in Hstrong. clear Hn1 Hg Hname.
  destruct (_ && _).
  - intros (a & w2 & Ea & E)%bind_try_inv.
    pose proof (acquire_keeps r Hr (Spec_NodeName (Op_Spec op1)) (Op_Name op1) w1) as Hk.
    rewrite Ea in Hk. simpl in Hk. destruct a as [[[] expiry]|ea].
    + apply (Hstrong w2); [congruence|]. apply advance_effect in E; [done|..]; try done.
      destruct Hi. by constructor.
    + apply (Hstrong w2); [congruence|].
      destruct (writeStatus r (loseLease op1) w2) as [wr w3] eqn:Ew.
      assert (w' = w3) as ->.
      { apply bind_inv in E as [(? & ? & E1 & E2)|(? & E1 & _)]; unfold mret, M_ret in *; congruence. }
      eapply writeStatus_effect in Ew; [done|]. apply loseLease_inv; [done|by rewrite Hterm].
    + unfold mret, M_ret in E. left. apply view_ops. congruence.
  - intros E. apply (Hstrong w1); [done|]. apply advance_effect in E; done.
Qed.
End Pass.

(** C1. Every pass, whatever the participants, the verifier and the API server
    answer, keeps the invariant of all stored operations: a phase that touches
    hardware is entered only with the node lease, a snapshot and a journalled
    [ApplyStarted]; [Succeeded] only with [VerifyStarted] and [Committed]
    journalled; fewer than three compensation attempts before the end.  It
    writes only the operation it is about, never a terminal one, and never
    takes its epoch back. *)
Theorem Reconcile_keeps_invariant {W} `{LeavesOperations W} `{MapRange}
    (r : AcceleratorOperationReconciler W) (Hr : reconciler_ok r) n w res w'
    (Hinv : all_inv r w) (Hrun : Reconcile r n w = (res, w')) :
  all_inv r w' ∧
  (∀ m, m ≠ n → ops_of w' !! m = ops_of w !! m) ∧
  (∀ o, ops_of w !! n = Some o → ∃ o', ops_of w' !! n = Some o' ∧
     (IsTerminal (St_Phase (Op_Status o)) = true → o' = o) ∧
     (DisableFencing (Rc_Gates r) = false → St_Epoch (Op_Status o) <= St_Epoch (Op_Status o'))).
Proof.
  destruct (Reconcile_effect r Hr n w res w' Hinv Hrun) as [E|(cur & o & Hc & Hn & (Hi & Ht & He) & E)].
  - unfold all_inv. rewrite E. split_and!; [exact Hinv|done|]. intros o Ho. exists o. split_and!; [done..|lia].
  - unfold all_inv. rewrite E. split_and!.
    + intros m o' [[<- <-]|[_ Ho]]%lookup_insert_Some; [done|by eapply Hinv].
    + intros m Hm. by rewrite lookup_insert_ne.
    + intros o0 Ho0. assert (o0 = cur) as -> by congruence. exists o.
      rewrite lookup_insert_eq, Ht. done.
Qed.

(** ** Hardware only under a renewed lease *)

(** The same controller with nobody to act on the hardware. *)
Definition without_participants {W} (r : AcceleratorOperationReconciler W) :=
  mkReconciler ∅ (Rc_Leases r) (Rc_LeaseNow r) (Rc_Verification r) (Rc_Gates r) (Rc_Now r).

(** This pass found the operation's lease renewed. *)
Definition renewed {W} `{OperationAPI W} `{LeaseAPI W} `{Clock W}
    (r : AcceleratorOperationReconciler W) (n : string) (w : W) : Prop :=
  ∃ op w1 e w2, op_get n w = (inl op, w1) ∧
    leases_acquire r (Spec_NodeName (Op_Spec op)) (Op_Name op) w1 = (inl (true, e), w2).

Lemma step_without_participants {W} `{OperationAPI W} `{LeaseAPI W} `{VerifyAPI W} `{Clock W} `{MapRange}
    (r : AcceleratorOperationReconciler W) op :
  contains_string holding_phases (St_Phase (Op_Status op)) = false →
  step r op = step (without_participants r) op.
Proof.
  intros Hp.
  assert (Hne : ∀ p, contains_string holding_phases p = true → St_Phase (Op_Status op) ≠ p).
  { intros p Hc E. rewrite E in Hp. congruence. }
  assert (contains_string [OpPhaseApplying; OpPhaseWaitingForReboot] (St_Phase (Op_Status op)) = false) as Ha.
  { apply not_true_is_false. rewrite contains_string_true. intros E. set_unfold in E.
    destruct E as [E|[E|[]]]; by apply Hne in E. }
  unfold step. rewrite Ha. clear Ha.
  destruct (contains_string [OpPhasePending; OpPhaseBlocked] _); [done|].
  destruct (bool_decide (St_Phase (Op_Status op) = OpPhasePlanning)); [done|].
  by rewrite !(bool_decide_eq_false_2 (St_Phase (Op_Status op) = _)) by by apply Hne.
Qed.

Lemma advance_without_participants {W} `{OperationAPI W} `{LeaseAPI W} `{VerifyAPI W} `{Clock W} `{MapRange}
    (r : AcceleratorOperationReconciler W) op :
  contains_string holding_phases (St_Phase (Op_Status op)) = false →
  advance r op = advance (without_participants r) op.
Proof. intros Hp. unfold advance. by rewrite (step_without_participants r op Hp). Qed.

(** C7. The hardware is touched only under the lease: unless the pass renewed
    the node lease for this operation, it runs exactly as it would with no
    participant registered. *)
Theorem hardware_only_under_lease {W} `{LeavesOperations W} `{MapRange}
    (r : AcceleratorOperationReconciler W) n w
    (Hgate : DisableLease (Rc_Gates r) = false) (Hinv : all_inv r w) (Hlost : ¬ renewed r n w) :
  Reconcile r n w = Reconcile (without_participants r) n w.
Proof.
  unfold Reconcile. rewrite !bind_try. destruct (op_get n w) as [[op|e] w1] eqn:Eg; [|done].
  cbn [fst snd].
  pose proof (op_get_law _ _ _ _ Eg) as [_ Hg]. pose proof (Hinv n op Hg) as Hi.
  set (op1 := if bool_decide (_ = "") then _ else _).
  assert (Hop1 : Op_Name op1 = Op_Name op ∧ Op_Spec op1 = Op_Spec op ∧
    (contains_string holding_phases (St_Phase (Op_Status op1)) = true →
     St_LeaseHolder (Op_Status op1) = Op_Name op1)).
  { unfold op1. case_bool_decide; [|by split_and!; try done; apply (inv_holder _ _ Hi)].
    split_and!; [done..|]. intros Hc. vm_compute in Hc. discriminate Hc. }
  clearbody op1. destruct Hop1 as (En & Es & Hh). cbn [Rc_Gates without_participants]. rewrite Hgate.
  destruct (IsTerminal _); [done|].
  destruct (bool_decide (_ = Op_Name op1)) eqn:Eb; cbn [andb negb].
  - replace (leases_acquire (without_participants r)) with (leases_acquire r) by done.
    rewrite !bind_try. destruct (leases_acquire r _ _ w1) as [[[[] e]|e] w2] eqn:Ea; [|done|done].
    exfalso. apply Hlost. rewrite Es, En in Ea. by exists op, w1, e, w2.
  - rewrite advance_without_participants; [done|]. apply not_true_is_false. intros Hc. bool_prop. auto.
Qed.

(** ** A world in memory, to run the controller

    One stored operation, the leases of [OperationLease] and the cluster of
    [Verifier]; the n-th stored version has resourceVersion n. *)

Record MemWorld := mkWorld {
  Mw_Name : string;
  Mw_Spec : AcceleratorOperationSpec;
  Mw_Status : AcceleratorOperationStatus;
  Mw_Version : nat;
  Mw_Leases : MemLeases;
  Mw_Cluster : MemCluster;
}.
Definition stored_op (w : MemWorld) : AcceleratorOperation :=
  mkOperation (Mw_Name w) 1 (pretty (Mw_Version w)) 0 (Mw_Spec w) (Mw_Status w).
Definition put_leases (l : MemLeases) (w : MemWorld) : MemWorld :=
  mkWorld (Mw_Name w) (Mw_Spec w) (Mw_Status w) (Mw_Version w) l (Mw_Cluster w).
Definition put_cluster (c : MemCluster) (w : MemWorld) : MemWorld :=
  mkWorld (Mw_Name w) (Mw_Spec w) (Mw_Status w) (Mw_Version w) (Mw_Leases w) c.
Definition on_leases {A} (m : M MemLeases A) : M MemWorld A := zoom Mw_Leases put_leases m.
Definition on_cluster {A} (m : M MemCluster A) : M MemWorld A := zoom Mw_Cluster put_cluster m.

#[export] Instance world_operations : OperationAPI MemWorld := {|
  op_get n w := if bool_decide (n = Mw_Name w) then (inl (stored_op w), w)
                else (inr (mkErr KNotFound "not found"), w);
  op_list w := (inl [stored_op w], w);
  op_status_update o w :=
    if bool_decide (Op_Name o = Mw_Name w) then
      if bool_decide (Op_ResourceVersion o = pretty (Mw_Version w)) then
        (inl (), mkWorld (Mw_Name w) (Mw_Spec w) (Op_Status o) (S (Mw_Version w)) (Mw_Leases w) (Mw_Cluster w))
      else (inr (mkErr KConflict "conflict"), w)
    else (inr (mkErr KNotFound "not found"), w);
|}.
#[export] Instance world_leases : LeaseAPI MemWorld := {|
  lease_get k := on_leases (lease_get k); lease_create l := on_leases (lease_create l);
  lease_update l := on_leases (lease_update l); lease_delete l := on_leases (lease_delete l) |}.
#[export] Instance world_verify : VerifyAPI MemWorld := {|
  node_get n := on_cluster (node_get n); report_get n := on_cluster (report_get n);
  policy_list := on_cluster policy_list; evidence_get n := on_cluster (evidence_get n);
  evidence_create e := on_cluster (evidence_create e);
  evidence_status_update e := on_cluster (evidence_status_update e);
  evidence_records_inc a b := on_cluster (evidence_records_inc a b) |}.
#[export] Instance world_clock : Clock MemWorld := {|
  time_now w := let (t, c) := time_now (Mw_Cluster w) in (t, put_cluster c w) |}.

#[export] Instance world_laws : OperationAPILaws MemWorld.
Proof.
  refine {| ops_of w := {[Mw_Name w := stored_op w]};
            revs_of w := list_to_set (pretty <$> seq 0 (S (Mw_Version w))) |}.
  - intros w n o [<- <-]%lookup_singleton_Some. split; [done|].
    unfold stored_op; cbn [Op_ResourceVersion]. rewrite elem_of_list_to_set, list_elem_of_fmap. exists (Mw_Version w). split; [done|].
    apply elem_of_seq. lia.
  - intros n w r w' E. cbn in E. case_bool_decide as En; simplify_eq.
    + split; [done|]. apply lookup_singleton_eq.
    + split; [done|]. intros _. by apply lookup_singleton_ne.
  - intros w r w' E. cbn in E. simplify_eq. split; [done|]. intros l [= <-] o.
    rewrite list_elem_of_singleton, lookup_singleton_Some. naive_solver.
  - intros o w r w' E. cbn in E. case_bool_decide as En; [case_bool_decide as Ev|]; simplify_eq.
    + right. exists (stored_op w), (pretty (S (Mw_Version w))). split_and!.
      * rewrite En. apply lookup_singleton_eq.
      * done.
      * rewrite elem_of_list_to_set, list_elem_of_fmap. intros (i & Hi%(inj pretty) & Hs).
        apply elem_of_seq in Hs. lia.
      * cbn [Mw_Version]. rewrite (seq_S (S (Mw_Version w))), fmap_app, list_to_set_app_L. set_solver.
      * rewrite En. symmetry. apply insert_singleton_eq.
    + by left.
    + by left.
Defined.

Lemma world_lookup (w : MemWorld) : ops_of w !! Mw_Name w = Some (stored_op w).
Proof. exact (lookup_singleton_eq (M := gmap string) (Mw_Name w) (stored_op w)). Qed.

Lemma on_leases_keeps {A} (m : M MemLeases A) : keeps ops_view (on_leases m).
Proof. intros w. unfold on_leases, zoom. by destruct (m _). Qed.
Lemma on_cluster_keeps {A} (m : M MemCluster A) : keeps ops_view (on_cluster m).
Proof. intros w. unfold on_cluster, zoom. by destruct (m _). Qed.
#[export] Instance world_frame : LeavesOperations MemWorld.
Proof. split; intros; try apply on_leases_keeps; try apply on_cluster_keeps. done. Qed.

(** A partition job that applies at once and cannot be compensated. *)
Definition demo_participant : Participant MemWorld := mkParticipant
  (λ op, mret (mkOutcome EventApplyDone "partitioned" 0, op))
  (λ _, throw (errorf "device busy"))
  (λ _, mret (mkRequest "w1" "nvidia" "acpp-a" 3
     (mkExpectation "quarter" 4 "4x1g.6gb" {["nvidia.com/mig-1g.6gb" := 4]} "")
     {["0000:01:00.0" := "4x1g.6gb"]} ∅ [] "" 0 false, true)).
Definition demo_reconciler : AcceleratorOperationReconciler MemWorld :=
  mkReconciler {[PartitionReconfigure := demo_participant]} (mkLeaseManager "kcloud" 0) None
    (Some (mkVerifier None None)) zero_gates None.
Definition demo_status (phase : string) : AcceleratorOperationStatus :=
  mkOpStatus phase 1 "op-a" (Some (2 * hour))
    [mkEntry StepLeaseAcquired 1 hour "epoch 1"; mkEntry StepApplyStarted 1 hour ""]
    (Some (mkSnapshot ∅ ∅ "" "boot-1" false)) "" "" 0 0 1.
(** The operation in a phase, its node lease held by [holder]. *)
Definition demo_world (phase holder : string) (at_ : Z) : MemWorld :=
  mkWorld "op-a"
    (mkOperationSpec PartitionReconfigure "w1" "nvidia" "tx-1" (mkOperationOwner "" "" "" 0)
       [DevicePartitionKey "0000:01:00.0"])
    (demo_status phase) 7
    (mkMem {[("kcloud", "kcloud-node-w1") :=
       mkLease "kcloud" "kcloud-node-w1" 1 (Some holder) (Some 60) (Some hour) (Some hour)]} 1)
    (mkMemCluster
       {["w1" := mkNode "w1" ∅ ∅ false {["nvidia.com/mig-1g.6gb" := 4]} [] "boot-1" "6.8" None]}
       {["w1" := mkNDR "w1" [demo_device] (Some (mkValidationStatus true [])) None]} [] ∅ at_).

Lemma demo_reconciler_ok : reconciler_ok demo_reconciler.
Proof.
  split; [|done|done|by intros v [= <-]|by intros v f a b c [= <-]].
  intros t p Hp. assert (p = demo_participant) as ->.
  { by destruct (proj1 (lookup_singleton_Some PartitionReconfigure t demo_participant p) Hp). }
  split; intros op; [|apply keeps_ret|apply keeps_throw|apply keeps_ret].
  intros w [out op'] w' [= <- <- <-]. exists (St_Journal (Op_Status op)).
  split; [by destruct op as [????? []]|done].
Qed.

Lemma demo_inv phase holder at_ :
  phase ∈ [OpPhasePending; OpPhaseApplying; OpPhaseRollingBack] →
  all_inv demo_reconciler (demo_world phase holder at_).
Proof.
  intros Hp n o Ho. assert (o = stored_op (demo_world phase holder at_)) as ->.
  { symmetry. apply (proj1 (lookup_singleton_Some _ _ _ _) Ho). }
  clear Ho. set_unfold in Hp.
  destruct Hp as [-> | [-> | [-> | []]]]; constructor; simpl; intros; try done; decided_phases.
Qed.

Lemma Reconcile_keeps_invariant_witness :
  let (res, w') := Reconcile demo_reconciler "op-a" (demo_world OpPhaseApplying "op-a" hour) in
  St_Phase (Mw_Status w') = OpPhaseVerifying ∧ all_inv demo_reconciler w'.
Proof.
  destruct (Reconcile _ _ _) as [res w'] eqn:E. split.
  - vm_compute in E. by injection E as _ <-.
  - destruct (Reconcile_keeps_invariant demo_reconciler demo_reconciler_ok "op-a"
      (demo_world OpPhaseApplying "op-a" hour) res w') as [H _]; [|exact E|exact H].
    apply demo_inv. set_solver.
Defined.

Lemma hardware_only_under_lease_witness :
  let w := demo_world OpPhaseApplying "op-b" hour in
  Reconcile demo_reconciler "op-a" w = Reconcile (without_participants demo_reconciler) "op-a" w ∧
  St_Phase (Mw_Status (Reconcile demo_reconciler "op-a" w).2) = OpPhasePlanning.
Proof.
  intros w. split; [|vm_compute; reflexivity].
  apply (hardware_only_under_lease demo_reconciler "op-a" w); [reflexivity|apply demo_inv; set_solver|].
  intros (op & w1 & e & w2 & E1 & E2). vm_compute in E1. injection E1 as <- <-.
  vm_compute in E2. discriminate E2.
Defined.
