(* ===== verification/OperationProgress.v ===== *)
(** * Progress of the transaction driver

    How long an operation can stay in the phases that wait for a participant:
    the 20-minute bound on applying, the bound on compensation attempts, and
    the error path that escapes the second. *)

From stdpp Require Import relations.
From S2P Require Import Prelude GoStrings GoTime OperationModel ApiTypes OperationStateMachine OperationJournal OperationLease VerificationPolicy VerificationAgreement Verifier OperationController OperationSafety.

(** ** Applying *)

(** The participant reports no progress: nothing, or a reboot still going on. *)
Definition no_progress (phase : string) (out : Outcome) : Prop :=
  Out_Event out = "" ∨ (phase = OpPhaseWaitingForReboot ∧ Out_Event out = EventRebootRequired).

Lemma requeueOr_pos d : 0 < requeueOr d.
Proof. unfold requeueOr. destruct (d <=? 0) eqn:E; bool_prop; [done|lia]. Qed.

Lemma applyStalled_run {W} `{Clock W} (r : AcceleratorOperationReconciler W) op w t0 t w' :
  applyStartedAt (St_Journal (Op_Status op)) = Some t0 → clock_of (Rc_Now r) w = (inl t, w') →
  applyStalled r op w = (inl (bool_decide (t0 + maxApplyDuration <= t)), w').
Proof.
  intros Hs Hc. unfold applyStalled. rewrite Hs. erewrite bind_inl by exact Hc.
  unfold mret, M_ret. do 2 f_equal.
  apply eq_iff_eq_true. rewrite Z.leb_le, bool_decide_eq_true, time_sub_ge; [lia|done].
Qed.

Lemma step_applying {W} `{OperationAPI W} `{LeaseAPI W} `{VerifyAPI W} `{Clock W} `{MapRange}
    (r : AcceleratorOperationReconciler W) op : being_applied op → step r op = stepApply r op.
Proof.
  intros Hp. unfold step. rewrite Hp. apply contains_string_true in Hp. set_unfold in Hp.
  by destruct Hp as [-> | [-> | []]].
Qed.

(** C38. An apply that reports no progress is bounded: the pass answers, and it
    moves the operation to [ManualRecoveryRequired] exactly when 20 minutes have
    passed since the journalled [ApplyStarted]; until then it stays in place
    and asks to be called again after a positive delay. *)
Theorem apply_is_bounded {W} `{OperationAPI W} `{LeaseAPI W} `{VerifyAPI W} `{Clock W} `{MapRange}
    (r : AcceleratorOperationReconciler W) op p out op' t0 t w w1 w2
    (Hphase : being_applied op)
    (Hp : For (Rc_Participants r) (Spec_Type (Op_Spec op)) = Some p)
    (Happly : Pa_Apply p op w = (inl (out, op'), w1))
    (Hgrows : journal_grows op op')
    (Hquiet : no_progress (St_Phase (Op_Status op)) out)
    (Hstart : applyStartedAt (St_Journal (Op_Status op')) = Some t0)
    (Hclock : clock_of (Rc_Now r) w1 = (inl t, w2)) :
  ∃ next res op2, step r op w = (inl (next, res, op2), w2) ∧
    (t0 + maxApplyDuration <= t → next = OpPhaseManualRecoveryRequired) ∧
    (t < t0 + maxApplyDuration → next = "" ∧ 0 < RequeueAfter res).
Proof.
  rewrite (step_applying r op Hphase). unfold stepApply. rewrite Hp.
  erewrite bind_inl by exact Happly. destruct Hgrows as (j & -> & _). simpl in Hstart.
  set (op1 := on_status (set_message _) _).
  assert (Hstalled : ∀ o, St_Journal (Op_Status o) = j →
    applyStalled r o w1 = (inl (bool_decide (t0 + maxApplyDuration <= t)), w2)).
  { intros o <-. by apply applyStalled_run. }
  assert (Hone : ∀ (a b : StepResult) o, St_Journal (Op_Status o) = j →
    a.1.1 = OpPhaseManualRecoveryRequired → b.1.1 = "" ∧ 0 < RequeueAfter b.1.2 →
    ∃ next res op2, (stalled ← applyStalled r o; if (stalled : bool) then mret a else mret b) w1
       = (inl (next, res, op2), w2) ∧
      (t0 + maxApplyDuration <= t → next = OpPhaseManualRecoveryRequired) ∧
      (t < t0 + maxApplyDuration → next = "" ∧ 0 < RequeueAfter res)).
  { intros [[an ar] ao] [[bn br] bo] o Ho Ha Hb. erewrite bind_inl by by apply Hstalled.
    simpl in Ha, Hb. case_bool_decide; do 3 eexists; (split; [reflexivity|split; [auto; lia|auto; lia]]). }
  assert (Hho : Out_Event out = "" → ∀ o, St_Journal (Op_Status o) = j →
    ∃ next res op2, handleOutcome r out o w1 = (inl (next, res, op2), w2) ∧
      (t0 + maxApplyDuration <= t → next = OpPhaseManualRecoveryRequired) ∧
      (t < t0 + maxApplyDuration → next = "" ∧ 0 < RequeueAfter res)).
  { intros He o Ho. unfold handleOutcome. rewrite (bool_decide_eq_true_2 _ He).
    apply Hone; [done|done|split; [done|apply requeueOr_pos]]. }
  destruct (bool_decide (St_Phase (Op_Status op1) = OpPhaseWaitingForReboot)) eqn:Ew; bool_prop.
  - destruct Hquiet as [He|[_ He]].
    + rewrite !bool_decide_eq_false_2 by (rewrite He; discriminate). by apply Hho.
    + rewrite bool_decide_eq_false_2 by (rewrite He; discriminate).
      rewrite (bool_decide_eq_true_2 _ He). by apply Hone.
  - destruct Hquiet as [He|[Hw _]]; [by apply Hho|done].
Qed.

Lemma apply_is_bounded_witness :
  let w := demo_world OpPhaseApplying "op-a" (hour + 21 * minute) in
  let p := mkParticipant (λ op, mret (mkOutcome "" "draining" 0, op))
             (Pa_Rollback demo_participant) (Pa_VerifyRequest demo_participant) in
  let r := mkReconciler {[PartitionReconfigure := p]} (Rc_Leases demo_reconciler) None None zero_gates None in
  ∃ res op2 w2, step r (stored_op w) w = (inl (OpPhaseManualRecoveryRequired, res, op2), w2).
Proof.
  intros w p r.
  destruct (apply_is_bounded r (stored_op w) p (mkOutcome "" "draining" 0) (stored_op w) hour
    (hour + 21 * minute) w w (clock_of None w).2) as (next & res & op2 & Hs & Hm & _);
    [vm_compute; reflexivity|reflexivity|reflexivity| |by left|reflexivity|reflexivity|].
  - exists (St_Journal (demo_status OpPhaseApplying)). split; [reflexivity|done].
  - rewrite Hm in Hs by (vm_compute; discriminate). eauto.
Defined.

(** ** Compensation *)

(** [k] passes in a row over the same operation. *)
Fixpoint passes {W} `{OperationAPI W} `{LeaseAPI W} `{VerifyAPI W} `{Clock W} `{MapRange}
    (r : AcceleratorOperationReconciler W) (n : string) (k : nat) (w : W) : W :=
  match k with O => w | S k => passes r n k (Reconcile r n w).2 end.

(** How many compensation attempts are left. *)
Definition attempts_left (op : AcceleratorOperation) : Z :=
  maxRollbackAttempts - St_RollbackAttempts (Op_Status op).

Lemma step_rolling_back {W} `{OperationAPI W} `{LeaseAPI W} `{VerifyAPI W} `{Clock W} `{MapRange}
    (r : AcceleratorOperationReconciler W) op :
  St_Phase (Op_Status op) = OpPhaseRollingBack → step r op = stepRollback r op.
Proof. intros Hp. unfold step. by rewrite Hp. Qed.

(** Compensation is bounded as long as the participant answers: a pass in
    [RollingBack] that gets an answer either ends the operation or uses up one
    of the attempts left, and at least one is left when it stays. *)
Theorem answered_compensation_is_bounded {W} `{LeavesOperations W} `{MapRange}
    (r : AcceleratorOperationReconciler W) op w next res op' w'
    (Hinv : op_inv (Rc_Gates r) op) (Hphase : St_Phase (Op_Status op) = OpPhaseRollingBack)
    (Hstep : step r op w = (inl (next, res, op'), w')) :
  IsTerminal next = true ∨
  (next = "" ∧ attempts_left op' = attempts_left op - 1 ∧ 0 < attempts_left op' ∧ 0 < RequeueAfter res).
Proof.
  rewrite (step_rolling_back r op Hphase) in Hstep. unfold attempts_left.
  assert (0 <= St_RollbackAttempts (Op_Status op) < maxRollbackAttempts) as Ha.
  { apply Hinv. by rewrite Hphase. }
  assert (wrap32 (St_RollbackAttempts (Op_Status op) + 1) = St_RollbackAttempts (Op_Status op) + 1) as Hw.
  { apply wrap32_id. unfold is_int32, min_int32, max_int32, maxRollbackAttempts in *. lia. }
  assert (Hy : yields (stepRollback r op) (λ '(next, res, op'), IsTerminal next = true ∨
    (next = "" ∧ St_RollbackAttempts (Op_Status op') = St_RollbackAttempts (Op_Status op) + 1 ∧
     St_RollbackAttempts (Op_Status op') < maxRollbackAttempts ∧ 0 < RequeueAfter res))).
  { unfold stepRollback. destruct (For _ _) as [p|]; [|by apply yields_ret; left].
    apply yields_journal. intros j _ _. apply yields_then. intros out.
    destruct (bool_decide (Out_Event out = EventCompensated)).
    { apply yields_journal. intros j' _ _. apply yields_ret. by left. }
    destruct (_ || _) eqn:E; apply yields_ret; [by left|right].
    apply orb_false_iff in E as [_ E]. simpl in *. bool_prop. rewrite Hw in *.
    split_and!; [done|done|lia|apply requeueOr_pos]. }
  apply Hy in Hstep as [?|(? & ? & ? & ?)]; [by left|right]. split_and!; [done|lia|lia|done].
Qed.

Lemma answered_compensation_is_bounded_witness :
  let w := demo_world OpPhaseRollingBack "op-a" hour in
  let p := mkParticipant (Pa_Apply demo_participant) (λ _, mret (mkOutcome "" "resetting" 0))
             (Pa_VerifyRequest demo_participant) in
  let r := mkReconciler {[PartitionReconfigure := p]} (Rc_Leases demo_reconciler) None None zero_gates None in
  ∃ res op' w', step r (stored_op w) w = (inl ("", res, op'), w') ∧ 0 < attempts_left op'.
Proof.
  intros w p r. destruct (step r (stored_op w) w) as [[[[next res] op']|e] w'] eqn:E.
  2: { exfalso. vm_compute in E. discriminate E. }
  assert (next = "") as -> by (vm_compute in E; by injection E as <- _ _ _).
  exists res, op', w'. split; [reflexivity|].
  destruct (answered_compensation_is_bounded r (stored_op w) w "" res op' w') as [Ht|(_ & _ & H & _)].
  - apply (demo_inv OpPhaseRollingBack "op-a" hour ltac:(set_solver) "op-a"). apply world_lookup.
  - reflexivity.
  - exact E.
  - discriminate Ht.
  - exact H.
Defined.

(** A pass whose compensation fails changes no stored operation. *)
Lemma failing_pass {W} `{LeavesOperations W} `{MapRange} (r : AcceleratorOperationReconciler W) n op p w
    (Hr : reconciler_ok r)
    (Hphase : St_Phase (Op_Status op) = OpPhaseRollingBack)
    (Hp : For (Rc_Participants r) (Spec_Type (Op_Spec op)) = Some p)
    (Hfail : ∀ o v, ∃ e v', Pa_Rollback p o v = (inr e, v'))
    (Hop : ops_of w !! n = Some op) (Hren : renewed r n w) :
  ops_of (Reconcile r n w).2 = ops_of w.
Proof.
  destruct Hren as (op0 & w1 & x & w2 & Eg & Ea). pose proof (op_get_law _ _ _ _ Eg) as [Hv Hg].
  assert (op0 = op) as -> by congruence. apply view_ops in Hv.
  pose proof (keeps_run _ _ _ _ _ (acquire_keeps r Hr _ _) Ea) as Hk. apply view_ops in Hk.
  assert (Hadv : ∀ o v, Op_Spec o = Op_Spec op → St_Phase (Op_Status o) = OpPhaseRollingBack →
    ops_of (advance r o v).2 = ops_of v).
  { intros o v Hs Ho. unfold advance. rewrite bind_try.
    pose proof (step_keeps r Hr o v) as Hst. apply view_ops in Hst.
    assert (He : ∃ e, (step r o v).1 = inr e).
    { rewrite (step_rolling_back r o Ho). unfold stepRollback. rewrite Hs, Hp.
      destruct ((journal r StepRollbackStarted "" o ≫= _) v) as [[sr|e] v'] eqn:E; [|by exists e].
      exfalso. apply bind_inl_inv in E as (o1 & v1 & _ & E). apply bind_inl_inv in E as (out & v2 & E & _).
      match type of E with Pa_Rollback _ ?o' _ = _ => destruct (Hfail o' v1) as (e & v3 & Hf) end.
      rewrite Hf in E. discriminate E. }
    destruct He as [e He]. destruct (step r o v) as [sr v']. simpl in He, Hst. by subst sr. }
  unfold Reconcile. rewrite bind_try, Eg. cbn [fst snd].
  rewrite bool_decide_eq_false_2 by (by rewrite Hphase).
  replace (IsTerminal (St_Phase (Op_Status op))) with false by (by rewrite Hphase).
  destruct (_ && _).
  - rewrite bind_try, Ea. cbn [fst snd]. rewrite Hadv by done. congruence.
  - rewrite Hadv by done. done.
Qed.

(** C39. The bound on compensation attempts does not cover a participant whose
    [Rollback] fails: the pass returns before the status is written, so the
    attempt is never counted, and as long as the lease is renewed the operation
    stays in [RollingBack] with the same count after any number of passes. *)
Theorem failing_compensation_is_never_counted {W} `{LeavesOperations W} `{MapRange}
    (r : AcceleratorOperationReconciler W) n op p k w
    (Hr : reconciler_ok r) (Hop : ops_of w !! n = Some op)
    (Hphase : St_Phase (Op_Status op) = OpPhaseRollingBack)
    (Hp : For (Rc_Participants r) (Spec_Type (Op_Spec op)) = Some p)
    (Hfail : ∀ o v, ∃ e v', Pa_Rollback p o v = (inr e, v'))
    (Hren : ∀ j, (j < k)%nat → renewed r n (passes r n j w)) :
  ops_of (passes r n k w) !! n = Some op.
Proof.
  revert w Hop Hren. induction k as [|k IH]; intros w Hop Hren; [done|]. simpl.
  pose proof (failing_pass r n op p w Hr Hphase Hp Hfail Hop (Hren 0%nat ltac:(lia))) as E.
  apply IH; [by rewrite E|]. intros j Hj. apply (Hren (S j)). lia.
Qed.

(** [renewed], as a test to run. *)
Definition renewedb {W} `{OperationAPI W} `{LeaseAPI W} `{Clock W}
    (r : AcceleratorOperationReconciler W) (n : string) (w : W) : bool :=
  match op_get n w with
  | (inl op, w1) =>
      match leases_acquire r (Spec_NodeName (Op_Spec op)) (Op_Name op) w1 with
      | (inl (true, _), _) => true
      | _ => false
      end
  | _ => false
  end.
Lemma renewedb_renewed {W} `{OperationAPI W} `{LeaseAPI W} `{Clock W}
    (r : AcceleratorOperationReconciler W) n w : renewedb r n w = true → renewed r n w.
Proof.
  unfold renewedb, renewed. destruct (op_get n w) as [[op|?] w1] eqn:E1; [|done].
  destruct (leases_acquire _ _ _ w1) as [[[[] e]|?] w2] eqn:E2; [|done|done]. intros _. eauto 8.
Qed.

Lemma failing_compensation_is_never_counted_witness :
  let w := demo_world OpPhaseRollingBack "op-a" hour in
  ops_of (passes demo_reconciler "op-a" 5 w) !! "op-a" = Some (stored_op w).
Proof.
  intros w.
  apply (failing_compensation_is_never_counted demo_reconciler "op-a" (stored_op w) demo_participant 5 w).
  - exact demo_reconciler_ok.
  - apply world_lookup.
  - reflexivity.
  - reflexivity.
  - intros o v. do 2 eexists. reflexivity.
  - intros j Hj. apply renewedb_renewed.
    do 5 (destruct j as [|j]; [vm_compute; reflexivity|]). lia.
Defined.

(** ** The epoch fence under interleaving

    Any number of processes write statuses of the same operations: each reads
    the stored operation once more ([fenceRead]), and later writes what it had
    computed ([fenceWrite]), with anything happening in between.  The stored
    epoch of an operation never goes back. *)

#[local] Open Scope Z_scope.

Section Fencing.
Context {W : Type} `{OperationAPILaws W} (r : AcceleratorOperationReconciler W).

(** The world, and the writers between their read and their write: the
    operation each wants to store and the answer it read. *)
Record fsys := mkFsys {
  fs_world : W;
  fs_pending : gmap nat (AcceleratorOperation * (AcceleratorOperation + GoErr));
}.

Inductive fstep : fsys → fsys → Prop :=
| f_read i op g w w' ps :
    ps !! i = None → fenceRead op w = (inl g, w') →
    fstep (mkFsys w ps) (mkFsys w' (<[i := (op, g)]> ps))
| f_write i op g x w w' ps :
    ps !! i = Some (op, g) → fenceWrite r op g w = (x, w') →
    fstep (mkFsys w ps) (mkFsys w' (delete i ps))
| f_crash i w ps : fstep (mkFsys w ps) (mkFsys w (delete i ps))
| f_other w w' ps : ops_view w' = ops_view w → fstep (mkFsys w ps) (mkFsys w' ps).

(** What a pending read still says about the store: the version it saw is an
    old one, or the stored operation is the one it saw. *)
Definition pending_ok (w : W) (op : AcceleratorOperation) (g : AcceleratorOperation + GoErr) : Prop :=
  ∀ fresh, g = inl fresh → Op_Name fresh = Op_Name op ∧ Op_ResourceVersion fresh ∈ revs_of w ∧
    ∀ cur, ops_of w !! Op_Name op = Some cur → Op_ResourceVersion cur = Op_ResourceVersion fresh →
      cur = fresh.
Definition fsys_inv (s : fsys) : Prop :=
  ∀ i op g, fs_pending s !! i = Some (op, g) → pending_ok (fs_world s) op g.

(** Operations stay, and their epochs only grow. *)
Definition epochs_grow (w w' : W) : Prop :=
  ∀ n o, ops_of w !! n = Some o →
    ∃ o', ops_of w' !! n = Some o' ∧ St_Epoch (Op_Status o) <= St_Epoch (Op_Status o').

#[global] Instance epochs_grow_preorder : PreOrder epochs_grow.
Proof.
  split.
  - intros w n o Ho. eauto with lia.
  - intros w1 w2 w3 H12 H23 n o (o2 & Ho2 & ?)%H12. apply H23 in Ho2 as (o3 & Ho3 & ?). eauto with lia.
Qed.

Lemma view_grow w w' : ops_view w' = ops_view w → epochs_grow w w'.
Proof. intros [= E _] n o Ho. rewrite E. eauto with lia. Qed.

Lemma pending_ok_view w w' op g : ops_view w' = ops_view w → pending_ok w op g → pending_ok w' op g.
Proof. intros [= Eo Er]. unfold pending_ok. by rewrite Eo, Er. Qed.

(** A write leaves what the other writers know true. *)
Lemma pending_ok_write w w' op g m rv o :
  rv ∉ revs_of w → revs_of w' = {[rv]} ∪ revs_of w → ops_of w' = <[m := o]> (ops_of w) →
  Op_ResourceVersion o = rv → pending_ok w op g → pending_ok w' op g.
Proof.
  intros Hrv Er Eo <- Hp fresh ->. destruct (Hp fresh eq_refl) as (Hn & Hin & Hcur).
  split_and!; [done|rewrite Er; set_solver|]. rewrite Eo.
  intros cur [[-> <-]|[_ Hc]]%lookup_insert_Some Heq; [|by apply Hcur].
  exfalso. apply Hrv. by rewrite Heq.
Qed.

Lemma fenceRead_ok op w g w' : fenceRead op w = (inl g, w') → ops_view w' = ops_view w ∧ pending_ok w op g.
Proof.
  unfold fenceRead, try. destruct (op_get _ w) as [x w1] eqn:E. intros [= -> ->].
  apply op_get_law in E as [Hv Hg]. split; [done|]. intros fresh ->.
  destruct (ops_of_law w _ _ Hg). split_and!; [done|done|]. intros cur Hc _.
  rewrite Hg in Hc. by injection Hc.
Qed.

Lemma fenceWrite_ok op g w x w' :
  DisableFencing (Rc_Gates r) = false → pending_ok w op g → fenceWrite r op g w = (x, w') →
  epochs_grow w w' ∧ ∀ op' g', pending_ok w op' g' → pending_ok w' op' g'.
Proof.
  intros Hf Hp E. unfold fenceWrite in E.
  assert (Hsame : ops_view w' = ops_view w →
    epochs_grow w w' ∧ ∀ op' g', pending_ok w op' g' → pending_ok w' op' g').
  { intros Hv. split; [by apply view_grow|intros op' g'; by apply pending_ok_view]. }
  destruct g as [fresh|e].
  2: { apply Hsame. destruct (is_not_found e); by injection E as _ <-. }
  rewrite Hf, andb_true_r in E. destruct (_ <? _) eqn:Ee.
  { apply Hsame. by injection E as _ <-. }
  bool_prop. apply op_status_update_law in E as [[_ Hv]|(cur & rv & Hc & Hrv & Hnew & Er & Eo)]; [auto|].
  simpl in Hc, Hrv, Eo. destruct (Hp fresh eq_refl) as (Hn & Hin & Hcur).
  assert (cur = fresh) as -> by auto. split.
  - intros n o Ho. rewrite Eo. destruct (decide (n = Op_Name op)) as [->|Hne].
    + rewrite lookup_insert_eq. eexists. split; [done|]. simpl. rewrite Hc in Ho. injection Ho as <-. lia.
    + rewrite lookup_insert_ne by done. eauto with lia.
  - intros op' g'. by eapply pending_ok_write.
Qed.

Lemma fstep_ok s s' :
  DisableFencing (Rc_Gates r) = false → fstep s s' → fsys_inv s →
  fsys_inv s' ∧ epochs_grow (fs_world s) (fs_world s').
Proof.
  intros Hf [i op g w w' ps Hi E|i op g x w w' ps Hi E|i w ps|w w' ps Hv] Hinv; unfold fsys_inv; simpl.
  - apply fenceRead_ok in E as [Hv Hg]. split; [|by apply view_grow].
    intros j op' g' [[<- [= <- <-]]|[_ Hj]]%lookup_insert_Some; eapply pending_ok_view; eauto.
  - destruct (fenceWrite_ok op g w x w' Hf (Hinv i op g Hi) E) as [Hg Hp]. split; [|done].
    intros j op' g' [_ Hj]%lookup_delete_Some. apply Hp. by apply (Hinv j).
  - split; [|done]. intros j op' g' [_ Hj]%lookup_delete_Some. by apply (Hinv j).
  - split; [|by apply view_grow]. intros j op' g' Hj. eapply pending_ok_view; [done|]. by apply (Hinv j).
Qed.
End Fencing.

(** C2. With the fence on, the stored epoch of an operation never decreases, in
    any interleaving of the status writes of any number of processes, stale or
    not, whatever operation values they computed, with crashes and other
    traffic between their read and their write. *)
Theorem fencing_keeps_epochs {W} `{OperationAPILaws W} (r : AcceleratorOperationReconciler W) w s
    (Hfence : DisableFencing (Rc_Gates r) = false)
    (Hreach : rtc (fstep r) (mkFsys w ∅) s) :
  epochs_grow w (fs_world s).
Proof.
  cut (fsys_inv s ∧ epochs_grow w (fs_world s)); [by intros [_ ?]|].
  revert Hreach. apply (rtc_ind_r (λ s, fsys_inv s ∧ epochs_grow w (fs_world s))).
  - split; [|reflexivity]. intros i op g Hi. simpl in Hi. by rewrite lookup_empty in Hi.
  - intros s1 s2 _ Hst [Hinv Hg]. destruct (fstep_ok r s1 s2 Hfence Hst Hinv) as [Hinv2 Hg2].
    split; [done|]. by etrans.
Qed.

(** The successor took the lease (epoch 2) while a process of epoch 1 was
    between its read and its write. *)
Lemma fencing_keeps_epochs_witness :
  let w := demo_world OpPhaseApplying "op-a" hour in
  let stale := stored_op w in
  let newer := on_status (set_epoch 2) stale in
  ∃ s, rtc (fstep demo_reconciler) (mkFsys w ∅) s ∧ epochs_grow w (fs_world s) ∧
    St_Epoch (Mw_Status (fs_world s)) = 2.
Proof.
  intros w stale newer.
  assert (Hrun : ∃ s, rtc (fstep demo_reconciler) (mkFsys w ∅) s ∧ St_Epoch (Mw_Status (fs_world s)) = 2).
  { eexists. split.
    - eapply rtc_l; [apply (f_read _ 1%nat stale (inl stale) w w); reflexivity|].
      eapply rtc_l; [apply (f_read _ 2%nat newer (inl stale) w w); reflexivity|].
      eapply rtc_l; [eapply (f_write _ 2%nat newer (inl stale)); reflexivity|].
      eapply rtc_l; [eapply (f_write _ 1%nat stale (inl stale)); reflexivity|].
      apply rtc_refl.
    - vm_compute. reflexivity. }
  destruct Hrun as (s & Hrun & He). exists s. split; [exact Hrun|]. split; [|exact He].
  apply (fencing_keeps_epochs demo_reconciler w s); [reflexivity|exact Hrun].
Defined.
