(* ===== verification/PolicyTypes.v ===== *)
(** * api/v1alpha1: health, partition policies, classes and workloads

    The fields of these CRD types that the health controller and the intent
    translation use.  [resource.Quantity] is apimachinery's: a class gives its
    value rounded up to an integer and its printed form. *)

From S2P Require Import Prelude GoStrings GoTime ApiTypes.

(** ** npuclusterpolicy_types.go: the label of a node that has the vendor's devices *)

Definition PresentNodeLabel (vendor : string) : string := "kcloud.ai/" +:+ vendor +:+ ".present".

(** ** accelerator_capability_axes.go *)

Definition IsolationNone : string := "none".
Definition IsolationProcess : string := "process".
Definition IsolationSubdevice : string := "subdevice".
Definition IsolationDevice : string := "device".
Definition IsolationHardware : string := "hardware".

Definition VerificationRequired : string := "required".
Definition VerificationVerified : string := "verified".
Definition VerificationNotApplicable : string := "notApplicable".

Definition AllocationAPIAuto : string := "auto".
Definition AllocationAPIDevicePlugin : string := "devicePlugin".
Definition AllocationAPIDRA : string := "dra".

Record SharingModeSupport := mkSharingModeSupport {
  Sms_Supported : bool; Sms_Verification : string; Sms_MaxReplicas : Z; Sms_Reason : string;
}.
Record SharingCapability := mkSharingCapability {
  Shc_TimeSlicing : SharingModeSupport;
  Shc_MultiProcess : SharingModeSupport;
  Shc_Brokered : SharingModeSupport;
}.
Record IsolationCapability := mkIsolationCapability {
  Iso_Compute : string; Iso_Memory : string; Iso_Fault : string;
}.

(** ** acceleratorpartitionpolicy_types.go *)

Definition SharingModeExclusive : string := "exclusive".
Definition SharingModeTimeSliced : string := "timeSliced".
Definition SharingModeMPS : string := "mps".
Definition SharingModeOversubscribed : string := "oversubscribed".
Definition ACPPPhaseReady : string := "Ready".

Record DeviceStatus := mkDeviceStatus {
  Dst_ID : string;
  Dst_PCIAddress : string;
  Dst_SharingCapability : SharingCapability;
  Dst_IsolationCapability : IsolationCapability;
}.
Record TargetStatus := mkTargetStatus {
  Tg_NodeName : string;
  Tg_Phase : string;
  Tg_Devices : list DeviceStatus;
  (** [ResolvedLayout], as the profiles of its entries *)
  Tg_ResolvedLayout : list string;
}.
Record ApplyRecord := mkApplyRecord { Ar_NodeName : string; Ar_SharingMode : string; Ar_SharingReplicas : Z }.
Record AcceleratorPartitionPolicy := mkPartitionPolicy {
  Pp_Name : string;
  Pp_Generation : Z;
  Pp_DeletionTimestamp : option Z;
  Pp_ObservedGeneration : Z;
  Pp_Targets : list TargetStatus;
  Pp_ApplyRecords : list ApplyRecord;
}.

(** ** acceleratorhealth_types.go *)

Record HealthSignal := mkHealthSignal {
  Hs_Name : string; Hs_Target : string; Hs_OK : bool; Hs_Message : string;
}.
#[global] Instance HealthSignal_eq_dec : EqDecision HealthSignal.
Proof. solve_decision. Defined.
Record DeviceHealth := mkDeviceHealth { Dh_PCIAddress : string; Dh_State : string; Dh_Reason : string }.
#[global] Instance DeviceHealth_eq_dec : EqDecision DeviceHealth.
Proof. solve_decision. Defined.
Record AcceleratorHealthStatus := mkHealthStatus {
  Hst_State : string;
  Hst_Reason : string;
  Hst_AllocationAllowed : bool;
  Hst_Signals : list HealthSignal;
  Hst_DetectedAt : Z;
  Hst_RecoveryOperationRef : string;
  Hst_RecoveryFailures : Z;
  Hst_SuspectedAt : option Z;
  Hst_Devices : list DeviceHealth;
}.
Definition zero_health_status : AcceleratorHealthStatus :=
  mkHealthStatus "" "" false [] zero_time "" 0 None [].
Record AcceleratorHealth := mkHealth {
  Ah_Name : string;
  Ah_ResourceVersion : string;
  Ah_CreationTimestamp : Z;
  (** [Spec.NodeName] *)
  Ah_NodeName : string;
  Ah_Status : AcceleratorHealthStatus;
}.

(** ** acceleratorclass_types.go and acceleratorworkload_types.go *)

Class Quantities := {
  Quantity : Type;
  Quantity_Value : Quantity → Z;
  Quantity_String : Quantity → string;
}.

Record AcceleratorRequirements `{Quantities} := mkRequirements {
  Req_MinimumIsolation : string; Req_MinimumMemory : option Quantity;
}.
Record AcceleratorMapping := mkMapping {
  Map_Vendor : string;
  Map_Product : string;
  Map_NativeProfile : string;
  Map_DeviceClassName : string;
  Map_DRADriver : string;
}.
Record AcceleratorClass `{Quantities} := mkClass {
  Cl_Name : string;
  Cl_Requirements : AcceleratorRequirements;
  Cl_Mappings : list AcceleratorMapping;
}.

Definition AccessModeExclusive : string := "exclusive".
Definition AccessModeShared : string := "shared".
Definition AccessModePartitioned : string := "partitioned".
Definition AccessModePartitionedShared : string := "partitioned-shared".

Definition ImplementationAuto : string := "auto".
Definition ImplementationTimeSlicing : string := "timeSlicing".
Definition ImplementationMultiProcess : string := "multiProcess".
Definition ImplementationBrokered : string := "brokered".

Definition AWReasonBackendUnsupported : string := "BackendUnsupported".
Definition AWReasonCapabilityUnverified : string := "CapabilityUnverified".
Definition AWReasonNoCandidateNodes : string := "NoCandidateNodes".
Definition AWReasonNoVendorMapping : string := "NoVendorMapping".
Definition AWReasonIsolationTooWeak : string := "IsolationTooWeak".
Definition AWReasonMemoryUnknown : string := "MemoryUnknown".
Definition AWReasonMemoryTooSmall : string := "MemoryTooSmall".
Definition AWReasonProfileNotApplied : string := "ProfileNotApplied".
Definition AWReasonReplicasExceedMax : string := "ReplicasExceedMax".
Definition AWReasonReplicasTooFew : string := "ReplicasTooFew".
Definition AWReasonDRANotEnabled : string := "DRANotEnabled".
Definition AWReasonDRAMappingMissing : string := "DRAMappingMissing".
Definition AWReasonDRADriverMissing : string := "DRADriverMissing".
Definition AWReasonDRAUnsupportedRequest : string := "DRAUnsupportedRequest".
Definition AWReasonDRADoubleAdvertised : string := "DRADoubleAdvertised".
Definition AWReasonSharingNotApplied : string := "SharingNotApplied".
Definition AWReasonDeviceShared : string := "DeviceShared".

Record AccessSpec := mkAccess { Acc_Mode : string; Acc_Implementation : string; Acc_Replicas : Z }.
Record AcceleratorPreferences := mkPreferences { Pref_Vendors : list string; Pref_AllocationAPI : string }.
(** [AcceleratorWorkloadSpec.Accelerator] *)
Record AcceleratorRequest `{Quantities} := mkAccRequest {
  Areq_Class : string;
  Areq_Access : AccessSpec;
  Areq_Requirements : option AcceleratorRequirements;
  Areq_Preferences : option AcceleratorPreferences;
}.
Record ResolvedAllocation := mkResolved {
  Ra_Vendor : string;
  Ra_Mode : string;
  Ra_ResourceName : string;
  Ra_DeviceClassName : string;
  Ra_Quantity : Z;
  Ra_AllocationAPI : string;
  Ra_Nodes : list string;
  Ra_Explanation : string;
}.
#[global] Arguments mkRequirements {_} _ _.
#[global] Arguments mkClass {_} _ _ _.
#[global] Arguments mkAccRequest {_} _ _ _ _.
