(* ===== verification/VendorCap.v ===== *)
(** * internal/vendorcap: what each vendor's product is declared to support

    Models [registry.go] and the compatibility matrix of [matrix.go].  The
    registry is a package variable, so the look-ups take it as an argument
    ([registry] is its value).  Its keys are ranged over in no particular order,
    and sorted. *)

From S2P Require Import Prelude GoStrings GoTime ApiTypes PolicyTypes.

Definition State : Type := string.
Definition StateNative : State := "Native".
Definition StateSoftware : State := "Software".
Definition StateUnsupported : State := "Unsupported".
Definition StateUnknown : State := "Unknown".

Definition Capability : Type := string.
Definition CapDiscovery : Capability := "discovery".
Definition CapDriver : Capability := "driver".
Definition CapFirmware : Capability := "firmware".
Definition CapRuntime : Capability := "runtime".
Definition CapContainerToolkit : Capability := "containerToolkit".
Definition CapDevicePlugin : Capability := "devicePlugin".
Definition CapDRA : Capability := "dra".
Definition CapPartition : Capability := "partition".
Definition CapTimeSlicing : Capability := "timeSlicing".
Definition CapMultiProcess : Capability := "multiProcess".
Definition CapBrokered : Capability := "brokered".
Definition CapIsolation : Capability := "isolation".
Definition CapTelemetry : Capability := "telemetry".
Definition CapHealth : Capability := "health".
Definition CapReset : Capability := "reset".

(** [Key{Vendor, Product}] *)
Definition Key : Type := string * string.
Definition Vendor (k : Key) : string := k.1.
Definition Product (k : Key) : string := k.2.

Definition AssuranceLevel : Type := string.
Definition AssuranceNone : AssuranceLevel := "none".
Definition AssuranceUnit : AssuranceLevel := "unit".
Definition AssuranceCluster : AssuranceLevel := "cluster".
Definition AssuranceHardware : AssuranceLevel := "hardware".

Record Support := mkSupport {
  Su_State : State;
  Su_Verification : string;
  Su_Reason : string;
  Su_Source : string;
  Su_TestRefs : list string;
  Su_assurance : AssuranceLevel;
}.
Definition zero_support : Support := mkSupport "" "" "" "" [] "".

Definition Assurance (s : Support) : AssuranceLevel :=
  if bool_decide (Su_assurance s = "") then AssuranceNone else Su_assurance s.

Definition native (src : string) (tests : list string) : Support :=
  mkSupport StateNative VerificationRequired "" src tests "".
Definition software (src : string) (tests : list string) : Support :=
  mkSupport StateSoftware VerificationRequired "" src tests "".
Definition unsupported (reason src : string) : Support :=
  mkSupport StateUnsupported VerificationNotApplicable reason src [] "".
Definition unknown (reason : string) : Support :=
  mkSupport StateUnknown VerificationNotApplicable reason "" [] "".
Definition withAssurance (level : AssuranceLevel) (s : Support) : Support :=
  mkSupport (Su_State s) (Su_Verification s) (Su_Reason s) (Su_Source s) (Su_TestRefs s) level.

Definition Registry : Type := gmap Key (gmap Capability Support).

Definition registry : Registry := list_to_map [
  (("nvidia", EmptyString), list_to_map [
    (CapDiscovery, native "NodeDeviceReport nvidia, kcloud-node-manager PCI 스캔" []);
    (CapDriver, withAssurance AssuranceUnit (native "DriverInstallPolicy nvidia-gpu-ds, driver-installer/nvidia" ["internal/controller/driver_upgrade_controller_test.go"]));
    (CapFirmware, unsupported "펌웨어 관리 미구현" EmptyString);
    (CapRuntime, native "NVIDIA container toolkit reconciler(toolkitdaemonset)" []);
    (CapContainerToolkit, native "deploy/helm/values.yaml driverInstallPolicies.nvidia.toolkit" []);
    (CapDevicePlugin, native "nvcr.io/nvidia/k8s-device-plugin (values nvidia.devicePluginImage)" []);
    (CapDRA, native "dra-driver-nvidia (values nvidia.dra), internal/controller/dra_driver.go" []);
    (CapPartition, native "MIG — internal/partition/nvidia, A30 라이브 PASS" ["internal/partition/nvidia/geometry_test.go"]);
    (CapTimeSlicing, withAssurance AssuranceUnit (software "device-plugin replicas — internal/partition/nvidia/timeslicing.go, 라이브 검증" ["internal/partition/nvidia/timeslicing_test.go"; "internal/partition/sharing_test.go"]));
    (CapMultiProcess, native "MPS control daemon(upstream k8s-device-plugin) — internal/partition/nvidia/timeslicing.go(ApplySharingConfig·MPSPipeDir), 4-tenant 검증" []);
    (CapBrokered, unsupported "brokered 공유 미구현" EmptyString);
    (CapIsolation, withAssurance AssuranceCluster (native "MIG hardware 격리 — co-run 전량 점유(tenants 4)에서 연산·대역폭 비 ≈1.0 실측, evidence 원본은 이 저장소 밖(재현 하네스 미작성)" []));
    (CapTelemetry, native "dcgm-exporter (values nvidia.dcgmExporter) + ServiceMonitor" []);
    (CapHealth, native "AcceleratorHealth 컨트롤러" []);
    (CapReset, native ("nvidia-smi -r/--gpu-reset 로 장치 HW·SW 상태 초기화(root·소비자 없음 조건, MIG vGPU guest 미지원) 문서 확인 — 실측(2026-09-28, k8s-worker1 A30) 시도, device-plugin·dcgm-exporter 의 상시 NVML 핸들로 매번 " +:+ String dquote EmptyString +:+ "In use by another client" +:+ String dquote EmptyString +:+ "(exit=255) 거부, cordon+DS 파드 삭제(승인 조치)로 점유 해제 실패; kill·taint·operator 라벨 재사용 세 건은 승인 범위 밖 수동 조치로 시도됐고 전부 되돌림") [])]);
  (("furiosa", "warboy"), list_to_map [
    (CapDiscovery, native "NodeDeviceReport furiosa/warboy" []);
    (CapDriver, native "DriverInstallPolicy furiosa-warboy-ds" []);
    (CapFirmware, unsupported "펌웨어 관리 미구현" EmptyString);
    (CapRuntime, unsupported "런타임(furiosa-llm·libnux)은 워크로드 컨테이너 이미지가 담음 — 노드엔 드라이버·device-plugin·DRA 만 설치, operator 가 노드에 설치·관리할 런타임 없음" EmptyString);
    (CapContainerToolkit, unsupported "해당 없음(벤더 툴킷 없음)" EmptyString);
    (CapDevicePlugin, native "ghcr.io/furiosa-ai/k8s-device-plugin (values furiosa.devicePluginImage)" []);
    (CapDRA, native "furiosaai/furiosa-dra-driver (values furiosa.dra)" []);
    (CapPartition, unsupported "단일 코어 — 파티션 수단 없음" EmptyString);
    (CapTimeSlicing, unsupported "두 번째 open EBUSY(동시 open 실측 2026-09-19)" "test/live/concurrent-open/probe.sh");
    (CapMultiProcess, unsupported "배타적 open — 두 번째 프로세스 open 시 EBUSY(동시 open 실측 2026-09-19)로 동시 실행 불가, 벤더 broker 없어 중재 대상 없음" "test/live/concurrent-open/probe.sh");
    (CapBrokered, unsupported "broker 미구현" EmptyString);
    (CapIsolation, unsupported "배타적 open 으로 공유 불가 — 두 프로세스 동시 실행이 안 돼(EBUSY, 동시 open 실측 2026-09-19) 격리를 잴 대상이 없음" "test/live/concurrent-open/probe.sh");
    (CapTelemetry, native "furiosa-exporter (deploy/helm/templates/furiosa-exporter.yaml)" []);
    (CapHealth, native "AcceleratorHealth 컨트롤러" []);
    (CapReset, unsupported "공개 인터페이스(furiosa-smi CLI 2026.1·furiosa-smi-go SDK C API v2026.1.1)에 장치 리셋 수단 미발견 — drain 은 장치 활성/비활성 표시이지 HW 리셋 아님" "test/live/device-reset/run.sh")]);
  (("furiosa", "rngd"), list_to_map [
    (CapDiscovery, native "NodeDeviceReport furiosa/rngd" []);
    (CapDriver, native "DriverInstallPolicy furiosa-rngd-ds" []);
    (CapFirmware, unsupported "펌웨어 관리 미구현" EmptyString);
    (CapRuntime, unsupported "런타임(furiosa-llm·libnux)은 워크로드 컨테이너 이미지가 담음 — 노드엔 드라이버·device-plugin·DRA 만 설치, operator 가 노드에 설치·관리할 런타임 없음" EmptyString);
    (CapContainerToolkit, unsupported "해당 없음" EmptyString);
    (CapDevicePlugin, native "furiosa-rngd-device-plugin (ensureFuriosaRngdDevicePlugin)" []);
    (CapDRA, native "furiosaai/furiosa-dra-driver, 라이브 PASS" []);
    (CapPartition, native "PE-fusion — internal/partition/rngd, 라이브" ["internal/partition/rngd/backend_test.go"]);
    (CapTimeSlicing, unsupported "장치가 배타적 open — 두 번째 프로세스 EBUSY(2026-08-11 실측)" "test/live/rngd-multiprocess/probe.sh");
    (CapMultiProcess, withAssurance AssuranceCluster (unsupported "배타적 open — 두 프로세스가 같은 장치 노드를 동시에 열면 두 번째가 EBUSY(ResourceBusy)로 튕김(2026-08-11 실측), 벤더 broker 없어 중재할 대상 없음" "test/live/rngd-multiprocess/probe.sh"));
    (CapBrokered, unsupported "broker not implemented" EmptyString);
    (CapIsolation, withAssurance AssuranceCluster (native "PE 파티션 격리 부분 실측 — 메모리 용량(조각 11.88/47.50 GiB 관측)·장애 봉쇄(이웃 생존) measured, 연산·대역폭은 벤더 부하 도구 한계로 blocked, evidence 원본은 이 저장소 밖(재현 하네스 미작성)" []));
    (CapTelemetry, native "furiosa-exporter" []);
    (CapHealth, native "AcceleratorHealth 컨트롤러" []);
    (CapReset, unsupported "공개 인터페이스(furiosa-smi CLI 2026.1·furiosa-smi-go SDK C API v2026.1.1)에 장치 리셋 수단 미발견 — drain 은 장치 활성/비활성 표시이지 HW 리셋 아님" "test/live/device-reset/run.sh")]);
  (("rebellions", EmptyString), list_to_map [
    (CapDiscovery, native "NodeDeviceReport rebellions(node5 ATOM)" []);
    (CapDriver, unsupported "설계상 host-managed — DriverInstallPolicy 미생성" "internal/controller/driver_daemonset_controller.go");
    (CapFirmware, unsupported "펌웨어 관리 미구현" EmptyString);
    (CapRuntime, unsupported "런타임(rebel-compiler·optimum-rbln·vllm-rbln)은 컨테이너에 pip wheel 로 담기고 드라이버·펌웨어는 host-managed — operator 가 노드에 설치·관리할 런타임 없음" EmptyString);
    (CapContainerToolkit, unsupported "해당 없음" EmptyString);
    (CapDevicePlugin, native "rebellions device-plugin (ensureRebellionsDevicePlugin, node5 라이브)" []);
    (CapDRA, native "rebellions/k8s-dra-driver-npu (values rebellions.dra) — ResourceSlice 발행은 벤더 바이너리 결함으로 차단(외부 제출 대기)" []);
    (CapPartition, unsupported "공개 인터페이스(rbln-smi/rbln-stat/OSS device-plugin·DRA)와 rblnlib-go v0.3.0 소스(pkg/device·pkg/rsdgroup·pkg/rblnsmi) 검토 결과 분할 수단 미발견 — vendor-capability-not-found(공개 소스 조사 2026-09-15); RSD 그룹은 여러 장치를 하나로 묶는 집약이고 장치 분할 API 는 없음" EmptyString);
    (CapTimeSlicing, withAssurance AssuranceHardware (software "실 워크로드 동시 실행 실측(node5 2026-09-25) — 두 프로세스가 같은 ATOM(device 0)을 동시에 열고 device_open 이 두 프로세스 모두 0.01s 로 배리어에 비례해 늘지 않음(배타 락 부재, tt 의 진 파드 init 팽창과 대비), rbln-smi 가 NPU 0 에 두 컨텍스트 확인(NPU 1 유휴)이 등급의 주근거; 보조로 겹치는 구간의 처리량이 각각 solo 의 0.92배·합 1.83배(rt 동기 실행 실측 확인); 파드 경로 재확인(2026-09-29): descriptor 광고 자원으로 스케줄한 파드 셋(solo·co-run 2)에서 co-run 처리량이 각각 solo 의 0.85배·0.82배, 합 1.66배, 겹침 구간 30초, rbln-smi 컨텍스트 2 확인; 재현은 test/live/rebellions-timeslice/run.sh" ["test/live/rebellions-timeslice/run.sh"]));
    (CapMultiProcess, unsupported "벤더 broker 없음 — 동시 실행은 되나(2026-09-25 실측) 프로세스별 상한을 강제할 중재 수단 없음" "test/live/rebellions-timeslice/run.sh");
    (CapBrokered, unsupported "broker 미구현" EmptyString);
    (CapIsolation, withAssurance AssuranceHardware (unsupported "연산·용량·대역폭·장애 네 항목 co-run 실측(node5 2026-09-28, 장치 0=0000:c3:00.0·장치 1=0000:c4:00.0) — 용량(장치 1 이 K-chain(CHAIN_K=32)·512MiB 를 점유한 채 장치 0 도 같은 크기로 성공, rbln-smi 로 NPU0·NPU1 메모리 독립 확인)·장애(장치 1 kill -9+구성 불일치 실패 동안 장치 0 30초 끝까지 실행, 사후 rbln-smi 정상)는 격리 확인. 연산(비 0.7883)·대역폭(비 0.8829)은 기준(비 ≥0.95)에 못 미쳐 장치 1 부하가 장치 0 처리량으로 빠져나간다 — 별도 물리 장치라도 완전한 성능 격리는 아니다(호스트측 공유 자원 간섭 추정)" "test/live/rebellions-isolation/run.sh"));
    (CapTelemetry, unsupported "exporter 없음" EmptyString);
    (CapHealth, native "AcceleratorHealth 컨트롤러" []);
    (CapReset, unsupported "공개 인터페이스(rbln-smi/rbln-stat CLI·rblnlib-go v0.3.0 pkg/device·rblnsmi·rsdgroup·device-plugin·DRA)에 장치 리셋 수단 미발견 — tdr 하위 명령은 공개 문서 미확인" "test/live/device-reset/run.sh")]);
  (("tenstorrent", EmptyString), list_to_map [
    (CapDiscovery, native "NodeDeviceReport tenstorrent(k8s-worker3 blackhole-p150)" []);
    (CapDriver, withAssurance AssuranceHardware (software "driver-installer/tenstorrent 2.11.0 — 2.8.0→2.11.0 라이브 업그레이드 2026-09-21; 상태 기계 전이(install Job·검증·Idle 수렴) 라이브 확인; 재현은 test/live/tt-kmd-upgrade/run.sh" ["test/live/tt-kmd-upgrade/run.sh"]));
    (CapFirmware, unsupported "펌웨어 관리 미구현" EmptyString);
    (CapRuntime, unsupported "런타임(tt-metal)은 컨테이너 이미지·PyPI wheel 로 담기고 노드엔 tt-kmd 드라이버·device-plugin 만 설치 — operator 가 노드에 설치·관리할 런타임 없음" EmptyString);
    (CapContainerToolkit, unsupported "해당 없음" EmptyString);
    (CapDevicePlugin, software "kcloud 자체 tenstorrent-device-plugin (images/kcloud-operator-images/tenstorrent-device-plugin)" []);
    (CapDRA, native "tenstorrent/tt-dra-driver + tt-fabric-manager (values tenstorrent.dra), 라이브 PASS 2026-09-18" []);
    (CapPartition, unsupported "장치 분할 API 없음 — tt-smi·tt-kmd 2.11.0 소스·tt-metal 문서 조사(2026-09-22)" EmptyString);
    (CapTimeSlicing, withAssurance AssuranceHardware (unsupported "증명: spec.sharing→generic device-plugin replicas 광고·주입 기제 동작. 반증: 벤더 런타임(tt-metal)을 쓰는 실제 워크로드 두 개가 UMD 의 /dev/tenstorrent/0 KMD 락에서 직렬화돼 동시 실행 불가(co-run 실측 2026-09-23; 배리어 180/420/900s 에 진 파드 init 251/490/971s, 배리어 증가로도 미해소). 미판단: 락을 잡지 않는 소비자. 재등급 기준: 락을 잡지 않거나 공유하는 소비자 두 개의 동시 워크로드 실측" "test/live/tt-timeslice-throughput/run.sh"));
    (CapMultiProcess, unsupported "단일 카드 broker 데몬 없음(tt-metal mesh 는 다중 장치 scale-out) — tt-smi·tt-kmd 2.11.0 소스·tt-metal 문서 조사(2026-09-22)" EmptyString);
    (CapBrokered, unsupported "broker 미구현" EmptyString);
    (CapIsolation, withAssurance AssuranceHardware (unsupported "tt-metal UMD 가 /dev/tenstorrent/0 에 KMD 락을 잡아 두 워크로드가 직렬화 — 공유가 불가해 격리를 잴 대상이 없음(co-run 실측 2026-09-23)" "test/live/tt-timeslice-throughput/run.sh"));
    (CapTelemetry, unsupported "exporter 없음" EmptyString);
    (CapHealth, native "AcceleratorHealth 컨트롤러" []);
    (CapReset, withAssurance AssuranceHardware (unsupported "쓸 수 있는 장치 리셋 수단 미제공으로 확정(2026-10-02) — 벤더가 tt-smi -r 을 제공하지만 실행하면 호스트가 내려갔다 스스로 재부팅한다(2026-09-28 두 번 재현 08:33:09Z·13:55:57Z, 두 시각 모두 BMC SEL 에 그 정각 Critical Interrupt PCIe Fatal Error Asserted 뒤 53~56초 만에 OEM System boot event, 실시간 dmesg -w·journalctl -kf 캡처에서 리셋 전후 새 커널 로그 0줄). 노드 전체를 내리는 수단은 카드 하나만 되살리려는 리셋의 목적을 충족하지 못한다. PCIe Fatal Error 의 근본 원인은 미규명이고, 등급 판단과 분리해 2026-09-29 읽기 전용 원인 조사의 후보 순위로 남겨 뒀다(후보 1 은 호스트 firmware-first PCIe 오류 처리 정책)" "test/live/device-reset/run.sh"))])].

Definition Lookup (reg : Registry) (vendor product : string) (c : Capability) : option Support :=
  caps ← reg !! (vendor, product); caps !! c.
(** [registry[k][c]] *)
Definition entry (reg : Registry) (k : Key) (c : Capability) : Support :=
  mget zero_support (default ∅ (reg !! k)) c.

Definition key_less (a b : Key) : bool :=
  if bool_decide (Vendor a ≠ Vendor b) then str_ltb (Vendor a) (Vendor b)
  else str_ltb (Product a) (Product b).
Definition Keys (reg : Registry) : list Key := sort_slice key_less (map_to_list reg).*1.

(** [Native] or [Software]. *)
Definition supported (s : Support) : bool :=
  bool_decide (Su_State s = StateNative) || bool_decide (Su_State s = StateSoftware).
(** The loop of [LookupVendor]: [first] is the first entry seen, if any. *)
Fixpoint lookup_vendor (reg : Registry) (vendor : string) (c : Capability) (keys : list Key)
    (first : option Support) : Support :=
  match keys with
  | [] => default zero_support first
  | k :: keys' =>
      if bool_decide (Vendor k ≠ vendor) then lookup_vendor reg vendor c keys' first
      else
        let s := entry reg k c in
        if supported s then s
        else lookup_vendor reg vendor c keys' (Some (default s first))
  end.
Definition LookupVendor (reg : Registry) (vendor : string) (c : Capability) : Support :=
  lookup_vendor reg vendor c (Keys reg) None.

Definition Vendors (reg : Registry) : list string :=
  foldl (λ out k, if bool_decide (Vendor k ∈ out) then out else out ++ [Vendor k]) [] (Keys reg).

Definition Capabilities : list Capability :=
  [CapDiscovery; CapDriver; CapFirmware; CapRuntime; CapContainerToolkit;
   CapDevicePlugin; CapDRA; CapPartition; CapTimeSlicing; CapMultiProcess;
   CapBrokered; CapIsolation; CapTelemetry; CapHealth; CapReset].

(** ** matrix.go *)

Definition newline : string := String (Ascii.ascii_of_nat 10) EmptyString.
Definition dq : string := String dquote EmptyString.

Definition verificationLabel (s : Support) : string :=
  if bool_decide (Su_State s = StateUnknown) then "—" else Assurance s.

(** [strings.ReplaceAll(note, "|", "\\|")] *)
Fixpoint escape_bars (s : string) : string :=
  match s with
  | EmptyString => EmptyString
  | String c s' =>
      if bool_decide (c = "|"%char) then String backslash (String c (escape_bars s'))
      else String c (escape_bars s')
  end.
Definition note (s : Support) : string :=
  if bool_decide (Su_Reason s = "") then Su_Source s
  else if bool_decide (Su_Source s ≠ "") then Su_Reason s +:+ " (" +:+ Su_Source s +:+ ")"
  else Su_Reason s.
Definition matrix_row (reg : Registry) (k : Key) (c : Capability) : string :=
  let s := entry reg k c in
  "| " +:+ Vendor k +:+ " | " +:+ Product k +:+ " | " +:+ c +:+ " | " +:+ Su_State s +:+ " | " +:+
  verificationLabel s +:+ " | " +:+ escape_bars (note s) +:+ " |" +:+ newline.
Definition matrix_header : string :=
  "---" +:+ newline +:+ "title: " +:+ dq +:+ "호환성 매트릭스" +:+ dq +:+ newline +:+
  "description: " +:+ dq +:+ "internal/vendorcap 레지스트리에서 생성. 손으로 고치지 말고 make capmatrix 로 재생성." +:+ dq +:+ newline +:+
  "status: generated" +:+ newline +:+ "doc_id: operator-compatibility-matrix" +:+ newline +:+ "---" +:+ newline +:+ newline +:+
  "# 호환성 매트릭스" +:+ newline +:+ newline +:+
  "상태: Native=벤더 제공, Software=kcloud SW 구현, Unsupported=미지원(사유), Unknown=조사 필요. 검증은 Support.Assurance() 의 확인 수준(none/unit/cluster/hardware)이며, `kubectl npu capabilities` 의 라이브 Verified 열(실행 중인 노드에서 다시 확인한 값)과는 별개다. Unsupported 행의 검증 값도 같은 기준이다 — 지원 여부가 아니라 그 미지원 판정을 어디까지 확인했는지를 뜻한다(예: hardware 는 실제 장치로 재현해 확인한 미지원)." +:+ newline +:+ newline +:+
  "| 벤더 | 제품 | 능력 | 상태 | 검증 | 사유/근거 |" +:+ newline +:+ "|---|---|---|---|---|---|" +:+ newline.
Definition RenderMatrix (reg : Registry) : string :=
  foldl (λ out k, foldl (λ out c, out +:+ matrix_row reg k c) out Capabilities) matrix_header (Keys reg).

(** ** Properties *)

#[export] Instance key_less_order : LessOrder key_less := lex_less_order Vendor Product.

Lemma elem_of_Keys reg k : k ∈ Keys reg ↔ is_Some (reg !! k).
Proof.
  unfold Keys. rewrite elem_of_sort_slice, list_elem_of_fmap. split.
  - intros ([k' caps] & -> & Hk%elem_of_map_to_list). by exists caps.
  - intros [caps Hk]. exists (k, caps). split; [done|by apply elem_of_map_to_list].
Qed.

(** Whatever order the range over the registry takes, [Keys] is the same list. *)
Lemma Keys_any_order reg l : l ≡ₚ (map_to_list reg).*1 → sort_slice key_less l = Keys reg.
Proof.
  intros P. apply sort_slice_unique; [apply _| |done].
  intros [v p] [v' p'] _ _ H1 H2. by destruct (lex_less_eq _ _ _ _ H1 H2) as [[= ->] [= ->]].
Qed.

Lemma lookup_vendor_supported reg vendor c keys first :
  (∀ k, k ∈ keys → Vendor k = vendor → supported (entry reg k c) = false) ∧
    lookup_vendor reg vendor c keys first =
      default (default zero_support ((λ k, entry reg k c) <$> find_first (λ k, bool_decide (Vendor k = vendor)) keys)) first ∨
  ∃ k, k ∈ keys ∧ Vendor k = vendor ∧ supported (entry reg k c) = true ∧
    lookup_vendor reg vendor c keys first = entry reg k c.
Proof.
  revert first. induction keys as [|k keys IH]; intros first; simpl.
  { left. split; [intros k Hk; by apply elem_of_nil in Hk|by destruct first]. }
  destruct (decide (Vendor k = vendor)) as [Hv|Hv].
  - rewrite (bool_decide_eq_true_2 _ Hv), bool_decide_eq_false_2 by auto.
    destruct (supported (entry reg k c)) eqn:Es.
    { right. exists k. split_and!; [by left|done..]. }
    destruct (IH (Some (default (entry reg k c) first))) as [[Hn ->]|(k' & ? & ? & ? & ->)].
    + left. split; [intros k' [->|Hk']%elem_of_cons ?; auto|]. by destruct first.
    + right. exists k'. split_and!; [by right|done..].
  - rewrite (bool_decide_eq_true_2 (Vendor k ≠ vendor)), (bool_decide_eq_false_2 _ Hv) by done.
    destruct (IH first) as [[Hn ->]|(k' & ? & ? & ? & ->)].
    + left. split; [|done]. intros k' [->|Hk']%elem_of_cons ?; [done|auto].
    + right. exists k'. split_and!; [by right|done..].
Qed.

(** A vendor supports a capability when one of its products does: the
    answer of [LookupVendor] is [Native] or [Software] exactly when some product
    of the vendor declares that, and it is then some product's own declaration;
    otherwise it is the declaration of the vendor's first product in name order,
    or the zero value for a vendor without products.  The order in which Go
    ranges over the registry never changes the answer. *)
Theorem LookupVendor_correct reg vendor c :
  let s := LookupVendor reg vendor c in
  (supported s = true ↔
     ∃ product, is_Some (reg !! (vendor, product)) ∧ supported (entry reg (vendor, product) c) = true) ∧
  (supported s = true →
     ∃ product, is_Some (reg !! (vendor, product)) ∧ s = entry reg (vendor, product) c) ∧
  (supported s = false → s =
     default zero_support ((λ k, entry reg k c) <$> find_first (λ k, bool_decide (Vendor k = vendor)) (Keys reg))) ∧
  (∀ l, l ≡ₚ (map_to_list reg).*1 → lookup_vendor reg vendor c (sort_slice key_less l) None = s).
Proof.
  cbv zeta. assert (Hany : ∀ l, l ≡ₚ (map_to_list reg).*1 →
    lookup_vendor reg vendor c (sort_slice key_less l) None = LookupVendor reg vendor c).
  { intros l P. by rewrite (Keys_any_order _ _ P). }
  unfold LookupVendor in *.
  destruct (lookup_vendor_supported reg vendor c (Keys reg) None) as [[Hn E]|([v p] & Hk & [= ->] & Hs & E)].
  - assert (Hs : supported (lookup_vendor reg vendor c (Keys reg) None) = false).
    { rewrite E. simpl. destruct (find_first _ _) as [k|] eqn:Ef; [|done]. simpl.
      apply find_first_Some in Ef as (l1 & l2 & Ek & Hv & _). bool_prop. apply Hn; [|done].
      rewrite Ek. set_solver. }
    rewrite Hs. split_and!; try done. split; [done|].
    intros (p & Hk & Hp). rewrite Hn in Hp; [done|by apply elem_of_Keys|done].
  - rewrite E. apply elem_of_Keys in Hk. split_and!; [|eauto|by rewrite Hs|by rewrite <-E].
    split; [eauto|done].
Qed.

(** *** The declarations themselves *)

(** An entry says on what it rests: what is supported names where, what is not
    says why, its default verification follows from its state, and hardware
    assurance names the script under [test/live/] that reproduces it. *)
Definition honest (s : Support) : bool :=
  (if supported s
   then negb (bool_decide (Su_Source s = "")) && bool_decide (Su_Verification s = VerificationRequired)
   else contains_string [StateUnsupported; StateUnknown] (Su_State s) &&
        negb (bool_decide (Su_Reason s = "")) && bool_decide (Su_Verification s = VerificationNotApplicable)) &&
  contains_string [AssuranceNone; AssuranceUnit; AssuranceCluster; AssuranceHardware] (Assurance s) &&
  (negb (bool_decide (Assurance s = AssuranceHardware)) || str_contains (Su_Source s) "test/live/").

(** The registry declares every capability for each of the five products
    of four vendors, every entry is honest in the sense above, and looking an
    entry up by product answers exactly what is declared. *)
Theorem registry_complete_and_honest :
  Vendors registry = ["furiosa"; "nvidia"; "rebellions"; "tenstorrent"] ∧
  (∀ k c, k ∈ Keys registry → c ∈ Capabilities →
     ∃ s, Lookup registry (Vendor k) (Product k) c = Some s ∧ honest s = true) ∧
  (∀ vendor product c, vendor ∉ Vendors registry → Lookup registry vendor product c = None).
Proof.
  assert (Hall : forallb (λ k, forallb (λ c,
    match Lookup registry (Vendor k) (Product k) c with Some s => honest s | None => false end)
    Capabilities) (Keys registry) = true) by (vm_compute; reflexivity).
  split_and!; [vm_compute; reflexivity| |].
  - intros k c Hk Hc. rewrite forallb_forall in Hall.
    specialize (Hall k (proj1 (list_elem_of_In _ _) Hk)). rewrite forallb_forall in Hall.
    specialize (Hall c (proj1 (list_elem_of_In _ _) Hc)).
    destruct (Lookup _ _ _ _) as [s|]; [by exists s|done].
  - intros vendor product c Hv. unfold Lookup. destruct (registry !! (vendor, product)) as [caps|] eqn:E; [|done].
    exfalso. apply Hv.
    assert (Hk : (vendor, product) ∈ Keys registry) by (apply elem_of_Keys; eauto).
    assert (Hin : forallb (λ k, bool_decide (Vendor k ∈ Vendors registry)) (Keys registry) = true)
      by (vm_compute; reflexivity).
    rewrite forallb_forall in Hin. specialize (Hin _ (proj1 (list_elem_of_In _ _) Hk)). by bool_prop.
Qed.
