(* ===== verification/HealthPolicy.v ===== *)
(** * internal/health: signals, reasons, the effective policy and the recovery plan

    Models [signal.go], [policy.go] and [remediation.go].  Label selectors are
    apimachinery's: a class gives their type and the conversion the code calls,
    which may fail.  The loop over the remediation map runs in the order the
    runtime picks ([MapRange]), which the effective cooldown depends on. *)

From S2P Require Import Prelude GoStrings GoTime ApiTypes OperationModel.

(** ** signal.go *)

Definition SignalNodeReady : string := "NodeReady".
Definition SignalNDRFreshness : string := "NDRFreshness".
Definition SignalDriverHeartbeat : string := "DriverHeartbeat".
Definition SignalDevicePlugin : string := "DevicePlugin".
Definition SignalAdvertisement : string := "Advertisement".
Definition SignalRepeatedFailure : string := "RepeatedFailure".

Definition ReasonNodeNotReady : string := "NodeNotReady".
Definition ReasonObservationStale : string := "ObservationStale".
Definition ReasonDriverNotLoaded : string := "DriverNotLoaded".
Definition ReasonDevicePluginDown : string := "DevicePluginDown".
Definition ReasonAdvertisementMismatch : string := "AdvertisementMismatch".
Definition ReasonRepeatedRecoveryFail : string := "RepeatedRecoveryFailure".
Definition ReasonPartialDeviceFailure : string := "PartialDeviceFailure".

(** ** acceleratorhealthpolicy_types.go *)

Definition RemediationAction : Type := string.
Definition RemediationNone : RemediationAction := "None".
Definition RemediationStopNewAllocation : RemediationAction := "StopNewAllocation".
Definition RemediationRequestRecovery : RemediationAction := "RequestRecovery".
Definition RemediationQuarantine : RemediationAction := "Quarantine".

Record RemediationRule := mkRule { Rule_Action : RemediationAction; Rule_RecoveryCooldownSeconds : Z }.
Record HealthChecks := mkHealthChecks {
  Hc_NDRFreshnessSeconds : Z;
  Hc_DriverHeartbeatFailureThreshold : Z;
  Hc_AdvertisementGraceSeconds : Z;
  Hc_RepeatedFailureThreshold : Z;
  Hc_MonitorIntervalSeconds : Z;
  Hc_Disabled : list string;
}.

(** [metav1.LabelSelector] and [metav1.LabelSelectorAsSelector]. *)
Class Selectors := {
  LabelSelector : Type;
  LabelSelectorAsSelector : LabelSelector → option (gmap string string → bool);
}.

Record AcceleratorHealthPolicySpec `{Selectors} := mkHealthPolicySpec {
  Hp_Selector : option LabelSelector;
  Hp_Checks : HealthChecks;
  Hp_Remediation : gmap string RemediationRule;
}.
Record AcceleratorHealthPolicy `{Selectors} := mkHealthPolicy {
  Hp_Name : string; Hp_Spec : AcceleratorHealthPolicySpec;
}.

(** ** policy.go *)

Record EffectivePolicy := mkHealthEff {
  He_NDRFreshness : Z;
  He_DriverFailureThreshold : Z;
  He_AdvertisementGrace : Z;
  He_RepeatedFailureThreshold : Z;
  He_RecoveryCooldown : Z;
  He_MonitorInterval : Z;
  He_disabled : gmap string bool;
  He_remediation : gmap string RemediationRule;
}.
Record Remediation := mkRemediation { StopAllocation : bool; CreateOperation : bool; Quarantine : bool }.

Definition DefaultPolicy : EffectivePolicy :=
  mkHealthEff (90 * second) 3 (30 * second) 3 (10 * minute) (30 * second) ∅ ∅.

Definition matches `{Selectors} (sel : option LabelSelector) (nodeLabels : gmap string string) : bool :=
  match sel with
  | None => true
  | Some sel =>
      match LabelSelectorAsSelector sel with
      | None => false
      | Some s => s nodeLabels
      end
  end.

(** [time.Duration(v) * time.Second] when [v > 0]. *)
Definition seconds_or (v keep : Z) : Z := if 0 <? v then v * second else keep.
Definition threshold_or (v keep : Z) : Z := if 0 <? v then v else keep.

Section Apply.
Context `{MapRange} `{Selectors}.

(** The cooldown after the loop over the rules: the last positive one. *)
Definition apply_cooldown (rules : gmap string RemediationRule) (cooldown : Z) : Z :=
  foldl (λ c '(_, rule), seconds_or (Rule_RecoveryCooldownSeconds rule) c) cooldown (range_map rules).

Definition apply (eff : EffectivePolicy) (spec : AcceleratorHealthPolicySpec) : EffectivePolicy :=
  let c := Hp_Checks spec in
  mkHealthEff
    (seconds_or (Hc_NDRFreshnessSeconds c) (He_NDRFreshness eff))
    (threshold_or (Hc_DriverHeartbeatFailureThreshold c) (He_DriverFailureThreshold eff))
    (seconds_or (Hc_AdvertisementGraceSeconds c) (He_AdvertisementGrace eff))
    (threshold_or (Hc_RepeatedFailureThreshold c) (He_RepeatedFailureThreshold eff))
    (apply_cooldown (Hp_Remediation spec) (He_RecoveryCooldown eff))
    (seconds_or (Hc_MonitorIntervalSeconds c) (He_MonitorInterval eff))
    (foldl (λ m d, <[d := true]> m) (He_disabled eff) (Hc_Disabled c))
    (Hp_Remediation spec ∪ He_remediation eff).

Definition Resolve (l : list AcceleratorHealthPolicy) (nodeLabels : gmap string string) : EffectivePolicy :=
  foldl (λ eff p, if matches (Hp_Selector (Hp_Spec p)) nodeLabels then apply eff (Hp_Spec p) else eff)
    DefaultPolicy (sort_on Hp_Name l).
End Apply.

Definition Enabled (p : EffectivePolicy) (signal : string) : bool := negb (mget false (He_disabled p) signal).

Definition remediationFromAction (a : RemediationAction) : Remediation :=
  if bool_decide (a = RemediationStopNewAllocation) then mkRemediation true false false
  else if bool_decide (a = RemediationRequestRecovery) then mkRemediation true true false
  else if bool_decide (a = RemediationQuarantine) then mkRemediation true false true
  else mkRemediation false false false.

Definition defaultRemediation (reason : string) : Remediation :=
  if contains_string [ReasonDevicePluginDown; ReasonAdvertisementMismatch] reason then
    mkRemediation true true false
  else if bool_decide (reason = ReasonDriverNotLoaded) then mkRemediation true true false
  else if bool_decide (reason = ReasonRepeatedRecoveryFail) then mkRemediation true false true
  else if contains_string [ReasonNodeNotReady; ReasonObservationStale] reason then
    mkRemediation true false false
  else mkRemediation false false false.

Definition RemediationFor (p : EffectivePolicy) (reason : string) : Remediation :=
  match He_remediation p !! reason with
  | Some rule => remediationFromAction (Rule_Action rule)
  | None => defaultRemediation reason
  end.

(** ** remediation.go *)

Record RecoveryPlan := mkPlan {
  Plan_Create : bool;
  Plan_Type : OpType;
  Plan_TransactionID : string;
  Plan_ResourceKeys : list ResourceKey;
}.
Definition no_plan : RecoveryPlan := mkPlan false "" "" [].

Definition operationForReason (reason : string) : option OpType :=
  if bool_decide (reason = ReasonDevicePluginDown) then Some DevicePluginRestart
  else if bool_decide (reason = ReasonAdvertisementMismatch) then Some Revalidate
  else if bool_decide (reason = ReasonDriverNotLoaded) then Some RecoverDevice
  else None.

Definition resourceKeysFor (t : OpType) (node : string) (pcis : list string) : list ResourceKey :=
  if bool_decide (t = DevicePluginRestart) then [ClusterDPConfigKey "nvidia-device-plugin"]
  else if bool_decide (t = RecoverDevice) then NodeCordonKey node :: (DeviceDriverKey <$> pcis)
  else [].

(** [int64(p.RecoveryCooldown / time.Second)], at least 1. *)
Definition cooldownSeconds (p : EffectivePolicy) : Z :=
  let c := Z.quot (He_RecoveryCooldown p) second in if c <=? 0 then 1 else c.
Definition transactionID (node reason : string) (bucket : Z) : string :=
  "health-" +:+ node +:+ "-" +:+ reason +:+ "-" +:+ sprint_Z bucket.

Definition PlanRecovery (node reason : string) (devicePCIs : list string) (now : Z) (p : EffectivePolicy)
    : RecoveryPlan :=
  if negb (CreateOperation (RemediationFor p reason)) then no_plan
  else match operationForReason reason with
  | None => no_plan
  | Some t =>
      mkPlan true t (transactionID node reason (Z.quot (time_unix now) (cooldownSeconds p)))
        (resourceKeysFor t node devicePCIs)
  end.

(** ** Properties *)

(** The reasons the evaluation can give (and the empty one). *)
Definition AllReasons : list string :=
  [ReasonNodeNotReady; ReasonObservationStale; ReasonDriverNotLoaded; ReasonDevicePluginDown;
   ReasonAdvertisementMismatch; ReasonRepeatedRecoveryFail; ReasonPartialDeviceFailure; ""].

Lemma reason_no_dash reason : reason ∈ AllReasons → contains_char reason "-" = false.
Proof.
  unfold AllReasons. intros H. repeat (apply elem_of_cons in H as [->|H]; [reflexivity|]).
  by apply elem_of_nil in H.
Qed.

Lemma transactionID_split node node' reason reason' d d' :
  contains_char reason "-" = false → contains_char reason' "-" = false →
  contains_char d "-" = false → contains_char d' "-" = false →
  "health-" +:+ node +:+ "-" +:+ reason +:+ "-" +:+ d = "health-" +:+ node' +:+ "-" +:+ reason' +:+ "-" +:+ d' →
  node = node' ∧ reason = reason' ∧ d = d'.
Proof.
  intros Hr Hr' Hd Hd' E. apply (f_equal (cut_prefix "health-")) in E.
  rewrite !cut_prefix_app in E. injection E as E.
  change (node +:+ String "-" (reason +:+ String "-" d) = node' +:+ String "-" (reason' +:+ String "-" d')) in E.
  assert (Hassoc : ∀ n r c, n +:+ String "-" (r +:+ String "-" c) = (n +:+ String "-" r) +:+ String "-" c).
  { intros n r c. by rewrite <-string_app_assoc. }
  rewrite !Hassoc in E. apply (f_equal (cut_last "-")) in E.
  rewrite !cut_last_app in E by done. injection E as E1 ->.
  apply (f_equal (cut_last "-")) in E1. rewrite !cut_last_app in E1 by done.
  by injection E1 as -> ->.
Qed.

Lemma transactionID_inj node node' reason reason' b b' :
  reason ∈ AllReasons → reason' ∈ AllReasons → 0 <= b → 0 <= b' →
  transactionID node reason b = transactionID node' reason' b' →
  node = node' ∧ reason = reason' ∧ b = b'.
Proof.
  intros Hr%reason_no_dash Hr'%reason_no_dash Hb%sprint_Z_no_dash Hb'%sprint_Z_no_dash E.
  apply transactionID_split in E as (-> & -> & E); [|done..]. by apply (inj pretty) in E.
Qed.

Lemma cooldownSeconds_pos p : 0 < cooldownSeconds p.
Proof. unfold cooldownSeconds. destruct (_ <=? 0) eqn:E; bool_prop; lia. Qed.

(** A recovery that is planned says why and when it was. *)
Definition bucket_of (now : Z) (p : EffectivePolicy) : Z := Z.quot (time_unix now) (cooldownSeconds p).

Lemma PlanRecovery_create node reason pcis now p :
  Plan_Create (PlanRecovery node reason pcis now p) = true →
  CreateOperation (RemediationFor p reason) = true ∧
  operationForReason reason = Some (Plan_Type (PlanRecovery node reason pcis now p)) ∧
  reason ∈ [ReasonDevicePluginDown; ReasonAdvertisementMismatch; ReasonDriverNotLoaded] ∧
  Plan_TransactionID (PlanRecovery node reason pcis now p) = transactionID node reason (bucket_of now p).
Proof.
  unfold PlanRecovery. destruct (CreateOperation _); [|done]. simpl.
  destruct (operationForReason reason) as [t|] eqn:Et; [|done]. intros _. split_and!; [done|done| |done].
  unfold operationForReason in Et. repeat case_bool_decide; subst; set_solver.
Qed.

(** The transaction ID is the deduplication key of recovery: two planned
    recoveries under one policy (at times after 1970) have the same ID exactly
    when they are for the same node and the same reason in the same cooldown
    window; in particular recoveries a full cooldown apart never collide. *)
Theorem PlanRecovery_deduplicates node node' reason reason' pcis pcis' now now' p
    (H1 : Plan_Create (PlanRecovery node reason pcis now p) = true)
    (H2 : Plan_Create (PlanRecovery node' reason' pcis' now' p) = true)
    (Hnow : 0 <= now <= now') :
  (Plan_TransactionID (PlanRecovery node reason pcis now p) =
     Plan_TransactionID (PlanRecovery node' reason' pcis' now' p) ↔
   node = node' ∧ reason = reason' ∧ bucket_of now p = bucket_of now' p) ∧
  (now + cooldownSeconds p * second <= now' →
   Plan_TransactionID (PlanRecovery node reason pcis now p) ≠
     Plan_TransactionID (PlanRecovery node' reason' pcis' now' p)).
Proof.
  apply PlanRecovery_create in H1 as (_ & _ & Hr & ->), H2 as (_ & _ & Hr' & ->).
  pose proof (cooldownSeconds_pos p) as Hc.
  assert (Hb : ∀ t, 0 <= t → 0 <= bucket_of t p).
  { intros t Ht. unfold bucket_of, time_unix. apply Z.quot_pos; [|lia]. by apply Z.div_pos. }
  assert (Hiff : transactionID node reason (bucket_of now p) = transactionID node' reason' (bucket_of now' p)
    ↔ node = node' ∧ reason = reason' ∧ bucket_of now p = bucket_of now' p).
  { split; [|by intros (-> & -> & ->)]. apply transactionID_inj; [set_solver..|apply Hb; lia|apply Hb; lia]. }
  split; [done|]. intros Hfar (_ & _ & Eb)%Hiff. revert Eb. unfold bucket_of, time_unix.
  assert (0 < second) by done.
  assert (now / second + cooldownSeconds p <= now' / second).
  { rewrite <-Z.div_add by done. by apply Z.div_le_mono. }
  rewrite !Z.quot_div_nonneg by (try apply Z.div_pos; lia).
  assert (now / second / cooldownSeconds p + 1 <= now' / second / cooldownSeconds p); [|lia].
  rewrite <-Z.div_add by lia. apply Z.div_le_mono; lia.
Qed.

Lemma PlanRecovery_deduplicates_witness :
  let at_ := 100 * hour in
  Plan_TransactionID (PlanRecovery "w-1" ReasonDevicePluginDown [] at_ DefaultPolicy) ≠
  Plan_TransactionID (PlanRecovery "w-1" ReasonDevicePluginDown [] (at_ + 10 * minute) DefaultPolicy).
Proof.
  intros at_.
  apply (PlanRecovery_deduplicates "w-1" "w-1" ReasonDevicePluginDown ReasonDevicePluginDown [] []
    at_ (at_ + 10 * minute) DefaultPolicy); vm_compute; [reflexivity|reflexivity|..];
    repeat split; discriminate.
Defined.

(** Recovery is requested only for the three reasons the contract maps, and
    a policy can only turn a reason's recovery off or on within those: a partial
    device failure, an unreachable node, stale observations and repeated
    failures never create an operation, whatever the policy says. *)
Theorem PlanRecovery_contract node reason pcis now p :
  let plan := PlanRecovery node reason pcis now p in
  (Plan_Create plan = true ↔
     reason ∈ [ReasonDevicePluginDown; ReasonAdvertisementMismatch; ReasonDriverNotLoaded] ∧
     match He_remediation p !! reason with
     | Some rule => Rule_Action rule = RemediationRequestRecovery
     | None => True
     end) ∧
  (Plan_Create plan = true →
     Plan_ResourceKeys plan =
       (if bool_decide (reason = ReasonDevicePluginDown) then [ClusterDPConfigKey "nvidia-device-plugin"]
        else if bool_decide (reason = ReasonDriverNotLoaded)
        then NodeCordonKey node :: (DeviceDriverKey <$> pcis) else [])).
Proof.
  assert (Hcreate : CreateOperation (RemediationFor p reason) = true ↔
    match He_remediation p !! reason with
    | Some rule => Rule_Action rule = RemediationRequestRecovery
    | None => reason ∈ [ReasonDevicePluginDown; ReasonAdvertisementMismatch; ReasonDriverNotLoaded]
    end).
  { unfold RemediationFor. destruct (He_remediation p !! reason) as [rule|].
    - unfold remediationFromAction.
      destruct (decide (Rule_Action rule = RemediationRequestRecovery)) as [->|Hne]; [done|].
      case_bool_decide; [done|]. rewrite (bool_decide_eq_false_2 _ Hne). by case_bool_decide.
    - unfold defaultRemediation. destruct (contains_string _ _) eqn:E1.
      + apply contains_string_true in E1. set_solver.
      + assert (reason ∉ [ReasonDevicePluginDown; ReasonAdvertisementMismatch]).
        { rewrite <-contains_string_true. congruence. }
        case_bool_decide; [set_solver|]. repeat case_match; simpl; set_solver. }
  assert (Hop : operationForReason reason = None ↔
    reason ∉ [ReasonDevicePluginDown; ReasonAdvertisementMismatch; ReasonDriverNotLoaded]).
  { unfold operationForReason. repeat case_bool_decide; subst; set_solver. }
  split; [split|].
  - intros (Hc & _ & Hr & _)%PlanRecovery_create. apply Hcreate in Hc. case_match; auto.
  - intros [Hr Hm]. unfold PlanRecovery. rewrite (proj2 Hcreate) by (case_match; auto). simpl.
    destruct (operationForReason reason); [done|]. by destruct (proj1 Hop eq_refl).
  - unfold PlanRecovery. destruct (CreateOperation _); [|done]. simpl. unfold operationForReason.
    repeat (case_bool_decide; [by subst|]). done.
Qed.

(** *** The cooldown of a policy with two rules *)

Definition reversed_order : MapRange :=
  {| range_map V m := reverse (map_to_list m);
     range_map_perm V m := reverse_Permutation (map_to_list m) |}.
(** Selectors are not used by the policy below. *)
Definition no_selectors : Selectors :=
  {| LabelSelector := False; LabelSelectorAsSelector s := match s with end |}.
Definition two_cooldowns : @AcceleratorHealthPolicy no_selectors :=
  @mkHealthPolicy no_selectors "two-cooldowns"
    (@mkHealthPolicySpec no_selectors None (mkHealthChecks 0 0 0 0 0 [])
      {[ReasonDevicePluginDown := mkRule RemediationRequestRecovery 60;
        ReasonDriverNotLoaded := mkRule RemediationRequestRecovery 600]}).

(** The effective cooldown is not a function of the policies: with two
    rules that set different cooldowns, [Resolve] keeps the one Go's map
    iteration visits last, so two passes over the same node at the same moment
    can plan the same recovery under different transaction IDs, which defeats
    the deduplication. *)
Theorem cooldown_depends_on_map_order :
  let eff o := @Resolve o no_selectors [two_cooldowns] ∅ in
  let plan o := PlanRecovery "w1" ReasonDevicePluginDown [] (100 * hour) (eff o) in
  He_RecoveryCooldown (eff map_range_default) ≠ He_RecoveryCooldown (eff reversed_order) ∧
  Plan_Create (plan map_range_default) = true ∧ Plan_Create (plan reversed_order) = true ∧
  Plan_TransactionID (plan map_range_default) ≠ Plan_TransactionID (plan reversed_order).
Proof. vm_compute. split_and!; [discriminate|reflexivity|reflexivity|discriminate]. Qed.
