(* ===== verification/HealthEvaluate.v ===== *)
(** * internal/health: the evaluation of a node

    Models [evaluate.go] and [device.go]: pure functions from the collected
    observations to one state, one reason, and whether the node may receive
    work.  The messages are the source's. *)

From S2P Require Import Prelude GoStrings GoTime ApiTypes OperationModel HealthPolicy.

Definition StateUnknown : string := "Unknown".
Definition StateHealthy : string := "Healthy".
Definition StateDegraded : string := "Degraded".
Definition StateUnhealthy : string := "Unhealthy".
Definition StateQuarantined : string := "Quarantined".
Definition StateRecovering : string := "Recovering".

Definition SignalDeviceDriver : string := "DeviceDriver".
Definition SignalDeviceObservation : string := "DeviceObservation".

Record DeviceInput := mkDeviceInput {
  Di_PCI : string;
  Di_Vendor : string;
  Di_Model : string;
  Di_DriverLoaded : bool;
  Di_MigObservationError : string;
  Di_MigModeCurrent : string;
}.
Record Signal := mkSignal { Sg_Name : string; Sg_Target : string; Sg_OK : bool; Sg_Message : string }.
#[global] Instance Signal_eq_dec : EqDecision Signal.
Proof. solve_decision. Defined.
Record DeviceResult := mkDeviceResult {
  Dv_PCI : string; Dv_Vendor : string; Dv_State : string; Dv_Reason : string; Dv_Signals : list Signal;
}.

Record Inputs := mkHealthInputs {
  Hi_NodeReady : bool;
  Hi_NDRObservedAt : option Z;
  Hi_DriverLoaded : bool;
  Hi_DriverFailures : Z;
  Hi_DevicePluginReady : bool;
  Hi_DevicePluginRolling : bool;
  Hi_Expected : gmap string Z;
  Hi_Actual : gmap string Z;
  Hi_AdvertisementSuspectedAt : option Z;
  Hi_RecoveryFailures : Z;
  Hi_RecoveryInFlight : bool;
  Hi_Devices : list DeviceInput;
  Hi_Now : Z;
}.
Record Result := mkHealthResult {
  Hr_State : string;
  Hr_Reason : string;
  Hr_Signals : list Signal;
  Hr_AllocationAllowed : bool;
  Hr_Devices : list DeviceResult;
}.

(** ** device.go *)

Definition evaluateDevice (p : EffectivePolicy) (d : DeviceInput) : DeviceResult :=
  let obs :=
    if bool_decide (Di_MigObservationError d ≠ "") then
      mkSignal SignalDeviceObservation (Di_PCI d) false
        ("장치를 관측하지 못했다: " +:+ Di_MigObservationError d)
    else mkSignal SignalDeviceObservation (Di_PCI d) true "" in
  if Enabled p SignalDriverHeartbeat && negb (Di_DriverLoaded d) then
    mkDeviceResult (Di_PCI d) (Di_Vendor d) StateUnhealthy ReasonDriverNotLoaded
      [obs; mkSignal SignalDeviceDriver (Di_PCI d) false "이 장치의 드라이버가 로드돼 있지 않다"]
  else
    mkDeviceResult (Di_PCI d) (Di_Vendor d) StateHealthy ""
      [obs; mkSignal SignalDeviceDriver (Di_PCI d) true ""].

Definition EvaluateDevices (devs : list DeviceInput) (p : EffectivePolicy) : list DeviceResult :=
  sort_on Dv_PCI (evaluateDevice p <$> devs).

Definition device_rank : gmap string Z :=
  list_to_map [(StateHealthy, 0); (StateUnknown, 1); (StateDegraded, 2); (StateUnhealthy, 3)].
Definition worse (acc : string * string * Z) (d : DeviceResult) : string * string * Z :=
  match device_rank !! Dv_State d with
  | Some r => if acc.2 <? r then (Dv_State d, Dv_Reason d, r) else acc
  | None => acc
  end.
Definition WorstDeviceState (devs : list DeviceResult) : string * string :=
  (foldl worse ("", "", -1) devs).1.

Definition anyDeviceHealthy (devs : list DeviceResult) : bool :=
  existsb (λ d, bool_decide (Dv_State d = StateHealthy)) devs.

(** ** evaluate.go *)

Definition signal_less (a b : Signal) : bool :=
  if bool_decide (Sg_Name a ≠ Sg_Name b) then str_ltb (Sg_Name a) (Sg_Name b)
  else str_ltb (Sg_Target a) (Sg_Target b).
#[export] Instance signal_less_order : LessOrder signal_less := lex_less_order Sg_Name Sg_Target.
Definition finish (state reason : string) (sigs : list Signal) (allow : bool) : Result :=
  mkHealthResult state reason (sort_slice signal_less sigs) allow [].
Definition with_devices (devs : list DeviceResult) (r : Result) : Result :=
  mkHealthResult (Hr_State r) (Hr_Reason r) (Hr_Signals r) (Hr_AllocationAllowed r) devs.

Definition fresh (at_ : option Z) (now ttl : Z) : bool :=
  match at_ with Some a => time_sub now a <=? ttl | None => false end.
Definition staleMessage (at_ : option Z) (now : Z) : string :=
  match at_ with
  | None => "노드 에이전트 보고가 없다"
  | Some a => "마지막 관측이 " +:+ duration_string (duration_round (time_sub now a) second) +:+ " 전이다"
  end.
Definition graceElapsed (first : option Z) (now grace : Z) : bool :=
  match first with None => false | Some f => grace <=? time_sub now f end.

Definition shortfall_of (expected actual : gmap string Z) (k : string) : list string :=
  let got := mget 0 actual k in
  let want := mget 0 expected k in
  if got <? want then [k +:+ "=" +:+ sprint_Z got +:+ " (기대 " +:+ sprint_Z want +:+ ")"] else [].
Definition shortfalls (expected actual : gmap string Z) : list string :=
  sort_strings (elements (dom expected)) ≫= shortfall_of expected actual.

(** The advertisement axis: the signal, and whether it is a confirmed mismatch. *)
Definition evalAdvertisement (inp : Inputs) (p : EffectivePolicy) : Signal * bool :=
  let sig ok msg := mkSignal SignalAdvertisement "" ok msg in
  match shortfalls (Hi_Expected inp) (Hi_Actual inp) with
  | [] => (sig true "", false)
  | m :: _ =>
      if Hi_DevicePluginRolling inp then (sig true "롤아웃 중이라 판정을 미룬다", false)
      else if graceElapsed (Hi_AdvertisementSuspectedAt inp) (Hi_Now inp) (He_AdvertisementGrace p)
      then (sig false ("광고가 기준선에 못 미친다: " +:+ m), true)
      else (sig true "유예 중", false)
  end.

(** From the devices on: the tail of [Evaluate], [sigs] being what it recorded. *)
Definition evaluateAxes (inp : Inputs) (p : EffectivePolicy) (sigs : list Signal) : Result :=
  let devResults := EvaluateDevices (Hi_Devices inp) p in
  let sigs := sigs ++ (devResults ≫= Dv_Signals) in
  let '(worst, reason) := WorstDeviceState devResults in
  with_devices devResults
    (if negb (bool_decide (worst = "")) && negb (bool_decide (worst = StateHealthy)) then
       if anyDeviceHealthy devResults
       then finish StateDegraded ReasonPartialDeviceFailure sigs true
       else finish worst reason sigs false
     else if Enabled p SignalAdvertisement then
       let '(sig, mismatch) := evalAdvertisement inp p in
       if (mismatch : bool) then finish StateDegraded ReasonAdvertisementMismatch (sigs ++ [sig]) false
       else finish StateHealthy "" (sigs ++ [sig]) true
     else finish StateHealthy "" sigs true).

Definition Evaluate (inp : Inputs) (p : EffectivePolicy) : Result :=
  let sig name ok msg := [mkSignal name "" ok msg] in
  if Enabled p SignalRepeatedFailure && (He_RepeatedFailureThreshold p <=? Hi_RecoveryFailures inp) then
    finish StateQuarantined ReasonRepeatedRecoveryFail
      (sig SignalRepeatedFailure false
        ("복구가 " +:+ sprint_Z (Hi_RecoveryFailures inp) +:+ "회 연속 실패했다")) false
  else
  let sigs := sig SignalRepeatedFailure true "" in
  if Enabled p SignalNodeReady && negb (Hi_NodeReady inp) then
    finish StateUnknown ReasonNodeNotReady
      (sigs ++ sig SignalNodeReady false "노드가 Ready 가 아니다") false
  else
  let sigs := sigs ++ sig SignalNodeReady true "" in
  if Enabled p SignalNDRFreshness && negb (fresh (Hi_NDRObservedAt inp) (Hi_Now inp) (He_NDRFreshness p)) then
    finish StateUnknown ReasonObservationStale
      (sigs ++ sig SignalNDRFreshness false (staleMessage (Hi_NDRObservedAt inp) (Hi_Now inp))) false
  else
  let sigs := sigs ++ sig SignalNDRFreshness true "" in
  if Hi_RecoveryInFlight inp then
    finish StateRecovering "" (sigs ++ sig SignalDevicePlugin true "복구 작업 진행 중") false
  else if Enabled p SignalDriverHeartbeat && negb (Hi_DriverLoaded inp) then
    finish StateUnhealthy ReasonDriverNotLoaded
      (sigs ++ sig SignalDriverHeartbeat false "드라이버가 로드돼 있지 않다") false
  else
  let sigs := sigs ++ sig SignalDriverHeartbeat true "" in
  if Enabled p SignalDevicePlugin && negb (Hi_DevicePluginReady inp) then
    finish StateUnhealthy ReasonDevicePluginDown
      (sigs ++ sig SignalDevicePlugin false "device-plugin 이 Ready 가 아니다") false
  else evaluateAxes inp p (sigs ++ sig SignalDevicePlugin true "").

Definition AllowedTransition (from to : string) : bool :=
  if bool_decide (from = to) || bool_decide (from = "") then true
  else if bool_decide (from = StateQuarantined) then bool_decide (to = StateRecovering)
  else true.

(** ** What the verdict means *)

(** Recovery has failed too often. *)
Definition repeated (inp : Inputs) (p : EffectivePolicy) : Prop :=
  Enabled p SignalRepeatedFailure = true ∧ He_RepeatedFailureThreshold p <= Hi_RecoveryFailures inp.
(** The node is not seen: not Ready, or its report is missing or old. *)
Definition unseen (inp : Inputs) (p : EffectivePolicy) : Prop :=
  (Enabled p SignalNodeReady = true ∧ Hi_NodeReady inp = false) ∨
  (Enabled p SignalNDRFreshness = true ∧
   fresh (Hi_NDRObservedAt inp) (Hi_Now inp) (He_NDRFreshness p) = false).
Definition driver_down (inp : Inputs) (p : EffectivePolicy) : Prop :=
  Enabled p SignalDriverHeartbeat = true ∧ Hi_DriverLoaded inp = false.
Definition plugin_down (inp : Inputs) (p : EffectivePolicy) : Prop :=
  Enabled p SignalDevicePlugin = true ∧ Hi_DevicePluginReady inp = false.
Definition bad_device (p : EffectivePolicy) (d : DeviceInput) : Prop :=
  Enabled p SignalDriverHeartbeat = true ∧ Di_DriverLoaded d = false.
(** Some expected resource is advertised below its baseline. *)
Definition short (expected actual : gmap string Z) : Prop :=
  ∃ k want, expected !! k = Some want ∧ mget 0 actual k < want.

(** The advertisement has been below the baseline for the grace period, and no
    rollout explains it. *)
Definition advertisement_down (inp : Inputs) (p : EffectivePolicy) : Prop :=
  Enabled p SignalAdvertisement = true ∧ Hi_DevicePluginRolling inp = false ∧
  short (Hi_Expected inp) (Hi_Actual inp) ∧
  graceElapsed (Hi_AdvertisementSuspectedAt inp) (Hi_Now inp) (He_AdvertisementGrace p) = true.

(** Nothing is wrong with the node as a whole. *)
Definition node_ok (inp : Inputs) (p : EffectivePolicy) : Prop :=
  ¬ repeated inp p ∧ ¬ unseen inp p ∧ Hi_RecoveryInFlight inp = false ∧
  ¬ driver_down inp p ∧ ¬ plugin_down inp p.

#[global] Instance bad_device_dec p d : Decision (bad_device p d).
Proof. unfold bad_device. apply _. Defined.

Lemma evaluateDevice_state p d :
  Dv_State (evaluateDevice p d) = (if decide (bad_device p d) then StateUnhealthy else StateHealthy) ∧
  Dv_Reason (evaluateDevice p d) = (if decide (bad_device p d) then ReasonDriverNotLoaded else "") ∧
  Dv_PCI (evaluateDevice p d) = Di_PCI d.
Proof.
  unfold evaluateDevice. destruct (decide (bad_device p d)) as [[-> ->]|Hn]; [done|].
  destruct (Enabled p SignalDriverHeartbeat) eqn:?, (Di_DriverLoaded d) eqn:?; try done. by destruct Hn.
Qed.

(** The fold over device results that are only ever healthy or unhealthy. *)
Lemma worse_fold (l : list DeviceResult) :
  (∀ d, d ∈ l → (Dv_State d = StateHealthy ∧ Dv_Reason d = "") ∨
                (Dv_State d = StateUnhealthy ∧ Dv_Reason d = ReasonDriverNotLoaded)) →
  ∀ acc, acc = (StateUnhealthy, ReasonDriverNotLoaded, 3) ∨ acc = (StateHealthy, "", 0) ∨ acc = ("", "", -1) →
  foldl worse acc l =
    if bool_decide (acc.2 = 3) || existsb (λ d, bool_decide (Dv_State d = StateUnhealthy)) l
    then (StateUnhealthy, ReasonDriverNotLoaded, 3)
    else if bool_decide (acc.2 = 0) || negb (bool_decide (l = [])) then (StateHealthy, "", 0) else ("", "", -1).
Proof.
  induction l as [|d l IH]; intros Hl acc Hacc.
  - by destruct Hacc as [-> | [-> | ->]].
  - assert (Hd := Hl d ltac:(by left)). cbn [foldl existsb]. unfold worse at 2.
    assert (Hl' : ∀ d', d' ∈ l → _) by (intros d' ?; apply Hl; by right). specialize (IH Hl').
    destruct Hd as [[-> ->]|[-> ->]], Hacc as [-> | [-> | ->]]; cbn; rewrite IH by auto; cbn;
      by rewrite ?orb_true_r.
Qed.

Lemma EvaluateDevices_elem devs p r :
  r ∈ EvaluateDevices devs p ↔ ∃ d, d ∈ devs ∧ r = evaluateDevice p d.
Proof. unfold EvaluateDevices. rewrite elem_of_sort_on, list_elem_of_fmap. naive_solver. Qed.

Lemma EvaluateDevices_nil devs p : EvaluateDevices devs p = [] ↔ devs = [].
Proof.
  split; [|by intros ->]. intros E. destruct devs as [|d devs]; [done|].
  assert (evaluateDevice p d ∈ EvaluateDevices (d :: devs) p) as Hin
    by (apply EvaluateDevices_elem; exists d; split; [by left|done]).
  rewrite E in Hin. by apply elem_of_nil in Hin.
Qed.

Lemma device_results devs p :
  WorstDeviceState (EvaluateDevices devs p) =
    (if decide (Exists (bad_device p) devs) then (StateUnhealthy, ReasonDriverNotLoaded)
     else if decide (devs = []) then ("", "") else (StateHealthy, "")).
Proof.
  unfold WorstDeviceState. rewrite worse_fold; [| |by right; right].
  2:{ intros r (d & _ & ->)%EvaluateDevices_elem.
      destruct (evaluateDevice_state p d) as (-> & -> & _). case_decide; auto. }
  simpl. destruct (existsb _ _) eqn:Hb.
  - apply existsb_elem in Hb as (r & (d & Hd & ->)%EvaluateDevices_elem & Hs). bool_prop.
    destruct (evaluateDevice_state p d) as (Es & _ & _). rewrite Es in Hs. case_decide; [|done].
    rewrite decide_True; [done|]. by apply Exists_exists; exists d.
  - rewrite decide_False.
    + destruct (decide (devs = [])) as [->|Hn]; [done|].
      rewrite bool_decide_eq_false_2; [done|]. by rewrite EvaluateDevices_nil.
    + intros (d & Hd & Hbad)%Exists_exists. apply not_true_iff_false in Hb. apply Hb, existsb_elem.
      exists (evaluateDevice p d). split; [apply EvaluateDevices_elem; by exists d|].
      destruct (evaluateDevice_state p d) as (-> & _ & _). by rewrite decide_True.
Qed.

Lemma anyDeviceHealthy_true devs p :
  anyDeviceHealthy (EvaluateDevices devs p) = true ↔ Exists (λ d, ¬ bad_device p d) devs.
Proof.
  unfold anyDeviceHealthy. rewrite existsb_elem, Exists_exists. split.
  - intros (r & (d & Hd & ->)%EvaluateDevices_elem & Hs). bool_prop.
    destruct (evaluateDevice_state p d) as (Es & _ & _). rewrite Es in Hs. case_decide; [done|eauto].
  - intros (d & Hd & Hbad). exists (evaluateDevice p d). split; [apply EvaluateDevices_elem; by exists d|].
    destruct (evaluateDevice_state p d) as (-> & _ & _). by rewrite decide_False.
Qed.

Lemma evaluateDevice_PCI p d : Dv_PCI (evaluateDevice p d) = Di_PCI d.
Proof. apply evaluateDevice_state. Qed.

Lemma shortfalls_short expected actual : short expected actual ↔ ∃ m l, shortfalls expected actual = m :: l.
Proof.
  unfold short, shortfalls. split.
  - intros (k & want & Hk & Hlt).
    assert (Hin : k ∈ sort_strings (elements (dom expected)))
      by (rewrite elem_of_sort_strings, elem_of_elements, elem_of_dom; eauto).
    destruct (_ ≫= _) as [|m l] eqn:E; [|eauto]. exfalso.
    assert (Hs : shortfall_of expected actual k = []).
    { destruct (shortfall_of expected actual k) as [|m l] eqn:Em; [done|].
      assert (Hm : m ∈ sort_strings (elements (dom expected)) ≫= shortfall_of expected actual)
        by (apply list_elem_of_bind; exists k; split; [rewrite Em; by left|done]).
      rewrite E in Hm. by apply elem_of_nil in Hm. }
    revert Hs. unfold shortfall_of.
    replace (mget 0 expected k) with want by (unfold mget; by rewrite Hk).
    by rewrite (proj2 (Z.ltb_lt _ _)).
  - intros (m & l & E).
    assert (Hs : m ∈ sort_strings (elements (dom expected)) ≫= shortfall_of expected actual)
      by (rewrite E; by left).
    apply list_elem_of_bind in Hs as (k & Hm & Hk).
    rewrite elem_of_sort_strings, elem_of_elements, elem_of_dom in Hk. destruct Hk as [want Hk].
    exists k, want. split; [done|]. unfold shortfall_of in Hm.
    replace (mget 0 expected k) with want in Hm by (unfold mget; by rewrite Hk).
    destruct (_ <? _) eqn:Hlt; [by apply Z.ltb_lt|]. by apply elem_of_nil in Hm.
Qed.

Lemma evalAdvertisement_down inp p :
  Enabled p SignalAdvertisement = true → ((evalAdvertisement inp p).2 = true ↔ advertisement_down inp p).
Proof.
  intros He. unfold evalAdvertisement, advertisement_down.
  rewrite shortfalls_short. destruct (shortfalls _ _) as [|m l].
  - split; [done|]. intros (_ & _ & (? & ? & ?) & _). done.
  - destruct (Hi_DevicePluginRolling inp), (graceElapsed _ _ _); simpl; naive_solver.
Qed.


(** The state, the reason and the allocation verdict of a result. *)
Definition verdict (r : Result) : string * string * bool := (Hr_State r, Hr_Reason r, Hr_AllocationAllowed r).

#[global] Instance repeated_dec inp p : Decision (repeated inp p).
Proof. unfold repeated. apply _. Defined.
#[global] Instance unseen_dec inp p : Decision (unseen inp p).
Proof. unfold unseen. apply _. Defined.
#[global] Instance driver_down_dec inp p : Decision (driver_down inp p).
Proof. unfold driver_down. apply _. Defined.
#[global] Instance plugin_down_dec inp p : Decision (plugin_down inp p).
Proof. unfold plugin_down. apply _. Defined.

Lemma evaluateAxes_verdict inp p sigs :
  verdict (evaluateAxes inp p sigs) =
    if decide (Exists (bad_device p) (Hi_Devices inp)) then
      if decide (Exists (λ d, ¬ bad_device p d) (Hi_Devices inp))
      then (StateDegraded, ReasonPartialDeviceFailure, true) else (StateUnhealthy, ReasonDriverNotLoaded, false)
    else if Enabled p SignalAdvertisement && (evalAdvertisement inp p).2
    then (StateDegraded, ReasonAdvertisementMismatch, false) else (StateHealthy, "", true).
Proof.
  unfold evaluateAxes. rewrite device_results. pose proof (anyDeviceHealthy_true (Hi_Devices inp) p) as Ha.
  destruct (decide (Exists (bad_device p) _)) as [Hb|Hb]; simpl.
  - destruct (anyDeviceHealthy _) eqn:E; case_decide as Hg; try done; exfalso.
    + by apply Hg, Ha.
    + apply Ha in Hg. congruence.
  - destruct (decide (Hi_Devices inp = [])); simpl; (destruct (Enabled p SignalAdvertisement); [|done]);
      simpl; by destruct (evalAdvertisement inp p) as [? []].
Qed.

(** What [Evaluate] decides, in the order the code looks at it. *)
Lemma Evaluate_verdict inp p :
  verdict (Evaluate inp p) =
    if decide (repeated inp p) then (StateQuarantined, ReasonRepeatedRecoveryFail, false)
    else if decide (unseen inp p) then
      (StateUnknown, if Enabled p SignalNodeReady && negb (Hi_NodeReady inp) then ReasonNodeNotReady
                     else ReasonObservationStale, false)
    else if Hi_RecoveryInFlight inp then (StateRecovering, "", false)
    else if decide (driver_down inp p) then (StateUnhealthy, ReasonDriverNotLoaded, false)
    else if decide (plugin_down inp p) then (StateUnhealthy, ReasonDevicePluginDown, false)
    else verdict (evaluateAxes inp p []).
Proof.
  unfold Evaluate. rewrite evaluateAxes_verdict.
  destruct (Enabled p SignalRepeatedFailure && _) eqn:E1.
  { rewrite decide_True; [done|]. unfold repeated. by bool_prop. }
  rewrite (decide_False (P := repeated _ _)).
  2:{ intros [Ha Hb%Z.leb_le]. rewrite Ha, Hb in E1. done. }
  destruct (Enabled p SignalNodeReady && _) eqn:E2.
  { rewrite decide_True; [done|]. unfold unseen. bool_prop. auto. }
  destruct (Enabled p SignalNDRFreshness && _) eqn:E3.
  { rewrite decide_True; [done|]. unfold unseen. bool_prop. auto. }
  rewrite (decide_False (P := unseen _ _)).
  2:{ intros [[Ha Hb]|[Ha Hb]]; rewrite Ha, Hb in *; done. }
  destruct (Hi_RecoveryInFlight inp); [done|].
  destruct (Enabled p SignalDriverHeartbeat && _) eqn:E4.
  { rewrite decide_True; [done|]. unfold driver_down. by bool_prop. }
  rewrite (decide_False (P := driver_down _ _)) by (intros [Ha Hb]; rewrite Ha, Hb in *; done).
  destruct (Enabled p SignalDevicePlugin && _) eqn:E5.
  { rewrite decide_True; [done|]. unfold plugin_down. by bool_prop. }
  rewrite (decide_False (P := plugin_down _ _)) by (intros [Ha Hb]; rewrite Ha, Hb in *; done).
  by rewrite evaluateAxes_verdict.
Qed.

(** Comparisons of constant states are decided before the conditions are. *)
Lemma eq_true_iff {A} (a b : A) : a = b → (a = b ↔ True).
Proof. tauto. Qed.
Lemma eq_false_iff {A} (a b : A) : a ≠ b → (a = b ↔ False).
Proof. tauto. Qed.
Ltac state_cases :=
  cbn [fst snd];
  repeat match goal with
  | |- context [@eq ?T ?a ?b] =>
      
      first [ rewrite (eq_true_iff a b) by reflexivity
            | rewrite (eq_false_iff a b) by (vm_compute; discriminate) ]
  end; tauto.

(** The verdict on a node, in full: each state is given exactly under the
    condition its priority in the contract says, and new work is allowed
    exactly when nothing is wrong with the node as a whole and either some of
    its devices are bad and some are not, or none is bad and the advertisement
    is not confirmed to be below its baseline. *)
Theorem health_verdict_correct inp p :
  let r := Evaluate inp p in
  let bad := Exists (bad_device p) (Hi_Devices inp) in
  let good := Exists (λ d, ¬ bad_device p d) (Hi_Devices inp) in
  let seen := ¬ repeated inp p ∧ ¬ unseen inp p in
  let idle := seen ∧ Hi_RecoveryInFlight inp = false in
  (Hr_State r = StateQuarantined ↔ repeated inp p) ∧
  (Hr_State r = StateUnknown ↔ ¬ repeated inp p ∧ unseen inp p) ∧
  (Hr_State r = StateRecovering ↔ seen ∧ Hi_RecoveryInFlight inp = true) ∧
  (Hr_State r = StateUnhealthy ↔ idle ∧ (driver_down inp p ∨ plugin_down inp p ∨ (bad ∧ ¬ good))) ∧
  (Hr_State r = StateDegraded ↔ node_ok inp p ∧ ((bad ∧ good) ∨ (¬ bad ∧ advertisement_down inp p))) ∧
  (Hr_State r = StateHealthy ↔ node_ok inp p ∧ ¬ bad ∧ ¬ advertisement_down inp p) ∧
  (Hr_AllocationAllowed r = true ↔
     node_ok inp p ∧ ((bad ∧ good) ∨ (¬ bad ∧ ¬ advertisement_down inp p))).
Proof.
  cbv zeta. pose proof (Evaluate_verdict inp p) as E. rewrite evaluateAxes_verdict in E.
  pose proof (f_equal (λ v, v.1.1) E) as Es. pose proof (f_equal snd E) as Ea.
  cbn [verdict fst snd] in Es, Ea. rewrite Es, Ea. clear E Es Ea.
  assert (Hadv : Enabled p SignalAdvertisement && (evalAdvertisement inp p).2 = true ↔ advertisement_down inp p).
  { destruct (Enabled p SignalAdvertisement) eqn:He; [by apply evalAdvertisement_down|].
    split; [done|]. intros [? _]. congruence. }
  unfold node_ok.
  destruct (decide (repeated inp p)); [state_cases|].
  destruct (decide (unseen inp p)); [state_cases|].
  destruct (Hi_RecoveryInFlight inp); [state_cases|].
  destruct (decide (driver_down inp p)); [state_cases|].
  destruct (decide (plugin_down inp p)); [state_cases|].
  destruct (decide (Exists (bad_device p) _)).
  { case_decide; state_cases. }
  destruct (Enabled p SignalAdvertisement && _).
  - assert (advertisement_down inp p) by by apply Hadv. state_cases.
  - assert (¬ advertisement_down inp p) by by intros ?%Hadv. state_cases.
Qed.

(** ** Devices in any order *)

Definition with_input_devices (devs : list DeviceInput) (inp : Inputs) : Inputs :=
  mkHealthInputs (Hi_NodeReady inp) (Hi_NDRObservedAt inp) (Hi_DriverLoaded inp) (Hi_DriverFailures inp)
    (Hi_DevicePluginReady inp) (Hi_DevicePluginRolling inp) (Hi_Expected inp) (Hi_Actual inp)
    (Hi_AdvertisementSuspectedAt inp) (Hi_RecoveryFailures inp) (Hi_RecoveryInFlight inp) devs (Hi_Now inp).

Lemma EvaluateDevices_perm devs devs' p :
  devs ≡ₚ devs' → NoDup (Di_PCI <$> devs) → EvaluateDevices devs p = EvaluateDevices devs' p.
Proof.
  intros P Hnd. unfold EvaluateDevices. apply sort_on_unique; [|by rewrite P].
  rewrite <-list_fmap_compose. replace (Dv_PCI ∘ evaluateDevice p <$> devs) with (Di_PCI <$> devs); [done|].
  apply list_fmap_ext. intros i d _. simpl. by rewrite evaluateDevice_PCI.
Qed.

(** The order in which the node report lists its devices changes nothing:
    with distinct PCI addresses the whole result, the signals and the device
    list included, is the same for every order, so a detector restart alone
    never makes the stored status differ. *)
Theorem Evaluate_device_order inp devs p
    (Hperm : Hi_Devices inp ≡ₚ devs) (Hpci : NoDup (Di_PCI <$> Hi_Devices inp)) :
  Evaluate (with_input_devices devs inp) p = Evaluate inp p ∧
  StronglySorted (not_after (less_on Dv_PCI)) (Hr_Devices (Evaluate inp p)) ∧
  StronglySorted (not_after signal_less) (Hr_Signals (Evaluate inp p)).
Proof.
  split_and!.
  - unfold Evaluate, evaluateAxes. cbn -[EvaluateDevices]. by rewrite (EvaluateDevices_perm _ _ p Hperm Hpci).
  - unfold Evaluate, evaluateAxes, with_devices.
    repeat (case_match; [apply SSorted_nil|]); repeat case_match; apply sort_slice_sorted; apply _.
  - unfold Evaluate, evaluateAxes, with_devices. repeat case_match; apply sort_slice_sorted; apply _.
Qed.

Lemma Evaluate_device_order_witness :
  let d pci := mkDeviceInput pci "nvidia" "A100" true "" "" in
  let inp devs := mkHealthInputs true (Some 0) true 0 true false ∅ ∅ None 0 false devs 0 in
  Evaluate (inp [d "0000:02:00.0"; d "0000:01:00.0"]) DefaultPolicy =
  Evaluate (inp [d "0000:01:00.0"; d "0000:02:00.0"]) DefaultPolicy.
Proof.
  intros d inp.
  apply (Evaluate_device_order (inp [d "0000:01:00.0"; d "0000:02:00.0"])
           [d "0000:02:00.0"; d "0000:01:00.0"] DefaultPolicy).
  - apply Permutation_swap.
  - decide_compute.
Defined.

(** ** When a recovery is asked for *)

(** A recovery operation is planned only for a node that is seen, not in
    quarantine and not already recovering, on which new work is stopped, and for
    the failure the operation mends: no policy makes an unreachable node, stale
    observations, repeated failures or the failure of some devices among healthy
    ones (whose drivers a recovery would restart too) create an operation. *)
Theorem recovery_is_warranted inp p node pcis now pol
    (Hcreate : Plan_Create (PlanRecovery node (Hr_Reason (Evaluate inp p)) pcis now pol) = true) :
  let t := Plan_Type (PlanRecovery node (Hr_Reason (Evaluate inp p)) pcis now pol) in
  let bad := Exists (bad_device p) (Hi_Devices inp) in
  let good := Exists (λ d, ¬ bad_device p d) (Hi_Devices inp) in
  ¬ repeated inp p ∧ ¬ unseen inp p ∧ Hi_RecoveryInFlight inp = false ∧
  Hr_AllocationAllowed (Evaluate inp p) = false ∧
  ((t = RecoverDevice ∧ (driver_down inp p ∨ (bad ∧ ¬ good))) ∨
   (t = DevicePluginRestart ∧ ¬ driver_down inp p ∧ plugin_down inp p) ∨
   (t = Revalidate ∧ node_ok inp p ∧ ¬ bad ∧ advertisement_down inp p)).
Proof.
  cbv zeta. apply PlanRecovery_create in Hcreate as (_ & Ht & Hr & _). revert Ht Hr.
  generalize (Plan_Type (PlanRecovery node (Hr_Reason (Evaluate inp p)) pcis now pol)) as t. intros t Ht Hr.
  pose proof (Evaluate_verdict inp p) as E. rewrite evaluateAxes_verdict in E.
  pose proof (f_equal (λ v, v.1.2) E) as Er. pose proof (f_equal snd E) as Ea.
  cbn [verdict fst snd] in Er, Ea. rewrite Er in Hr, Ht. rewrite Ea. clear E Er Ea. unfold node_ok.
  destruct (decide (repeated inp p)); [by vm_compute in Ht|].
  destruct (decide (unseen inp p)); [destruct (_ && _); by vm_compute in Ht|].
  destruct (Hi_RecoveryInFlight inp); [by vm_compute in Ht|].
  destruct (decide (driver_down inp p)); [injection Ht as <-; split_and!; auto|].
  destruct (decide (plugin_down inp p)); [injection Ht as <-; split_and!; auto|].
  destruct (decide (Exists (bad_device p) _)).
  { case_decide; [by vm_compute in Ht|]. injection Ht as <-. split_and!; auto. }
  destruct (Enabled p SignalAdvertisement && _) eqn:Eadv; [|by vm_compute in Ht].
  injection Ht as <-. apply andb_true_iff in Eadv as [He Hd]. apply (evalAdvertisement_down _ _ He) in Hd.
  split_and!; auto 10.
Qed.

Lemma recovery_is_warranted_witness :
  let inp := mkHealthInputs true (Some 0) true 0 false false ∅ ∅ None 0 false [] 0 in
  Hr_AllocationAllowed (Evaluate inp DefaultPolicy) = false.
Proof.
  intros inp. apply (recovery_is_warranted inp DefaultPolicy "w1" [] 0 DefaultPolicy). reflexivity.
Defined.

(** ** What a policy's actions do not do *)

(** A policy with other remediation rules and another driver failure threshold. *)
Definition with_actions (threshold : Z) (rules : gmap string RemediationRule) (p : EffectivePolicy) : EffectivePolicy :=
  mkHealthEff (He_NDRFreshness p) threshold (He_AdvertisementGrace p) (He_RepeatedFailureThreshold p)
    (He_RecoveryCooldown p) (He_MonitorInterval p) (He_disabled p) rules.

(** The verdict does not depend on the policy's remediation rules nor on its
    driver failure threshold: [None] does not let work through, [Quarantine]
    quarantines nothing, and the threshold delays no verdict.  The rules only
    decide whether a recovery is asked for. *)
Theorem Evaluate_ignores_actions inp p threshold rules :
  Evaluate inp (with_actions threshold rules p) = Evaluate inp p ∧
  (∀ node reason pcis now rule, rules !! reason = Some rule → Rule_Action rule = RemediationQuarantine →
     Plan_Create (PlanRecovery node reason pcis now (with_actions threshold rules p)) = false).
Proof.
  split; [done|]. intros node reason pcis now rule Hr Ha.
  unfold PlanRecovery, RemediationFor. simpl. by rewrite Hr, Ha.
Qed.
