(* ===== verification/HealthController.v ===== *)
(** * internal/controller/acceleratorhealth_controller.go: the health monitor

    One [Reconcile] reads a node and what is known of it, evaluates it, asks for
    a recovery operation if the verdict calls for one, stores the verdict in the
    node's [AcceleratorHealth] and keeps the quarantine label in step.  The
    client, the verdict counter and the clock are interfaces over an abstract
    world [W]; log lines and the recorder's events are left out. *)

From S2P Require Import Prelude GoStrings GoTime ApiTypes OperationModel OperationStateMachine Verifier OperationController PolicyTypes VendorCap HealthPolicy HealthEvaluate.

Definition QuarantineLabel : string := "kcloud.ai/health.quarantined".
Definition QuarantineReleaseAnnotation : string := "kcloud.ai/health.quarantine-release".
Definition healthRequeue : Z := 30 * second.
Definition healthOwnerKind : string := "AcceleratorHealth".
Definition labelValueTrue : string := "true".
(** upgrade.DriverUpgradingLabelKey *)
Definition DriverUpgradingLabelKey : string := "npu.ai/driver-upgrading".
Definition nvidiaDevicePluginVendorLabel : string := "kcloud.ai/dp-vendor".
Definition FuriosaFamilyPresentLabel : string := "kcloud.ai/furiosa-family.present".
Definition vendorRngd : string := "rngd".
(** internal/partition/nvidia/timeslicing.go *)
Definition dpNamespace : string := "kube-system".
Definition MigActiveNodeLabel : string := "kcloud.ai/nvidia.mig-active".
Definition DevicePluginNameMixed : string := "nvidia-device-plugin".
Definition DevicePluginNameFlat : string := "nvidia-device-plugin-flat".
Definition SharingConfigMapNameMixed : string := "nvidia-device-plugin-sharing".
Definition SharingConfigMapNameFlat : string := "nvidia-device-plugin-flat-sharing".

(** ** What the monitor reads and writes *)

Record Pod := mkPod { Pod_NodeName : string; Pod_Phase : string; Pod_Conditions : list Condition }.
Record DaemonSet := mkDaemonSet {
  Ds_Generation : Z;
  Ds_ObservedGeneration : Z;
  Ds_NumberUnavailable : Z;
  Ds_UpdatedNumberScheduled : Z;
  Ds_DesiredNumberScheduled : Z;
  Ds_NumberReady : Z;
}.

(** [node_patch base node] is [Patch(node, MergeFrom(base))].  The client writes
    the stored object back into the caller's variable on a create. *)
Class HealthAPI (W : Type) `{Selectors} := {
  health_policy_list : M W (list AcceleratorHealthPolicy);
  health_get : string → M W AcceleratorHealth;
  health_create : AcceleratorHealth → M W AcceleratorHealth;
  health_status_update : AcceleratorHealth → M W ();
  op_create : AcceleratorOperation → M W ();
  partition_policy_get : string → M W AcceleratorPartitionPolicy;
  pod_list : string → string → M W (list Pod);
  daemonset_get : string → string → M W DaemonSet;
  node_patch : Node → Node → M W ();
  record_health_verdict : string → string → M W ();
}.

(** ** Pure parts *)

Definition requeueFor (p : EffectivePolicy) : Z :=
  if 0 <? He_MonitorInterval p then He_MonitorInterval p else healthRequeue.

Definition quarantineWorthy (state : string) : bool :=
  negb (bool_decide (state = StateUnknown)) && negb (bool_decide (state = StateHealthy)) &&
  negb (bool_decide (state = "")).

Definition acceleratorPresentLabels : list string :=
  ["kcloud.ai/gpu.present"; FuriosaFamilyPresentLabel] ++
  (PresentNodeLabel <$> Vendors registry) ++ [PresentNodeLabel vendorRngd].
Definition isAcceleratorNode (node : Node) : bool :=
  existsb (contains_string acceleratorPresentLabels) (map_to_list (Node_Labels node)).*1.

Definition nodeReadyForHealth (node : Node) : bool :=
  match find_first (λ c, bool_decide (Cond_Type c = NodeReady)) (Node_Conditions node) with
  | Some c => bool_decide (Cond_Status c = ConditionTrue)
  | None => false
  end.
(** [int32(q.Value())] for every allocatable resource. *)
Definition allocatableSnapshot (node : Node) : gmap string Z := wrap32 <$> Node_Allocatable node.

Definition anyDriverLoaded (devs : list DeviceEntry) : bool :=
  if bool_decide (length devs = 0%nat) then true else existsb De_DriverLoaded devs.

Definition deviceInputsFromNDR (devs : list DeviceEntry) : list DeviceInput :=
  devs ≫= λ d,
    if bool_decide (De_PCIeAddress d = "") then []
    else [mkDeviceInput (De_PCIeAddress d) (to_lower (De_Vendor d)) (De_Model d) (De_DriverLoaded d)
            (De_MigObservationError d) (De_MigModeCurrent d)].

Definition podReady (p : Pod) : bool :=
  if negb (bool_decide (Pod_Phase p = "Running")) then false
  else match find_first (λ c, bool_decide (Cond_Type c = "Ready")) (Pod_Conditions p) with
       | Some c => bool_decide (Cond_Status c = ConditionTrue)
       | None => false
       end.

Definition quarantineReleasedAt (node : Node) : option Z :=
  let v := mget "" (Node_Annotations node) QuarantineReleaseAnnotation in
  if bool_decide (v = "") then None else parse_rfc3339 v.

(** The loop of [recoveryHistory]: failed operations, and whether one runs. *)
Definition count_recovery (node : string) (releasedAt : option Z) (acc : Z * bool)
    (op : AcceleratorOperation) : Z * bool :=
  let (fails, inFlight) := acc in
  if negb (bool_decide (Spec_NodeName (Op_Spec op) = node)) ||
     negb (bool_decide (Owner_Kind (Spec_Owner (Op_Spec op)) = healthOwnerKind)) then acc
  else if match releasedAt with
          | Some rel => negb (time_after (Op_CreationTimestamp op) rel)
          | None => false
          end then acc
  else
    let phase := St_Phase (Op_Status op) in
    if contains_string [OpPhaseRolledBack; OpPhaseManualRecoveryRequired] phase
    then (wrap32 (fails + 1), inFlight)
    else if bool_decide (phase = OpPhaseSucceeded) then acc
    else (fails, true).
Definition count_recoveries (ops : list AcceleratorOperation) (node : string) (releasedAt : option Z) : Z * bool :=
  foldl (count_recovery node releasedAt) (0, false) ops.

(** [name[:n]] for a name longer than [n] bytes. *)
Definition truncate_name (n : nat) (s : string) : string :=
  if (n <? String.length s)%nat then String.substring 0 n s else s.
Definition healthOperationName (txID : string) : string := truncate_name 63 (to_lower txID).

Definition acceleratorOperationVendors : list string := ["nvidia"; "furiosa"; "rebellions"; "tenstorrent"].
(** The loop of [driverRecoveryVendor]; [None] when two vendors have failed. *)
Fixpoint failed_vendor (devices : list DeviceResult) (vendor : string) : option string :=
  match devices with
  | [] => Some vendor
  | d :: ds =>
      if bool_decide (Dv_State d = StateHealthy) || negb (bool_decide (Dv_Reason d = ReasonDriverNotLoaded))
      then failed_vendor ds vendor
      else if negb (bool_decide (vendor = "")) && negb (bool_decide (vendor = Dv_Vendor d)) then None
      else failed_vendor ds (Dv_Vendor d)
  end.
Definition driverRecoveryVendor (t : OpType) (devices : list DeviceResult) : string :=
  if negb (bool_decide (t = RecoverDevice)) then ""
  else match failed_vendor devices "" with
       | Some vendor => if contains_string acceleratorOperationVendors vendor then vendor else ""
       | None => ""
       end.

(** What [nextSuspectedAt] looks for among the signals. *)
Definition suspect (s : Signal) : bool :=
  bool_decide (Sg_Name s = SignalAdvertisement) &&
  (negb (Sg_OK s) || bool_decide (Sg_Message s = "유예 중")).
Definition nextSuspectedAt (prev : AcceleratorHealth) (res : Result) (inp : Inputs) : option Z :=
  if negb (existsb suspect (Hr_Signals res)) then None
  else match Hst_SuspectedAt (Ah_Status prev) with
       | Some t => Some t
       | None => Some (Hi_Now inp)
       end.

Definition toHealthSignals (sigs : list Signal) : list HealthSignal :=
  (λ s, mkHealthSignal (Sg_Name s) (Sg_Target s) (Sg_OK s) (Sg_Message s)) <$> sigs.
Definition toDeviceHealths (devs : list DeviceResult) : list DeviceHealth :=
  (λ d, mkDeviceHealth (Dv_PCI d) (Dv_State d) (Dv_Reason d)) <$> devs.

Definition equalHealthStatus (a b : AcceleratorHealthStatus) : bool :=
  bool_decide (Hst_State a = Hst_State b) && bool_decide (Hst_Reason a = Hst_Reason b) &&
  Bool.eqb (Hst_AllocationAllowed a) (Hst_AllocationAllowed b) &&
  bool_decide (Hst_RecoveryOperationRef a = Hst_RecoveryOperationRef b) &&
  bool_decide (Hst_RecoveryFailures a = Hst_RecoveryFailures b) &&
  bool_decide (length (Hst_Signals a) = length (Hst_Signals b)) &&
  bool_decide (length (Hst_Devices a) = length (Hst_Devices b)) &&
  Bool.eqb (bool_decide (Hst_SuspectedAt a = None)) (bool_decide (Hst_SuspectedAt b = None)) &&
  forallb (λ '(x, y), bool_decide (x = y)) (zip (Hst_Signals a) (Hst_Signals b)) &&
  forallb (λ '(x, y), bool_decide (x = y)) (zip (Hst_Devices a) (Hst_Devices b)).

Definition next_status (prev : AcceleratorHealth) (res : Result) (opRef : string) (inp : Inputs)
    : AcceleratorHealthStatus :=
  let old := Ah_Status prev in
  mkHealthStatus (Hr_State res) (Hr_Reason res) (Hr_AllocationAllowed res) (toHealthSignals (Hr_Signals res))
    (if negb (bool_decide (Hst_State old = Hr_State res)) || is_zero_time (Hst_DetectedAt old)
     then Hi_Now inp else Hst_DetectedAt old)
    (if bool_decide (opRef ≠ "") then opRef else Hst_RecoveryOperationRef old)
    (Hi_RecoveryFailures inp) (nextSuspectedAt prev res inp) (toDeviceHealths (Hr_Devices res)).

(** The transition gate of [Reconcile]: a release newer than the detection lets
    the previous state be forgotten; otherwise a transition that is not allowed
    keeps the previous verdict, with no allocation. *)
Definition released (node : Node) (prev : AcceleratorHealth) : bool :=
  match quarantineReleasedAt node with
  | Some rel => time_after rel (Hst_DetectedAt (Ah_Status prev))
  | None => false
  end.
Definition gate (node : Node) (prev : AcceleratorHealth) (res : Result) : Result :=
  let prevState := if released node prev then "" else Hst_State (Ah_Status prev) in
  if negb (AllowedTransition prevState (Hr_State res)) then
    mkHealthResult (Hst_State (Ah_Status prev)) (Hst_Reason (Ah_Status prev)) (Hr_Signals res) false (Hr_Devices res)
  else res.

(** The vendors a verdict is counted for, each once. *)
Definition verdict_vendors (devs : list DeviceInput) : list string :=
  foldl (λ seen d, if bool_decide (Di_Vendor d = "") || contains_string seen (Di_Vendor d) then seen
                   else seen ++ [Di_Vendor d]) [] devs.

Definition with_labels (labels : gmap string string) (node : Node) : Node :=
  mkNode (Node_Name node) labels (Node_Annotations node) (Node_Unschedulable node) (Node_Allocatable node)
    (Node_Conditions node) (Node_BootID node) (Node_KernelVersion node) (Node_DeletionTimestamp node).

(** ** The reconciler *)

Section Controller.
Context {W : Type} `{VerifyAPI W} `{OperationAPI W} `{Selectors} `{!HealthAPI W} `{Clock W} `{MapRange}.
(** The clock seam [r.Now]. *)
Context (Now : option (W → Z * W)).

Definition loadHealth (node : string) : M W AcceleratorHealth :=
  g ← try (health_get node);
  match g with
  | inl ah => mret ah
  | inr e => if is_not_found e then mret (mkHealth node "" zero_time "" zero_health_status) else throw e
  end.

(** nvidia.DevicePluginTargetForNode and nvidia.DevicePluginRolling *)
Definition DevicePluginTargetForNode (node : string) : M W (string * string) :=
  n ← node_get node;
  mret (if bool_decide (mget "" (Node_Labels n) MigActiveNodeLabel = "true")
        then (DevicePluginNameMixed, SharingConfigMapNameMixed)
        else (DevicePluginNameFlat, SharingConfigMapNameFlat)).
Definition rolling_out (ds : DaemonSet) : bool :=
  (Ds_ObservedGeneration ds <? Ds_Generation ds) || (0 <? Ds_NumberUnavailable ds) ||
  (Ds_UpdatedNumberScheduled ds <? Ds_DesiredNumberScheduled ds) ||
  (Ds_NumberReady ds <? Ds_DesiredNumberScheduled ds).
Definition DevicePluginRolling (node : string) : M W bool :=
  '(dsName, _) ← DevicePluginTargetForNode node;
  g ← try (daemonset_get dpNamespace dsName);
  match g with
  | inl ds => mret (rolling_out ds)
  | inr e => if is_not_found e then mret false else throw e
  end.

Definition usableBaseline (ev : AcceleratorEvidence) (now : Z) : M W bool :=
  if bool_decide (Es_AdvertisedResources (Ev_Status ev) = ∅) then mret false
  else if match Es_ExpiresAt (Ev_Status ev) with Some e => time_after now e | None => false end then mret false
  else if bool_decide (Es_SourcePolicy (Ev_Status ev) = "") then mret false
  else
    g ← try (partition_policy_get (Es_SourcePolicy (Ev_Status ev)));
    mret (match g with
          | inl acpp => match Pp_DeletionTimestamp acpp with None => true | Some t => is_zero_time t end
          | inr _ => false
          end).

Definition devicePluginReady (node : string) (advertised : gmap string Z) : M W bool :=
  pods ← pod_list nvidiaDevicePluginVendorLabel "nvidia";
  let mine := filter (λ p, Pod_NodeName p = node) pods in
  mret (if existsb podReady mine then true
        else if bool_decide (mine = []) then true
        else existsb (λ '(k, v), (0 <? v) && has_prefix k "nvidia.com/") (map_to_list advertised)).

Definition recoveryHistory (node : string) (releasedAt : option Z) : M W (Z * bool) :=
  ops ← op_list; mret (count_recoveries ops node releasedAt).

(** A read that answers "not found" is no observation; other errors stop. *)
Definition optional {A} (m : M W A) : M W (option A) :=
  g ← try m;
  match g with inl a => mret (Some a) | inr e => if is_not_found e then mret None else throw e end.

Definition collectHealthInputs (node : Node) (prev : AcceleratorHealth) : M W Inputs :=
  now ← clock_of Now;
  let actual := allocatableSnapshot node in
  ndr ← optional (report_get (Node_Name node));
  ev ← optional (evidence_get (Node_Name node));
  expected ← match ev with
             | Some ev =>
                 usable ← usableBaseline ev now;
                 mret (if (usable : bool) then Es_AdvertisedResources (Ev_Status ev) else ∅)
             | None => mret ∅
             end;
  ready ← devicePluginReady (Node_Name node) actual;
  rolling ← try (DevicePluginRolling (Node_Name node));
  '(fails, inFlight) ← recoveryHistory (Node_Name node) (quarantineReleasedAt node);
  mret (mkHealthInputs (nodeReadyForHealth node) (r ← ndr; Ndr_ObservedAt r)
    (match ndr with Some r => anyDriverLoaded (Ndr_Devices r) | None => false end) 0
    ready (match rolling with inl b => b | inr _ => true end) expected actual
    (Hst_SuspectedAt (Ah_Status prev)) fails inFlight
    (match ndr with Some r => deviceInputsFromNDR (Ndr_Devices r) | None => [] end) now).

Definition devicePCIs (node : string) : M W (list string) :=
  g ← try (report_get node);
  mret (match g with
        | inr _ => []
        | inl ndr => filter (λ a, a ≠ "") (De_PCIeAddress <$> Ndr_Devices ndr)
        end).

(** The operation a plan asks for. *)
Definition recovery_operation (node : Node) (res : Result) (plan : RecoveryPlan) : AcceleratorOperation :=
  mkOperation (healthOperationName (Plan_TransactionID plan)) 0 "" zero_time
    (mkOperationSpec (Plan_Type plan) (Node_Name node) (driverRecoveryVendor (Plan_Type plan) (Hr_Devices res))
       (Plan_TransactionID plan) (mkOperationOwner healthOwnerKind (Node_Name node) "" 0) (Plan_ResourceKeys plan))
    (mkOpStatus "" 0 "" None [] None "" "" 0 0 0).

Definition ensureRecovery (node : Node) (res : Result) (pol : EffectivePolicy) : M W string :=
  if bool_decide (Hr_Reason res = "") then mret ""
  else
    pcis ← devicePCIs (Node_Name node);
    now ← clock_of Now;
    let plan := PlanRecovery (Node_Name node) (Hr_Reason res) pcis now pol in
    if negb (Plan_Create plan) then mret ""
    else if bool_decide (Plan_Type plan = RecoverDevice) &&
            bool_decide (is_Some (Node_Labels node !! DriverUpgradingLabelKey)) then mret ""
    else
      let op := recovery_operation node res plan in
      g ← try (op_create op);
      match g with
      | inl _ => mret (Op_Name op)
      | inr e => if is_already_exists e then mret (Op_Name op) else throw e
      end.

(** The object to write the status of, and whether it was just created. *)
Definition create_health (node : Node) (prev : AcceleratorHealth) : M W (AcceleratorHealth * bool) :=
  if negb (is_zero_time (Ah_CreationTimestamp prev)) then mret (prev, false)
  else
    g ← try (health_create (mkHealth (Ah_Name prev) (Ah_ResourceVersion prev) (Ah_CreationTimestamp prev)
               (Node_Name node) (Ah_Status prev)));
    match g with
    | inl ah => mret (ah, true)
    | inr e =>
        if is_already_exists e then ah ← health_get (Node_Name node); mret (ah, true) else throw e
    end.
Definition with_health_status (st : AcceleratorHealthStatus) (ah : AcceleratorHealth) : AcceleratorHealth :=
  mkHealth (Ah_Name ah) (Ah_ResourceVersion ah) (Ah_CreationTimestamp ah) (Ah_NodeName ah) st.

Definition writeHealth (node : Node) (prev : AcceleratorHealth) (res : Result) (opRef : string) (inp : Inputs)
    : M W () :=
  '(ah, created) ← create_health node prev;
  let next := next_status prev res opRef inp in
  if negb created && equalHealthStatus (Ah_Status prev) next then mret ()
  else health_status_update (with_health_status next ah).

Definition syncQuarantineLabel (node : Node) (quarantined : bool) : M W () :=
  let cur := bool_decide (mget "" (Node_Labels node) QuarantineLabel = labelValueTrue) in
  if Bool.eqb cur quarantined then mret ()
  else
    let labels := if quarantined then <[QuarantineLabel := labelValueTrue]> (Node_Labels node)
                  else delete QuarantineLabel (Node_Labels node) in
    node_patch node (with_labels labels node).

Fixpoint record_verdicts (vendors : list string) (state : string) : M W () :=
  match vendors with
  | [] => mret ()
  | v :: vs => _ ← record_health_verdict v state; record_verdicts vs state
  end.

Definition Reconcile (name : string) : M W CtrlResult :=
  node ← optional (node_get name);
  match node with
  | None => mret zero_res
  | Some node =>
      if negb (isAcceleratorNode node) then mret zero_res
      else
        policies ← health_policy_list;
        let pol := Resolve policies (Node_Labels node) in
        prev ← loadHealth (Node_Name node);
        inp ← collectHealthInputs node prev;
        let res := gate node prev (Evaluate inp pol) in
        _ ← record_verdicts (verdict_vendors (Hi_Devices inp)) (Hr_State res);
        opRef ← ensureRecovery node res pol;
        _ ← writeHealth node prev res opRef inp;
        _ ← syncQuarantineLabel node (negb (Hr_AllocationAllowed res) && quarantineWorthy (Hr_State res));
        mret (requeue_after (requeueFor pol))
  end.
End Controller.
