(* ===== verification/HealthSafety.v ===== *)
(** * What the health monitor promises

    The API server's documented behaviour towards [HealthController], and the
    theorems about [Reconcile]: the stored verdict is the evaluation's, behind
    the transition gate; quarantine is left only through a recovery or by hand;
    recoveries are deduplicated by name.  A small in-memory cluster satisfies
    the laws. *)

From S2P Require Import Prelude GoStrings GoTime ApiTypes OperationModel OperationStateMachine VerificationPolicy Verifier OperationController PolicyTypes VendorCap HealthPolicy HealthEvaluate HealthController.

(** ** The client's laws

    The stored health objects and operations are seen through [health_view].
    Everything but the three writes below leaves them alone. *)

Class HealthAPILaws (W : Type) `{VerifyAPI W} `{OperationAPI W} `{Selectors} `{!HealthAPI W} `{Clock W} := {
  healths_of : W → gmap string AcceleratorHealth;
  requests_of : W → gmap string AcceleratorOperation;
  health_view : W → gmap string AcceleratorHealth * gmap string AcceleratorOperation :=
    λ w, (healths_of w, requests_of w);
  node_get_keeps n : keeps health_view (node_get n);
  node_get_name n w x w' : node_get n w = (inl x, w') → Node_Name x = n;
  report_get_keeps n : keeps health_view (report_get n);
  evidence_get_keeps n : keeps health_view (evidence_get n);
  op_list_keeps : keeps health_view op_list;
  health_policy_list_keeps : keeps health_view health_policy_list;
  partition_policy_get_keeps n : keeps health_view (partition_policy_get n);
  pod_list_keeps k v : keeps health_view (pod_list k v);
  daemonset_get_keeps ns n : keeps health_view (daemonset_get ns n);
  node_patch_keeps base n : keeps health_view (node_patch base n);
  record_health_verdict_keeps v s : keeps health_view (record_health_verdict v s);
  read_clock_keeps : keeps health_view read_clock;
  (** A read answers with the stored object, whose creation has a time. *)
  health_get_law n w r w' : health_get n w = (r, w') → health_view w' = health_view w ∧
    match r with
    | inl ah => healths_of w !! n = Some ah ∧ Ah_Name ah = n ∧ is_zero_time (Ah_CreationTimestamp ah) = false
    | inr e => err_kind e = KNotFound → healths_of w !! n = None
    end;
  (** A create stores the object under a free name, without its status (a
      subresource); a failed one stores nothing. *)
  health_create_law ah w r w' : health_create ah w = (r, w') →
    match r with
    | inl ah' => healths_of w !! Ah_Name ah = None ∧ Ah_Name ah' = Ah_Name ah ∧
        Ah_Status ah' = zero_health_status ∧
        health_view w' = (<[Ah_Name ah := ah']> (healths_of w), requests_of w)
    | inr _ => health_view w' = health_view w
    end;
  health_status_update_law ah w r w' : health_status_update ah w = (r, w') →
    match r with
    | inl _ => ∃ ah', Ah_Status ah' = Ah_Status ah ∧
        health_view w' = (<[Ah_Name ah := ah']> (healths_of w), requests_of w)
    | inr _ => health_view w' = health_view w
    end;
  op_create_law op w r w' : op_create op w = (r, w') →
    match r with
    | inl _ => requests_of w !! Op_Name op = None ∧ ∃ op', Op_Name op' = Op_Name op ∧ Op_Spec op' = Op_Spec op ∧
        health_view w' = (healths_of w, <[Op_Name op := op']> (requests_of w))
    | inr e => health_view w' = health_view w ∧
        (err_kind e = KAlreadyExists ↔ is_Some (requests_of w !! Op_Name op))
    end;
}.

#[export] Hint Resolve node_get_keeps report_get_keeps evidence_get_keeps op_list_keeps health_policy_list_keeps
  partition_policy_get_keeps pod_list_keeps daemonset_get_keeps node_patch_keeps record_health_verdict_keeps : go_db.

(** Walks a program of reads. *)
Ltac keeps_reads :=
  repeat first
    [ progress auto 1 with go_db nocore
    | apply keeps_ret | apply keeps_throw | apply keeps_try
    | apply keeps_bind; [|intros ?]
    | case_match ].

Section Safety.
Context {W : Type} `{VerifyAPI W} `{OperationAPI W} `{Selectors} `{!HealthAPI W} `{Clock W} `{!HealthAPILaws W} `{MapRange}.
Context (Now : option (W → Z * W)) (Hnow : keeps health_view (clock_of Now)).

Lemma optional_keeps {A} (m : M W A) : keeps health_view m → keeps health_view (optional m).
Proof. intros Hm. unfold optional. keeps_reads. Qed.
#[local] Hint Resolve optional_keeps Hnow : go_db.

Lemma collect_keeps node prev : keeps health_view (collectHealthInputs Now node prev).
Proof.
  unfold collectHealthInputs, usableBaseline, devicePluginReady, DevicePluginRolling, DevicePluginTargetForNode, recoveryHistory.
  keeps_reads.
Qed.

Lemma record_verdicts_keeps vendors state : keeps health_view (record_verdicts vendors state).
Proof. induction vendors; simpl; keeps_reads. Qed.

Lemma sync_keeps node q : keeps health_view (syncQuarantineLabel node q).
Proof. unfold syncQuarantineLabel. keeps_reads. Qed.

Lemma devicePCIs_keeps node : keeps health_view (devicePCIs node).
Proof. unfold devicePCIs. keeps_reads. Qed.

(** *** The stored verdict *)

(** What [loadHealth] answers with. *)
Definition loaded (name : string) (w : W) : AcceleratorHealth :=
  default (mkHealth name "" zero_time "" zero_health_status) (healths_of w !! name).

Lemma loadHealth_inv name w prev w' :
  loadHealth name w = (inl prev, w') → prev = loaded name w ∧ health_view w' = health_view w ∧ Ah_Name prev = name ∧
    (is_zero_time (Ah_CreationTimestamp prev) = true ↔ healths_of w !! name = None).
Proof.
  unfold loadHealth, loaded. intros (g & w1 & Eg & E)%bind_try_inv.
  apply health_get_law in Eg as [Hv Hg]. destruct g as [ah|e].
  - destruct Hg as (Hl & Hn & Hz). injection E as <- <-. rewrite Hl, Hz. done.
  - destruct (is_not_found e) eqn:En; [|done]. injection E as <- <-.
    unfold is_not_found in En. bool_prop. by rewrite Hg.
Qed.

Lemma loadHealth_keeps name : keeps health_view (loadHealth name).
Proof.
  intros w. unfold loadHealth. rewrite bind_try. destruct (health_get name w) as [g w1] eqn:E.
  apply health_get_law in E as [Hv _]. destruct g as [ah|e]; [done|]. simpl. by destruct (is_not_found e).
Qed.

Lemma optional_Some {A} (m : M W A) w a w' : optional m w = (inl (Some a), w') → m w = (inl a, w').
Proof.
  intros (g & w1 & Eg & E)%bind_try_inv. destruct g as [x|e]; [by injection E as -> ->|].
  by destruct (is_not_found e).
Qed.

Definition status_verdict (st : AcceleratorHealthStatus) : string * string * bool :=
  (Hst_State st, Hst_Reason st, Hst_AllocationAllowed st).

Lemma zip_forall_eq {A} `{EqDecision A} (l k : list A) :
  length l = length k → (forallb (λ '(x, y), bool_decide (x = y)) (zip l k) = true ↔ l = k).
Proof.
  revert k. induction l as [|x l IH]; intros [|y k] Hlen; simplify_eq/=; [done|].
  rewrite andb_true_iff, bool_decide_eq_true, IH by done. naive_solver.
Qed.

Lemma equalHealthStatus_true a b :
  equalHealthStatus a b = true ↔
    status_verdict a = status_verdict b ∧ Hst_RecoveryOperationRef a = Hst_RecoveryOperationRef b ∧
    Hst_RecoveryFailures a = Hst_RecoveryFailures b ∧ Hst_Signals a = Hst_Signals b ∧
    Hst_Devices a = Hst_Devices b ∧ (Hst_SuspectedAt a = None ↔ Hst_SuspectedAt b = None).
Proof.
  unfold equalHealthStatus, status_verdict.
  rewrite !andb_true_iff, !bool_decide_eq_true, !eqb_true_iff. split.
  - intros [[[[[[[[[-> ->] ->] ->] ->] Hs] Hd] Ht] Hs'] Hd'].
    rewrite zip_forall_eq in Hs' by done. rewrite zip_forall_eq in Hd' by done.
    split_and!; try done. rewrite <-(bool_decide_eq_true (Hst_SuspectedAt a = None)), Ht. apply bool_decide_eq_true.
  - intros ([= -> -> ->] & -> & -> & Hs & Hd & Ht). rewrite Hs, Hd. rewrite !zip_forall_eq by done.
    split_and!; try done. by apply bool_decide_ext.
Qed.

(** The stored objects before and after a write of [name]'s status. *)
Definition only_changes (name : string) (w w' : W) : Prop :=
  requests_of w' = requests_of w ∧ ∀ m, m ≠ name → healths_of w' !! m = healths_of w !! m.
Definition stored_status (name : string) (w : W) : option AcceleratorHealthStatus :=
  Ah_Status <$> healths_of w !! name.

Lemma view_healths w w' : health_view w' = health_view w → healths_of w' = healths_of w.
Proof. by intros [= ?]. Qed.
Lemma view_requests w w' : health_view w' = health_view w → requests_of w' = requests_of w.
Proof. by intros [= ?]. Qed.
Lemma view_only_changes name w w' : health_view w' = health_view w → only_changes name w w'.
Proof. intros E. split; [by apply view_requests|]. by rewrite (view_healths _ _ E). Qed.

Lemma update_inv ah st w r w' :
  health_status_update (with_health_status st ah) w = (r, w') →
  only_changes (Ah_Name ah) w w' ∧
  match r with
  | inl _ => stored_status (Ah_Name ah) w' = Some st
  | inr _ => healths_of w' = healths_of w
  end.
Proof.
  intros E%health_status_update_law. destruct r as [u|e].
  - destruct E as (ah' & Hst & [= Hh Hr]). unfold only_changes, stored_status. rewrite Hh. split_and!; [done| |].
    + intros m Hm. by rewrite lookup_insert_ne.
    + rewrite lookup_insert_eq. cbn. by rewrite Hst.
  - split; [by apply view_only_changes|by apply view_healths].
Qed.

Lemma create_inv node prev w r w' :
  create_health node prev w = (r, w') → Ah_Name prev = Node_Name node →
  (is_zero_time (Ah_CreationTimestamp prev) = true ↔ healths_of w !! Node_Name node = None) →
  only_changes (Node_Name node) w w' ∧
  (healths_of w' = healths_of w ∨
   healths_of w !! Node_Name node = None ∧ stored_status (Node_Name node) w' = Some zero_health_status) ∧
  match r with
  | inl (ah, created) => Ah_Name ah = Node_Name node ∧ (created = false → ah = prev ∧ healths_of w' = healths_of w ∧
                           healths_of w !! Node_Name node ≠ None)
  | inr _ => True
  end.
Proof.
  intros E Hn Hz. unfold create_health in E. destruct (is_zero_time _) eqn:Ez; simpl in E.
  2:{ injection E as <- <-. split_and!; [done..|by left|done|]. intros _. split_and!; [done..|].
      intros Hnone. by apply Hz in Hnone. }
  apply bind_try_inv in E as (g & w1 & Eg & E). apply health_create_law in Eg. simpl in Eg. rewrite Hn in Eg.
  destruct g as [ah|e].
  - destruct Eg as (Hl & Hn' & Hst & [= Hh Hr]). injection E as <- <-.
    unfold only_changes, stored_status. rewrite Hh. split_and!; [done| | |done|done].
    + intros m Hm. by rewrite lookup_insert_ne.
    + right. rewrite lookup_insert_eq. cbn. by rewrite Hst.
  - destruct (is_already_exists e);
      [|by injection E as <- <-; split_and!; [by apply view_only_changes|left; by apply view_healths|]].
    apply bind_inv in E as [(ah & w2 & E2 & E)|(e' & E2 & ->)];
      apply health_get_law in E2 as [Hv2 Hg2].
    + injection E as <- <-. assert (Hv : health_view w2 = health_view w) by congruence.
      split_and!; [by apply view_only_changes|left; by apply view_healths|apply Hg2|done].
    + assert (Hv : health_view w' = health_view w) by congruence.
      split_and!; [by apply view_only_changes|left; by apply view_healths|done].
Qed.

Lemma writeHealth_inv node prev res opRef inp w r w' :
  writeHealth node prev res opRef inp w = (r, w') →
  prev = loaded (Node_Name node) w → Ah_Name prev = Node_Name node →
  (is_zero_time (Ah_CreationTimestamp prev) = true ↔ healths_of w !! Node_Name node = None) →
  let next := next_status prev res opRef inp in
  only_changes (Node_Name node) w w' ∧
  match r with
  | inl _ => ∃ st, stored_status (Node_Name node) w' = Some st ∧
      (st = next ∨ (st = Ah_Status prev ∧ equalHealthStatus st next = true ∧ health_view w' = health_view w))
  | inr _ => healths_of w' = healths_of w ∨
      healths_of w !! Node_Name node = None ∧ stored_status (Node_Name node) w' = Some zero_health_status
  end.
Proof.
  intros E Hp Hn Hz. cbv zeta. unfold writeHealth in E.
  apply bind_inv in E as [([ah created] & w1 & E1 & E)|(e & E1 & ->)];
    destruct (create_inv _ _ _ _ _ E1 Hn Hz) as ([Hr1 Hm1] & Hc & Hah).
  2: { split; [done|exact Hc]. }
  destruct Hah as [Hname Hcr]. destruct (negb created && _) eqn:Eq.
  - injection E as <- <-. apply andb_true_iff in Eq as [Ec Eq]. apply negb_true_iff in Ec.
    destruct (Hcr Ec) as (_ & Hh & Hne). split; [done|]. exists (Ah_Status prev). split.
    + unfold stored_status. rewrite Hh. destruct (healths_of w !! Node_Name node) as [x|] eqn:El; [|done].
      rewrite Hp. unfold loaded. by rewrite El.
    + right. split_and!; [done..|]. unfold health_view. by rewrite Hh, Hr1.
  - apply update_inv in E as [[Hr2 Hm2] E]. rewrite Hname in *. split.
    { split; [congruence|]. intros m Hm. by rewrite Hm2, Hm1. }
    destruct r; [by eauto|]. unfold stored_status in *. rewrite E. exact Hc.
Qed.

(** *** The recovery request *)

(** [opRef] names a recovery that the plan for [res] asks for at [now]. *)
Definition recovery_named (node : Node) (res : Result) (pol : EffectivePolicy) (now : Z) (pcis : list string)
    (opRef : string) : Prop :=
  let plan := PlanRecovery (Node_Name node) (Hr_Reason res) pcis now pol in
  Plan_Create plan = true ∧ opRef = healthOperationName (Plan_TransactionID plan).

Lemma ensureRecovery_inv node res pol w r w' :
  ensureRecovery Now node res pol w = (r, w') →
  healths_of w' = healths_of w ∧
  match r with
  | inl opRef =>
      (opRef = "" ∧ requests_of w' = requests_of w) ∨
      ∃ pcis now w1 w2, clock_of Now w1 = (inl now, w2) ∧ recovery_named node res pol now pcis opRef ∧
        ((is_Some (requests_of w !! opRef) ∧ requests_of w' = requests_of w) ∨
         requests_of w !! opRef = None ∧ ∃ op,
           Op_Spec op = Op_Spec (recovery_operation node res (PlanRecovery (Node_Name node) (Hr_Reason res) pcis now pol)) ∧
           requests_of w' = <[opRef := op]> (requests_of w))
  | inr _ => requests_of w' = requests_of w
  end.
Proof.
  intros E. unfold ensureRecovery in E. destruct (bool_decide (Hr_Reason res = "")).
  { injection E as <- <-. auto. }
  apply bind_inv in E as [(pcis & w1 & Ep & E)|(e & Ep & ->)];
    pose proof (view_healths _ _ (keeps_run _ _ _ _ _ (devicePCIs_keeps (Node_Name node)) Ep)) as Hh1;
    pose proof (view_requests _ _ (keeps_run _ _ _ _ _ (devicePCIs_keeps (Node_Name node)) Ep)) as Hr1; [|done].
  apply bind_inv in E as [(now & w2 & Et & E)|(e & Et & ->)];
    pose proof (view_healths _ _ (keeps_run _ _ _ _ _ Hnow Et)) as Hh2;
    pose proof (view_requests _ _ (keeps_run _ _ _ _ _ Hnow Et)) as Hr2; [|split; congruence].
  destruct (negb _) eqn:Ec; [injection E as <- <-; split; [congruence|left; split; congruence]|].
  destruct (_ && _); [injection E as <- <-; split; [congruence|left; split; congruence]|].
  apply negb_false_iff in Ec.
  apply bind_try_inv in E as (g & w3 & Eg & E). apply op_create_law in Eg. simpl in Eg.
  assert (Hnamed : recovery_named node res pol now pcis
    (healthOperationName (Plan_TransactionID (PlanRecovery (Node_Name node) (Hr_Reason res) pcis now pol)))) by done.
  destruct g as [u|e].
  - destruct Eg as (Hl & op & _ & Hs & [= Hh3 Hr3]). injection E as <- <-.
    split; [congruence|]. right. exists pcis, now, w1, w2. split_and!; [done..|]. right.
    rewrite <-Hr1, <-Hr2. eauto.
  - destruct Eg as [Hv Hex]. pose proof (view_healths _ _ Hv). pose proof (view_requests _ _ Hv) as Hr3.
    destruct (is_already_exists e) eqn:Ea; injection E as <- <-; [|split; congruence].
    split; [congruence|]. right. exists pcis, now, w1, w2. split_and!; [done..|]. left.
    split; [|congruence]. rewrite <-Hr1, <-Hr2. apply Hex. unfold is_already_exists in Ea. by bool_prop.
Qed.

(** *** One pass *)

(** The pass got as far as a verdict: [node] is what the read answered, [prev]
    the stored health, [inp] the inputs collected, [pol] the resolved policy. *)
Definition judged (w : W) (name : string) (node : Node) (inp : Inputs) (pol : EffectivePolicy) (res : Result) : Prop :=
  let prev := loaded name w in
  (∃ w1, node_get name w = (inl node, w1)) ∧ isAcceleratorNode node = true ∧
  (∃ w1 w2, collectHealthInputs Now node prev w1 = (inl inp, w2)) ∧
  (∃ policies w1 w2, health_policy_list w1 = (inl policies, w2) ∧ pol = Resolve policies (Node_Labels node)) ∧
  res = gate node prev (Evaluate inp pol).

Lemma Reconcile_inv name w r w' :
  Reconcile Now name w = (r, w') →
  health_view w' = health_view w ∧
    ((∃ e, r = inr e) ∨ ∀ node w1, node_get name w = (inl node, w1) → isAcceleratorNode node = false) ∨
  ∃ node inp pol res opRef, judged w name node inp pol res ∧
    (∀ m, m ≠ name → healths_of w' !! m = healths_of w !! m) ∧
    ((healths_of w' = healths_of w ∨ healths_of w !! name = None ∧ stored_status name w' = Some zero_health_status) ∧
       (∃ e, r = inr e) ∨
     ∃ st, stored_status name w' = Some st ∧ let next := next_status (loaded name w) res opRef inp in
       (st = next ∨ (st = Ah_Status (loaded name w) ∧ equalHealthStatus st next = true ∧ healths_of w' = healths_of w))).
Proof.
  intros E. unfold Reconcile in E.
  apply (bind_keeps_inv health_view) in E as [(n & w1 & En & Hv1 & E)|(e & _ & Hv & ->)];
    [|left; by eauto|apply optional_keeps, node_get_keeps].
  destruct n as [node|].
  2:{ injection E as <- <-. left. split; [done|]. right. intros node w2 Eg. unfold optional in En.
      rewrite bind_try, Eg in En. discriminate En. }
  apply optional_Some in En. pose proof (node_get_name _ _ _ _ En) as Hname.
  destruct (isAcceleratorNode node) eqn:Ha; simpl in E; [|injection E as <- <-; left; split; [done|right; congruence]].
  apply (bind_keeps_inv health_view) in E as [(policies & w2 & Epol & Hv2 & E)|(e & _ & Hv & ->)];
    [|left; split; [congruence|eauto]|apply health_policy_list_keeps].
  apply bind_inv in E as [(prev & w3 & Ep & E)|(e & Ep & ->)].
  2:{ left. split; [|eauto]. transitivity (health_view w2); [|congruence]. eapply keeps_run; [|exact Ep]. apply loadHealth_keeps. }
  apply loadHealth_inv in Ep as (Hprev & Hv3 & Hpn & Hz). rewrite Hname in *.
  apply (bind_keeps_inv health_view) in E as [(inp & w4 & Ei & Hv4 & E)|(e & _ & Hv & ->)];
    [|left; split; [congruence|eauto]|apply collect_keeps].
  apply (bind_keeps_inv health_view) in E as [([] & w5 & _ & Hv5 & E)|(e & _ & Hv & ->)];
    [|left; split; [congruence|eauto]|apply record_verdicts_keeps].
  set (res := gate node prev _) in *.
  assert (Hw : healths_of w5 = healths_of w) by (apply view_healths; congruence).
  assert (Hw2 : healths_of w2 = healths_of w) by (apply view_healths; congruence).
  assert (Hl : prev = loaded name w) by (rewrite Hprev; unfold loaded; by rewrite Hw2).
  assert (Hj : judged w name node inp (Resolve policies (Node_Labels node)) res).
  { split_and!; [by exists w1|done|rewrite <-Hl; eauto|by eauto|by rewrite <-Hl]. }
  right. apply bind_inv in E as [(opRef & w6 & Er & E)|(e & Er & ->)];
    apply ensureRecovery_inv in Er as [Hh6 _]; rewrite Hw in Hh6.
  2:{ exists node, inp, (Resolve policies (Node_Labels node)), res, "". split_and!; [done|by rewrite Hh6|left; eauto]. }
  exists node, inp, (Resolve policies (Node_Labels node)), res, opRef. split; [done|].
  assert (Hl6 : prev = loaded (Node_Name node) w6) by (rewrite Hname, Hl; unfold loaded; by rewrite Hh6).
  rewrite <-Hl.
  apply bind_inv in E as [(u & w7 & Ew & E)|(e & Ew & ->)];
    apply writeHealth_inv in Ew as [[_ Hm] Ew]; try done; rewrite Hname, ?Hh6 in *; try congruence.
  2:{ split; [done|]. left. split; [exact Ew|eauto]. }
  assert (Hh' : healths_of w' = healths_of w7).
  { apply view_healths. apply (bind_keeps_inv health_view) in E
      as [(v & w8 & _ & Hv8 & E)|(e & _ & Hv & _)]; [|done|apply sync_keeps]. by injection E as <- <-. }
  split; [intros m Hne; rewrite Hh'; by apply Hm|]. right.
  destruct Ew as (st & Hst & Hcase). exists st. split.
  - unfold stored_status in *. by rewrite Hh'.
  - destruct Hcase as [->|(-> & Heq & Hv7)]; [by left|right]. split_and!; [done..|].
    rewrite Hh', <-Hh6. by apply view_healths.
Qed.

(** *** What the gate lets through *)

Lemma gate_cases node prev res :
  gate node prev res = res ∨
  (released node prev = false ∧ Hst_State (Ah_Status prev) = StateQuarantined ∧
   Hr_State res ≠ StateQuarantined ∧ Hr_State res ≠ StateRecovering ∧
   verdict (gate node prev res) = (StateQuarantined, Hst_Reason (Ah_Status prev), false)).
Proof.
  unfold gate, AllowedTransition. destruct (released node prev); simpl; [left; by rewrite orb_true_r|].
  destruct (_ || _) eqn:E1; [by left|]. apply orb_false_iff in E1 as [E1 E2]. bool_prop.
  case_bool_decide as Eq; [|by left]. case_bool_decide as Er; simpl; [by left|]. right.
  unfold verdict. simpl. split_and!; congruence.
Qed.

(** The states in which no work may be given to the node. *)
Definition withheld (state : string) : Prop :=
  state ∈ [StateQuarantined; StateRecovering; StateUnknown; StateUnhealthy; ""].
Definition status_ok (st : AcceleratorHealthStatus) : Prop :=
  withheld (Hst_State st) → Hst_AllocationAllowed st = false.

Lemma Evaluate_withheld inp pol : withheld (Hr_State (Evaluate inp pol)) → Hr_AllocationAllowed (Evaluate inp pol) = false.
Proof.
  pose proof (Evaluate_verdict inp pol) as E. rewrite evaluateAxes_verdict in E.
  pose proof (f_equal (λ v, v.1.1) E) as Es. pose proof (f_equal snd E) as Ea.
  cbn [verdict fst snd] in Es, Ea. rewrite Es, Ea. clear E Es Ea. unfold withheld.
  repeat case_match; cbn; try done; intros Hs; exfalso; revert Hs; decide_compute.
Qed.

Lemma gate_withheld node prev inp pol :
  let res := gate node prev (Evaluate inp pol) in withheld (Hr_State res) → Hr_AllocationAllowed res = false.
Proof.
  cbv zeta. destruct (gate_cases node prev (Evaluate inp pol)) as [->|(_ & _ & _ & _ & E)].
  - apply Evaluate_withheld.
  - intros _. by injection E.
Qed.

Lemma next_verdict prev res opRef inp : status_verdict (next_status prev res opRef inp) = verdict res.
Proof. done. Qed.
Lemma equal_verdict st prev res opRef inp (Q : Prop) :
  (st = next_status prev res opRef inp ∨
   st = Ah_Status prev ∧ equalHealthStatus st (next_status prev res opRef inp) = true ∧ Q) →
  status_verdict st = verdict res ∧ Hst_Signals st = toHealthSignals (Hr_Signals res) ∧
  Hst_Devices st = toDeviceHealths (Hr_Devices res) ∧ Hst_RecoveryFailures st = Hi_RecoveryFailures inp.
Proof.
  intros [->|(_ & (Hv & _ & Hf & Hs & Hd & _)%equalHealthStatus_true & _)]; [done|]. by rewrite Hv, Hs, Hd, Hf.
Qed.

(** A pass over an accelerator node that succeeds leaves in that node's
    health object exactly the verdict [Evaluate] gives on the inputs the pass
    collected, behind the transition gate, with its signals, its devices and
    the failure count; every other health object stays as it was. *)
Theorem Reconcile_stores_verdict name w node w1 res w'
    (Hnode : node_get name w = (inl node, w1)) (Hacc : isAcceleratorNode node = true)
    (E : Reconcile Now name w = (inl res, w')) :
  ∃ inp pol st,
    (∃ wa wb, collectHealthInputs Now node (loaded name w) wa = (inl inp, wb)) ∧
    (∃ policies wa wb, health_policy_list wa = (inl policies, wb) ∧ pol = Resolve policies (Node_Labels node)) ∧
    stored_status name w' = Some st ∧
    status_verdict st = verdict (gate node (loaded name w) (Evaluate inp pol)) ∧
    Hst_Signals st = toHealthSignals (Hr_Signals (gate node (loaded name w) (Evaluate inp pol))) ∧
    Hst_Devices st = toDeviceHealths (Hr_Devices (gate node (loaded name w) (Evaluate inp pol))) ∧
    Hst_RecoveryFailures st = Hi_RecoveryFailures inp ∧
    (∀ m, m ≠ name → healths_of w' !! m = healths_of w !! m).
Proof.
  apply Reconcile_inv in E as [[_ [[e [=]]|Hno]]|(n & inp & pol & r & opRef & Hj & Hm & [[_ [e [=]]]|(st & Hst & Hcase)])].
  { by rewrite (Hno _ _ Hnode) in Hacc. }
  destruct Hj as ([w2 Hn] & _ & Hc & Hp & ->). rewrite Hnode in Hn. injection Hn as <- <-.
  exists inp, pol, st. pose proof (equal_verdict _ _ _ _ _ _ Hcase) as (Hv & Hs & Hd & Hf).
  done.
Qed.

(** C36. In no reachable state does a node that is quarantined, recovering,
    unknown, unhealthy or not yet judged admit new work: a pass preserves that
    for every stored health object, whether it succeeds or fails half way. *)
Theorem Reconcile_withholds name w r w'
    (Hinv : map_Forall (λ _ ah, status_ok (Ah_Status ah)) (healths_of w))
    (E : Reconcile Now name w = (r, w')) :
  map_Forall (λ _ ah, status_ok (Ah_Status ah)) (healths_of w').
Proof.
  intros m ah Hah. destruct (decide (m = name)) as [->|Hne].
  2:{ apply Reconcile_inv in E as [[Hv _]|(n & inp & pol & res & opRef & _ & Hm & _)].
      - rewrite (view_healths _ _ Hv) in Hah. by eapply Hinv.
      - rewrite Hm in Hah by done. by eapply Hinv. }
  assert (Hst : stored_status name w' = Some (Ah_Status ah)) by (unfold stored_status; by rewrite Hah).
  apply Reconcile_inv in E as [[Hv _]|(n & inp & pol & res & opRef & Hj & _ & [[[Hv|[_ Hz]] _]|(st & Hst' & Hcase)])].
  - rewrite (view_healths _ _ Hv) in Hah. by eapply Hinv.
  - rewrite Hv in Hah. by eapply Hinv.
  - rewrite Hz in Hst. injection Hst as <-. done.
  - rewrite Hst' in Hst. injection Hst as ->. destruct Hj as (_ & _ & _ & _ & ->).
    destruct (equal_verdict _ _ _ _ _ _ Hcase) as (Hv & _).
    unfold status_ok. injection Hv as -> _ ->. apply gate_withheld.
Qed.

(** C35. Quarantine is sticky: as long as nobody has marked the node released at
    a time after the quarantine was detected, a pass over a quarantined node,
    whatever it observes and whether or not it fails, leaves the node
    quarantined or moves it to recovering, and admits no work. *)
Theorem quarantine_sticky name w prev r w'
    (Hprev : healths_of w !! name = Some prev)
    (Hq : Hst_State (Ah_Status prev) = StateQuarantined) (Hok : status_ok (Ah_Status prev))
    (Hrel : ∀ node w1, node_get name w = (inl node, w1) → released node prev = false)
    (E : Reconcile Now name w = (r, w')) :
  ∃ st, stored_status name w' = Some st ∧
    (Hst_State st = StateQuarantined ∨ Hst_State st = StateRecovering) ∧ Hst_AllocationAllowed st = false.
Proof.
  assert (Hload : loaded name w = prev) by (unfold loaded; by rewrite Hprev).
  assert (Hkeep : healths_of w' = healths_of w → ∃ st, stored_status name w' = Some st ∧
    (Hst_State st = StateQuarantined ∨ Hst_State st = StateRecovering) ∧ Hst_AllocationAllowed st = false).
  { intros Hh. exists (Ah_Status prev). unfold stored_status. rewrite Hh, Hprev. split_and!; [done|by left|].
    apply Hok. rewrite Hq. by left. }
  apply Reconcile_inv in E as [[Hv _]|(node & inp & pol & res & opRef & Hj & _ & [[[Hv|[Hn _]] _]|(st & Hst & Hcase)])];
    [by apply Hkeep, view_healths|by apply Hkeep|congruence|].
  exists st. split; [done|]. destruct Hj as ([w1 Hnode] & _ & _ & _ & ->). rewrite Hload in Hcase.
  destruct (equal_verdict _ _ _ _ _ _ Hcase) as (Hv & _).
  specialize (Hrel _ _ Hnode). destruct (gate_cases node prev (Evaluate inp pol)) as [Eg|(_ & _ & _ & _ & Eg)].
  - assert (Hallowed : AllowedTransition StateQuarantined (Hr_State (Evaluate inp pol)) = true).
    { destruct (AllowedTransition _ _) eqn:Et; [done|]. exfalso. apply (f_equal Hr_State) in Eg. revert Eg.
      unfold gate. rewrite Hrel, Hq, Et. simpl. intros Eg. by rewrite <-Eg in Et. }
    injection Hv as Hs _ Ha. rewrite Eg in Hs, Ha. rewrite Hs, Ha.
    assert (Hstate : Hr_State (Evaluate inp pol) = StateQuarantined ∨ Hr_State (Evaluate inp pol) = StateRecovering).
    { unfold AllowedTransition in Hallowed.
      destruct (bool_decide (StateQuarantined = Hr_State _)) eqn:E1; bool_prop; [by left|].
      right. by apply bool_decide_eq_true in Hallowed. }
    split; [done|]. apply Evaluate_withheld. destruct Hstate as [-> | ->]; decide_compute.
  - rewrite Eg in Hv. injection Hv as -> _ ->. auto.
Qed.
End Safety.
