(* ===== verification/HealthRecovery.v ===== *)
(** * Recovery requests: names, windows, history and release

    What the deterministic name of a recovery operation guarantees (and where
    its truncation breaks that), what the history counts, and how a person lifts
    a quarantine. *)

From S2P Require Import Prelude GoStrings GoTime ApiTypes OperationModel OperationStateMachine VerificationPolicy Verifier OperationController PolicyTypes VendorCap HealthPolicy HealthEvaluate HealthController HealthSafety.

(** ** Names *)

Lemma substring_prefix n a b : (n <= String.length a)%nat → String.substring 0 n (a +:+ b) = String.substring 0 n a.
Proof.
  revert a. induction n as [|n IH]; intros a Hn; [by destruct a, b|].
  destruct a as [|c a]; simpl in Hn; [lia|].
  exact (f_equal (String c) (IH a ltac:(lia))).
Qed.

Lemma truncate_name_short n s : (String.length s <= n)%nat → truncate_name n s = s.
Proof. intros Hn. unfold truncate_name. destruct (n <? _)%nat eqn:E; [apply Nat.ltb_lt in E; lia|done]. Qed.
Lemma truncate_name_prefix n a b c :
  (n <= String.length a)%nat → truncate_name n (a +:+ String c b) = String.substring 0 n a.
Proof.
  intros Hn. unfold truncate_name. rewrite string_app_length. simpl.
  rewrite (proj2 (Nat.ltb_lt _ _)) by lia. by apply substring_prefix.
Qed.

Lemma to_lower_transactionID node reason b :
  0 <= b → to_lower (transactionID node reason b) =
    "health-" +:+ to_lower node +:+ "-" +:+ to_lower reason +:+ "-" +:+ sprint_Z b.
Proof. intros Hb. unfold transactionID. rewrite !to_lower_app, to_lower_sprint_Z by done. done. Qed.

Lemma to_lower_reason_no_dash reason : reason ∈ AllReasons → contains_char (to_lower reason) "-" = false.
Proof.
  unfold AllReasons. intros Hin. repeat (apply elem_of_cons in Hin as [->|Hin]; [reflexivity|]).
  by apply elem_of_nil in Hin.
Qed.
Lemma to_lower_reason_inj reason reason' :
  reason ∈ AllReasons → reason' ∈ AllReasons → to_lower reason = to_lower reason' → reason = reason'.
Proof.
  intros H1 H2. pose proof (NoDup_key_inj to_lower AllReasons reason reason') as Hinj.
  apply Hinj; [decide_compute|done|done].
Qed.

(** The name of a recovery operation identifies what it is for, as long as
    the transaction ID fits into 63 bytes: two names are equal exactly when the
    node (node names are lower case), the reason and the cooldown window are. *)
Theorem recovery_names_identify node node' reason reason' b b'
    (Hnode : to_lower node = node) (Hnode' : to_lower node' = node')
    (Hr : reason ∈ AllReasons) (Hr' : reason' ∈ AllReasons) (Hb : 0 <= b) (Hb' : 0 <= b')
    (Hlen : (String.length (transactionID node reason b) <= 63)%nat)
    (Hlen' : (String.length (transactionID node' reason' b') <= 63)%nat) :
  healthOperationName (transactionID node reason b) = healthOperationName (transactionID node' reason' b') ↔
  node = node' ∧ reason = reason' ∧ b = b'.
Proof.
  split; [|by intros (-> & -> & ->)]. unfold healthOperationName.
  rewrite !truncate_name_short by (by rewrite to_lower_length).
  rewrite !to_lower_transactionID, Hnode, Hnode' by done.
  intros (-> & Er & Eb)%transactionID_split;
    [|by apply to_lower_reason_no_dash|by apply to_lower_reason_no_dash|by apply sprint_Z_no_dash|by apply sprint_Z_no_dash].
  split_and!; [done|by apply to_lower_reason_inj|by apply (inj pretty) in Eb].
Qed.

Lemma recovery_names_identify_witness :
  healthOperationName (transactionID "k8s-worker1" ReasonDevicePluginDown 2976336) ≠
  healthOperationName (transactionID "k8s-worker1" ReasonDevicePluginDown 2976337).
Proof.
  intros E. apply (recovery_names_identify "k8s-worker1" "k8s-worker1" ReasonDevicePluginDown ReasonDevicePluginDown
    2976336 2976337) in E as (_ & _ & E); [discriminate E|reflexivity|reflexivity| | |lia|lia| |];
    try decide_compute; vm_compute; lia.
Defined.

(** For a longer node name the cut removes the window: once node and reason
    fill the 63 bytes, every recovery of that node for that reason has the same
    name, whatever its window.  Operations are never deleted, so the first one
    is also the last. *)
Theorem long_node_names_share_recoveries node reason
    (Hlong : (63 <= String.length node + String.length reason + 8)%nat) :
  ∀ b b', 0 <= b → 0 <= b' →
  healthOperationName (transactionID node reason b) = healthOperationName (transactionID node reason b').
Proof.
  assert (Hname : ∀ b, 0 <= b → healthOperationName (transactionID node reason b) =
    String.substring 0 63 ("health-" +:+ to_lower node +:+ "-" +:+ to_lower reason)).
  { intros b Hb. unfold healthOperationName. rewrite to_lower_transactionID by done.
    replace ("health-" +:+ to_lower node +:+ "-" +:+ to_lower reason +:+ "-" +:+ sprint_Z b)
      with (("health-" +:+ to_lower node +:+ "-" +:+ to_lower reason) +:+ String "-" (sprint_Z b)).
    { apply truncate_name_prefix. rewrite !string_app_length, !to_lower_length. simpl. lia. }
    by rewrite <-!string_app_assoc. }
  intros b b' Hb Hb'. by rewrite !Hname.
Qed.

Lemma long_node_names_share_recoveries_witness :
  let node := "ip-10-0-12-34.ap-northeast-2.compute.internal" in
  healthOperationName (transactionID node ReasonDevicePluginDown 2976336) =
  healthOperationName (transactionID node ReasonDevicePluginDown 2976480).
Proof.
  intros node. apply (long_node_names_share_recoveries node ReasonDevicePluginDown); vm_compute; lia || discriminate.
Defined.

(** ** One request per window *)

Section Requests.
Context {W : Type} `{VerifyAPI W} `{OperationAPI W} `{Selectors} `{!HealthAPI W} `{Clock W} `{!HealthAPILaws W} `{MapRange}.
Context (Now : option (W → Z * W)) (Hnow : keeps health_view (clock_of Now)).

(** A pass that asks for a recovery leaves exactly one operation of that
    name stored, owned by the health monitor, for the node and the plan's type;
    every later request under the same name, from whatever state in which the
    operation is still stored, answers with it and creates nothing.  The name
    depends only on the node, the reason and the cooldown window in which the
    clock was read. *)
Theorem ensureRecovery_once node res pol w n w'
    (E : ensureRecovery Now node res pol w = (inl n, w')) (Hn : n ≠ "") :
  healths_of w' = healths_of w ∧
  (∃ now wa wb, clock_of Now wa = (inl now, wb) ∧
     n = healthOperationName (transactionID (Node_Name node) (Hr_Reason res) (bucket_of now pol))) ∧
  is_Some (requests_of w' !! n) ∧
  (requests_of w' = requests_of w ∨
   requests_of w !! n = None ∧ ∃ op, requests_of w' = <[n := op]> (requests_of w) ∧
     Spec_NodeName (Op_Spec op) = Node_Name node ∧
     Spec_Owner (Op_Spec op) = mkOperationOwner healthOwnerKind (Node_Name node) "" 0 ∧
     operationForReason (Hr_Reason res) = Some (Spec_Type (Op_Spec op)) ∧
     (Spec_Vendor (Op_Spec op) = "" ∨ Spec_Vendor (Op_Spec op) ∈ acceleratorOperationVendors)) ∧
  (∀ node2 res2 pol2 v v', is_Some (requests_of v !! n) →
     ensureRecovery Now node2 res2 pol2 v = (inl n, v') → health_view v' = health_view v).
Proof.
  split_and!.
  - by apply ensureRecovery_inv in E as [Hh _].
  - apply ensureRecovery_inv in E as [_ [[-> _]|(pcis & now & wa & wb & Ht & [Hc ->] & _)]]; [done| |done].
    apply PlanRecovery_create in Hc as (_ & _ & _ & ->). eauto 6.
  - apply ensureRecovery_inv in E as [_ [[-> _]|(pcis & now & wa & wb & _ & _ & [[? ->]|(_ & op & _ & ->)])]]; try done.
    rewrite lookup_insert_eq. eauto.
  - apply ensureRecovery_inv in E as [_ [[-> _]|(pcis & now & wa & wb & _ & [Hc _] & [[_ ?]|(Hl & op & Hs & Hr)])]];
      [done|by left| |done].
    right. split; [done|]. exists op. rewrite Hs. apply PlanRecovery_create in Hc as (_ & Ht & _). split_and!; try done.
    simpl. unfold driverRecoveryVendor. case_match; [by left|]. destruct (failed_vendor _ _) as [v|]; [|by left].
    destruct (contains_string _ v) eqn:Ev; [right; by apply contains_string_true|by left].
  - intros node2 res2 pol2 v v' [o Ho] E2.
    apply ensureRecovery_inv in E2 as [Hh [[-> _]|(pcis & now & wa & wb & _ & _ & [[_ Hr]|(Hl & _)])]]; try done.
    + unfold health_view. congruence.
    + congruence.
Qed.
End Requests.

(** ** What the history counts *)

(** An operation that counts: made by the monitor, for the node, after the
    release if there is one. *)
Definition counts (node : string) (releasedAt : option Z) (op : AcceleratorOperation) : Prop :=
  Spec_NodeName (Op_Spec op) = node ∧ Owner_Kind (Spec_Owner (Op_Spec op)) = healthOwnerKind ∧
  match releasedAt with Some rel => rel < Op_CreationTimestamp op | None => True end.
#[global] Instance counts_dec node rel op : Decision (counts node rel op).
Proof. unfold counts. destruct rel; apply _. Defined.
Definition failed (op : AcceleratorOperation) : Prop :=
  St_Phase (Op_Status op) ∈ [OpPhaseRolledBack; OpPhaseManualRecoveryRequired].
Definition unfinished (op : AcceleratorOperation) : Prop :=
  St_Phase (Op_Status op) ∉ [OpPhaseRolledBack; OpPhaseManualRecoveryRequired; OpPhaseSucceeded].
#[global] Instance failed_dec op : Decision (failed op).
Proof. unfold failed. apply _. Defined.
#[global] Instance unfinished_dec op : Decision (unfinished op).
Proof. unfold unfinished. apply _. Defined.

Lemma count_recovery_step node rel n b op :
  count_recovery node rel (n, b) op =
    (if decide (counts node rel op ∧ failed op) then wrap32 (n + 1) else n,
     b || bool_decide (counts node rel op ∧ unfinished op)).
Proof.
  unfold count_recovery. destruct (decide (counts node rel op)) as [Hc|Hc].
  - pose proof Hc as (Hn & Ho & Hr). rewrite (bool_decide_eq_true_2 _ Hn), (bool_decide_eq_true_2 _ Ho). cbn [negb orb].
    assert (Hrel : match rel with Some rel => negb (time_after (Op_CreationTimestamp op) rel) | None => false end = false).
    { destruct rel; [|done]. unfold time_after. apply negb_false_iff. by apply Z.ltb_lt. }
    rewrite Hrel. unfold failed, unfinished.
    destruct (contains_string [OpPhaseRolledBack; OpPhaseManualRecoveryRequired] (St_Phase (Op_Status op))) eqn:Ef.
    + apply contains_string_true in Ef. rewrite decide_True by done.
      rewrite bool_decide_eq_false_2; [by rewrite orb_false_r|]. intros [_ Hu]. set_solver.
    + assert (Hnf : ¬ St_Phase (Op_Status op) ∈ [OpPhaseRolledBack; OpPhaseManualRecoveryRequired])
        by (rewrite <-contains_string_true; congruence).
      rewrite decide_False by tauto. case_bool_decide as Es.
      * rewrite bool_decide_eq_false_2; [by rewrite orb_false_r|]. rewrite Es. intros [_ Hu]. apply Hu. set_solver.
      * rewrite bool_decide_eq_true_2; [by rewrite orb_true_r|]. split; [done|]. set_solver.
  - rewrite decide_False by tauto. rewrite (bool_decide_eq_false_2 (_ ∧ _)) by tauto. rewrite orb_false_r.
    destruct (_ || _) eqn:E1; [done|]. destruct (match rel with Some _ => _ | None => _ end) eqn:E2; [done|].
    exfalso. apply Hc. apply orb_false_iff in E1 as [E1 E3]. unfold counts. bool_prop. split_and!; [done..|].
    destruct rel; [|done]. unfold time_after in E2. bool_prop. lia.
Qed.

Lemma count_recoveries_from node rel ops n b :
  0 <= n → n + Z.of_nat (length ops) <= max_int32 →
  foldl (count_recovery node rel) (n, b) ops =
    (n + Z.of_nat (length (filter (λ op, counts node rel op ∧ failed op) ops)),
     b || bool_decide (Exists (λ op, counts node rel op ∧ unfinished op) ops)).
Proof.
  revert n b. induction ops as [|op ops IH]; intros n b H1 H2.
  - rewrite (bool_decide_eq_false_2 (Exists _ [])), orb_false_r by (by intros ?%Exists_nil).
    rewrite filter_nil. cbn. f_equal. lia.
  - cbn [foldl]. rewrite count_recovery_step. cbn [length] in H2. rewrite filter_cons.
    replace (bool_decide (Exists (λ o, counts node rel o ∧ unfinished o) (op :: ops)))
      with (bool_decide (counts node rel op ∧ unfinished op) || bool_decide (Exists (λ o, counts node rel o ∧ unfinished o) ops))
      by (rewrite <-bool_decide_or; apply bool_decide_ext; by rewrite Exists_cons).
    rewrite orb_assoc. case_decide.
    + rewrite wrap32_id by (unfold is_int32, min_int32; lia). rewrite IH by lia. cbn [length]. f_equal. lia.
    + by rewrite IH by lia.
Qed.

(** The history counts exactly the monitor's own operations for the node
    that were created after the release: failures are those that ended rolled
    back or waiting for a person, and one that has not ended means a recovery
    is running.  After a release nothing created before it counts, and the gate
    lets every verdict through. *)
Theorem recovery_history_and_release ops node prev rel
    (Hlen : Z.of_nat (length ops) <= max_int32) :
  (count_recoveries ops (Node_Name node) rel).1 =
    Z.of_nat (length (filter (λ op, counts (Node_Name node) rel op ∧ failed op) ops)) ∧
  ((count_recoveries ops (Node_Name node) rel).2 = true ↔
     ∃ op, op ∈ ops ∧ counts (Node_Name node) rel op ∧ unfinished op) ∧
  (∀ t, quarantineReleasedAt node = Some t → Hst_DetectedAt (Ah_Status prev) < t →
     (∀ op, op ∈ ops → Op_CreationTimestamp op <= t) →
     count_recoveries ops (Node_Name node) (quarantineReleasedAt node) = (0, false) ∧
     ∀ res, gate node prev res = res).
Proof.
  assert (Hall : ∀ rel, count_recoveries ops (Node_Name node) rel =
    (Z.of_nat (length (filter (λ op, counts (Node_Name node) rel op ∧ failed op) ops)),
     bool_decide (Exists (λ op, counts (Node_Name node) rel op ∧ unfinished op) ops))).
  { intros rel'. unfold count_recoveries. by rewrite count_recoveries_from by lia. }
  rewrite Hall. split_and!; [done|by cbn [snd]; rewrite bool_decide_eq_true, Exists_exists|].
  intros t Ht Hd Hops. split.
  - rewrite Hall, Ht.
    assert (Hnone : ∀ op, op ∈ ops → ¬ counts (Node_Name node) (Some t) op)
      by (intros op Hop (_ & _ & Hc); specialize (Hops op Hop); lia).
    rewrite bool_decide_eq_false_2 by (intros (op & Hop & Hc & _)%Exists_exists; by eapply Hnone).
    by rewrite filter_none by (intros op Hop [Hc _]; by eapply Hnone).
  - intros res. unfold gate, released. rewrite Ht. unfold time_after.
    rewrite (proj2 (Z.ltb_lt _ _)) by done. unfold AllowedTransition.
    replace (bool_decide ("" = "")) with true by done. by rewrite orb_true_r.
Qed.

(** The message of a stale report says how old it is, so it changes with time
    alone, and the status with it. *)
Definition stale_pass (observed now : Z) : Inputs :=
  mkHealthInputs true (Some observed) true 0 true false ∅ ∅ None 0 false [] now.
Definition stale_status (now detected : Z) : AcceleratorHealthStatus :=
  mkHealthStatus StateUnknown ReasonObservationStale false
    (toHealthSignals (Hr_Signals (Evaluate (stale_pass 0 now) DefaultPolicy))) detected "" 0 None [].

(** A node whose report has gone stale is written on every pass: two passes
    a second apart, with nothing else changed, give statuses that
    [equalHealthStatus] tells apart, because the signal's message holds the age. *)
Theorem stale_status_differs_every_pass :
  let prev := mkHealth "w1" "1" hour "w1" (stale_status (100 * second) (100 * second)) in
  let next := next_status prev (Evaluate (stale_pass 0 (101 * second)) DefaultPolicy) "" (stale_pass 0 (101 * second)) in
  status_verdict next = status_verdict (Ah_Status prev) ∧ equalHealthStatus (Ah_Status prev) next = false.
Proof. vm_compute. done. Qed.

(** ** A small cluster that satisfies the laws *)

Record MonitorWorld := mkMonitorWorld {
  Mon_Cluster : MemCluster;
  Mon_Healths : gmap string AcceleratorHealth;
  Mon_Operations : gmap string AcceleratorOperation;
}.
Definition on_monitor_cluster {A} (m : M MemCluster A) : M MonitorWorld A :=
  zoom Mon_Cluster (λ c w, mkMonitorWorld c (Mon_Healths w) (Mon_Operations w)) m.

#[export] Instance monitor_verify : VerifyAPI MonitorWorld := {|
  node_get n := (x ← on_monitor_cluster (node_get n);
    mret (mkNode n (Node_Labels x) (Node_Annotations x) (Node_Unschedulable x) (Node_Allocatable x)
            (Node_Conditions x) (Node_BootID x) (Node_KernelVersion x) (Node_DeletionTimestamp x)));
  report_get n := on_monitor_cluster (report_get n);
  policy_list := on_monitor_cluster policy_list; evidence_get n := on_monitor_cluster (evidence_get n);
  evidence_create e := on_monitor_cluster (evidence_create e);
  evidence_status_update e := on_monitor_cluster (evidence_status_update e);
  evidence_records_inc a b := on_monitor_cluster (evidence_records_inc a b) |}.
#[export] Instance monitor_clock : Clock MonitorWorld := {|
  time_now w := let (t, c) := time_now (Mon_Cluster w) in (t, mkMonitorWorld c (Mon_Healths w) (Mon_Operations w)) |}.
#[export] Instance monitor_operations : OperationAPI MonitorWorld := {|
  op_get n w := (lookup_or_not_found (Mon_Operations w) n, w);
  op_list w := (inl (map_to_list (Mon_Operations w)).*2, w);
  op_status_update o w := (inr (mkErr KConflict "conflict"), w);
|}.
#[export] Instance monitor_selectors : Selectors := no_selectors.
Definition put_health (ah : AcceleratorHealth) (w : MonitorWorld) : MonitorWorld :=
  mkMonitorWorld (Mon_Cluster w) (<[Ah_Name ah := ah]> (Mon_Healths w)) (Mon_Operations w).
(** Objects as the server answers with them: under their own name, created. *)
Definition served (n : string) (ah : AcceleratorHealth) : AcceleratorHealth :=
  mkHealth n (Ah_ResourceVersion ah) hour (Ah_NodeName ah) (Ah_Status ah).
#[export] Instance monitor_health : HealthAPI MonitorWorld := {|
  health_policy_list w := (inl [], w);
  health_get n w := (lookup_or_not_found (map_imap (λ n ah, Some (served n ah)) (Mon_Healths w)) n, w);
  health_create ah w :=
    match Mon_Healths w !! Ah_Name ah with
    | Some _ => (inr (mkErr KAlreadyExists "already exists"), w)
    | None => let ah' := mkHealth (Ah_Name ah) "1" hour (Ah_NodeName ah) zero_health_status in
              (inl ah', put_health ah' w)
    end;
  health_status_update ah w := (inl (), put_health ah w);
  op_create op w :=
    match Mon_Operations w !! Op_Name op with
    | Some _ => (inr (mkErr KAlreadyExists "already exists"), w)
    | None => (inl (), mkMonitorWorld (Mon_Cluster w) (Mon_Healths w) (<[Op_Name op := op]> (Mon_Operations w)))
    end;
  partition_policy_get _ w := (inr (mkErr KNotFound "not found"), w);
  pod_list _ _ w := (inl [], w);
  daemonset_get _ _ w := (inr (mkErr KNotFound "not found"), w);
  node_patch _ _ w := (inl (), w);
  record_health_verdict _ _ w := (inl (), w);
|}.

Lemma on_monitor_cluster_keeps {A B} (f : gmap string AcceleratorHealth → gmap string AcceleratorOperation → B) (m : M MemCluster A) :
  keeps (λ w, f (Mon_Healths w) (Mon_Operations w)) (on_monitor_cluster m).
Proof. intros w. unfold on_monitor_cluster, zoom. by destruct (m _). Qed.

#[export] Instance monitor_laws : HealthAPILaws MonitorWorld.
Proof.
  refine {| healths_of w := map_imap (λ n ah, Some (served n ah)) (Mon_Healths w); requests_of := Mon_Operations |};
    try done; cbv zeta.
  - intros n. apply keeps_bind; [|intros; apply keeps_ret].
    apply (on_monitor_cluster_keeps (λ h o, (map_imap (λ n ah, Some (served n ah)) h, o))).
  - intros n w x w' (y & w1 & _ & E)%bind_inl_inv. by injection E as <- <-.
  - intros n w r w' E. cbn in E. injection E as <- <-. split; [done|]. destruct (lookup_or_not_found _ _) eqn:E.
    + apply lookup_or_not_found_inl in E. split; [done|]. rewrite map_lookup_imap in E.
      by destruct (Mon_Healths w !! n); simplify_eq/=.
    + intros _. by eapply lookup_or_not_found_inr.
  - intros ah w r w' E. cbn in E. destruct (Mon_Healths w !! Ah_Name ah) eqn:El; simplify_eq; [done|].
    split_and!; try done; [by rewrite map_lookup_imap, El|]. cbn.
    by rewrite (map_imap_insert_Some _ _ _ _ (served (Ah_Name ah) (mkHealth (Ah_Name ah) "1" hour (Ah_NodeName ah) zero_health_status))).
  - intros ah w r w' E. cbn in E. simplify_eq. exists (served (Ah_Name ah) ah). split; [done|]. cbn.
    by rewrite (map_imap_insert_Some _ _ _ _ (served (Ah_Name ah) ah)).
  - intros op w r w' E. cbn in E. destruct (Mon_Operations w !! Op_Name op) eqn:El; simplify_eq.
    + split; [done|]. by split; [intros _; eexists|].
    + split; [done|]. by exists op.
Defined.

(** A quarantined node whose pass succeeds, and a healthy one whose device
    plugin has died. *)
Definition monitor_node : Node :=
  mkNode "w1" {["kcloud.ai/nvidia.present" := "true"]} ∅ false ∅ [mkCondition NodeReady ConditionTrue] "boot-1" "6.8" None.
Definition monitor_world (observed : option Z) (driver : bool) (st : AcceleratorHealthStatus) : MonitorWorld :=
  mkMonitorWorld
    (mkMemCluster {["w1" := monitor_node]}
       {["w1" := mkNDR "w1" [mkDeviceEntry "nvidia" "A30" 1 driver "550.2" "" false 24576 "0000:01:00.0" "" "" "" "" "" ""] None observed]}
       [] ∅ (100 * hour))
    {["w1" := mkHealth "w1" "1" hour "w1" st]} ∅.
Definition quarantined_status : AcceleratorHealthStatus :=
  mkHealthStatus StateQuarantined ReasonRepeatedRecoveryFail false [] (2 * hour) "" 3 None [].

#[export] Instance monitor_order : MapRange :=
  {| range_map V m := map_to_list m; range_map_perm V m := Permutation_refl (map_to_list m) |}.

Lemma monitor_clock_keeps : keeps health_view (clock_of (None : option (MonitorWorld → Z * MonitorWorld))).
Proof. intros w. reflexivity. Qed.

Lemma Reconcile_stores_verdict_witness :
  let w := monitor_world (Some (100 * hour)) true quarantined_status in
  ∃ st, stored_status "w1" (Reconcile None "w1" w).2 = Some st ∧ Hst_State st = StateQuarantined.
Proof.
  intros w. destruct (Reconcile None "w1" w) as [r w'] eqn:E.
  destruct r as [r|e]; [|exfalso; vm_compute in E; discriminate E].
  destruct (Reconcile_stores_verdict None monitor_clock_keeps "w1" w monitor_node w r w' eq_refl eq_refl E)
    as (inp & pol & st & _ & _ & Hst & _).
  exists st. split; [exact Hst|]. vm_compute in E. injection E as _ <-. vm_compute in Hst. by injection Hst as <-.
Defined.

Lemma Reconcile_withholds_witness :
  map_Forall (λ _ ah, status_ok (Ah_Status ah))
    (healths_of (Reconcile None "w1" (monitor_world (Some (100 * hour)) true quarantined_status)).2).
Proof.
  destruct (Reconcile None "w1" _) as [r w'] eqn:E.
  apply (fun Hinv => Reconcile_withholds None monitor_clock_keeps "w1" _ r w' Hinv E).
  intros n ah Hah. cbn in Hah. rewrite map_lookup_imap in Hah. cbn in Hah.
  destruct (_ !! n) as [x|] eqn:Ex; [|discriminate Hah]. apply lookup_singleton_Some in Ex as [<- <-].
  injection Hah as <-. intros _. reflexivity.
Defined.

Lemma quarantine_sticky_witness :
  ∃ st, stored_status "w1" (Reconcile None "w1" (monitor_world (Some (100 * hour)) true quarantined_status)).2 = Some st ∧
    (Hst_State st = StateQuarantined ∨ Hst_State st = StateRecovering) ∧ Hst_AllocationAllowed st = false.
Proof.
  destruct (Reconcile None "w1" _) as [r w'] eqn:E.
  apply (quarantine_sticky None monitor_clock_keeps "w1" (monitor_world (Some (100 * hour)) true quarantined_status)
    (mkHealth "w1" "1" hour "w1" quarantined_status) r w'); [vm_compute; reflexivity|reflexivity|intros _; reflexivity| |exact E].
  intros node w1 En. cbn in En. injection En as <- _. reflexivity.
Defined.

Lemma ensureRecovery_once_witness :
  let w := monitor_world None false quarantined_status in
  let res := mkHealthResult StateUnhealthy ReasonDriverNotLoaded [] false [] in
  let n := "health-w1-drivernotloaded-600" in
  is_Some (requests_of (ensureRecovery None monitor_node res DefaultPolicy w).2 !! n).
Proof.
  intros w res n.
  destruct (ensureRecovery None monitor_node res DefaultPolicy w) as [r w'] eqn:E.
  assert (Hr : r = inl n) by (vm_compute in E; injection E as <- _; reflexivity). subst r.
  apply (ensureRecovery_once None monitor_clock_keeps monitor_node res DefaultPolicy w n w' E). discriminate.
Defined.

Lemma recovery_history_and_release_witness :
  let node := mkNode "w1" ∅ {[QuarantineReleaseAnnotation := "1970-01-05T00:00:00Z"]} false ∅ [] "" "" None in
  let prev := mkHealth "w1" "1" hour "w1" quarantined_status in
  let healthy := mkHealthResult StateHealthy "" [] true [] in
  gate node prev healthy = healthy.
Proof.
  intros node prev healthy. apply (recovery_history_and_release [] node prev None) with (t := 96 * hour);
    [vm_compute; discriminate|reflexivity|reflexivity|].
  intros op Hop. by apply elem_of_nil in Hop.
Defined.
