(* ===== verification/IntentResources.v ===== *)
(** * internal/intent: resource names and DRA capability

    Models [resources.go] and [dra.go].  The product table is a nested Go map;
    the code ranges over it in the order the runtime picks, and
    [VendorForResource_spec] says that the answer does not depend on it. *)

From S2P Require Import Prelude GoStrings GoTime ApiTypes PolicyTypes.

(** ** resources.go *)

Definition migResourcePrefix : string := "nvidia.com/mig-".

Definition productResource : gmap string (gmap string string) := list_to_map
  [("nvidia", list_to_map [("", "nvidia.com/gpu")]);
   ("furiosa", list_to_map [("rngd", "furiosa.ai/rngd"); ("warboy", "beta.furiosa.ai/npu")]);
   ("rebellions", list_to_map [("", "rebellions.ai/ATOM")]);
   ("tenstorrent", list_to_map [("", "tenstorrent.com/blackhole")])].

Definition KnownVendor (vendor : string) : bool := bool_decide (is_Some (productResource !! to_lower vendor)).

Definition ValidateDRAMapping (m : AcceleratorMapping) : option GoErr :=
  if Bool.eqb (bool_decide (Map_DeviceClassName m = "")) (bool_decide (Map_DRADriver m = "")) then None
  else Some (errorf ("AcceleratorClass mapping for vendor " +:+ quote (Map_Vendor m) +:+
    " sets only one of deviceClassName/draDriver; set both or neither")).

Section Resources.
Context `{MapRange}.

Definition WholeDeviceResource (vendor product : string) : string + GoErr :=
  match productResource !! to_lower vendor with
  | None => inl ""
  | Some products =>
      match range_map products with
      | [(_, res)] => inl res
      | l =>
          match products !! to_lower product with
          | Some res => inl res
          | None =>
              inr (errorf ("intent: " +:+ vendor +:+ ": cannot determine resource name — product must be one of " +:+
                sprint_list (sort_strings l.*1) +:+ ", got " +:+ quote product))
          end
      end
  end.

Definition PartitionResource (vendor product nativeProfile : string) : string + GoErr :=
  if equal_fold vendor "nvidia" && negb (bool_decide (nativeProfile = "")) then inl (migResourcePrefix +:+ nativeProfile)
  else WholeDeviceResource vendor product.

Definition partitioned_mode (mode : string) : bool :=
  bool_decide (mode = AccessModePartitioned) || bool_decide (mode = AccessModePartitionedShared).
Definition ResourceFor (m : AcceleratorMapping) (mode : string) : string + GoErr :=
  if partitioned_mode mode then PartitionResource (Map_Vendor m) (Map_Product m) (Map_NativeProfile m)
  else WholeDeviceResource (Map_Vendor m) (Map_Product m).

Definition VendorForResource (name : string) : string :=
  if has_prefix name migResourcePrefix then "nvidia"
  else default "" (fst <$> find_first (λ '(_, products), existsb (λ '(_, res), bool_decide (res = name)) (range_map products))
         (range_map productResource)).

(** [res[:i+1]] for the first slash of every resource name, without repetitions. *)
Definition domain_of (res : string) : list string :=
  match cut_at "/" res with Some (d, _) => [d +:+ "/"] | None => [] end.
Definition AcceleratorResourceDomains : list string :=
  sort_strings (foldl (λ domains d, if bool_decide (d ∈ domains) then domains else domains ++ [d]) []
    (range_map productResource ≫= λ '(_, products), range_map products ≫= λ '(_, res), domain_of res)).

(** ** dra.go *)

(** The fields of [resourcev1.ResourceSlice] that are read; the devices as their number. *)
Record ResourceSlice := mkSlice {
  Rs_NodeName : option string; Rs_Driver : string; Rs_PoolName : string; Rs_Devices : Z;
}.
Record DRACapability := mkDRA {
  Dra_APIServed : bool;
  Dra_DeviceClasses : gmap string bool;
  Dra_SlicesByNodeDriver : gmap string (gmap string Z);
  Dra_PoolsByNodeDriver : gmap string (gmap string (list string));
}.
Definition no_dra : DRACapability := mkDRA false ∅ ∅ ∅.

Definition add_slice (out : DRACapability) (s : ResourceSlice) : DRACapability :=
  match Rs_NodeName s with
  | None => out
  | Some node =>
      if bool_decide (node = "") || bool_decide (Rs_Driver s = "") then out
      else
        let counts := default ∅ (Dra_SlicesByNodeDriver out !! node) in
        let pools := default ∅ (Dra_PoolsByNodeDriver out !! node) in
        let have := mget [] pools (Rs_Driver s) in
        mkDRA (Dra_APIServed out) (Dra_DeviceClasses out)
          (<[node := <[Rs_Driver s := wrap32 (mget 0 counts (Rs_Driver s) + wrap32 (Rs_Devices s))]> counts]>
             (Dra_SlicesByNodeDriver out))
          (<[node := if negb (bool_decide (Rs_PoolName s = "")) && negb (contains_string have (Rs_PoolName s))
                     then <[Rs_Driver s := have ++ [Rs_PoolName s]]> pools else pools]>
             (Dra_PoolsByNodeDriver out))
  end.
Definition BuildDRACapability (apiServed : bool) (classes : list string) (slices : list ResourceSlice) : DRACapability :=
  foldl add_slice (mkDRA apiServed (foldl (λ m c, <[c := true]> m) ∅ classes) ∅ ∅) slices.

(** ** What the names say *)

Lemma productResource_vendor_unique name v v' ps ps' p p' :
  productResource !! v = Some ps → ps !! p = Some name →
  productResource !! v' = Some ps' → ps' !! p' = Some name → v = v'.
Proof.
  assert (Hall : map_Forall (λ v ps, map_Forall (λ _ n, map_Forall (λ v' ps', map_Forall (λ _ n', n = n' → v = v')
    (ps' : gmap string string)) productResource) (ps : gmap string string)) productResource) by decide_compute.
  intros H1 H2 H3 H4. by apply (Hall v ps H1 p name H2 v' ps' H3 p' name H4).
Qed.

Lemma VendorForResource_spec name v :
  v ≠ "" → (VendorForResource name = v ↔
    if has_prefix name migResourcePrefix then v = "nvidia"
    else ∃ ps p, productResource !! v = Some ps ∧ ps !! p = Some name).
Proof.
  intros Hv. unfold VendorForResource. destruct (has_prefix _ _); [naive_solver|].
  destruct (find_first _ _) as [[v' ps]|] eqn:E; simpl.
  - apply find_first_Some in E as (l1 & l2 & El & Hex & _).
    assert (Hps : productResource !! v' = Some ps) by (apply elem_of_range_map; rewrite El; set_solver).
    apply existsb_elem in Hex as ([p n] & Hp%elem_of_range_map & Hn). bool_prop. subst n.
    split; [intros <-; eauto|]. intros (ps' & p' & Hps' & Hp'). by eapply productResource_vendor_unique.
  - split; [by intros <-|]. intros (ps & p & Hps & Hp).
    apply find_first_None in E. rewrite Forall_forall in E.
    specialize (E (v, ps) (proj2 (elem_of_range_map _ _ _) Hps)). simpl in E. exfalso.
    assert (Ht : existsb (λ '(_, res), bool_decide (res = name)) (range_map ps) = true).
    { apply existsb_elem. exists (p, name). split; [by apply elem_of_range_map|by apply bool_decide_eq_true]. }
    congruence.
Qed.
End Resources.
