(* ===== verification/IntentGates.v ===== *)
(** * internal/intent: the two gates

    Models [mode.go] and [requirements.go]: whether one node can serve one
    mapping in the requested mode, and whether it meets the requirements.  Both
    must pass; a refusal names the axis to change. *)

From S2P Require Import Prelude GoStrings GoTime ApiTypes PolicyTypes IntentResources.

(** snapshot.go, the input of both gates *)
Record NodeCapability := mkCapability {
  Nc_NodeName : string;
  Nc_Vendor : string;
  Nc_Advertised : gmap string Z;
  Nc_MemoryMiB : Z;
  Nc_Devices : list DeviceStatus;
  Nc_SharingMode : string;
  Nc_SharingReplicas : Z;
  Nc_PartitionProfiles : list string;
  Nc_Stale : bool;
  Nc_StaleReason : string;
  Nc_DRAOwnedVendors : gmap string bool;
  Nc_DRADevices : gmap string Z;
}.

(** ** mode.go *)

Definition AxisMode : string := "spec.accelerator.access.mode".
Definition AxisReplicas : string := "spec.accelerator.access.replicas".
Definition AxisImplementation : string := "spec.accelerator.access.implementation".
Definition AxisProfile : string := "spec.accelerator.class.mappings[].nativeProfile".
Definition AxisProduct : string := "spec.accelerator.class.mappings[].product".
Definition AxisIsolation : string := "spec.accelerator.requirements.minimumIsolation".
Definition AxisMemory : string := "spec.accelerator.requirements.minimumMemory".
Definition AxisAllocationAPI : string := "spec.accelerator.preferences.allocationAPI".
Definition AxisCandidates : string := "candidates".

Record Reject := mkReject { Rj_Axis : string; Rj_Reason : string; Rj_Message : string }.
Definition Reject_Error (r : option Reject) : string :=
  match r with
  | None => ""
  | Some r => Rj_Reason r +:+ ": " +:+ Rj_Message r +:+ " (axis: " +:+ Rj_Axis r +:+ ")"
  end.

Definition axisForImplementation (implementation : string) : string :=
  if negb (bool_decide (implementation = "")) && negb (bool_decide (implementation = ImplementationAuto))
  then AxisImplementation else AxisMode.

Definition pickSharingSupport (sc : SharingCapability) (implementation : string) : SharingModeSupport * string :=
  if bool_decide (implementation = ImplementationTimeSlicing) then (Shc_TimeSlicing sc, ImplementationTimeSlicing)
  else if bool_decide (implementation = ImplementationMultiProcess) then (Shc_MultiProcess sc, ImplementationMultiProcess)
  else if bool_decide (implementation = ImplementationBrokered) then (Shc_Brokered sc, ImplementationBrokered)
  else
    default (Shc_TimeSlicing sc, ImplementationTimeSlicing)
      (find_first (λ '(sup, _), Sms_Supported sup && bool_decide (Sms_Verification sup = VerificationVerified))
         [(Shc_TimeSlicing sc, ImplementationTimeSlicing); (Shc_MultiProcess sc, ImplementationMultiProcess);
          (Shc_Brokered sc, ImplementationBrokered)]).

(** The first refusal in a list of checks. *)
Fixpoint first_reject {A} (check : A → option Reject) (l : list A) : option Reject :=
  match l with
  | [] => None
  | a :: l' => match check a with Some rj => Some rj | None => first_reject check l' end
  end.

(** One device in the loop of [checkSharing]. *)
Definition check_sharing_device (nc : NodeCapability) (access : AccessSpec) (dev : DeviceStatus) : option Reject :=
  let (sup, implName) := pickSharingSupport (Dst_SharingCapability dev) (Acc_Implementation access) in
  let axis := axisForImplementation (Acc_Implementation access) in
  let where_ := "node " +:+ Nc_NodeName nc +:+ " device " +:+ Dst_ID dev +:+ ": " in
  if negb (Sms_Supported sup) then
    Some (mkReject axis AWReasonBackendUnsupported
      (where_ +:+ "sharing." +:+ implName +:+ ".supported=false (" +:+
       (if bool_decide (Sms_Reason sup = "") then "no capability reported" else Sms_Reason sup) +:+ ")"))
  else if negb (bool_decide (Sms_Verification sup = VerificationVerified)) then
    Some (mkReject axis AWReasonCapabilityUnverified
      (where_ +:+ "sharing." +:+ implName +:+ ".verification=" +:+ quote (Sms_Verification sup) +:+ ", not " +:+
       quote VerificationVerified +:+ " — refusing to route a workload to a sharing mode that has not been measured"))
  else if Sms_MaxReplicas sup <=? 0 then
    Some (mkReject AxisReplicas AWReasonCapabilityUnverified
      (where_ +:+ "sharing." +:+ implName +:+ ".maxReplicas is unset, so replicas=" +:+
       sprint_Z (Acc_Replicas access) +:+ " cannot be confirmed"))
  else if Sms_MaxReplicas sup <? Acc_Replicas access then
    Some (mkReject AxisReplicas AWReasonReplicasExceedMax
      (where_ +:+ "access.replicas=" +:+ sprint_Z (Acc_Replicas access) +:+ " exceeds sharing." +:+ implName +:+
       ".maxReplicas=" +:+ sprint_Z (Sms_MaxReplicas sup)))
  else None.

Definition checkSharing (nc : NodeCapability) (access : AccessSpec) : option Reject :=
  if Acc_Replicas access <? 2 then
    Some (mkReject AxisReplicas AWReasonReplicasTooFew
      ("mode " +:+ quote (Acc_Mode access) +:+ " needs access.replicas >= 2 (got " +:+
       sprint_Z (Acc_Replicas access) +:+ "); one sharer is just exclusive"))
  else if bool_decide (length (Nc_Devices nc) = 0%nat) then
    Some (mkReject AxisCandidates AWReasonCapabilityUnverified
      ("node " +:+ Nc_NodeName nc +:+ " reports no device capability, so sharing support cannot be confirmed"))
  else match first_reject (check_sharing_device nc access) (Nc_Devices nc) with
  | Some rj => Some rj
  | None =>
      if bool_decide (Nc_SharingMode nc = SharingModeOversubscribed) then
        Some (mkReject AxisMode AWReasonCapabilityUnverified
          ("node " +:+ Nc_NodeName nc +:+ ": advertisement exceeds reported physical devices for an undetermined reason, so a sharing configuration cannot be confirmed, which mode " +:+
           quote (Acc_Mode access) +:+ " requires"))
      else if negb (bool_decide (Nc_SharingMode nc = SharingModeTimeSliced)) then
        Some (mkReject AxisMode AWReasonSharingNotApplied
          ("node " +:+ Nc_NodeName nc +:+ ": no AcceleratorPartitionPolicy has applied a sharing configuration, which mode " +:+
           quote (Acc_Mode access) +:+ " requires"))
      else if negb (Nc_SharingReplicas nc =? Acc_Replicas access) then
        let verb := if Acc_Replicas access <? Nc_SharingReplicas nc then "larger than" else "smaller than" in
        Some (mkReject AxisReplicas AWReasonReplicasExceedMax
          ("node " +:+ Nc_NodeName nc +:+ ": applied sharing replicas=" +:+ sprint_Z (Nc_SharingReplicas nc) +:+
           " is " +:+ verb +:+ " the requested " +:+ sprint_Z (Acc_Replicas access) +:+ " — the device is split " +:+
           sprint_Z (Nc_SharingReplicas nc) +:+ " ways, not " +:+ sprint_Z (Acc_Replicas access)))
      else None
  end.

Definition shared_mode (mode : string) : bool :=
  bool_decide (mode = AccessModeShared) || bool_decide (mode = AccessModePartitionedShared).

Section Mode.
Context `{MapRange}.

(** The applied partitions against the mode. *)
Definition check_partition (nc : NodeCapability) (access : AccessSpec) (m : AcceleratorMapping) : option Reject :=
  if partitioned_mode (Acc_Mode access) then
    if bool_decide (Map_NativeProfile m = "") then
      Some (mkReject AxisProfile AWReasonProfileNotApplied
        ("vendor " +:+ Map_Vendor m +:+ " mapping has no nativeProfile, which mode " +:+ quote (Acc_Mode access) +:+ " requires"))
    else if negb (contains_string (Nc_PartitionProfiles nc) (Map_NativeProfile m)) then
      Some (mkReject AxisProfile AWReasonProfileNotApplied
        ("node " +:+ Nc_NodeName nc +:+ " has no applied partition profile " +:+ quote (Map_NativeProfile m) +:+
         " (applied: " +:+ sprint_list (Nc_PartitionProfiles nc) +:+ ") — an AcceleratorPartitionPolicy must apply it first"))
    else None
  else if (0 <? Z.of_nat (length (Nc_PartitionProfiles nc))) && negb (equal_fold (Map_Vendor m) "nvidia") then
    Some (mkReject AxisMode AWReasonBackendUnsupported
      ("node " +:+ Nc_NodeName nc +:+ " is partitioned into " +:+ sprint_list (Nc_PartitionProfiles nc) +:+
       ", so it cannot hand out the whole device that mode " +:+ quote (Acc_Mode access) +:+ " asks for"))
  else None.

(** The sharing applied to the node against a mode that is not shared. *)
Definition check_unshared (nc : NodeCapability) (access : AccessSpec) : option Reject :=
  if bool_decide (Nc_SharingMode nc = SharingModeTimeSliced) then
    Some (mkReject AxisMode AWReasonDeviceShared
      ("node " +:+ Nc_NodeName nc +:+ " advertises time-sliced replicas (x" +:+ sprint_Z (Nc_SharingReplicas nc) +:+
       "); a replica is not an independent device, so mode " +:+ quote (Acc_Mode access) +:+ " cannot be satisfied here"))
  else if bool_decide (Nc_SharingMode nc = SharingModeOversubscribed) then
    let ratio := if 0 <? Nc_SharingReplicas nc then "x" +:+ sprint_Z (Nc_SharingReplicas nc) else "an unconfirmed ratio" in
    Some (mkReject AxisMode AWReasonCapabilityUnverified
      ("node " +:+ Nc_NodeName nc +:+ " advertises more units (" +:+ ratio +:+
       ") than the reported physical devices; whether those extra units are independent hardware partitions or unisolated copies of the same device has not been established, so mode " +:+
       quote (Acc_Mode access) +:+ " cannot be satisfied here"))
  else None.

Definition stale_reject (nc : NodeCapability) : Reject :=
  mkReject AxisCandidates AWReasonCapabilityUnverified
    ("node " +:+ Nc_NodeName nc +:+ ": capability data is not trustworthy — " +:+ Nc_StaleReason nc).

Definition CheckMode (nc : NodeCapability) (access : AccessSpec) (m : AcceleratorMapping) : option Reject :=
  if Nc_Stale nc then Some (stale_reject nc)
  else match check_partition nc access m with
  | Some rj => Some rj
  | None =>
      match ResourceFor m (Acc_Mode access) with
      | inr e => Some (mkReject AxisProduct AWReasonNoVendorMapping (err_msg e))
      | inl name =>
          if bool_decide (name = "") then
            Some (mkReject AxisCandidates AWReasonNoVendorMapping
              ("vendor " +:+ quote (Map_Vendor m) +:+ " has no known device-plugin resource name"))
          else if mget 0 (Nc_Advertised nc) name <=? 0 then
            Some (mkReject AxisCandidates AWReasonNoCandidateNodes
              ("node " +:+ Nc_NodeName nc +:+ " does not advertise " +:+ name))
          else if shared_mode (Acc_Mode access) then checkSharing nc access
          else check_unshared nc access
      end
  end.
End Mode.

(** ** requirements.go *)

Definition mibPerGiB : Z := 1024.
Definition bytesPerMiB : Z := 1024 * 1024.

Definition isolationOrder : gmap string Z := list_to_map
  [(IsolationNone, 0); (IsolationProcess, 1); (IsolationSubdevice, 2); (IsolationDevice, 3); (IsolationHardware, 4)].
Definition IsolationRank (level : string) : Z := default (-1) (isolationOrder !! level).

(** The digits before a final "gb" of any case: the regular expression
    [(?i)(\d+)gb$] on the reversed text. *)
Fixpoint leading_digits (l : list ascii) : list Z :=
  match l with
  | [] => []
  | c :: l' => match digit_val c with Some d => d :: leading_digits l' | None => [] end
  end.
Definition profile_digits (s : string) : list Z :=
  match reverse (String.list_ascii_of_string s) with
  | b :: g :: rest =>
      if bool_decide (lower_ascii b = "b"%char) && bool_decide (lower_ascii g = "g"%char)
      then reverse (leading_digits rest) else []
  | _ => []
  end.
(** [strconv.ParseInt] of decimal digits, within an [int64]. *)
Definition digits_value (ds : list Z) : Z := foldl (λ v d, 10 * v + d) 0 ds.
Definition ProfileMemoryMiB (profile : string) : option Z :=
  match profile_digits (trim_space profile) with
  | [] => None
  | ds =>
      let gib := digits_value ds in
      if max_int64 <? gib then None
      else if gib <=? 0 then None
      else Some (wrap64 (gib * mibPerGiB))
  end.

Section Requirements.
Context `{Quantities}.

Definition MergeRequirements (base : AcceleratorRequirements) (override : option AcceleratorRequirements)
    : AcceleratorRequirements :=
  match override with
  | None => base
  | Some o =>
      mkRequirements
        (if IsolationRank (Req_MinimumIsolation base) <? IsolationRank (Req_MinimumIsolation o)
         then Req_MinimumIsolation o else Req_MinimumIsolation base)
        (match Req_MinimumMemory o with
         | Some q =>
             match Req_MinimumMemory base with
             | None => Some q
             | Some q0 => if Quantity_Value q0 <? Quantity_Value q then Some q else Some q0
             end
         | None => Req_MinimumMemory base
         end)
  end.

(** One device in the loop of [checkIsolation]: compute, then memory. *)
Definition check_isolation_device (nc : NodeCapability) (req : AcceleratorRequirements) (want : Z)
    (dev : DeviceStatus) : option Reject :=
  first_reject (λ '(axisName, level),
    let where_ := "node " +:+ Nc_NodeName nc +:+ " device " +:+ Dst_ID dev +:+ ": isolation." +:+ axisName in
    let rank := IsolationRank level in
    if rank <? 0 then
      Some (mkReject AxisIsolation AWReasonCapabilityUnverified
        (where_ +:+ " is unmeasured, so minimumIsolation=" +:+ quote (Req_MinimumIsolation req) +:+ " cannot be confirmed"))
    else if rank <? want then
      Some (mkReject AxisIsolation AWReasonIsolationTooWeak
        (where_ +:+ "=" +:+ quote level +:+ " is weaker than minimumIsolation=" +:+ quote (Req_MinimumIsolation req)))
    else None)
  [("compute", Iso_Compute (Dst_IsolationCapability dev)); ("memory", Iso_Memory (Dst_IsolationCapability dev))].

Definition checkIsolation (nc : NodeCapability) (req : AcceleratorRequirements) (access : AccessSpec) : option Reject :=
  let want := IsolationRank (Req_MinimumIsolation req) in
  if want <? 0 then None
  else if shared_mode (Acc_Mode access) then
    if IsolationRank IsolationNone <? want then
      Some (mkReject AxisIsolation AWReasonIsolationTooWeak
        ("mode " +:+ quote (Acc_Mode access) +:+ ": replica isolation is not measured per mode, so this gate compares at " +:+
         quote IsolationNone +:+ ", which cannot satisfy minimumIsolation=" +:+ quote (Req_MinimumIsolation req) +:+
         " (ACPP status may report a higher per-axis grade for the same node)"))
    else None
  else if bool_decide (length (Nc_Devices nc) = 0%nat) then
    Some (mkReject AxisIsolation AWReasonCapabilityUnverified
      ("node " +:+ Nc_NodeName nc +:+ " reports no device isolation data, so minimumIsolation=" +:+
       quote (Req_MinimumIsolation req) +:+ " cannot be confirmed"))
  else first_reject (check_isolation_device nc req want) (Nc_Devices nc).

(** The memory a node offers: its smallest device, or the size in the profile's name. *)
Definition checkMemory (nc : NodeCapability) (req : AcceleratorRequirements) (access : AccessSpec)
    (m : AcceleratorMapping) : option Reject :=
  match Req_MinimumMemory req with
  | None => None
  | Some q =>
      let wantMiB := Z.quot (Quantity_Value q) bytesPerMiB in
      let judge availMiB source :=
        if availMiB <=? 0 then
          Some (mkReject AxisMemory AWReasonMemoryUnknown
            ("node " +:+ Nc_NodeName nc +:+ " reports no device memory, so minimumMemory=" +:+
             Quantity_String q +:+ " cannot be checked"))
        else if availMiB <? wantMiB then
          Some (mkReject AxisMemory AWReasonMemoryTooSmall
            ("node " +:+ Nc_NodeName nc +:+ " offers " +:+ sprint_Z availMiB +:+ " MiB (" +:+ source +:+
             ") but minimumMemory=" +:+ Quantity_String q +:+ " needs " +:+ sprint_Z wantMiB +:+ " MiB"))
        else None in
      if partitioned_mode (Acc_Mode access) then
        match ProfileMemoryMiB (Map_NativeProfile m) with
        | None =>
            Some (mkReject AxisMemory AWReasonMemoryUnknown
              ("profile " +:+ quote (Map_NativeProfile m) +:+ " does not encode its memory size, so minimumMemory=" +:+
               Quantity_String q +:+ " cannot be checked"))
        | Some mib => judge mib ("profile " +:+ Map_NativeProfile m)
        end
      else judge (Nc_MemoryMiB nc) "NodeDeviceReport memoryMiB"
  end.

Definition CheckRequirements (nc : NodeCapability) (req : AcceleratorRequirements) (access : AccessSpec)
    (m : AcceleratorMapping) : option Reject :=
  if Nc_Stale nc then Some (stale_reject nc)
  else match checkIsolation nc req access with
  | Some rj => Some rj
  | None => checkMemory nc req access m
  end.
End Requirements.

(** ** What passing a gate means *)

(** A branch that refuses, against a condition that fails there. *)
Ltac refuses :=
  split; [discriminate|]; intros;
  repeat match goal with
  | H : _ ∧ _ |- _ => destruct H
  | H : ∃ _, _ |- _ => destruct H
  | H : _ ∨ _ |- _ => destruct H
  end; simplify_eq; first [done | congruence | lia].

Lemma first_reject_None {A} (check : A → option Reject) l :
  first_reject check l = None ↔ ∀ a, a ∈ l → check a = None.
Proof.
  induction l as [|a l IH]; simpl; [split; [intros _ a Ha; by apply elem_of_nil in Ha|done]|].
  destruct (check a) eqn:E.
  - split; [done|]. intros Hall. rewrite Hall in E; [done|by left].
  - rewrite IH. split; [intros Hall b [->|Hb]%elem_of_cons; auto|]. intros Hall b Hb. apply Hall. by right.
Qed.

Lemma two_tests (b1 b2 : bool) (r1 r2 : Reject) :
  (if b1 then Some r1 else if b2 then Some r2 else None) = None ↔ b1 = false ∧ b2 = false.
Proof. by destruct b1, b2; intuition. Qed.

(** A device serves [replicas] sharers with the implementation asked for. *)
Definition device_shares (access : AccessSpec) (dev : DeviceStatus) : Prop :=
  let sup := (pickSharingSupport (Dst_SharingCapability dev) (Acc_Implementation access)).1 in
  Sms_Supported sup = true ∧ Sms_Verification sup = VerificationVerified ∧
  0 < Sms_MaxReplicas sup ∧ Acc_Replicas access <= Sms_MaxReplicas sup.
(** The node is shared the way the request asks: time-sliced into exactly the
    requested number of replicas, by devices all measured to support it. *)
Definition sharing_applied (nc : NodeCapability) (access : AccessSpec) : Prop :=
  2 <= Acc_Replicas access ∧ Nc_Devices nc ≠ [] ∧ (∀ dev, dev ∈ Nc_Devices nc → device_shares access dev) ∧
  Nc_SharingMode nc = SharingModeTimeSliced ∧ Nc_SharingReplicas nc = Acc_Replicas access.

Lemma check_sharing_device_None nc access dev :
  check_sharing_device nc access dev = None ↔ device_shares access dev.
Proof.
  unfold check_sharing_device, device_shares. destruct (pickSharingSupport _ _) as [sup name]. cbn [fst].
  destruct (Sms_Supported sup); simpl; [|refuses].
  destruct (decide (Sms_Verification sup = VerificationVerified)) as [->|Hv].
  - rewrite bool_decide_eq_true_2 by done. simpl.
    destruct (Sms_MaxReplicas sup <=? 0) eqn:E1; [bool_prop; refuses|].
    destruct (Sms_MaxReplicas sup <? _) eqn:E2; bool_prop; [refuses|]. split; [intros _; split_and!; done || lia|done].
  - rewrite bool_decide_eq_false_2 by done. simpl. refuses.
Qed.

Lemma checkSharing_None nc access : checkSharing nc access = None ↔ sharing_applied nc access.
Proof.
  unfold checkSharing, sharing_applied. destruct (Acc_Replicas access <? 2) eqn:E1; bool_prop; [refuses|].
  case_bool_decide as El.
  { split; [done|]. intros (_ & Hd & _). by apply nil_length_inv in El. }
  assert (Hd : Nc_Devices nc ≠ []) by (intros E0; by rewrite E0 in El).
  destruct (first_reject _ _) as [rj|] eqn:Ef.
  { split; [done|]. intros (_ & _ & Hall & _). assert (Hn : first_reject (check_sharing_device nc access) (Nc_Devices nc) = None).
    { apply first_reject_None. intros dev Hdev. by apply check_sharing_device_None, Hall. }
    congruence. }
  assert (Hall : ∀ dev, dev ∈ Nc_Devices nc → device_shares access dev).
  { intros dev Hdev. rewrite first_reject_None in Ef. by apply (check_sharing_device_None nc), Ef. }
  case_bool_decide as Eo; [rewrite Eo; split; [done|]; by intros (_ & _ & _ & [=] & _)|].
  destruct (decide (Nc_SharingMode nc = SharingModeTimeSliced)) as [Et|Ht].
  - rewrite bool_decide_eq_true_2 by done. simpl.
    destruct (Nc_SharingReplicas nc =? Acc_Replicas access) eqn:Er; bool_prop; simpl.
    + split; [|done]. intros _. split_and!; try done; lia.
    + split; [done|]. intros (_ & _ & _ & _ & ?). lia.
  - rewrite bool_decide_eq_false_2 by done. simpl. split; [done|]. by intros (_ & _ & _ & ? & _).
Qed.

Section ModeGate.
Context `{MapRange}.

(** The partitions applied to the node fit the mode. *)
Definition partition_fits (nc : NodeCapability) (access : AccessSpec) (m : AcceleratorMapping) : Prop :=
  if partitioned_mode (Acc_Mode access)
  then Map_NativeProfile m ≠ "" ∧ Map_NativeProfile m ∈ Nc_PartitionProfiles nc
  else Nc_PartitionProfiles nc = [] ∨ equal_fold (Map_Vendor m) "nvidia" = true.
(** The sharing applied to the node fits the mode. *)
Definition sharing_fits (nc : NodeCapability) (access : AccessSpec) : Prop :=
  if shared_mode (Acc_Mode access) then sharing_applied nc access
  else Nc_SharingMode nc ≠ SharingModeTimeSliced ∧ Nc_SharingMode nc ≠ SharingModeOversubscribed.
Definition mode_fits (nc : NodeCapability) (access : AccessSpec) (m : AcceleratorMapping) : Prop :=
  Nc_Stale nc = false ∧ partition_fits nc access m ∧ sharing_fits nc access ∧
  ∃ name, ResourceFor m (Acc_Mode access) = inl name ∧ name ≠ "" ∧ 0 < mget 0 (Nc_Advertised nc) name.

Lemma check_partition_None nc access m : check_partition nc access m = None ↔ partition_fits nc access m.
Proof.
  unfold check_partition, partition_fits. destruct (partitioned_mode _).
  - case_bool_decide; [refuses|]. destruct (contains_string _ _) eqn:Ec; simpl.
    + by apply contains_string_true in Ec.
    + rewrite <-contains_string_true. split; [done|]. intros [_ ?]. congruence.
  - destruct (equal_fold _ _); [rewrite andb_false_r; split; auto|]. rewrite andb_true_r.
    destruct (Nc_PartitionProfiles nc); simpl; [split; auto|refuses].
Qed.

Lemma check_unshared_None nc access :
  check_unshared nc access = None ↔
    Nc_SharingMode nc ≠ SharingModeTimeSliced ∧ Nc_SharingMode nc ≠ SharingModeOversubscribed.
Proof. unfold check_unshared. repeat case_bool_decide; first [refuses|done]. Qed.

Lemma CheckMode_None nc access m : CheckMode nc access m = None ↔ mode_fits nc access m.
Proof.
  unfold CheckMode, mode_fits. destruct (Nc_Stale nc); [refuses|].
  destruct (check_partition nc access m) eqn:Ep.
  { split; [done|]. intros (_ & Hp & _). apply check_partition_None in Hp. congruence. }
  apply check_partition_None in Ep. destruct (ResourceFor m (Acc_Mode access)) as [name|e]; [|refuses].
  case_bool_decide; [refuses|]. destruct (mget 0 (Nc_Advertised nc) name <=? 0) eqn:Ea; bool_prop.
  { split; [done|]. intros (_ & _ & _ & n & [= <-] & _ & ?). lia. }
  assert (Hs : (if shared_mode (Acc_Mode access) then checkSharing nc access else check_unshared nc access) = None
    ↔ sharing_fits nc access).
  { unfold sharing_fits. destruct (shared_mode _); [apply checkSharing_None|apply check_unshared_None]. }
  rewrite Hs. split; [|by intros (_ & _ & ? & _)]. intros ?. split_and!; try done. by exists name.
Qed.

(** The mode gate passes exactly the nodes whose data is current, whose
    applied partitions and sharing are what the mode asks for (a whole or
    exclusive device never comes from a time-sliced or oversubscribed node, a
    shared one only from devices measured to support exactly that many
    sharers), and that advertise the mapping's resource now. *)
Theorem CheckMode_correct nc access m :
  CheckMode nc access m = None ↔
    Nc_Stale nc = false ∧ partition_fits nc access m ∧ sharing_fits nc access ∧
    ∃ name, ResourceFor m (Acc_Mode access) = inl name ∧ name ≠ "" ∧ 0 < mget 0 (Nc_Advertised nc) name.
Proof. apply CheckMode_None. Qed.
End ModeGate.

(** *** Requirements *)

Section RequirementGate.
Context `{Quantities}.

(** A device's compute and memory isolation are measured and at least [want]. *)
Definition device_isolates (want : Z) (dev : DeviceStatus) : Prop :=
  let iso := Dst_IsolationCapability dev in
  0 <= IsolationRank (Iso_Compute iso) ∧ want <= IsolationRank (Iso_Compute iso) ∧
  0 <= IsolationRank (Iso_Memory iso) ∧ want <= IsolationRank (Iso_Memory iso).
Definition isolation_met (nc : NodeCapability) (access : AccessSpec) (want : Z) : Prop :=
  want < 0 ∨ (if shared_mode (Acc_Mode access) then want <= 0
              else Nc_Devices nc ≠ [] ∧ ∀ dev, dev ∈ Nc_Devices nc → device_isolates want dev).
(** The memory a node offers for the mode, in MiB. *)
Definition offered_memory (nc : NodeCapability) (access : AccessSpec) (m : AcceleratorMapping) : option Z :=
  if partitioned_mode (Acc_Mode access) then ProfileMemoryMiB (Map_NativeProfile m) else Some (Nc_MemoryMiB nc).
Definition memory_met (nc : NodeCapability) (access : AccessSpec) (m : AcceleratorMapping) (want : option Quantity) : Prop :=
  match want with
  | None => True
  | Some q => ∃ mib, offered_memory nc access m = Some mib ∧ 0 < mib ∧ Z.quot (Quantity_Value q) bytesPerMiB <= mib
  end.

Lemma checkIsolation_None nc req access :
  checkIsolation nc req access = None ↔ isolation_met nc access (IsolationRank (Req_MinimumIsolation req)).
Proof.
  unfold checkIsolation, isolation_met. generalize (IsolationRank (Req_MinimumIsolation req)) as want. intros want.
  destruct (want <? 0) eqn:Ew; bool_prop; [split; [by left|done]|].
  destruct (shared_mode _).
  { replace (IsolationRank IsolationNone) with 0 by (by vm_compute).
    destruct (0 <? want) eqn:E0; bool_prop; [refuses|]. split; [intros _; right; lia|done]. }
  case_bool_decide as El.
  { split; [done|]. intros [?|[Hd _]]; [lia|]. by apply nil_length_inv in El. }
  assert (Hd : Nc_Devices nc ≠ []) by (intros E0; by rewrite E0 in El). rewrite first_reject_None.
  assert (Hdev : ∀ dev, check_isolation_device nc req want dev = None ↔ device_isolates want dev).
  { intros dev. unfold check_isolation_device, device_isolates. rewrite first_reject_None.
    assert (Haxis : ∀ (r1 r2 : Reject) level, (if IsolationRank level <? 0 then Some r1 else if IsolationRank level <? want
      then Some r2 else None) = None ↔ 0 <= IsolationRank level ∧ want <= IsolationRank level).
    { intros r1 r2 level. by rewrite two_tests, Z.ltb_ge, Z.ltb_ge. }
    split.
    - intros Hall. assert (H1 := Hall ("compute", Iso_Compute (Dst_IsolationCapability dev)) ltac:(by left)).
      assert (H2 := Hall ("memory", Iso_Memory (Dst_IsolationCapability dev)) ltac:(by right; left)).
      cbv beta iota zeta in H1, H2. apply Haxis in H1, H2. tauto.
    - intros (Hc1 & Hc2 & Hm1 & Hm2) ax [->|[->|Hn]%elem_of_cons]%elem_of_cons; [by apply Haxis|by apply Haxis|].
      by apply elem_of_nil in Hn. }
  setoid_rewrite Hdev. split; [intros ?; by right|]. intros [?|[_ Hall]]; [lia|done].
Qed.

Lemma checkMemory_None nc req access m :
  checkMemory nc req access m = None ↔ memory_met nc access m (Req_MinimumMemory req).
Proof.
  unfold checkMemory, memory_met, offered_memory. destruct (Req_MinimumMemory req) as [q|]; [|done].
  assert (Hj : ∀ mib (r1 r2 : Reject), (if mib <=? 0 then Some r1 else if mib <? Z.quot (Quantity_Value q) bytesPerMiB
    then Some r2 else None) = None ↔ 0 < mib ∧ Z.quot (Quantity_Value q) bytesPerMiB <= mib).
  { intros mib r1 r2. by rewrite two_tests, Z.leb_gt, Z.ltb_ge. }
  destruct (partitioned_mode _).
  - destruct (ProfileMemoryMiB _) as [mib|]; [|refuses]. rewrite Hj. split; [eauto|].
    by intros (mib' & [= ->] & ?).
  - rewrite Hj. split; [eauto|]. by intros (mib' & [= ->] & ?).
Qed.

Lemma CheckRequirements_None nc req access m :
  CheckRequirements nc req access m = None ↔
    Nc_Stale nc = false ∧ isolation_met nc access (IsolationRank (Req_MinimumIsolation req)) ∧
    memory_met nc access m (Req_MinimumMemory req).
Proof.
  unfold CheckRequirements. destruct (Nc_Stale nc); [refuses|].
  destruct (checkIsolation nc req access) eqn:Ei.
  - split; [done|]. intros (_ & Hi & _). apply checkIsolation_None in Hi. congruence.
  - apply checkIsolation_None in Ei. rewrite checkMemory_None. tauto.
Qed.
End RequirementGate.

Section RequirementProperties.
Context `{Quantities}.

Lemma isolation_met_max nc access a b :
  isolation_met nc access (Z.max a b) ↔ isolation_met nc access a ∧ isolation_met nc access b.
Proof.
  unfold isolation_met. destruct (shared_mode _); [lia|].
  assert (Hd : ∀ dev, device_isolates (Z.max a b) dev ↔ device_isolates a dev ∧ device_isolates b dev)
    by (intros dev; unfold device_isolates; lia).
  setoid_rewrite Hd. destruct (Z.max_spec a b) as [[? E]|[? E]]; split.
  - intros [?|[? Hall]]; [split; left; lia|]. split; right; split; try done; intros; by apply Hall.
  - intros [[?|[? Ha]] [?|[? Hb]]]; try (left; lia); try (right; by split; [|split; auto]).
    right. split; [done|]. intros dev Hdev. split; [|auto]. specialize (Hb dev Hdev). unfold device_isolates in *. cbv zeta in *. lia.
  - intros [?|[? Hall]]; [split; left; lia|]. split; right; split; try done; intros; by apply Hall.
  - intros [[?|[? Ha]] [?|[? Hb]]]; try (left; lia); try (right; by split; [|split; auto]).
    right. split; [done|]. intros dev Hdev. split; [auto|]. specialize (Ha dev Hdev). unfold device_isolates in *. cbv zeta in *. lia.
Qed.

Lemma memory_met_le nc access m q q' :
  Quantity_Value q <= Quantity_Value q' → memory_met nc access m (Some q') → memory_met nc access m (Some q).
Proof.
  intros Hle (mib & Ho & Hpos & Hq). exists mib. split_and!; [done..|].
  transitivity (Z.quot (Quantity_Value q') bytesPerMiB); [|done]. by apply Z.quot_le_mono.
Qed.

(** The requirements gate passes exactly the nodes whose data is current,
    on which every device's compute and memory isolation is measured and strong
    enough (a shared mode counts as no isolation), and whose memory is known and
    large enough.  Sizes are compared in whole MiB, rounded down: a node of
    [mib] MiB passes for every minimum below [mib + 1] MiB, so it may be short
    by less than one MiB and no more. *)
Theorem CheckRequirements_correct nc req access m :
  (CheckRequirements nc req access m = None ↔
     Nc_Stale nc = false ∧ isolation_met nc access (IsolationRank (Req_MinimumIsolation req)) ∧
     memory_met nc access m (Req_MinimumMemory req)) ∧
  (∀ q, 0 <= Quantity_Value q →
     (memory_met nc access m (Some q) ↔
        ∃ mib, offered_memory nc access m = Some mib ∧ 0 < mib ∧ Quantity_Value q < (mib + 1) * bytesPerMiB)).
Proof.
  split; [apply CheckRequirements_None|]. intros q Hq.
  assert (Hiff : ∀ mib, Z.quot (Quantity_Value q) bytesPerMiB <= mib ↔ Quantity_Value q < (mib + 1) * bytesPerMiB).
  { intros mib. rewrite Z.quot_div_nonneg by (unfold bytesPerMiB; lia).
    pose proof (Z.div_mod (Quantity_Value q) bytesPerMiB). pose proof (Z.mod_pos_bound (Quantity_Value q) bytesPerMiB).
    unfold bytesPerMiB in *. lia. }
  unfold memory_met. by setoid_rewrite Hiff.
Qed.

(** A workload can only strengthen what its class requires: a node meets the
    merged requirements exactly when it meets the class's and the workload's. *)
Theorem MergeRequirements_meets_both nc base override access m :
  CheckRequirements nc (MergeRequirements base override) access m = None ↔
  CheckRequirements nc base access m = None ∧
  match override with Some o => CheckRequirements nc o access m = None | None => True end.
Proof.
  destruct override as [o|]; [|by intuition]. rewrite !CheckRequirements_None. cbn [MergeRequirements Req_MinimumIsolation Req_MinimumMemory].
  assert (Hi : IsolationRank (if IsolationRank (Req_MinimumIsolation base) <? IsolationRank (Req_MinimumIsolation o)
      then Req_MinimumIsolation o else Req_MinimumIsolation base) =
    Z.max (IsolationRank (Req_MinimumIsolation base)) (IsolationRank (Req_MinimumIsolation o))).
  { destruct (_ <? _) eqn:E; bool_prop; lia. }
  rewrite Hi, isolation_met_max.
  assert (Hm : memory_met nc access m (match Req_MinimumMemory o with
      | Some q => match Req_MinimumMemory base with
                  | None => Some q
                  | Some q0 => if Quantity_Value q0 <? Quantity_Value q then Some q else Some q0
                  end
      | None => Req_MinimumMemory base end) ↔
    memory_met nc access m (Req_MinimumMemory base) ∧ memory_met nc access m (Req_MinimumMemory o)).
  { destruct (Req_MinimumMemory o) as [q|]; [|change (memory_met nc access m None) with True; tauto].
    destruct (Req_MinimumMemory base) as [q0|]; [|change (memory_met nc access m None) with True; tauto].
    destruct (Quantity_Value q0 <? Quantity_Value q) eqn:E; bool_prop;
      (split; [intros Hx; split|intros [Hx1 Hx2]; assumption]);
      first [exact Hx | eapply memory_met_le; [|exact Hx]; lia]. }
  rewrite Hm. tauto.
Qed.
End RequirementProperties.
