(* ===== verification/IntentSnapshot.v ===== *)
(** * internal/intent/snapshot.go: what each node can give now

    Folds nodes, partition policies, device reports and DRA slices into one
    capability per node, then takes out what the health monitor blocks.  The
    code fills a [NodeCapability] through a pointer; here each step returns the
    changed record. *)

From S2P Require Import Prelude GoStrings GoTime ApiTypes PolicyTypes IntentResources IntentGates.

(** Assignments through [nc]. *)
Definition set_stale (reason : string) (nc : NodeCapability) : NodeCapability :=
  mkCapability (Nc_NodeName nc) (Nc_Vendor nc) (Nc_Advertised nc) (Nc_MemoryMiB nc) (Nc_Devices nc) (Nc_SharingMode nc)
    (Nc_SharingReplicas nc) (Nc_PartitionProfiles nc) true reason (Nc_DRAOwnedVendors nc) (Nc_DRADevices nc).
Definition set_sharing (mode : string) (replicas : Z) (nc : NodeCapability) : NodeCapability :=
  mkCapability (Nc_NodeName nc) (Nc_Vendor nc) (Nc_Advertised nc) (Nc_MemoryMiB nc) (Nc_Devices nc) mode
    replicas (Nc_PartitionProfiles nc) (Nc_Stale nc) (Nc_StaleReason nc) (Nc_DRAOwnedVendors nc) (Nc_DRADevices nc).
Definition set_devices (devs : list DeviceStatus) (profiles : list string) (nc : NodeCapability) : NodeCapability :=
  mkCapability (Nc_NodeName nc) (Nc_Vendor nc) (Nc_Advertised nc) (Nc_MemoryMiB nc) devs (Nc_SharingMode nc)
    (Nc_SharingReplicas nc) profiles (Nc_Stale nc) (Nc_StaleReason nc) (Nc_DRAOwnedVendors nc) (Nc_DRADevices nc).

(** ** applyACPPStatus *)

(** The loop over the targets: the adopted policy and target, and the first
    reason not to adopt one. *)
Definition Adopted : Type := option (AcceleratorPartitionPolicy * TargetStatus) * string.
Definition adopt_target (node : string) (a : AcceleratorPartitionPolicy) (acc : Adopted) (t : TargetStatus) : Adopted :=
  let (adopted, staleReason) := acc in
  if negb (bool_decide (Tg_NodeName t = node)) then acc
  else if negb (Pp_ObservedGeneration a =? Pp_Generation a) then
    (adopted, if bool_decide (staleReason = "") then
       "AcceleratorPartitionPolicy " +:+ Pp_Name a +:+ " has not converged (status.observedGeneration=" +:+
       sprint_Z (Pp_ObservedGeneration a) +:+ ", metadata.generation=" +:+ sprint_Z (Pp_Generation a) +:+ ")"
     else staleReason)
  else if negb (bool_decide (Tg_Phase t = ACPPPhaseReady)) then
    (adopted, if bool_decide (staleReason = "") then
       "AcceleratorPartitionPolicy " +:+ Pp_Name a +:+ " target " +:+ Tg_NodeName t +:+ " is in phase " +:+
       quote (Tg_Phase t) +:+ " (not " +:+ quote ACPPPhaseReady +:+ ")"
     else staleReason)
  else (match adopted with None => Some (a, t) | Some _ => adopted end, staleReason).
Definition adopt (node : string) (acpps : list AcceleratorPartitionPolicy) : Adopted :=
  foldl (λ acc a, foldl (adopt_target node a) acc (Pp_Targets a)) (None, "") (sort_on Pp_Name acpps).

Definition apply_record (nc : NodeCapability) (rec : ApplyRecord) : NodeCapability :=
  if negb (bool_decide (Ar_NodeName rec = Nc_NodeName nc)) || bool_decide (Ar_SharingMode rec = "") then nc
  else set_sharing (Ar_SharingMode rec) (Ar_SharingReplicas rec) nc.
Definition applyACPPStatus (nc : NodeCapability) (acpps : list AcceleratorPartitionPolicy) : NodeCapability :=
  match adopt (Nc_NodeName nc) acpps with
  | (None, staleReason) => if negb (bool_decide (staleReason = "")) then set_stale staleReason nc else nc
  | (Some (a, t), _) =>
      foldl apply_record
        (set_devices (Tg_Devices t) (Nc_PartitionProfiles nc ++ filter (λ p, p ≠ "") (Tg_ResolvedLayout t)) nc)
        (Pp_ApplyRecords a)
  end.

(** ** applyObservedSharing *)

Definition physicalDeviceCount (ndrs : list NodeDeviceReport) (nodeName vendor : string) : Z :=
  foldl (λ total r,
    if negb (bool_decide (Ndr_NodeName r = nodeName)) then total
    else foldl (λ total d,
      if (0 <? De_Count d) && equal_fold (De_Vendor d) vendor then wrap32 (total + De_Count d) else total)
      total (Ndr_Devices r)) 0 ndrs.

Definition smallestDeviceMemoryMiB (ndrs : list NodeDeviceReport) (nodeName : string) : Z :=
  foldl (λ smallest r,
    if negb (bool_decide (Ndr_NodeName r = nodeName)) then smallest
    else foldl (λ smallest d,
      if De_MemoryMiB d <=? 0 then smallest
      else if (smallest =? 0) || (De_MemoryMiB d <? smallest) then De_MemoryMiB d else smallest)
      smallest (Ndr_Devices r)) 0 ndrs.

Definition draOwnedVendors (nodeLabels : gmap string string) : gmap string bool :=
  foldl (λ out '(k, v),
    if negb (bool_decide (v = "true")) || negb (has_prefix k "kcloud.ai/") || negb (has_suffix k ".dra-owned") then out
    else <[trim_suffix (trim_prefix k "kcloud.ai/") ".dra-owned" := true]> out) ∅ (map_to_list nodeLabels).

Section Snapshot.
Context `{MapRange}.

(** The loop over the advertised names: the first that exceeds its vendor's devices. *)
Fixpoint observe_sharing (nc : NodeCapability) (ndrs : list NodeDeviceReport) (names : list string) : NodeCapability :=
  match names with
  | [] => nc
  | name :: names' =>
      let count := mget 0 (Nc_Advertised nc) name in
      let vendor := VendorForResource name in
      if bool_decide (vendor = "") || has_prefix name migResourcePrefix then observe_sharing nc ndrs names'
      else
        let physical := physicalDeviceCount ndrs (Nc_NodeName nc) vendor in
        if (physical <=? 0) || (count <=? physical) then observe_sharing nc ndrs names'
        else set_sharing SharingModeOversubscribed
               (if Z.rem count physical =? 0 then Z.quot count physical else Nc_SharingReplicas nc) nc
  end.
Definition applyObservedSharing (nc : NodeCapability) (ndrs : list NodeDeviceReport) : NodeCapability :=
  if Nc_Stale nc || (0 <? Z.of_nat (length (Nc_PartitionProfiles nc))) ||
     bool_decide (Nc_SharingMode nc = SharingModeTimeSliced) then nc
  else observe_sharing nc ndrs (sort_strings (elements (dom (Nc_Advertised nc)))).

(** ** BuildSnapshot *)

(** The accelerator resources of a node, and the vendor of the first by name. *)
Definition advertised_step (allocatable : gmap string Z) (acc : gmap string Z * string) (name : string)
    : gmap string Z * string :=
  let vendor := VendorForResource name in
  if bool_decide (vendor = "") then acc
  else (<[name := wrap32 (mget 0 allocatable name)]> acc.1, if bool_decide (acc.2 = "") then vendor else acc.2).
Definition advertised_on (node : Node) : gmap string Z * string :=
  foldl (advertised_step (Node_Allocatable node)) (∅, "") (sort_strings (elements (dom (Node_Allocatable node)))).

(** One node: [None] when it is left out. *)
Definition node_capability (acpps : list AcceleratorPartitionPolicy) (ndrs : list NodeDeviceReport)
    (dra : DRACapability) (node : Node) : option NodeCapability :=
  if Node_Unschedulable node then None
  else
    let (advertised, vendor) := advertised_on node in
    let draDevices := mget ∅ (Dra_SlicesByNodeDriver dra) (Node_Name node) in
    if bool_decide (advertised = ∅) && bool_decide (draDevices = ∅) then None
    else
      let nc := mkCapability (Node_Name node) vendor advertised (smallestDeviceMemoryMiB ndrs (Node_Name node)) []
        SharingModeExclusive 0 [] false "" (draOwnedVendors (Node_Labels node)) draDevices in
      Some (applyObservedSharing (applyACPPStatus nc acpps) ndrs).
Definition BuildSnapshot (nodes : list Node) (acpps : list AcceleratorPartitionPolicy) (ndrs : list NodeDeviceReport)
    (dra : DRACapability) : list NodeCapability :=
  sort_on Nc_NodeName (omap (node_capability acpps ndrs dra) nodes).

(** ** ApplyHealth *)

Definition blocked_healths (healths : list AcceleratorHealth) : gmap string AcceleratorHealthStatus :=
  foldl (λ m h,
    if negb (bool_decide (Hst_State (Ah_Status h) = "")) && negb (Hst_AllocationAllowed (Ah_Status h))
    then <[Ah_Name h := Ah_Status h]> m else m) ∅ healths.
Definition block_node (blocked : gmap string AcceleratorHealthStatus) (nc : NodeCapability) : NodeCapability :=
  match blocked !! Nc_NodeName nc with
  | None => nc
  | Some h =>
      set_stale (if bool_decide (Nc_StaleReason nc = "")
                 then "health " +:+ Hst_State h +:+ ": " +:+ Hst_Reason h else Nc_StaleReason nc) nc
  end.
(** [unhealthy[h.Name][d.PCIAddress] = true] *)
Definition unhealthy_devices (healths : list AcceleratorHealth) : gmap string (gset string) :=
  foldl (λ m h, foldl (λ m d,
    if bool_decide (Dh_State d = "Unhealthy") && negb (bool_decide (Dh_PCIAddress d = ""))
    then <[Ah_Name h := {[Dh_PCIAddress d]} ∪ default ∅ (m !! Ah_Name h)]> m else m) m (Hst_Devices (Ah_Status h))) ∅ healths.
Definition drop_devices (unhealthy : gmap string (gset string)) (nc : NodeCapability) : NodeCapability :=
  let bad := default ∅ (unhealthy !! Nc_NodeName nc) in
  if bool_decide (bad = ∅) then nc
  else set_devices (filter (λ d, Dst_PCIAddress d ∉ bad) (Nc_Devices nc)) (Nc_PartitionProfiles nc) nc.
Definition ApplyHealth (snap : list NodeCapability) (healths : list AcceleratorHealth) : list NodeCapability :=
  if bool_decide (length healths = 0%nat) then snap
  else
    let blocked := blocked_healths healths in
    let unhealthy := unhealthy_devices healths in
    drop_devices unhealthy <$> (block_node blocked <$> snap).
End Snapshot.

(** ** Load *)

(** The lists the snapshot is read from; device classes as their names. *)
Class IntentAPI (W : Type) := {
  node_list : M W (list Node);
  partition_policy_list : M W (list AcceleratorPartitionPolicy);
  report_list : M W (list NodeDeviceReport);
  health_list : M W (list AcceleratorHealth);
  device_class_list : M W (list string);
  resource_slice_list : M W (list ResourceSlice);
}.

Section Load.
Context {W : Type} `{IntentAPI W} `{MapRange}.

Definition LoadDRACapability : M W DRACapability :=
  classes ← try device_class_list;
  match classes with
  | inr _ => mret no_dra
  | inl classes =>
      slices ← try resource_slice_list;
      match slices with
      | inr _ => mret no_dra
      | inl slices => mret (BuildDRACapability true classes slices)
      end
  end.

(** [fmt.Errorf(prefix + ": %w", err)] around a list. *)
Definition listed {A} (what : string) (m : M W A) : M W A :=
  g ← try m; match g with inl a => mret a | inr e => throw (errorf_w what e) end.

Definition Load : M W (list NodeCapability * DRACapability) :=
  nodes ← listed "list nodes" node_list;
  acpps ← listed "list acceleratorpartitionpolicies" partition_policy_list;
  ndrs ← listed "list nodedevicereports" report_list;
  dra ← LoadDRACapability;
  healths ← try health_list;
  let snap := BuildSnapshot nodes acpps ndrs dra in
  mret (match healths with inl l => ApplyHealth snap l | inr _ => snap end, dra).
End Load.
