(* ===== verification/IntentTranslate.v ===== *)
(** * internal/intent/translate.go: from intent to a vendor resource

    The one translation that the admission webhook, the workload controller and
    the preview share.  A failure always carries the axis to change. *)

From S2P Require Import Prelude GoStrings GoTime ApiTypes PolicyTypes IntentResources IntentGates IntentSnapshot.

Record Request `{Quantities} := mkTranslateRequest {
  Tr_ClassName : string;
  Tr_Mappings : list AcceleratorMapping;
  Tr_Access : AccessSpec;
  Tr_Requirements : AcceleratorRequirements;
  Tr_VendorPreference : list string;
  Tr_AllocationAPI : string;
}.
#[global] Arguments mkTranslateRequest {_} _ _ _ _ _ _.

Definition BuildRequest `{Quantities} (acc : AcceleratorRequest) (class : AcceleratorClass) : Request :=
  mkTranslateRequest (Cl_Name class) (Cl_Mappings class) (Areq_Access acc)
    (MergeRequirements (Cl_Requirements class) (Areq_Requirements acc))
    (match Areq_Preferences acc with Some p => Pref_Vendors p | None => [] end)
    (match Areq_Preferences acc with
     | Some p => if bool_decide (Pref_AllocationAPI p = "") then AllocationAPIAuto else Pref_AllocationAPI p
     | None => AllocationAPIAuto
     end).

(** The inner loop of [orderMappings]: what [want] takes of the mappings left,
    and what stays. *)
Definition take_vendor (want : string) (acc : list AcceleratorMapping * list AcceleratorMapping)
    : list AcceleratorMapping * list AcceleratorMapping :=
  (acc.1 ++ filter (λ m, equal_fold (Map_Vendor m) want = true) acc.2,
   filter (λ m, ¬ equal_fold (Map_Vendor m) want = true) acc.2).
Definition orderMappings (mappings : list AcceleratorMapping) (preference : list string) : list AcceleratorMapping :=
  let (out, rest) := foldl (λ acc want, take_vendor want acc) ([], mappings) preference in out ++ rest.

Fixpoint duplicate_from (seen : list string) (mappings : list AcceleratorMapping) : string :=
  match mappings with
  | [] => ""
  | m :: ms =>
      let vendor := to_lower (trim_space (Map_Vendor m)) in
      if contains_string seen vendor then vendor else duplicate_from (vendor :: seen) ms
  end.
Definition duplicateVendor (mappings : list AcceleratorMapping) : string := duplicate_from [] mappings.

Definition explain (vendor : string) (m : AcceleratorMapping) (access : AccessSpec) (nodes : list string) : string :=
  if bool_decide (Acc_Mode access = AccessModeShared) then
    vendor +:+ " whole device on " +:+ sprint_list nodes +:+ ", shared by " +:+ sprint_Z (Acc_Replicas access) +:+
    " time-sliced replicas; replicas contend for compute and memory and are not isolated from each other"
  else if bool_decide (Acc_Mode access = AccessModePartitioned) then
    vendor +:+ " partition " +:+ Map_NativeProfile m +:+ " on " +:+ sprint_list nodes
  else if bool_decide (Acc_Mode access = AccessModePartitionedShared) then
    vendor +:+ " partition " +:+ Map_NativeProfile m +:+ " on " +:+ sprint_list nodes +:+ ", shared by " +:+
    sprint_Z (Acc_Replicas access) +:+ " replicas; replicas inside one partition are not isolated from each other"
  else vendor +:+ " whole device on " +:+ sprint_list nodes +:+ ", exclusive".

(** [if firstReject == nil { firstReject = rj }] *)
Definition keep_first (first : option Reject) (rj : Reject) : option Reject :=
  match first with Some r => Some r | None => Some rj end.

Section Translate.
Context `{MapRange} `{Quantities}.

Definition nodeIsCandidateFor (nc : NodeCapability) (m : AcceleratorMapping) (resolved : string) : bool :=
  if 0 <? mget 0 (Nc_Advertised nc) resolved then true
  else match WholeDeviceResource (Map_Vendor m) (Map_Product m) with
       | inl whole => negb (bool_decide (whole = "")) && (0 <? mget 0 (Nc_Advertised nc) whole)
       | inr _ => false
       end.

(** Both gates, in order. *)
Definition check_node (req : Request) (m : AcceleratorMapping) (nc : NodeCapability) : option Reject :=
  match CheckMode nc (Tr_Access req) m with
  | Some rj => Some rj
  | None => CheckRequirements nc (Tr_Requirements req) (Tr_Access req) m
  end.
(** The loop over the nodes for one mapping: the nodes that pass, and the first refusal. *)
Fixpoint collect_nodes (req : Request) (m : AcceleratorMapping) (name : string) (snap : list NodeCapability)
    (nodes : list string) (first : option Reject) : list string * option Reject :=
  match snap with
  | [] => (nodes, first)
  | nc :: snap' =>
      if negb (nodeIsCandidateFor nc m name) then collect_nodes req m name snap' nodes first
      else match check_node req m nc with
      | Some rj => collect_nodes req m name snap' nodes (keep_first first rj)
      | None => collect_nodes req m name snap' (nodes ++ [Nc_NodeName nc]) first
      end
  end.
(** The loop over the mappings. *)
Fixpoint try_mappings (req : Request) (snap : list NodeCapability) (api : string)
    (mappings : list AcceleratorMapping) (first : option Reject) : ResolvedAllocation + Reject :=
  match mappings with
  | [] =>
      inr (default (mkReject AxisCandidates AWReasonNoCandidateNodes
        ("no schedulable node advertises an accelerator for any vendor mapped by AcceleratorClass " +:+ Tr_ClassName req +:+
         " (cordoned nodes are not candidates — check whether every candidate is under a driver upgrade)")) first)
  | m :: ms =>
      match ResourceFor m (Acc_Mode (Tr_Access req)) with
      | inr e => try_mappings req snap api ms (keep_first first (mkReject AxisProduct AWReasonNoVendorMapping (err_msg e)))
      | inl name =>
          if bool_decide (name = "") then
            try_mappings req snap api ms (keep_first first (mkReject AxisProduct AWReasonNoVendorMapping
              ("vendor " +:+ quote (Map_Vendor m) +:+ " has no known device-plugin resource name")))
          else
            let (nodes, first') := collect_nodes req m name snap [] first in
            if bool_decide (length nodes = 0%nat) then try_mappings req snap api ms first'
            else
              let nodes := sort_strings nodes in
              let vendor := to_lower (Map_Vendor m) in
              inl (mkResolved vendor (Acc_Mode (Tr_Access req)) name "" 1 api nodes
                     (explain vendor m (Tr_Access req) nodes))
      end
  end.

(** ** The DRA path *)

Definition requestedRequirements (req : AcceleratorRequirements) : list string :=
  (if bool_decide (Req_MinimumIsolation req = "") then [] else ["minimumIsolation=" +:+ Req_MinimumIsolation req]) ++
  (match Req_MinimumMemory req with Some q => ["minimumMemory=" +:+ Quantity_String q] | None => [] end).

Definition dra_remedy : string := "set spec.accelerator.preferences.allocationAPI to devicePlugin (or auto)".
Definition rejectUnsupportedDRAAxes (req : Request) : option Reject :=
  let mode := Acc_Mode (Tr_Access req) in
  if partitioned_mode mode then
    Some (mkReject AxisAllocationAPI AWReasonDRAUnsupportedRequest
      ("allocationAPI " +:+ quote AllocationAPIDRA +:+ " does not implement partitioning: it requests a device from the DeviceClass and never asks for mappings[].nativeProfile, so mode " +:+
       quote mode +:+ " would hand out whatever device the DeviceClass selects; " +:+ dra_remedy +:+
       ", or point the class at a DeviceClass that selects the partition itself"))
  else if bool_decide (mode = AccessModeShared) then
    Some (mkReject AxisAllocationAPI AWReasonDRAUnsupportedRequest
      ("allocationAPI " +:+ quote AllocationAPIDRA +:+ " does not implement sharing: access.replicas and the device's verified sharing capability are not evaluated on this path, so mode " +:+
       quote mode +:+ " cannot be confirmed and the workload would get no warning that replicas are not isolated from each other; " +:+ dra_remedy))
  else match requestedRequirements (Tr_Requirements req) with
  | [] => None
  | fields =>
      Some (mkReject AxisAllocationAPI AWReasonDRAUnsupportedRequest
        ("allocationAPI " +:+ quote AllocationAPIDRA +:+ " does not evaluate spec.accelerator.requirements (" +:+ join ", " fields +:+
         "): the DRA path picks nodes by DeviceClass and device count only, so these requirements would be silently unenforced; " +:+
         dra_remedy +:+ ", or drop the requirements"))
  end.

(** The least advertised name of the vendor. *)
Definition vendorResourceOn (advertised : gmap string Z) (vendor : string) : string :=
  foldl (λ out '(name, _),
    if bool_decide (VendorForResource name = vendor) && (bool_decide (out = "") || str_ltb name out) then name else out)
    "" (range_map advertised).

(** One node: nothing, a candidate, or a double advertisement. *)
Definition dra_step (driver vendor : string) (want : Z) (acc : list string * list string) (nc : NodeCapability)
    : list string * list string :=
  if Nc_Stale nc then acc
  else if mget 0 (Nc_DRADevices nc) driver <? want then acc
  else
    let conflict := if negb (bool_decide (vendor = "")) && negb (mget false (Nc_DRAOwnedVendors nc) vendor)
                    then vendorResourceOn (Nc_Advertised nc) vendor else "" in
    if negb (bool_decide (conflict = "")) then (acc.1, acc.2 ++ [Nc_NodeName nc +:+ " (" +:+ conflict +:+ ")"])
    else (acc.1 ++ [Nc_NodeName nc], acc.2).
Definition draCandidateNodes (snap : list NodeCapability) (driver resourceName : string) (want : Z)
    : list string * list string :=
  let vendor := VendorForResource resourceName in
  let (nodes, doubled) := foldl (dra_step driver vendor want) ([], []) snap in
  (sort_strings nodes, sort_strings doubled).

(** The loop over the mappings.  The code returns [firstReject] as it is: the
    result is an optional refusal, [inr None] being Go's nil pointer. *)
Fixpoint try_dra_mappings (req : Request) (snap : list NodeCapability) (dra : DRACapability)
    (mappings : list AcceleratorMapping) (first : option Reject) : ResolvedAllocation + option Reject :=
  match mappings with
  | [] => inr first
  | m :: ms =>
      match ValidateDRAMapping m with
      | Some e => inr (Some (mkReject AxisAllocationAPI AWReasonDRAMappingMissing (err_msg e)))
      | None =>
          if bool_decide (Map_DeviceClassName m = "") then
            try_dra_mappings req snap dra ms (keep_first first (mkReject AxisAllocationAPI AWReasonDRAMappingMissing
              ("AcceleratorClass " +:+ Tr_ClassName req +:+ " vendor " +:+ quote (Map_Vendor m) +:+
               " has no deviceClassName; DRA is not configured for this vendor")))
          else if negb (mget false (Dra_DeviceClasses dra) (Map_DeviceClassName m)) then
            try_dra_mappings req snap dra ms (keep_first first (mkReject AxisAllocationAPI AWReasonDRADriverMissing
              ("DeviceClass " +:+ quote (Map_DeviceClassName m) +:+ " does not exist; install the DRA driver for vendor " +:+
               quote (Map_Vendor m))))
          else match WholeDeviceResource (Map_Vendor m) (Map_Product m) with
          | inr e => try_dra_mappings req snap dra ms (keep_first first (mkReject AxisProduct AWReasonNoVendorMapping (err_msg e)))
          | inl resourceName =>
              let (nodes, doubled) := draCandidateNodes snap (Map_DRADriver m) resourceName 1 in
              if bool_decide (length nodes = 0%nat) then
                if (0 <? Z.of_nat (length doubled)) then
                  let rj := mkReject AxisCandidates AWReasonDRADoubleAdvertised
                    ("DRA driver " +:+ quote (Map_DRADriver m) +:+ " publishes devices on node(s) " +:+ join ", " doubled +:+
                     ", but the vendor device plugin advertises the same devices there (conflicting extended resource in parentheses); the scheduler would see one physical device as two independent resources, so those nodes are not DRA candidates — hand those nodes to DRA by setting the vendor block's advertiseBy to dra in NPUClusterPolicy (the operator then labels the nodes and the device plugin steps back), or set spec.accelerator.preferences.allocationAPI to devicePlugin") in
                  try_dra_mappings req snap dra ms
                    (match first with
                     | Some r => if bool_decide (Rj_Reason r = AWReasonNoCandidateNodes) then Some rj else Some r
                     | None => Some rj
                     end)
                else try_dra_mappings req snap dra ms (keep_first first (mkReject AxisCandidates AWReasonNoCandidateNodes
                  ("no node publishes at least " +:+ sprint_Z 1 +:+ " device(s) for DRA driver " +:+ quote (Map_DRADriver m))))
              else
                inl (mkResolved (Map_Vendor m) (Acc_Mode (Tr_Access req)) "" (Map_DeviceClassName m) 1 AllocationAPIDRA nodes
                  ("DRA: DeviceClass " +:+ quote (Map_DeviceClassName m) +:+ ", driver " +:+ quote (Map_DRADriver m) +:+ ", " +:+
                   sprint_Z 1 +:+ " device(s)"))
          end
      end
  end.

Definition no_mapping (req : Request) : Reject :=
  mkReject AxisCandidates AWReasonNoVendorMapping
    ("AcceleratorClass " +:+ Tr_ClassName req +:+ " declares no vendor mapping").

Definition translateDRA (req : Request) (snap : list NodeCapability) (dra : DRACapability)
    : ResolvedAllocation + option Reject :=
  if negb (Dra_APIServed dra) then
    inr (Some (mkReject AxisAllocationAPI AWReasonDRANotEnabled
      ("allocationAPI " +:+ quote "dra" +:+ " requires resource.k8s.io on this cluster; use devicePlugin or auto")))
  else match rejectUnsupportedDRAAxes req with
  | Some rj => inr (Some rj)
  | None =>
      let mappings := orderMappings (Tr_Mappings req) (Tr_VendorPreference req) in
      if bool_decide (length mappings = 0%nat) then inr (Some (no_mapping req))
      else try_dra_mappings req snap dra mappings None
  end.

Definition TranslateWithDRA (req : Request) (snap : list NodeCapability) (dra : DRACapability)
    : ResolvedAllocation + option Reject :=
  let api := if bool_decide (Tr_AllocationAPI req = "") || bool_decide (Tr_AllocationAPI req = AllocationAPIAuto)
             then AllocationAPIDevicePlugin else Tr_AllocationAPI req in
  if bool_decide (api = AllocationAPIDRA) then translateDRA req snap dra
  else if negb (bool_decide (api = AllocationAPIDevicePlugin)) then
    inr (Some (mkReject AxisAllocationAPI AWReasonBackendUnsupported
      ("allocationAPI " +:+ quote api +:+ " is not a known allocation API; use devicePlugin or auto")))
  else
    let mappings := orderMappings (Tr_Mappings req) (Tr_VendorPreference req) in
    if bool_decide (length mappings = 0%nat) then inr (Some (no_mapping req))
    else
      let dup := duplicateVendor mappings in
      if negb (bool_decide (dup = "")) then
        inr (Some (mkReject AxisCandidates AWReasonNoVendorMapping
          ("AcceleratorClass " +:+ Tr_ClassName req +:+ ": vendor " +:+ quote dup +:+
           " appears more than once, which would make the vendor choice non-deterministic")))
      else match try_mappings req snap api mappings None with
           | inl res => inl res
           | inr rj => inr (Some rj)
           end.

Definition Translate (req : Request) (snap : list NodeCapability) : ResolvedAllocation + option Reject :=
  TranslateWithDRA req snap (mkDRA false ∅ ∅ ∅).
End Translate.
