(* ===== verification/IntentSafety.v ===== *)
(** * What the translation promises

    A result names only nodes that pass both gates now; a refusal is never
    empty and never hides a node that would do; no node that is cordoned, not
    converged or blocked by the health monitor is ever a candidate. *)

From S2P Require Import Prelude GoStrings GoTime ApiTypes PolicyTypes IntentResources IntentGates IntentSnapshot IntentTranslate.

Section Safety.
Context `{MapRange} `{Quantities}.

(** ** Mappings and nodes *)

Lemma orderMappings_perm mappings preference : orderMappings mappings preference ≡ₚ mappings.
Proof.
  assert (Htake : ∀ want acc, (take_vendor want acc).1 ++ (take_vendor want acc).2 ≡ₚ acc.1 ++ acc.2).
  { intros want [out rest]. simpl. rewrite <-app_assoc. apply Permutation_app_head.
    induction rest as [|m rest IHr]; [done|]. rewrite !filter_cons.
    destruct (decide (equal_fold (Map_Vendor m) want = true)) as [Hm|Hm].
    - rewrite (decide_False (P := ¬ _)) by auto. simpl. by rewrite IHr.
    - rewrite (decide_True (P := ¬ _)) by auto. rewrite <-Permutation_middle. by rewrite IHr. }
  assert (Hgen : ∀ acc, (foldl (λ acc want, take_vendor want acc) acc preference).1 ++
    (foldl (λ acc want, take_vendor want acc) acc preference).2 ≡ₚ acc.1 ++ acc.2).
  { induction preference as [|want pref IH]; intros acc; [done|]. simpl. by rewrite IH, Htake. }
  specialize (Hgen ([], mappings)). unfold orderMappings. by destruct (foldl _ _ _).
Qed.

(** A node passes both gates for a mapping. *)
Definition serves (req : Request) (m : AcceleratorMapping) (nc : NodeCapability) : Prop :=
  mode_fits nc (Tr_Access req) m ∧
  isolation_met nc (Tr_Access req) (IsolationRank (Req_MinimumIsolation (Tr_Requirements req))) ∧
  memory_met nc (Tr_Access req) m (Req_MinimumMemory (Tr_Requirements req)).

Lemma check_node_None req m nc : check_node req m nc = None ↔ serves req m nc.
Proof.
  unfold check_node, serves. destruct (CheckMode nc (Tr_Access req) m) eqn:Em.
  - split; [done|]. intros [Hm _]. apply CheckMode_None in Hm. congruence.
  - apply CheckMode_None in Em. rewrite CheckRequirements_None. pose proof (proj1 Em). tauto.
Qed.

Lemma serves_candidate req m nc name :
  ResourceFor m (Acc_Mode (Tr_Access req)) = inl name → serves req m nc → nodeIsCandidateFor nc m name = true.
Proof.
  intros Hr [(_ & _ & _ & name' & Hr' & _ & Hpos) _]. unfold nodeIsCandidateFor.
  rewrite Hr in Hr'. injection Hr' as <-. by rewrite (proj2 (Z.ltb_lt _ _)).
Qed.

Lemma collect_nodes_spec req m name snap nodes first :
  ResourceFor m (Acc_Mode (Tr_Access req)) = inl name →
  ∃ found, (collect_nodes req m name snap nodes first).1 = nodes ++ found ∧
    (∀ n, n ∈ found ↔ ∃ nc, nc ∈ snap ∧ Nc_NodeName nc = n ∧ serves req m nc) ∧
    (is_Some first → is_Some (collect_nodes req m name snap nodes first).2).
Proof.
  intros Hr. revert nodes first. induction snap as [|nc snap IH]; intros nodes first.
  - exists []. rewrite app_nil_r. split_and!; [done| |done]. intros n. split; [intros Hn; by apply elem_of_nil in Hn|].
    intros (nc & Hnc & _). by apply elem_of_nil in Hnc.
  - simpl. assert (Hskip : ¬ serves req m nc → ∀ first', (is_Some first → is_Some first') →
      ∃ found, (collect_nodes req m name snap nodes first').1 = nodes ++ found ∧
      (∀ n, n ∈ found ↔ ∃ nc', nc' ∈ nc :: snap ∧ Nc_NodeName nc' = n ∧ serves req m nc') ∧
      (is_Some first → is_Some (collect_nodes req m name snap nodes first').2)).
    { intros Hn first' Hf. destruct (IH nodes first') as (found & E & Hall & Hs). exists found. split_and!; [done| |auto].
      intros n. rewrite Hall. split.
      - intros (nc' & ? & ?). exists nc'. split; [by right|done].
      - intros (nc' & [->|?]%elem_of_cons & ? & ?); [done|eauto]. }
    destruct (nodeIsCandidateFor nc m name) eqn:Ec; simpl.
    2:{ apply Hskip; [|done]. intros Hs. by rewrite (serves_candidate _ _ _ _ Hr Hs) in Ec. }
    destruct (check_node req m nc) as [rj|] eqn:En.
    + apply Hskip; [|by destruct first]. intros Hs%check_node_None. congruence.
    + apply check_node_None in En. destruct (IH (nodes ++ [Nc_NodeName nc]) first) as (found & E & Hall & Hs).
      exists (Nc_NodeName nc :: found). rewrite E, <-app_assoc. split_and!; [done| |done].
      intros n. rewrite elem_of_cons, Hall. split.
      * intros [->|(nc' & ? & ?)]; [exists nc; split; [by left|done]|exists nc'; split; [by right|done]].
      * intros (nc' & [->|?]%elem_of_cons & ? & ?); [by left|right; eauto].
Qed.

Lemma try_mappings_spec req snap api mappings first :
  match try_mappings req snap api mappings first with
  | inl res =>
      ∃ l1 m l2, mappings = l1 ++ m :: l2 ∧ (∀ m' nc, m' ∈ l1 → nc ∈ snap → ¬ serves req m' nc) ∧
        ResourceFor m (Acc_Mode (Tr_Access req)) = inl (Ra_ResourceName res) ∧ Ra_ResourceName res ≠ "" ∧
        Ra_Vendor res = to_lower (Map_Vendor m) ∧ Ra_Mode res = Acc_Mode (Tr_Access req) ∧ Ra_Quantity res = 1 ∧
        Ra_DeviceClassName res = "" ∧ Ra_AllocationAPI res = api ∧ Ra_Nodes res ≠ [] ∧
        StronglySorted (not_after (less_on id)) (Ra_Nodes res) ∧
        (∀ n, n ∈ Ra_Nodes res ↔ ∃ nc, nc ∈ snap ∧ Nc_NodeName nc = n ∧ serves req m nc)
  | inr _ => ∀ m nc, m ∈ mappings → nc ∈ snap → ¬ serves req m nc
  end.
Proof.
  revert first. induction mappings as [|m ms IH]; intros first; simpl; [intros m nc Hm; by apply elem_of_nil in Hm|].
  assert (Hskip : (∀ nc, nc ∈ snap → ¬ serves req m nc) → ∀ first',
    match try_mappings req snap api ms first' with
    | inl res => ∃ l1 m' l2, m :: ms = l1 ++ m' :: l2 ∧ (∀ m' nc, m' ∈ l1 → nc ∈ snap → ¬ serves req m' nc) ∧
        ResourceFor m' (Acc_Mode (Tr_Access req)) = inl (Ra_ResourceName res) ∧ Ra_ResourceName res ≠ "" ∧
        Ra_Vendor res = to_lower (Map_Vendor m') ∧ Ra_Mode res = Acc_Mode (Tr_Access req) ∧ Ra_Quantity res = 1 ∧
        Ra_DeviceClassName res = "" ∧ Ra_AllocationAPI res = api ∧ Ra_Nodes res ≠ [] ∧
        StronglySorted (not_after (less_on id)) (Ra_Nodes res) ∧
        (∀ n, n ∈ Ra_Nodes res ↔ ∃ nc, nc ∈ snap ∧ Nc_NodeName nc = n ∧ serves req m' nc)
    | inr _ => ∀ m' nc, m' ∈ m :: ms → nc ∈ snap → ¬ serves req m' nc
    end).
  { intros Hn first'. specialize (IH first'). destruct (try_mappings req snap api ms first') as [res|rj].
    - destruct IH as (l1 & m' & l2 & -> & Hl1 & Hrest). exists (m :: l1), m', l2. split; [done|]. split; [|done].
      intros m0 nc [->|Hm0]%elem_of_cons; eauto.
    - intros m' nc [->|Hm']%elem_of_cons; eauto. }
  destruct (ResourceFor m (Acc_Mode (Tr_Access req))) as [name|e] eqn:Er.
  2:{ apply Hskip. intros nc _ [(_ & _ & _ & name & Hr & _) _]. congruence. }
  case_bool_decide as Hname.
  { apply Hskip. intros nc _ [(_ & _ & _ & name' & Hr & Hne & _) _]. congruence. }
  destruct (collect_nodes_spec req m name snap [] first Er) as (found & Ef & Hall & _). simpl in Ef.
  destruct (collect_nodes req m name snap [] first) as [nodes first']. simpl in Ef. subst nodes.
  case_bool_decide as Hlen.
  - apply nil_length_inv in Hlen as ->. apply Hskip. intros nc Hnc Hs.
    assert (Hin : Nc_NodeName nc ∈ []) by (apply Hall; eauto). by apply elem_of_nil in Hin.
  - exists [], m, ms. split; [done|]. split; [by intros m' nc Hm'%elem_of_nil|]. split_and!; try done.
    + simpl. intros E. apply Hlen. rewrite <-(Permutation_length (sort_strings_perm found)). by rewrite E.
    + apply sort_slice_sorted. apply _.
    + intros n. simpl. rewrite elem_of_sort_strings. apply Hall.
Qed.

Lemma dra_answer_api req snap dra ms first res :
  try_dra_mappings req snap dra ms first = inl res → Ra_AllocationAPI res = AllocationAPIDRA.
Proof.
  revert first. induction ms as [|m ms IH]; intros first; simpl; [done|]. destruct (ValidateDRAMapping m); [done|].
  case_bool_decide; [apply IH|]. destruct (negb _); [apply IH|]. destruct (WholeDeviceResource _ _); [|apply IH].
  destruct (draCandidateNodes _ _ _ _) as [nodes doubled]. case_bool_decide; [destruct (0 <? _); apply IH|].
  by intros [= <-].
Qed.

(** Where an answer comes from. *)
Lemma answered_by req snap dra res :
  TranslateWithDRA req snap dra = inl res → Ra_AllocationAPI res = AllocationAPIDRA ∨
  try_mappings req snap AllocationAPIDevicePlugin (orderMappings (Tr_Mappings req) (Tr_VendorPreference req)) None = inl res.
Proof.
  unfold TranslateWithDRA. set (api := if _ || _ then _ else _). intros E. case_bool_decide as Hd.
  - left. revert E. unfold translateDRA. destruct (negb _); [done|]. destruct (rejectUnsupportedDRAAxes req); [done|].
    case_bool_decide; [done|]. apply dra_answer_api.
  - right. destruct (negb (bool_decide (api = _))) eqn:Eapi; [done|]. bool_prop. rewrite Eapi in E.
    case_bool_decide; [done|]. destruct (negb _); [done|]. by destruct (try_mappings _ _ _ _ _); simplify_eq.
Qed.
Lemma plugin_path req snap dra res :
  TranslateWithDRA req snap dra = inl res → Ra_AllocationAPI res = AllocationAPIDevicePlugin →
  try_mappings req snap AllocationAPIDevicePlugin (orderMappings (Tr_Mappings req) (Tr_VendorPreference req)) None = inl res.
Proof. intros [Ha|E]%answered_by Hp; [|done]. rewrite Hp in Ha. discriminate Ha. Qed.

Lemma duplicate_from_NoDup seen mappings :
  NoDup ((λ m, to_lower (trim_space (Map_Vendor m))) <$> mappings) →
  (∀ m, m ∈ mappings → to_lower (trim_space (Map_Vendor m)) ∉ seen) → duplicate_from seen mappings = "".
Proof.
  revert seen. induction mappings as [|m ms IH]; intros seen Hnd Hs; [done|]. rewrite fmap_cons in Hnd.
  apply NoDup_cons in Hnd as [Hm Hnd]. simpl. destruct (contains_string seen _) eqn:Ec.
  { apply contains_string_true in Ec. exfalso. by eapply Hs; [left|]. }
  apply IH; [done|]. intros m' Hm' [E|Hin]%elem_of_cons; [|by eapply Hs; [right|]].
  apply Hm. rewrite <-E. by apply (list_elem_of_fmap_2 (λ m, to_lower (trim_space (Map_Vendor m)))).
Qed.
(** The device plugin is asked, and the class says which vendor is which. *)
Lemma plugin_run req snap dra :
  Tr_AllocationAPI req ∈ [""; AllocationAPIAuto; AllocationAPIDevicePlugin] → Tr_Mappings req ≠ [] →
  NoDup ((λ m, to_lower (trim_space (Map_Vendor m))) <$> Tr_Mappings req) →
  TranslateWithDRA req snap dra =
    match try_mappings req snap AllocationAPIDevicePlugin (orderMappings (Tr_Mappings req) (Tr_VendorPreference req)) None with
    | inl res => inl res
    | inr rj => inr (Some rj)
    end.
Proof.
  intros Hapi Hne Hnd. unfold TranslateWithDRA.
  assert (Ea : (if bool_decide (Tr_AllocationAPI req = "") || bool_decide (Tr_AllocationAPI req = AllocationAPIAuto)
             then AllocationAPIDevicePlugin else Tr_AllocationAPI req) = AllocationAPIDevicePlugin).
  { rewrite !elem_of_cons, elem_of_nil in Hapi. destruct Hapi as [->|[->|[->|[]]]]; reflexivity. }
  cbv zeta. rewrite !Ea. change (bool_decide (AllocationAPIDevicePlugin = AllocationAPIDRA)) with false.
  change (bool_decide (AllocationAPIDevicePlugin = AllocationAPIDevicePlugin)) with true. cbn [negb].
  pose proof (orderMappings_perm (Tr_Mappings req) (Tr_VendorPreference req)) as Hp.
  set (ms := orderMappings _ _) in *. clear Ea.
  case_bool_decide as Hlen.
  { apply nil_length_inv in Hlen. rewrite Hlen in Hp. by apply Permutation_nil in Hp. }
  assert (Hd : duplicateVendor ms = "").
  { apply duplicate_from_NoDup; [|intros ? _; apply not_elem_of_nil]. by rewrite Hp. }
  by rewrite Hd.
Qed.
End Safety.

(** ** The answer *)

Section Answer.
Context `{MapRange} `{Quantities}.

(** C34. A device-plugin answer is the preferred mapping that can be served: it is
    a mapping of the class, the mappings that come before it in the order of
    preference serve no node, the resource name is the mapping's, one unit is
    asked for, and the nodes are sorted, not empty, and exactly those that pass
    both gates now. *)
Theorem Translate_sound req snap dra res :
  TranslateWithDRA req snap dra = inl res → Ra_AllocationAPI res = AllocationAPIDevicePlugin →
  ∃ before m after,
    orderMappings (Tr_Mappings req) (Tr_VendorPreference req) = before ++ m :: after ∧ m ∈ Tr_Mappings req ∧
    (∀ m' nc, m' ∈ before → nc ∈ snap → ¬ serves req m' nc) ∧
    ResourceFor m (Acc_Mode (Tr_Access req)) = inl (Ra_ResourceName res) ∧ Ra_ResourceName res ≠ "" ∧
    Ra_Vendor res = to_lower (Map_Vendor m) ∧ Ra_Mode res = Acc_Mode (Tr_Access req) ∧ Ra_Quantity res = 1 ∧
    Ra_Nodes res ≠ [] ∧ StronglySorted (not_after (less_on id)) (Ra_Nodes res) ∧
    (∀ n, n ∈ Ra_Nodes res ↔ ∃ nc, nc ∈ snap ∧ Nc_NodeName nc = n ∧ serves req m nc).
Proof.
  intros E Ha. apply plugin_path in E; [|done].
  pose proof (try_mappings_spec req snap AllocationAPIDevicePlugin
    (orderMappings (Tr_Mappings req) (Tr_VendorPreference req)) None) as Hs.
  rewrite E in Hs. destruct Hs as (l1 & m & l2 & El & Hl1 & Hr & Hne & Hv & Hmode & Hq & _ & _ & Hn & Hsort & Hall).
  exists l1, m, l2. split_and!; try done.
  rewrite <-(orderMappings_perm (Tr_Mappings req) (Tr_VendorPreference req)), El. set_solver.
Qed.

(** The translation refuses only what cannot be served: when the device
    plugin may be used, the vendors of the class's mappings are distinct and
    some node passes both gates for some mapping, there is an answer. *)
Theorem Translate_complete req snap dra m nc :
  Tr_AllocationAPI req ∈ [""; AllocationAPIAuto; AllocationAPIDevicePlugin] →
  NoDup ((λ m, to_lower (trim_space (Map_Vendor m))) <$> Tr_Mappings req) →
  m ∈ Tr_Mappings req → nc ∈ snap → serves req m nc →
  ∃ res, TranslateWithDRA req snap dra = inl res ∧ Ra_AllocationAPI res = AllocationAPIDevicePlugin.
Proof.
  intros Hapi Hnd Hm Hnc Hs. rewrite plugin_run; [|done|intros E; rewrite E in Hm; by apply elem_of_nil in Hm|done].
  pose proof (orderMappings_perm (Tr_Mappings req) (Tr_VendorPreference req)) as Hp.
  set (ms := orderMappings _ _) in *. rewrite <-Hp in Hm.
  pose proof (try_mappings_spec req snap AllocationAPIDevicePlugin ms None) as Ht.
  destruct (try_mappings _ _ _ _ _) as [res|rj]; [|by destruct (Ht m nc Hm Hnc)].
  exists res. split; [done|]. by destruct Ht as (l1 & m' & l2 & ? & ? & ? & ? & ? & ? & ? & ? & ? & ?).
Qed.
End Answer.

(** ** The DRA answer *)

Section DRAAnswer.
Context `{MapRange} `{Quantities}.

Lemma vendorResourceOn_empty advertised vendor :
  vendor ≠ "" → (vendorResourceOn advertised vendor = "" ↔
    ∀ name c, advertised !! name = Some c → VendorForResource name ≠ vendor).
Proof.
  intros Hv. unfold vendorResourceOn. setoid_rewrite <-elem_of_range_map.
  assert (Hgen : ∀ (l : list (string * Z)) out,
    foldl (λ out '(name, _), if bool_decide (VendorForResource name = vendor) && (bool_decide (out = "") || str_ltb name out)
      then name else out) out l = "" ↔ out = "" ∧ ∀ name c, (name, c) ∈ l → VendorForResource name ≠ vendor).
  { assert (Hempty : VendorForResource "" ≠ vendor).
    { intros E. apply VendorForResource_spec in E; [|done]. change (has_prefix "" migResourcePrefix) with false in E.
      cbv beta iota in E. destruct E as (ps & p & Hps & Hp).
      assert (Hall : map_Forall (λ _ ps, map_Forall (λ _ n, n ≠ "") (ps : gmap string string)) productResource) by decide_compute.
      by apply (Hall vendor ps Hps p "" Hp). }
    assert (Hless : ∀ s, str_ltb s "" = true → False) by (intros [|c s]; discriminate).
    induction l as [|[name c] l IH]; intros out; simpl.
    - split; [intros ->; split; [done|]; intros ? ? Hin; by apply elem_of_nil in Hin|tauto].
    - rewrite IH. case_bool_decide as Ev; simpl.
      + split; [|intros [_ Hall]; destruct (Hall name c ltac:(by left) Ev)].
        intros [E _]. exfalso. apply Hempty. rewrite <-E. destruct (bool_decide (out = "") || str_ltb name out) eqn:Eo; [done|].
        subst out. by rewrite bool_decide_eq_true_2 in Eo.
      + split; intros [-> Hall]; (split; [done|]); intros n c' Hin.
        * apply elem_of_cons in Hin as [[= -> ->]|Hin]; [done|by eapply Hall].
        * eapply Hall. by right. }
  rewrite Hgen. tauto.
Qed.

(** A node that can give a device of [driver]: its data is current, the driver
    publishes devices there, and no device plugin of the vendor advertises the
    same devices, unless the node is handed to DRA. *)
Definition gives_claim (driver vendor : string) (nc : NodeCapability) : Prop :=
  Nc_Stale nc = false ∧ 1 <= mget 0 (Nc_DRADevices nc) driver ∧
  (vendor = "" ∨ mget false (Nc_DRAOwnedVendors nc) vendor = true ∨
   ∀ name c, Nc_Advertised nc !! name = Some c → VendorForResource name ≠ vendor).

Lemma dra_step_spec driver vendor acc nc :
  (gives_claim driver vendor nc ∧ (dra_step driver vendor 1 acc nc).1 = acc.1 ++ [Nc_NodeName nc]) ∨
  (¬ gives_claim driver vendor nc ∧ (dra_step driver vendor 1 acc nc).1 = acc.1).
Proof.
  unfold dra_step, gives_claim. destruct (Nc_Stale nc); [right; split; [by intros [? _]|done]|].
  destruct (mget 0 (Nc_DRADevices nc) driver <? 1) eqn:E; bool_prop; [right; split; [intros (_ & ? & _); lia|done]|].
  destruct (decide (vendor = "")) as [->|Hv]; [left; split_and!; auto|].
  rewrite (bool_decide_eq_false_2 (vendor = "")) by done. simpl.
  destruct (mget false (Nc_DRAOwnedVendors nc) vendor) eqn:Eo; [left; split_and!; auto|]. simpl.
  case_bool_decide as Ec; simpl.
  - rewrite vendorResourceOn_empty in Ec by done. left. split_and!; auto.
  - right. split; [|done]. intros (_ & _ & [?|[?|Hall]]); [done..|]. by apply Ec, vendorResourceOn_empty.
Qed.

Lemma draCandidateNodes_spec snap driver whole n :
  n ∈ (draCandidateNodes snap driver whole 1).1 ↔
    ∃ nc, nc ∈ snap ∧ Nc_NodeName nc = n ∧ gives_claim driver (VendorForResource whole) nc.
Proof.
  unfold draCandidateNodes. generalize (VendorForResource whole) as vendor. intros vendor.
  assert (Hgen : ∀ acc, n ∈ (foldl (dra_step driver vendor 1) acc snap).1 ↔
    n ∈ acc.1 ∨ ∃ nc, nc ∈ snap ∧ Nc_NodeName nc = n ∧ gives_claim driver vendor nc).
  { induction snap as [|nc snap IH]; intros acc; simpl.
    - split; [auto|]. intros [?|(nc & Hnc & _)]; [done|by apply elem_of_nil in Hnc].
    - rewrite IH. setoid_rewrite (elem_of_cons snap). destruct (dra_step_spec driver vendor acc nc) as [[Hg E]|[Hg E]]; rewrite E.
      + rewrite elem_of_app, list_elem_of_singleton. split.
        * intros [[?| ->]|(nc' & ? & ?)]; [by left|right; by exists nc; auto|right; exists nc'; auto].
        * intros [?|(nc' & [->|?] & E' & ?)]; [auto|auto|right; eauto].
      + split; [intros [?|(nc' & ? & ?)]; [by left|right; exists nc'; auto]|].
        intros [?|(nc' & [->|?] & ? & ?)]; [by left|done|right; eauto]. }
  specialize (Hgen ([], [])). destruct (foldl _ _ snap) as [nodes doubled]. simpl in *.
  rewrite elem_of_sort_strings, Hgen. split; [intros [Hn|?]; [by apply elem_of_nil in Hn|done]|auto].
Qed.

Definition dra_answer (req : Request) (snap : list NodeCapability) (dra : DRACapability) (m : AcceleratorMapping)
    (res : ResolvedAllocation) : Prop :=
  Ra_DeviceClassName res = Map_DeviceClassName m ∧ Map_DeviceClassName m ≠ "" ∧
  mget false (Dra_DeviceClasses dra) (Map_DeviceClassName m) = true ∧
  Ra_ResourceName res = "" ∧ Ra_Quantity res = 1 ∧ Ra_Mode res = Acc_Mode (Tr_Access req) ∧ Ra_Nodes res ≠ [] ∧
  ∃ whole, WholeDeviceResource (Map_Vendor m) (Map_Product m) = inl whole ∧
    ∀ n, n ∈ Ra_Nodes res ↔
      ∃ nc, nc ∈ snap ∧ Nc_NodeName nc = n ∧ gives_claim (Map_DRADriver m) (VendorForResource whole) nc.

Lemma try_dra_mappings_spec req snap dra mappings first :
  match try_dra_mappings req snap dra mappings first with
  | inl res => Ra_AllocationAPI res = AllocationAPIDRA ∧ ∃ m, m ∈ mappings ∧ dra_answer req snap dra m res
  | inr rj => is_Some first ∨ mappings ≠ [] → is_Some rj
  end.
Proof.
  revert first. induction mappings as [|m ms IH]; intros first; simpl; [by intros [?|?]|].
  assert (Hskip : ∀ first', is_Some first' → match try_dra_mappings req snap dra ms first' with
    | inl res => Ra_AllocationAPI res = AllocationAPIDRA ∧ ∃ m', m' ∈ m :: ms ∧ dra_answer req snap dra m' res
    | inr rj => is_Some first ∨ m :: ms ≠ [] → is_Some rj
    end).
  { intros first' Hf. specialize (IH first'). destruct (try_dra_mappings _ _ _ ms first'); [|auto].
    destruct IH as (? & m' & ? & ?). split; [done|]. exists m'. split; [by right|done]. }
  assert (Hkeep : ∀ rj, is_Some (keep_first first rj)) by (intros; destruct first; done).
  destruct (ValidateDRAMapping m); [done|]. case_bool_decide; [by apply Hskip|].
  destruct (mget false (Dra_DeviceClasses dra) _) eqn:Ec; [|by apply Hskip]. simpl.
  destruct (WholeDeviceResource _ _) as [whole|e] eqn:Ew; [|by apply Hskip].
  pose proof (draCandidateNodes_spec snap (Map_DRADriver m) whole) as Hn.
  destruct (draCandidateNodes _ _ _ _) as [nodes doubled]. simpl in Hn. case_bool_decide as Hlen.
  - destruct (0 <? _); apply Hskip; [|done]. destruct first; [case_bool_decide|]; done.
  - split; [done|]. exists m. split; [by left|]. split_and!; try done; [simpl; by intros ->|]. by exists whole.
Qed.

(** A DRA answer is one the DRA path can honour: the cluster serves DRA, the
    request has no sharing, no partition and no requirement that this path would
    not enforce, the DeviceClass is the mapping's and exists, one device is
    asked for, and the nodes are exactly those with current data whose driver
    publishes a device that no device plugin of the vendor advertises too. *)
Theorem TranslateDRA_sound req snap dra res :
  TranslateWithDRA req snap dra = inl res → Ra_AllocationAPI res = AllocationAPIDRA →
  Dra_APIServed dra = true ∧
  partitioned_mode (Acc_Mode (Tr_Access req)) = false ∧ shared_mode (Acc_Mode (Tr_Access req)) = false ∧
  Req_MinimumIsolation (Tr_Requirements req) = "" ∧ Req_MinimumMemory (Tr_Requirements req) = None ∧
  ∃ m, m ∈ Tr_Mappings req ∧ dra_answer req snap dra m res.
Proof.
  intros E Ha. unfold TranslateWithDRA in E. set (api := if _ || _ then _ else _) in E. case_bool_decide as Hd.
  2:{ exfalso. assert (Hp : Ra_AllocationAPI res = api).
      { revert E. destruct (negb (bool_decide (api = _))); [done|]. case_bool_decide; [done|]. destruct (negb _); [done|].
        pose proof (try_mappings_spec req snap api (orderMappings (Tr_Mappings req) (Tr_VendorPreference req)) None) as Ht.
        destruct (try_mappings _ _ _ _ _); [|done]. intros [= <-].
        by destruct Ht as (l1 & m' & l2 & ? & ? & ? & ? & ? & ? & ? & ? & ? & ?). }
      by rewrite Ha in Hp. }
  revert E. unfold translateDRA. destruct (Dra_APIServed dra); [|done]. simpl.
  unfold rejectUnsupportedDRAAxes, requestedRequirements. destruct (partitioned_mode _) eqn:Ep; [done|].
  case_bool_decide as Es; [done|]. case_bool_decide as Ei; [|done]. destruct (Req_MinimumMemory _); [done|]. simpl.
  case_bool_decide; [done|]. intros E.
  pose proof (try_dra_mappings_spec req snap dra (orderMappings (Tr_Mappings req) (Tr_VendorPreference req)) None) as Ht.
  rewrite E in Ht. destruct Ht as (_ & m & Hm & Hres). split_and!; [done|done| |done..|].
  - unfold shared_mode, partitioned_mode in *. apply orb_false_iff in Ep as [_ ->].
    by rewrite bool_decide_eq_false_2.
  - exists m. split; [|done]. by rewrite <-(orderMappings_perm _ (Tr_VendorPreference req)).
Qed.
End DRAAnswer.

(** ** Refusals *)

Definition named (rj : Reject) : Prop := Rj_Axis rj ≠ "" ∧ Rj_Reason rj ≠ "".

(** Goes through the tests of a check to the literal it refuses with. *)
Ltac refusal :=
  repeat case_match; intros; simplify_eq; try (split; discriminate).

Section Refusals.
Context `{MapRange} `{Quantities}.

Lemma axisForImplementation_named impl : axisForImplementation impl ≠ "".
Proof. unfold axisForImplementation. by destruct (_ && _). Qed.

Lemma first_reject_Some {A} (check : A → option Reject) l rj :
  first_reject check l = Some rj → ∃ a, a ∈ l ∧ check a = Some rj.
Proof.
  induction l as [|a l IH]; simpl; [done|]. destruct (check a) eqn:E.
  - intros [= ->]. exists a. split; [by left|done].
  - intros (b & ? & ?)%IH. exists b. split; [by right|done].
Qed.

Lemma checkSharing_named nc access rj : checkSharing nc access = Some rj → named rj.
Proof.
  unfold checkSharing. destruct (_ <? _); [refusal|]. destruct (bool_decide _); [refusal|].
  destruct (first_reject _ _) eqn:Ef; [|refusal]. intros [= ->].
  apply first_reject_Some in Ef as (dev & _ & E). revert E. unfold check_sharing_device.
  destruct (pickSharingSupport _ _) as [sup name]. pose proof (axisForImplementation_named (Acc_Implementation access)).
  repeat case_match; intros; simplify_eq; split; done.
Qed.

Lemma CheckMode_named nc access m rj : CheckMode nc access m = Some rj → named rj.
Proof.
  unfold CheckMode. destruct (Nc_Stale nc); [refusal|]. destruct (check_partition nc access m) eqn:Ep.
  { intros [= ->]. revert Ep. unfold check_partition. refusal. }
  destruct (ResourceFor _ _); [|refusal]. destruct (bool_decide _); [refusal|]. destruct (_ <=? _); [refusal|].
  destruct (shared_mode _); [apply checkSharing_named|]. unfold check_unshared. refusal.
Qed.

Lemma CheckRequirements_named nc req access m rj : CheckRequirements nc req access m = Some rj → named rj.
Proof.
  unfold CheckRequirements. destruct (Nc_Stale nc); [refusal|]. destruct (checkIsolation nc req access) eqn:Ei.
  - intros [= ->]. revert Ei. unfold checkIsolation. destruct (_ <? 0); [done|]. destruct (shared_mode _); [refusal|].
    destruct (bool_decide _); [refusal|]. intros (dev & _ & E)%first_reject_Some.
    apply first_reject_Some in E as ([axis level] & _ & E). revert E. cbv zeta. refusal.
  - unfold checkMemory. refusal.
Qed.

Lemma check_node_named req m nc rj : check_node req m nc = Some rj → named rj.
Proof.
  unfold check_node. destruct (CheckMode _ _ _) eqn:E; [intros [= ->]; by eapply CheckMode_named|apply CheckRequirements_named].
Qed.

Lemma keep_first_named first rj : (∀ r, first = Some r → named r) → named rj → ∀ r, keep_first first rj = Some r → named r.
Proof. destruct first; simpl; [by auto|]. by intros _ ? r [= <-]. Qed.

Lemma collect_nodes_named req m name snap nodes first :
  (∀ r, first = Some r → named r) → ∀ r, (collect_nodes req m name snap nodes first).2 = Some r → named r.
Proof.
  revert nodes first. induction snap as [|nc snap IH]; intros nodes first Hf; [done|]. simpl.
  destruct (negb _); [by apply IH|]. destruct (check_node req m nc) eqn:E; apply IH; [|done].
  apply keep_first_named; [done|by eapply check_node_named].
Qed.

Lemma try_mappings_named req snap api mappings first rj :
  (∀ r, first = Some r → named r) → try_mappings req snap api mappings first = inr rj → named rj.
Proof.
  revert first. induction mappings as [|m ms IH]; intros first Hf; simpl.
  { intros [= <-]. destruct first; simpl; [auto|by split]. }
  destruct (ResourceFor _ _); [|apply IH, keep_first_named; [done|by split]].
  destruct (bool_decide _); [apply IH, keep_first_named; [done|by split]|].
  pose proof (collect_nodes_named req m s snap [] first Hf) as Hc.
  destruct (collect_nodes _ _ _ _ _ _). destruct (bool_decide _); [by apply IH|done].
Qed.

Lemma try_dra_mappings_named req snap dra mappings first rj :
  (∀ r, first = Some r → named r) → try_dra_mappings req snap dra mappings first = inr (Some rj) → named rj.
Proof.
  revert first. induction mappings as [|m ms IH]; intros first Hf; simpl; [intros [= ->]; auto|].
  destruct (ValidateDRAMapping m); [intros [= <-]; by split|].
  assert (Hskip : ∀ a r msg, a ≠ "" → r ≠ "" →
    try_dra_mappings req snap dra ms (keep_first first (mkReject a r msg)) = inr (Some rj) → named rj).
  { intros a r msg Ha Hr. apply IH, keep_first_named; [done|by split]. }
  destruct (bool_decide _); [by apply Hskip|]. destruct (negb _); [by apply Hskip|].
  destruct (WholeDeviceResource _ _); [|by apply Hskip]. destruct (draCandidateNodes _ _ _ _).
  destruct (bool_decide _); [|done]. destruct (_ <? _); [|by apply Hskip]. apply IH.
  intros r. destruct first; [destruct (bool_decide _)|]; intros [= <-]; auto; by split.
Qed.

(** A refusal is never empty: on both paths the result is either an answer
    or a refusal (never a nil one) that carries the axis to change and a
    machine-readable reason. *)
Theorem Translate_refusal_names_axis req snap dra r :
  TranslateWithDRA req snap dra = inr r → ∃ rj, r = Some rj ∧ Rj_Axis rj ≠ "" ∧ Rj_Reason rj ≠ "".
Proof.
  assert (Hlit : ∀ a rs msg, a ≠ "" → rs ≠ "" → ∃ rj, Some (mkReject a rs msg) = Some rj ∧ named rj)
    by (intros a rs msg; exists (mkReject a rs msg); by split).
  unfold TranslateWithDRA. set (api := if _ || _ then _ else _). set (ms := orderMappings _ _). case_bool_decide.
  - unfold translateDRA. fold ms. destruct (Dra_APIServed dra); [|intros [= <-]; by apply Hlit]. simpl.
    destruct (rejectUnsupportedDRAAxes req) as [rj|] eqn:Er.
    { intros [= <-]. exists rj. split; [done|]. revert Er. unfold rejectUnsupportedDRAAxes. refusal. }
    case_bool_decide as Hlen; [intros [= <-]; by apply Hlit|]. intros E.
    pose proof (try_dra_mappings_spec req snap dra ms None) as Hs. rewrite E in Hs.
    destruct Hs as [rj ->]; [right; by intros ->|]. exists rj. split; [done|].
    by apply (try_dra_mappings_named req snap dra ms None).
  - destruct (negb _); [intros [= <-]; by apply Hlit|]. case_bool_decide; [intros [= <-]; by apply Hlit|].
    destruct (negb _); [intros [= <-]; by apply Hlit|].
    destruct (try_mappings _ _ _ _ _) eqn:E; [done|]. intros [= <-]. eexists. split; [done|].
    by apply (try_mappings_named req snap api ms None).
Qed.
End Refusals.

(** ** The theorems at a concrete cluster *)

(** Sizes in bytes, printed as numbers. *)
Definition byte_quantities : Quantities :=
  {| Quantity := Z; Quantity_Value := id; Quantity_String := sprint_Z |}.

Definition gpu_node (name : string) (gpus : Z) : NodeCapability :=
  mkCapability name "nvidia" {["nvidia.com/gpu" := gpus]} 24576 [] SharingModeExclusive 0 [] false "" ∅ {["gpu.nvidia.com" := 2]}.
Definition nvidia_mapping : AcceleratorMapping := mkMapping "NVIDIA" "" "" "gpu.nvidia.com" "gpu.nvidia.com".
Definition demo_request (api : string) : @Request byte_quantities :=
  mkTranslateRequest (H := byte_quantities) "large" [mkMapping "rebellions" "" "" "" ""; nvidia_mapping] (mkAccess AccessModeExclusive "" 0)
    (mkRequirements (H := byte_quantities) "" None) ["nvidia"] api.
Definition demo_snapshot : list NodeCapability := [gpu_node "w2" 2; gpu_node "w1" 1].
Definition demo_dra : DRACapability := mkDRA true {["gpu.nvidia.com" := true]} ∅ ∅.
Definition dra_owned (nc : NodeCapability) : NodeCapability :=
  mkCapability (Nc_NodeName nc) (Nc_Vendor nc) ∅ (Nc_MemoryMiB nc) (Nc_Devices nc) (Nc_SharingMode nc)
    (Nc_SharingReplicas nc) (Nc_PartitionProfiles nc) (Nc_Stale nc) (Nc_StaleReason nc)
    {["nvidia" := true]} (Nc_DRADevices nc).
Definition handed_snapshot : list NodeCapability := dra_owned <$> demo_snapshot.

Lemma Translate_sound_witness :
  ∃ res, TranslateWithDRA (H := map_range_default) (H0 := byte_quantities) (demo_request "auto") demo_snapshot no_dra = inl res ∧
    Ra_ResourceName res = "nvidia.com/gpu" ∧ Ra_Nodes res = ["w1"; "w2"] ∧
    ∃ m, m ∈ Tr_Mappings (demo_request "auto") ∧ Ra_Vendor res = to_lower (Map_Vendor m).
Proof.
  eexists. split; [vm_compute; reflexivity|]. split; [vm_compute; reflexivity|]. split; [vm_compute; reflexivity|].
  destruct (Translate_sound (H := map_range_default) (H0 := byte_quantities) (demo_request "auto") demo_snapshot no_dra _
    ltac:(vm_compute; reflexivity) ltac:(vm_compute; reflexivity)) as (b & m & a & _ & Hm & _ & _ & _ & Hv & _).
  exists m. by split.
Defined.

Lemma Translate_complete_witness :
  ∃ res, TranslateWithDRA (H := map_range_default) (H0 := byte_quantities) (demo_request "") demo_snapshot no_dra = inl res ∧
    Ra_AllocationAPI res = AllocationAPIDevicePlugin.
Proof.
  apply (Translate_complete (H := map_range_default) (H0 := byte_quantities) (demo_request "") demo_snapshot no_dra nvidia_mapping (gpu_node "w2" 2)).
  - by left.
  - vm_compute. repeat constructor; set_solver.
  - right. by left.
  - by left.
  - apply check_node_None. vm_compute. reflexivity.
Defined.

Lemma TranslateDRA_sound_witness :
  ∃ res, TranslateWithDRA (H := map_range_default) (H0 := byte_quantities) (demo_request "dra") handed_snapshot demo_dra = inl res ∧
    Ra_DeviceClassName res = "gpu.nvidia.com" ∧ Ra_Nodes res = ["w1"; "w2"] ∧
    ∃ m, m ∈ Tr_Mappings (demo_request "dra") ∧ Map_DeviceClassName m = Ra_DeviceClassName res.
Proof.
  eexists. split; [vm_compute; reflexivity|]. split; [vm_compute; reflexivity|]. split; [vm_compute; reflexivity|].
  destruct (TranslateDRA_sound (H := map_range_default) (H0 := byte_quantities) (demo_request "dra") handed_snapshot demo_dra _
    ltac:(vm_compute; reflexivity) ltac:(vm_compute; reflexivity)) as (_ & _ & _ & _ & _ & m & Hm & Hd & _).
  exists m. by split.
Defined.

(** On nodes that the vendor's device plugin advertises too, the DRA path refuses. *)
Lemma Translate_refusal_names_axis_witness :
  ∃ rj, TranslateWithDRA (H := map_range_default) (H0 := byte_quantities) (demo_request "dra") demo_snapshot demo_dra = inr (Some rj) ∧
    Rj_Reason rj = AWReasonDRADoubleAdvertised ∧ Rj_Axis rj ≠ "".
Proof.
  destruct (Translate_refusal_names_axis (H := map_range_default) (H0 := byte_quantities) (demo_request "dra") demo_snapshot demo_dra _
    ltac:(vm_compute; reflexivity)) as (rj & E & Ha & _).
  exists rj. split; [rewrite <-E; vm_compute; reflexivity|]. split; [|done].
  injection E as <-. reflexivity.
Defined.
