(* ===== verification/IntentCluster.v ===== *)
(** * From the cluster to the answer

    What [BuildSnapshot] and [ApplyHealth] put into a node's capability, and
    what that makes of a translation: a cordoned node, a node whose partition
    policy has not converged and a node the health monitor blocks are never
    named, on either path. *)

From S2P Require Import Prelude GoStrings GoTime ApiTypes PolicyTypes IntentResources IntentGates IntentSnapshot IntentTranslate IntentSafety.

(** ** Fields that no later step changes *)

Definition identity_of (nc : NodeCapability) :=
  (Nc_NodeName nc, Nc_Advertised nc, Nc_MemoryMiB nc, Nc_DRADevices nc, Nc_DRAOwnedVendors nc).

Lemma apply_record_identity nc rec : identity_of (apply_record nc rec) = identity_of nc.
Proof. unfold apply_record. by destruct (_ || _). Qed.
Lemma apply_records_keep {A} (f : NodeCapability → A) nc recs :
  (∀ nc rec, f (apply_record nc rec) = f nc) → f (foldl apply_record nc recs) = f nc.
Proof. intros Hf. revert nc. induction recs as [|rec recs IH]; intros nc; [done|]. simpl. by rewrite IH. Qed.
Lemma applyACPPStatus_identity nc acpps : identity_of (applyACPPStatus nc acpps) = identity_of nc.
Proof.
  unfold applyACPPStatus. destruct (adopt _ _) as [[[a t]|] reason]; [|by destruct (negb _)].
  by rewrite (apply_records_keep identity_of) by apply apply_record_identity.
Qed.

Section Identity.
Context `{MapRange}.

Lemma observe_sharing_keeps {A} (f : NodeCapability → A) nc ndrs names :
  (∀ mode replicas nc, f (set_sharing mode replicas nc) = f nc) → f (observe_sharing nc ndrs names) = f nc.
Proof.
  intros Hf. induction names as [|name names IH]; [done|]. simpl.
  destruct (bool_decide _ || _); [done|]. by destruct (_ || _).
Qed.
Lemma applyObservedSharing_keeps {A} (f : NodeCapability → A) nc ndrs :
  (∀ mode replicas nc, f (set_sharing mode replicas nc) = f nc) → f (applyObservedSharing nc ndrs) = f nc.
Proof. intros Hf. unfold applyObservedSharing. destruct (_ || _ || _); [done|]. by apply observe_sharing_keeps. Qed.
End Identity.

(** ** The partition policies of a node *)

Definition converged (a : AcceleratorPartitionPolicy) (t : TargetStatus) : Prop :=
  Pp_ObservedGeneration a = Pp_Generation a ∧ Tg_Phase t = ACPPPhaseReady.
Definition targets_of (acpps : list AcceleratorPartitionPolicy) (node : string) (a : AcceleratorPartitionPolicy)
    (t : TargetStatus) : Prop := a ∈ acpps ∧ t ∈ Pp_Targets a ∧ Tg_NodeName t = node.

(** What the loop has seen: an adopted target is converged; with no reason and
    nothing adopted, no target named the node. *)
Definition adopt_inv (node : string) (seen : AcceleratorPartitionPolicy → TargetStatus → Prop) (acc : Adopted) : Prop :=
  match acc with
  | (Some (a, t), _) => seen a t ∧ Tg_NodeName t = node ∧ converged a t
  | (None, reason) => reason = "" → ∀ a t, seen a t → Tg_NodeName t ≠ node
  end.

Lemma adopt_target_inv node a (seen : AcceleratorPartitionPolicy → TargetStatus → Prop) acc t :
  adopt_inv node seen acc → adopt_inv node (λ a' t', seen a' t' ∨ (a' = a ∧ t' = t)) (adopt_target node a acc t).
Proof.
  destruct acc as [adopted reason]. intros Hinv. unfold adopt_target.
  case_bool_decide as En; simpl.
  2:{ destruct adopted as [[a0 t0]|]; simpl in *; [tauto|]. intros Hr a' t' [?|[-> ->]]; [eauto|done]. }
  assert (Hreason : ∀ msg : string, msg ≠ "" → adopt_inv node (λ a' t', seen a' t' ∨ (a' = a ∧ t' = t))
    (adopted, if bool_decide (reason = "") then msg else reason)).
  { intros msg Hmsg. destruct adopted as [[a0 t0]|]; simpl in *; [tauto|]. intros Hr. case_bool_decide; done. }
  destruct (Pp_ObservedGeneration a =? Pp_Generation a) eqn:Eg; bool_prop; simpl; [|by apply Hreason].
  destruct (decide (Tg_Phase t = ACPPPhaseReady)) as [Ep|Ep];
    [rewrite bool_decide_eq_true_2 by done|rewrite (bool_decide_eq_false_2 (_ = ACPPPhaseReady)) by done; by apply Hreason].
  destruct adopted as [[a0 t0]|]; simpl in *; [tauto|]. split_and!; [by right|done|by split].
Qed.

Lemma adopt_spec node acpps : adopt_inv node (λ a t, a ∈ acpps ∧ t ∈ Pp_Targets a) (adopt node acpps).
Proof.
  assert (Hext : ∀ (P Q : AcceleratorPartitionPolicy → TargetStatus → Prop) acc,
    (∀ a t, P a t ↔ Q a t) → adopt_inv node P acc → adopt_inv node Q acc).
  { intros P Q [[[a t]|] reason] HPQ; simpl; [by rewrite HPQ|]. intros Hp Hr a t Hq. eapply Hp; [done|by apply HPQ]. }
  assert (Htargets : ∀ a ts acc P, adopt_inv node P acc →
    adopt_inv node (λ a' t', P a' t' ∨ (a' = a ∧ t' ∈ ts)) (foldl (adopt_target node a) acc ts)).
  { intros a ts. induction ts as [|t ts IH]; intros acc P Hp; simpl.
    - eapply Hext; [|exact Hp]. intros a' t'. rewrite elem_of_nil. tauto.
    - eapply Hext; [|apply IH, adopt_target_inv, Hp]. intros a' t'. simpl. rewrite elem_of_cons. tauto. }
  assert (Hall : ∀ l acc P, adopt_inv node P acc →
    adopt_inv node (λ a' t', P a' t' ∨ (a' ∈ l ∧ t' ∈ Pp_Targets a'))
      (foldl (λ acc a, foldl (adopt_target node a) acc (Pp_Targets a)) acc l)).
  { induction l as [|a l IH]; intros acc P Hp; simpl.
    - eapply Hext; [|exact Hp]. intros a' t'. rewrite elem_of_nil. tauto.
    - eapply Hext; [|apply IH, Htargets, Hp]. intros a' t'. simpl. rewrite elem_of_cons.
      split; [intros [[?|[-> ?]]|[? ?]]; tauto|intros [?|[[->|?] ?]]; tauto]. }
  eapply Hext; [|apply (Hall (sort_on Pp_Name acpps) (None, "") (λ _ _, False)); by intros _ ? ?].
  intros a t. simpl. rewrite elem_of_sort_on. tauto.
Qed.

(** A node whose capability is current: no policy targets it, or a converged one does. *)
Definition partition_settled (acpps : list AcceleratorPartitionPolicy) (node : string) : Prop :=
  (∀ a t, targets_of acpps node a t → False) ∨ ∃ a t, targets_of acpps node a t ∧ converged a t.

Lemma applyACPPStatus_settled nc acpps :
  Nc_Stale nc = false → Nc_Stale (applyACPPStatus nc acpps) = false → partition_settled acpps (Nc_NodeName nc).
Proof.
  intros Hs. unfold applyACPPStatus. pose proof (adopt_spec (Nc_NodeName nc) acpps) as Ha.
  destruct (adopt _ _) as [[[a t]|] reason]; simpl in Ha.
  - intros _. right. exists a, t. split; [|tauto]. split; tauto.
  - case_bool_decide; simpl; [|done]. intros _. left. intros a t (? & ? & ?). by eapply Ha.
Qed.

(** ** The snapshot *)

(** The smallest of the positive sizes seen so far, 0 when there is none. *)
Definition smallest_of (seen : Z → Prop) (mem : Z) : Prop :=
  (mem = 0 ∧ ∀ v, seen v → ¬ 0 < v) ∨ (0 < mem ∧ seen mem ∧ ∀ v, seen v → 0 < v → mem <= v).
#[local] Notation smallest_step := (λ (smallest : Z) (d : DeviceEntry), if De_MemoryMiB d <=? 0 then smallest
  else if (smallest =? 0) || (De_MemoryMiB d <? smallest) then De_MemoryMiB d else smallest).

Lemma smallest_devices ds seen mem : smallest_of seen mem →
  smallest_of (λ v, seen v ∨ ∃ d, d ∈ ds ∧ De_MemoryMiB d = v) (foldl smallest_step mem ds).
Proof.
  revert seen mem. induction ds as [|d ds IH]; intros seen mem Hi; simpl.
  - destruct Hi as [[-> Hi]|(Hp & Hm & Hi)]; [left; split; [done|]|right; split_and!; [done|by left|]];
      intros v [?|(d & Hd & _)]; solve [eauto|by apply elem_of_nil in Hd].
  - assert (Hstep : smallest_of (λ v, seen v ∨ De_MemoryMiB d = v) (if De_MemoryMiB d <=? 0 then mem
      else if (mem =? 0) || (De_MemoryMiB d <? mem) then De_MemoryMiB d else mem)).
    { destruct (De_MemoryMiB d <=? 0) eqn:E0; bool_prop.
      - destruct Hi as [[-> Hi]|(Hp & Hm & Hi)]; [left|right]; split_and!; auto; intros v [?|<-]; auto; lia.
      - right. destruct Hi as [[-> Hi]|(Hp & Hm & Hi)]; simpl.
        + split_and!; [lia|by right|]. intros v [Hv|<-] ?; [by destruct (Hi v Hv)|lia].
        + rewrite (proj2 (Z.eqb_neq mem 0)) by lia. simpl. destruct (De_MemoryMiB d <? mem) eqn:El; bool_prop;
            split_and!; auto; intros v [Hv|<-] ?; try lia; specialize (Hi v Hv); lia. }
    specialize (IH _ _ Hstep). destruct IH as [[E IH]|(Hp & Hm & IH)]; [left|right]; split_and!; try done.
    + intros v [?|(d' & [->|?]%elem_of_cons & ?)]; apply IH; eauto.
    + destruct Hm as [[?|?]|(d' & ? & ?)]; [by left|right; exists d; split; [by left|done]|right; exists d'; split; [by right|done]].
    + intros v [?|(d' & [->|?]%elem_of_cons & ?)] ?; apply IH; eauto.
Qed.

Lemma smallest_reports node l seen mem : smallest_of seen mem →
  smallest_of (λ v, seen v ∨ ∃ r d, r ∈ l ∧ Ndr_NodeName r = node ∧ d ∈ Ndr_Devices r ∧ De_MemoryMiB d = v)
    (foldl (λ smallest r, if negb (bool_decide (Ndr_NodeName r = node)) then smallest
      else foldl smallest_step smallest (Ndr_Devices r)) mem l).
Proof.
  assert (Hext : ∀ (P Q : Z → Prop) z, (∀ v, P v ↔ Q v) → smallest_of P z → smallest_of Q z).
  { intros P Q z HPQ. unfold smallest_of. setoid_rewrite HPQ. done. }
  revert seen mem. induction l as [|r l IH]; intros seen mem Hi; simpl.
  - eapply Hext; [|exact Hi]. intros v. split; [auto|]. intros [?|(r & d & Hr & _)]; [done|by apply elem_of_nil in Hr].
  - case_bool_decide as En; simpl.
    + eapply Hext; [|apply IH, smallest_devices, Hi]. intros v. split.
      * intros [[?|(d & ? & ?)]|(r' & d & ? & ?)]; [by left|right; exists r, d; split; [by left|done]|right; exists r', d; split; [by right|done]].
      * intros [?|(r' & d & [->|?]%elem_of_cons & ? & ? & ?)]; [auto|left; right; eauto|right; eauto 8].
    + eapply Hext; [|apply IH, Hi]. intros v. split.
      * intros [?|(r' & d & ? & ?)]; [by left|right; exists r', d; split; [by right|done]].
      * intros [?|(r' & d & [->|?]%elem_of_cons & ? & ? & ?)]; [auto|done|right; eauto 8].
Qed.

Lemma smallest_memory_spec ndrs node :
  let mem := smallestDeviceMemoryMiB ndrs node in
  let reported v := ∃ r d, r ∈ ndrs ∧ Ndr_NodeName r = node ∧ d ∈ Ndr_Devices r ∧ De_MemoryMiB d = v ∧ 0 < v in
  (mem = 0 ∧ ∀ v, ¬ reported v) ∨ (reported mem ∧ ∀ v, reported v → mem <= v).
Proof.
  cbv zeta.
  pose proof (smallest_reports node ndrs (λ _, False) 0 ltac:(left; by split)) as Hall.
  fold (smallestDeviceMemoryMiB ndrs node) in Hall.
  destruct Hall as [[E Hi]|(Hp & [[]|(r & d & ?)] & Hi)]; [left|right].
  - split; [done|]. intros v (r & d & ? & ? & ? & ? & ?). eapply Hi; [|done]. right. eauto 8.
  - split; [exists r, d; tauto|]. intros v (r' & d' & ? & ? & ? & ? & ?). apply Hi; [right; eauto 8|done].
Qed.

Section Nodes.
Context `{MapRange}.

Lemma advertised_on_spec node name c :
  (advertised_on node).1 !! name = Some c ↔
    VendorForResource name ≠ "" ∧ ∃ v, Node_Allocatable node !! name = Some v ∧ c = wrap32 v.
Proof.
  unfold advertised_on. set (alloc := Node_Allocatable node).
  assert (Hgen : ∀ names acc, NoDup names → (∀ n, n ∈ names → acc.1 !! n = None) →
    (foldl (advertised_step alloc) acc names).1 !! name = Some c ↔
      acc.1 !! name = Some c ∨ (name ∈ names ∧ VendorForResource name ≠ "" ∧ c = wrap32 (mget 0 alloc name))).
  { induction names as [|n names IH]; intros acc Hnd Hnone; simpl; [rewrite elem_of_nil; tauto|].
    apply NoDup_cons in Hnd as [Hn Hnd]. rewrite IH; [|done|]; unfold advertised_step; case_bool_decide as Ev; simpl.
    - rewrite elem_of_cons. split; [tauto|]. intros [?|([->|?] & ? & ?)]; [by left|done|auto].
    - rewrite elem_of_cons. rewrite lookup_insert_Some. pose proof (Hnone n ltac:(by left)).
      split; [intros [[[-> <-]|[? ?]]|?]; tauto|]. intros [?|([->|?] & ? & ->)]; [left; right; split; congruence|by left; left|tauto].
    - intros n' ?. apply Hnone. by right.
    - intros n' ?. rewrite lookup_insert_ne by set_solver. apply Hnone. by right. }
  rewrite Hgen; [|rewrite sort_strings_perm; apply NoDup_elements|by intros; apply lookup_empty].
  simpl. rewrite lookup_empty, elem_of_sort_strings, elem_of_elements, elem_of_dom. unfold mget, is_Some. split.
  - intros [?|([v E] & ? & ->)]; [done|]. split; [done|]. exists v. by rewrite E.
  - intros [? (v & E & ->)]. right. rewrite E. eauto.
Qed.

Lemma node_capability_spec acpps ndrs dra node nc :
  node_capability acpps ndrs dra node = Some nc →
  Node_Unschedulable node = false ∧ Nc_NodeName nc = Node_Name node ∧
  Nc_Advertised nc = (advertised_on node).1 ∧ Nc_MemoryMiB nc = smallestDeviceMemoryMiB ndrs (Node_Name node) ∧
  Nc_DRADevices nc = mget ∅ (Dra_SlicesByNodeDriver dra) (Node_Name node) ∧
  (Nc_Stale nc = false → partition_settled acpps (Node_Name node)).
Proof.
  unfold node_capability. destruct (Node_Unschedulable node); [done|].
  destruct (advertised_on node) as [advertised vendor]. case_bool_decide; [case_bool_decide; [done|]|]; simpl;
  set (nc0 := mkCapability _ _ _ _ _ _ _ _ _ _ _ _); intros [= <-];
  pose proof (applyACPPStatus_identity nc0 acpps) as Hid; unfold identity_of in Hid; simplify_eq Hid;
  intros ? ? ? ? ?; rewrite !applyObservedSharing_keeps by done; split_and!; try done;
  by apply (applyACPPStatus_settled nc0).
Qed.

Lemma elem_of_BuildSnapshot nodes acpps ndrs dra nc :
  nc ∈ BuildSnapshot nodes acpps ndrs dra ↔ ∃ node, node ∈ nodes ∧ node_capability acpps ndrs dra node = Some nc.
Proof. unfold BuildSnapshot. by rewrite elem_of_sort_on, list_elem_of_omap. Qed.
End Nodes.

(** ** The health monitor's verdict *)

Definition blocks (h : AcceleratorHealth) : Prop :=
  Hst_State (Ah_Status h) ≠ "" ∧ Hst_AllocationAllowed (Ah_Status h) = false.

Lemma blocked_healths_None healths name :
  blocked_healths healths !! name = None ↔ ∀ h, h ∈ healths → Ah_Name h = name → ¬ blocks h.
Proof.
  unfold blocked_healths.
  assert (Hgen : ∀ (m : gmap string AcceleratorHealthStatus), foldl (λ m h,
      if negb (bool_decide (Hst_State (Ah_Status h) = "")) && negb (Hst_AllocationAllowed (Ah_Status h))
      then <[Ah_Name h := Ah_Status h]> m else m) m healths !! name = None ↔
    m !! name = None ∧ ∀ h, h ∈ healths → Ah_Name h = name → ¬ blocks h).
  { induction healths as [|h hs IH]; intros m; simpl.
    - split; [intros ?; split; [done|]; intros h Hh; by apply elem_of_nil in Hh|tauto].
    - rewrite IH. unfold blocks. setoid_rewrite elem_of_cons.
      case_bool_decide as Es; simpl.
      + split; intros [Hm Hall]; (split; [done|]); intros h' Hh'; [destruct Hh' as [->|?]; [tauto|auto]|auto].
      + destruct (Hst_AllocationAllowed (Ah_Status h)) eqn:Ea; simpl.
        * split; intros [Hm Hall]; (split; [done|]); intros h' Hh'; [destruct Hh' as [->|?]; [intros _ [_ ?]; congruence|auto]|auto].
        * rewrite lookup_insert_None. split; intros [Hm Hall].
          -- destruct Hm as [Hm Hne]. split; [done|]. intros h' [->|?]; [congruence|auto].
          -- split; [|auto]. split; [done|]. intros E. apply (Hall h); auto. }
  rewrite Hgen, lookup_empty. tauto.
Qed.

(** A node that may be named: it is schedulable, no health verdict blocks it,
    and its partition policies have settled. *)
Definition may_be_named (nodes : list Node) (acpps : list AcceleratorPartitionPolicy) (healths : list AcceleratorHealth)
    (n : string) : Prop :=
  (∃ node, node ∈ nodes ∧ Node_Name node = n ∧ Node_Unschedulable node = false) ∧
  (∀ h, h ∈ healths → Ah_Name h = n → ¬ blocks h) ∧
  partition_settled acpps n.

Section Cluster.
Context `{MapRange} `{Quantities}.

Lemma ApplyHealth_current snap healths nc :
  nc ∈ ApplyHealth snap healths → Nc_Stale nc = false →
  ∃ nc0, nc0 ∈ snap ∧ Nc_NodeName nc0 = Nc_NodeName nc ∧ Nc_Stale nc0 = false ∧
    ∀ h, h ∈ healths → Ah_Name h = Nc_NodeName nc → ¬ blocks h.
Proof.
  unfold ApplyHealth. case_bool_decide as Hl.
  { intros Hnc Hs. exists nc. split_and!; [done..|]. apply nil_length_inv in Hl as ->. intros h Hh. by apply elem_of_nil in Hh. }
  rewrite <-list_fmap_compose. intros (nc0 & -> & Hnc0)%list_elem_of_fmap. simpl.
  assert (Hdrop : ∀ nc', Nc_Stale (drop_devices (unhealthy_devices healths) nc') = Nc_Stale nc' ∧
    Nc_NodeName (drop_devices (unhealthy_devices healths) nc') = Nc_NodeName nc').
  { intros nc'. unfold drop_devices. by case_bool_decide. }
  destruct (Hdrop (block_node (blocked_healths healths) nc0)) as [-> ->]. unfold block_node.
  destruct (blocked_healths healths !! Nc_NodeName nc0) eqn:Eb; [done|]. intros Hs. exists nc0.
  split_and!; [done..|]. by apply blocked_healths_None.
Qed.

(** A node of an answer, on either path, is in the snapshot with current data. *)
Lemma answer_in_snapshot req snap dra res n :
  TranslateWithDRA req snap dra = inl res → n ∈ Ra_Nodes res →
  ∃ nc, nc ∈ snap ∧ Nc_NodeName nc = n ∧ Nc_Stale nc = false.
Proof.
  unfold TranslateWithDRA, translateDRA. set (api := if _ || _ then _ else _).
  set (ms := orderMappings _ _). destruct (bool_decide (api = _)).
  - destruct (negb (Dra_APIServed dra)); [done|]. destruct (rejectUnsupportedDRAAxes _); [done|].
    destruct (bool_decide (length ms = 0%nat)); [done|]. intros E Hn. pose proof (try_dra_mappings_spec req snap dra ms None) as Hs.
    rewrite E in Hs. destruct Hs as (_ & m & _ & Hres). destruct Hres as (_ & _ & _ & _ & _ & _ & _ & whole & _ & Hall).
    destruct (proj1 (Hall n) Hn) as (nc & Hnc & Hname & Hs & _). eauto.
  - destruct (negb (bool_decide (api = _))); [done|]. destruct (bool_decide (length ms = 0%nat)); [done|]. destruct (negb _); [done|].
    pose proof (try_mappings_spec req snap api ms None) as Hs. destruct (try_mappings _ _ _ _ _); [|done].
    intros [= <-] Hn. destruct Hs as (l1 & m & l2 & _ & _ & _ & _ & _ & _ & _ & _ & _ & _ & _ & Hall).
    destruct (proj1 (Hall n) Hn) as (nc & Hnc & Hname & Hserves). destruct Hserves as [Hm _]. exists nc. split_and!; [done..|]. apply Hm.
Qed.

Lemma snapshot_may_be_named nodes acpps ndrs dra healths nc :
  nc ∈ ApplyHealth (BuildSnapshot nodes acpps ndrs dra) healths → Nc_Stale nc = false →
  may_be_named nodes acpps healths (Nc_NodeName nc).
Proof.
  intros Hnc Hs. apply ApplyHealth_current in Hnc as (nc0 & Hnc0 & En & Hs0 & Hh); [|done].
  apply elem_of_BuildSnapshot in Hnc0 as (node & Hnode & E). apply node_capability_spec in E as (Hu & Hn & _ & _ & _ & Hp).
  rewrite <-En, Hn in *. split; [by exists node|]. split; [done|auto].
Qed.

(** C33. No answer ever names a node that must not take work: whatever the
    request and the path, every node of a result over the cluster's snapshot is
    schedulable, is not blocked by a health verdict, and is targeted by no
    partition policy unless a converged and ready one. *)
Theorem translation_avoids_unfit_nodes req nodes acpps ndrs healths dra res n :
  TranslateWithDRA req (ApplyHealth (BuildSnapshot nodes acpps ndrs dra) healths) dra = inl res → n ∈ Ra_Nodes res →
  may_be_named nodes acpps healths n.
Proof.
  intros E Hn. destruct (answer_in_snapshot _ _ _ _ _ E Hn) as (nc & Hnc & <- & Hs).
  by eapply snapshot_may_be_named.
Qed.

(** The snapshot has exactly one entry per schedulable node that advertises
    an accelerator or publishes DRA devices, sorted by name; its counts are the
    node's allocatable ones (as 32-bit numbers) of the resources this operator
    knows, and its memory is the smallest size any report gives for the node,
    0 when none does. *)
Theorem BuildSnapshot_correct nodes acpps ndrs dra :
  let snap := BuildSnapshot nodes acpps ndrs dra in
  let present node := Node_Unschedulable node = false ∧
    ((advertised_on node).1 ≠ ∅ ∨ mget ∅ (Dra_SlicesByNodeDriver dra) (Node_Name node) ≠ ∅) in
  StronglySorted (not_after (less_on Nc_NodeName)) snap ∧
  Nc_NodeName <$> snap ≡ₚ Node_Name <$> filter present nodes ∧
  (∀ nc, nc ∈ snap → ∃ node, node ∈ nodes ∧ Nc_NodeName nc = Node_Name node ∧
    (∀ name c, Nc_Advertised nc !! name = Some c ↔
       VendorForResource name ≠ "" ∧ ∃ v, Node_Allocatable node !! name = Some v ∧ c = wrap32 v) ∧
    let reported v := ∃ r d, r ∈ ndrs ∧ Ndr_NodeName r = Node_Name node ∧ d ∈ Ndr_Devices r ∧ De_MemoryMiB d = v ∧ 0 < v in
    (Nc_MemoryMiB nc = 0 ∧ ∀ v, ¬ reported v) ∨
    (reported (Nc_MemoryMiB nc) ∧ ∀ v, reported v → Nc_MemoryMiB nc <= v)).
Proof.
  cbv zeta. split_and!.
  - unfold BuildSnapshot, sort_on. apply sort_slice_sorted. apply _.
  - unfold BuildSnapshot. rewrite sort_on_perm. match goal with |- ?a ≡ₚ ?b => cut (a = b); [by intros ->|] end. induction nodes as [|node nodes IH]; [done|].
    rewrite filter_cons. simpl. destruct (node_capability acpps ndrs dra node) as [nc|] eqn:E.
    + pose proof (node_capability_spec _ _ _ _ _ E) as (Hu & Hn & _). rewrite decide_True.
      * rewrite !fmap_cons, Hn. by f_equal.
      * split; [done|]. revert E. unfold node_capability. rewrite Hu. destruct (advertised_on node) as [adv v]. simpl.
        case_bool_decide; [|by left]. case_bool_decide; [done|by right].
    + rewrite decide_False; [done|]. intros [Hu Hne]. revert E. unfold node_capability. rewrite Hu.
      destruct (advertised_on node) as [adv v]. simpl in Hne.
      case_bool_decide; simpl; [|done]. case_bool_decide; [|done]. tauto.
  - intros nc (node & Hnode & E)%elem_of_BuildSnapshot.
    pose proof (node_capability_spec _ _ _ _ _ E) as (_ & Hn & Hadv & Hmem & _). exists node. split_and!; [done..| |].
    + intros name c. rewrite Hadv. apply advertised_on_spec.
    + rewrite Hmem. apply smallest_memory_spec.
Qed.
End Cluster.

(** ** MPS *)

(** MPS is one of the sharing modes a partition policy records, but neither
    gate knows it: a node shared by MPS is refused for every shared mode, and
    for every other mode it is judged exactly as if it were not shared, so the
    mode gate hands out its replicas as exclusive devices. *)
Theorem mps_node_taken_for_exclusive `{MapRange} nc access m :
  Nc_SharingMode nc = SharingModeMPS →
  if shared_mode (Acc_Mode access) then CheckMode nc access m ≠ None
  else CheckMode nc access m = None ↔ CheckMode (set_sharing SharingModeExclusive 0 nc) access m = None.
Proof.
  intros Hm. destruct (shared_mode (Acc_Mode access)) eqn:Es; rewrite CheckMode_None.
  - intros (_ & _ & Hs & _). unfold sharing_fits in Hs. rewrite Es in Hs. destruct Hs as (_ & _ & _ & Ht & _). by rewrite Hm in Ht.
  - rewrite CheckMode_None. unfold mode_fits, sharing_fits. rewrite Es, Hm. split; intros (? & ? & _ & ?); by split_and!.
Qed.

(** ** The theorems at a concrete cluster *)

Definition gpu_host (name : string) (cordoned : bool) (gpus : Z) : Node :=
  mkNode name ∅ ∅ cordoned {["nvidia.com/gpu" := gpus; "cpu" := 64]} [] "boot" "6.8" None.
Definition monitored (name : string) (allowed : bool) : AcceleratorHealth :=
  mkHealth name "1" 0 name (mkHealthStatus "Degraded" "signals failed" allowed [] zero_time "" 0 None []).
Definition demo_nodes : list Node := [gpu_host "w1" false 2; gpu_host "w2" true 2; gpu_host "w3" false 2].
Definition mps_policy : AcceleratorPartitionPolicy :=
  mkPartitionPolicy "p" 1 None 1 [mkTargetStatus "w1" ACPPPhaseReady [] []] [mkApplyRecord "w1" SharingModeMPS 4].

(** Of three nodes, one cordoned and one blocked, the answer names the third. *)
Lemma translation_avoids_unfit_nodes_witness :
  ∃ res, TranslateWithDRA (H := map_range_default) (H0 := byte_quantities) (demo_request "auto")
      (ApplyHealth (BuildSnapshot (H := map_range_default) demo_nodes [] [] no_dra) [monitored "w3" false]) no_dra = inl res ∧
    Ra_Nodes res = ["w1"] ∧ may_be_named demo_nodes [] [monitored "w3" false] "w1".
Proof.
  eexists. split; [vm_compute; reflexivity|]. split; [vm_compute; reflexivity|].
  eapply (translation_avoids_unfit_nodes (H := map_range_default) (H0 := byte_quantities)
    (demo_request "auto") demo_nodes [] [] [monitored "w3" false] no_dra); [vm_compute; reflexivity|by left].
Defined.

(** A node that a policy shares by MPS between four, with no device report: the
    translation offers it as an exclusive device. *)
Lemma mps_node_taken_for_exclusive_witness :
  let nc := default (gpu_node "" 0) (head (BuildSnapshot (H := map_range_default) [gpu_host "w1" false 4] [mps_policy] [] no_dra)) in
  Nc_SharingMode nc = SharingModeMPS ∧ CheckMode (H := map_range_default) nc (mkAccess AccessModeExclusive "" 0) nvidia_mapping = None.
Proof.
  split; [vm_compute; reflexivity|].
  apply (mps_node_taken_for_exclusive (H := map_range_default) _ (mkAccess AccessModeExclusive "" 0) nvidia_mapping);
    vm_compute; reflexivity.
Defined.
