(* ===== verification/UpgradeTypes.v ===== *)
(** * Driver upgrades: the objects they read and write

    The fields of [DriverUpgradeState] and [DriverInstallPolicy] that the code
    uses, those of the Kubernetes objects it touches, and the API it touches them
    through. *)

From S2P Require Import Prelude GoStrings GoTime ApiTypes.

(** ** driverupgradestate_types.go *)

Definition DriverModelUnknown : string := "generic".
Definition RollbackRequestedAnnotation : string := "npu.ai/rollback-requested".

Definition RollbackRequestAccepted (state : string) : bool :=
  contains_string [""; UpgradeStateIdle; UpgradeStateFailed] state.

Record QuiescedDeployment := mkQuiesced { Qd_Namespace : string; Qd_Name : string; Qd_OriginalReplicas : Z }.

Record DriverUpgradeStateStatus := mkDusStatus {
  Us_State : string;
  Us_CurrentVersion : string;
  Us_DesiredVersion : string;
  Us_LastTransitionTime : Z;
  Us_PreviousVersion : string;
  Us_PreviousImage : string;
  Us_ResolvedImage : string;
  Us_RollbackAttempts : Z;
  Us_RebootAttempts : Z;
  Us_RebootRequestedTime : Z;
  Us_RebootBootID : string;
  Us_Message : string;
  Us_QuiescedDeployments : list QuiescedDeployment;
  Us_DriftFirstSeen : option Z;
  Us_ObservedModels : list string;
  Us_ConsumedRollbackRequest : string;
  Us_RolledBackVersion : string;
  Us_RolledBackGeneration : Z;
}.
Record DriverUpgradeState := mkDUS {
  Dus_Name : string;
  Dus_UID : string;
  Dus_Generation : Z;
  Dus_ResourceVersion : string;
  Dus_Annotations : gmap string string;
  Dus_NodeName : string;
  Dus_Vendor : string;
  Dus_Model : string;
  Dus_Status : DriverUpgradeStateStatus;
}.

(** Assignments to the fields of [state.Status]. *)
Definition us_State (v : string) (s : DriverUpgradeStateStatus) : DriverUpgradeStateStatus := mkDusStatus
  v (Us_CurrentVersion s) (Us_DesiredVersion s) (Us_LastTransitionTime s) (Us_PreviousVersion s)
  (Us_PreviousImage s) (Us_ResolvedImage s) (Us_RollbackAttempts s) (Us_RebootAttempts s)
  (Us_RebootRequestedTime s) (Us_RebootBootID s) (Us_Message s) (Us_QuiescedDeployments s)
  (Us_DriftFirstSeen s) (Us_ObservedModels s) (Us_ConsumedRollbackRequest s) (Us_RolledBackVersion
  s) (Us_RolledBackGeneration s).
Definition us_CurrentVersion (v : string) (s : DriverUpgradeStateStatus) : DriverUpgradeStateStatus := mkDusStatus
  (Us_State s) v (Us_DesiredVersion s) (Us_LastTransitionTime s) (Us_PreviousVersion s)
  (Us_PreviousImage s) (Us_ResolvedImage s) (Us_RollbackAttempts s) (Us_RebootAttempts s)
  (Us_RebootRequestedTime s) (Us_RebootBootID s) (Us_Message s) (Us_QuiescedDeployments s)
  (Us_DriftFirstSeen s) (Us_ObservedModels s) (Us_ConsumedRollbackRequest s) (Us_RolledBackVersion
  s) (Us_RolledBackGeneration s).
Definition us_DesiredVersion (v : string) (s : DriverUpgradeStateStatus) : DriverUpgradeStateStatus := mkDusStatus
  (Us_State s) (Us_CurrentVersion s) v (Us_LastTransitionTime s) (Us_PreviousVersion s)
  (Us_PreviousImage s) (Us_ResolvedImage s) (Us_RollbackAttempts s) (Us_RebootAttempts s)
  (Us_RebootRequestedTime s) (Us_RebootBootID s) (Us_Message s) (Us_QuiescedDeployments s)
  (Us_DriftFirstSeen s) (Us_ObservedModels s) (Us_ConsumedRollbackRequest s) (Us_RolledBackVersion
  s) (Us_RolledBackGeneration s).
Definition us_LastTransitionTime (v : Z) (s : DriverUpgradeStateStatus) : DriverUpgradeStateStatus := mkDusStatus
  (Us_State s) (Us_CurrentVersion s) (Us_DesiredVersion s) v (Us_PreviousVersion s)
  (Us_PreviousImage s) (Us_ResolvedImage s) (Us_RollbackAttempts s) (Us_RebootAttempts s)
  (Us_RebootRequestedTime s) (Us_RebootBootID s) (Us_Message s) (Us_QuiescedDeployments s)
  (Us_DriftFirstSeen s) (Us_ObservedModels s) (Us_ConsumedRollbackRequest s) (Us_RolledBackVersion
  s) (Us_RolledBackGeneration s).
Definition us_PreviousVersion (v : string) (s : DriverUpgradeStateStatus) : DriverUpgradeStateStatus := mkDusStatus
  (Us_State s) (Us_CurrentVersion s) (Us_DesiredVersion s) (Us_LastTransitionTime s) v
  (Us_PreviousImage s) (Us_ResolvedImage s) (Us_RollbackAttempts s) (Us_RebootAttempts s)
  (Us_RebootRequestedTime s) (Us_RebootBootID s) (Us_Message s) (Us_QuiescedDeployments s)
  (Us_DriftFirstSeen s) (Us_ObservedModels s) (Us_ConsumedRollbackRequest s) (Us_RolledBackVersion
  s) (Us_RolledBackGeneration s).
Definition us_PreviousImage (v : string) (s : DriverUpgradeStateStatus) : DriverUpgradeStateStatus := mkDusStatus
  (Us_State s) (Us_CurrentVersion s) (Us_DesiredVersion s) (Us_LastTransitionTime s)
  (Us_PreviousVersion s) v (Us_ResolvedImage s) (Us_RollbackAttempts s) (Us_RebootAttempts s)
  (Us_RebootRequestedTime s) (Us_RebootBootID s) (Us_Message s) (Us_QuiescedDeployments s)
  (Us_DriftFirstSeen s) (Us_ObservedModels s) (Us_ConsumedRollbackRequest s) (Us_RolledBackVersion
  s) (Us_RolledBackGeneration s).
Definition us_ResolvedImage (v : string) (s : DriverUpgradeStateStatus) : DriverUpgradeStateStatus := mkDusStatus
  (Us_State s) (Us_CurrentVersion s) (Us_DesiredVersion s) (Us_LastTransitionTime s)
  (Us_PreviousVersion s) (Us_PreviousImage s) v (Us_RollbackAttempts s) (Us_RebootAttempts s)
  (Us_RebootRequestedTime s) (Us_RebootBootID s) (Us_Message s) (Us_QuiescedDeployments s)
  (Us_DriftFirstSeen s) (Us_ObservedModels s) (Us_ConsumedRollbackRequest s) (Us_RolledBackVersion
  s) (Us_RolledBackGeneration s).
Definition us_RollbackAttempts (v : Z) (s : DriverUpgradeStateStatus) : DriverUpgradeStateStatus := mkDusStatus
  (Us_State s) (Us_CurrentVersion s) (Us_DesiredVersion s) (Us_LastTransitionTime s)
  (Us_PreviousVersion s) (Us_PreviousImage s) (Us_ResolvedImage s) v (Us_RebootAttempts s)
  (Us_RebootRequestedTime s) (Us_RebootBootID s) (Us_Message s) (Us_QuiescedDeployments s)
  (Us_DriftFirstSeen s) (Us_ObservedModels s) (Us_ConsumedRollbackRequest s) (Us_RolledBackVersion
  s) (Us_RolledBackGeneration s).
Definition us_RebootAttempts (v : Z) (s : DriverUpgradeStateStatus) : DriverUpgradeStateStatus := mkDusStatus
  (Us_State s) (Us_CurrentVersion s) (Us_DesiredVersion s) (Us_LastTransitionTime s)
  (Us_PreviousVersion s) (Us_PreviousImage s) (Us_ResolvedImage s) (Us_RollbackAttempts s) v
  (Us_RebootRequestedTime s) (Us_RebootBootID s) (Us_Message s) (Us_QuiescedDeployments s)
  (Us_DriftFirstSeen s) (Us_ObservedModels s) (Us_ConsumedRollbackRequest s) (Us_RolledBackVersion
  s) (Us_RolledBackGeneration s).
Definition us_RebootRequestedTime (v : Z) (s : DriverUpgradeStateStatus) : DriverUpgradeStateStatus := mkDusStatus
  (Us_State s) (Us_CurrentVersion s) (Us_DesiredVersion s) (Us_LastTransitionTime s)
  (Us_PreviousVersion s) (Us_PreviousImage s) (Us_ResolvedImage s) (Us_RollbackAttempts s)
  (Us_RebootAttempts s) v (Us_RebootBootID s) (Us_Message s) (Us_QuiescedDeployments s)
  (Us_DriftFirstSeen s) (Us_ObservedModels s) (Us_ConsumedRollbackRequest s) (Us_RolledBackVersion
  s) (Us_RolledBackGeneration s).
Definition us_RebootBootID (v : string) (s : DriverUpgradeStateStatus) : DriverUpgradeStateStatus := mkDusStatus
  (Us_State s) (Us_CurrentVersion s) (Us_DesiredVersion s) (Us_LastTransitionTime s)
  (Us_PreviousVersion s) (Us_PreviousImage s) (Us_ResolvedImage s) (Us_RollbackAttempts s)
  (Us_RebootAttempts s) (Us_RebootRequestedTime s) v (Us_Message s) (Us_QuiescedDeployments s)
  (Us_DriftFirstSeen s) (Us_ObservedModels s) (Us_ConsumedRollbackRequest s) (Us_RolledBackVersion
  s) (Us_RolledBackGeneration s).
Definition us_Message (v : string) (s : DriverUpgradeStateStatus) : DriverUpgradeStateStatus := mkDusStatus
  (Us_State s) (Us_CurrentVersion s) (Us_DesiredVersion s) (Us_LastTransitionTime s)
  (Us_PreviousVersion s) (Us_PreviousImage s) (Us_ResolvedImage s) (Us_RollbackAttempts s)
  (Us_RebootAttempts s) (Us_RebootRequestedTime s) (Us_RebootBootID s) v (Us_QuiescedDeployments s)
  (Us_DriftFirstSeen s) (Us_ObservedModels s) (Us_ConsumedRollbackRequest s) (Us_RolledBackVersion
  s) (Us_RolledBackGeneration s).
Definition us_QuiescedDeployments (v : list QuiescedDeployment) (s : DriverUpgradeStateStatus) : DriverUpgradeStateStatus := mkDusStatus
  (Us_State s) (Us_CurrentVersion s) (Us_DesiredVersion s) (Us_LastTransitionTime s)
  (Us_PreviousVersion s) (Us_PreviousImage s) (Us_ResolvedImage s) (Us_RollbackAttempts s)
  (Us_RebootAttempts s) (Us_RebootRequestedTime s) (Us_RebootBootID s) (Us_Message s) v
  (Us_DriftFirstSeen s) (Us_ObservedModels s) (Us_ConsumedRollbackRequest s) (Us_RolledBackVersion
  s) (Us_RolledBackGeneration s).
Definition us_DriftFirstSeen (v : option Z) (s : DriverUpgradeStateStatus) : DriverUpgradeStateStatus := mkDusStatus
  (Us_State s) (Us_CurrentVersion s) (Us_DesiredVersion s) (Us_LastTransitionTime s)
  (Us_PreviousVersion s) (Us_PreviousImage s) (Us_ResolvedImage s) (Us_RollbackAttempts s)
  (Us_RebootAttempts s) (Us_RebootRequestedTime s) (Us_RebootBootID s) (Us_Message s)
  (Us_QuiescedDeployments s) v (Us_ObservedModels s) (Us_ConsumedRollbackRequest s)
  (Us_RolledBackVersion s) (Us_RolledBackGeneration s).
Definition us_ObservedModels (v : list string) (s : DriverUpgradeStateStatus) : DriverUpgradeStateStatus := mkDusStatus
  (Us_State s) (Us_CurrentVersion s) (Us_DesiredVersion s) (Us_LastTransitionTime s)
  (Us_PreviousVersion s) (Us_PreviousImage s) (Us_ResolvedImage s) (Us_RollbackAttempts s)
  (Us_RebootAttempts s) (Us_RebootRequestedTime s) (Us_RebootBootID s) (Us_Message s)
  (Us_QuiescedDeployments s) (Us_DriftFirstSeen s) v (Us_ConsumedRollbackRequest s)
  (Us_RolledBackVersion s) (Us_RolledBackGeneration s).
Definition us_ConsumedRollbackRequest (v : string) (s : DriverUpgradeStateStatus) : DriverUpgradeStateStatus := mkDusStatus
  (Us_State s) (Us_CurrentVersion s) (Us_DesiredVersion s) (Us_LastTransitionTime s)
  (Us_PreviousVersion s) (Us_PreviousImage s) (Us_ResolvedImage s) (Us_RollbackAttempts s)
  (Us_RebootAttempts s) (Us_RebootRequestedTime s) (Us_RebootBootID s) (Us_Message s)
  (Us_QuiescedDeployments s) (Us_DriftFirstSeen s) (Us_ObservedModels s) v (Us_RolledBackVersion s)
  (Us_RolledBackGeneration s).
Definition us_RolledBackVersion (v : string) (s : DriverUpgradeStateStatus) : DriverUpgradeStateStatus := mkDusStatus
  (Us_State s) (Us_CurrentVersion s) (Us_DesiredVersion s) (Us_LastTransitionTime s)
  (Us_PreviousVersion s) (Us_PreviousImage s) (Us_ResolvedImage s) (Us_RollbackAttempts s)
  (Us_RebootAttempts s) (Us_RebootRequestedTime s) (Us_RebootBootID s) (Us_Message s)
  (Us_QuiescedDeployments s) (Us_DriftFirstSeen s) (Us_ObservedModels s) (Us_ConsumedRollbackRequest
  s) v (Us_RolledBackGeneration s).
Definition us_RolledBackGeneration (v : Z) (s : DriverUpgradeStateStatus) : DriverUpgradeStateStatus := mkDusStatus
  (Us_State s) (Us_CurrentVersion s) (Us_DesiredVersion s) (Us_LastTransitionTime s)
  (Us_PreviousVersion s) (Us_PreviousImage s) (Us_ResolvedImage s) (Us_RollbackAttempts s)
  (Us_RebootAttempts s) (Us_RebootRequestedTime s) (Us_RebootBootID s) (Us_Message s)
  (Us_QuiescedDeployments s) (Us_DriftFirstSeen s) (Us_ObservedModels s) (Us_ConsumedRollbackRequest
  s) (Us_RolledBackVersion s) v.
Definition dus_status (f : DriverUpgradeStateStatus → DriverUpgradeStateStatus) (d : DriverUpgradeState) : DriverUpgradeState :=
  mkDUS (Dus_Name d) (Dus_UID d) (Dus_Generation d) (Dus_ResourceVersion d) (Dus_Annotations d)
    (Dus_NodeName d) (Dus_Vendor d) (Dus_Model d) (f (Dus_Status d)).
Definition dus_annotations (a : gmap string string) (d : DriverUpgradeState) : DriverUpgradeState :=
  mkDUS (Dus_Name d) (Dus_UID d) (Dus_Generation d) (Dus_ResourceVersion d) a
    (Dus_NodeName d) (Dus_Vendor d) (Dus_Model d) (Dus_Status d).
Definition dus_model (model : string) (d : DriverUpgradeState) : DriverUpgradeState :=
  mkDUS (Dus_Name d) (Dus_UID d) (Dus_Generation d) (Dus_ResourceVersion d) (Dus_Annotations d)
    (Dus_NodeName d) (Dus_Vendor d) model (Dus_Status d).

(** ** driverinstallpolicy_types.go *)

Definition DriverInstallerAPT : string := "apt".
Definition DriverInstallerNGC : string := "ngc".
Definition DriverInstallerScript : string := "script".

Record UpgradePolicy := mkUpgradePolicy {
  Up_AutoUpgrade : bool;
  Up_DrainEnabled : bool;
  Up_ForceUpgrade : bool;
  Up_MaxUnavailable : Z;
  Up_MaxParallelUpgrades : Z;
  Up_DrainTimeout : string;
  Up_ValidationTimeout : string;
  Up_RollbackOnFailure : bool;
  Up_MaxRollbackAttempts : Z;
  Up_RollbackTarget : string;
  Up_IdleCooldownSeconds : option Z;
  Up_MaxReboots : Z;
  Up_RebootTimeout : string;
}.
Record DriverSpec := mkDriverSpec {
  Ds_Version : string;
  Ds_Image : string;
  Ds_KernelImages : gmap string string;
  Ds_KernelImageBuildRevision : string;
  Ds_KernelImageVariant : string;
  Ds_Installer : string;
  Ds_ImageVersionBaked : bool;
  Ds_Mode : string;
  Ds_AllowDowngrade : bool;
  Ds_VersionSource : string;
  Ds_SkipOnPassthrough : bool;
  Ds_TrackOnly : bool;
}.
Record WorkloadProbeSpec := mkWorkloadProbe {
  Wp_Enabled : bool;
  Wp_Image : string;
  Wp_Command : list string;
  Wp_ResourceName : string;
  Wp_TimeoutSeconds : Z;
}.
Record JobOverrides := mkJobOverrides {
  Jo_ServiceAccountName : string;
  Jo_TTLSecondsAfterFinished : option Z;
  Jo_BackoffLimit : option Z;
  Jo_PriorityClassName : string;
}.
Record DriverInstallPolicy := mkDIP {
  Dip_Name : string;
  Dip_UID : string;
  Dip_Generation : Z;
  Dip_Vendor : string;
  Dip_Model : string;
  Dip_Driver : DriverSpec;
  Dip_KernelAllowlist : list string;
  Dip_RebootStrategy : string;
  Dip_RebootExecutor : string;
  Dip_NodeSelector : gmap string string;
  Dip_UpgradePolicy : option UpgradePolicy;
  Dip_VerifiedVersions : list string;
  Dip_WorkloadProbe : option WorkloadProbeSpec;
  Dip_JobOverrides : option JobOverrides;
  Dip_ImagePullSecrets : list string;
}.

(** ** Kubernetes objects *)

(** A mount: the volume's name, the path, read-only or not. *)
Record VolumeMount := mkMount { Vm_Name : string; Vm_MountPath : string; Vm_ReadOnly : bool }.
Inductive VolumeSource := HostPathVolume (path : string) | SecretVolume (secret : string).
Record Container := mkContainer {
  Ct_Name : string;
  Ct_Image : string;
  Ct_Command : list string;
  Ct_Env : list (string * string);
  (** [resources.limits]: the resource names and how many *)
  Ct_Limits : list (string * Z);
  Ct_Privileged : bool;
  Ct_VolumeMounts : list VolumeMount;
}.
Record OwnerRef := mkOwnerRef { Or_Kind : string; Or_Name : string; Or_UID : string; Or_Controller : bool }.
(** The pod spec of a Job's template.  [Pt_ToleratesAll]: its tolerations are
    the one of operator [Exists] without a key. *)
Record PodTemplate := mkPodTemplate {
  Pt_NodeName : string;
  Pt_NodeSelector : gmap string string;
  Pt_HostPID : bool;
  Pt_HostNetwork : bool;
  Pt_RestartPolicy : string;
  Pt_ServiceAccountName : string;
  Pt_PriorityClassName : string;
  Pt_ImagePullSecrets : list string;
  Pt_ToleratesAll : bool;
  Pt_Containers : list Container;
  Pt_Volumes : list (string * VolumeSource);
}.
(** An entry of [status.containerStatuses]: the waiting reason and message, the
    exit code and the termination message. *)
Record ContainerStatus := mkContainerStatus {
  Cs_Name : string; Cs_Waiting : option (string * string); Cs_Terminated : option (Z * string);
}.
Record Pod := mkPod {
  Pod_Namespace : string;
  Pod_Name : string;
  Pod_Labels : gmap string string;
  Pod_Owners : list OwnerRef;
  Pod_NodeName : string;
  Pod_RestartPolicy : string;
  Pod_ActiveDeadlineSeconds : option Z;
  Pod_ToleratesAll : bool;
  (** [len(spec.resourceClaims)] *)
  Pod_ResourceClaims : nat;
  Pod_Containers : list Container;
  Pod_InitContainers : list Container;
  Pod_Phase : string;
  Pod_Conditions : list Condition;
  (** the waiting reasons of [status.containerStatuses] *)
  Pod_Waiting : list string;
  Pod_StartTime : option Z;
  Pod_CreationTimestamp : Z;
  Pod_DeletionTimestamp : option Z;
  Pod_Annotations : gmap string string;
  Pod_ContainerStatuses : list ContainerStatus;
}.
Definition PodSucceeded : string := "Succeeded".
Definition PodFailed : string := "Failed".
Definition ContainersReady : string := "ContainersReady".

(** One [matchExpressions] entry. *)
Record Requirement := mkRequirement { Req_Key : string; Req_Operator : string; Req_Values : list string }.
Record SelectorTerm := mkTerm { Term_Expressions : list Requirement; Term_Fields : list Requirement }.
Record Deployment := mkDeployment {
  Dep_Namespace : string;
  Dep_Name : string;
  Dep_Labels : gmap string string;
  Dep_Annotations : gmap string string;
  Dep_Replicas : option Z;
  Dep_NodeSelector : gmap string string;
  (** [nodeAffinity.requiredDuringSchedulingIgnoredDuringExecution] *)
  Dep_Required : option (list SelectorTerm);
}.
Record DaemonSet := mkDaemonSet { Das_Name : string; Das_Containers : list Container }.
Record Job := mkJob {
  Job_Name : string;
  Job_Namespace : string;
  Job_Labels : gmap string string;
  Job_Owners : list OwnerRef;
  Job_BackoffLimit : Z;
  Job_TTLSecondsAfterFinished : Z;
  Job_ActiveDeadlineSeconds : option Z;
  Job_Template : PodTemplate;
  Job_Conditions : list Condition;
  Job_Succeeded : Z;
  Job_CompletionTime : option Z;
  Job_Annotations : gmap string string;
  Job_Failed : Z;
}.
Definition JobComplete : string := "Complete".
Definition JobFailed : string := "Failed".
Record ResourceClaim := mkClaim {
  Rclaim_Namespace : string;
  Rclaim_Name : string;
  (** [status.allocation], and in it the node selector *)
  Rclaim_Allocation : option (option (list SelectorTerm));
}.

(** ** The API

    A patch is a merge patch: it sends what differs between the object as read
    and as changed. *)
Class UpgradeAPI (W : Type) := {
  node_get : string → M W Node;
  node_list : M W (list Node);
  node_patch : Node → Node → M W ();
  report_get : string → M W NodeDeviceReport;
  (** each with the name of its object *)
  report_list : M W (list (string * NodeDeviceReport));
  policy_list : M W (list DriverInstallPolicy);
  dus_get : string → M W DriverUpgradeState;
  dus_list : M W (list DriverUpgradeState);
  dus_create : DriverUpgradeState → M W ();
  (** the stored object, with its new resource version *)
  dus_status_update : DriverUpgradeState → M W DriverUpgradeState;
  (** both answer with the stored object *)
  dus_patch : DriverUpgradeState → DriverUpgradeState → M W DriverUpgradeState;
  dus_status_patch : DriverUpgradeState → DriverUpgradeState → M W DriverUpgradeState;
  pod_list : M W (list Pod);
  pod_get : string → string → M W Pod;
  pod_create : Pod → M W ();
  pod_delete : Pod → M W ();
  pod_evict : Pod → M W ();
  deployment_list : M W (list Deployment);
  deployment_get : string → string → M W Deployment;
  deployment_patch : Deployment → Deployment → M W ();
  daemonset_get : string → M W DaemonSet;
  daemonset_patch : DaemonSet → DaemonSet → M W ();
  job_get : string → M W Job;
  job_create : Job → M W ();
  job_delete : string → M W ();
  claim_list : M W (list ResourceClaim);
}.

(** What the proofs use of the server's answers: a status update stores the
    status it is given and leaves the identity alone; a patch of the metadata
    leaves the status alone.  (One worker reconciles an object, so the status in
    hand is the stored one when the patch is sent.) *)
Class UpgradeAPILaws (W : Type) `{UpgradeAPI W} := {
  dus_status_update_stored d w d' w' : dus_status_update d w = (inl d', w') →
    Dus_Status d' = Dus_Status d ∧ Dus_Name d' = Dus_Name d ∧ Dus_NodeName d' = Dus_NodeName d
    ∧ Dus_Vendor d' = Dus_Vendor d ∧ Dus_Model d' = Dus_Model d;
  dus_patch_stored base d w d' w' : dus_patch base d w = (inl d', w') →
    Dus_Status d' = Dus_Status base ∧ Dus_Name d' = Dus_Name d ∧ Dus_NodeName d' = Dus_NodeName d
    ∧ Dus_Vendor d' = Dus_Vendor d ∧ Dus_Model d' = Dus_Model d;
}.
