(* ===== verification/DriverAdapter.v ===== *)
(** * internal/driveradapter: what differs per vendor in a driver install

    Models [adapter.go]: a registry keyed by vendor and product, and the
    resolution of a policy's vendor and model to a product. *)

From S2P Require Import Prelude GoStrings PolicyTypes VendorCap.

Definition vendorRebellions : string := "rebellions".
Definition vendorTenstorrent : string := "tenstorrent".
Definition productWarboy : string := "warboy".
Definition productRngd : string := "rngd".
Definition presentLabelValue : string := "true".
Definition shellNoop : string := "true".
Definition AptAuthSecretName : string := "furiosa-apt-auth".

Record adapter := mkAdapter {
  Ad_key : Key;
  Ad_presentLabel : string;
  RmmodCommand : string;
  ToolkitRequired : bool;
  AptAuthRequired : bool;
  RuntimeClass : string;
}.
Definition PresentNodeSelector (a : adapter) : option (gmap string string) :=
  if bool_decide (Ad_presentLabel a = "") then None else Some {[ Ad_presentLabel a := presentLabelValue ]}.

Definition registry_adapters : list adapter :=
  [ mkAdapter ("nvidia", "") (PresentNodeLabel "nvidia") "rmmod nvidia_uvm nvidia_drm nvidia || true" true false "nvidia";
    mkAdapter ("furiosa", productWarboy) (PresentNodeLabel "furiosa") "rmmod npu_pdma npu_mgmt || true" false true "";
    mkAdapter ("furiosa", productRngd) (PresentNodeLabel productRngd) "rmmod furiosa_rngd || true" false false "";
    mkAdapter (vendorRebellions, "") (PresentNodeLabel vendorRebellions) shellNoop false false "";
    mkAdapter (vendorTenstorrent, "") "" shellNoop false false "" ].
Definition adapter_registry : gmap Key adapter := list_to_map ((λ a, (Ad_key a, a)) <$> registry_adapters).

Definition Lookup (vendor product : string) : option adapter := adapter_registry !! ((vendor, product) : Key).

Definition ForModel (vendor model : string) : option adapter :=
  let v := to_lower vendor in
  let product := if bool_decide (v = "furiosa") then
                   if equal_fold model productRngd then productRngd else productWarboy
                 else "" in
  Lookup v product.

Example ForModel_demo : Ad_key <$> ForModel "Furiosa" "bogus" = Some ("furiosa", "warboy").
Proof. vm_compute. reflexivity. Qed.
