(* ===== verification/DriverJob.v ===== *)
(** * internal/driverjob and the Job predicates of internal/upgrade

    Models [job.go], [rebootjob.go] and [hostcmdjob.go]: the one-shot Jobs that
    install a driver, reboot a node or reset a device, as the object sent to the
    API; and the functions of [state_machine_job.go] that read a Job back. *)

From S2P Require Import Prelude GoStrings GoTime Naming ApiTypes UpgradeTypes VendorCap DriverAdapter.

Definition defaultBackoffLimit : Z := 6.
Definition defaultTTLSecondsAfterFinished : Z := 600.
Definition defaultActiveDeadlineSeconds : Z := 1800.
Definition RestartPolicyOnFailure : string := "OnFailure".
Definition RestartPolicyNever : string := "Never".
Definition versionSourcePolicy : string := "Policy".
Definition versionSourceOrDefault (vs : string) : string :=
  if bool_decide (vs = "") then versionSourcePolicy else vs.

Definition owner_of (pol : DriverInstallPolicy) : OwnerRef :=
  mkOwnerRef "DriverInstallPolicy" (Dip_Name pol) (Dip_UID pol) true.
Definition host_mounts : list (string * string) :=
  [("host-modules", "/lib/modules"); ("host-src", "/usr/src"); ("host-etc", "/etc");
   ("host-var", "/var/lib/kcloud-operator"); ("device-plugins", "/var/lib/kubelet/device-plugins")].

Section DriverJob.
(** [driverjob.Namespace] *)
Context (Namespace : string).

Definition renderJob (pol : DriverInstallPolicy) (nodeName image version : string) (rollback : bool) : Job :=
  let labels : gmap string string :=
    {[ "app.kubernetes.io/name" := "kcloud-driver-install"; "app.kubernetes.io/component" := "driver-install";
       "npu.ai/vendor" := to_lower (Dip_Vendor pol); "npu.ai/node" := nodeName ]} in
  let jo := Dip_JobOverrides pol in
  let d := Dip_Driver pol in
  let a := ForModel (Dip_Vendor pol) (Dip_Model pol) in
  let nodeSelector := default ∅ (a ≫= PresentNodeSelector) in
  let nodeSelector := if bool_decide (size (Dip_NodeSelector pol) = 0%nat) then nodeSelector
                      else Dip_NodeSelector pol in
  let allowDowngrade := rollback || Ds_AllowDowngrade d in
  let versionSource := if rollback then versionSourcePolicy else versionSourceOrDefault (Ds_VersionSource d) in
  let env := [("RUN_MODE", "job"); ("DRIVER_VERSION", version); ("REBOOT_STRATEGY", Dip_RebootStrategy pol);
              ("VENDOR", Dip_Vendor pol); ("ALLOW_DOWNGRADE", sprint_bool allowDowngrade);
              ("VERSION_SOURCE", versionSource); ("SKIP_ON_PASSTHROUGH", sprint_bool (Ds_SkipOnPassthrough d))] in
  let auth := from_option AptAuthRequired false a in
  let mounts := ((λ v, mkMount v.1 v.2 false) <$> host_mounts)
                ++ (if auth then [mkMount "furiosa-auth" "/secrets" true] else []) in
  let volumes := ((λ v, (v.1, HostPathVolume v.2)) <$> host_mounts)
                 ++ (if auth then [("furiosa-auth", SecretVolume AptAuthSecretName)] else []) in
  mkJob (InstallJobName (Dip_Vendor pol) (Dip_Model pol) nodeName) Namespace labels [owner_of pol]
    (default defaultBackoffLimit (jo ≫= Jo_BackoffLimit))
    (default defaultTTLSecondsAfterFinished (jo ≫= Jo_TTLSecondsAfterFinished))
    (Some defaultActiveDeadlineSeconds)
    (mkPodTemplate nodeName nodeSelector true true RestartPolicyOnFailure
       (from_option Jo_ServiceAccountName "" jo) (from_option Jo_PriorityClassName "" jo)
       (Dip_ImagePullSecrets pol) true
       [mkContainer "driver-install" image [] env [] true mounts] volumes)
    [] 0 None ∅ 0.
Definition RenderInstallJob (pol : DriverInstallPolicy) (nodeName image version : string) : Job :=
  renderJob pol nodeName image version false.
Definition RenderRollbackJob (pol : DriverInstallPolicy) (nodeName image version : string) : Job :=
  renderJob pol nodeName image version true.

Definition RenderRebootJobFor (owner : OwnerRef) (pullSecrets : list string) (nodeName image : string) : Job :=
  let labels : gmap string string :=
    {[ "app.kubernetes.io/name" := "kcloud-node-reboot"; "app.kubernetes.io/component" := "node-reboot";
       "npu.ai/node" := nodeName ]} in
  mkJob (RebootJobName nodeName) Namespace labels
    [mkOwnerRef (Or_Kind owner) (Or_Name owner) (Or_UID owner) true] 0 300 None
    (mkPodTemplate nodeName ∅ true true RestartPolicyNever "" "" pullSecrets true
       [mkContainer "reboot" image
          ["nsenter"; "--target"; "1"; "--mount"; "--uts"; "--ipc"; "--net"; "--pid";
           "--"; "systemctl"; "reboot"; "--no-wall"] [] [] true []] [])
    [] 0 None ∅ 0.
Definition RenderRebootJob (pol : DriverInstallPolicy) (nodeName image : string) : Job :=
  RenderRebootJobFor (mkOwnerRef "DriverInstallPolicy" (Dip_Name pol) (Dip_UID pol) false)
    (Dip_ImagePullSecrets pol) nodeName image.

Definition RenderDeviceResetJobFor (pullSecrets : list string) (nodeName image name : string)
    (command : list string) : Job :=
  let labels : gmap string string :=
    {[ "app.kubernetes.io/name" := "kcloud-host-command"; "app.kubernetes.io/component" := "device-reset";
       "npu.ai/node" := nodeName ]} in
  let args := ["nsenter"; "--target"; "1"; "--mount"; "--uts"; "--ipc"; "--net"; "--pid"; "--"] ++ command in
  mkJob name Namespace labels [] 0 300 None
    (mkPodTemplate nodeName ∅ true false RestartPolicyNever "" "" pullSecrets true
       [mkContainer "command" image args [] [] true []] [])
    [] 0 None ∅ 0.
End DriverJob.

(** ** Reading a Job (state_machine_job.go) *)

Definition jobContainerImage (job : Job) : string :=
  from_option Ct_Image "" (head (Pt_Containers (Job_Template job))).
Definition jobDriverVersion (job : Job) : string :=
  match Pt_Containers (Job_Template job) with
  | [] => ""
  | c :: _ => from_option snd "" (find_first (λ e, bool_decide (e.1 = "DRIVER_VERSION")) (Ct_Env c))
  end.
Definition jobTargetsInstall (job : Job) (image version : string) : bool :=
  bool_decide (jobContainerImage job = image) && bool_decide (jobDriverVersion job = version).
Definition job_condition (job : Job) (type : string) : bool :=
  existsb (λ c, bool_decide (Cond_Type c = type) && bool_decide (Cond_Status c = ConditionTrue)) (Job_Conditions job).
Definition jobComplete (job : Job) : bool := job_condition job JobComplete || (0 <? Job_Succeeded job).
Definition jobFailed (job : Job) : bool := job_condition job JobFailed.

(** ** What the rendered Jobs promise *)

Lemma renderJob_targets ns pol node image version rollback :
  jobTargetsInstall (renderJob ns pol node image version rollback) image version = true.
Proof. unfold jobTargetsInstall, jobContainerImage, jobDriverVersion. simpl. by rewrite !bool_decide_true. Qed.
