(* ===== verification/DriverImage.v ===== *)
(** * internal/upgrade: image references, versions and model names

    The pure functions of [state_machine.go] and [state_machine_job.go]: which
    image a cycle installs and which one a rollback returns to, the kernel
    allowlist, and what counts as the same device model.  The code's regular
    expressions are written as the scans they describe; none of them backtracks. *)

From S2P Require Import Prelude GoStrings GoTime GoText ApiTypes UpgradeTypes.

(** ** The regular expressions *)

(** [FindString] of an expression that ends in [$]: the leftmost suffix it matches. *)
Fixpoint find_suffix (p : string → bool) (s : string) : string :=
  if p s then s else match s with EmptyString => "" | String _ s' => find_suffix p s' end.

(** [-v[0-9]+(\.[0-9]+)?$] on a suffix. *)
Definition imageVariantSuffixRe (s : string) : bool :=
  match cut_prefix "-v" s with
  | None => false
  | Some r =>
      let (d, r1) := str_span is_digit r in
      negb (bool_decide (d = "")) &&
      match r1 with
      | EmptyString => true
      | String c r2 => bool_decide (c = "."%char) && all_digits r2
      end
  end.
(** [:(v[0-9]+|.+-v[0-9]+|latest)$] from the last colon on: what follows it. *)
Definition verifiedBuildTagRegexp (tag : string) : bool :=
  let v_digits s := match cut_prefix "v" s with Some d => all_digits d | None => false end in
  v_digits tag || bool_decide (tag = "latest") ||
  match cut_last "-" tag with
  | Some (p, r) => v_digits r && negb (bool_decide (p = "")) && negb (contains_char p newline)
  | None => false
  end.
(** [^[0-9][0-9.]*(-[0-9]+)?] as [FindString]. *)
Definition kernelImageVersionRe (tag : string) : string :=
  match tag with
  | String c s =>
      if is_digit c then
        let (a, r) := str_span (λ c, is_digit c || bool_decide (c = "."%char)) s in
        String c (a +:+ match cut_prefix "-" r with
                        | Some r1 => let (d, _) := str_span is_digit r1 in
                                     if bool_decide (d = "") then "" else "-" +:+ d
                        | None => ""
                        end)
      else ""
  | EmptyString => ""
  end.
(** [-k[0-9]] as [MatchString]. *)
Fixpoint precompiledKernelImageRe (s : string) : bool :=
  match cut_prefix "-k" s with Some (String c _) => is_digit c | _ => false end ||
  match s with EmptyString => false | String _ s' => precompiledKernelImageRe s' end.
(** [^[a-zA-Z0-9._-]+$] *)
Definition tagSafeTokenRe (s : string) : bool :=
  negb (bool_decide (s = "")) &&
  str_forall (λ c, is_digit c || contains_char "abcdefghijklmnopqrstuvwxyz" (lower_ascii c) || contains_char "._-" c) s.

(** A pattern of the kernel allowlist after [regexp.QuoteMeta]: [*] is any run
    of characters of one line, every other character is itself. *)
Fixpoint glob_match (pattern s : string) : bool :=
  match pattern with
  | EmptyString => bool_decide (s = "")
  | String c pattern' =>
      if bool_decide (c = "*"%char) then
        (fix star (s : string) : bool :=
           glob_match pattern' s ||
           match s with
           | EmptyString => false
           | String a s' => negb (bool_decide (a = newline)) && star s'
           end) s
      else match s with
           | EmptyString => false
           | String a s' => bool_decide (a = c) && glob_match pattern' s'
           end
  end.

(** ** Image references: what follows the last colon is the tag *)

Definition extractImageVariantSuffix (image : string) : string :=
  match cut_last ":" image with
  | Some (_, tag) => find_suffix imageVariantSuffixRe tag
  | None => ""
  end.
Definition extractKernelImageVersion (image : string) : string :=
  match cut_last ":" image with Some (_, tag) => kernelImageVersionRe tag | None => "" end.
Definition isPrecompiledKernelImage (image : string) : bool :=
  match cut_last ":" image with Some (_, tag) => precompiledKernelImageRe tag | None => false end.
Definition isVerifiedBuildTag (image : string) : bool :=
  match cut_last ":" image with Some (_, tag) => verifiedBuildTagRegexp tag | None => false end.

Definition replaceImageTag (image newTag : string) : string :=
  match cut_last ":" image with
  | None => image +:+ ":" +:+ newTag
  | Some (repo, tag) =>
      let newTag := if str_contains newTag "-v" then newTag
                    else newTag +:+ find_suffix imageVariantSuffixRe tag in
      repo +:+ ":" +:+ newTag
  end.

(** ** Precompiled kernel images *)

Definition eventKernelImageRejected : string := "KernelImageRejected".
Definition eventKernelImageNotAssembled : string := "KernelImageNotAssembled".
Definition eventKernelImageMissing : string := "KernelImageMissing".

Definition assembleKernelImage (policy : DriverInstallPolicy) (kernelVersion : string) : string * string :=
  let d := Dip_Driver policy in
  let build := Ds_KernelImageBuildRevision d in
  let version := Ds_Version d in
  let notAssembled what :=
    ("", "커널 " +:+ kernelVersion +:+ " 의 사전 컴파일 이미지를 조립하지 못했다: " +:+ what
         +:+ "에 이미지 태그로 쓸 수 없는 문자가 있다") in
  if bool_decide (build = "") || bool_decide (version = "") || bool_decide (Ds_Image d = "") then ("", "")
  else if negb (tagSafeTokenRe kernelVersion) then notAssembled "커널 문자열"
  else if negb (tagSafeTokenRe version) then notAssembled "spec.driver.version"
  else
    let variant := Ds_KernelImageVariant d in
    let tag := if bool_decide (variant = "") then version else version +:+ "-" +:+ variant in
    (replaceImageTag (Ds_Image d) (tag +:+ "-k" +:+ kernelVersion +:+ "-" +:+ build), "").

(** The image, why the precompiled one is not used, and the event for that. *)
Definition resolveDriverImage `{MapRange} (policy : DriverInstallPolicy) (kernelVersion : string)
    : string * string * string :=
  let d := Dip_Driver policy in
  let check ref origin :=
    if negb (isVerifiedBuildTag ref) then
      (Ds_Image d, "커널 " +:+ kernelVersion +:+ " 의 " +:+ origin +:+ " 사전 컴파일 이미지 " +:+ quote ref
                   +:+ " 가 검증 빌드 태그(…-vN)가 아니어서 쓰지 않는다", eventKernelImageRejected)
    else
      let want := Ds_Version d in
      let got := extractKernelImageVersion ref in
      if negb (bool_decide (want = "")) && negb (bool_decide (got = want)) then
        (Ds_Image d, "커널 " +:+ kernelVersion +:+ " 의 " +:+ origin +:+ " 사전 컴파일 이미지 버전 토큰 " +:+ quote got
                     +:+ " 가 spec.driver.version " +:+ quote want +:+ " 와 달라서 쓰지 않는다", eventKernelImageRejected)
      else (ref, "", "") in
  if bool_decide (kernelVersion = "") then (Ds_Image d, "", "")
  else
    match Ds_KernelImages d !! kernelVersion with
    | Some img => check img "맵에 선언한"
    | None =>
        let (assembled, assembleSkip) := assembleKernelImage policy kernelVersion in
        if bool_decide (assembled = "") then
          if bool_decide (assembleSkip = "") then
            if bool_decide (size (Ds_KernelImages d) = 0%nat) then (Ds_Image d, "", "")
            else
              (Ds_Image d, "커널 " +:+ kernelVersion
                 +:+ " 의 사전 컴파일 이미지가 kernelImages 에 없어 기본 이미지(DKMS 컴파일)로 되돌아간다 — 선언된 커널: "
                 +:+ join ", " (sort_strings (range_map (Ds_KernelImages d)).*1), eventKernelImageMissing)
          else (Ds_Image d, assembleSkip, eventKernelImageNotAssembled)
        else check assembled "규약으로 조립한"
    end.

(** ** The image of the previous version (job mode) *)

Definition reconstructPrevImage (dipImage installer prevVersion : string) (versionBaked : bool) : string :=
  if bool_decide (dipImage = "") || bool_decide (prevVersion = "") then ""
  else if negb (bool_decide (installer = DriverInstallerNGC)) && negb versionBaked then
    if isPrecompiledKernelImage dipImage && negb (bool_decide (extractKernelImageVersion dipImage = prevVersion))
    then "" else dipImage
  else
    let variant := extractImageVariantSuffix dipImage in
    if bool_decide (variant = "") then ""
    else match cut_last ":" dipImage with
         | None => ""
         | Some (repo, _) =>
             let candidate := repo +:+ ":" +:+ prevVersion +:+ variant in
             if isVerifiedBuildTag candidate then candidate else ""
         end.

Definition captureJobPreviousImage (dipImage installer : string) (versionBaked : bool)
    (s : DriverUpgradeStateStatus) : DriverUpgradeStateStatus :=
  if negb (bool_decide (Us_PreviousImage s = "")) || bool_decide (Us_PreviousVersion s = "") then s
  else
    let candidate := reconstructPrevImage dipImage installer (Us_PreviousVersion s) versionBaked in
    if bool_decide (candidate = "") then s else us_PreviousImage candidate s.

(** ** Models, versions and durations *)

Definition matchesKernelAllowlist (kernelVersion : string) (allowlist : list string) : bool :=
  existsb (λ pattern, glob_match pattern kernelVersion) allowlist.

Definition parseDuration (s : string) (defaultDur : Z) : Z :=
  if bool_decide (s = "") then defaultDur else default defaultDur (parse_duration s).

Definition modelFamilyPrefix (short long : string) : bool :=
  Nat.ltb (String.length short) (String.length long) &&
  bool_decide (String.get (String.length short) long = Some "-"%char) &&
  equal_fold (String.substring 0 (String.length short) long) short.

Definition DeviceModelMatches (deviceModel specModel : string) : bool :=
  bool_decide (specModel = "") || equal_fold specModel "generic" || equal_fold deviceModel "generic"
  || equal_fold deviceModel specModel
  || modelFamilyPrefix specModel deviceModel || modelFamilyPrefix deviceModel specModel.

Definition versionSourceHost : string := "Host".
Definition EffectiveDesiredVersion (policy : DriverInstallPolicy) (loadedHost : string) : string :=
  if equal_fold (Ds_VersionSource (Dip_Driver policy)) versionSourceHost && negb (bool_decide (loadedHost = ""))
  then loadedHost else Ds_Version (Dip_Driver policy).

Definition containsString : list string → string → bool := contains_string.

Definition LoadedHostVersion (devices : list DeviceEntry) (vendor model : string) : string :=
  from_option De_DriverVersion ""
    (find_first (λ d, equal_fold (De_Vendor d) vendor && DeviceModelMatches (De_Model d) model
                      && De_DriverLoaded d && negb (bool_decide (De_DriverVersion d = ""))) devices).

Definition isJobMode (policy : DriverInstallPolicy) : bool :=
  bool_decide (Ds_Mode (Dip_Driver policy) = "job").

(** ** Tags *)

Lemma contains_char_app a b c : contains_char (a +:+ b) c = contains_char a c || contains_char b c.
Proof.
  assert (Hcons : ∀ d s, contains_char (String d s) c = bool_decide (d = c) || contains_char s c).
  { intros d s. destruct (bool_decide (d = c) || contains_char s c) eqn:E.
    - apply not_false_iff_true. rewrite contains_char_cons. rewrite orb_true_iff, bool_decide_eq_true in E.
      destruct E as [E|E]; [tauto|rewrite E; naive_solver].
    - rewrite contains_char_cons. by bool_prop. }
  induction a as [|d a IH]; [done|]. change (String d a +:+ b) with (String d (a +:+ b)). by rewrite !Hcons, IH, orb_assoc.
Qed.
Lemma cut_last_Some_inv sep s a b : cut_last sep s = Some (a, b) → s = a +:+ String sep b ∧ contains_char b sep = false.
Proof.
  revert a b. induction s as [|c s IH]; intros a b; simpl; [done|].
  destruct (cut_last sep s) as [ [a' b']|] eqn:E.
  - intros [= <- <-]. destruct (IH _ _ eq_refl) as [-> ?]. done.
  - case_bool_decide; [|done]. intros [= <- <-]. subst. split; [done|]. clear IH.
    induction s as [|c s IH]; [done|]. simpl in E. destruct (cut_last sep s) as [ []|]; [done|].
    case_bool_decide; [done|]. apply contains_char_cons. auto.
Qed.
Lemma find_suffix_app p s : ∃ a, s = a +:+ find_suffix p s.
Proof.
  induction s as [|c s [a IH] ]; simpl; [exists ""; by destruct (p "")|]. destruct (p _); [by exists ""|].
  exists (String c a). change (String c a +:+ find_suffix p s) with (String c (a +:+ find_suffix p s)). by rewrite <- IH.
Qed.
Lemma find_suffix_char p s c : contains_char s c = false → contains_char (find_suffix p s) c = false.
Proof.
  intros Hs. destruct (find_suffix_app p s) as [a Ha]. rewrite Ha, contains_char_app in Hs. by bool_prop.
Qed.
(** The reference ends in the new tag, and perhaps the variant of the old one. *)
Lemma replaceImageTag_tag image tag : contains_char tag ":" = false →
  ∃ repo suffix, replaceImageTag image tag = repo +:+ String ":" (tag +:+ suffix) ∧ contains_char (tag +:+ suffix) ":" = false.
Proof.
  intros Ht. unfold replaceImageTag. destruct (cut_last ":" image) as [ [repo old]|] eqn:E.
  - apply cut_last_Some_inv in E as [_ Ho]. destruct (str_contains tag "-v").
    + exists repo, "". by rewrite string_app_nil_r.
    + exists repo, (find_suffix imageVariantSuffixRe old). split; [done|].
      rewrite contains_char_app, Ht. by apply find_suffix_char.
  - exists image, "". by rewrite string_app_nil_r.
Qed.

Definition dotted_digit (c : ascii) : bool := is_digit c || bool_decide (c = "."%char).
(** A version as the tags carry it: digits and dots, a digit first. *)
Definition version_token (v : string) : bool :=
  match v with String c s => is_digit c && str_forall dotted_digit s | EmptyString => false end.
Definition starts_digit (s : string) : bool := match s with String c _ => is_digit c | EmptyString => false end.

Lemma version_token_parses v rest : version_token v = true → starts_digit rest = false →
  kernelImageVersionRe (v +:+ String "-" rest) = v.
Proof.
  destruct v as [|c v]; [done|]. simpl. intros Hv Hr. bool_prop.
  change (String c v +:+ String "-" rest) with (String c (v +:+ String "-" rest)). simpl. rewrite H.
  change (λ c0, is_digit c0 || bool_decide (c0 = "."%char)) with dotted_digit.
  rewrite str_span_app; [|done|by intros ? ? [= <- <-] ].
  assert (Er : str_span is_digit rest = ("", rest)).
  { destruct rest as [|d rest]; [done|]. simpl in *. by rewrite Hr. }
  simpl. rewrite Er. simpl. f_equal. apply string_app_nil_r.
Qed.

Lemma cons_app c a b : String c a +:+ b = String c (a +:+ b).
Proof. done. Qed.
Lemma safe_token_colon s : tagSafeTokenRe s = true → contains_char s ":" = false.
Proof.
  unfold tagSafeTokenRe. intros Hs. bool_prop. clear H. induction s as [|c s IH]; [done|]. simpl in H0. bool_prop.
  apply contains_char_cons. split; [|by apply IH]. intros ->. discriminate H.
Qed.
Lemma version_token_safe v : version_token v = true → v ≠ "" ∧ tagSafeTokenRe v = true.
Proof.
  destruct v as [|c v]; [done|]. simpl. intros Hv. bool_prop. split; [done|]. unfold tagSafeTokenRe. simpl.
  rewrite H. simpl. clear H. induction v as [|d v IH]; [done|]. simpl in *. bool_prop. rewrite IH by done.
  unfold dotted_digit in H. destruct (is_digit d); [done|]. simpl in H. bool_prop. by subst.
Qed.

(** A precompiled kernel image that the convention assembles carries the
    policy's version: read back from the tag, the version token is exactly
    [spec.driver.version], for a version of digits and dots, a kernel string
    that can stand in a tag, and a variant that does not begin with a digit. *)
Theorem assembled_image_roundtrip (policy : DriverInstallPolicy) (kernelVersion : string)
    (Hv : version_token (Ds_Version (Dip_Driver policy)) = true)
    (Hk : tagSafeTokenRe kernelVersion = true)
    (Himg : Ds_Image (Dip_Driver policy) ≠ "")
    (Hb : Ds_KernelImageBuildRevision (Dip_Driver policy) ≠ "")
    (Hbc : contains_char (Ds_KernelImageBuildRevision (Dip_Driver policy)) ":" = false)
    (Hvc : contains_char (Ds_KernelImageVariant (Dip_Driver policy)) ":" = false)
    (Hvd : starts_digit (Ds_KernelImageVariant (Dip_Driver policy)) = false) :
  extractKernelImageVersion (assembleKernelImage policy kernelVersion).1 = Ds_Version (Dip_Driver policy).
Proof.
  destruct (version_token_safe _ Hv) as [Hne Hs]. unfold assembleKernelImage.
  rewrite !bool_decide_eq_false_2 by done. simpl. rewrite Hk, Hs. simpl.
  set (variant := Ds_KernelImageVariant _) in *. set (v := Ds_Version _) in *. set (build := Ds_KernelImageBuildRevision _) in *.
  set (tail := String "k" (kernelVersion +:+ String "-" build)).
  assert (∃ rest, (if bool_decide (variant = "") then v else v +:+ "-" +:+ variant) +:+ "-k" +:+ kernelVersion +:+ "-" +:+ build
                  = v +:+ String "-" rest ∧ starts_digit rest = false ∧ contains_char rest ":" = false ∧ rest ≠ "")
    as (rest & -> & Hrd & Hrc & Hrne).
  { assert (Ht : contains_char tail ":" = false).
    { unfold tail. apply contains_char_cons. split; [done|]. rewrite contains_char_app.
      rewrite (safe_token_colon _ Hk). by apply contains_char_cons. }
    case_bool_decide as Ev; [exists tail; done|].
    exists (variant +:+ String "-" tail). split; [by rewrite <- string_app_assoc|]. split_and!.
    - by destruct variant.
    - rewrite contains_char_app, Hvc. by apply contains_char_cons.
    - by destruct variant. }
  destruct (replaceImageTag_tag (Ds_Image (Dip_Driver policy)) (v +:+ String "-" rest)) as (repo & suffix & -> & Hc).
  { rewrite contains_char_app, (safe_token_colon v Hs). by apply contains_char_cons. }
  unfold extractKernelImageVersion. rewrite cut_last_app by done. rewrite <- string_app_assoc.
  change (String "-" rest +:+ suffix) with (String "-" (rest +:+ suffix)). apply version_token_parses; [done|].
  by destruct rest.
Qed.

(** The precompiled image a kernel has: declared for it, or assembled. *)
Definition kernel_candidate (policy : DriverInstallPolicy) (kernelVersion : string) : string :=
  match Ds_KernelImages (Dip_Driver policy) !! kernelVersion with
  | Some image => image
  | None => (assembleKernelImage policy kernelVersion).1
  end.
(** A verified build of the policy's version. *)
Definition acceptable (policy : DriverInstallPolicy) (image : string) : bool :=
  let version := Ds_Version (Dip_Driver policy) in
  isVerifiedBuildTag image && (bool_decide (version = "") || bool_decide (extractKernelImageVersion image = version)).

(** A node gets the precompiled image of its kernel exactly when there is
    one that is a verified build and, if the policy sets a version, carries that
    version; in every other case (no kernel known, none declared or assembled,
    a tag that is no verified build, another version) it gets the policy's
  default image.  An image that is used reports nothing, one that is passed
    over is reported by an event. *)
Theorem resolveDriverImage_choice `{MapRange} (policy : DriverInstallPolicy) (kernelVersion : string) :
  let '(image, reason, event) := resolveDriverImage policy kernelVersion in
  let candidate := kernel_candidate policy kernelVersion in
  let used := negb (bool_decide (kernelVersion = "")) && acceptable policy candidate in
  image = (if used then candidate else Ds_Image (Dip_Driver policy))
  ∧ (used = true → event = "" ∧ reason = "")
  ∧ (used = false → event = "" → kernelVersion = "" ∨ (candidate = "" ∧ Ds_KernelImages (Dip_Driver policy) !! kernelVersion = None)).
Proof.
  unfold resolveDriverImage, kernel_candidate, acceptable. case_bool_decide as Ek; [simpl; auto|]. simpl.
  assert (Hno : isVerifiedBuildTag "" = false) by done.
  assert (Hev : eventKernelImageRejected ≠ "" ∧ eventKernelImageNotAssembled ≠ "" ∧ eventKernelImageMissing ≠ "") by done.
  destruct Hev as (He1&He2&He3).
  destruct (_ !! kernelVersion) as [image|].
  - destruct (isVerifiedBuildTag image); simpl; [|done].
    destruct (bool_decide (_ = "")), (bool_decide (extractKernelImageVersion _ = _)); simpl; done.
  - destruct (assembleKernelImage policy kernelVersion) as [assembled skip]. simpl. case_bool_decide as Ea.
    + subst. rewrite Hno. simpl. case_bool_decide; [case_bool_decide|]; simpl; auto; done.
    + destruct (isVerifiedBuildTag assembled); simpl; [|done].
      destruct (bool_decide (Ds_Version _ = "")), (bool_decide (extractKernelImageVersion _ = _)); simpl; done.
Qed.

Definition precompiled_dip : DriverInstallPolicy :=
  mkDIP "dip-a" "uid" 1 "nvidia" "generic"
    (mkDriverSpec "570.124.06" "reg:5000/driver:570.86-v2" ∅ "v3" "ubuntu" DriverInstallerNGC false "job" false "" false false)
    [] "" "" ∅ None [] None None [].
Lemma assembled_image_roundtrip_witness :
  extractKernelImageVersion (assembleKernelImage precompiled_dip "6.8.0-40-generic").1 = "570.124.06".
Proof. apply (assembled_image_roundtrip precompiled_dip "6.8.0-40-generic"); try reflexivity; discriminate. Defined.
