(* ===== verification/DraClaim.v ===== *)
(** * internal/draclaim: is a claimed device still allocated on a node?

    Models [draclaim.go], the safety gate the drain and the partition quiesce
    share.  The label matching itself belongs to apimachinery: [labels.NewRequirement]
    and [Requirement.Matches] are the parameter [new_requirement]. *)

From S2P Require Import Prelude GoStrings GoTime ApiTypes UpgradeTypes.

(** [labels.NewRequirement(key, op, values)]: [None] for its error, otherwise
    what [Matches] answers. *)
Class Requirements := { new_requirement : string → string → list string → option (gmap string string → bool) }.

Definition nodeSelectorOperators : gmap string string :=
  {[ "In" := "in"; "NotIn" := "notin"; "Exists" := "exists"; "DoesNotExist" := "!"; "Gt" := "gt"; "Lt" := "lt" ]}.

Definition ErrClaimStillAllocated : GoErr := mkErr KClaimAllocated "resourceclaim still allocated on node".
(** [errors.Is(err, ErrClaimStillAllocated)] *)
Definition is_claim_allocated (e : GoErr) : bool := bool_decide (err_kind e = KClaimAllocated).

Section DraClaim.
Context `{Requirements}.

Definition nodeSelectorRequirementsMatch (reqs : list Requirement) (set : gmap string string) : bool :=
  forallb (λ req,
    match nodeSelectorOperators !! Req_Operator req with
    | None => false
    | Some op => match new_requirement (Req_Key req) op (Req_Values req) with
                 | None => false
                 | Some matches => matches set
                 end
    end) reqs.
Definition nodeSelectorMatchesNode (sel : list SelectorTerm) (node : Node) : bool :=
  let fields := {[ "metadata.name" := Node_Name node ]} in
  existsb (λ term, nodeSelectorRequirementsMatch (Term_Fields term) fields
                   && nodeSelectorRequirementsMatch (Term_Expressions term) (Node_Labels node)) sel.

(** The terms of the node selector of the allocation, when there is one. *)
Definition claim_selector (claim : ResourceClaim) : option (list SelectorTerm) :=
  match Rclaim_Allocation claim with Some (Some sel) => Some sel | _ => None end.
Definition pinnedToNode (claim : ResourceClaim) : bool := bool_decide (is_Some (claim_selector claim)).
Definition AllocatedOnNode (claim : ResourceClaim) (node : Node) : bool :=
  match claim_selector claim with Some sel => nodeSelectorMatchesNode sel node | None => false end.

Context {W : Type} `{UpgradeAPI W}.

(** The loop; [node] is read when the first pinned claim needs it. *)
Fixpoint assert_claims (nodeName : string) (claims : list ResourceClaim) (node : option Node) : M W () :=
  match claims with
  | [] => mret ()
  | claim :: claims =>
      if negb (pinnedToNode claim) then assert_claims nodeName claims node
      else
        n ← match node with
            | Some n => mret n
            | None => g ← try (node_get nodeName);
                      match g with
                      | inl n => mret n
                      | inr e => throw (errorf_w ("get node " +:+ nodeName) e)
                      end
            end;
        if AllocatedOnNode claim n then
          throw (errorf_w ("node " +:+ nodeName +:+ " still has an allocated ResourceClaim "
                             +:+ Rclaim_Namespace claim +:+ "/" +:+ Rclaim_Name claim) ErrClaimStillAllocated)
        else assert_claims nodeName claims (Some n)
  end.
Definition AssertNoneAllocatedOnNode (nodeName : string) : M W () :=
  l ← try claim_list;
  match l with
  | inr e => if is_no_match e || is_not_found e then mret () else throw (errorf_w "list resourceclaims" e)
  | inl claims => assert_claims nodeName claims None
  end.
End DraClaim.
