(* ===== verification/Validators.v ===== *)
(** * internal/validator: the checks that close an upgrade

    Models [validator.go]: one attempt of each validator.  A validator answers
    passed or not passed; an API failure is an error, for the caller to retry.
    The context is never cancelled here. *)

From S2P Require Import Prelude GoStrings GoTime Naming ApiTypes UpgradeTypes DriverJob.

Record Result := mkResult { Passed : bool; Message : string }.

Definition mapRange_exists `{MapRange} {V} (p : string → V → bool) (m : gmap string V) : bool :=
  existsb (λ kv, p kv.1 kv.2) (range_map m).

(** The test [deleteDevicePluginPods], [restartStaleDevicePluginPods] and
    [isDevicePluginPod] share. *)
Definition device_plugin_pod `{MapRange} (pod : Pod) : bool :=
  mapRange_exists (λ key val, bool_decide (key = "app.kubernetes.io/name") && str_contains val "device-plugin") (Pod_Labels pod)
  || str_contains (Pod_Name pod) "device-plugin".

Definition isDevicePluginPod `{MapRange} (pod : Pod) (vendor : string) : bool :=
  if negb (device_plugin_pod pod) then false
  else if bool_decide (vendor = "") then true
  else
    let tokens := to_lower vendor :: (if equal_fold vendor "tenstorrent" then ["tt"] else []) in
    existsb (str_contains (to_lower (Pod_Name pod))) tokens
    || mapRange_exists (λ _ val, existsb (str_contains (to_lower val)) tokens) (Pod_Labels pod).

Definition containers_ready (conds : list Condition) : bool :=
  existsb (λ c, bool_decide (Cond_Type c = ContainersReady) && bool_decide (Cond_Status c = ConditionTrue)) conds.

Definition probeVersionLabel : string := "kcloud.ai/probe-version".
(** [^[A-Za-z0-9]([A-Za-z0-9._-]{0,61}[A-Za-z0-9])?$] *)
Definition is_alnum (c : ascii) : bool :=
  contains_char "abcdefghijklmnopqrstuvwxyz0123456789" (lower_ascii c).
Fixpoint label_tail (s : string) : bool :=
  match s with
  | EmptyString => true
  | String c EmptyString => is_alnum c
  | String c s' => (is_alnum c || contains_char "._-" c) && label_tail s'
  end.
Definition labelValueRe (s : string) : bool :=
  match s with
  | EmptyString => false
  | String c s' => is_alnum c && label_tail s' && Nat.leb (String.length s) 63
  end.
Definition sanitizeLabelValue (s : string) : string :=
  if labelValueRe s then s else "h" +:+ hex (take 8 (sum256 s)).
Definition nul : string := String (Ascii.ascii_of_N 0) EmptyString.
Definition probePodName (vendor nodeName desiredVersion : string) : string :=
  "kcloud-" +:+ vendor +:+ "-upgrade-probe-" +:+ short_hash (nodeName +:+ nul +:+ desiredVersion).

Section Validators.
Context {W : Type} `{UpgradeAPI W} `{Clock W} `{MapRange}.

(** ** DriverModuleValidator *)

(** The first loaded device of the vendor, and whether one has the version. *)
Definition module_devices (vendor : string) (devices : list DeviceEntry) : list DeviceEntry :=
  filter (λ d, equal_fold (De_Vendor d) vendor && De_DriverLoaded d = true) devices.
Definition swap_failed_message (nodeName hostVer hostDetail desiredVersion : string) (needsReboot : bool) : string :=
  let msg :=
    if needsReboot then
      "host kernel module=" +:+ hostVer +:+ " ≠ desired=" +:+ desiredVersion
      +:+ " — 목표 버전 모듈은 디스크에 준비됐고 구 모듈이 사용 중이라 삽입만 못 한 상태(모듈 교체). 노드 재부팅으로만 교체되며 rmmod 로는 풀리지 않는다 — operator 가 재부팅을 진행하므로 수동 조치 불필요 (node="
      +:+ nodeName +:+ ")"
    else
      "host kernel module=" +:+ hostVer +:+ " ≠ desired=" +:+ desiredVersion
      +:+ " — driver-ds Pod 의 driver-manager init container 가 swap 실패. 조치: ssh <user>@" +:+ nodeName
      +:+ "; sudo systemctl stop dcgm-exporter; sudo rmmod nvidia_uvm nvidia_drm nvidia_modeset nvidia; 그 후 driver-ds Pod 재시작" in
  if bool_decide (hostDetail = "") then msg else msg +:+ " (detail=" +:+ hostDetail +:+ ")".
(** [hostVer], [hostDetail] and [hostNeedsReboot] are those of the first device
    that reports a version, or of the last one while none does. *)
Definition host_module (devices : list DeviceEntry) : string * string * bool :=
  foldl (λ acc d, let '(ver, _, _) := acc in
                  if bool_decide (ver = "") then (De_DriverVersion d, De_DriverVersionDetail d, De_NeedsReboot d) else acc)
    ("", "", false) devices.
Definition module_verdict (nodeName vendor desiredVersion : string) (devices : list DeviceEntry) : Result :=
  let ds := module_devices vendor devices in
  let '(hostVer, hostDetail, needsReboot) := host_module ds in
  if existsb (λ d, bool_decide (De_DriverVersion d = desiredVersion)) ds then
    mkResult true "NDR.driverVersion 이 desiredVersion 과 일치"
  else if negb (bool_decide (hostVer = "")) && negb (bool_decide (hostVer = desiredVersion)) then
    mkResult false (swap_failed_message nodeName hostVer hostDetail desiredVersion needsReboot)
  else mkResult false "NDR.driverVersion 미보고".
Definition DriverModuleValidator_Run (nodeName vendor desiredVersion : string) : M W Result :=
  if bool_decide (desiredVersion = "") then mret (mkResult true "desiredVersion 미지정으로 모듈 검증 skip")
  else
    g ← try (report_get nodeName);
    match g with
    | inr e => if is_not_found e then mret (mkResult false "NDR 미존재 (collector 갱신 대기)") else throw e
    | inl ndr => mret (module_verdict nodeName vendor desiredVersion (Ndr_Devices ndr))
    end.

(** ** DevicePluginValidator *)

Definition plugin_verdict (nodeName vendor : string) (pods : list Pod) : Result :=
  let found := filter (λ pod, bool_decide (Pod_NodeName pod = nodeName)
                              && bool_decide (Pod_DeletionTimestamp pod = None)
                              && isDevicePluginPod pod vendor = true) pods in
  if existsb (λ pod, containers_ready (Pod_Conditions pod)) found then
    mkResult true "device-plugin Pod ContainersReady"
  else if bool_decide (length found = 0%nat) then mkResult false "device-plugin Pod 미스케줄 (재시도 대기)"
  else mkResult false "device-plugin Pod 가 ContainersReady 가 아님".
Definition DevicePluginValidator_Run (nodeName vendor : string) : M W Result :=
  pods ← pod_list; mret (plugin_verdict nodeName vendor pods).

(** ** WorkloadValidator *)

Definition probe_timeout (probe : WorkloadProbeSpec) : Z :=
  if 0 <? Wp_TimeoutSeconds probe then Wp_TimeoutSeconds probe * second else 120 * second.
Definition probePod (probe : WorkloadProbeSpec) (Namespace name nodeName vendor desiredVersion : string) : Pod :=
  mkPod Namespace name
    {[ "app.kubernetes.io/name" := "kcloud-upgrade-probe"; "kcloud.ai/vendor" := vendor;
       probeVersionLabel := sanitizeLabelValue desiredVersion ]}
    [] nodeName RestartPolicyNever (Some (probe_timeout probe / second)) true 0
    [mkContainer "probe" (Wp_Image probe) (Wp_Command probe) [] [(Wp_ResourceName probe, 1)] false []] []
    "" [] [] None zero_time None ∅ [].
(** A delete whose failure only changes the message. *)
Definition delete_probe (pod : Pod) (msg : string) : M W string :=
  d ← try (pod_delete pod);
  mret (match d with
        | inr e => if is_not_found e then msg else msg +:+ " (정리 실패: " +:+ err_msg e +:+ ")"
        | inl _ => msg
        end).
Definition WorkloadValidator_Run (probe : WorkloadProbeSpec) (Namespace nodeName vendor desiredVersion : string) : M W Result :=
  if bool_decide (Wp_ResourceName probe = "") then mret (mkResult false "workloadProbe.resourceName 이 비어 있다")
  else if bool_decide (Wp_Image probe = "") then mret (mkResult false "workloadProbe.image 가 비어 있다")
  else
    let name := probePodName vendor nodeName desiredVersion in
    g ← try (pod_get Namespace name);
    match g with
    | inr e =>
        if is_not_found e then
          _ ← pod_create (probePod probe Namespace name nodeName vendor desiredVersion);
          mret (mkResult false "workload probe 파드 생성 — 완료 대기")
        else throw e
    | inl pod =>
        if negb (bool_decide (mget "" (Pod_Labels pod) probeVersionLabel = sanitizeLabelValue desiredVersion)) then
          msg ← delete_probe pod "이전 버전의 probe 파드 정리 — 재생성 대기"; mret (mkResult false msg)
        else if bool_decide (Pod_Phase pod = PodSucceeded) then
          d ← try (pod_delete pod);
          match d with
          | inr e => if is_not_found e then mret (mkResult true "workload probe 종료 코드 0")
                     else mret (mkResult false ("probe 통과했으나 정리 실패: " +:+ err_msg e))
          | inl _ => mret (mkResult true "workload probe 종료 코드 0")
          end
        else if bool_decide (Pod_Phase pod = PodFailed) then
          msg ← delete_probe pod "workload probe 실패(Failed) — 드라이버로 장치를 쓸 수 없다"; mret (mkResult false msg)
        else
          now ← read_clock;
          if probe_timeout probe <? time_sub now (Pod_CreationTimestamp pod) then
            msg ← delete_probe pod "workload probe 가 제한 시간 안에 끝나지 않음(스케줄·기동 지연)"; mret (mkResult false msg)
          else mret (mkResult false "workload probe 실행 중")
    end.

(** ** The chain (validatorsFor and the loop of the two Validating handlers) *)

Inductive Validator := DriverModule | DevicePlugin | Workload (probe : WorkloadProbeSpec).
Definition validatorsFor (policy : DriverInstallPolicy) : list Validator :=
  [DriverModule; DevicePlugin]
  ++ match Dip_WorkloadProbe policy with
     | Some wp => if Wp_Enabled wp then [Workload wp] else []
     | None => []
     end.
Definition validator_name (v : Validator) : string :=
  match v with DriverModule => "DriverModule" | DevicePlugin => "DevicePlugin" | Workload _ => "Workload" end.
Definition Run (Namespace : string) (v : Validator) (nodeName vendor desiredVersion : string) : M W Result :=
  match v with
  | DriverModule => DriverModuleValidator_Run nodeName vendor desiredVersion
  | DevicePlugin => DevicePluginValidator_Run nodeName vendor
  | Workload probe => WorkloadValidator_Run probe Namespace nodeName vendor desiredVersion
  end.
(** Every validator in turn: whether all passed.  The first that does not pass
    ends the pass, an error does too. *)
Fixpoint run_validators (Namespace : string) (l : list Validator) (nodeName vendor desiredVersion : string) : M W bool :=
  match l with
  | [] => mret true
  | v :: l =>
      r ← try (Run Namespace v nodeName vendor desiredVersion);
      match r with
      | inr e => throw (errorf_w ("validator " +:+ validator_name v +:+ " 실행 실패") e)
      | inl res => if negb (Passed res) then mret false
                   else run_validators Namespace l nodeName vendor desiredVersion
      end
  end.
End Validators.
