(* ===== verification/UpgradeNode.v ===== *)
(** * internal/upgrade: what the state machine does to nodes, pods and Deployments

    The helpers of [state_machine.go] that touch the cluster: cordon and its
    owner mark, the two labels of a cycle, the drain, the driver pods, and the
    Deployments scaled to zero for the cycle and restored after it. *)

From S2P Require Import Prelude GoStrings GoTime GoText Naming ApiTypes PolicyTypes UpgradeTypes IntentResources DriverJob Validators DriverImage.

Definition driverUpgradingLabelKey : string := "npu.ai/driver-upgrading".
Definition driverUpgradingBlockingLabelKey : string := "npu.ai/driver-upgrading-blocking".
Definition quiesceOnDriverUpgradeLabelKey : string := "npu.ai/quiesce-on-driver-upgrade".
Definition QuiesceReplicasBackupAnnotation : string := "npu.ai/replicas-backup".
Definition cordonOwnerAnnotationKey : string := "npu.ai/cordoned-by-driver-upgrade".
Definition hostnameLabelKey : string := "kubernetes.io/hostname".
Definition labelValueTrue : string := "true".

(** ** Assignments to a node and a Deployment *)

Definition node_labels (f : gmap string string → gmap string string) (n : Node) : Node :=
  mkNode (Node_Name n) (f (Node_Labels n)) (Node_Annotations n) (Node_Unschedulable n)
    (Node_Allocatable n) (Node_Conditions n) (Node_BootID n) (Node_KernelVersion n) (Node_DeletionTimestamp n).
Definition node_annotations (f : gmap string string → gmap string string) (n : Node) : Node :=
  mkNode (Node_Name n) (Node_Labels n) (f (Node_Annotations n)) (Node_Unschedulable n)
    (Node_Allocatable n) (Node_Conditions n) (Node_BootID n) (Node_KernelVersion n) (Node_DeletionTimestamp n).
Definition node_unschedulable (b : bool) (n : Node) : Node :=
  mkNode (Node_Name n) (Node_Labels n) (Node_Annotations n) b
    (Node_Allocatable n) (Node_Conditions n) (Node_BootID n) (Node_KernelVersion n) (Node_DeletionTimestamp n).
Definition dep_scale (replicas : Z) (annotations : gmap string string) (d : Deployment) : Deployment :=
  mkDeployment (Dep_Namespace d) (Dep_Name d) (Dep_Labels d) annotations (Some replicas)
    (Dep_NodeSelector d) (Dep_Required d).

(** ** Cordon, owner mark and labels, as functions of the node

    [cordon_patch] and the others are the node the code patches in; [None] where
    it finds nothing to change and makes no call. *)

Definition owns_cordon (owner : string) (n : Node) : bool :=
  bool_decide (mget "" (Node_Annotations n) cordonOwnerAnnotationKey = owner).
Definition has_label (k : string) (n : Node) : bool := bool_decide (is_Some (Node_Labels n !! k)).
Definition label_true (k : string) (n : Node) : bool := bool_decide (mget "" (Node_Labels n) k = labelValueTrue).

Definition cordon_patch (owner : string) (n : Node) : option Node :=
  let flip := negb (Node_Unschedulable n) in
  let n1 := if flip then node_annotations <[cordonOwnerAnnotationKey := owner]> (node_unschedulable true n) else n in
  let n2 := node_labels <[driverUpgradingLabelKey := labelValueTrue]> n1 in
  let n3 := node_labels <[driverUpgradingBlockingLabelKey := labelValueTrue]> n2 in
  if flip || negb (label_true driverUpgradingLabelKey n) || negb (label_true driverUpgradingBlockingLabelKey n)
  then Some n3 else None.
Definition uncordon_patch (owner : string) (n : Node) : option Node :=
  let owned := owns_cordon owner n in
  let n1 := node_unschedulable false n in
  let n2 := node_labels (λ m, delete driverUpgradingBlockingLabelKey (delete driverUpgradingLabelKey m)) n1 in
  let n3 := if owned then node_annotations (delete cordonOwnerAnnotationKey) n2 else n2 in
  if Node_Unschedulable n || has_label driverUpgradingLabelKey n || has_label driverUpgradingBlockingLabelKey n || owned
  then Some n3 else None.
Definition reap_patch (owner : string) (n : Node) : option Node :=
  if Node_Unschedulable n || negb (owns_cordon owner n) then None
  else Some (node_annotations (delete cordonOwnerAnnotationKey) n).
Definition clear_labels_patch (n : Node) : option Node :=
  if negb (has_label driverUpgradingLabelKey n) && negb (has_label driverUpgradingBlockingLabelKey n) then None
  else Some (node_labels (λ m, delete driverUpgradingBlockingLabelKey (delete driverUpgradingLabelKey m)) n).
Definition drop_label_patch (key : string) (n : Node) : option Node :=
  if has_label key n then Some (node_labels (delete key) n) else None.

Definition isNodeReady (node : Node) : bool :=
  match find_first (λ c, bool_decide (Cond_Type c = NodeReady)) (Node_Conditions node) with
  | Some c => bool_decide (Cond_Status c = ConditionTrue)
  | None => false
  end.

Section NodeOps.
Context {W : Type} `{UpgradeAPI W}.

Definition patch_node (n : Node) (p : option Node) : M W () :=
  match p with None => mret () | Some n' => node_patch n n' end.
Definition cordonNode (nodeName owner : string) : M W () :=
  n ← node_get nodeName; patch_node n (cordon_patch owner n).
Definition uncordonNode (nodeName owner : string) : M W () :=
  n ← node_get nodeName; patch_node n (uncordon_patch owner n).
(** The node as the patch leaves it, for the caller that goes on with it. *)
Definition reapStaleCordonClaim (owner : string) (n : Node) : M W Node :=
  match reap_patch owner n with
  | None => mret n
  | Some n' => _ ← node_patch n n'; mret n'
  end.
Definition clearUpgradingLabel (nodeName : string) : M W () :=
  n ← node_get nodeName; patch_node n (clear_labels_patch n).

(** Three attempts; only a conflict is retried. *)
Fixpoint label_attempts (attempts : nat) (lastErr : GoErr) (nodeName labelKey : string) : M W () :=
  match attempts with
  | O => throw (errorf_w ("3회 conflict 재시도 후 라벨 " +:+ labelKey +:+ " 제거 실패") lastErr)
  | S attempts =>
      g ← try (node_get nodeName);
      match g with
      | inr e => if is_not_found e then mret () else throw e
      | inl n =>
          p ← try (patch_node n (drop_label_patch labelKey n));
          match p with
          | inl _ => mret ()
          | inr e => if is_conflict e then label_attempts attempts e nodeName labelKey else throw e
          end
      end
  end.
Definition ensureLabelRemoved (nodeName labelKey : string) : M W () :=
  label_attempts 3 (errorf "") nodeName labelKey.
Definition EnsureUpgradingLabelRemoved (nodeName : string) : M W () :=
  ensureLabelRemoved nodeName driverUpgradingLabelKey.
Definition EnsureUpgradingBlockingLabelRemoved (nodeName : string) : M W () :=
  ensureLabelRemoved nodeName driverUpgradingBlockingLabelKey.
End NodeOps.

(** ** Pods that hold a device, and the drain *)

Definition hasAcceleratorResourceName `{MapRange} (rn : string) : bool :=
  existsb (str_contains rn) AcceleratorResourceDomains.
Definition podPhaseDrainable (pod : Pod) : bool :=
  negb (bool_decide (Pod_Phase pod = PodSucceeded)) && negb (bool_decide (Pod_Phase pod = PodFailed)).
Definition podUsesDevice `{MapRange} (pod : Pod) : bool :=
  Nat.ltb 0 (Pod_ResourceClaims pod)
  || existsb (λ c, existsb (λ l, hasAcceleratorResourceName l.1) (Ct_Limits c)) (Pod_Containers pod ++ Pod_InitContainers pod).
(** What [hasDeviceWorkloads] and [evictDevicePods] both look for. *)
Definition drain_target `{MapRange} (nodeName : string) (pod : Pod) : bool :=
  bool_decide (Pod_NodeName pod = nodeName) && podPhaseDrainable pod && podUsesDevice pod.
Definition owned_by_daemonset (dsName : string) (pod : Pod) : bool :=
  existsb (λ r, bool_decide (Or_Kind r = "DaemonSet") && bool_decide (Or_Name r = dsName)) (Pod_Owners pod).

Section PodOps.
Context {W : Type} `{UpgradeAPI W} `{MapRange}.
(** [naming.OperatorNamespace()] *)
Context (ns : string).

(** [client.IgnoreNotFound(m.Delete(ctx, pod))] *)
Definition delete_pod_ignore (pod : Pod) : M W () :=
  d ← try (pod_delete pod);
  match d with inr e => if is_not_found e then mret () else throw e | inl _ => mret () end.

Definition hasDeviceWorkloads (nodeName : string) : M W bool :=
  pods ← pod_list; mret (existsb (drain_target nodeName) pods).

Definition evict_one (force : bool) (pod : Pod) : M W () :=
  e ← try (pod_evict pod);
  match e with
  | inl _ => mret ()
  | inr e =>
      if is_not_found e then mret ()
      else if is_too_many_requests e then
        if negb force then mret ()
        else
          d ← try (delete_pod_ignore pod);
          match d with
          | inl _ => mret ()
          | inr e => throw (errorf_w ("force delete 실패 (pod=" +:+ Pod_Namespace pod +:+ "/" +:+ Pod_Name pod +:+ ")") e)
          end
      else throw (errorf_w ("eviction 실패 (pod=" +:+ Pod_Namespace pod +:+ "/" +:+ Pod_Name pod +:+ ")") e)
  end.
Definition evictDevicePods (nodeName : string) (force : bool) : M W () :=
  pods ← pod_list;
  for_each (λ pod, if drain_target nodeName pod then evict_one force pod else mret ()) pods.

Definition deleteDevicePluginPods (nodeName : string) : M W () :=
  pods ← pod_list;
  for_each (λ pod, if bool_decide (Pod_NodeName pod = nodeName) && device_plugin_pod pod
                   then delete_pod_ignore pod else mret ()) pods.

Definition deleteDriverPodOnNode (dsName nodeName : string) : M W () :=
  pods ← pod_list;
  for_each (λ pod, if bool_decide (Pod_NodeName pod = nodeName) && owned_by_daemonset dsName pod
                   then delete_pod_ignore pod else mret ())
    (filter (λ pod, Pod_Namespace pod = ns) pods).

(** Device plugins that started before [since]; how many were deleted. *)
Definition stale_plugin (nodeName : string) (since : Z) (pod : Pod) : bool :=
  bool_decide (Pod_NodeName pod = nodeName) && bool_decide (Pod_DeletionTimestamp pod = None)
  && device_plugin_pod pod && match Pod_StartTime pod with Some t => time_before t since | None => false end.
Fixpoint restart_loop (nodeName : string) (since : Z) (pods : list Pod) (deleted : nat) : M W nat :=
  match pods with
  | [] => mret deleted
  | pod :: pods =>
      if stale_plugin nodeName since pod then
        _ ← delete_pod_ignore pod; restart_loop nodeName since pods (S deleted)
      else restart_loop nodeName since pods deleted
  end.
Definition restartStaleDevicePluginPods (nodeName : string) (since : Z) : M W nat :=
  pods ← pod_list; restart_loop nodeName since pods 0.

(** Ready, and in a crash loop, of the driver pod on the node. *)
Definition driver_pod_verdict (dsName nodeName desiredImage : string) (pods : list Pod) : bool * bool :=
  match find_first (λ pod, bool_decide (Pod_NodeName pod = nodeName) && bool_decide (Pod_DeletionTimestamp pod = None)
                           && owned_by_daemonset dsName pod) pods with
  | None => (false, false)
  | Some pod =>
      if negb (bool_decide (desiredImage = ""))
         && negb (bool_decide (from_option Ct_Image "" (head (Pod_Containers pod)) = desiredImage)) then (false, false)
      else if existsb (λ r, bool_decide (r = "CrashLoopBackOff")) (Pod_Waiting pod) then (false, true)
      else (containers_ready (Pod_Conditions pod), false)
  end.
Definition isDriverPodReadyOnNode (dsName nodeName desiredImage : string) : M W (bool * bool) :=
  pods ← pod_list;
  mret (driver_pod_verdict dsName nodeName desiredImage (filter (λ pod, Pod_Namespace pod = ns) pods)).
End PodOps.

(** The first resource of the vendor the node still advertises, and whether that
    could be decided. *)
Definition vendorStillAdvertised `{MapRange} (node : Node) (vendor : string) : string * bool :=
  if negb (KnownVendor vendor) then ("", false)
  else
    (from_option fst "" (find_first (λ nq, equal_fold (VendorForResource nq.1) vendor && negb (nq.2 =? 0))
                           (range_map (Node_Allocatable node))), true).

(** ** Quiesced Deployments *)

Definition deploymentTargetsNode (d : Deployment) (nodeName : string) : bool :=
  if bool_decide (nodeName = "") then false
  else
    bool_decide (Dep_NodeSelector d !! hostnameLabelKey = Some nodeName) ||
    match Dep_Required d with
    | None => false
    | Some terms =>
        existsb (λ term,
          existsb (λ expr, bool_decide (Req_Key expr = hostnameLabelKey) && bool_decide (Req_Operator expr = "In")
                           && contains_string (Req_Values expr) nodeName) (Term_Expressions term)) terms
    end.
Definition quiesce_labelled (d : Deployment) : bool :=
  bool_decide (Dep_Labels d !! quiesceOnDriverUpgradeLabelKey = Some labelValueTrue).

(** The Deployment scaled to zero, its replicas kept in the annotation. *)
Definition quiesce_patch (nodeName : string) (d : Deployment) : option (Deployment * Z) :=
  if negb (deploymentTargetsNode d nodeName) then None
  else match Dep_Replicas d with
       | None => None
       | Some r =>
           if r =? 0 then None
           else Some (dep_scale 0 (<[QuiesceReplicasBackupAnnotation := sprint_Z r]> (Dep_Annotations d)) d, r)
       end.
Definition restore_patch (original : Z) (d : Deployment) : Deployment :=
  dep_scale original (delete QuiesceReplicasBackupAnnotation (Dep_Annotations d)) d.

Definition fallback_patch (nodeName : string) (d : Deployment) : option Deployment :=
  if negb (deploymentTargetsNode d nodeName) then None
  else
    match Dep_Annotations d !! QuiesceReplicasBackupAnnotation ≫= atoi with
    | Some n => if n <? 0 then None else Some (restore_patch (wrap32 n) d)
    | None => None
    end.

Section Quiesce.
Context {W : Type} `{UpgradeAPI W}.

Definition labelled_deployments : M W (list Deployment) :=
  l ← deployment_list; mret (filter (λ d, quiesce_labelled d = true) l).
Fixpoint quiesce_loop (nodeName : string) (l : list Deployment) : M W (list QuiescedDeployment) :=
  match l with
  | [] => mret []
  | d :: l =>
      match quiesce_patch nodeName d with
      | None => quiesce_loop nodeName l
      | Some (d', original) =>
          p ← try (deployment_patch d d');
          rest ← quiesce_loop nodeName l;
          mret (match p with
                | inl _ => mkQuiesced (Dep_Namespace d) (Dep_Name d) original :: rest
                | inr _ => rest
                end)
      end
  end.
Definition restore_one (q : QuiescedDeployment) : M W () :=
  g ← try (deployment_get (Qd_Namespace q) (Qd_Name q));
  match g with
  | inr _ => mret ()
  | inl d => _ ← try (deployment_patch d (restore_patch (Qd_OriginalReplicas q) d)); mret ()
  end.
Definition restoreFromAnnotationFallback (nodeName : string) : M W () :=
  l ← try labelled_deployments;
  match l with
  | inr e => throw (errorf_w "annotation fallback: deployment list 실패" e)
  | inl l =>
      for_each (λ d, match fallback_patch nodeName d with
                     | None => mret ()
                     | Some d' => _ ← try (deployment_patch d d'); mret ()
                     end) l
  end.
End Quiesce.

(** ** Round trips *)

Lemma delete_insert_none {A} (k : string) (v : A) (m : gmap string A) : m !! k = None → delete k (<[k := v]> m) = m.
Proof. intros Hm. rewrite delete_insert_eq. by apply delete_id. Qed.
(** A node no upgrade has touched: schedulable, without labels or mark. *)
Definition untouched (n : Node) : Prop :=
  Node_Unschedulable n = false ∧ Node_Labels n !! driverUpgradingLabelKey = None
  ∧ Node_Labels n !! driverUpgradingBlockingLabelKey = None ∧ Node_Annotations n !! cordonOwnerAnnotationKey = None.

(** Cordon and uncordon undo each other: from a node no upgrade has touched
    the cordon patches it (unschedulable, both labels, the owner's mark), and
    the uncordon of the same owner patches it back to exactly the node it was. *)
Theorem cordon_roundtrip (owner : string) (n : Node) (Hn : untouched n) :
  ∃ n', cordon_patch owner n = Some n' ∧ Node_Unschedulable n' = true ∧ owns_cordon owner n' = true
        ∧ has_label driverUpgradingLabelKey n' = true ∧ has_label driverUpgradingBlockingLabelKey n' = true
        ∧ uncordon_patch owner n' = Some n.
Proof.
  destruct n as [name labels annotations unsched alloc conds boot kernel deleted].
  destruct Hn as (Hu&Hl&Hb&Ha). simpl in *. subst unsched.
  eexists. split; [reflexivity|]. split; [done|].
  assert (Hown : owns_cordon owner (mkNode name
    (<[driverUpgradingBlockingLabelKey := labelValueTrue]> (<[driverUpgradingLabelKey := labelValueTrue]> labels))
    (<[cordonOwnerAnnotationKey := owner]> annotations) true alloc conds boot kernel deleted) = true).
  { unfold owns_cordon, mget. simpl. rewrite lookup_insert_eq. by apply bool_decide_eq_true. }
  split; [exact Hown|]. unfold has_label. simpl.
  split; [apply bool_decide_eq_true; rewrite lookup_insert_ne, lookup_insert_eq by done; eauto|].
  split; [apply bool_decide_eq_true; rewrite lookup_insert_eq; eauto|].
  unfold uncordon_patch. unfold node_labels, node_annotations, node_unschedulable in *. simpl in *. rewrite Hown. simpl.
  rewrite (delete_insert_none cordonOwnerAnnotationKey) by done.
  rewrite (delete_insert_ne _ driverUpgradingLabelKey) by done.
  rewrite (delete_insert_none driverUpgradingLabelKey) by done. by rewrite (delete_insert_none driverUpgradingBlockingLabelKey) by done.
Qed.

Definition fresh_node : Node := mkNode "node-a" {["zone" := "a"]} ∅ false ∅ [] "boot-1" "6.8" None.
Lemma cordon_roundtrip_witness :
  ∃ n', cordon_patch "node-a-nvidia" fresh_node = Some n' ∧ Node_Unschedulable n' = true
        ∧ owns_cordon "node-a-nvidia" n' = true ∧ has_label driverUpgradingLabelKey n' = true
        ∧ has_label driverUpgradingBlockingLabelKey n' = true ∧ uncordon_patch "node-a-nvidia" n' = Some fresh_node.
Proof. apply (cordon_roundtrip "node-a-nvidia" fresh_node). split_and!; reflexivity. Defined.

(** A Deployment the cycle scaled to zero can always be restored from its
    annotation alone: for replicas as the API stores them, the fallback reads
    the number back and rebuilds exactly the Deployment as it was. *)
Theorem quiesce_roundtrip (nodeName : string) (d d' : Deployment) (replicas : Z)
    (Hq : quiesce_patch nodeName d = Some (d', replicas))
    (Hfree : Dep_Annotations d !! QuiesceReplicasBackupAnnotation = None)
    (Hr : 0 <= replicas) (Hi : is_int32 replicas) :
  Dep_Replicas d' = Some 0 ∧ fallback_patch nodeName d' = Some d ∧ restore_patch replicas d' = d.
Proof.
  unfold quiesce_patch in Hq. destruct (deploymentTargetsNode d nodeName) eqn:Et; [|done]. simpl in Hq.
  destruct d as [dns dname labels annotations reps sel req]. simpl in *. destruct reps as [r|]; [|done].
  destruct (r =? 0) eqn:E0; [done|]. injection Hq as <- <-. unfold dep_scale in *. simpl in *.
  assert (Hback : restore_patch r (mkDeployment dns dname labels
    (<[QuiesceReplicasBackupAnnotation := sprint_Z r]> annotations) (Some 0) sel req)
    = mkDeployment dns dname labels annotations (Some r) sel req).
  { unfold restore_patch, dep_scale. simpl. by rewrite delete_insert_none. }
  split; [done|]. split; [|exact Hback]. unfold fallback_patch.
  change (deploymentTargetsNode _ nodeName) with
    (deploymentTargetsNode (mkDeployment dns dname labels annotations (Some r) sel req) nodeName). rewrite Et.
  cbn [negb Dep_Annotations]. rewrite lookup_insert_eq. cbn [mbind option_bind].
  rewrite atoi_sprint by (unfold is_int32, is_int64, min_int32, max_int32, min_int64, max_int64 in *; lia).
  destruct (r <? 0) eqn:Eneg; bool_prop; [lia|]. by rewrite wrap32_id, Hback.
Qed.

Definition quiet_deployment : Deployment :=
  mkDeployment "default" "exporter" ∅ ∅ (Some 12) {[hostnameLabelKey := "node-a"]} None.
Lemma quiesce_roundtrip_witness : ∃ d', quiesce_patch "node-a" quiet_deployment = Some (d', 12)
  ∧ fallback_patch "node-a" d' = Some quiet_deployment.
Proof.
  eexists. split; [reflexivity|].
  destruct (quiesce_roundtrip "node-a" quiet_deployment _ 12 eq_refl) as (_&Hf&_); [reflexivity|lia| |exact Hf].
  unfold is_int32, min_int32, max_int32. lia.
Defined.
