(* ===== verification/UpgradeMachine.v ===== *)
(** * internal/upgrade: the state machine of one node's driver

    Models [state_machine.go] and [state_machine_job.go].  A handler works on the
    [DriverUpgradeState] it was given by reference and on the cluster, so it runs
    in [M (DriverUpgradeState * W)]: what it assigned before an error stays
    assigned, which matters because the controller writes the status after an
    error too.  Events, metrics and logs are left out; a clock read that only
    feeds them is too. *)

From S2P Require Import Prelude GoStrings GoTime Naming ApiTypes PolicyTypes UpgradeTypes IntentResources DriverJob DriverImage DraClaim Validators UpgradeNode.

Definition defaultIdleCooldown : Z := 10 * second.
Definition failedCordonRecheckInterval : Z := 60 * second.

(** [k8s.io/apimachinery/pkg/util/version]: [ParseGeneric] and [GreaterThan]. *)
Class Versions := {
  Version : Type;
  ParseGeneric : string → option Version;
  GreaterThan : Version → Version → bool;
}.

(** What a handler returns besides its error: requeue, and after how long. *)
Definition StepOut : Type := bool * Z.

Definition isActiveState (state : string) : bool :=
  contains_string [UpgradeStatePreFlight; UpgradeStateCordoning; UpgradeStateDraining; UpgradeStateUpgrading;
    UpgradeStateValidating; UpgradeStateRebootRequired; UpgradeStateRebooting; UpgradeStateUncordoning;
    UpgradeStateRollback] state.

Definition maxReboots (policy : DriverInstallPolicy) : Z :=
  match Dip_UpgradePolicy policy with
  | Some up => if 0 <? Up_MaxReboots up then Up_MaxReboots up else 1
  | None => 1
  end.
Definition maxRollbacks (policy : DriverInstallPolicy) : Z :=
  match Dip_UpgradePolicy policy with
  | Some up => if 0 <? Up_MaxRollbackAttempts up then Up_MaxRollbackAttempts up else 3
  | None => 3
  end.
Definition maxParallel (policy : DriverInstallPolicy) : Z :=
  match Dip_UpgradePolicy policy with
  | Some up => if 0 <? Up_MaxParallelUpgrades up then Up_MaxParallelUpgrades up
               else if 0 <? Up_MaxUnavailable up then Up_MaxUnavailable up else 1
  | None => 1
  end.
Definition rollback_on_failure (policy : DriverInstallPolicy) : bool :=
  from_option Up_RollbackOnFailure false (Dip_UpgradePolicy policy).
Definition auto_upgrade (policy : DriverInstallPolicy) : bool :=
  from_option Up_AutoUpgrade false (Dip_UpgradePolicy policy).
Definition validation_timeout (policy : DriverInstallPolicy) : Z :=
  match Dip_UpgradePolicy policy with
  | Some up => parseDuration (Up_ValidationTimeout up) (15 * minute)
  | None => 15 * minute
  end.
Definition reboot_timeout (policy : DriverInstallPolicy) : Z :=
  match Dip_UpgradePolicy policy with
  | Some up => parseDuration (Up_RebootTimeout up) (15 * minute)
  | None => 15 * minute
  end.
Definition idle_cooldown (policy : DriverInstallPolicy) : Z :=
  match Dip_UpgradePolicy policy ≫= Up_IdleCooldownSeconds with
  | Some s => if s <=? 0 then 0 else s * second
  | None => defaultIdleCooldown
  end.
(** [len(verifiedVersions) > 0 && !containsString(verifiedVersions, v)] *)
Definition unverified (policy : DriverInstallPolicy) (v : string) : bool :=
  negb (bool_decide (length (Dip_VerifiedVersions policy) = 0%nat)) && negb (containsString (Dip_VerifiedVersions policy) v).
Definition unverified_message (policy : DriverInstallPolicy) (v : string) : string :=
  "Driver version " +:+ v +:+ " 가 verifiedVersions 화이트리스트에 없음: " +:+ sprint_list (Dip_VerifiedVersions policy).

(** ** Assignments to the status *)

Definition resetRebootTracking (s : DriverUpgradeStateStatus) : DriverUpgradeStateStatus :=
  us_RebootBootID "" (us_RebootRequestedTime zero_time (us_RebootAttempts 0 s)).

Definition markRolledBack (policy : DriverInstallPolicy) (s : DriverUpgradeStateStatus) : DriverUpgradeStateStatus :=
  if bool_decide (Us_DesiredVersion s = "") || bool_decide (Us_DesiredVersion s = Us_PreviousVersion s)
     || bool_decide (Us_RolledBackVersion s = Us_DesiredVersion s) then s
  else us_RolledBackGeneration (Dip_Generation policy) (us_RolledBackVersion (Us_DesiredVersion s) s).

Definition releaseRollbackHold (policy : DriverInstallPolicy) (desired loaded : string)
    (s : DriverUpgradeStateStatus) : DriverUpgradeStateStatus :=
  let held := Us_RolledBackVersion s in
  let clear s := us_RolledBackGeneration 0 (us_RolledBackVersion "" s) in
  if bool_decide (held = "") then s
  else if bool_decide (loaded = held) then
    clear (us_Message ("롤백 보류 해제(노드가 보류 목표 " +:+ held +:+ " 에 도달)") s)
  else if negb (bool_decide (held = desired)) || negb (Us_RolledBackGeneration s =? Dip_Generation policy) then
    clear (us_Message ("롤백 보류 해제(목표 또는 정책 generation 변경): 이전 보류 목표 " +:+ held) s)
  else s.

Definition held_after_rollback (policy : DriverInstallPolicy) (desired : string) (s : DriverUpgradeStateStatus) : bool :=
  negb (bool_decide (Us_RolledBackVersion s = "")) && bool_decide (Us_RolledBackVersion s = desired)
  && (Us_RolledBackGeneration s =? Dip_Generation policy).
Definition hold_message (desired current : string) : string :=
  "목표 " +:+ desired +:+ " 는 롤백한 버전 — 정책 spec 변경 또는 DUS 삭제 전까지 재시도 보류(현재 " +:+ current +:+ ")".
Definition canRestoreHeld (s : DriverUpgradeStateStatus) (currentVersion : string) : bool :=
  negb (bool_decide (Us_RolledBackVersion s = "")) && negb (bool_decide (currentVersion = "")).

(** A new cycle towards [desired], from [previous]. *)
Definition open_cycle (desired previous : string) (s : DriverUpgradeStateStatus) : DriverUpgradeStateStatus :=
  resetRebootTracking (us_RolledBackGeneration 0 (us_RolledBackVersion "" (us_RollbackAttempts 0
    (us_PreviousImage "" (us_PreviousVersion previous (us_DesiredVersion desired s)))))).
(** The cycle that reinstalls the version a rollback restored. *)
Definition open_restore (restored : string) (s : DriverUpgradeStateStatus) : DriverUpgradeStateStatus :=
  resetRebootTracking (us_RollbackAttempts 0 (us_PreviousImage ""
    (us_PreviousVersion restored (us_DesiredVersion restored s)))).

Definition validationVendorKey (vendor model : string) : string :=
  if equal_fold vendor "furiosa" && equal_fold model "rngd" then "rngd" else vendor.
Definition driverModuleStepFailed (v : option ValidationStatus) (key : string) : bool :=
  match v with
  | None => false
  | Some v => existsb (λ s, (bool_decide (Vstep_Name s = "driverModule") || equal_fold (Vstep_Name s) (key +:+ "/driverModule"))
                            && negb (Vstep_Passed s) && negb (Vstep_NotApplicable s)) (Vs_Steps v)
  end.
(** The devices of the report that are this vendor's and model's. *)
Definition matching_devices (vendor model : string) (ds : list DeviceEntry) : list DeviceEntry :=
  filter (λ d, equal_fold (De_Vendor d) vendor && DeviceModelMatches (De_Model d) model = true) ds.

(** ** The machine *)

Section Machine.
Context {W : Type} `{UpgradeAPI W} `{Clock W} `{MapRange} `{Requirements} `{Versions}.
(** [naming.OperatorNamespace()] *)
Context (ns : string).

Notation S := (DriverUpgradeState * W)%type.
Notation UM A := (M S A).

(** A call that does not touch the object in hand. *)
Definition api {A} (m : M W A) : UM A := zoom snd (λ w s, (s.1, w)) m.
Definition the_state : UM DriverUpgradeState := gets fst.
Definition the_status : UM DriverUpgradeStateStatus := gets (λ s, Dus_Status s.1).
Definition set_status (f : DriverUpgradeStateStatus → DriverUpgradeStateStatus) : UM () :=
  modify (λ s, (dus_status f s.1, s.2)).
(** [m.Status().Update(ctx, state)]: on success the object becomes the stored one. *)
Definition update_status : UM () := λ s,
  match dus_status_update s.1 s.2 with
  | (inl d, w) => (inl (), (d, w))
  | (inr e, w) => (inr e, (s.1, w))
  end.
(** [!t.IsZero() && time.Since(t) > timeout] *)
Definition older_than (t timeout : Z) : UM bool :=
  if is_zero_time t then mret false
  else now ← api read_clock; mret (timeout <? time_sub now t).

Definition transitionTo (nextState message : string) (requeueAfter : Z) : UM StepOut :=
  now ← api read_clock;
  _ ← set_status (λ s, us_Message message (us_LastTransitionTime now (us_State nextState s)));
  mret (true, requeueAfter).

Definition clearRollbackRequest : UM () := λ s,
  let d := dus_annotations (delete RollbackRequestedAnnotation (Dus_Annotations s.1)) s.1 in
  match dus_patch s.1 d s.2 with
  | (inl stored, w) => (inl (), (stored, w))
  | (inr e, w) => (inr (errorf_w "롤백 요청 어노테이션 제거 실패" e), (d, w))
  end.

(** *** What the report says *)

Definition loadedHostVersion : UM string :=
  d ← the_state;
  g ← try (api (report_get (Dus_NodeName d)));
  match g with
  | inr e => if is_not_found e then mret "" else throw e
  | inl ndr => mret (LoadedHostVersion (Ndr_Devices ndr) (Dus_Vendor d) (Dus_Model d))
  end.
(** Whether a device of this vendor and model satisfies [p]. *)
Definition report_has (p : DeviceEntry → bool) : UM bool :=
  d ← the_state;
  g ← try (api (report_get (Dus_NodeName d)));
  match g with
  | inr e => if is_not_found e then mret false else throw e
  | inl ndr => mret (existsb p (matching_devices (Dus_Vendor d) (Dus_Model d) (Ndr_Devices ndr)))
  end.
Definition driverNotLoaded : UM bool := report_has (λ e, negb (De_DriverLoaded e)).
Definition nodeNeedsReboot : UM bool := report_has De_NeedsReboot.

Definition hostDriverAhead (policy : DriverInstallPolicy) : UM (string * bool) :=
  let d := Dip_Driver policy in
  if Ds_AllowDowngrade d || bool_decide (Ds_Version d = "") || equal_fold (Ds_VersionSource d) versionSourceHost
  then mret ("", false)
  else
    match ParseGeneric (Ds_Version d) with
    | None => mret ("", false)
    | Some want =>
        host ← loadedHostVersion;
        if bool_decide (host = "") then mret ("", false)
        else match ParseGeneric host with
             | Some got => if GreaterThan got want then mret (host, true) else mret ("", false)
             | None => mret ("", false)
             end
    end.

Definition rebootMarkerIsFresh : UM bool :=
  d ← the_state;
  let firstReboot := Us_RebootAttempts (Dus_Status d) =? 0 in
  g ← try (api (report_get (Dus_NodeName d)));
  match g with
  | inl (mkNDR _ _ _ (Some observedAt)) =>
      j ← try (api (job_get (InstallJobName (Dus_Vendor d) (Dus_Model d) (Dus_NodeName d))));
      match j with
      | inl job => match Job_CompletionTime job with
                   | Some t => mret (firstReboot || time_after observedAt t)
                   | None => mret firstReboot
                   end
      | inr _ => mret firstReboot
      end
  | _ => mret firstReboot
  end.

(** *** Deployments *)

Definition QuiesceLabeledDeployments : UM () :=
  d ← the_state;
  l ← try (api labelled_deployments);
  match l with
  | inr e => throw (errorf_w "quiesce 후보 Deployment list 실패" e)
  | inl l =>
      quiesced ← api (quiesce_loop (Dus_NodeName d) l);
      _ ← set_status (us_QuiescedDeployments quiesced);
      u ← try update_status;
      match u with
      | inr e => throw (errorf_w "failed to persist quiesce status backup" e)
      | inl _ => mret ()
      end
  end.
Definition RestoreQuiescedDeployments : UM () :=
  d ← the_state;
  match Us_QuiescedDeployments (Dus_Status d) with
  | [] => api (restoreFromAnnotationFallback (Dus_NodeName d))
  | l => _ ← api (for_each restore_one l); set_status (us_QuiescedDeployments [])
  end.

(** The clean-up before Failed: both parts are tried, neither failure stops it. *)
Definition jobTransitionToFailed (msg : string) : UM StepOut :=
  d ← the_state;
  _ ← try RestoreQuiescedDeployments;
  _ ← try (api (clearUpgradingLabel (Dus_NodeName d)));
  transitionTo UpgradeStateFailed msg 0.
Definition rollback_or_fail (policy : DriverInstallPolicy) (rollbackMsg failedMsg : string) : UM StepOut :=
  if rollback_on_failure policy then transitionTo UpgradeStateRollback rollbackMsg 0
  else jobTransitionToFailed failedMsg.


(** *** Idle *)

Definition refreshResolvedImage (policy : DriverInstallPolicy) : UM () :=
  d ← the_state;
  g ← try (api (node_get (Dus_NodeName d)));
  match g with
  | inr e => if is_not_found e then mret () else throw (errorf_w "노드 조회 실패" e)
  | inl node =>
      let '(image, _, _) := resolveDriverImage policy (Node_KernelVersion node) in
      set_status (us_ResolvedImage image)
  end.

Definition holdAfterRollback (policy : DriverInstallPolicy) (desired current : string) : UM bool :=
  s ← the_status;
  if held_after_rollback policy desired s then
    _ ← set_status (us_Message (hold_message desired current)); mret true
  else mret false.

Definition startHeldRestore (restored : string) : UM StepOut :=
  _ ← set_status (open_restore restored);
  transitionTo UpgradeStateRequired ("Job 모드 복구(롤백 보류 중): " +:+ restored +:+ " 재설치") 0.

(** The install or repair that job mode starts whatever autoUpgrade says. *)
Definition idle_needs_install (policy : DriverInstallPolicy) (desired current : string) : UM bool :=
  if isJobMode policy && negb (bool_decide (desired = "")) then
    if bool_decide (current = "") then mret true else driverNotLoaded
  else mret false.
Definition refuse_unverified (policy : DriverInstallPolicy) (desired : string) : UM StepOut :=
  _ ← set_status (us_DesiredVersion desired);
  transitionTo UpgradeStateUnverifiedVersion (unverified_message policy desired) 0.
Definition idle_install (policy : DriverInstallPolicy) (desired current : string) : UM StepOut :=
  s ← the_status;
  if canRestoreHeld s current then startHeldRestore current
  else if unverified policy desired then refuse_unverified policy desired
  else
    _ ← set_status (open_cycle desired "");
    transitionTo UpgradeStateRequired ("Job 모드 설치/복구: " +:+ desired) 0.

(** What remains of the cooldown after the last transition, if any. *)
Definition cooldown_remaining (policy : DriverInstallPolicy) : UM (option Z) :=
  s ← the_status;
  let cooldown := idle_cooldown policy in
  if (0 <? cooldown) && negb (is_zero_time (Us_LastTransitionTime s)) then
    now ← api read_clock;
    let elapsed := time_sub now (Us_LastTransitionTime s) in
    if elapsed <? cooldown then mret (Some (wrap64 (cooldown - elapsed))) else mret None
  else mret None.

(** The upgrade of a loaded driver to another version. *)
Definition idle_upgrade (policy : DriverInstallPolicy) (desired current : string) : UM StepOut :=
  s ← the_status;
  if bool_decide (desired = "") || bool_decide (desired = current) then
    if bool_decide (Us_State s = "") then
      transitionTo UpgradeStateIdle "초기 상태 정규화 (버전 일치)" (60 * second)
    else mret (true, 60 * second)
  else if unverified policy desired then refuse_unverified policy desired
  else if negb (auto_upgrade policy) then mret (true, 60 * second)
  else
    held ← holdAfterRollback policy desired current;
    if (held : bool) then mret (true, 60 * second)
    else
      r ← cooldown_remaining policy;
      match r with
      | Some remaining => mret (true, remaining)
      | None =>
          _ ← set_status (open_cycle desired current);
          transitionTo UpgradeStateRequired ("버전 불일치 감지: " +:+ current +:+ " → " +:+ desired) 0
      end.

Definition host_ahead_message (host desired : string) : string :=
  "호스트 드라이버 " +:+ host +:+ " 가 정책 버전 " +:+ desired
  +:+ " 보다 높고 allowDowngrade=false — 설치·cordon 없이 멈춘다. 정책 버전을 올리거나 versionSource=Host 로 바꿀 것".
Definition handleIdle (policy : DriverInstallPolicy) : UM StepOut :=
  loaded ← loadedHostVersion;
  let desired := EffectiveDesiredVersion policy loaded in
  s ← the_status;
  let current := Us_CurrentVersion s in
  _ ← refreshResolvedImage policy;
  _ ← set_status (releaseRollbackHold policy desired loaded);
  if Ds_TrackOnly (Dip_Driver policy) then
    if bool_decide (Us_State s = "") then
      transitionTo UpgradeStateIdle "TrackOnly: 버전 관측 전용(설치 경로 없음)" (60 * second)
    else mret (true, 60 * second)
  else
    ahead ← hostDriverAhead policy;
    let (host, ahead) := ahead : string * bool in
    if ahead then
      _ ← set_status (us_DesiredVersion desired);
      transitionTo UpgradeStateHostAhead (host_ahead_message host desired) 0
    else
      install ← idle_needs_install policy desired current;
      if (install : bool) then idle_install policy desired current
      else idle_upgrade policy desired current.

Definition handleUnverifiedVersion (policy : DriverInstallPolicy) : UM StepOut :=
  loaded ← loadedHostVersion;
  let desired := EffectiveDesiredVersion policy loaded in
  if negb (unverified policy desired) then
    transitionTo UpgradeStateIdle ("목표 버전 " +:+ desired +:+ " 가 verifiedVersions 안으로 들어와 Idle 복귀") 0
  else mret (true, 60 * second).

Definition handleHostAhead (policy : DriverInstallPolicy) : UM StepOut :=
  ahead ← hostDriverAhead policy;
  if negb (ahead.2 : bool) then transitionTo UpgradeStateIdle "호스트 드라이버가 더는 정책보다 높지 않아 Idle 복귀" 0
  else mret (true, 60 * second).

(** *** UpgradeRequired, PreFlight, Cordoning, Draining *)

Definition countActiveUpgrades : UM nat :=
  l ← api dus_list; mret (length (filter (λ d, isActiveState (Us_State (Dus_Status d)) = true) l)).

Definition handleUpgradeRequired (policy : DriverInstallPolicy) : UM StepOut :=
  c ← try countActiveUpgrades;
  match c with
  | inr e => throw (errorf_w "활성 업그레이드 수 조회 실패" e)
  | inl active =>
      if maxParallel policy <=? wrap32 (Z.of_nat active) then mret (true, 30 * second)
      else transitionTo UpgradeStatePreFlight "업그레이드 슬롯 확보" 0
  end.

Definition handlePreFlight (policy : DriverInstallPolicy) : UM StepOut :=
  d ← the_state;
  g ← try (api (node_get (Dus_NodeName d)));
  match g with
  | inr e => throw (errorf_w "노드 조회 실패" e)
  | inl node =>
      let kernelVersion := Node_KernelVersion node in
      let '(resolvedImage, _, _) := resolveDriverImage policy kernelVersion in
      _ ← set_status (us_ResolvedImage resolvedImage);
      if negb (bool_decide (length (Dip_KernelAllowlist policy) = 0%nat))
         && negb (matchesKernelAllowlist kernelVersion (Dip_KernelAllowlist policy)) then
        transitionTo UpgradeStateRollback
          ("커널 버전 " +:+ kernelVersion +:+ "이 allowlist에 없음: " +:+ sprint_list (Dip_KernelAllowlist policy)) 0
      else if negb (isNodeReady node) then mret (true, 10 * second)
      else transitionTo UpgradeStateCordoning "PreFlight 검사 통과" 0
  end.

Definition handleCordoning : UM StepOut :=
  d ← the_state;
  c ← try (api (cordonNode (Dus_NodeName d) (Dus_Name d)));
  match c with
  | inr e => throw (errorf_w "노드 cordon 실패" e)
  | inl _ =>
      _ ← try QuiesceLabeledDeployments;
      transitionTo UpgradeStateDraining "노드 cordon 완료" 0
  end.

Definition handleDraining (policy : DriverInstallPolicy) : UM StepOut :=
  match Dip_UpgradePolicy policy with
  | None => transitionTo UpgradeStateUpgrading "drain 비활성화, 즉시 업그레이드" 0
  | Some up =>
      if negb (Up_DrainEnabled up) then transitionTo UpgradeStateUpgrading "drain 비활성화, 즉시 업그레이드" 0
      else
        d ← the_state;
        late ← older_than (Us_LastTransitionTime (Dus_Status d)) (parseDuration (Up_DrainTimeout up) (5 * minute));
        if (late : bool) then rollback_or_fail policy "drain 타임아웃: 롤백 시작" "drain 타임아웃: 수동 조치 필요"
        else
          _ ← try (api (deleteDevicePluginPods (Dus_NodeName d)));
          w ← try (api (hasDeviceWorkloads (Dus_NodeName d)));
          match w with
          | inr e => throw (errorf_w "디바이스 워크로드 확인 실패" e)
          | inl true =>
              e ← try (api (evictDevicePods (Dus_NodeName d) (Up_ForceUpgrade up)));
              match e with
              | inr e => throw (errorf_w "디바이스 Pod eviction 실패" e)
              | inl _ => mret (true, 15 * second)
              end
          | inl false =>
              a ← try (api (AssertNoneAllocatedOnNode (Dus_NodeName d)));
              match a with
              | inr e => if is_claim_allocated e then mret (true, 15 * second)
                         else throw (errorf_w "drain 완료 전 ResourceClaim 검사 실패" e)
              | inl _ => transitionTo UpgradeStateUpgrading "drain 완료" 0
              end
          end
  end.

(** *** Upgrading *)

(** The DaemonSet's image: the loop stops at the first container, whatever its
    name. *)
Definition set_first_image (image : string) (cs : list Container) : list Container :=
  match cs with
  | [] => []
  | c :: cs => mkContainer (Ct_Name c) image (Ct_Command c) (Ct_Env c) (Ct_Limits c) (Ct_Privileged c) (Ct_VolumeMounts c) :: cs
  end.
Definition first_image (cs : list Container) : string := from_option Ct_Image "" (head cs).
Definition ds_image (image : string) (ds : DaemonSet) : DaemonSet :=
  mkDaemonSet (Das_Name ds) (set_first_image image (Das_Containers ds)).

Definition capture_previous (prevImage desiredImage : string) (s : DriverUpgradeStateStatus) : DriverUpgradeStateStatus :=
  if bool_decide (Us_PreviousImage s = "") && negb (bool_decide (prevImage = "")) && negb (bool_decide (prevImage = desiredImage))
     && isVerifiedBuildTag prevImage
  then us_PreviousImage prevImage s else s.
Definition update_daemonset (ds : DaemonSet) (desiredImage : string) : UM () :=
  let prevImage := first_image (Das_Containers ds) in
  if bool_decide (Das_Containers ds = []) || bool_decide (prevImage = desiredImage) then mret ()
  else
    _ ← set_status (capture_previous prevImage desiredImage);
    p ← try (api (daemonset_patch ds (ds_image desiredImage ds)));
    match p with
    | inr e => throw (errorf_w "DaemonSet 이미지 업데이트 실패" e)
    | inl _ => mret ()
    end.
Definition restart_driver_pod (dsName : string) : UM () :=
  d ← the_state;
  p ← try (api (deleteDriverPodOnNode ns dsName (Dus_NodeName d)));
  match p with inr e => throw (errorf_w "드라이버 Pod 삭제 실패" e) | inl _ => mret () end.

(** [client.IgnoreNotFound(m.deleteInstallJob(ctx, &job))] *)
Definition delete_install_job (what jobName : string) : UM () :=
  x ← try (api (job_delete jobName));
  match x with
  | inr e => if is_not_found e then mret () else throw (errorf_w what e)
  | inl _ => mret ()
  end.
Definition create_job (what : string) (job : Job) : UM () :=
  x ← try (api (job_create job));
  match x with
  | inr e => if is_already_exists e then mret () else throw (errorf_w what e)
  | inl _ => mret ()
  end.

(** The image and version of the install Job; no image when a held restore has
    none to return to. *)
Definition job_target (policy : DriverInstallPolicy) (s : DriverUpgradeStateStatus) : option (string * string) :=
  let dv := Dip_Driver policy in
  let desiredImage := if bool_decide (Us_ResolvedImage s = "") then Ds_Image dv else Us_ResolvedImage s in
  let desiredVersion := if bool_decide (Us_DesiredVersion s = "") then Ds_Version dv else Us_DesiredVersion s in
  let held := Us_RolledBackVersion s in
  if negb (bool_decide (held = "")) && negb (bool_decide (desiredVersion = held)) then
    if bool_decide (Us_PreviousImage s = "") then None else Some (Us_PreviousImage s, desiredVersion)
  else Some (desiredImage, desiredVersion).

Definition handleUpgradingJob (policy : DriverInstallPolicy) : UM StepOut :=
  let dv := Dip_Driver policy in
  _ ← set_status (captureJobPreviousImage (Ds_Image dv) (Ds_Installer dv) (Ds_ImageVersionBaked dv));
  d ← the_state;
  match job_target policy (Dus_Status d) with
  | None => jobTransitionToFailed "복원 버전 이미지 재구성 실패(job): 수동 조치 필요"
  | Some (desiredImage, desiredVersion) =>
      let jobName := InstallJobName (Dus_Vendor d) (Dus_Model d) (Dus_NodeName d) in
      g ← try (api (job_get jobName));
      match g with
      | inr e =>
          if is_not_found e then
            _ ← create_job "install Job 생성 실패" (RenderInstallJob ns policy (Dus_NodeName d) desiredImage desiredVersion);
            transitionTo UpgradeStateValidating "install Job 생성" (20 * second)
          else throw (errorf_w "install Job 조회 실패" e)
      | inl job =>
          if negb (jobTargetsInstall job desiredImage desiredVersion) then
            _ ← delete_install_job "잔여 install Job 삭제 실패" (Job_Name job); mret (true, 5 * second)
          else transitionTo UpgradeStateValidating "install Job 재사용" (20 * second)
      end
  end.

Definition handleUpgrading (policy : DriverInstallPolicy) : UM StepOut :=
  if isJobMode policy then handleUpgradingJob policy
  else
    d ← the_state;
    let dsName := DriverDSName (Dus_Vendor d) (Dus_Model d) in
    g ← try (api (daemonset_get dsName));
    match g with
    | inr e => if is_not_found e then mret (true, 20 * second) else throw (errorf_w "DaemonSet 조회 실패" e)
    | inl ds =>
        _ ← update_daemonset ds (Ds_Image (Dip_Driver policy));
        _ ← restart_driver_pod dsName;
        transitionTo UpgradeStateValidating "DaemonSet 이미지 업데이트 완료" (20 * second)
    end.

(** *** Validating *)

(** The validators, and the end of the cycle when all pass. *)
Definition finish_validation (policy : DriverInstallPolicy) (msg : string) : UM StepOut :=
  d ← the_state;
  ok ← api (run_validators ns (validatorsFor policy) (Dus_NodeName d) (Dus_Vendor d) (Us_DesiredVersion (Dus_Status d)));
  if (ok : bool) then
    _ ← set_status (λ s, us_CurrentVersion (Us_DesiredVersion s) s);
    transitionTo UpgradeStateUncordoning msg 0
  else mret (true, 10 * second).

Definition validationTimeoutFailedMessage (d : DriverUpgradeState) : string :=
  let s := Dus_Status d in
  let msg := "검증 타임아웃(job): 수동 조치 필요 — 노드 드라이버가 목표 " +:+ Us_DesiredVersion s +:+ " 와 다르면 kubectl uncordon "
    +:+ Dus_NodeName d +:+ " 뒤 DriverInstallPolicy spec.driver.version 을 설치된 버전으로 맞추거나 allowDowngrade=true 로 두고, kubectl delete dus "
    +:+ Dus_Name d +:+ " 로 DriverUpgradeState 를 재생성한다(Failed 상태는 정책을 다시 읽지 않는다)" in
  if bool_decide (Us_Message s = "") then msg else msg +:+ ". 마지막 검증: " +:+ Us_Message s.

(** The instant the budget runs from: the Job's completion when it came later. *)
Definition budget_since (last : Z) (job : option Job) : Z :=
  match job ≫= Job_CompletionTime with
  | Some t => if time_after t last then t else last
  | None => last
  end.

Definition handleValidatingJob (policy : DriverInstallPolicy) : UM StepOut :=
  d ← the_state;
  _ ← try (api (EnsureUpgradingBlockingLabelRemoved (Dus_NodeName d)));
  g ← try (api (job_get (InstallJobName (Dus_Vendor d) (Dus_Model d) (Dus_NodeName d))));
  job ← match g with
        | inl job => mret (Some job)
        | inr e => if is_not_found e then mret None else throw (errorf_w "install Job 조회 실패" e)
        end;
  if from_option jobFailed false job then
    rollback_or_fail policy "install Job 실패: 롤백 시작" "install Job 실패(backoffLimit 소진): 수동 조치 필요"
  else if from_option (λ j, negb (jobComplete j)) false job then mret (true, 10 * second)
  else
    late ← older_than (budget_since (Us_LastTransitionTime (Dus_Status d)) job) (validation_timeout policy);
    if (late : bool) then rollback_or_fail policy "검증 타임아웃(job): 롤백 시작" (validationTimeoutFailedMessage d)
    else
      match job with
      | None => mret (true, 10 * second)
      | Some j =>
          restarted ← match Job_CompletionTime j with
                      | None => mret 0%nat
                      | Some t =>
                          r ← try (api (restartStaleDevicePluginPods (Dus_NodeName d) t));
                          match r with
                          | inr e => throw (errorf_w "stale device-plugin 재시작 실패" e)
                          | inl n => mret n
                          end
                      end;
          if Nat.ltb 0 restarted then mret (true, 10 * second)
          else finish_validation policy "검증 성공(job)"
      end.

Definition handleValidating (policy : DriverInstallPolicy) : UM StepOut :=
  if isJobMode policy then handleValidatingJob policy
  else
    d ← the_state;
    _ ← try (api (EnsureUpgradingBlockingLabelRemoved (Dus_NodeName d)));
    late ← older_than (Us_LastTransitionTime (Dus_Status d)) (validation_timeout policy);
    if (late : bool) then rollback_or_fail policy "검증 타임아웃: 롤백 시작" "검증 타임아웃: 수동 조치 필요"
    else
      r ← try (api (isDriverPodReadyOnNode ns (DriverDSName (Dus_Vendor d) (Dus_Model d)) (Dus_NodeName d) (Ds_Image (Dip_Driver policy))));
      match r with
      | inr e => throw (errorf_w "드라이버 Pod 상태 확인 실패" e)
      | inl pod =>
          let (ready, crashLoop) := pod : bool * bool in
          if crashLoop then
            rollback_or_fail policy "드라이버 Pod CrashLoopBackOff: 롤백 시작" "드라이버 Pod CrashLoopBackOff: 수동 조치 필요"
          else if negb ready then mret (true, 10 * second)
          else finish_validation policy "검증 성공"
      end.

(** The reboot branch in front of the validators. *)
Definition step_validating (policy : DriverInstallPolicy) : UM StepOut :=
  need ← try nodeNeedsReboot;
  match need with
  | inl true =>
      fresh ← rebootMarkerIsFresh;
      if (fresh : bool) then transitionTo UpgradeStateRebootRequired "커널 모듈 교체 위해 노드 재부팅 필요(needsReboot)" 0
      else handleValidating policy
  | _ => handleValidating policy
  end.

(** *** Rebooting *)

Definition count_reboot (now : Z) (s : DriverUpgradeStateStatus) : DriverUpgradeStateStatus :=
  us_RebootRequestedTime now (us_RebootAttempts (wrap32 (Us_RebootAttempts s + 1)) s).

Definition handleRebootRequired (policy : DriverInstallPolicy) : UM StepOut :=
  need ← nodeNeedsReboot;
  if negb (need : bool) then transitionTo UpgradeStateValidating "needsReboot 해소 — 검증으로 복귀" 0
  else if bool_decide (Dip_RebootExecutor policy = "kured") then mret (true, 60 * second)
  else
    now ← api read_clock;
    _ ← set_status (count_reboot now);
    d ← the_state;
    if maxReboots policy <? Us_RebootAttempts (Dus_Status d) then
      transitionTo UpgradeStateFailed "재부팅 한도 초과: 수동 조치 필요" 0
    else
      g ← try (api (node_get (Dus_NodeName d)));
      _ ← set_status (us_RebootBootID (match g with inl node => Node_BootID node | inr _ => "" end));
      u ← try update_status;
      match u with
      | inr e => throw (errorf_w "bootID persist 실패(재부팅 전 필수)" e)
      | inl _ =>
          _ ← create_job "reboot Job 생성 실패" (RenderRebootJob ns policy (Dus_NodeName d) (Ds_Image (Dip_Driver policy)));
          transitionTo UpgradeStateRebooting "재부팅 트리거 완료" (30 * second)
      end.

Definition handleRebooting (policy : DriverInstallPolicy) : UM StepOut :=
  d ← the_state;
  let s := Dus_Status d in
  late ← older_than (Us_RebootRequestedTime s) (reboot_timeout policy);
  if (late : bool) then transitionTo UpgradeStateFailed "재부팅 타임아웃: 수동 조치 필요" 0
  else
    g ← try (api (node_get (Dus_NodeName d)));
    match g with
    | inr _ => mret (true, 30 * second)
    | inl node =>
        if negb (isNodeReady node) then mret (true, 15 * second)
        else if negb (bool_decide (Us_RebootBootID s = "")) && bool_decide (Node_BootID node = Us_RebootBootID s) then
          mret (true, 15 * second)
        else
          _ ← try (api (job_delete (InstallJobName (Dus_Vendor d) (Dus_Model d) (Dus_NodeName d))));
          transitionTo UpgradeStateUpgrading "재부팅 후 Ready — 재설치로 재수렴" 0
    end.

(** *** Uncordoning *)

Definition handleUncordoning : UM StepOut :=
  d ← the_state;
  u ← try (api (uncordonNode (Dus_NodeName d) (Dus_Name d)));
  match u with
  | inr e => throw (errorf_w "노드 uncordon 실패" e)
  | inl _ =>
      _ ← try RestoreQuiescedDeployments;
      s ← the_status;
      let v := Us_RolledBackVersion s in
      if negb (bool_decide (v = "")) then
        if Us_RollbackAttempts s =? 0 then
          transitionTo UpgradeStateIdle
            ("자체 복구 완료(롤백 보류 유지): 보류 목표 " +:+ v +:+ " 대신 " +:+ Us_DesiredVersion s +:+ " 재설치") 0
        else transitionTo UpgradeStateIdle ("롤백 완료: " +:+ v +:+ " 대신 " +:+ Us_DesiredVersion s +:+ " 로 복원") 0
      else transitionTo UpgradeStateIdle "업그레이드 완료" 0
  end.

(** *** Failed *)

Definition failedStateRecovered : UM bool :=
  d ← the_state;
  let desired := Us_DesiredVersion (Dus_Status d) in
  if bool_decide (desired = "") then mret false
  else
    g ← try (api (report_get (Dus_NodeName d)));
    match g with
    | inr e => if is_not_found e then mret false else throw e
    | inl ndr =>
        let ds := matching_devices (Dus_Vendor d) (Dus_Model d) (Ndr_Devices ndr) in
        mret (forallb (λ e, De_DriverLoaded e && bool_decide (De_DriverVersion e = desired)) ds
              && negb (bool_decide (length ds = 0%nat))
              && negb (driverModuleStepFailed (Ndr_Validation ndr) (validationVendorKey (Dus_Vendor d) (Dus_Model d))))
    end.

Definition reap_or_throw (owner : string) (node : Node) : UM Node :=
  r ← try (api (reapStaleCordonClaim owner node));
  match r with inr e => throw (errorf_w "stale cordon claim 정리 실패" e) | inl n => mret n end.

Definition failed_recover : UM StepOut :=
  _ ← set_status (λ s, us_CurrentVersion (Us_DesiredVersion s) (resetRebootTracking (us_RollbackAttempts 0 s)));
  d ← the_state;
  g ← try (api (node_get (Dus_NodeName d)));
  _ ← match g with
      | inr _ => mret ()
      | inl node =>
          node ← reap_or_throw (Dus_Name d) node;
          if Node_Unschedulable node && owns_cordon (Dus_Name d) node then
            u ← try (api (uncordonNode (Dus_NodeName d) (Dus_Name d)));
            match u with inr e => throw (errorf_w "복구 탈출 중 노드 uncordon 실패" e) | inl _ => mret () end
          else mret ()
      end;
  transitionTo UpgradeStateIdle
    ("복구 확인(" +:+ Us_DesiredVersion (Dus_Status d) +:+ "): 목표 버전 도달·드라이버 로드") (60 * second).

(** The node without our cordon and its mark. *)
Definition release_patch (node : Node) : Node :=
  node_annotations (delete cordonOwnerAnnotationKey) (node_unschedulable false node).

Definition failed_release (node : Node) : UM StepOut :=
  d ← the_state;
  let (stillAdvertised, decidable) := vendorStillAdvertised node (Dus_Vendor d) in
  if negb decidable || negb (bool_decide (stillAdvertised = "")) then mret (true, failedCordonRecheckInterval)
  else
    p ← try (api (node_patch node (release_patch node)));
    match p with
    | inr e => throw (errorf_w "터미널 Failed 상태의 cordon 해제 실패" e)
    | inl _ =>
        _ ← set_status (λ s, us_Message (Us_Message s +:+ " / cordon 해제됨(" +:+ Dus_Vendor d
                                           +:+ " 광고 0, 다른 벤더 배치 복구)") s);
        mret (false, 0)
    end.

Definition handleFailed : UM StepOut :=
  recovered ← failedStateRecovered;
  if (recovered : bool) then failed_recover
  else
    d ← the_state;
    g ← try (api (node_get (Dus_NodeName d)));
    match g with
    | inr e => if is_not_found e then mret (false, 0) else throw e
    | inl node =>
        node ← reap_or_throw (Dus_Name d) node;
        if negb (Node_Unschedulable node) || negb (owns_cordon (Dus_Name d) node) then mret (false, 0)
        else failed_release node
    end.

(** *** Rollback *)

Definition count_rollback (s : DriverUpgradeStateStatus) : DriverUpgradeStateStatus :=
  us_RollbackAttempts (wrap32 (Us_RollbackAttempts s + 1)) s.
Definition rollback_target (policy : DriverInstallPolicy) : string :=
  from_option Up_RollbackTarget "" (Dip_UpgradePolicy policy).

(** The image composed of the previous version and the variant of the policy's
    image; empty when there is none. *)
Definition variant_image (dipImage prevVersion : string) : string :=
  let variant := extractImageVariantSuffix dipImage in
  if bool_decide (dipImage = "") || bool_decide (variant = "") then ""
  else match cut_last ":" dipImage with
       | Some (repo, _) => repo +:+ ":" +:+ prevVersion +:+ variant
       | None => ""
       end.
Definition rollback_image (prevImage prevVersion : string) (cs : list Container) : string :=
  if bool_decide (prevImage = "") then replaceImageTag (first_image cs) prevVersion else prevImage.

(** The previous version's image put into the DaemonSet. *)
Definition rollback_daemonset (policy : DriverInstallPolicy) (prevVersion prevImage dsName : string) (ds : DaemonSet) : UM StepOut :=
  let prevImage := if bool_decide (prevImage = "") then variant_image (Ds_Image (Dip_Driver policy)) prevVersion else prevImage in
  p ← try (api (daemonset_patch ds (ds_image (rollback_image prevImage prevVersion (Das_Containers ds)) ds)));
  match p with
  | inr e => throw (errorf_w "DaemonSet 롤백 이미지 패치 실패" e)
  | inl _ =>
      _ ← restart_driver_pod dsName;
      _ ← set_status (us_DesiredVersion prevVersion);
      transitionTo UpgradeStateValidating ("롤백 시작: " +:+ prevVersion) (20 * second)
  end.

Definition handleRollbackJob (policy : DriverInstallPolicy) : UM StepOut :=
  s0 ← the_status;
  let prevVersion := Us_PreviousVersion s0 in
  let dv := Dip_Driver policy in
  if bool_decide (prevVersion = "") then jobTransitionToFailed "이전 버전 없음(job): 수동 조치 필요"
  else
    _ ← set_status (markRolledBack policy);
    d ← the_state;
    let prevImage := if bool_decide (Us_PreviousImage (Dus_Status d) = "")
                     then reconstructPrevImage (Ds_Image dv) (Ds_Installer dv) prevVersion (Ds_ImageVersionBaked dv)
                     else Us_PreviousImage (Dus_Status d) in
    if bool_decide (prevImage = "") then jobTransitionToFailed "rollback 대상 이미지 재구성 실패(job): 수동 조치 필요"
    else
      let jobName := InstallJobName (Dus_Vendor d) (Dus_Model d) (Dus_NodeName d) in
      g ← try (api (job_get jobName));
      match g with
      | inl job =>
          if jobTargetsInstall job prevImage prevVersion then
            if jobFailed job then
              _ ← delete_install_job "실패한 rollback Job 삭제 실패" (Job_Name job); mret (true, 5 * second)
            else
              _ ← set_status (us_DesiredVersion prevVersion);
              transitionTo UpgradeStateValidating ("rollback Job 진행(job): " +:+ prevVersion) (20 * second)
          else
            _ ← delete_install_job "rollback: 잔여 install Job 삭제 실패" (Job_Name job); mret (true, 5 * second)
      | inr e =>
          if negb (is_not_found e) then throw (errorf_w "rollback: install Job 조회 실패" e)
          else
            _ ← set_status count_rollback;
            s ← the_status;
            if maxRollbacks policy <? Us_RollbackAttempts s then
              jobTransitionToFailed ("롤백 " +:+ sprint_Z (maxRollbacks policy) +:+ "회 초과: 수동 조치 필요")
            else
              _ ← create_job "rollback install Job 생성 실패" (RenderRollbackJob ns policy (Dus_NodeName d) prevImage prevVersion);
              _ ← set_status (us_DesiredVersion prevVersion);
              transitionTo UpgradeStateValidating ("롤백 시작(job): " +:+ prevVersion) (20 * second)
      end.

Definition handleRollback (policy : DriverInstallPolicy) : UM StepOut :=
  if isJobMode policy then handleRollbackJob policy
  else
    _ ← set_status count_rollback;
    s ← the_status;
    if maxRollbacks policy <? Us_RollbackAttempts s then
      jobTransitionToFailed ("롤백 " +:+ sprint_Z (maxRollbacks policy) +:+ "회 초과: 수동 조치 필요")
    else
      let prevVersion := Us_PreviousVersion s in
      if bool_decide (prevVersion = "") then jobTransitionToFailed "이전 버전 없음: 수동 조치 필요"
      else
        _ ← set_status (markRolledBack policy);
        u ← try update_status;
        match u with
        | inr e => throw (errorf_w "롤백 보류 기록 저장 실패" e)
        | inl _ =>
            d ← the_state;
            let dsName := DriverDSName (Dus_Vendor d) (Dus_Model d) in
            g ← try (api (daemonset_get dsName));
            match g with
            | inr e => throw (errorf_w "DaemonSet 조회 실패" e)
            | inl ds =>
                let prevImage := Us_PreviousImage (Dus_Status d) in
                if bool_decide (prevImage = "") && bool_decide (rollback_target policy = "previousValidated") then
                  jobTransitionToFailed "RollbackTarget=previousValidated: PreviousImage 미보유로 안전 롤백 불가"
                else rollback_daemonset policy prevVersion prevImage dsName ds
            end
        end.

(** *** TransitionState *)

Definition handle_state (policy : DriverInstallPolicy) : UM StepOut :=
  s ← the_status;
  let state := Us_State s in
  if bool_decide (state = "") || bool_decide (state = UpgradeStateIdle) then handleIdle policy
  else if bool_decide (state = UpgradeStateRequired) then handleUpgradeRequired policy
  else if bool_decide (state = UpgradeStatePreFlight) then handlePreFlight policy
  else if bool_decide (state = UpgradeStateCordoning) then handleCordoning
  else if bool_decide (state = UpgradeStateDraining) then handleDraining policy
  else if bool_decide (state = UpgradeStateUpgrading) then handleUpgrading policy
  else if bool_decide (state = UpgradeStateValidating) then step_validating policy
  else if bool_decide (state = UpgradeStateRebootRequired) then handleRebootRequired policy
  else if bool_decide (state = UpgradeStateRebooting) then handleRebooting policy
  else if bool_decide (state = UpgradeStateUncordoning) then handleUncordoning
  else if bool_decide (state = UpgradeStateRollback) then handleRollback policy
  else if bool_decide (state = UpgradeStateFailed) then handleFailed
  else if bool_decide (state = UpgradeStateHostAhead) then handleHostAhead policy
  else if bool_decide (state = UpgradeStateUnverifiedVersion) then handleUnverifiedVersion policy
  else transitionTo UpgradeStateIdle "알 수 없는 상태 리셋" (60 * second).

(** A previous image that is no verified build is dropped, and stored. *)
Definition clear_broken_previous : UM () :=
  s ← the_status;
  if negb (bool_decide (Us_PreviousImage s = "")) && negb (isVerifiedBuildTag (Us_PreviousImage s)) then
    _ ← set_status (us_PreviousImage ""); update_status
  else mret ().

Definition accept_rollback (requestedAt : string) : UM StepOut :=
  _ ← set_status (us_ConsumedRollbackRequest requestedAt);
  r ← transitionTo UpgradeStateRollback ("관리자 요청 롤백(" +:+ requestedAt +:+ ")") 0;
  _ ← update_status;
  _ ← try clearRollbackRequest;
  mret r.

(** The rollback that the annotation asks for, or the state's handler. *)
Definition consume_request (policy : DriverInstallPolicy) : UM StepOut :=
  d ← the_state;
  match Dus_Annotations d !! RollbackRequestedAnnotation with
  | None => handle_state policy
  | Some requestedAt =>
      if bool_decide (requestedAt = Us_ConsumedRollbackRequest (Dus_Status d)) then
        _ ← try clearRollbackRequest; handle_state policy
      else if RollbackRequestAccepted (Us_State (Dus_Status d)) then accept_rollback requestedAt
      else if bool_decide (Us_State (Dus_Status d) = UpgradeStateRollback) then
        _ ← try clearRollbackRequest; handle_state policy
      else handle_state policy
  end.
Definition TransitionState (policy : DriverInstallPolicy) : UM StepOut :=
  _ ← clear_broken_previous; consume_request policy.
End Machine.
