(* ===== verification/UpgradeSpec.v ===== *)
(** * The driver upgrade, abstractly: its control graph and what each state may write

    [ctl_step] is the abstract machine of one upgrade cycle: the state, the two
    attempt counters, and nothing else.  [allowed_write] says, per state, which
    writes a pass may send to the cluster.  [UpgradeEffects] proves that every
    handler keeps to both; here are the two specifications and the rules that
    walk a handler. *)

From S2P Require Import Prelude GoStrings GoTime Naming ApiTypes PolicyTypes UpgradeTypes IntentResources DriverJob DriverImage DraClaim Validators UpgradeNode UpgradeMachine.

(** ** The control graph *)

Record Ctl := mkCtl { c_state : string; c_rollbacks : Z; c_reboots : Z }.
Definition ctl_of (d : DriverUpgradeState) : Ctl :=
  let s := Dus_Status d in mkCtl (Us_State s) (Us_RollbackAttempts s) (Us_RebootAttempts s).

(** The moves that leave the counters alone. *)
Definition plain_edges : list (string * string) :=
  [("", UpgradeStateIdle);
   ("", UpgradeStateHostAhead); (UpgradeStateIdle, UpgradeStateHostAhead);
   ("", UpgradeStateUnverifiedVersion); (UpgradeStateIdle, UpgradeStateUnverifiedVersion);
   (UpgradeStateHostAhead, UpgradeStateIdle); (UpgradeStateUnverifiedVersion, UpgradeStateIdle);
   (UpgradeStateRequired, UpgradeStatePreFlight);
   (UpgradeStatePreFlight, UpgradeStateCordoning); (UpgradeStatePreFlight, UpgradeStateRollback);
   (UpgradeStateCordoning, UpgradeStateDraining);
   (UpgradeStateDraining, UpgradeStateUpgrading); (UpgradeStateDraining, UpgradeStateRollback);
   (UpgradeStateDraining, UpgradeStateFailed);
   (UpgradeStateUpgrading, UpgradeStateValidating); (UpgradeStateUpgrading, UpgradeStateFailed);
   (UpgradeStateValidating, UpgradeStateUncordoning); (UpgradeStateValidating, UpgradeStateRebootRequired);
   (UpgradeStateValidating, UpgradeStateRollback); (UpgradeStateValidating, UpgradeStateFailed);
   (UpgradeStateRebootRequired, UpgradeStateValidating);
   (UpgradeStateRebooting, UpgradeStateUpgrading); (UpgradeStateRebooting, UpgradeStateFailed);
   (UpgradeStateUncordoning, UpgradeStateIdle)].
Definition known_states : list string :=
  ["" ; UpgradeStateIdle; UpgradeStateRequired; UpgradeStatePreFlight; UpgradeStateCordoning; UpgradeStateDraining;
   UpgradeStateUpgrading; UpgradeStateValidating; UpgradeStateUncordoning; UpgradeStateRollback; UpgradeStateFailed;
   UpgradeStateUnverifiedVersion; UpgradeStateHostAhead; UpgradeStateRebootRequired; UpgradeStateRebooting].

(** What happened to the counters in a pass.  [Uncounted] is a pass in Rollback
    that counts nothing, which only the Job mode has: there the attempt is
    counted when its install Job is created. *)
Inductive Label := Quiet | Opened | Recovered | RollbackTry | Uncounted | RebootTry | Admin.
#[export] Instance Label_eq_dec : EqDecision Label.
Proof. solve_decision. Defined.

Section Ctl.
Context (jobMode : bool) (maxRollback maxReboot : Z).

Inductive ctl_step : Label → Ctl → Ctl → Prop :=
| step_stay c : c_state c ≠ UpgradeStateRollback → ctl_step Quiet c c
| step_plain s s' a b : (s, s') ∈ plain_edges → ctl_step Quiet (mkCtl s a b) (mkCtl s' a b)
| step_reset s a b : s ∉ known_states → ctl_step Quiet (mkCtl s a b) (mkCtl UpgradeStateIdle a b)
| step_open s a b : s ∈ ["" ; UpgradeStateIdle] → ctl_step Opened (mkCtl s a b) (mkCtl UpgradeStateRequired 0 0)
| step_recover s' a b : s' ∈ [UpgradeStateFailed; UpgradeStateIdle] →
    ctl_step Recovered (mkCtl UpgradeStateFailed a b) (mkCtl s' 0 0)
| step_admin s a b : RollbackRequestAccepted s = true → ctl_step Admin (mkCtl s a b) (mkCtl UpgradeStateRollback a b)
| step_rollback s' a b : wrap32 (a + 1) <= maxRollback → s' ∈ [UpgradeStateRollback; UpgradeStateValidating; UpgradeStateFailed] →
    ctl_step RollbackTry (mkCtl UpgradeStateRollback a b) (mkCtl s' (wrap32 (a + 1)) b)
| step_rollback_exhausted a b : maxRollback < wrap32 (a + 1) →
    ctl_step RollbackTry (mkCtl UpgradeStateRollback a b) (mkCtl UpgradeStateFailed (wrap32 (a + 1)) b)
| step_uncounted s' a b : jobMode = true → s' ∈ [UpgradeStateRollback; UpgradeStateValidating; UpgradeStateFailed] →
    ctl_step Uncounted (mkCtl UpgradeStateRollback a b) (mkCtl s' a b)
| step_reboot s' a b : wrap32 (b + 1) <= maxReboot → s' ∈ [UpgradeStateRebootRequired; UpgradeStateRebooting] →
    ctl_step RebootTry (mkCtl UpgradeStateRebootRequired a b) (mkCtl s' a (wrap32 (b + 1)))
| step_reboot_exhausted a b : maxReboot < wrap32 (b + 1) →
    ctl_step RebootTry (mkCtl UpgradeStateRebootRequired a b) (mkCtl UpgradeStateFailed a (wrap32 (b + 1))).
End Ctl.

(** ** Writes *)

Inductive Write :=
| WNode (n n' : Node)
| WStatus (d : DriverUpgradeState)
| WMeta (d d' : DriverUpgradeState)
| WPodCreate (p : Pod)
| WPodDelete (p : Pod)
| WPodEvict (p : Pod)
| WDeployment (d d' : Deployment)
| WDaemonSet (d d' : DaemonSet)
| WJobCreate (j : Job)
| WJobDelete (name : string).

Definition failing_states : list string :=
  [UpgradeStateDraining; UpgradeStateUpgrading; UpgradeStateValidating; UpgradeStateRollback].

(** The writes a pass that starts in [d] may send. *)
Definition allowed_write `{MapRange} (ns : string) (policy : DriverInstallPolicy) (d : DriverUpgradeState) (wr : Write) : Prop :=
  let st := Us_State (Dus_Status d) in
  let node := Dus_NodeName d in
  let owner := Dus_Name d in
  match wr with
  | WNode n n' =>
      (st = UpgradeStateCordoning ∧ cordon_patch owner n = Some n')
      ∨ (st = UpgradeStateValidating ∧ drop_label_patch driverUpgradingBlockingLabelKey n = Some n')
      ∨ (st = UpgradeStateUncordoning ∧ uncordon_patch owner n = Some n')
      ∨ (st ∈ failing_states ∧ clear_labels_patch n = Some n')
      ∨ (st = UpgradeStateFailed ∧
         (reap_patch owner n = Some n' ∨ uncordon_patch owner n = Some n'
          ∨ (Node_Unschedulable n = true ∧ owns_cordon owner n = true
             ∧ vendorStillAdvertised n (Dus_Vendor d) = ("", true) ∧ n' = release_patch n)))
  | WStatus d' => Dus_Name d' = Dus_Name d ∧ Dus_NodeName d' = node
  | WMeta a b => b = dus_annotations (delete RollbackRequestedAnnotation (Dus_Annotations a)) a
  | WPodCreate p =>
      st = UpgradeStateValidating ∧ ∃ wp, Dip_WorkloadProbe policy = Some wp ∧ Wp_Enabled wp = true
        ∧ p = probePod wp ns (probePodName (Dus_Vendor d) node (Us_DesiredVersion (Dus_Status d))) node
                (Dus_Vendor d) (Us_DesiredVersion (Dus_Status d))
  | WPodDelete p =>
      (st = UpgradeStateDraining ∧ Pod_NodeName p = node
         ∧ (device_plugin_pod p = true ∨ drain_target node p = true ∧
            ∃ up, Dip_UpgradePolicy policy = Some up ∧ Up_ForceUpgrade up = true))
      ∨ (st ∈ [UpgradeStateUpgrading; UpgradeStateRollback] ∧ isJobMode policy = false ∧ Pod_NodeName p = node
         ∧ owned_by_daemonset (DriverDSName (Dus_Vendor d) (Dus_Model d)) p = true)
      ∨ (st = UpgradeStateValidating ∧ isJobMode policy = true ∧ Pod_NodeName p = node ∧ device_plugin_pod p = true)
      ∨ (st = UpgradeStateValidating ∧ ∃ wp, Dip_WorkloadProbe policy = Some wp ∧ Wp_Enabled wp = true)
  | WPodEvict p => st = UpgradeStateDraining ∧ drain_target node p = true
  | WDeployment a b =>
      (st = UpgradeStateCordoning ∧ ∃ r, quiesce_patch node a = Some (b, r))
      ∨ (st ∈ UpgradeStateUncordoning :: failing_states ∧ ∃ r, b = restore_patch r a)
  | WDaemonSet a b =>
      st ∈ [UpgradeStateUpgrading; UpgradeStateRollback] ∧ isJobMode policy = false ∧ ∃ image, b = ds_image image a
  | WJobCreate j =>
      (st = UpgradeStateUpgrading ∧ isJobMode policy = true ∧ ∃ image version, j = RenderInstallJob ns policy node image version)
      ∨ (st = UpgradeStateRollback ∧ isJobMode policy = true
         ∧ wrap32 (Us_RollbackAttempts (Dus_Status d) + 1) <= maxRollbacks policy
         ∧ ∃ image, image ≠ "" ∧ Us_PreviousVersion (Dus_Status d) ≠ ""
             ∧ j = RenderRollbackJob ns policy node image (Us_PreviousVersion (Dus_Status d)))
      ∨ (st = UpgradeStateRebootRequired ∧ wrap32 (Us_RebootAttempts (Dus_Status d) + 1) <= maxReboots policy
         ∧ j = RenderRebootJob ns policy node (Ds_Image (Dip_Driver policy)))
  | WJobDelete name =>
      (st ∈ [UpgradeStateUpgrading; UpgradeStateRollback] ∧ isJobMode policy = true)
      ∨ (st = UpgradeStateRebooting ∧ name = InstallJobName (Dus_Vendor d) (Dus_Model d) node)
  end.

(** States in which a pass touches nothing but its own object. *)
Definition quiet_state (st : string) : Prop :=
  st ∉ [UpgradeStateCordoning; UpgradeStateDraining; UpgradeStateUpgrading; UpgradeStateValidating;
        UpgradeStateUncordoning; UpgradeStateRollback; UpgradeStateFailed; UpgradeStateRebootRequired; UpgradeStateRebooting].

(** ** Invariants of the world *)

Section World.
Context {W : Type} `{UpgradeAPI W} `{Clock W}.

(** Every write as the call that sends it, its answer dropped. *)
Definition send (wr : Write) (w : W) : W :=
  match wr with
  | WNode n n' => (node_patch n n' w).2
  | WStatus d => (dus_status_update d w).2
  | WMeta d d' => (dus_patch d d' w).2
  | WPodCreate p => (pod_create p w).2
  | WPodDelete p => (pod_delete p w).2
  | WPodEvict p => (pod_evict p w).2
  | WDeployment d d' => (deployment_patch d d' w).2
  | WDaemonSet d d' => (daemonset_patch d d' w).2
  | WJobCreate j => (job_create j w).2
  | WJobDelete name => (job_delete name w).2
  end.

(** [I] survives everything that is not a write. *)
Class ReadOnly (I : W → Prop) := {
  ro_node_get n w : I w → I (node_get n w).2;
  ro_report_get n w : I w → I (report_get n w).2;
  ro_dus_list w : I w → I (dus_list w).2;
  ro_pod_list w : I w → I (pod_list w).2;
  ro_pod_get a b w : I w → I (pod_get a b w).2;
  ro_deployment_list w : I w → I (deployment_list w).2;
  ro_deployment_get a b w : I w → I (deployment_get a b w).2;
  ro_daemonset_get n w : I w → I (daemonset_get n w).2;
  ro_job_get n w : I w → I (job_get n w).2;
  ro_claim_list w : I w → I (claim_list w).2;
  ro_clock w : I w → I (time_now w).2;
}.
Definition sends (I : W → Prop) (wr : Write) : Prop := ∀ w, I w → I (send wr w).
Definition safe {A} (I : W → Prop) (m : M W A) : Prop := ∀ w, I w → wp m (λ _ w', I w') w.

(** ** Why a pass may leave the counters alone *)

(** A previous image that is no verified build is dropped before anything else. *)
Definition without_broken (d : DriverUpgradeState) : DriverUpgradeState :=
  if negb (bool_decide (Us_PreviousImage (Dus_Status d) = "")) && negb (isVerifiedBuildTag (Us_PreviousImage (Dus_Status d)))
  then dus_status (us_PreviousImage "") d else d.

(** What a Job-mode rollback installs: the captured image, or the one made from
    the policy's with the previous version. *)
Definition rollback_job_image (policy : DriverInstallPolicy) (d : DriverUpgradeState) : string :=
  let s := Dus_Status d in
  let dv := Dip_Driver policy in
  if bool_decide (Us_PreviousImage s = "")
  then reconstructPrevImage (Ds_Image dv) (Ds_Installer dv) (Us_PreviousVersion s) (Ds_ImageVersionBaked dv)
  else Us_PreviousImage s.
Definition returns_somewhere (policy : DriverInstallPolicy) (d : DriverUpgradeState) : Prop :=
  Us_PreviousVersion (Dus_Status d) ≠ "" ∧ rollback_job_image policy d ≠ "".

(** The three things a Job-mode pass in Rollback may find instead of an attempt
    to make, by the answer to its question for the install Job, each with the
    state it goes to. *)
Inductive uncounted (policy : DriverInstallPolicy) (d : DriverUpgradeState) (answered : Job + GoErr → Prop) : string → Prop :=
| uncounted_nowhere : ¬ returns_somewhere policy d → uncounted policy d answered UpgradeStateFailed
| uncounted_running job : returns_somewhere policy d → answered (inl job) →
    jobTargetsInstall job (rollback_job_image policy d) (Us_PreviousVersion (Dus_Status d)) = true → jobFailed job = false →
    uncounted policy d answered UpgradeStateValidating
| uncounted_leftover job : returns_somewhere policy d → answered (inl job) →
    jobTargetsInstall job (rollback_job_image policy d) (Us_PreviousVersion (Dus_Status d)) = false ∨ jobFailed job = true →
    uncounted policy d answered UpgradeStateRollback
| uncounted_unread e : returns_somewhere policy d → answered (inr e) → is_not_found e = false →
    uncounted policy d answered UpgradeStateRollback.

(** An answer given in a state of the world that [I] describes. *)
Definition answered {A} (I : W → Prop) (m : M W A) (a : A + GoErr) : Prop := ∃ w, I w ∧ (m w).1 = a.

(** What the label of a step stands on: the answers the pass received. *)
Definition justified (I : W → Prop) (policy : DriverInstallPolicy) (d : DriverUpgradeState) (l : Label) (next : string) : Prop :=
  let job := answered I (job_get (InstallJobName (Dus_Vendor d) (Dus_Model d) (Dus_NodeName d))) in
  match l with
  | Quiet =>
      Us_State (Dus_Status d) = UpgradeStateRebootRequired → next = UpgradeStateRebootRequired →
      Dip_RebootExecutor policy = "kured" ∨ ∃ e, answered I (report_get (Dus_NodeName d)) (inr e)
  | RollbackTry =>
      isJobMode policy = true → returns_somewhere policy d ∧ ∃ e, job (inr e) ∧ is_not_found e = true
  | Uncounted => uncounted policy d job next
  | _ => True
  end.
End World.
