(* ===== verification/UpgradeEffects.v ===== *)
(** * Every pass keeps to the control graph and to its state's writes

    One lemma per handler, walked with the rules of [UpgradeSpec]; the two
    specifications are proved together, for any invariant of the world that the
    allowed writes keep. *)

From S2P Require Import Prelude GoStrings GoTime GoText Naming ApiTypes PolicyTypes IntentResources UpgradeTypes DriverJob DriverImage DraClaim Validators UpgradeNode UpgradeMachine UpgradeSpec.

Create HintDb safe discriminated.

Section Safe.
Context {W : Type} `{UpgradeAPI W} `{Clock W} `{MapRange} `{Requirements}.
Context (I : W → Prop) `{!ReadOnly I}.

Lemma safe_use {A} (m : M W A) (Q : A + GoErr → W → Prop) w :
  safe I m → I w → (∀ r w', I w' → Q r w') → wp m Q w.
Proof. intros Hm HI HQ. eapply wp_mono; [by apply Hm|]. auto. Qed.

Lemma safe_ret {A} (a : A) : safe I (mret a).
Proof. by intros w. Qed.
Lemma safe_throw {A} e : safe I (throw e : M W A).
Proof. by intros w. Qed.
Lemma safe_bind {A B} (m : M W A) (f : A → M W B) : safe I m → (∀ a, safe I (f a)) → safe I (m ≫= f).
Proof.
  intros Hm Hf w HI. apply wp_bind. eapply wp_mono; [by apply Hm|]. intros [a|e] w' HI'; [by apply Hf|done].
Qed.
Lemma safe_fmap {A B} (f : A → B) (m : M W A) : safe I m → safe I (f <$> m).
Proof. intros Hm w HI. apply wp_fmap. eapply wp_mono; [by apply Hm|]. by intros [] ?. Qed.
Lemma safe_try {A} (m : M W A) : safe I m → safe I (try m).
Proof. intros Hm w HI. apply wp_try. by apply Hm. Qed.
Lemma safe_for_each {A} (f : A → M W ()) l : (∀ x, safe I (f x)) → safe I (for_each f l).
Proof. intros Hf w HI. apply (wp_for_each I); [|done]. intros x s _ ?. by apply Hf. Qed.
Lemma safe_clock : safe I read_clock.
Proof.
  intros w HI. unfold wp, read_clock. pose proof (ro_clock w HI) as Hc. destruct (time_now w). done.
Qed.
Lemma safe_send {A} (m : M W A) wr : sends I wr → (∀ w, (m w).2 = send wr w) → safe I m.
Proof. intros Hs Hm w HI. unfold wp. rewrite Hm. by apply Hs. Qed.

Lemma safe_node_get n : safe I (node_get n).
Proof. exact (ro_node_get n). Qed.
Lemma safe_report_get n : safe I (report_get n).
Proof. exact (ro_report_get n). Qed.
Lemma safe_dus_list : safe I dus_list.
Proof. exact ro_dus_list. Qed.
Lemma safe_pod_list : safe I pod_list.
Proof. exact ro_pod_list. Qed.
Lemma safe_pod_get a b : safe I (pod_get a b).
Proof. exact (ro_pod_get a b). Qed.
Lemma safe_deployment_list : safe I deployment_list.
Proof. exact ro_deployment_list. Qed.
Lemma safe_deployment_get a b : safe I (deployment_get a b).
Proof. exact (ro_deployment_get a b). Qed.
Lemma safe_daemonset_get n : safe I (daemonset_get n).
Proof. exact (ro_daemonset_get n). Qed.
Lemma safe_job_get n : safe I (job_get n).
Proof. exact (ro_job_get n). Qed.
Lemma safe_claim_list : safe I claim_list.
Proof. exact ro_claim_list. Qed.
End Safe.
#[export] Hint Resolve safe_ret safe_throw safe_bind safe_fmap safe_try safe_clock safe_node_get safe_report_get
  safe_dus_list safe_pod_list safe_pod_get safe_deployment_list safe_deployment_get safe_daemonset_get safe_job_get
  safe_claim_list : safe.

(** Splits the branches of a computation on the cluster down to calls. *)
Ltac safe_step :=
  lazymatch goal with
  | |- safe _ (if ?b then _ else _) => destruct b eqn:?
  | |- safe _ (match ?x with _ => _ end) => destruct x eqn:?
  | |- safe _ (mbind _ _) => apply safe_bind; [|intros ?]
  | |- safe _ (fmap _ _) => apply safe_fmap
  | |- safe _ (try _) => apply safe_try
  | |- safe _ (for_each _ _) => apply safe_for_each; intros ?
  | |- safe _ _ => solve [eauto 3 with safe]
  end.
Ltac safe_tac := repeat safe_step.

Section SafeOps.
Context {W : Type} `{UpgradeAPI W} `{Clock W} `{MapRange} `{Requirements}.
Context (I : W → Prop) `{!ReadOnly I}.

Lemma safe_patch_node n p : (∀ n', p = Some n' → sends I (WNode n n')) → safe I (patch_node n p).
Proof. intros Hs. unfold patch_node. destruct p as [n'|]; [|safe_tac]. (eapply safe_send; [by apply (Hs n')|done]). Qed.
Lemma safe_node_op nodeName (f : Node → option Node) :
  (∀ n n', f n = Some n' → sends I (WNode n n')) →
  safe I (n ← node_get nodeName; patch_node n (f n)).
Proof. intros Hs. safe_step; [safe_tac|]. apply safe_patch_node. eauto. Qed.
Lemma safe_label nodeName key :
  (∀ n n', drop_label_patch key n = Some n' → sends I (WNode n n')) → safe I (ensureLabelRemoved nodeName key).
Proof.
  intros Hs. unfold ensureLabelRemoved. generalize (errorf "") as e. generalize 3%nat as k.
  induction k as [|k IH]; intros e; simpl; [safe_tac|].
  safe_step; [safe_tac|]. safe_step; [|safe_tac].
  safe_step; [apply safe_try, safe_patch_node; eauto|]. safe_tac.
Qed.
Lemma safe_reap owner n : (∀ n', reap_patch owner n = Some n' → sends I (WNode n n')) → safe I (reapStaleCordonClaim owner n).
Proof.
  intros Hs. unfold reapStaleCordonClaim. destruct (reap_patch owner n) as [n'|]; [|safe_tac].
  safe_step; [|safe_tac]. (eapply safe_send; [by apply (Hs n')|done]).
Qed.

Lemma safe_delete_pod p : sends I (WPodDelete p) → safe I (delete_pod_ignore p).
Proof. intros Hs. unfold delete_pod_ignore. safe_step; [|safe_tac]. apply safe_try. (eapply safe_send; [apply Hs|done]). Qed.
Lemma safe_evict_one force p :
  sends I (WPodEvict p) → (force = true → sends I (WPodDelete p)) → safe I (evict_one force p).
Proof.
  intros He Hd. unfold evict_one. safe_step; [apply safe_try; (eapply safe_send; [apply He|done])|].
  safe_step; [safe_tac|]. safe_step; [safe_tac|]. safe_step; [|safe_tac].
  destruct force; simpl; [|safe_tac]. safe_step; [apply safe_try, safe_delete_pod; auto|safe_tac].
Qed.
Lemma safe_evict nodeName force :
  (∀ p, drain_target nodeName p = true → sends I (WPodEvict p)) →
  (∀ p, drain_target nodeName p = true → force = true → sends I (WPodDelete p)) →
  safe I (evictDevicePods nodeName force).
Proof.
  intros He Hd. unfold evictDevicePods. safe_step; [safe_tac|]. safe_step. safe_step; [|safe_tac].
  apply safe_evict_one; auto.
Qed.
Lemma safe_delete_matching (l : list Pod) (p : Pod → bool) :
  (∀ x, p x = true → sends I (WPodDelete x)) →
  safe I (for_each (λ pod, if p pod then delete_pod_ignore pod else mret ()) l).
Proof. intros Hs. safe_step. safe_step; [apply safe_delete_pod; auto|safe_tac]. Qed.
Lemma safe_restart nodeName since :
  (∀ p, stale_plugin nodeName since p = true → sends I (WPodDelete p)) → safe I (restartStaleDevicePluginPods nodeName since).
Proof.
  intros Hs. unfold restartStaleDevicePluginPods. safe_step; [safe_tac|]. generalize 0%nat as n.
  induction a as [|p l IH]; intros n; simpl; [safe_tac|]. safe_step; [|apply IH].
  safe_step; [apply safe_delete_pod; auto|apply IH].
Qed.

Lemma safe_quiesce nodeName l :
  (∀ a b r, quiesce_patch nodeName a = Some (b, r) → sends I (WDeployment a b)) → safe I (quiesce_loop nodeName l).
Proof.
  intros Hs. induction l as [|d l IH]; simpl; [safe_tac|].
  destruct (quiesce_patch nodeName d) as [[b r]|] eqn:E; [|exact IH].
  safe_step; [apply safe_try; (eapply safe_send; [apply (Hs _ _ _ E)|done])|]. safe_step; [exact IH|safe_tac].
Qed.
Lemma safe_restore_one q : (∀ a r, sends I (WDeployment a (restore_patch r a))) → safe I (restore_one q).
Proof.
  intros Hs. unfold restore_one. safe_step; [safe_tac|]. safe_step; [|safe_tac].
  safe_step; [apply safe_try; (eapply safe_send; [apply Hs|done])|safe_tac].
Qed.
Lemma safe_fallback nodeName : (∀ a r, sends I (WDeployment a (restore_patch r a))) → safe I (restoreFromAnnotationFallback nodeName).
Proof.
  intros Hs. unfold restoreFromAnnotationFallback, labelled_deployments. safe_step; [safe_tac|]. safe_step; [|safe_tac].
  safe_step. destruct (fallback_patch nodeName x) as [d'|] eqn:E; [|safe_tac].
  assert (∃ r, d' = restore_patch r x) as [r ->].
  { unfold fallback_patch in E. split_cases_in E. eauto. }
  safe_step; [|safe_tac]. apply safe_try. eapply safe_send; [apply Hs|done].
Qed.
Lemma safe_claims nodeName : safe I (AssertNoneAllocatedOnNode nodeName).
Proof.
  unfold AssertNoneAllocatedOnNode. safe_step; [safe_tac|]. safe_step; [|safe_tac].
  clear Heqs. generalize (@None Node). induction l as [|c l IH]; intros n; simpl; [safe_tac|].
  safe_step; [apply IH|]. safe_tac.
Qed.
Lemma safe_delete_probe pod msg : sends I (WPodDelete pod) → safe I (delete_probe pod msg).
Proof. intros Hs. unfold delete_probe. safe_step; [|safe_tac]. apply safe_try. by eapply safe_send; [apply Hs|]. Qed.
Lemma safe_probe probe ns nodeName vendor desired :
  sends I (WPodCreate (probePod probe ns (probePodName vendor nodeName desired) nodeName vendor desired)) →
  (∀ p, sends I (WPodDelete p)) → safe I (WorkloadValidator_Run probe ns nodeName vendor desired).
Proof.
  intros Hc Hd. assert (Hdel : ∀ p, safe I (pod_delete p)) by (intros p; eapply safe_send; [apply (Hd p)|done]).
  assert (Hcr : safe I (pod_create (probePod probe ns (probePodName vendor nodeName desired) nodeName vendor desired)))
    by (eapply safe_send; [apply Hc|done]).
  pose proof (λ p msg, safe_delete_probe p msg (Hd p)). unfold WorkloadValidator_Run. safe_tac.
Qed.
Lemma safe_validators ns l nodeName vendor desired :
  (∀ wp, Workload wp ∈ l →
     sends I (WPodCreate (probePod wp ns (probePodName vendor nodeName desired) nodeName vendor desired))
     ∧ ∀ p, sends I (WPodDelete p)) →
  safe I (run_validators ns l nodeName vendor desired).
Proof.
  induction l as [|v l IH]; intros Hl; simpl; [safe_tac|].
  assert (safe I (run_validators ns l nodeName vendor desired)) by (apply IH; intros; apply Hl; by right).
  safe_step; [|safe_tac]. apply safe_try. destruct v; simpl.
  - unfold DriverModuleValidator_Run. safe_tac.
  - unfold DevicePluginValidator_Run. safe_tac.
  - destruct (Hl probe) as [Hc Hd]; [by left|]. by apply safe_probe.
Qed.
End SafeOps.
#[export] Hint Resolve safe_claims : safe.

(** ** Rules for the machine's own steps *)

(** The object as the server stored it: same identity, same status. *)
Definition stored (d d' : DriverUpgradeState) : Prop :=
  Dus_Status d' = Dus_Status d ∧ Dus_Name d' = Dus_Name d ∧ Dus_NodeName d' = Dus_NodeName d
  ∧ Dus_Vendor d' = Dus_Vendor d ∧ Dus_Model d' = Dus_Model d.

Section Machine.
Context {W : Type} `{UpgradeAPILaws W} `{Clock W} `{MapRange} `{Requirements} `{Versions}.
Context (ns : string) (I : W → Prop) `{!ReadOnly I}.
Notation S := (DriverUpgradeState * W)%type.
Notation UM A := (M S A).

Lemma wp_api {A} (m : M W A) (Q : A + GoErr → S → Prop) d w :
  safe I m → I w → (∀ r w', I w' → Q r (d, w')) → wp (api m) Q (d, w).
Proof. intros Hm HI HQ. apply wp_zoom. simpl. eapply (safe_use I); eauto. Qed.
Lemma wp_asked {A} (m : M W A) (Q : A + GoErr → S → Prop) d w :
  safe I m → I w → (∀ r w', I w' → answered I m r → Q r (d, w')) → wp (api m) Q (d, w).
Proof.
  intros Hm HI HQ. apply wp_zoom. unfold wp. specialize (Hm w HI). unfold wp in Hm. simpl.
  destruct (m w) as [r w'] eqn:E. apply HQ; [done|]. exists w. by rewrite E.
Qed.
Lemma wp_update_status (Q : () + GoErr → S → Prop) d w :
  sends I (WStatus d) → I w → (∀ d' w', I w' → stored d d' → Q (inl ()) (d', w')) →
  (∀ e w', I w' → Q (inr e) (d, w')) → wp update_status Q (d, w).
Proof.
  intros Hs HI Hok Herr. unfold wp, update_status. simpl. specialize (Hs w HI). simpl in Hs.
  destruct (dus_status_update d w) as [[d'|e] w'] eqn:E; simpl in *; [|by apply Herr].
  apply Hok; [done|]. destruct (dus_status_update_stored _ _ _ _ E) as (?&?&?&?&?). by repeat split.
Qed.
Lemma wp_clock (Q : Z + GoErr → S → Prop) d w :
  I w → (∀ now w', I w' → Q (inl now) (d, w')) → wp (api read_clock) Q (d, w).
Proof.
  intros HI HQ. unfold wp, api, zoom, read_clock. simpl. pose proof (ro_clock w HI) as Hc.
  destruct (time_now w) as [t w']. by apply HQ.
Qed.
Definition moved (next msg : string) (now : Z) : DriverUpgradeState → DriverUpgradeState :=
  dus_status (λ s, us_Message msg (us_LastTransitionTime now (us_State next s))).
Lemma wp_transition (Q : StepOut + GoErr → S → Prop) next msg after d w :
  I w → (∀ now w', I w' → Q (inl (true, after)) (moved next msg now d, w')) →
  wp (transitionTo next msg after) Q (d, w).
Proof. intros HI HQ. unfold transitionTo. apply wp_bind, wp_clock; [done|]. intros now w' HI'. exact (HQ now w' HI'). Qed.

(** A step that reads the cluster and leaves the object alone. *)
Definition reads {A} (m : UM A) : Prop := ∀ d w (Q : A + GoErr → S → Prop),
  I w → (∀ r w', I w' → Q r (d, w')) → wp m Q (d, w).
Lemma reads_api {A} (m : M W A) : safe I m → reads (api m).
Proof. intros Hm d w Q HI HQ. by apply wp_api. Qed.
Lemma reads_ret {A} (a : A) : reads (mret a).
Proof. intros d w Q HI HQ. by apply HQ. Qed.
Lemma reads_throw {A} e : reads (throw e : UM A).
Proof. intros d w Q HI HQ. by apply HQ. Qed.
Lemma reads_gets {A} (f : S → A) : reads (gets f).
Proof. intros d w Q HI HQ. by apply HQ. Qed.
Lemma reads_try {A} (m : UM A) : reads m → reads (try m).
Proof. intros Hm d w Q HI HQ. apply wp_try. apply Hm; auto. Qed.
Lemma reads_bind {A B} (m : UM A) (f : A → UM B) : reads m → (∀ a, reads (f a)) → reads (m ≫= f).
Proof.
  intros Hm Hf d w Q HI HQ. apply wp_bind. apply Hm; [done|]. intros [a|e] w' HI'; [by apply Hf|by apply HQ].
Qed.
End Machine.
#[export] Hint Resolve reads_ret reads_throw reads_gets reads_try reads_bind reads_api : safe.

Ltac reads_step :=
  lazymatch goal with
  | |- reads _ (if ?b then _ else _) => destruct b eqn:?
  | |- reads _ (match ?x with _ => _ end) => destruct x eqn:?
  | |- reads _ (mbind _ _) => apply reads_bind; [|intros ?]
  | |- reads _ (try _) => apply reads_try
  | |- reads _ (api _) => apply reads_api; solve [safe_tac]
  | |- reads _ _ => solve [eauto 2 with safe]
  end.

Section Reads.
Context {W : Type} `{UpgradeAPILaws W} `{Clock W} `{MapRange} `{Requirements} `{Versions}.
Context (I : W → Prop) `{!ReadOnly I}.

Lemma reads_older t timeout : reads I (older_than t timeout).
Proof. unfold older_than. repeat reads_step. Qed.
Lemma reads_loaded : reads I loadedHostVersion.
Proof. unfold loadedHostVersion. repeat reads_step. Qed.
Lemma reads_report_has p : reads I (report_has p).
Proof. unfold report_has. repeat reads_step. Qed.
Lemma reads_ahead policy : reads I (hostDriverAhead policy).
Proof. unfold hostDriverAhead. pose proof reads_loaded. repeat reads_step. Qed.
Lemma reads_fresh : reads I rebootMarkerIsFresh.
Proof. unfold rebootMarkerIsFresh. repeat reads_step. Qed.
Lemma reads_needs_install policy desired current : reads I (idle_needs_install policy desired current).
Proof. unfold idle_needs_install, driverNotLoaded. pose proof reads_report_has. repeat reads_step. Qed.
Lemma reads_cooldown policy : reads I (cooldown_remaining policy).
Proof. unfold cooldown_remaining. repeat reads_step. Qed.
Lemma reads_active : reads I countActiveUpgrades.
Proof. unfold countActiveUpgrades. repeat reads_step. Qed.
Lemma reads_recovered : reads I failedStateRecovered.
Proof. unfold failedStateRecovered. repeat reads_step. Qed.
End Reads.
#[export] Hint Resolve reads_older reads_loaded reads_report_has reads_ahead reads_fresh reads_needs_install reads_cooldown
  reads_active reads_recovered : safe.

(** ** One pass, handler by handler *)

Definition same_object (d d' : DriverUpgradeState) : Prop :=
  Dus_Name d' = Dus_Name d ∧ Dus_NodeName d' = Dus_NodeName d ∧ Dus_Vendor d' = Dus_Vendor d ∧ Dus_Model d' = Dus_Model d.
Lemma same_refl d : same_object d d.
Proof. done. Qed.
Lemma same_status f d d' : same_object d d' → same_object d (dus_status f d').
Proof. done. Qed.
Lemma same_stored d d1 d2 : same_object d d1 → stored d1 d2 → same_object d d2.
Proof. intros (?&?&?&?) (_&?&?&?&?). repeat split; congruence. Qed.
Lemma same_moved next msg now d d' : same_object d d' → same_object d (moved next msg now d').
Proof. done. Qed.
#[export] Hint Resolve same_refl same_status same_moved : safe.

(** One step of a handler on the machine: reads keep the object, the rest is as
    [wp_step]. *)
Ltac m_step I :=
  lazymatch goal with
  | |- wp (transitionTo _ _ _) _ _ => apply (wp_transition I); [first [assumption|done]|intros ? ? ?]
  | |- wp (api read_clock) _ _ => apply (wp_clock I); [first [assumption|done]|intros ? ? ?]
  | |- wp (set_status _) _ _ => apply wp_modify; cbn [fst snd]
  | |- wp the_state _ _ => apply wp_gets; cbn [fst snd]
  | |- wp the_status _ _ => apply wp_gets; cbn [fst snd]
  | |- wp ?m _ (_, _) =>
      first [ wp_step
            | let Hr := fresh in assert (Hr : reads I m) by (solve [eauto 2 with safe | repeat reads_step]);
              apply Hr; clear Hr; [first [assumption|done]|intros [?|?] ? ?] ]
  | |- match ?x with _ => _ end => destruct x eqn:?
  end; cbv beta iota.
(** Assignments that are no part of the control state. *)
Lemma ctl_release policy desired loaded d : ctl_of (dus_status (releaseRollbackHold policy desired loaded) d) = ctl_of d.
Proof.
  unfold ctl_of, releaseRollbackHold. simpl.
  repeat match goal with |- context [if ?b then _ else _] => destruct b; simpl end; done.
Qed.
Lemma ctl_mark policy d : ctl_of (dus_status (markRolledBack policy) d) = ctl_of d.
Proof. unfold ctl_of, markRolledBack. simpl. by destruct (_ || _). Qed.
Lemma ctl_capture a b d : ctl_of (dus_status (capture_previous a b) d) = ctl_of d.
Proof. unfold ctl_of, capture_previous. simpl. by destruct (_ && _). Qed.
Lemma ctl_capture_job a b c d : ctl_of (dus_status (captureJobPreviousImage a b c) d) = ctl_of d.
Proof. unfold ctl_of, captureJobPreviousImage. simpl. destruct (_ || _); [done|]. simpl. by case_bool_decide. Qed.
Lemma ctl_desired v d : ctl_of (dus_status (us_DesiredVersion v) d) = ctl_of d.
Proof. done. Qed.
Lemma ctl_resolved v d : ctl_of (dus_status (us_ResolvedImage v) d) = ctl_of d.
Proof. done. Qed.
Lemma ctl_message v d : ctl_of (dus_status (us_Message v) d) = ctl_of d.
Proof. done. Qed.
Lemma ctl_quiesced v d : ctl_of (dus_status (us_QuiescedDeployments v) d) = ctl_of d.
Proof. done. Qed.
Lemma ctl_current d : ctl_of (dus_status (λ s, us_CurrentVersion (Us_DesiredVersion s) s) d) = ctl_of d.
Proof. done. Qed.
Lemma ctl_stored d d' : stored d d' → ctl_of d' = ctl_of d.
Proof. intros [E _]. unfold ctl_of. by rewrite E. Qed.
#[export] Hint Rewrite ctl_desired ctl_resolved ctl_message ctl_quiesced ctl_current ctl_release ctl_mark ctl_capture ctl_capture_job : ctl.

Section Handlers.
Context {W : Type} `{UpgradeAPILaws W} `{Clock W} `{MapRange} `{Requirements} `{Versions}.
Context (ns : string) (policy : DriverInstallPolicy) (d0 : DriverUpgradeState) (I : W → Prop) `{!ReadOnly I}.
Context (Hw : ∀ wr, allowed_write ns policy d0 wr → sends I wr).
Notation S := (DriverUpgradeState * W)%type.
Notation state0 := (Us_State (Dus_Status d0)).

Notation step := (ctl_step (isJobMode policy) (maxRollbacks policy) (maxReboots policy)).
Definition pass_ok : StepOut + GoErr → S → Prop := λ _ s',
  (∃ l, step l (ctl_of d0) (ctl_of s'.1) ∧ justified I policy d0 l (Us_State (Dus_Status s'.1))) ∧ same_object d0 s'.1 ∧ I s'.2.

Lemma leaf_stay r d w : I w → same_object d0 d → ctl_of d = ctl_of d0 →
  state0 ∉ [UpgradeStateRollback; UpgradeStateRebootRequired] → pass_ok r (d, w).
Proof.
  intros HI Hs Hc Hn. rewrite !not_elem_of_cons in Hn. destruct Hn as (Hr&Hb&_).
  split; [|done]. exists Quiet. simpl. rewrite Hc. split; [by constructor|done].
Qed.
Lemma leaf_wait r d w : I w → same_object d0 d → ctl_of d = ctl_of d0 → state0 = UpgradeStateRebootRequired →
  Dip_RebootExecutor policy = "kured" ∨ (∃ e, answered I (report_get (Dus_NodeName d0)) (inr e)) → pass_ok r (d, w).
Proof.
  intros HI Hs Hc Hst Hj. split; [|done]. exists Quiet. simpl. rewrite Hc. split; [|done]. constructor. simpl. by rewrite Hst.
Qed.
Lemma leaf_plain r next msg now d w :
  I w → same_object d0 d → ctl_of d = ctl_of d0 →
  (state0, next) ∈ plain_edges → pass_ok r (moved next msg now d, w).
Proof.
  intros HI Hs Hc He. split; [|by split; [apply same_status|]]. exists Quiet.
  injection Hc as Hst Ha Hb. unfold ctl_of, moved. simpl. rewrite Ha, Hb. split; [by constructor|]. intros E ->. exfalso.
  rewrite E in He. revert He. decide_compute.
Qed.
Lemma leaf_open r msg now d w :
  I w → same_object d0 d → state0 ∈ ["" ; UpgradeStateIdle] →
  Us_RollbackAttempts (Dus_Status d) = 0 → Us_RebootAttempts (Dus_Status d) = 0 →
  pass_ok r (moved UpgradeStateRequired msg now d, w).
Proof.
  intros HI Hs He Ha Hb. split; [|by split; [apply same_status|]]. exists Opened. unfold ctl_of, moved. simpl. rewrite Ha, Hb.
  split; [by constructor|done].
Qed.

Ltac state_case :=
  match goal with E : Us_State (Dus_Status d0) = _ |- _ => rewrite E end; decide_compute.
Ltac ctl_eq :=
  autorewrite with ctl; first [reflexivity | match goal with Hc : ctl_of _ = ctl_of d0 |- _ => exact Hc end].
Ltac leaf :=
  first [ apply leaf_stay; [assumption|solve [eauto 6 with safe]|ctl_eq|state_case]
        | apply leaf_plain; [assumption|solve [eauto 6 with safe]|ctl_eq|state_case]
        | apply leaf_open; [assumption|solve [eauto 6 with safe]|state_case|reflexivity|reflexivity] ].
Ltac handler I := repeat m_step I; try leaf.

Lemma quiesced_id d q : Us_QuiescedDeployments (Dus_Status d) = q → dus_status (us_QuiescedDeployments q) d = d.
Proof. intros <-. by destruct d as [???????? [] ]. Qed.
Lemma ok_restore d w (Q : () + GoErr → S → Prop) :
  state0 ∈ UpgradeStateUncordoning :: failing_states → I w →
  (∀ r q w', I w' → Q r (dus_status (us_QuiescedDeployments q) d, w')) → wp RestoreQuiescedDeployments Q (d, w).
Proof.
  intros Hst HI HQ. unfold RestoreQuiescedDeployments. apply wp_bind, wp_gets. cbn [fst snd].
  assert (Hdep : ∀ a r, sends I (WDeployment a (restore_patch r a))).
  { intros a r. apply Hw. right. eauto. }
  destruct (Us_QuiescedDeployments (Dus_Status d)) as [|q qs] eqn:E.
  - apply (wp_api I); [by apply safe_fallback; try apply _|done|]. intros r w' HI'.
    specialize (HQ r [] w' HI'). by rewrite quiesced_id in HQ.
  - apply wp_bind, (wp_api I); [apply safe_for_each; intros; by apply safe_restore_one; try apply _|done|].
    intros [[]|e] w' HI'; [by apply wp_modify, HQ|].
    specialize (HQ (inr e) (q :: qs) w' HI'). by rewrite quiesced_id in HQ.
Qed.
Lemma ok_failed msg d w (Q : StepOut + GoErr → S → Prop) :
  state0 ∈ failing_states → I w →
  (∀ r now q w', I w' → Q r (moved UpgradeStateFailed msg now (dus_status (us_QuiescedDeployments q) d), w')) →
  wp (jobTransitionToFailed msg) Q (d, w).
Proof.
  intros Hst HI HQ. unfold jobTransitionToFailed. apply wp_bind, wp_gets, wp_bind, wp_try, ok_restore; [by right|done|].
  intros _ q w1 HI1. apply wp_bind, wp_try, (wp_api I); [|done|].
  { unfold clearUpgradingLabel. apply safe_node_op; [apply _|]. intros n n' Hn. apply Hw. simpl. tauto. }
  intros _ w2 HI2. apply (wp_transition I); [done|]. intros now w3 HI3. by apply HQ.
Qed.
Lemma ok_rollback_or_fail m1 m2 d w :
  state0 ∈ failing_states → (state0, UpgradeStateRollback) ∈ plain_edges → (state0, UpgradeStateFailed) ∈ plain_edges →
  I w → same_object d0 d → ctl_of d = ctl_of d0 →
  wp (rollback_or_fail policy m1 m2) pass_ok (d, w).
Proof.
  intros Hst He1 He2 HI Hs Hc. unfold rollback_or_fail. wp_step.
  - apply (wp_transition I); [done|]. intros. by apply leaf_plain.
  - apply ok_failed; [done|done|]. intros. by apply leaf_plain.
Qed.

Lemma ok_required : state0 = UpgradeStateRequired → ∀ w, I w → wp (handleUpgradeRequired policy) pass_ok (d0, w).
Proof. intros Hst w HI. unfold handleUpgradeRequired. handler I. Qed.
Lemma ok_preflight : state0 = UpgradeStatePreFlight → ∀ w, I w → wp (handlePreFlight policy) pass_ok (d0, w).
Proof. intros Hst w HI. unfold handlePreFlight. handler I. Qed.
Lemma ok_hostahead : state0 = UpgradeStateHostAhead → ∀ w, I w → wp (handleHostAhead policy) pass_ok (d0, w).
Proof. intros Hst w HI. unfold handleHostAhead. handler I. Qed.
Lemma ok_unverified : state0 = UpgradeStateUnverifiedVersion → ∀ w, I w → wp (handleUnverifiedVersion policy) pass_ok (d0, w).
Proof. intros Hst w HI. unfold handleUnverifiedVersion. handler I. Qed.

Lemma idle_cases (P : Prop) : (state0 = "" → P) → (state0 = UpgradeStateIdle → P) → state0 ∈ ["" ; UpgradeStateIdle] → P.
Proof. rewrite !elem_of_cons, elem_of_nil. tauto. Qed.
Lemma ok_idle_install desired current d : state0 ∈ ["" ; UpgradeStateIdle] → same_object d0 d → ctl_of d = ctl_of d0 →
  ∀ w, I w → wp (idle_install policy desired current) pass_ok (d, w).
Proof.
  intros Hst Hs Hc w HI. revert Hst. unfold idle_install, startHeldRestore, refuse_unverified.
  apply idle_cases; intros Hst; handler I.
Qed.
Lemma ok_idle_upgrade desired current d : state0 ∈ ["" ; UpgradeStateIdle] → same_object d0 d → ctl_of d = ctl_of d0 →
  ∀ w, I w → wp (idle_upgrade policy desired current) pass_ok (d, w).
Proof.
  intros Hst Hs Hc w HI. assert (Hc' := Hc). injection Hc' as Hst' _ _. revert Hst.
  unfold idle_upgrade, holdAfterRollback, refuse_unverified.
  apply idle_cases; intros Hst; handler I; bool_prop. rewrite Hst', Hst in *. discriminate.
Qed.
Lemma ok_idle : state0 ∈ ["" ; UpgradeStateIdle] → ∀ w, I w → wp (handleIdle policy) pass_ok (d0, w).
Proof.
  intros Hst w HI. unfold handleIdle, refreshResolvedImage. handler I.
  all: try ((apply ok_idle_install || apply ok_idle_upgrade); [done|auto with safe|ctl_eq|done]).
  all: revert Hst; apply idle_cases; intros Hst; try leaf.
  all: bool_prop; rewrite Hst in *; discriminate.
Qed.

Lemma ok_uncordoning : state0 = UpgradeStateUncordoning → ∀ w, I w → wp handleUncordoning pass_ok (d0, w).
Proof.
  intros Hst w HI. unfold handleUncordoning. wp_step. m_step I. wp_step. wp_step. apply (wp_api I); [|done|].
  { unfold uncordonNode. apply safe_node_op; [apply _|]. intros n n' Hn. apply Hw. simpl. tauto. }
  intros [[]|e] w1 HI1; [|by leaf]. cbv beta iota. wp_step. wp_step. apply ok_restore; [by rewrite Hst; left|done|].
  intros r q w2 HI2. handler I.
Qed.

Lemma ok_cordoning : state0 = UpgradeStateCordoning → ∀ w, I w → wp handleCordoning pass_ok (d0, w).
Proof.
  intros Hst w HI. unfold handleCordoning. wp_step. m_step I. wp_step. wp_step. apply (wp_api I); [|done|].
  { unfold cordonNode. apply safe_node_op; [apply _|]. intros n n' Hn. apply Hw. simpl. tauto. }
  intros [[]|e] w1 HI1; [|by leaf]. cbv beta iota. wp_step. wp_step. unfold QuiesceLabeledDeployments, labelled_deployments.
  wp_step. m_step I. wp_step. wp_step. m_step I; [|handler I]. wp_step. apply (wp_api I); [|done|].
  { apply safe_quiesce. intros a b r Hq. apply Hw. left. eauto. }
  intros [q|e] w3 HI3; cbv beta iota; [|by handler I]. wp_step. m_step I. wp_step. wp_step.
  apply (wp_update_status I); [by apply Hw|done| |].
  - intros d' w4 HI4 Hd'. cbv beta iota. wp_step. m_step I.
    apply leaf_plain; [done|eapply same_stored; [|done]; auto with safe| |state_case].
    rewrite (ctl_stored _ _ Hd'). ctl_eq.
  - intros e w4 HI4. handler I.
Qed.

Lemma safe_drain_plugins : state0 = UpgradeStateDraining → safe I (deleteDevicePluginPods (Dus_NodeName d0)).
Proof.
  intros Hst. unfold deleteDevicePluginPods. safe_step; [safe_tac|]. apply safe_delete_matching. intros p Hp. bool_prop.
  apply Hw. left. auto.
Qed.
Lemma safe_drain_evict up : state0 = UpgradeStateDraining → Dip_UpgradePolicy policy = Some up →
  safe I (evictDevicePods (Dus_NodeName d0) (Up_ForceUpgrade up)).
Proof.
  intros Hst Eup. apply safe_evict; [apply _| |].
  - intros p Hp. by apply Hw.
  - intros p Hp Hf. apply Hw. left. split; [done|]. split; [|by eauto].
    unfold drain_target in Hp. by bool_prop.
Qed.
Lemma safe_workloads nodeName : safe I (hasDeviceWorkloads nodeName).
Proof. unfold hasDeviceWorkloads. safe_tac. Qed.
Lemma ok_draining : state0 = UpgradeStateDraining → ∀ w, I w → wp (handleDraining policy) pass_ok (d0, w).
Proof.
  intros Hst w HI. unfold handleDraining.
  destruct (Dip_UpgradePolicy policy) as [up|] eqn:Eup; [|by handler I]. destruct (Up_DrainEnabled up); simpl; [|by handler I].
  pose proof (safe_drain_plugins Hst). pose proof (safe_drain_evict up Hst Eup). pose proof (safe_workloads (Dus_NodeName d0)).
  handler I. apply ok_rollback_or_fail; try done; rewrite Hst; decide_compute.
Qed.

Lemma ok_set_failed msg d w : state0 ∈ failing_states → (state0, UpgradeStateFailed) ∈ plain_edges → I w → same_object d0 d →
  ctl_of d = ctl_of d0 → wp (jobTransitionToFailed msg) pass_ok (d, w).
Proof.
  intros Hst He HI Hs Hc. apply ok_failed; [done|done|]. intros. by apply leaf_plain.
Qed.
Lemma ok_create_job what j (Q : () + GoErr → S → Prop) d w :
  sends I (WJobCreate j) → I w → (∀ r w', I w' → Q r (d, w')) → wp (create_job what j) Q (d, w).
Proof.
  intros Hs HI HQ. assert (Hj : safe I (job_create j)) by (eapply safe_send; [apply Hs|done]).
  unfold create_job. repeat m_step I; by apply HQ.
Qed.
Lemma ok_delete_job what name (Q : () + GoErr → S → Prop) d w :
  sends I (WJobDelete name) → I w → (∀ r w', I w' → Q r (d, w')) → wp (delete_install_job what name) Q (d, w).
Proof.
  intros Hs HI HQ. assert (Hj : safe I (job_delete name)) by (eapply safe_send; [apply Hs|done]).
  unfold delete_install_job. repeat m_step I; by apply HQ.
Qed.
Lemma ok_restart_pod dsName (Q : () + GoErr → S → Prop) d w :
  (∀ p, Pod_NodeName p = Dus_NodeName d → owned_by_daemonset dsName p = true → sends I (WPodDelete p)) →
  I w → (∀ r w', I w' → Q r (d, w')) → wp (restart_driver_pod ns dsName) Q (d, w).
Proof.
  intros Hs HI HQ.
  assert (Hj : safe I (deleteDriverPodOnNode ns dsName (Dus_NodeName d))).
  { unfold deleteDriverPodOnNode. safe_step; [safe_tac|]. apply safe_delete_matching. intros p Hp. bool_prop. auto. }
  unfold restart_driver_pod. repeat m_step I; by apply HQ.
Qed.

Lemma ok_upgrading_job : state0 = UpgradeStateUpgrading → isJobMode policy = true →
  ∀ w, I w → wp (handleUpgradingJob ns policy) pass_ok (d0, w).
Proof.
  intros Hst Hm w HI. unfold handleUpgradingJob. do 4 m_step I.
  destruct (job_target _ _) as [[image version]|].
  2:{ apply ok_set_failed; try (rewrite Hst; decide_compute); [done|auto with safe|ctl_eq]. }
  do 3 m_step I.
  - wp_step; [|handler I]. wp_step. apply ok_delete_job; [|done|].
    { apply Hw. left. split; [rewrite Hst; left|done]. }
    intros [[]|e] w2 HI2; handler I.
  - wp_step; [|handler I]. wp_step. apply ok_create_job; [|done|].
    { apply Hw. left. split; [done|]. split; [done|]. eauto. }
    intros [[]|e] w2 HI2; handler I.
Qed.

Lemma safe_patch_ds ds image : state0 ∈ [UpgradeStateUpgrading; UpgradeStateRollback] → isJobMode policy = false →
  safe I (daemonset_patch ds (ds_image image ds)).
Proof. intros Hst Hm. apply (safe_send I _ (WDaemonSet ds (ds_image image ds))); [|done]. apply Hw. simpl. eauto. Qed.
Lemma ok_update_daemonset ds image (Q : () + GoErr → S → Prop) d w :
  state0 ∈ [UpgradeStateUpgrading; UpgradeStateRollback] → isJobMode policy = false → I w →
  (∀ r d' w', I w' → same_object d d' → ctl_of d' = ctl_of d → Q r (d', w')) → wp (update_daemonset ds image) Q (d, w).
Proof.
  intros Hst Hm HI HQ. unfold update_daemonset. wp_step; [wp_step; apply HQ; auto with safe|].
  pose proof (safe_patch_ds ds image Hst Hm).
  repeat m_step I; (apply HQ; [done|auto with safe|by autorewrite with ctl]).
Qed.
Lemma ok_upgrading : state0 = UpgradeStateUpgrading → ∀ w, I w → wp (handleUpgrading ns policy) pass_ok (d0, w).
Proof.
  intros Hst w HI. unfold handleUpgrading. destruct (isJobMode policy) eqn:Hm; [by apply ok_upgrading_job|].
  assert (Hin : state0 ∈ [UpgradeStateUpgrading; UpgradeStateRollback]) by (rewrite Hst; left).
  do 5 m_step I; [|handler I]. wp_step. apply ok_update_daemonset; [done|done|done|].
  intros [[]|e] d1 w1 HI1 Hs1 Hc1; cbv beta iota; [|leaf]. wp_step.
  apply ok_restart_pod; [|done|].
  { intros p Hp Ho. apply Hw. right. left. destruct Hs1 as (_&En&_&_). rewrite En in Hp. tauto. }
  intros [[]|e] w2 HI2; handler I.
Qed.

Lemma safe_blocking nodeName : state0 = UpgradeStateValidating → safe I (EnsureUpgradingBlockingLabelRemoved nodeName).
Proof. intros Hst. apply safe_label; [apply _|]. intros n n' Hn. apply Hw. simpl. tauto. Qed.
Lemma safe_chain desired : state0 = UpgradeStateValidating → desired = Us_DesiredVersion (Dus_Status d0) →
  safe I (run_validators ns (validatorsFor policy) (Dus_NodeName d0) (Dus_Vendor d0) desired).
Proof.
  intros Hst ->. apply safe_validators; [apply _|]. intros p Hp. unfold validatorsFor in Hp.
  destruct (Dip_WorkloadProbe policy) as [q|] eqn:Ep; [destruct (Wp_Enabled q) eqn:Eq|]; simpl in Hp; set_unfold in Hp.
  2-3: by destruct Hp as [|[|[] ] ].
  assert (p = q) as -> by (destruct Hp as [|[|[|[] ] ] ]; congruence).
  split; [apply Hw; split; eauto|]. intros x. apply Hw. right. right. right. eauto.
Qed.
Lemma ok_finish msg : state0 = UpgradeStateValidating → ∀ w, I w → wp (finish_validation ns policy msg) pass_ok (d0, w).
Proof. intros Hst w HI. unfold finish_validation. do 2 m_step I. pose proof (safe_chain _ Hst eq_refl). handler I. Qed.
Lemma safe_stale t : state0 = UpgradeStateValidating → isJobMode policy = true →
  safe I (restartStaleDevicePluginPods (Dus_NodeName d0) t).
Proof.
  intros Hst Hm. apply safe_restart; [apply _|]. intros p Hp. unfold stale_plugin in Hp. bool_prop. apply Hw.
  right. right. left. auto.
Qed.
Lemma ok_validating_job : state0 = UpgradeStateValidating → isJobMode policy = true →
  ∀ w, I w → wp (handleValidatingJob ns policy) pass_ok (d0, w).
Proof.
  intros Hst Hm w HI. unfold handleValidatingJob. pose proof (safe_blocking (Dus_NodeName d0) Hst).
  pose proof (λ t, safe_stale t Hst Hm).
  repeat m_step I; try leaf; try by apply ok_finish.
  all: apply ok_rollback_or_fail; try done; rewrite Hst; decide_compute.
Qed.
Lemma ok_validating : state0 = UpgradeStateValidating → ∀ w, I w → wp (handleValidating ns policy) pass_ok (d0, w).
Proof.
  intros Hst w HI. unfold handleValidating. destruct (isJobMode policy) eqn:Hm; [by apply ok_validating_job|].
  pose proof (safe_blocking (Dus_NodeName d0) Hst).
  assert (Hr : ∀ ds image, safe I (isDriverPodReadyOnNode ns ds (Dus_NodeName d0) image)) by (intros; unfold isDriverPodReadyOnNode; safe_tac).
  repeat m_step I; try leaf; try by apply ok_finish.
  all: apply ok_rollback_or_fail; try done; rewrite Hst; decide_compute.
Qed.
Lemma ok_step_validating : state0 = UpgradeStateValidating → ∀ w, I w → wp (step_validating ns policy) pass_ok (d0, w).
Proof.
  intros Hst w HI. unfold step_validating. unfold nodeNeedsReboot. repeat m_step I; try leaf; by apply ok_validating.
Qed.

(** Leaves where a counter moved. *)
Lemma leaf_ctl l r d w : I w → same_object d0 d → step l (ctl_of d0) (ctl_of d) →
  justified I policy d0 l (Us_State (Dus_Status d)) → pass_ok r (d, w).
Proof. intros HI Hs Hc Hj. split; eauto. Qed.
Lemma ctl_reboot d next :
  state0 = UpgradeStateRebootRequired → next ∈ [UpgradeStateRebootRequired; UpgradeStateRebooting] →
  wrap32 (Us_RebootAttempts (Dus_Status d0) + 1) <= maxReboots policy →
  ctl_of d = mkCtl next (Us_RollbackAttempts (Dus_Status d0)) (wrap32 (Us_RebootAttempts (Dus_Status d0) + 1)) →
  step RebootTry (ctl_of d0) (ctl_of d).
Proof. intros Hst Hn Ha ->. unfold ctl_of. rewrite Hst. by constructor. Qed.

Lemma wp_needs_reboot (Q : bool + GoErr → S → Prop) d w : I w →
  (∀ b w', I w' → Q (inl b) (d, w')) →
  (∀ e w', I w' → answered I (report_get (Dus_NodeName d)) (inr e) → Q (inr e) (d, w')) → wp nodeNeedsReboot Q (d, w).
Proof.
  intros HI Hb He. unfold nodeNeedsReboot, report_has. wp_step. m_step I. wp_step. wp_step.
  apply (wp_asked I); [safe_tac|done|]. intros [r|e] w1 HI1 Ha; cbv beta iota; [wp_step; by apply Hb|].
  wp_step; wp_step; [by apply Hb|by apply He].
Qed.
Lemma ok_reboot_required : state0 = UpgradeStateRebootRequired → ∀ w, I w → wp (handleRebootRequired ns policy) pass_ok (d0, w).
Proof.
  intros Hst w HI. unfold handleRebootRequired. wp_step.
  apply wp_needs_reboot; [done| |intros e w1 HI1 Ha; apply leaf_wait; eauto with safe]. intros b w1 HI1. cbv beta iota.
  wp_step; [by handler I|]. wp_step; [wp_step; bool_prop; apply leaf_wait; auto with safe|]. wp_step. m_step I. wp_step. m_step I. wp_step. m_step I. simpl Dus_Status. simpl Us_RebootAttempts. wp_step.
  { m_step I. bool_prop. eapply (leaf_ctl RebootTry); [done|auto with safe| |done].
    unfold ctl_of, moved. simpl. rewrite Hst. by apply step_reboot_exhausted. }
  wp_step. wp_step. apply (wp_api I); [safe_tac|done|]. intros g w2 HI2. cbv beta iota. wp_step. m_step I. wp_step. wp_step.
  bool_prop. apply (wp_update_status I); [by apply Hw|done| |].
  - intros d1 w3 HI3 Hd1. cbv beta iota. wp_step.
    assert (Hs1 : same_object d0 d1) by (eapply same_stored; [|done]; auto with safe).
    assert (Hc1 : ctl_of d1 = mkCtl state0 (Us_RollbackAttempts (Dus_Status d0)) (wrap32 (Us_RebootAttempts (Dus_Status d0) + 1)))
      by by rewrite (ctl_stored _ _ Hd1).
    apply ok_create_job; [|done|].
    { apply Hw. right. right. auto. }
    intros [[]|e] w4 HI4; cbv beta iota; [m_step I|]; (eapply (leaf_ctl RebootTry); [done|auto with safe| |done]).
    + apply (ctl_reboot _ UpgradeStateRebooting); [done|decide_compute|done|].
      injection Hc1 as Ha Hb Hc. unfold ctl_of, moved. simpl. by rewrite Hb, Hc.
    + apply (ctl_reboot _ state0); [done|rewrite Hst; decide_compute|done|done].
  - intros e w3 HI3. cbv beta iota. wp_step. eapply (leaf_ctl RebootTry); [done|auto with safe| |done].
    apply (ctl_reboot _ state0); [done|rewrite Hst; decide_compute|done|done].
Qed.

Lemma ok_rebooting : state0 = UpgradeStateRebooting → ∀ w, I w → wp (handleRebooting policy) pass_ok (d0, w).
Proof.
  intros Hst w HI. unfold handleRebooting.
  assert (Hj : safe I (job_delete (InstallJobName (Dus_Vendor d0) (Dus_Model d0) (Dus_NodeName d0)))).
  { apply (safe_send I _ (WJobDelete (InstallJobName (Dus_Vendor d0) (Dus_Model d0) (Dus_NodeName d0)))); [|done].
    apply Hw. right. auto. }
  handler I.
Qed.

Lemma leaf_recovered r d w : state0 = UpgradeStateFailed → I w → same_object d0 d →
  Us_State (Dus_Status d) ∈ [UpgradeStateFailed; UpgradeStateIdle] →
  Us_RollbackAttempts (Dus_Status d) = 0 → Us_RebootAttempts (Dus_Status d) = 0 → pass_ok r (d, w).
Proof.
  intros Hst HI Hs Hin Ha Hb. eapply (leaf_ctl Recovered); [done|done| |done]. unfold ctl_of. rewrite Hst, Ha, Hb. by constructor.
Qed.
Lemma failed_node n n' : state0 = UpgradeStateFailed →
  reap_patch (Dus_Name d0) n = Some n' ∨ uncordon_patch (Dus_Name d0) n = Some n' → sends I (WNode n n').
Proof. intros Hst Hn. apply Hw. simpl. tauto. Qed.
Lemma reads_reap n : state0 = UpgradeStateFailed → reads I (reap_or_throw (Dus_Name d0) n).
Proof.
  intros Hst. assert (safe I (reapStaleCordonClaim (Dus_Name d0) n)).
  { apply safe_reap. intros n' Hn. apply failed_node; auto. }
  unfold reap_or_throw. repeat reads_step.
Qed.
Lemma ok_failed_recover : state0 = UpgradeStateFailed → ∀ w, I w → wp failed_recover pass_ok (d0, w).
Proof.
  intros Hst w HI. unfold failed_recover. pose proof (λ n, reads_reap n Hst).
  assert (Hu : safe I (uncordonNode (Dus_NodeName d0) (Dus_Name d0))).
  { unfold uncordonNode. apply safe_node_op; [apply _|]. intros n n' Hn. apply failed_node; auto. }
  repeat m_step I; (apply leaf_recovered; [done|done|auto with safe|simpl; rewrite ?Hst; decide_compute|done|done]).
Qed.
Lemma ok_failed_release n : state0 = UpgradeStateFailed → Node_Unschedulable n = true → owns_cordon (Dus_Name d0) n = true →
  ∀ w, I w → wp (failed_release n) pass_ok (d0, w).
Proof.
  intros Hst Hu Ho w HI. unfold failed_release. do 2 m_step I.
  destruct (vendorStillAdvertised n (Dus_Vendor d0)) as [adv decidable] eqn:Ev. wp_step; [by handler I|].
  apply orb_false_iff in Heqb as [Hd%negb_false_iff Ha%negb_false_iff]. bool_prop. subst.
  assert (Hp : safe I (node_patch n (release_patch n))).
  { apply (safe_send I _ (WNode n (release_patch n))); [|done]. apply Hw. simpl. do 4 right. split; [done|]. by do 2 right. }
  handler I.
Qed.
Lemma ok_failed_state : state0 = UpgradeStateFailed → ∀ w, I w → wp handleFailed pass_ok (d0, w).
Proof.
  intros Hst w HI. unfold handleFailed. pose proof (λ n, reads_reap n Hst). repeat m_step I; try leaf.
  - by apply ok_failed_recover.
  - match goal with E : _ || _ = false |- _ => rewrite orb_false_iff, !negb_false_iff in E; destruct E as [Hu Ho] end.
    by apply ok_failed_release.
Qed.

(** The evidence of an attempt. *)
Notation tried := (justified I policy d0 RollbackTry "").
Lemma leaf_rollback r d w next : state0 = UpgradeStateRollback → tried → I w → same_object d0 d →
  ctl_of d = mkCtl next (wrap32 (Us_RollbackAttempts (Dus_Status d0) + 1)) (Us_RebootAttempts (Dus_Status d0)) →
  next ∈ [UpgradeStateRollback; UpgradeStateValidating; UpgradeStateFailed] →
  (wrap32 (Us_RollbackAttempts (Dus_Status d0) + 1) <= maxRollbacks policy ∨ next = UpgradeStateFailed) → pass_ok r (d, w).
Proof.
  intros Hst Ht HI Hs Hc Hn Hm. eapply (leaf_ctl RollbackTry); [done|done| |exact Ht]. rewrite Hc. unfold ctl_of. rewrite Hst.
  destruct (Z.le_gt_cases (wrap32 (Us_RollbackAttempts (Dus_Status d0) + 1)) (maxRollbacks policy)); [by constructor|].
  destruct Hm as [| ->]; [lia|]. apply step_rollback_exhausted. lia.
Qed.

Notation next_rollback := (wrap32 (Us_RollbackAttempts (Dus_Status d0) + 1)).
Definition counted_ctl (next : string) : Ctl := mkCtl next next_rollback (Us_RebootAttempts (Dus_Status d0)).
Lemma counted d : ctl_of d = ctl_of d0 → state0 = UpgradeStateRollback →
  ctl_of (dus_status count_rollback d) = counted_ctl UpgradeStateRollback.
Proof. intros Hd Hst. injection Hd as Ea Eb Ec. unfold ctl_of. simpl. rewrite Ea, Eb, Ec. by rewrite Hst. Qed.
Lemma counted_moved next msg now d : ctl_of d = counted_ctl UpgradeStateRollback → ctl_of (moved next msg now d) = counted_ctl next.
Proof. intros Hd. injection Hd as Ea Eb Ec. unfold ctl_of, moved. simpl. by rewrite Eb, Ec. Qed.
Lemma ok_counted_failed msg d w : state0 = UpgradeStateRollback → tried → I w → same_object d0 d →
  ctl_of d = counted_ctl UpgradeStateRollback → wp (jobTransitionToFailed msg) pass_ok (d, w).
Proof.
  intros Hst Ht HI Hs Hc. apply ok_failed; [rewrite Hst; decide_compute|done|]. intros r now q w1 HI1.
  apply (leaf_rollback _ _ _ UpgradeStateFailed); [done|done|done|done|by apply counted_moved|decide_compute|by right].
Qed.
Lemma ok_counted_try msg after d w : state0 = UpgradeStateRollback → tried → I w → same_object d0 d →
  ctl_of d = counted_ctl UpgradeStateRollback → next_rollback <= maxRollbacks policy →
  wp (transitionTo UpgradeStateValidating msg after) pass_ok (d, w).
Proof.
  intros Hst Ht HI Hs Hc Hm. m_step I.
  apply (leaf_rollback _ _ _ UpgradeStateValidating); [done|done|done|done|by apply counted_moved|decide_compute|by left].
Qed.
Lemma leaf_counted r d w : state0 = UpgradeStateRollback → tried → I w → same_object d0 d →
  ctl_of d = counted_ctl UpgradeStateRollback → next_rollback <= maxRollbacks policy → pass_ok r (d, w).
Proof. intros. apply (leaf_rollback _ _ _ UpgradeStateRollback); [done|done|done|done|done|decide_compute|by left]. Qed.
Lemma counted_attempts d : ctl_of d = counted_ctl UpgradeStateRollback → Us_RollbackAttempts (Dus_Status d) = next_rollback.
Proof. by intros [=]. Qed.

(** A Job-mode pass that counts nothing. *)
Notation job_answered := (answered I (job_get (InstallJobName (Dus_Vendor d0) (Dus_Model d0) (Dus_NodeName d0)))).
Lemma leaf_uncounted r d w : state0 = UpgradeStateRollback → isJobMode policy = true → I w → same_object d0 d →
  Us_RollbackAttempts (Dus_Status d) = Us_RollbackAttempts (Dus_Status d0) →
  Us_RebootAttempts (Dus_Status d) = Us_RebootAttempts (Dus_Status d0) →
  uncounted policy d0 job_answered (Us_State (Dus_Status d)) → pass_ok r (d, w).
Proof.
  intros Hst Hm HI Hs Ha Hb Hu. apply (leaf_ctl Uncounted); [done|done| |done].
  unfold ctl_of. rewrite Hst, Ha, Hb. constructor; [done|]. destruct Hu; decide_compute.
Qed.
Lemma ok_uncounted_failed msg d w : state0 = UpgradeStateRollback → isJobMode policy = true → I w → same_object d0 d →
  ctl_of d = ctl_of d0 → ¬ returns_somewhere policy d0 → wp (jobTransitionToFailed msg) pass_ok (d, w).
Proof.
  intros Hst Hm HI Hs Hc Hn. injection Hc as _ Ea Eb. apply ok_failed; [rewrite Hst; decide_compute|done|].
  intros r now q w1 HI1. apply leaf_uncounted; [done..|]. by apply uncounted_nowhere.
Qed.
Lemma ok_gone what name d w : state0 = UpgradeStateRollback → isJobMode policy = true → I w → same_object d0 d →
  ctl_of d = ctl_of d0 → uncounted policy d0 job_answered UpgradeStateRollback →
  wp (delete_install_job what name ≫= λ _, mret (true, 5 * second)) pass_ok (d, w).
Proof.
  intros Hst Hm HI Hs Hc Hu. injection Hc as Es Ea Eb. wp_step. apply ok_delete_job; [|done|].
  { apply Hw. left. split; [rewrite Hst; right; left|done]. }
  intros [[] | e] w2 HI2; cbv beta iota; [wp_step|]; (apply leaf_uncounted; [done..|]; by rewrite Es, Hst).
Qed.
Lemma image_mark d : rollback_job_image policy (dus_status (markRolledBack policy) d) = rollback_job_image policy d.
Proof. unfold rollback_job_image, markRolledBack. simpl. by destruct (_ || _). Qed.

Lemma ok_rollback_job : state0 = UpgradeStateRollback → isJobMode policy = true →
  ∀ w, I w → wp (handleRollbackJob ns policy) pass_ok (d0, w).
Proof.
  intros Hst Hm w HI. unfold handleRollbackJob. do 2 m_step I.
  wp_step; [bool_prop; apply ok_uncounted_failed; [done..|intros [? _]; done]|].
  do 4 m_step I. set (d := dus_status (markRolledBack policy) d0).
  assert (Hd : ctl_of d = ctl_of d0) by apply ctl_mark. assert (Hs : same_object d0 d) by done.
  assert (Himg : rollback_job_image policy d0
                 = if bool_decide (Us_PreviousImage (Dus_Status d) = "")
                   then reconstructPrevImage (Ds_Image (Dip_Driver policy)) (Ds_Installer (Dip_Driver policy))
                          (Us_PreviousVersion (Dus_Status d0)) (Ds_ImageVersionBaked (Dip_Driver policy))
                   else Us_PreviousImage (Dus_Status d)).
  { rewrite <- (image_mark d0). unfold rollback_job_image, d, markRolledBack. simpl. by destruct (_ || _). }
  rewrite <- Himg. wp_step; [bool_prop; apply ok_uncounted_failed; [done..|intros [_ ?]; done]|].
  bool_prop. assert (Hsome : returns_somewhere policy d0) by done.
  injection (Hd) as Es Ea Eb. rewrite Hst in Es.
  change (Us_State (Dus_Status d) = UpgradeStateRollback) in Es. wp_step. wp_step. apply (wp_asked I); [safe_tac|done|]. intros [job|e] w1 HI1 Hj; cbv beta iota.
  - wp_step; [wp_step|].
    + apply ok_gone; try done. eapply uncounted_leftover; eauto.
    + do 3 m_step I. apply leaf_uncounted; [done..|]. by eapply uncounted_running.
    + apply ok_gone; try done. eapply uncounted_leftover; eauto.
  - wp_step; bool_prop.
    + wp_step. apply leaf_uncounted; [done..|]. rewrite Es. by eapply uncounted_unread.
    + do 4 m_step I. assert (Hc := counted _ Hd Hst). assert (Ht : tried) by (intros _; eauto).
      rewrite (counted_attempts _ Hc). wp_step; [by apply ok_counted_failed|]. bool_prop. wp_step.
      apply ok_create_job; [|done|].
      { apply Hw. right. left. do 3 (split; [done|]). eauto. }
      intros [[] | e'] w2 HI2; cbv beta iota; [do 2 m_step I; by apply ok_counted_try|by apply leaf_counted].
Qed.

Lemma ok_rollback_daemonset prevVersion prevImage dsName ds d w :
  state0 = UpgradeStateRollback → isJobMode policy = false → dsName = DriverDSName (Dus_Vendor d0) (Dus_Model d0) →
  I w → same_object d0 d → ctl_of d = counted_ctl UpgradeStateRollback → next_rollback <= maxRollbacks policy →
  wp (rollback_daemonset ns policy prevVersion prevImage dsName ds) pass_ok (d, w).
Proof.
  intros Hst Hm -> HI Hs Hc Hn. unfold rollback_daemonset. assert (Ht : tried) by (intros Hm'; by rewrite Hm in Hm').
  assert (Hin : state0 ∈ [UpgradeStateUpgrading; UpgradeStateRollback]) by (rewrite Hst; right; left).
  pose proof (λ image, safe_patch_ds ds image Hin Hm). do 3 m_step I; [|wp_step; by apply leaf_counted].
  wp_step. apply ok_restart_pod; [|done|].
  { intros p Hp Ho. apply Hw. right. left. destruct Hs as (_&En&_&_). rewrite En in Hp. tauto. }
  intros [[] | e] w2 HI2; cbv beta iota; [do 2 m_step I; by apply ok_counted_try|by apply leaf_counted].
Qed.
Lemma ok_rollback : state0 = UpgradeStateRollback → ∀ w, I w → wp (handleRollback ns policy) pass_ok (d0, w).
Proof.
  intros Hst w HI. unfold handleRollback. destruct (isJobMode policy) eqn:Hm; [by apply ok_rollback_job|].
  assert (Ht : tried) by (intros Hm'; by rewrite Hm in Hm'). do 4 m_step I. assert (Hc := counted d0 eq_refl Hst). rewrite (counted_attempts _ Hc).
  wp_step; [by apply ok_counted_failed|]. bool_prop. wp_step; [by apply ok_counted_failed|].
  do 2 m_step I. set (d1 := dus_status (markRolledBack policy) _).
  assert (Hc1 : ctl_of d1 = counted_ctl UpgradeStateRollback) by (unfold d1; by rewrite ctl_mark).
  wp_step. wp_step. apply (wp_update_status I); [by apply Hw|done| |].
  - intros d2 w2 HI2 Hst2. cbv beta iota. assert (Hs2 : same_object d0 d2) by by apply (same_stored _ d1).
    assert (Hc2 : ctl_of d2 = counted_ctl UpgradeStateRollback) by by rewrite (ctl_stored _ _ Hst2).
    do 5 m_step I; [|by apply leaf_counted]. wp_step; [by apply ok_counted_failed|].
    apply ok_rollback_daemonset; try done. by destruct Hs2 as (_&_&->&->).
  - intros e w2 HI2. cbv beta iota. m_step I. by apply leaf_counted.
Qed.

Lemma ok_handle_state : ∀ w, I w → wp (handle_state ns policy) pass_ok (d0, w).
Proof.
  intros w HI. unfold handle_state. do 2 m_step I.
  repeat (wp_step; [bool_prop; eauto using ok_idle, ok_required, ok_preflight, ok_cordoning, ok_draining, ok_upgrading,
    ok_step_validating, ok_reboot_required, ok_rebooting, ok_uncordoning, ok_rollback, ok_failed_state, ok_hostahead, ok_unverified|]).
  - apply ok_idle; [|done]. rewrite !elem_of_cons.
    match goal with E : _ || _ = true |- _ => rewrite orb_true_iff, !bool_decide_eq_true in E end. tauto.
  - m_step I. split; [|done]. exists Quiet. unfold ctl_of, moved. simpl. split; [|by bool_prop]. apply step_reset. bool_prop.
    unfold known_states. rewrite !elem_of_cons, elem_of_nil. tauto.
Qed.
End Handlers.

(** *** The prologue of [TransitionState] *)

(** What [allowed_write], [ctl_of] and [justified] read of an object. *)
Definition same_view (d d' : DriverUpgradeState) : Prop :=
  same_object d d' ∧ ctl_of d' = ctl_of d
  ∧ Us_DesiredVersion (Dus_Status d') = Us_DesiredVersion (Dus_Status d)
  ∧ Us_PreviousVersion (Dus_Status d') = Us_PreviousVersion (Dus_Status d)
  ∧ Us_PreviousImage (Dus_Status d') = Us_PreviousImage (Dus_Status d).
Lemma view_refl d : same_view d d.
Proof. done. Qed.
Lemma view_trans d1 d2 d3 : same_view d1 d2 → same_view d2 d3 → same_view d1 d3.
Proof. intros [(?&?&?&?) (?&?&?&?)] [(?&?&?&?) (?&?&?&?)]. repeat split; congruence. Qed.
Lemma view_stored d d' : stored d d' → same_view d d'.
Proof. intros (E&?&?&?&?). unfold same_view, ctl_of. by rewrite E. Qed.
Lemma view_annotations a d : same_view d (dus_annotations a d).
Proof. done. Qed.
#[export] Hint Resolve view_refl view_trans view_stored view_annotations : safe.
Lemma view_allowed `{MapRange} ns policy d d' wr : same_view d d' → allowed_write ns policy d' wr → allowed_write ns policy d wr.
Proof.
  intros [(En&Eo&Ev&Em) (Ec&Ed&Ep&_)]. injection Ec as Es Ea Eb. unfold allowed_write.
  rewrite En, Eo, Ev, Em, Es, Ea, Eb, Ed, Ep. done.
Qed.
Lemma without_broken_cases d :
  (without_broken d = d ∧ negb (bool_decide (Us_PreviousImage (Dus_Status d) = ""))
                            && negb (isVerifiedBuildTag (Us_PreviousImage (Dus_Status d))) = false)
  ∨ (without_broken d = dus_status (us_PreviousImage "") d ∧ Us_PreviousImage (Dus_Status d) ≠ "").
Proof. unfold without_broken. destruct (_ && _) eqn:E; [right|by left]. split; [done|]. by bool_prop. Qed.
Lemma broken_allowed `{MapRange} ns policy d wr : allowed_write ns policy (without_broken d) wr → allowed_write ns policy d wr.
Proof. by destruct (without_broken_cases d) as [ [-> _]|[-> _] ]. Qed.
Lemma broken_ctl d : ctl_of (without_broken d) = ctl_of d ∧ same_object d (without_broken d).
Proof. by destruct (without_broken_cases d) as [ [-> _]|[-> _] ]. Qed.
Lemma view_justified {W} `{UpgradeAPI W} (I : W → Prop) policy d d' l next :
  same_view d d' → justified I policy d' l next → justified I policy d l next.
Proof.
  intros [(En&Eo&Ev&Em) (Ec&Ed&Ep&Ei)]. injection Ec as Es Ea Eb. unfold justified.
  rewrite Eo, Ev, Em, Es. assert (Himg : rollback_job_image policy d' = rollback_job_image policy d).
  { unfold rollback_job_image. by rewrite Ep, Ei. }
  assert (Hr : returns_somewhere policy d' ↔ returns_somewhere policy d) by (unfold returns_somewhere; by rewrite Himg, Ep).
  destruct l; try done; [by rewrite Hr|]. intros Hu. destruct Hu; rewrite ?Hr, ?Himg, ?Ep in *; by econstructor.
Qed.

Section Transition.
Context {W : Type} `{UpgradeAPILaws W} `{Clock W} `{MapRange} `{Requirements} `{Versions}.
Context (ns : string) (policy : DriverInstallPolicy) (d0 : DriverUpgradeState) (I : W → Prop) `{!ReadOnly I}.
Context (Hw : ∀ wr, allowed_write ns policy d0 wr → sends I wr).
Notation S := (DriverUpgradeState * W)%type.
Notation pass_ok := (pass_ok policy d0 I).

Lemma view_write d wr : same_view d0 d → allowed_write ns policy d wr → sends I wr.
Proof. intros Hv Ha. by apply Hw, (view_allowed _ _ d0 d). Qed.
Lemma view_handle d w : same_view d0 d → I w → wp (handle_state ns policy) pass_ok (d, w).
Proof.
  intros Hv HI. assert (Hs := ok_handle_state ns policy d I (λ wr, view_write d wr Hv) w HI).
  eapply wp_mono; [exact Hs|]. intros r [d' w'] [ (l&Hl&Hj) [Ho HI'] ]. apply (view_justified I policy d0) in Hj; [|done].
  destruct Hv as [(?&?&?&?) (Ec&_)]. destruct Ho as (?&?&?&?). simpl in *.
  split; [exists l; simpl; by rewrite <- Ec|]. repeat split; simpl; congruence || done.
Qed.
Lemma view_clear (Q : () + GoErr → S → Prop) d w : I w →
  (∀ r d' w', same_view d d' → I w' → Q r (d', w')) → wp clearRollbackRequest Q (d, w).
Proof.
  intros HI HQ. unfold wp, clearRollbackRequest. simpl.
  set (d' := dus_annotations _ d). assert (Hs : sends I (WMeta d d')) by (by apply Hw).
  specialize (Hs w HI). simpl in Hs. destruct (dus_patch d d' w) as [[d''|e] w'] eqn:E; simpl in *; [|by apply HQ].
  apply HQ; [|done]. destruct (dus_patch_stored _ _ _ _ _ E) as (Es&?&?&?&?). unfold same_view, ctl_of. by rewrite Es.
Qed.
Lemma view_clear_handle d w : same_view d0 d → I w →
  wp (try clearRollbackRequest ≫= λ _, handle_state ns policy) pass_ok (d, w).
Proof.
  intros Hv HI. wp_step. wp_step. apply view_clear; [done|]. intros r d' w' Hv' HI'. apply view_handle; eauto with safe.
Qed.

Lemma leaf_admin r d w : I w → same_object d0 d → RollbackRequestAccepted (Us_State (Dus_Status d0)) = true →
  ctl_of d = mkCtl UpgradeStateRollback (Us_RollbackAttempts (Dus_Status d0)) (Us_RebootAttempts (Dus_Status d0)) →
  pass_ok r (d, w).
Proof. intros HI Hs Ha Hc. eapply (leaf_ctl _ _ _ Admin); [done|done| |done]. rewrite Hc. by constructor. Qed.
Lemma ok_accept at_ d w : same_view d0 d → RollbackRequestAccepted (Us_State (Dus_Status d0)) = true → I w →
  wp (accept_rollback at_) pass_ok (d, w).
Proof.
  intros Hv Ha HI. destruct (Hv) as [Hs (Hc&_&_)]. injection Hc as Es Ea Eb. unfold accept_rollback. do 4 m_step I.
  set (d1 := moved _ _ _ _).
  assert (Hc1 : ctl_of d1 = mkCtl UpgradeStateRollback (Us_RollbackAttempts (Dus_Status d0)) (Us_RebootAttempts (Dus_Status d0))).
  { unfold d1, ctl_of, moved. simpl. by rewrite Ea, Eb. }
  assert (Hs1 : same_object d0 d1) by done.
  wp_step. apply (wp_update_status I); [|done| |].
  - apply Hw. destruct Hs as (?&?&_). done.
  - intros d2 w2 HI2 Hst2. cbv beta iota. wp_step. wp_step. apply view_clear; [done|].
    intros r d3 w3 [Hs3 (Hc3&_)] HI3. cbv beta iota. wp_step. apply leaf_admin; [done| |done|].
    + destruct (same_stored _ _ _ Hs1 Hst2) as (?&?&?&?). destruct Hs3 as (?&?&?&?). repeat split; congruence.
    + rewrite Hc3. by rewrite (ctl_stored _ _ Hst2).
  - intros e w2 HI2. by apply leaf_admin.
Qed.

Lemma ok_consume d w : same_view d0 d → I w → wp (consume_request ns policy) pass_ok (d, w).
Proof.
  intros Hv HI. unfold consume_request. do 2 m_step I. wp_step; [|by apply view_handle].
  destruct (Hv) as [_ (Hc&_)]. injection Hc as Es _ _.
  repeat (wp_step; [by first [apply view_clear_handle|apply ok_accept; [..|rewrite <- Es|]]|]). by apply view_handle.
Qed.
End Transition.

Section Pass.
Context {W : Type} `{UpgradeAPILaws W} `{Clock W} `{MapRange} `{Requirements} `{Versions}.
Context (ns : string) (policy : DriverInstallPolicy) (d0 : DriverUpgradeState) (I : W → Prop) `{!ReadOnly I}.
Context (Hw : ∀ wr, allowed_write ns policy d0 wr → sends I wr).
Notation S := (DriverUpgradeState * W)%type.

(** A pass that goes no further than the write of the dropped image. *)
Definition refused (w : W) (d : DriverUpgradeState) : Prop :=
  ctl_of d = ctl_of d0 ∧ same_object d0 d ∧ Us_PreviousImage (Dus_Status d0) ≠ ""
  ∧ ∃ e, (dus_status_update (without_broken d0) w).1 = inr e.
Lemma ok_transition w : I w →
  wp (TransitionState ns policy) (λ r s', I s'.2 ∧ (pass_ok policy (without_broken d0) I r s' ∨ refused w s'.1)) (d0, w).
Proof.
  intros HI. unfold TransitionState. wp_step. unfold clear_broken_previous. do 2 m_step I.
  assert (Hok : ∀ d w', same_view (without_broken d0) d → I w' →
    wp (consume_request ns policy) (λ r s', I s'.2 ∧ (pass_ok policy (without_broken d0) I r s' ∨ refused w s'.1)) (d, w')).
  { intros d w' Hv HI'. eapply wp_mono; [apply (ok_consume ns policy (without_broken d0) I); try done|].
    - intros wr Ha. by apply Hw, broken_allowed.
    - intros r s' Hp. split; [apply Hp|by left]. }
  destruct (without_broken_cases d0) as [ [Hd ->]|[Hd Hne] ].
  { wp_step. apply Hok; [by rewrite Hd|done]. }
  wp_step; [|wp_step; apply Hok; [|done]; unfold without_broken in *; by destruct (_ && _)].
  do 2 m_step I. rewrite <- Hd. assert (Hs := Hw (WStatus (without_broken d0))). rewrite Hd in Hs at 1.
  specialize (Hs (conj eq_refl eq_refl) w HI). simpl in Hs.
  unfold wp, update_status. simpl. destruct (dus_status_update (without_broken d0) w) as [ [d'|e] w'] eqn:E; simpl in *.
  - apply Hok; [|done]. apply view_stored. destruct (dus_status_update_stored _ _ _ _ E) as (?&?&?&?&?). by repeat split.
  - split; [done|right]. destruct (broken_ctl d0) as [? ?]. split; [done|]. split; [done|]. split; [done|]. exists e. by rewrite E.
Qed.
End Pass.

(** ** A cluster that stands still

    An instance of the upgrade's API to run passes in: reads answer from a
    record, writes succeed and change nothing but the object in hand, and the
    clock shows one instant.  The witnesses of the upgrade's theorems run here. *)


Record Frozen := mkFrozen {
  F_now : Z;
  F_node : option Node;
  F_report : option NodeDeviceReport;
  F_policies : list DriverInstallPolicy;
  F_states : list DriverUpgradeState;
  F_pods : list Pod;
  F_deployments : list Deployment;
  F_daemonset : option DaemonSet;
  F_job : option Job;
  F_claims : list ResourceClaim;
}.

Definition missing {A} (o : option A) : A + GoErr :=
  match o with Some a => inl a | None => inr (mkErr KNotFound "not found") end.
Definition frozen_ask {A} (f : Frozen → A + GoErr) : M Frozen A := λ w, (f w, w).

#[export] Instance frozen_api : UpgradeAPI Frozen := {|
  node_get _ := frozen_ask (λ w, missing (F_node w));
  node_list := frozen_ask (λ w, inl (option_list (F_node w)));
  node_patch _ _ := mret ();
  report_get _ := frozen_ask (λ w, missing (F_report w));
  report_list := frozen_ask (λ w, inl ((λ r, (Ndr_NodeName r, r)) <$> option_list (F_report w)));
  policy_list := frozen_ask (λ w, inl (F_policies w));
  dus_get n := frozen_ask (λ w, missing (find_first (λ d, bool_decide (Dus_Name d = n)) (F_states w)));
  dus_list := frozen_ask (λ w, inl (F_states w));
  dus_create _ := mret ();
  dus_status_update d := mret d;
  dus_patch base d := mret (dus_status (λ _, Dus_Status base) d);
  dus_status_patch _ d := mret d;
  pod_list := frozen_ask (λ w, inl (F_pods w));
  pod_get ns n := frozen_ask (λ w, missing (find_first (λ p, bool_decide (Pod_Namespace p = ns ∧ Pod_Name p = n)) (F_pods w)));
  pod_create _ := mret ();
  pod_delete _ := mret ();
  pod_evict _ := mret ();
  deployment_list := frozen_ask (λ w, inl (F_deployments w));
  deployment_get ns n := frozen_ask (λ w, missing (find_first (λ d, bool_decide (Dep_Namespace d = ns ∧ Dep_Name d = n)) (F_deployments w)));
  deployment_patch _ _ := mret ();
  daemonset_get _ := frozen_ask (λ w, missing (F_daemonset w));
  daemonset_patch _ _ := mret ();
  job_get _ := frozen_ask (λ w, missing (F_job w));
  job_create _ := mret ();
  job_delete _ := mret ();
  claim_list := frozen_ask (λ w, inl (F_claims w));
|}.
#[export] Instance frozen_clock : Clock Frozen := {| time_now w := (F_now w, w) |}.
#[export] Instance frozen_ticker : Ticker Frozen := {| next_tick := mret true |}.
#[export] Instance frozen_laws : UpgradeAPILaws Frozen.
Proof. split; intros *; intros [= <- <-]; done. Qed.

(** Versions as one decimal number, and requirements of one operator: enough to
    run the machine. *)
#[export] Instance number_versions : Versions | 100 := {|
  Version := Z; ParseGeneric := atoi; GreaterThan a b := b <? a |}.
#[export] Instance in_requirements : Requirements | 100 := {|
  new_requirement key op values :=
    if bool_decide (op = "in") then Some (λ labels, bool_decide (mget "" labels key ∈ values)) else None |}.

(** ** Samples *)

Definition demo_upgrade_policy (auto rollback : bool) : UpgradePolicy :=
  mkUpgradePolicy auto true false 1 1 "5m" "15m" rollback 3 "" (Some 0) 1 "15m".
Definition demo_dip (mode version : string) (auto rollback : bool) : DriverInstallPolicy :=
  mkDIP "dip-a" "uid-dip" 1 "nvidia" "generic"
    (mkDriverSpec version "registry/driver:2-v1" ∅ "" "" DriverInstallerNGC false mode false "" false false)
    [] "" "operator" ∅ (Some (demo_upgrade_policy auto rollback)) [] None None [].
Definition demo_status (state current desired previous : string) : DriverUpgradeStateStatus :=
  mkDusStatus state current desired hour previous "" "" 0 0 zero_time "" "" [] None [] "" "" 0.
Definition demo_dus (state current desired previous : string) : DriverUpgradeState :=
  mkDUS "node-a-nvidia" "uid-dus" 1 "1" ∅ "node-a" "nvidia" "generic" (demo_status state current desired previous).
Definition demo_node : Node := mkNode "node-a" ∅ ∅ false ∅ [mkCondition NodeReady ConditionTrue] "boot-1" "6.8" None.
Definition demo_device (loaded : bool) (version : string) : DeviceEntry :=
  mkDeviceEntry "nvidia" "generic" 1 loaded version "" false 0 "0000:01:00.0" "" "" "" "" "" "".
Definition demo_report (loaded : bool) (version : string) : NodeDeviceReport :=
  mkNDR "node-a" [demo_device loaded version] None None.
Definition demo_world (loaded : bool) (version : string) (pods : list Pod) (job : option Job) : Frozen :=
  mkFrozen (2 * hour) (Some demo_node) (Some (demo_report loaded version)) [] [] pods [] None job [].
