(* ===== verification/UpgradeSafety.v ===== *)
(** * What every pass of the upgrade machine keeps to

    The two specifications of [UpgradeSpec] as theorems about
    [TransitionState]: each pass, whether it ends in an error or not, is a step
    of the control graph, and sends no write but those its state allows.  From
    the first follows the bound on the attempts of a cycle. *)

From S2P Require Import Prelude GoStrings GoTime Naming ApiTypes PolicyTypes IntentResources UpgradeTypes DriverJob DriverImage DraClaim Validators UpgradeNode UpgradeMachine UpgradeSpec UpgradeEffects.

(** What a pass leaves: the object in hand, and the cluster. *)
Definition pass {W} `{UpgradeAPI W} `{Clock W} `{MapRange} `{Requirements} `{Versions}
    (ns : string) (policy : DriverInstallPolicy) (d : DriverUpgradeState) (w : W) : DriverUpgradeState * W :=
  (TransitionState ns policy (d, w)).2.

(** No attempt beyond the one that finds the limit exceeded, and that one only
    in Failed. *)
Definition within (failed : bool) (limit n : Z) : Prop := 0 <= n ∧ (n <= limit ∨ (failed = true ∧ n <= limit + 1)).
Definition attempts_ok (policy : DriverInstallPolicy) (c : Ctl) : Prop :=
  let failed := bool_decide (c_state c = UpgradeStateFailed) in
  within failed (maxRollbacks policy) (c_rollbacks c) ∧ within failed (maxReboots policy) (c_reboots c).

Lemma maxReboots_pos policy : 0 < maxReboots policy.
Proof. unfold maxReboots. destruct (Dip_UpgradePolicy policy); [|lia]. destruct (0 <? _) eqn:E; bool_prop; lia. Qed.
Lemma maxRollbacks_pos policy : 0 < maxRollbacks policy.
Proof. unfold maxRollbacks. destruct (Dip_UpgradePolicy policy); [|lia]. destruct (0 <? _) eqn:E; bool_prop; lia. Qed.
Lemma wrap32_next limit n : limit < 2 ^ 31 - 1 → 0 <= n <= limit → wrap32 (n + 1) = n + 1.
Proof. intros. apply wrap32_id. unfold is_int32, min_int32, max_int32. lia. Qed.

Lemma within_any b limit n : 0 <= n <= limit → within b limit n.
Proof. unfold within. lia. Qed.
Lemma within_live limit n : within false limit n → 0 <= n <= limit.
Proof. unfold within. intros [? [?|[? ?] ] ]; [lia|discriminate]. Qed.

Section Attempts.
Context (policy : DriverInstallPolicy).
Context (Hrb : maxRollbacks policy < 2 ^ 31 - 1) (Hre : maxReboots policy < 2 ^ 31 - 1).

Lemma plain_live s s' : (s, s') ∈ plain_edges → s ≠ UpgradeStateFailed.
Proof.
  assert (Hall : Forall (λ e, e.1 ≠ UpgradeStateFailed) plain_edges) by decide_compute.
  rewrite Forall_forall in Hall. intros Hin. exact (Hall _ Hin).
Qed.
Lemma attempts_live s a b : s ≠ UpgradeStateFailed → attempts_ok policy (mkCtl s a b) →
  0 <= a <= maxRollbacks policy ∧ 0 <= b <= maxReboots policy.
Proof.
  intros Hs. unfold attempts_ok. simpl. rewrite bool_decide_eq_false_2 by done. intros [? ?].
  split; by apply within_live.
Qed.
Lemma attempts_any s a b : 0 <= a <= maxRollbacks policy → 0 <= b <= maxReboots policy → attempts_ok policy (mkCtl s a b).
Proof. intros Ha Hb. split; by apply within_any. Qed.
Lemma attempts_failed a b : 0 <= a <= maxRollbacks policy + 1 → 0 <= b <= maxReboots policy + 1 →
  attempts_ok policy (mkCtl UpgradeStateFailed a b).
Proof. intros Ha Hb. unfold attempts_ok, within. simpl. lia. Qed.

Lemma ctl_step_attempts job l c c' : l ≠ Admin → ctl_step job (maxRollbacks policy) (maxReboots policy) l c c' →
  attempts_ok policy c → attempts_ok policy c'.
Proof.
  pose proof (maxRollbacks_pos policy). pose proof (maxReboots_pos policy).
  intros Hl Hst. revert Hl.
  destruct Hst as [c0|s s' a b He|s a b Hs|s a b Hs|s' a b Hs|s a b Ha|s' a b Hn Hs|a b Hn|s' a b Hj Hs|s' a b Hn Hs|a b Hn]; intros Hl Hok; [done|..].
  - destruct (attempts_live s a b (plain_live _ _ He) Hok). by apply attempts_any.
  - assert (s ≠ UpgradeStateFailed) by (intros ->; apply Hs; decide_compute).
    destruct (attempts_live s a b) as [? ?]; [done..|]. by apply attempts_any.
  - apply attempts_any; lia.
  - apply attempts_any; lia.
  - by destruct Hl.
  - destruct (attempts_live UpgradeStateRollback a b) as [? ?]; [done..|].
    rewrite (wrap32_next (maxRollbacks policy)) in * by lia. apply attempts_any; lia.
  - destruct (attempts_live UpgradeStateRollback a b) as [? ?]; [done..|].
    rewrite (wrap32_next (maxRollbacks policy)) in * by lia. apply attempts_failed; lia.
  - destruct (attempts_live UpgradeStateRollback a b) as [? ?]; [done..|]. by apply attempts_any.
  - destruct (attempts_live UpgradeStateRebootRequired a b) as [? ?]; [done..|].
    rewrite (wrap32_next (maxReboots policy)) in * by lia. apply attempts_any; lia.
  - destruct (attempts_live UpgradeStateRebootRequired a b) as [? ?]; [done..|].
    rewrite (wrap32_next (maxReboots policy)) in * by lia. apply attempts_failed; lia.
Qed.
Lemma admin_step job c c' : ctl_step job (maxRollbacks policy) (maxReboots policy) Admin c c' →
  RollbackRequestAccepted (c_state c) = true ∧ c' = mkCtl UpgradeStateRollback (c_rollbacks c) (c_reboots c).
Proof. by inversion 1. Qed.
End Attempts.

Section Pass.
Context {W : Type} `{UpgradeAPILaws W} `{Clock W} `{MapRange} `{Requirements} `{Versions}.
Context (ns : string) (policy : DriverInstallPolicy).

#[local] Instance anything : ReadOnly (λ _ : W, True).
Proof. by split. Qed.
Notation step := (ctl_step (isJobMode policy) (maxRollbacks policy) (maxReboots policy)).

(** The step of a pass with what it stands on, or the pass that stopped at the
    write of the dropped image. *)
Definition refines (I : W → Prop) (d : DriverUpgradeState) (w : W) (d' : DriverUpgradeState) : Prop :=
  (∃ l, step l (ctl_of d) (ctl_of d') ∧ justified I policy (without_broken d) l (c_state (ctl_of d')))
  ∨ (ctl_of d' = ctl_of d ∧ Us_PreviousImage (Dus_Status d) ≠ "" ∧ ∃ e, (dus_status_update (without_broken d) w).1 = inr e).
Lemma pass_refines (I : W → Prop) d w : ReadOnly I → (∀ wr, allowed_write ns policy d wr → sends I wr) → I w →
  same_object d (pass ns policy d w).1 ∧ refines I d w (pass ns policy d w).1 ∧ I (pass ns policy d w).2.
Proof.
  intros HI Hw Hpre. assert (Hp := ok_transition ns policy d I Hw w Hpre).
  unfold wp in Hp. unfold pass. destruct (TransitionState ns policy (d, w)) as [r s'].
  destruct (broken_ctl d) as [Hc (?&?&?&?)]. destruct Hp as [HI' [(Hl&(?&?&?&?)&_)|(Hc'&Hs&Hne&He)] ].
  - split; [repeat split; congruence|]. split; [left|done]. simpl. by rewrite <- Hc.
  - split; [done|]. split; [by right|done].
Qed.
Lemma pass_ctl d w : let d' := (pass ns policy d w).1 in
  (∃ l, step l (ctl_of d) (ctl_of d')) ∨ ctl_of d' = ctl_of d.
Proof.
  destruct (pass_refines (λ _, True) d w) as (_&[(l&Hl&_)|[Hc _] ]&_); [apply _|by intros wr _ ?|done|left; eauto|by right].
Qed.

(** C11. Every pass of the state machine over a driver upgrade, whether it ends
    in an error or not and whatever the cluster answers, is one step of the
    abstract machine: outside Rollback it stays or follows one of its listed
    edges with the attempt counters unchanged, opens a cycle from Idle with both
    counters at zero, leaves Failed with both at zero, accepts an
    administrator's rollback only in Idle or Failed, or counts exactly one
    reboot attempt; it goes on only while the limits of the policy allow.  In
    Rollback, in the DaemonSet mode, every pass counts exactly one attempt; in
    the Job mode a pass counts one exactly when there is a version and an image
    to return to and the question for the install Job was answered by its
    absence, and the passes that count nothing are the three others: nothing to
    return to, which fails the upgrade, a Job under way for that image, which
    goes to validation, and a leftover or unreadable Job, which stays.  In
    RebootRequired a pass waits without counting only when the reboot is left to
    kured or the report could not be read.  The one pass outside the graph is
    the one that finds a previous image that is no verified build and fails to
    store that it dropped it: it leaves state and counters alone.  The object
    stays the same one. *)
Theorem TransitionState_refines (I : W → Prop) d w (HI : ReadOnly I)
    (Hw : ∀ wr, allowed_write ns policy d wr → sends I wr) (Hpre : I w) :
  let d' := (pass ns policy d w).1 in
  same_object d d'
  ∧ ((∃ l, ctl_step (isJobMode policy) (maxRollbacks policy) (maxReboots policy) l (ctl_of d) (ctl_of d')
           ∧ justified I policy (without_broken d) l (c_state (ctl_of d')))
     ∨ (ctl_of d' = ctl_of d ∧ Us_PreviousImage (Dus_Status d) ≠ ""
        ∧ ∃ e, (dus_status_update (without_broken d) w).1 = inr e)).
Proof. destruct (pass_refines I d w HI Hw Hpre) as (?&?&_). by split. Qed.

(** C12. A pass sends only the writes its state allows: an invariant of the
    cluster that reads and the allowed writes keep holds after the pass.  So a
    node is cordoned only in Cordoning, a pod is evicted only in Draining and
    only when it uses a device on this node, an install Job is created only in
    Upgrading, or in Rollback while the limit of attempts allows, a reboot Job only in RebootRequired and only while
    the limit allows, a Deployment is scaled to zero only in Cordoning. *)
Theorem TransitionState_effects (I : W → Prop) d w (HI : ReadOnly I)
    (Hw : ∀ wr, allowed_write ns policy d wr → sends I wr) (Hpre : I w) :
  I (pass ns policy d w).2.
Proof. by destruct (pass_refines I d w HI Hw Hpre) as (_&_&?). Qed.

(** C21. The attempts of a cycle are bounded: as long as the limits are below
    the largest int32, a pass keeps each counter between zero and the limit, or
    at the limit plus one with the upgrade Failed; the one exception is a pass
    that accepts an administrator's rollback, which moves to Rollback with the
    counters as they were. *)
Theorem attempts_bounded d w (Hrb : maxRollbacks policy < 2 ^ 31 - 1) (Hre : maxReboots policy < 2 ^ 31 - 1)
    (Hok : attempts_ok policy (ctl_of d)) :
  let d' := (pass ns policy d w).1 in
  attempts_ok policy (ctl_of d') ∨
  (RollbackRequestAccepted (Us_State (Dus_Status d)) = true
   ∧ ctl_of d' = mkCtl UpgradeStateRollback (Us_RollbackAttempts (Dus_Status d)) (Us_RebootAttempts (Dus_Status d))).
Proof.
  intros d'. destruct (pass_ctl d w) as [ [l Hl]|Hc]; [|left; unfold d'; by rewrite Hc]. fold d' in Hl.
  destruct (decide (l = Admin)) as [->|Hn].
  - right. exact (admin_step policy _ _ _ Hl).
  - left. by eapply ctl_step_attempts.
Qed.
End Pass.

(** ** Witnesses *)

Definition sample_dip : DriverInstallPolicy := demo_dip "daemonset" "2" true true.
Definition sample_state : DriverUpgradeState := demo_dus UpgradeStateRollback "1" "2" "1".
Definition sample_world : Frozen := demo_world true "1" [] None.
Definition no_cordon (w : Frozen) : Prop := from_option Node_Unschedulable false (F_node w) = false.
#[export] Instance no_cordon_reads : ReadOnly no_cordon.
Proof. by split. Qed.

(** The sample in the Job mode, with its captured image; the world that stands
    still is an invariant of its own, so the answers are those of that world. *)
Definition sample_job_dip : DriverInstallPolicy := demo_dip "job" "2" true true.
Definition sample_job_state : DriverUpgradeState := dus_status (us_PreviousImage "registry/driver:1-v1") sample_state.
#[export] Instance same_world_reads (w0 : Frozen) : ReadOnly (eq w0).
Proof. by split; intros; subst. Qed.
Lemma same_world_sends w0 wr : sends (eq w0) wr.
Proof. intros w ->. by destruct wr. Qed.

Lemma TransitionState_refines_witness :
  (∃ l, ctl_step false 3 1 l (ctl_of sample_state) (ctl_of (pass "kcloud" sample_dip sample_state sample_world).1))
  ∧ c_rollbacks (ctl_of (pass "kcloud" sample_dip sample_state sample_world).1) = 1
  ∧ isJobMode sample_job_dip = true
  ∧ c_rollbacks (ctl_of (pass "kcloud" sample_job_dip sample_job_state sample_world).1) = 1
  ∧ same_object sample_job_state (pass "kcloud" sample_job_dip sample_job_state sample_world).1.
Proof.
  destruct (TransitionState_refines "kcloud" sample_dip (eq sample_world) sample_state sample_world _
              (λ wr _, same_world_sends sample_world wr) eq_refl) as [_ [(l&Hl&_)|(_&Hne&_)] ]; [|by destruct Hne].
  destruct (TransitionState_refines "kcloud" sample_job_dip (eq sample_world) sample_job_state sample_world _
              (λ wr _, same_world_sends sample_world wr) eq_refl) as [Hs _].
  split; [by exists l|]. split; [vm_compute; reflexivity|]. split; [reflexivity|]. split; [vm_compute; reflexivity|exact Hs].
Defined.
Lemma TransitionState_effects_witness : no_cordon (pass "kcloud" sample_dip sample_state sample_world).2.
Proof.
  apply (TransitionState_effects "kcloud" sample_dip no_cordon sample_state sample_world no_cordon_reads); [|reflexivity].
  intros wr _ w Hw. by destruct wr.
Defined.
Lemma attempts_bounded_witness :
  attempts_ok sample_dip (ctl_of (pass "kcloud" sample_dip sample_state sample_world).1).
Proof.
  destruct (attempts_bounded "kcloud" sample_dip sample_state sample_world) as [Hok|[Ha _] ]; [| |..].
  - reflexivity.
  - reflexivity.
  - split; (split; [discriminate|left; discriminate]).
  - exact Hok.
  - discriminate Ha.
Defined.
