(* ===== verification/UpgradeGates.v ===== *)
(** * The gates of an upgrade cycle

    When a cycle may open, when a drained node may be touched, when an upgrade
    counts as validated, and which rollback is not counted as an attempt. *)

From S2P Require Import Prelude GoStrings GoTime Naming ApiTypes PolicyTypes IntentResources UpgradeTypes DriverJob DriverImage DraClaim Validators UpgradeNode UpgradeMachine UpgradeSpec UpgradeEffects.

(** ** Opening a cycle *)

(** The cycle that [d'] has opened from [d]: what its policy and status say. *)
Definition opened_towards (policy : DriverInstallPolicy) (d d' : DriverUpgradeState) : Prop :=
  let s := Dus_Status d in
  let s' := Dus_Status d' in
  Ds_TrackOnly (Dip_Driver policy) = false
  ∧ Us_RollbackAttempts s' = 0 ∧ Us_RebootAttempts s' = 0
  ∧ ( (* job mode reinstalls the version that a rollback restored *)
     (isJobMode policy = true ∧ Us_RolledBackVersion s' ≠ "" ∧ Us_CurrentVersion s ≠ ""
      ∧ Us_DesiredVersion s' = Us_CurrentVersion s)
     ∨ (* a verified target: installed in job mode, or upgraded to *)
     (unverified policy (Us_DesiredVersion s') = false ∧ Us_DesiredVersion s' ≠ "" ∧ Us_RolledBackVersion s' = ""
      ∧ (isJobMode policy = true
         ∨ (auto_upgrade policy = true ∧ Us_DesiredVersion s' ≠ Us_CurrentVersion s ∧ Us_PreviousVersion s' = Us_CurrentVersion s)))).
Definition opens_only (policy : DriverInstallPolicy) (d d' : DriverUpgradeState) : Prop :=
  Us_State (Dus_Status d') = UpgradeStateRequired → opened_towards policy d d'.

Section Idle.
Context {W : Type} `{UpgradeAPILaws W} `{Clock W} `{MapRange} `{Requirements} `{Versions}.
Context (policy : DriverInstallPolicy) (d0 : DriverUpgradeState) (I : W → Prop) `{!ReadOnly I} (HI : ∀ w, I w).
Notation S := (DriverUpgradeState * W)%type.

Definition opens_post : StepOut + GoErr → S → Prop := λ _ s', opens_only policy d0 s'.1.
Lemma opens_other r d w : Us_State (Dus_Status d) ≠ UpgradeStateRequired → opens_post r (d, w).
Proof. by intros ? ?. Qed.
Lemma opens_moved r next msg now d w : next ≠ UpgradeStateRequired → opens_post r (moved next msg now d, w).
Proof. by intros ? ?. Qed.

(** The object as the gates see it: nothing of it is the new cycle's yet. *)
Definition before_gates (d : DriverUpgradeState) : Prop :=
  Us_State (Dus_Status d) ≠ UpgradeStateRequired ∧ Us_CurrentVersion (Dus_Status d) = Us_CurrentVersion (Dus_Status d0).
Lemma before_status f d :
  Us_State (f (Dus_Status d)) = Us_State (Dus_Status d) →
  Us_CurrentVersion (f (Dus_Status d)) = Us_CurrentVersion (Dus_Status d) →
  before_gates d → before_gates (dus_status f d).
Proof. unfold before_gates. simpl. by intros -> ->. Qed.
Lemma before_release desired loaded d : before_gates d → before_gates (dus_status (releaseRollbackHold policy desired loaded) d).
Proof.
  intros Hd. apply before_status; [..|done]; unfold releaseRollbackHold;
  repeat match goal with |- context [if ?b then _ else _] => destruct b end; done.
Qed.
Ltac gate_leaf :=
  first [apply opens_moved; discriminate | apply opens_other; match goal with Hb : before_gates _ |- _ => exact (proj1 Hb) end].

Lemma idle_install_opens desired d w :
  Ds_TrackOnly (Dip_Driver policy) = false → isJobMode policy = true → desired ≠ "" → before_gates d →
  wp (idle_install policy desired (Us_CurrentVersion (Dus_Status d0))) opens_post (d, w).
Proof.
  intros Ht Hm Hd Hb. unfold idle_install, canRestoreHeld, startHeldRestore, refuse_unverified.
  do 3 m_step I.
  - do 3 m_step I. bool_prop. intros _. split; [done|]. split; [done|]. split; [done|]. left. done.
  - wp_step.
    + do 3 m_step I. gate_leaf.
    + do 3 m_step I. intros _. split; [done|]. split; [done|]. split; [done|]. right. split; [done|]. split; [done|]. split; [done|]. by left.
Qed.
Lemma idle_upgrade_opens desired d w :
  Ds_TrackOnly (Dip_Driver policy) = false → before_gates d →
  wp (idle_upgrade policy desired (Us_CurrentVersion (Dus_Status d0))) opens_post (d, w).
Proof.
  intros Ht Hb. unfold idle_upgrade, holdAfterRollback, refuse_unverified.
  repeat (m_step I; try gate_leaf). bool_prop. intros _.
  split; [done|]. split; [done|]. split; [done|]. right. split; [done|]. split; [done|]. split; [done|].
  right. done.
Qed.
Lemma refresh_before (Q : () + GoErr → S → Prop) d w : before_gates d →
  (∀ r d' w', before_gates d' → Q r (d', w')) → wp (refreshResolvedImage policy) Q (d, w).
Proof.
  intros Hb HQ. unfold refreshResolvedImage. repeat m_step I; by apply HQ.
Qed.
Lemma needs_install_before (Q : bool + GoErr → S → Prop) desired current d w :
  (∀ w', isJobMode policy = true → desired ≠ "" → Q (inl true) (d, w')) → (∀ w', Q (inl false) (d, w')) →
  (∀ e w', Q (inr e) (d, w')) → wp (idle_needs_install policy desired current) Q (d, w).
Proof.
  intros Ht Hf He. unfold idle_needs_install, driverNotLoaded. wp_step; [|by wp_step]. bool_prop.
  wp_step; [wp_step; by apply Ht|]. apply (reads_report_has I); [done|]. intros [[]|e] w' _; auto.
Qed.
Lemma idle_opens w : Us_State (Dus_Status d0) ≠ UpgradeStateRequired → wp (handleIdle policy) opens_post (d0, w).
Proof.
  intros Hst. assert (Hb0 : before_gates d0) by done. unfold handleIdle.
  m_step I. apply (reads_loaded I); [done|]. intros [loaded|e] w1 _; [|by apply opens_other]. cbv beta iota.
  set (desired := EffectiveDesiredVersion policy loaded). do 3 m_step I. apply refresh_before; [done|].
  intros [_|e] d1 w2 Hb1; [|by apply opens_other; destruct Hb1]. do 2 m_step I.
  assert (Hb := before_release desired loaded d1 Hb1). set (d2 := dus_status _ d1) in *. clearbody d2. clear Hb0 Hb1.
  wp_step; [repeat m_step I; gate_leaf|]. wp_step. apply (reads_ahead I); [done|].
  intros [ [host [] ]|e] w3 _; [repeat m_step I; gate_leaf| |gate_leaf]. m_step I.
  apply needs_install_before; intros; [by apply idle_install_opens|by apply idle_upgrade_opens|gate_leaf].
Qed.
End Idle.

(** ** Draining and validating *)

Section Gates.
Context {W : Type} `{UpgradeAPILaws W} `{Clock W} `{MapRange} `{Requirements} `{Versions}.
Context (ns : string) (policy : DriverInstallPolicy) (d0 : DriverUpgradeState) (I : W → Prop) `{!ReadOnly I}.
Context (Hw : ∀ wr, allowed_write ns policy d0 wr → sends I wr).
Notation S := (DriverUpgradeState * W)%type.

Lemma wp_api_answer {A} (m : M W A) (Q : A + GoErr → S → Prop) d w :
  safe I m → I w → (∀ r w', r = (m w).1 → I w' → Q r (d, w')) → wp (api m) Q (d, w).
Proof.
  intros Hm HI HQ. unfold wp, api, zoom. specialize (Hm w HI). unfold wp in Hm. simpl.
  destruct (m w) as [r w'] eqn:E. simpl in *. by apply HQ.
Qed.

(** Ended elsewhere than in [next]. *)
Definition avoids (next : string) : StepOut + GoErr → S → Prop := λ _ s', Us_State (Dus_Status s'.1) ≠ next.
Lemma avoids_rollback_or_fail next m1 m2 w : Us_State (Dus_Status d0) ∈ failing_states →
  next ≠ UpgradeStateRollback → next ≠ UpgradeStateFailed → I w → wp (rollback_or_fail policy m1 m2) (avoids next) (d0, w).
Proof.
  intros Hst H1' H2' HI. unfold rollback_or_fail. wp_step.
  - m_step I. unfold avoids. simpl. congruence.
  - apply (ok_failed ns policy d0 I Hw); [done|done|]. intros. unfold avoids. simpl. congruence.
Qed.

Definition still_busy (node : string) : Prop :=
  (∀ w, I w → (hasDeviceWorkloads node w).1 ≠ inl false) ∨ (∀ w, I w → (AssertNoneAllocatedOnNode node w).1 ≠ inl ()).
Lemma draining_avoids up w : Us_State (Dus_Status d0) = UpgradeStateDraining → Dip_UpgradePolicy policy = Some up →
  Up_DrainEnabled up = true → still_busy (Dus_NodeName d0) → I w →
  wp (handleDraining policy) (avoids UpgradeStateUpgrading) (d0, w).
Proof.
  intros Hst Eup Hen Hbusy HI. unfold handleDraining. rewrite Eup, Hen. simpl.
  assert (Hsame : ∀ r w', avoids UpgradeStateUpgrading r (d0, w')) by (intros r w'; unfold avoids; simpl; by rewrite Hst).
  pose proof (safe_drain_plugins ns policy d0 I Hw Hst). pose proof (safe_drain_evict ns policy d0 I Hw up Hst Eup).
  do 4 m_step I; [|apply Hsame]. wp_step; [by apply avoids_rollback_or_fail; [rewrite Hst; decide_compute|..]|].
  do 3 m_step I.
  all: do 2 m_step I; apply wp_api_answer; [unfold hasDeviceWorkloads; safe_tac|done|]; intros [ []|e] w2 Ea HI2; cbv beta iota;
    [repeat m_step I; apply Hsame| |by m_step I; apply Hsame].
  all: do 2 m_step I; apply wp_api_answer; [by apply safe_claims|done|]; intros [ []|e] w3 Ec HI3; cbv beta iota;
    [|repeat m_step I; apply Hsame].
  all: exfalso; destruct Hbusy as [Hb|Hb]; (eapply Hb; [|symmetry; eassumption]; assumption).
Qed.

(** The report of the node, as long as nothing changes it. *)
Definition reported (node : string) (ndr : NodeDeviceReport) : Prop := ∀ w, I w → (report_get node w).1 = inl ndr.
Definition runs_version (devices : list DeviceEntry) (vendor version : string) : Prop :=
  ∃ e, e ∈ devices ∧ equal_fold (De_Vendor e) vendor = true ∧ De_DriverLoaded e = true ∧ De_DriverVersion e = version.
Lemma module_verdict_passed node vendor version devices :
  Passed (module_verdict node vendor version devices) = true → runs_version devices vendor version.
Proof.
  unfold module_verdict. destruct (host_module _) as [ [ver detail] reboot].
  destruct (existsb _ _) eqn:E; [|by destruct (_ && _)]. intros _. apply existsb_exists in E as (e&Hin&Hv).
  apply list_elem_of_In in Hin. unfold module_devices in Hin. apply list_elem_of_filter in Hin as [Hl Hin]. bool_prop.
  exists e. auto.
Qed.

Definition validated (ndr : NodeDeviceReport) (d : DriverUpgradeState) : Prop :=
  let s := Dus_Status d in
  Us_State s = UpgradeStateUncordoning →
  Us_CurrentVersion s = Us_DesiredVersion s ∧ Us_DesiredVersion s = Us_DesiredVersion (Dus_Status d0)
  ∧ (Us_DesiredVersion s = "" ∨ runs_version (Ndr_Devices ndr) (Dus_Vendor d0) (Us_DesiredVersion s)).
Definition validated_post (ndr : NodeDeviceReport) : StepOut + GoErr → S → Prop := λ _ s', validated ndr s'.1.
Lemma module_answer ndr vendor version w : reported (Dus_NodeName d0) ndr → I w → version ≠ "" →
  (DriverModuleValidator_Run (Dus_NodeName d0) vendor version w).1 =
  inl (module_verdict (Dus_NodeName d0) vendor version (Ndr_Devices ndr)).
Proof.
  intros Hr HI Hv. unfold DriverModuleValidator_Run. rewrite bool_decide_eq_false_2 by done. rewrite bind_try.
  by rewrite (Hr w HI).
Qed.
Lemma chain_passed ndr vendor version w : reported (Dus_NodeName d0) ndr → I w →
  (run_validators ns (validatorsFor policy) (Dus_NodeName d0) vendor version w).1 = inl true →
  version = "" ∨ runs_version (Ndr_Devices ndr) vendor version.
Proof.
  intros Hr HI. destruct (decide (version = "")) as [|Hv]; [by left|]. right. revert H5.
  unfold validatorsFor. simpl. rewrite bind_try. rewrite (module_answer ndr) by done.
  destruct (Passed _) eqn:Ep; simpl; [|done]. intros _. by apply module_verdict_passed in Ep.
Qed.

Lemma validated_finish ndr msg w : Us_State (Dus_Status d0) = UpgradeStateValidating → reported (Dus_NodeName d0) ndr → I w →
  wp (finish_validation ns policy msg) (validated_post ndr) (d0, w).
Proof.
  intros Hst Hr HI. unfold finish_validation. do 3 m_step I.
  pose proof (safe_chain ns policy d0 I Hw _ Hst eq_refl) as Hc. apply wp_api_answer; [exact Hc|done|].
  assert (Hsame : ∀ r w', validated_post ndr r (d0, w')).
  { intros r w' Hu. simpl in Hu. rewrite Hst in Hu. discriminate. }
  intros [ []|e] w' Ea HI'; [|repeat m_step I; apply Hsame..]. do 3 m_step I.
  intros _. split; [done|]. split; [done|]. by apply (chain_passed ndr _ _ w).
Qed.
Lemma validated_handle ndr w : Us_State (Dus_Status d0) = UpgradeStateValidating → reported (Dus_NodeName d0) ndr → I w →
  wp (handleValidating ns policy) (validated_post ndr) (d0, w).
Proof.
  intros Hst Hr HI.
  assert (Hsame : ∀ r w', validated_post ndr r (d0, w')).
  { intros r w' Hu. simpl in Hu. rewrite Hst in Hu. discriminate. }
  assert (Hroll : ∀ m1 m2 w', I w' → wp (rollback_or_fail policy m1 m2) (validated_post ndr) (d0, w')).
  { intros m1 m2 w' HI'. eapply wp_mono; [apply (avoids_rollback_or_fail UpgradeStateUncordoning); [rewrite Hst; decide_compute|..]|].
    all: done. }
  assert (Hfin : ∀ msg w', I w' → wp (finish_validation ns policy msg) (validated_post ndr) (d0, w')).
  { intros. by apply validated_finish. }
  pose proof (safe_blocking ns policy d0 I Hw (Dus_NodeName d0) Hst).
  assert (Hpod : ∀ ds image, safe I (isDriverPodReadyOnNode ns ds (Dus_NodeName d0) image)).
  { intros. unfold isDriverPodReadyOnNode. safe_tac. }
  unfold handleValidating. destruct (isJobMode policy) eqn:Hm; [|by repeat m_step I; auto].
  pose proof (λ t, safe_stale ns policy d0 I Hw t Hst Hm). unfold handleValidatingJob. repeat m_step I; auto.
Qed.
Lemma validated_validating ndr w : Us_State (Dus_Status d0) = UpgradeStateValidating → reported (Dus_NodeName d0) ndr → I w →
  wp (step_validating ns policy) (validated_post ndr) (d0, w).
Proof.
  intros Hst Hr HI. unfold step_validating, nodeNeedsReboot. repeat m_step I; try (by apply validated_handle).
  all: intros Hu; simpl in Hu; try rewrite Hst in Hu; discriminate.
Qed.
End Gates.

(** ** A finished Job of the previous version *)

Lemma marked_keeps {A} (f : DriverUpgradeStateStatus → A) policy s :
  (∀ v s, f (us_RolledBackVersion v s) = f s) → (∀ g s, f (us_RolledBackGeneration g s) = f s) →
  f (markRolledBack policy s) = f s.
Proof. intros Hv Hg. unfold markRolledBack. destruct (_ || _); [done|]. by rewrite Hg, Hv. Qed.
Lemma reused_job {W} `{UpgradeAPI W} `{Clock W} ns policy d prev job w :
  isJobMode policy = true → Us_PreviousVersion (Dus_Status d) = prev → prev ≠ "" → Us_PreviousImage (Dus_Status d) ≠ "" →
  (job_get (InstallJobName (Dus_Vendor d) (Dus_Model d) (Dus_NodeName d)) w).1 = inl job →
  jobTargetsInstall job (Us_PreviousImage (Dus_Status d)) prev = true → jobFailed job = false →
  let d' := (handleRollback ns policy (d, w)).2.1 in
  Us_State (Dus_Status d') = UpgradeStateValidating ∧ Us_DesiredVersion (Dus_Status d') = prev
  ∧ Us_RollbackAttempts (Dus_Status d') = Us_RollbackAttempts (Dus_Status d).
Proof.
  intros Hm Hp Hne Himg Hjob Ht Hf.
  change (wp (handleRollback ns policy) (λ _ s', Us_State (Dus_Status s'.1) = UpgradeStateValidating
    ∧ Us_DesiredVersion (Dus_Status s'.1) = prev
    ∧ Us_RollbackAttempts (Dus_Status s'.1) = Us_RollbackAttempts (Dus_Status d)) (d, w)).
  unfold handleRollback. rewrite Hm. unfold handleRollbackJob. wp_step. apply wp_gets. cbn [fst snd]. rewrite Hp.
  rewrite bool_decide_eq_false_2 by done. wp_step. apply wp_modify. cbn [fst snd]. wp_step. apply wp_gets. cbn [fst snd].
  assert (Ei : Us_PreviousImage (Dus_Status (dus_status (markRolledBack policy) d)) = Us_PreviousImage (Dus_Status d))
    by by apply (marked_keeps Us_PreviousImage).
  rewrite Ei. rewrite (bool_decide_eq_false_2 (Us_PreviousImage _ = "")) by done.
  rewrite (bool_decide_eq_false_2 (Us_PreviousImage _ = "")) by done.
  do 2 wp_step. unfold api. apply wp_zoom. simpl. unfold wp.
  destruct (job_get _ w) as [r w'] eqn:E. simpl in *. subst r. rewrite Ht, Hf.
  cbv [mbind M_bind set_status modify transitionTo]. simpl.
  unfold api, zoom, read_clock. simpl. destruct (time_now w') as [now w'']. simpl.
  split; [done|]. split; [done|]. by apply (marked_keeps Us_RollbackAttempts).
Qed.

(** ** The gates *)

Section Theorems.
Context {W : Type} `{UpgradeAPILaws W} `{Clock W} `{MapRange} `{Requirements} `{Versions}.
Context (ns : string) (policy : DriverInstallPolicy).

(** From Idle, or from a state that is new, a pass opens a cycle only if the
    policy installs at all, with both attempt counters at zero, and only towards
    a version that is set and verified: in job mode, or with autoUpgrade on and
    the version different from the one the node runs, which then is the version
    to roll back to, and never towards a version the node was rolled back from.
    The one other target is, in job mode, the version the node runs, which a
    rollback restored. *)
Theorem idle_opens_only (d : DriverUpgradeState) (w : W) (Hst : Us_State (Dus_Status d) ∈ ["" ; UpgradeStateIdle])
    (Hopen : Us_State (Dus_Status (handleIdle policy (d, w)).2.1) = UpgradeStateRequired) :
  opened_towards policy d (handleIdle policy (d, w)).2.1.
Proof.
  assert (ReadOnly (λ _ : W, True)) by (by split). refine (idle_opens policy d (λ _, True) (λ _, Logic.I) w _ Hopen).
  rewrite !elem_of_cons, elem_of_nil in Hst. destruct Hst as [Hst|[Hst|[] ] ]; rewrite Hst; discriminate.
Qed.

(** With the drain enabled, an upgrade does not start on a node that is not
    drained: as long as a pod that uses a device runs there, or a ResourceClaim
    is allocated there, whatever the writes of the pass change, the pass does
    not reach Upgrading. *)
Theorem draining_waits (d : DriverUpgradeState) (up : UpgradePolicy) (I : W → Prop) (w : W) (HI : ReadOnly I)
    (Hw : ∀ wr, allowed_write ns policy d wr → sends I wr)
    (Hst : Us_State (Dus_Status d) = UpgradeStateDraining) (Hup : Dip_UpgradePolicy policy = Some up)
    (Hen : Up_DrainEnabled up = true) (Hbusy : still_busy I (Dus_NodeName d)) (Hpre : I w) :
  Us_State (Dus_Status (handleDraining policy (d, w)).2.1) ≠ UpgradeStateUpgrading.
Proof. exact (draining_avoids ns policy d I Hw up w Hst Hup Hen Hbusy Hpre). Qed.

(** C20. An upgrade counts as validated only if the node runs its version: when
    the pass over a validating upgrade moves on to Uncordoning, the current
    version is set to the desired one, and the node's report shows a loaded
    device of the vendor with exactly that version (unless no version was
    desired), as long as the report does not change during the pass. *)
Theorem uncordons_only_validated (d : DriverUpgradeState) (ndr : NodeDeviceReport) (I : W → Prop) (w : W) (HI : ReadOnly I)
    (Hw : ∀ wr, allowed_write ns policy d wr → sends I wr)
    (Hst : Us_State (Dus_Status d) = UpgradeStateValidating) (Hr : reported I (Dus_NodeName d) ndr) (Hpre : I w)
    (Hnext : Us_State (Dus_Status (step_validating ns policy (d, w)).2.1) = UpgradeStateUncordoning) :
  let s := Dus_Status (step_validating ns policy (d, w)).2.1 in
  Us_CurrentVersion s = Us_DesiredVersion s ∧ Us_DesiredVersion s = Us_DesiredVersion (Dus_Status d)
  ∧ (Us_DesiredVersion s = "" ∨ runs_version (Ndr_Devices ndr) (Dus_Vendor d) (Us_DesiredVersion s)).
Proof. exact (validated_validating ns policy d I Hw ndr w Hst Hr Hpre Hnext). Qed.

(** A rollback that finds a Job of the previous version is not counted: in
    job mode, from Rollback with such a Job that has not failed, the pass goes
    to Validating and the attempt counter stays as it was, so that a node whose
    validation keeps timing out while the finished Job is kept goes round
    Rollback and Validating without ever reaching the limit. *)
Theorem rollback_reuses_finished_job (d : DriverUpgradeState) (w : W) (job : Job) (prev : string)
    (Hmode : isJobMode policy = true)
    (Hprev : Us_PreviousVersion (Dus_Status d) = prev) (Hne : prev ≠ "") (Himg : Us_PreviousImage (Dus_Status d) ≠ "")
    (Hjob : (job_get (InstallJobName (Dus_Vendor d) (Dus_Model d) (Dus_NodeName d)) w).1 = inl job)
    (Htargets : jobTargetsInstall job (Us_PreviousImage (Dus_Status d)) prev = true) (Hok : jobFailed job = false) :
  let d' := (handleRollback ns policy (d, w)).2.1 in
  Us_State (Dus_Status d') = UpgradeStateValidating ∧ Us_DesiredVersion (Dus_Status d') = prev
  ∧ Us_RollbackAttempts (Dus_Status d') = Us_RollbackAttempts (Dus_Status d).
Proof.
  by apply (reused_job ns policy d prev job w).
Qed.
End Theorems.

(** ** Witnesses *)

Definition idle_dip : DriverInstallPolicy := demo_dip "daemonset" "2" true true.
Definition idle_state : DriverUpgradeState := demo_dus UpgradeStateIdle "1" "1" "".
Definition idle_world : Frozen := demo_world true "1" [] None.
Lemma idle_opens_only_witness :
  Us_State (Dus_Status (handleIdle idle_dip (idle_state, idle_world)).2.1) = UpgradeStateRequired
  ∧ opened_towards idle_dip idle_state (handleIdle idle_dip (idle_state, idle_world)).2.1.
Proof.
  assert (Ho : Us_State (Dus_Status (handleIdle idle_dip (idle_state, idle_world)).2.1) = UpgradeStateRequired)
    by (vm_compute; reflexivity).
  split; [exact Ho|]. apply (idle_opens_only idle_dip idle_state idle_world); [decide_compute|exact Ho].
Defined.

#[export] Instance frozen_reads : ReadOnly (λ _ : Frozen, True).
Proof. by split. Qed.
Definition gpu_pod : Pod :=
  mkPod "default" "train-1" ∅ [] "node-a" "" None false 0 [mkContainer "c" "img" [] [] [("nvidia.com/gpu", 1)] false []] []
    "Running" [] [] None zero_time None ∅ [].
Definition busy_world (w : Frozen) : Prop := F_pods w = [gpu_pod].
#[export] Instance busy_reads : ReadOnly busy_world.
Proof. by split. Qed.
Definition draining_state : DriverUpgradeState := demo_dus UpgradeStateDraining "1" "2" "1".
Lemma draining_waits_witness :
  Us_State (Dus_Status (handleDraining idle_dip (draining_state, demo_world true "1" [gpu_pod] None)).2.1) ≠ UpgradeStateUpgrading.
Proof.
  apply (draining_waits "kcloud" idle_dip draining_state (demo_upgrade_policy true true) busy_world _ busy_reads);
    try reflexivity.
  - intros wr _ w Hw. by destruct wr.
  - left. intros w Hw. unfold busy_world in Hw. unfold hasDeviceWorkloads. simpl. unfold fmap, mbind, M_bind, frozen_ask. simpl.
    rewrite Hw. vm_compute. discriminate.
Defined.

Definition plugin_pod : Pod :=
  mkPod "kcloud" "nvidia-device-plugin-x" ∅ [] "node-a" "" None false 0 [] [] "Running"
    [mkCondition ContainersReady ConditionTrue] [] None zero_time None ∅ [].
Definition driver_pod : Pod :=
  mkPod "kcloud" "driver-x" ∅ [mkOwnerRef "DaemonSet" (DriverDSName "nvidia" "generic") "u" true] "node-a" "" None false 0
    [mkContainer "driver" "registry/driver:2-v1" [] [] [] true []] [] "Running" [mkCondition ContainersReady ConditionTrue] [] None zero_time None ∅ [].
Definition validated_start : Frozen :=
  let w := demo_world true "2" [plugin_pod; driver_pod] None in
  mkFrozen (hour + minute) (F_node w) (F_report w) [] [] (F_pods w) [] None None [].
Definition says_two (w : Frozen) : Prop := F_report w = Some (demo_report true "2").
#[export] Instance two_reads : ReadOnly says_two.
Proof. by split. Qed.
Definition validating_state : DriverUpgradeState := demo_dus UpgradeStateValidating "1" "2" "1".
Lemma uncordons_only_validated_witness :
  let s := Dus_Status (step_validating "kcloud" idle_dip (validating_state, validated_start)).2.1 in
  Us_State s = UpgradeStateUncordoning ∧ runs_version [demo_device true "2"] "nvidia" (Us_DesiredVersion s).
Proof.
  intros s. assert (Hs : Us_State s = UpgradeStateUncordoning) by (vm_compute; reflexivity). split; [exact Hs|].
  destruct (uncordons_only_validated "kcloud" idle_dip validating_state (demo_report true "2") says_two validated_start two_reads)
    as (_&_&[Hd|Hd]).
  - intros wr _ w Hw. by destruct wr.
  - reflexivity.
  - intros w Hw. unfold says_two in Hw. simpl. unfold frozen_ask. by rewrite Hw.
  - reflexivity.
  - exact Hs.
  - vm_compute in Hd. discriminate.
  - exact Hd.
Defined.

Definition job_dip : DriverInstallPolicy := demo_dip "job" "2" true true.
Definition rolling_state : DriverUpgradeState :=
  dus_status (us_PreviousImage "registry/driver:1-v1") (demo_dus UpgradeStateRollback "1" "2" "1").
Definition finished_job : Job :=
  let j := RenderRollbackJob "kcloud" job_dip "node-a" "registry/driver:1-v1" "1" in
  mkJob (Job_Name j) (Job_Namespace j) (Job_Labels j) (Job_Owners j) (Job_BackoffLimit j) (Job_TTLSecondsAfterFinished j)
    (Job_ActiveDeadlineSeconds j) (Job_Template j) [mkCondition JobComplete ConditionTrue] 1 (Some hour) ∅ 0.
Lemma rollback_reuses_finished_job_witness :
  Us_State (Dus_Status (handleRollback "kcloud" job_dip (rolling_state, demo_world true "2" [] (Some finished_job))).2.1)
    = UpgradeStateValidating
  ∧ Us_RollbackAttempts (Dus_Status (handleRollback "kcloud" job_dip (rolling_state, demo_world true "2" [] (Some finished_job))).2.1) = 0.
Proof.
  destruct (rollback_reuses_finished_job "kcloud" job_dip rolling_state (demo_world true "2" [] (Some finished_job)) finished_job "1")
    as (Hs&_&Ha); try (vm_compute; reflexivity); try (vm_compute; discriminate).
  split; [exact Hs|exact Ha].
Defined.
