(* ===== verification/PartitionTypes.v ===== *)
(** * AcceleratorPartitionPolicy: the custom resource, the partition package's types and the API

    [acceleratorpartitionpolicy_types.go] in full ([PolicyTypes] has the few fields
    the health monitor and the intent translation read), [partition/backend.go],
    and the objects the partition code reads and writes: the device-plugin
    DaemonSets, the sharing ConfigMaps and the policies themselves.  What a pass
    writes on nodes, pods and Jobs goes through [UpgradeAPI], the same client. *)

From S2P Require Import Prelude GoStrings GoTime ApiTypes PolicyTypes HealthController UpgradeTypes.

(** ** acceleratorpartitionpolicy_types.go: the spec *)

Record PartitionLayout := mkPartitionLayout { Pl_Profile : string; Pl_CountPerDevice : Z }.
#[global] Instance PartitionLayout_eq_dec : EqDecision PartitionLayout.
Proof. solve_decision. Defined.
Record TimeSlicingSpec := mkTimeSlicing { Tsl_Replicas : Z; Tsl_FailRequestsGreaterThanOne : bool }.
Record MPSSpec := mkMPS { Mps_Replicas : Z }.
Record SharingSpec := mkSharingSpec {
  Shs_Mode : string; Shs_TimeSlicing : option TimeSlicingSpec; Shs_MPS : option MPSSpec;
}.
Record AcceleratorPartitionPolicySpec := mkPolicySpec {
  Spec_NodeSelector : gmap string string;
  Spec_Vendor : string;
  Spec_Layout : list PartitionLayout;
  Spec_DeletionPolicy : string;
  Spec_Sharing : option SharingSpec;
}.
Definition DeletionPolicyRetain : string := "Retain".
Definition DeletionPolicyRestoreMode : string := "RestoreMode".
Definition EffectiveSharingMode (s : AcceleratorPartitionPolicySpec) : string :=
  match Spec_Sharing s with
  | None => SharingModeExclusive
  | Some sh => if bool_decide (Shs_Mode sh = "") then SharingModeExclusive else Shs_Mode sh
  end.

(** ** The status *)

(** The journal of one node; the functions below it are Go's assignments. *)
Record ApplyRecord := mkApplyRecord {
  Rec_NodeName : string;
  Rec_GPUPCIs : list string;
  Rec_OwnerUID : string;
  Rec_BaselineGPUCount : Z;
  Rec_ExpectedMigCount : Z;
  Rec_ExpectedFullGPUCount : Z;
  Rec_Profile : string;
  Rec_Count : Z;
  Rec_Generation : Z;
  Rec_MigPhase : string;
  Rec_CordonedByPolicy : bool;
  Rec_RebootAttempts : Z;
  Rec_DisableRebootAttempts : Z;
  Rec_SharingMode : string;
  Rec_SharingReplicas : Z;
  Rec_SharingRolledBackGeneration : Z;
}.
Definition rec_NodeName (v : string) (r : ApplyRecord) : ApplyRecord :=
  mkApplyRecord v (Rec_GPUPCIs r) (Rec_OwnerUID r) (Rec_BaselineGPUCount r) (Rec_ExpectedMigCount r)
  (Rec_ExpectedFullGPUCount r) (Rec_Profile r) (Rec_Count r) (Rec_Generation r) (Rec_MigPhase r)
  (Rec_CordonedByPolicy r) (Rec_RebootAttempts r) (Rec_DisableRebootAttempts r) (Rec_SharingMode r)
  (Rec_SharingReplicas r) (Rec_SharingRolledBackGeneration r).
Definition rec_GPUPCIs (v : list string) (r : ApplyRecord) : ApplyRecord :=
  mkApplyRecord (Rec_NodeName r) v (Rec_OwnerUID r) (Rec_BaselineGPUCount r) (Rec_ExpectedMigCount
  r) (Rec_ExpectedFullGPUCount r) (Rec_Profile r) (Rec_Count r) (Rec_Generation r) (Rec_MigPhase r)
  (Rec_CordonedByPolicy r) (Rec_RebootAttempts r) (Rec_DisableRebootAttempts r) (Rec_SharingMode r)
  (Rec_SharingReplicas r) (Rec_SharingRolledBackGeneration r).
Definition rec_OwnerUID (v : string) (r : ApplyRecord) : ApplyRecord :=
  mkApplyRecord (Rec_NodeName r) (Rec_GPUPCIs r) v (Rec_BaselineGPUCount r) (Rec_ExpectedMigCount r)
  (Rec_ExpectedFullGPUCount r) (Rec_Profile r) (Rec_Count r) (Rec_Generation r) (Rec_MigPhase r)
  (Rec_CordonedByPolicy r) (Rec_RebootAttempts r) (Rec_DisableRebootAttempts r) (Rec_SharingMode r)
  (Rec_SharingReplicas r) (Rec_SharingRolledBackGeneration r).
Definition rec_BaselineGPUCount (v : Z) (r : ApplyRecord) : ApplyRecord :=
  mkApplyRecord (Rec_NodeName r) (Rec_GPUPCIs r) (Rec_OwnerUID r) v (Rec_ExpectedMigCount r)
  (Rec_ExpectedFullGPUCount r) (Rec_Profile r) (Rec_Count r) (Rec_Generation r) (Rec_MigPhase r)
  (Rec_CordonedByPolicy r) (Rec_RebootAttempts r) (Rec_DisableRebootAttempts r) (Rec_SharingMode r)
  (Rec_SharingReplicas r) (Rec_SharingRolledBackGeneration r).
Definition rec_ExpectedMigCount (v : Z) (r : ApplyRecord) : ApplyRecord :=
  mkApplyRecord (Rec_NodeName r) (Rec_GPUPCIs r) (Rec_OwnerUID r) (Rec_BaselineGPUCount r) v
  (Rec_ExpectedFullGPUCount r) (Rec_Profile r) (Rec_Count r) (Rec_Generation r) (Rec_MigPhase r)
  (Rec_CordonedByPolicy r) (Rec_RebootAttempts r) (Rec_DisableRebootAttempts r) (Rec_SharingMode r)
  (Rec_SharingReplicas r) (Rec_SharingRolledBackGeneration r).
Definition rec_ExpectedFullGPUCount (v : Z) (r : ApplyRecord) : ApplyRecord :=
  mkApplyRecord (Rec_NodeName r) (Rec_GPUPCIs r) (Rec_OwnerUID r) (Rec_BaselineGPUCount r)
  (Rec_ExpectedMigCount r) v (Rec_Profile r) (Rec_Count r) (Rec_Generation r) (Rec_MigPhase r)
  (Rec_CordonedByPolicy r) (Rec_RebootAttempts r) (Rec_DisableRebootAttempts r) (Rec_SharingMode r)
  (Rec_SharingReplicas r) (Rec_SharingRolledBackGeneration r).
Definition rec_Profile (v : string) (r : ApplyRecord) : ApplyRecord :=
  mkApplyRecord (Rec_NodeName r) (Rec_GPUPCIs r) (Rec_OwnerUID r) (Rec_BaselineGPUCount r)
  (Rec_ExpectedMigCount r) (Rec_ExpectedFullGPUCount r) v (Rec_Count r) (Rec_Generation r)
  (Rec_MigPhase r) (Rec_CordonedByPolicy r) (Rec_RebootAttempts r) (Rec_DisableRebootAttempts r)
  (Rec_SharingMode r) (Rec_SharingReplicas r) (Rec_SharingRolledBackGeneration r).
Definition rec_Count (v : Z) (r : ApplyRecord) : ApplyRecord :=
  mkApplyRecord (Rec_NodeName r) (Rec_GPUPCIs r) (Rec_OwnerUID r) (Rec_BaselineGPUCount r)
  (Rec_ExpectedMigCount r) (Rec_ExpectedFullGPUCount r) (Rec_Profile r) v (Rec_Generation r)
  (Rec_MigPhase r) (Rec_CordonedByPolicy r) (Rec_RebootAttempts r) (Rec_DisableRebootAttempts r)
  (Rec_SharingMode r) (Rec_SharingReplicas r) (Rec_SharingRolledBackGeneration r).
Definition rec_Generation (v : Z) (r : ApplyRecord) : ApplyRecord :=
  mkApplyRecord (Rec_NodeName r) (Rec_GPUPCIs r) (Rec_OwnerUID r) (Rec_BaselineGPUCount r)
  (Rec_ExpectedMigCount r) (Rec_ExpectedFullGPUCount r) (Rec_Profile r) (Rec_Count r) v
  (Rec_MigPhase r) (Rec_CordonedByPolicy r) (Rec_RebootAttempts r) (Rec_DisableRebootAttempts r)
  (Rec_SharingMode r) (Rec_SharingReplicas r) (Rec_SharingRolledBackGeneration r).
Definition rec_MigPhase (v : string) (r : ApplyRecord) : ApplyRecord :=
  mkApplyRecord (Rec_NodeName r) (Rec_GPUPCIs r) (Rec_OwnerUID r) (Rec_BaselineGPUCount r)
  (Rec_ExpectedMigCount r) (Rec_ExpectedFullGPUCount r) (Rec_Profile r) (Rec_Count r)
  (Rec_Generation r) v (Rec_CordonedByPolicy r) (Rec_RebootAttempts r) (Rec_DisableRebootAttempts r)
  (Rec_SharingMode r) (Rec_SharingReplicas r) (Rec_SharingRolledBackGeneration r).
Definition rec_CordonedByPolicy (v : bool) (r : ApplyRecord) : ApplyRecord :=
  mkApplyRecord (Rec_NodeName r) (Rec_GPUPCIs r) (Rec_OwnerUID r) (Rec_BaselineGPUCount r)
  (Rec_ExpectedMigCount r) (Rec_ExpectedFullGPUCount r) (Rec_Profile r) (Rec_Count r)
  (Rec_Generation r) (Rec_MigPhase r) v (Rec_RebootAttempts r) (Rec_DisableRebootAttempts r)
  (Rec_SharingMode r) (Rec_SharingReplicas r) (Rec_SharingRolledBackGeneration r).
Definition rec_RebootAttempts (v : Z) (r : ApplyRecord) : ApplyRecord :=
  mkApplyRecord (Rec_NodeName r) (Rec_GPUPCIs r) (Rec_OwnerUID r) (Rec_BaselineGPUCount r)
  (Rec_ExpectedMigCount r) (Rec_ExpectedFullGPUCount r) (Rec_Profile r) (Rec_Count r)
  (Rec_Generation r) (Rec_MigPhase r) (Rec_CordonedByPolicy r) v (Rec_DisableRebootAttempts r)
  (Rec_SharingMode r) (Rec_SharingReplicas r) (Rec_SharingRolledBackGeneration r).
Definition rec_DisableRebootAttempts (v : Z) (r : ApplyRecord) : ApplyRecord :=
  mkApplyRecord (Rec_NodeName r) (Rec_GPUPCIs r) (Rec_OwnerUID r) (Rec_BaselineGPUCount r)
  (Rec_ExpectedMigCount r) (Rec_ExpectedFullGPUCount r) (Rec_Profile r) (Rec_Count r)
  (Rec_Generation r) (Rec_MigPhase r) (Rec_CordonedByPolicy r) (Rec_RebootAttempts r) v
  (Rec_SharingMode r) (Rec_SharingReplicas r) (Rec_SharingRolledBackGeneration r).
Definition rec_SharingMode (v : string) (r : ApplyRecord) : ApplyRecord :=
  mkApplyRecord (Rec_NodeName r) (Rec_GPUPCIs r) (Rec_OwnerUID r) (Rec_BaselineGPUCount r)
  (Rec_ExpectedMigCount r) (Rec_ExpectedFullGPUCount r) (Rec_Profile r) (Rec_Count r)
  (Rec_Generation r) (Rec_MigPhase r) (Rec_CordonedByPolicy r) (Rec_RebootAttempts r)
  (Rec_DisableRebootAttempts r) v (Rec_SharingReplicas r) (Rec_SharingRolledBackGeneration r).
Definition rec_SharingReplicas (v : Z) (r : ApplyRecord) : ApplyRecord :=
  mkApplyRecord (Rec_NodeName r) (Rec_GPUPCIs r) (Rec_OwnerUID r) (Rec_BaselineGPUCount r)
  (Rec_ExpectedMigCount r) (Rec_ExpectedFullGPUCount r) (Rec_Profile r) (Rec_Count r)
  (Rec_Generation r) (Rec_MigPhase r) (Rec_CordonedByPolicy r) (Rec_RebootAttempts r)
  (Rec_DisableRebootAttempts r) (Rec_SharingMode r) v (Rec_SharingRolledBackGeneration r).
Definition rec_SharingRolledBackGeneration (v : Z) (r : ApplyRecord) : ApplyRecord :=
  mkApplyRecord (Rec_NodeName r) (Rec_GPUPCIs r) (Rec_OwnerUID r) (Rec_BaselineGPUCount r)
  (Rec_ExpectedMigCount r) (Rec_ExpectedFullGPUCount r) (Rec_Profile r) (Rec_Count r)
  (Rec_Generation r) (Rec_MigPhase r) (Rec_CordonedByPolicy r) (Rec_RebootAttempts r)
  (Rec_DisableRebootAttempts r) (Rec_SharingMode r) (Rec_SharingReplicas r) v.
Definition zero_record : ApplyRecord := mkApplyRecord "" [] "" 0 0 0 "" 0 0 "" false 0 0 "" 0 0.
#[global] Instance ApplyRecord_eq_dec : EqDecision ApplyRecord.
Proof. solve_decision. Defined.

Record RollbackInfo := mkRollbackInfo {
  Rbi_PrevPolicy : string;
  Rbi_Generation : Z;
  Rbi_ResourceVersion : string;
  Rbi_TemplateHash : string;
}.
Definition zero_rollback_info : RollbackInfo := mkRollbackInfo "" 0 "" "".
Record BackendRef := mkBackendRef {
  Bk_Kind : string;
  Bk_Namespace : string;
  Bk_Name : string;
  Bk_UID : string;
  Bk_Version : string;
  Bk_ConfigurationScope : string;
  Bk_Rollback : RollbackInfo;
}.
Definition bk_Rollback (v : RollbackInfo) (r : BackendRef) : BackendRef :=
  mkBackendRef (Bk_Kind r) (Bk_Namespace r) (Bk_Name r) (Bk_UID r) (Bk_Version r)
  (Bk_ConfigurationScope r) v.
Definition zero_backend : BackendRef := mkBackendRef "" "" "" "" "" "" zero_rollback_info.
Record ProfileSupport := mkProfileSupport {
  Psu_Name : string;
  Psu_MaxInstancesPerDevice : Z;
  Psu_SupportLevel : string;
}.
Record PartitionCapability := mkCapability {
  Pcap_HardwareSupported : bool;
  Pcap_PartitionModel : string;
  Pcap_MixedProfilesSupported : bool;
  Pcap_Profiles : list ProfileSupport;
  Pcap_Reason : string;
  Pcap_Verification : string;
}.
Record OperationStatus := mkOperationStatus {
  Ost_Supported : bool;
  Ost_Reason : string;
}.
Record OperationsStatus := mkOperationsStatus {
  Ops_Apply : OperationStatus;
  Ops_Rollback : OperationStatus;
}.
Record DeviceStatus := mkDevice {
  Dv_ID : string;
  Dv_PCIAddress : string;
  Dv_Model : string;
  Dv_PartitionCapability : PartitionCapability;
  Dv_SharingCapability : SharingCapability;
  Dv_IsolationCapability : IsolationCapability;
  Dv_AllocationAPIs : list string;
  Dv_Operations : OperationsStatus;
}.
Definition dv_SharingCapability (v : SharingCapability) (r : DeviceStatus) : DeviceStatus :=
  mkDevice (Dv_ID r) (Dv_PCIAddress r) (Dv_Model r) (Dv_PartitionCapability r) v
  (Dv_IsolationCapability r) (Dv_AllocationAPIs r) (Dv_Operations r).
Definition dv_IsolationCapability (v : IsolationCapability) (r : DeviceStatus) : DeviceStatus :=
  mkDevice (Dv_ID r) (Dv_PCIAddress r) (Dv_Model r) (Dv_PartitionCapability r) (Dv_SharingCapability
  r) v (Dv_AllocationAPIs r) (Dv_Operations r).
Definition dv_AllocationAPIs (v : list string) (r : DeviceStatus) : DeviceStatus :=
  mkDevice (Dv_ID r) (Dv_PCIAddress r) (Dv_Model r) (Dv_PartitionCapability r) (Dv_SharingCapability
  r) (Dv_IsolationCapability r) v (Dv_Operations r).
Record ResolvedLayoutEntry := mkResolvedLayout {
  Rle_Profile : string;
  Rle_BackendPolicy : string;
  Rle_ExpectedCountPerDevice : Z;
}.
Record ObservedLayoutEntry := mkObservedLayout {
  Ole_BackendPolicy : string;
  Ole_ObservedCountPerDevice : Z;
}.
Record AdvertisementStatus := mkAdvertisement {
  Adv_Mode : string;
  Adv_ProfileNamedSupported : bool;
  Adv_Reason : string;
  Adv_AdvertisedResources : gmap string Z;
}.
(** [metav1.Condition] *)
Record StatusCondition := mkStatusCondition {
  Sc_Type : string;
  Sc_Status : string;
  Sc_Reason : string;
  Sc_Message : string;
  Sc_ObservedGeneration : Z;
  Sc_LastTransitionTime : Z;
}.
Definition sc_LastTransitionTime (v : Z) (r : StatusCondition) : StatusCondition :=
  mkStatusCondition (Sc_Type r) (Sc_Status r) (Sc_Reason r) (Sc_Message r) (Sc_ObservedGeneration r)
  v.
Record TargetStatus := mkTarget {
  Ts_NodeName : string;
  Ts_Phase : string;
  Ts_Backend : BackendRef;
  Ts_DriverVersion : string;
  Ts_Devices : list DeviceStatus;
  Ts_RequestedLayout : list PartitionLayout;
  Ts_ResolvedLayout : list ResolvedLayoutEntry;
  Ts_ObservedLayout : list ObservedLayoutEntry;
  Ts_Operations : OperationsStatus;
  Ts_Advertisement : AdvertisementStatus;
  Ts_Conditions : list StatusCondition;
}.
Definition ts_Phase (v : string) (r : TargetStatus) : TargetStatus :=
  mkTarget (Ts_NodeName r) v (Ts_Backend r) (Ts_DriverVersion r) (Ts_Devices r) (Ts_RequestedLayout
  r) (Ts_ResolvedLayout r) (Ts_ObservedLayout r) (Ts_Operations r) (Ts_Advertisement r)
  (Ts_Conditions r).
Definition ts_Backend (v : BackendRef) (r : TargetStatus) : TargetStatus :=
  mkTarget (Ts_NodeName r) (Ts_Phase r) v (Ts_DriverVersion r) (Ts_Devices r) (Ts_RequestedLayout r)
  (Ts_ResolvedLayout r) (Ts_ObservedLayout r) (Ts_Operations r) (Ts_Advertisement r) (Ts_Conditions
  r).
Definition ts_DriverVersion (v : string) (r : TargetStatus) : TargetStatus :=
  mkTarget (Ts_NodeName r) (Ts_Phase r) (Ts_Backend r) v (Ts_Devices r) (Ts_RequestedLayout r)
  (Ts_ResolvedLayout r) (Ts_ObservedLayout r) (Ts_Operations r) (Ts_Advertisement r) (Ts_Conditions
  r).
Definition ts_Devices (v : list DeviceStatus) (r : TargetStatus) : TargetStatus :=
  mkTarget (Ts_NodeName r) (Ts_Phase r) (Ts_Backend r) (Ts_DriverVersion r) v (Ts_RequestedLayout r)
  (Ts_ResolvedLayout r) (Ts_ObservedLayout r) (Ts_Operations r) (Ts_Advertisement r) (Ts_Conditions
  r).
Definition ts_ResolvedLayout (v : list ResolvedLayoutEntry) (r : TargetStatus) : TargetStatus :=
  mkTarget (Ts_NodeName r) (Ts_Phase r) (Ts_Backend r) (Ts_DriverVersion r) (Ts_Devices r)
  (Ts_RequestedLayout r) v (Ts_ObservedLayout r) (Ts_Operations r) (Ts_Advertisement r)
  (Ts_Conditions r).
Definition ts_ObservedLayout (v : list ObservedLayoutEntry) (r : TargetStatus) : TargetStatus :=
  mkTarget (Ts_NodeName r) (Ts_Phase r) (Ts_Backend r) (Ts_DriverVersion r) (Ts_Devices r)
  (Ts_RequestedLayout r) (Ts_ResolvedLayout r) v (Ts_Operations r) (Ts_Advertisement r)
  (Ts_Conditions r).
Definition ts_Operations (v : OperationsStatus) (r : TargetStatus) : TargetStatus :=
  mkTarget (Ts_NodeName r) (Ts_Phase r) (Ts_Backend r) (Ts_DriverVersion r) (Ts_Devices r)
  (Ts_RequestedLayout r) (Ts_ResolvedLayout r) (Ts_ObservedLayout r) v (Ts_Advertisement r)
  (Ts_Conditions r).
Definition ts_Advertisement (v : AdvertisementStatus) (r : TargetStatus) : TargetStatus :=
  mkTarget (Ts_NodeName r) (Ts_Phase r) (Ts_Backend r) (Ts_DriverVersion r) (Ts_Devices r)
  (Ts_RequestedLayout r) (Ts_ResolvedLayout r) (Ts_ObservedLayout r) (Ts_Operations r) v
  (Ts_Conditions r).
Definition ts_Conditions (v : list StatusCondition) (r : TargetStatus) : TargetStatus :=
  mkTarget (Ts_NodeName r) (Ts_Phase r) (Ts_Backend r) (Ts_DriverVersion r) (Ts_Devices r)
  (Ts_RequestedLayout r) (Ts_ResolvedLayout r) (Ts_ObservedLayout r) (Ts_Operations r)
  (Ts_Advertisement r) v.
Definition no_operation : OperationStatus := mkOperationStatus false "".
Definition zero_target (nodeName : string) (layout : list PartitionLayout) : TargetStatus :=
  mkTarget nodeName "" zero_backend "" [] layout [] [] (mkOperationsStatus no_operation no_operation)
    (mkAdvertisement "" false "" ∅) [].
Record AcceleratorPartitionPolicy := mkPolicy {
  Acpp_Name : string;
  Acpp_UID : string;
  Acpp_Generation : Z;
  Acpp_CreationTimestamp : Z;
  Acpp_DeletionTimestamp : option Z;
  Acpp_Finalizers : list string;
  Acpp_ResourceVersion : string;
  Acpp_Spec : AcceleratorPartitionPolicySpec;
  Acpp_ObservedGeneration : Z;
  Acpp_Phase : string;
  Acpp_Targets : list TargetStatus;
  Acpp_ApplyRecords : list ApplyRecord;
}.
Definition acpp_Finalizers (v : list string) (r : AcceleratorPartitionPolicy) : AcceleratorPartitionPolicy :=
  mkPolicy (Acpp_Name r) (Acpp_UID r) (Acpp_Generation r) (Acpp_CreationTimestamp r)
  (Acpp_DeletionTimestamp r) v (Acpp_ResourceVersion r) (Acpp_Spec r) (Acpp_ObservedGeneration r)
  (Acpp_Phase r) (Acpp_Targets r) (Acpp_ApplyRecords r).
Definition acpp_ObservedGeneration (v : Z) (r : AcceleratorPartitionPolicy) : AcceleratorPartitionPolicy :=
  mkPolicy (Acpp_Name r) (Acpp_UID r) (Acpp_Generation r) (Acpp_CreationTimestamp r)
  (Acpp_DeletionTimestamp r) (Acpp_Finalizers r) (Acpp_ResourceVersion r) (Acpp_Spec r) v
  (Acpp_Phase r) (Acpp_Targets r) (Acpp_ApplyRecords r).
Definition acpp_Phase (v : string) (r : AcceleratorPartitionPolicy) : AcceleratorPartitionPolicy :=
  mkPolicy (Acpp_Name r) (Acpp_UID r) (Acpp_Generation r) (Acpp_CreationTimestamp r)
  (Acpp_DeletionTimestamp r) (Acpp_Finalizers r) (Acpp_ResourceVersion r) (Acpp_Spec r)
  (Acpp_ObservedGeneration r) v (Acpp_Targets r) (Acpp_ApplyRecords r).
Definition acpp_Targets (v : list TargetStatus) (r : AcceleratorPartitionPolicy) : AcceleratorPartitionPolicy :=
  mkPolicy (Acpp_Name r) (Acpp_UID r) (Acpp_Generation r) (Acpp_CreationTimestamp r)
  (Acpp_DeletionTimestamp r) (Acpp_Finalizers r) (Acpp_ResourceVersion r) (Acpp_Spec r)
  (Acpp_ObservedGeneration r) (Acpp_Phase r) v (Acpp_ApplyRecords r).
Definition acpp_ApplyRecords (v : list ApplyRecord) (r : AcceleratorPartitionPolicy) : AcceleratorPartitionPolicy :=
  mkPolicy (Acpp_Name r) (Acpp_UID r) (Acpp_Generation r) (Acpp_CreationTimestamp r)
  (Acpp_DeletionTimestamp r) (Acpp_Finalizers r) (Acpp_ResourceVersion r) (Acpp_Spec r)
  (Acpp_ObservedGeneration r) (Acpp_Phase r) (Acpp_Targets r) v.

(** ** Phases, conditions, reasons *)

Definition ACPPPhasePending : string := "Pending".
Definition ACPPPhaseDiscoveringCapabilities : string := "DiscoveringCapabilities".
Definition ACPPPhaseValidating : string := "Validating".
Definition ACPPPhaseWaitingForDrain : string := "WaitingForWorkloadsToDrain".
Definition ACPPPhaseApplying : string := "Applying".
Definition ACPPPhaseRestartingDevicePlugin : string := "RestartingDevicePlugin".
Definition ACPPPhaseVerifyingAllocatable : string := "VerifyingAllocatableResources".
Definition ACPPPhaseVerifyingAllocation : string := "VerifyingWorkloadAllocation".
Definition ACPPPhaseRollingBack : string := "RollingBack".
Definition ACPPPhaseRestored : string := "PreviousConfigurationRestored".
Definition ACPPPhaseRollbackFailed : string := "RollbackFailed".
Definition ACPPPhaseFailed : string := "Failed".
Definition ACPPPhaseUnsupported : string := "Unsupported".
Definition ACPPPhaseDegraded : string := "Degraded".
Definition ACPPCondCapabilitiesDiscovered : string := "CapabilitiesDiscovered".
Definition ACPPCondValidated : string := "Validated".
Definition ACPPCondApplied : string := "Applied".
Definition ACPPCondVerified : string := "Verified".
Definition ACPPCondRolledBack : string := "RollbackSucceeded".
Definition ACPPCondDegraded : string := "Degraded".
Definition ReasonTargetConflict : string := "TargetConflict".
Definition ReasonBackendScopeMismatch : string := "BackendScopeMismatch".
Definition ReasonVendorMismatch : string := "VendorMismatch".
Definition ReasonApplyBackendNotInstalled : string := "ApplyBackendNotInstalled".
Definition ReasonHardwareCapabilityMissing : string := "HardwareCapabilityMissing".
Definition ReasonDevicePluginFlatAdvertisementOnly : string := "DevicePluginFlatAdvertisementOnly".
Definition ReasonQuiesceRequired : string := "QuiesceRequired".
Definition ReasonDriverNotReady : string := "DriverNotReady".
Definition ReasonNodeNotCordoned : string := "NodeNotCordoned".
Definition ReasonExistingMigConfiguration : string := "ExistingMigConfiguration".
Definition ReasonMigModeNotEnabled : string := "MigModeNotEnabled".
Definition ReasonUnstableGpuIdentity : string := "UnstableGpuIdentity".
Definition ReasonObservationUnavailable : string := "ObservationUnavailable".
Definition ReasonBaselineInconsistent : string := "BaselineInconsistent".
Definition ReasonOwnershipConflict : string := "OwnershipConflict".
Definition ReasonSharingUnsupported : string := "SharingUnsupported".
Definition ReasonSharingInvalid : string := "SharingInvalid".
Definition ReasonSharingApplyFailed : string := "SharingApplyFailed".
Definition ReasonSharingNotConverged : string := "SharingNotConverged".
Definition ReasonSharingVerified : string := "SharingVerified".
Definition ReasonSharingDaemonNotReady : string := "SharingDaemonNotReady".
Definition ReasonEvidenceDisagreement : string := "EvidenceDisagreement".
Definition ReasonAdvertisementDrift : string := "AdvertisementDrift".
Definition ReasonAdvertisementDriftSuspected : string := "AdvertisementDriftSuspected".
Definition ReasonAdvertisementConsistent : string := "AdvertisementConsistent".
Definition ReasonAdvertisementCheckSuppressed : string := "AdvertisementCheckSuppressed".
Definition SupportVerified : string := "Verified".
Definition SupportDocumented : string := "Documented".
Definition SupportLegacyDocumented : string := "LegacyDocumented".
Definition MigPhasePrepared : string := "Prepared".
Definition MigPhaseLockAcquired : string := "LockAcquired".
Definition MigPhaseQuiescing : string := "Quiescing".
Definition MigPhaseModeEnabling : string := "ModeEnabling".
Definition MigPhaseRebootRequested : string := "RebootRequested".
Definition MigPhaseRebootWaiting : string := "RebootWaiting".
Definition MigPhaseApplying : string := "Applying".
Definition MigPhaseApplied : string := "Applied".
Definition MigPhaseRestartingDP : string := "RestartingDevicePlugin".
Definition MigPhaseVerifying : string := "Verifying".
Definition MigPhaseReady : string := "Ready".
Definition MigPhaseRollingBack : string := "RollingBack".
Definition MigPhaseRolledBack : string := "RolledBack".
Definition MigPhaseCleanupBlocked : string := "CleanupBlocked".

Definition ConditionFalse : string := "False".
Definition ConditionUnknown : string := "Unknown".

(** [apimeta.FindStatusCondition] and [apimeta.SetStatusCondition] with a new
    condition that carries no transition time: the time moves when the status
    does. *)
Definition FindStatusCondition (conds : list StatusCondition) (ctype : string) : option StatusCondition :=
  find_first (λ c, bool_decide (Sc_Type c = ctype)) conds.
Fixpoint SetStatusCondition (now : Z) (conds : list StatusCondition) (ctype status reason msg : string) (gen : Z)
    : list StatusCondition :=
  match conds with
  | [] => [mkStatusCondition ctype status reason msg gen now]
  | c :: cs =>
      if bool_decide (Sc_Type c = ctype) then
        mkStatusCondition ctype status reason msg gen
          (if bool_decide (Sc_Status c = status) then Sc_LastTransitionTime c else now) :: cs
      else c :: SetStatusCondition now cs ctype status reason msg gen
  end.

(** ** partition/backend.go, partition/sharing.go *)

Record Layout := mkLayout { Lay_Profile : string; Lay_CountPerDevice : Z }.
Record ResolvedEntry := mkResolvedEntry { Re_Profile : string; Re_BackendPolicy : string; Re_ExpectedCountPerDevice : Z }.
Record Target := mkTargetCtx {
  T_NodeName : string;
  T_DaemonSetName : string;
  T_DaemonSetNamespace : string;
  T_Owner : string;
  T_Generation : Z;
  T_Vendor : string;
}.
Definition t_Generation (v : Z) (t : Target) : Target :=
  mkTargetCtx (T_NodeName t) (T_DaemonSetName t) (T_DaemonSetNamespace t) (T_Owner t) v (T_Vendor t).
Record DiscoverResult := mkDiscover {
  Dis_Backend : BackendRef;
  Dis_DriverVersion : string;
  Dis_Devices : list DeviceStatus;
  Dis_Resolved : list ResolvedLayoutEntry;
  Dis_Observed : list ObservedLayoutEntry;
  Dis_Operations : OperationsStatus;
  Dis_Advertisement : AdvertisementStatus;
}.
Record DiffResult := mkDiff { Diff_Changed : bool; Diff_FromPolicy : string; Diff_ToPolicy : string }.
Record RollbackState := mkRollbackState {
  Rb_DaemonSetUID : string; Rb_PrevPolicy : string; Rb_Generation : Z; Rb_ResourceVersion : string; Rb_TemplateHash : string;
}.
Definition rollback_to (policy : string) : RollbackState := mkRollbackState "" policy 0 "" "".
Record VerifyResult := mkVerifyResult {
  Vr_AllocatableConverged : bool;
  Vr_TestPodAllocated : bool;
  Vr_Snapshot : gmap string Z;
  Vr_ProbeExitCode : option Z;
  Vr_ProbeOutput : string;
}.
Definition ErrUnsupported : GoErr := errorf "partition: operation unsupported by backend".
Record SharingLayout := mkSharingLayout { Sl_Mode : string; Sl_Replicas : Z; Sl_FailRequestsGreaterThanOne : bool }.
Record SharingRollbackState := mkSharingRollback { Srb_ConfigMapExisted : bool; Srb_PrevConfigYAML : string }.

(** The hardware seam: the result is [None] where the code returns [nil, nil]. *)
Class Verifier (W : Type) := {
  VerifyAllocatable : Target → gmap string Z → M W (option VerifyResult);
  VerifyAllocation : Target → string → M W (option VerifyResult);
}.

(** ** The objects *)

Inductive PluginVolumeSource := ConfigMapSource (name : string) | HostPathSource (path : string) | OtherSource.
#[global] Instance PluginVolumeSource_eq_dec : EqDecision PluginVolumeSource.
Proof. solve_decision. Defined.
(** A container of a device-plugin DaemonSet; a mount is a volume's name and a path. *)
Record PluginContainer := mkPluginContainer {
  Pc_Name : string;
  Pc_Image : string;
  Pc_Args : list string;
  Pc_Env : list (string * string);
  Pc_VolumeMounts : list (string * string);
}.
Record PluginDaemonSet := mkPluginDS {
  Pds_Name : string;
  Pds_Namespace : string;
  Pds_UID : string;
  Pds_ResourceVersion : string;
  Pds_Annotations : gmap string string;
  Pds_NodeSelector : gmap string string;
  Pds_Containers : list PluginContainer;
  Pds_Volumes : list (string * PluginVolumeSource);
  (** [metadata.generation] and what [status] says of the rollout *)
  Pds_Rollout : HealthController.DaemonSet;
}.
Definition pds_annotations (v : gmap string string) (ds : PluginDaemonSet) : PluginDaemonSet :=
  mkPluginDS (Pds_Name ds) (Pds_Namespace ds) (Pds_UID ds) (Pds_ResourceVersion ds) v (Pds_NodeSelector ds)
    (Pds_Containers ds) (Pds_Volumes ds) (Pds_Rollout ds).
Definition pds_template (cs : list PluginContainer) (vs : list (string * PluginVolumeSource)) (ds : PluginDaemonSet)
    : PluginDaemonSet :=
  mkPluginDS (Pds_Name ds) (Pds_Namespace ds) (Pds_UID ds) (Pds_ResourceVersion ds) (Pds_Annotations ds)
    (Pds_NodeSelector ds) cs vs (Pds_Rollout ds).
Record ConfigMap := mkConfigMap {
  Cm_Name : string; Cm_Namespace : string; Cm_Annotations : gmap string string; Cm_Data : gmap string string;
}.

(** [labels.SelectorFromSet]: every pair is on the object. *)
Definition labels_match (sel labels : gmap string string) : bool :=
  bool_decide (map_Forall (λ k v, labels !! k = Some v) sel).

(** A write returns the stored object where the code goes on with it. *)
Class PartitionAPI (W : Type) := {
  plugin_ds_get : string → string → M W PluginDaemonSet;
  plugin_ds_update : PluginDaemonSet → M W ();
  plugin_ds_patch : PluginDaemonSet → PluginDaemonSet → M W ();
  configmap_get : string → string → M W ConfigMap;
  configmap_create : ConfigMap → M W ();
  configmap_update : ConfigMap → M W ();
  configmap_delete : ConfigMap → M W ();
  acpp_get : string → M W AcceleratorPartitionPolicy;
  acpp_list : M W (list AcceleratorPartitionPolicy);
  acpp_update : AcceleratorPartitionPolicy → M W AcceleratorPartitionPolicy;
  acpp_status_update : AcceleratorPartitionPolicy → M W AcceleratorPartitionPolicy;
  acpp_status_patch : AcceleratorPartitionPolicy → AcceleratorPartitionPolicy → M W AcceleratorPartitionPolicy;
}.

(** The process environment, [os.Getenv]. *)
Class Environment := { Getenv : string → string }.
