(* ===== verification/PartitionProfiles.v ===== *)
(** * internal/partition: layouts, sharing requests and the RNGD table

    Models [profiles.go], [sharing.go] and [rngd/mapping.go]: what can be said of a
    request without looking at a node. *)

From S2P Require Import Prelude GoStrings GoTime GoText ApiTypes PolicyTypes UpgradeTypes DriverImage PartitionTypes.

(** ** profiles.go *)

(** [\d+g\.\d+gb] at the head of the string: the match and what follows it.  The
    character after a run of digits is no digit, so the scan never backtracks. *)
Definition mig_profile_prefix (s : string) : option (string * string) :=
  let (d1, r1) := str_span is_digit s in
  if bool_decide (d1 = "") then None
  else match cut_prefix "g." r1 with
       | None => None
       | Some r2 =>
           let (d2, r3) := str_span is_digit r2 in
           if bool_decide (d2 = "") then None
           else match cut_prefix "gb" r3 with
                | None => None
                | Some rest => Some (d1 +:+ "g." +:+ d2 +:+ "gb", rest)
                end
       end.
Definition IsNvidiaMIGProfile (profile : string) : bool :=
  match mig_profile_prefix profile with Some (_, rest) => bool_decide (rest = "") | None => false end.

Definition ValidateLayoutShape (vendor : string) (layout : list Layout) : option GoErr :=
  match layout with
  | [] => None
  | [l] =>
      if Lay_CountPerDevice l <=? 0 then
        Some (errorf ("partition: countPerDevice must be positive, got " +:+ sprint_Z (Lay_CountPerDevice l)))
      else if bool_decide (vendor = "nvidia") && negb (IsNvidiaMIGProfile (Lay_Profile l)) then
        Some (errorf ("partition: invalid nvidia MIG profile format " +:+ quote (Lay_Profile l)))
      else None
  | _ => Some (errorf ("partition: mixed placement unsupported, got " +:+ sprint_Z (Z.of_nat (length layout))
                         +:+ " layout entries"))
  end.

Definition migProfiles : gmap string (list string) := {[ "a30" := ["1g.6gb"; "2g.12gb"; "4g.24gb"] ]}.
(** [None] for the second result [false]: nothing is known of the product. *)
Definition KnownMIGProfiles `{MapRange} (product : string) : option (list string) :=
  if bool_decide (product = "") || equal_fold product "generic" then None
  else snd <$> find_first (λ kv, DeviceModelMatches product kv.1) (range_map migProfiles).

(** ** sharing.go *)

Definition MaxSharingReplicas : Z := 16.
Definition ErrSharingUnsupported : GoErr := errorf "partition: sharing unsupported by backend".
Definition fmtSharingUnsupported (vendor : string) : GoErr :=
  errorf (err_msg ErrSharingUnsupported +:+ ": vendor " +:+ vendor).

Definition SharingLayoutFrom (spec : AcceleratorPartitionPolicySpec) : SharingLayout :=
  let mode := EffectiveSharingMode spec in
  let none := mkSharingLayout mode 0 false in
  match Spec_Sharing spec with
  | None => none
  | Some sh =>
      if bool_decide (mode = SharingModeTimeSliced) then
        match Shs_TimeSlicing sh with
        | Some ts => mkSharingLayout mode (Tsl_Replicas ts) (Tsl_FailRequestsGreaterThanOne ts)
        | None => none
        end
      else if bool_decide (mode = SharingModeMPS) then
        match Shs_MPS sh with Some m => mkSharingLayout mode (Mps_Replicas m) false | None => none end
      else none
  end.

Definition ValidateSharingLayout (l : SharingLayout) : option GoErr :=
  let mode := Sl_Mode l in
  if bool_decide (mode = SharingModeExclusive) || bool_decide (mode = "") then None
  else if bool_decide (mode = SharingModeTimeSliced) || bool_decide (mode = SharingModeMPS) then
    if Sl_Replicas l <? 2 then
      Some (errorf ("sharing: " +:+ mode +:+ " requires replicas >= 2, got " +:+ sprint_Z (Sl_Replicas l)))
    else if MaxSharingReplicas <? Sl_Replicas l then
      Some (errorf ("sharing: replicas " +:+ sprint_Z (Sl_Replicas l) +:+ " exceeds cap " +:+ sprint_Z MaxSharingReplicas))
    else None
  else Some (errorf ("sharing: unknown mode " +:+ quote mode)).

(** ** rngd/mapping.go *)

Definition ErrProfileUnknown : string := "rngd: profile unknown".
Definition ErrProfileNotSupported : string := "rngd: profile not supported (LegacyDocumented)".
Definition ErrCountMismatch : string := "rngd: countPerDevice mismatch for fixed profile".

Record RngdProfile := mkRngdProfile {
  Rp_Profile : string; Rp_BackendPolicy : string; Rp_CountPerDevice : Z; Rp_CoresPerPartition : Z; Rp_SupportLevel : string;
}.
Definition rngdProfileTable : list RngdProfile :=
  [mkRngdProfile "1core.6gb" "single-core" 8 1 SupportLegacyDocumented;
   mkRngdProfile "2core.12gb" "dual-core" 4 2 SupportVerified;
   mkRngdProfile "4core.24gb" "quad-core" 2 4 SupportVerified].
Definition ResolveProfile (profile : string) : option RngdProfile :=
  find_first (λ p, bool_decide (Rp_Profile p = profile)) rngdProfileTable.
Definition ResolvePolicy (policy : string) : option RngdProfile :=
  find_first (λ p, bool_decide (Rp_BackendPolicy p = policy)) rngdProfileTable.
Definition ValidateLayout (profile : string) (countPerDevice : Z) : option GoErr :=
  match ResolveProfile profile with
  | None => Some (errorf (ErrProfileUnknown +:+ ": " +:+ quote profile))
  | Some p =>
      if bool_decide (Rp_SupportLevel p = SupportLegacyDocumented) then
        Some (errorf (ErrProfileNotSupported +:+ ": " +:+ quote profile))
      else if negb (countPerDevice =? 0) && negb (countPerDevice =? Rp_CountPerDevice p) then
        Some (errorf (ErrCountMismatch +:+ ": " +:+ quote profile +:+ " expects " +:+ sprint_Z (Rp_CountPerDevice p)
                        +:+ ", got " +:+ sprint_Z countPerDevice))
      else None
  end.

(** ** What the request checks let through *)

(** The two directions of the RNGD table are inverse: a profile resolves to a
    policy that resolves back to it, and the partition sizes add up to the card. *)
Lemma rngd_table_bijective p : p ∈ rngdProfileTable →
  ResolveProfile (Rp_Profile p) = Some p ∧ ResolvePolicy (Rp_BackendPolicy p) = Some p
  ∧ Rp_CountPerDevice p * Rp_CoresPerPartition p = 8.
Proof.
  unfold rngdProfileTable. intros Hp.
  repeat (apply elem_of_cons in Hp as [->|Hp]; [by split_and!|]). by apply not_elem_of_nil in Hp.
Qed.

Lemma ValidateLayout_ok profile count : ValidateLayout profile count = None ↔
  ∃ p, ResolveProfile profile = Some p ∧ Rp_SupportLevel p = SupportVerified
       ∧ (count = 0 ∨ count = Rp_CountPerDevice p).
Proof.
  unfold ValidateLayout. destruct (ResolveProfile profile) as [p|] eqn:E; [|naive_solver].
  assert (Hp : p ∈ rngdProfileTable).
  { apply find_first_Some in E as (l1 & l2 & -> & _). set_solver. }
  assert (Hs : Rp_SupportLevel p = SupportLegacyDocumented ∨ Rp_SupportLevel p = SupportVerified).
  { unfold rngdProfileTable in Hp. repeat (apply elem_of_cons in Hp as [->|Hp]; [by auto|]). by apply not_elem_of_nil in Hp. }
  case_bool_decide as Hl.
  - split; [done|]. intros (? & [= <-] & Hv & _). rewrite Hl in Hv. done.
  - destruct Hs as [Hs|Hs]; [done|].
    destruct (Z.eqb_spec count 0), (Z.eqb_spec count (Rp_CountPerDevice p)); simpl; naive_solver.
Qed.

(** A sharing request that passes asks for two to sixteen replicas. *)
Lemma ValidateSharingLayout_ok l : ValidateSharingLayout l = None ↔
  Sl_Mode l = SharingModeExclusive ∨ Sl_Mode l = "" ∨
  ((Sl_Mode l = SharingModeTimeSliced ∨ Sl_Mode l = SharingModeMPS) ∧ 2 <= Sl_Replicas l <= MaxSharingReplicas).
Proof.
  unfold ValidateSharingLayout. destruct l as [mode r f]; simpl.
  repeat case_bool_decide; subst; simpl; try naive_solver;
    destruct (Z.ltb_spec r 2), (Z.ltb_spec MaxSharingReplicas r); naive_solver lia.
Qed.
