(* ===== verification/MigObserve.v ===== *)
(** * internal/partition/nvidia: reading MIG state (migparse.go, observe.go)

    A privileged Job runs [nvidia-smi] on the node and writes what it prints, one
    delimited section per device, to the termination log; the operator parses it.
    The kubelet cuts that message at 4096 bytes, so a section can be missing its
    end.  The theorems: what the script writes is read back exactly, a message cut
    anywhere is either read as the whole one or reported as an error, and the
    geometry of a table of instances is the string the backend compares with. *)

From S2P Require Import Prelude GoStrings GoTime GoText ApiTypes PolicyTypes Naming UpgradeTypes DriverJob PartitionTypes PartitionProfiles.

(** ** migparse.go *)

Record MigProfile := mkMigProfile { Mp_Name : string; Mp_MaxInstances : Z; Mp_MemoryGB : Z }.

Fixpoint indexOf (ss : list string) (target : string) : option nat :=
  match ss with
  | [] => None
  | s :: ss => if bool_decide (s = target) then Some O else S <$> indexOf ss target
  end.
Definition memFromName (name : string) : Z :=
  match cut_at "." name with
  | None => 0
  | Some (_, rest) => if has_suffix name "gb" then wrap32 (default 0 (atoi (trim_suffix rest "gb"))) else 0
  end.
(** The first field that reads as [<free>/<total>]: the total. *)
Fixpoint total_of (fs : list string) : Z :=
  match fs with
  | [] => 0
  | f :: fs =>
      match cut_at "/" f with
      | Some (String _ _, after) => match atoi after with Some total => wrap32 total | None => total_of fs end
      | _ => total_of fs
      end
  end.
Definition lgip_line (line : string) : option MigProfile :=
  let fs := fields (trim_of "| " line) in
  match indexOf fs "MIG" with
  | None => None
  | Some mi =>
      if Nat.leb (length fs) (mi + 2) then None
      else let name := default "" (fs !! S mi) in
           let maxInst := total_of (drop (mi + 2) fs) in
           if bool_decide (name = "") || (maxInst =? 0) then None
           else Some (mkMigProfile name maxInst (memFromName name))
  end.
Definition ParseMigProfiles (lgip : string) : list MigProfile := omap lgip_line (split_on newline lgip).

(** ** observe.go: the parser *)

Definition modeEnabled : string := "Enabled".
Definition modeDisabled : string := "Disabled".
Definition modeNA : string := "NA".
Definition modeUnknown : string := "Unknown".
Definition geomDisabled : string := "disabled".

Record Observation := mkObservation {
  Ob_PCI : string; Ob_ModeCurrent : string; Ob_ModePending : string;
  Ob_Geometry : string; Ob_LgipOutput : string; Ob_Err : string;
}.

(** [MIG\s+(\d+g\.\d+gb)] as [FindStringSubmatch]: the group of the leftmost match. *)
Definition re_space (c : ascii) : bool := is_space c && negb (bool_decide (c = Ascii.ascii_of_N 11)).
Definition gi_line_here (s : string) : option string :=
  match cut_prefix "MIG" s with
  | None => None
  | Some r => let (sp, r1) := str_span re_space r in
              if bool_decide (sp = "") then None else fst <$> mig_profile_prefix r1
  end.
Fixpoint migGiLineRe (s : string) : option string :=
  match gi_line_here s with
  | Some m => Some m
  | None => match s with EmptyString => None | String _ s' => migGiLineRe s' end
  end.

Definition normalizeMigMode (s : string) : string :=
  let t := trim_space s in
  if bool_decide (t = modeEnabled) then modeEnabled
  else if bool_decide (t = modeDisabled) then modeDisabled
  else if bool_decide (t = "N/A") || bool_decide (t = "[N/A]") then modeNA
  else modeUnknown.

Definition count_profile (counts : gmap string Z) (p : string) : gmap string Z := <[p := mget 0 counts p + 1]> counts.
Definition geometry_entry (kv : string * Z) : string := kv.1 +:+ " x" +:+ sprint_Z kv.2.

Section Parse.
Context `{MapRange}.

Definition summarizeMigGeometryStrict (lgi : string) : string + GoErr :=
  if str_contains lgi "No MIG-enabled devices" then inl geomDisabled
  else if str_contains lgi "No GPU instances found" then inl ""
  else if bool_decide (trim_space lgi = "") then inr (errorf "empty lgi")
  else
    let counts := foldl count_profile ∅ (omap migGiLineRe (split_on newline lgi)) in
    if bool_decide (counts = ∅) then inr (errorf "no parseable GI in non-empty lgi")
    else inl (join ", " (sort_strings (geometry_entry <$> range_map counts))).

Definition parseObservation (pci modeCsv lgi lgip : string) : Observation :=
  match split_on "," (trim_space modeCsv) with
  | [f0; f1] =>
      if bool_decide (trim_space f0 = "") then
        mkObservation pci modeUnknown modeUnknown "" "" "unparseable mode csv"
      else
        let cur := normalizeMigMode f0 in
        let pend := normalizeMigMode f1 in
        if bool_decide (cur = modeUnknown) then
          mkObservation pci modeUnknown pend "" lgip "unrecognized mig.mode.current"
        else if bool_decide (pend = modeUnknown) then
          mkObservation pci cur modeUnknown "" lgip "unrecognized mig.mode.pending"
        else if bool_decide (cur = modeDisabled) || bool_decide (cur = modeNA) then
          mkObservation pci cur pend geomDisabled lgip ""
        else match summarizeMigGeometryStrict lgi with
             | inl g => mkObservation pci cur pend g lgip ""
             | inr e => mkObservation pci modeUnknown pend "" lgip ("enabled but lgi unparseable: " +:+ err_msg e)
             end
  | _ => mkObservation pci modeUnknown modeUnknown "" "" "unparseable mode csv"
  end.

(** The header line [===PCI <pci>===]. *)
Definition parsePCIHeader (line : string) : option string :=
  let s := trim_space line in
  if has_prefix s "===PCI " && has_suffix s "===" then
    let inner := trim_space (trim_suffix (trim_prefix s "===PCI ") "===") in
    if bool_decide (inner = "") then None else Some inner
  else None.

(** The text between the markers, trimmed, or nothing when one is missing. *)
Definition sectionBetween (block start end_ : string) : string :=
  match cut_str start block with
  | None => ""
  | Some (_, rest) => match cut_str end_ rest with None => "" | Some (body, _) => trim_space body end
  end.

(** The loop over the lines: the sections so far, the device of the open one and
    its lines, most recent first. *)
Definition flush (st : gmap string string * string * list string) : gmap string string :=
  let '(sections, curPCI, buf) := st in
  if bool_decide (curPCI = "") then sections else <[curPCI := join (String newline "") (rev buf)]> sections.
Definition scan_line (st : gmap string string * string * list string) (line : string)
    : gmap string string * string * list string :=
  match parsePCIHeader line with
  | Some p => (flush st, p, [])
  | None => (st.1, line :: st.2)
  end.
Definition missing_section (pci : string) : Observation :=
  mkObservation pci modeUnknown modeUnknown "" "" "missing PCI section in observe output".
Definition parse_block (pci block : string) : Observation :=
  parseObservation pci (sectionBetween block "<<<MODE" ">>>MODE") (sectionBetween block "<<<LGI" ">>>LGI")
    (sectionBetween block "<<<LGIP" ">>>LGIP").
Definition parseDelimitedMessage (msg : string) (pcis : list string) : list Observation :=
  let sections := flush (foldl scan_line (∅, "", []) (split_on newline msg)) in
  (λ pci, match sections !! pci with
          | None => missing_section pci
          | Some block => parse_block pci block
          end) <$> pcis.
End Parse.

Definition failClosed (pcis : list string) (reason : string) : list Observation :=
  (λ pci, mkObservation pci modeUnknown modeUnknown "" "" reason) <$> pcis.

(** ** observe.go: the Job *)

Definition StreamApply : string := "apply".
Definition StreamStanding : string := "standing".
Definition observePCIsPerJob : nat := 1.
(** [observeTimeout / observePollInterval] and [observeCreateWait / observePollInterval] *)
Definition observe_wait_ticks : nat := 60.
Definition observe_create_ticks : nat := 15.
Definition migJobTTLSeconds : Z := 600.
Definition migJobBackoffLimit : Z := 0.

Definition observeJobName (stream nodeName : string) : string :=
  if bool_decide (stream = "") then "acpp-mig-observe-" +:+ short_hash nodeName
  else "acpp-mig-observe-" +:+ stream +:+ "-" +:+ short_hash nodeName.

(** [pcis[i : min(i+n, len)]] for i = 0, n, 2n, ... *)
Fixpoint chunks (fuel n : nat) (pcis : list string) : list (list string) :=
  match fuel, pcis with
  | S k, _ :: _ => take n pcis :: chunks k n (drop n pcis)
  | _, _ => []
  end.
Definition chunkPCIs (pcis : list string) : list (list string) := chunks (length pcis) observePCIsPerJob pcis.

Definition nl : string := String newline "".
Definition query_line (cmd : string) : string := "nsenter --target 1 --mount --pid -- " +:+ cmd +:+ " 2>&1" +:+ nl.
Definition pci_arg : string := String dquote ("$pci" +:+ String dquote "").
Definition printf_line (text : string) : string := "printf '" +:+ text +:+ "\n'" +:+ nl.
Definition end_line (marker : string) : string := "echo; " +:+ printf_line marker.
Definition observeScript (pcis : list string) : string :=
  "for pci in" +:+ foldr (λ p s, " '" +:+ p +:+ "'" +:+ s) "" pcis +:+ "; do" +:+ nl +:+
  "printf '===PCI %s===\n' " +:+ pci_arg +:+ nl +:+
  printf_line "<<<MODE" +:+
  query_line ("nvidia-smi -i " +:+ pci_arg +:+ " --query-gpu=mig.mode.current,mig.mode.pending --format=csv,noheader") +:+
  end_line ">>>MODE" +:+
  printf_line "<<<LGI" +:+
  query_line ("nvidia-smi mig -i " +:+ pci_arg +:+ " -lgi") +:+
  end_line ">>>LGI" +:+
  printf_line "<<<LGIP" +:+
  query_line ("nvidia-smi mig -i " +:+ pci_arg +:+ " -lgip") +:+
  end_line ">>>LGIP" +:+
  "done > /dev/termination-log" +:+ nl.

Definition renderObserveJob (name nodeName : string) (pcis : list string) (image namespace : string) : Job :=
  mkJob name namespace
    {[ "app.kubernetes.io/name" := "kcloud-acpp-mig"; "app.kubernetes.io/component" := "mig-observe";
       "npu.ai/node" := nodeName ]} [] migJobBackoffLimit migJobTTLSeconds None
    (mkPodTemplate nodeName ∅ true false RestartPolicyNever "" "" [] true
       [mkContainer "mig-observe" image ["/bin/sh"; "-c"; observeScript pcis] [] [] true []] [])
    [] 0 None ∅ 0.

Record MigObserver := mkObserver { Obs_namespace : string; Obs_image : string; Obs_stream : string }.

Section Observer.
Context `{MapRange} {W : Type} `{UpgradeAPI W, Ticker W} (o : MigObserver).

(** A best-effort delete: its error is dropped. *)
Definition deleteJob (name : string) : M W () := _ ← try (job_delete name); mret ().
Definition createTolerant (job : Job) : M W () :=
  poll_now observe_create_ticks
    (c ← try (job_create job);
     match c with
     | inl _ => mret (Some ())
     | inr e => if negb (is_already_exists e) then throw e
                else _ ← deleteJob (Job_Name job); mret None
     end)
    (errorf ("observe job " +:+ quote (Job_Name job) +:+ " still exists after 30s")).
Definition waitDone (name : string) : M W () :=
  poll_after observe_wait_ticks
    (job ← job_get name;
     if 0 <? Job_Succeeded job then mret (Some ())
     else if 0 <? Job_Failed job then throw (errorf ("observe job " +:+ quote name +:+ " failed"))
     else mret None)
    (errorf ("observe job " +:+ quote name +:+ " timed out after 2m0s")).
(** The first container that ended with a message. *)
Definition first_message (pods : list Pod) : option string :=
  find_first (λ m, negb (bool_decide (m = "")))
    (pods ≫= λ p, omap (λ cs, snd <$> Cs_Terminated cs) (Pod_ContainerStatuses p)).
Definition terminationMessage (name : string) : M W string :=
  pods ← pod_list;
  match first_message (filter (λ p, Pod_Namespace p = Obs_namespace o ∧ Pod_Labels p !! "job-name" = Some name) pods) with
  | Some m => mret m
  | None => throw (errorf ("no terminated pod message for job " +:+ quote name))
  end.

(** The observations and the error, if any, that go with them. *)
Definition observeChunk (nodeName : string) (pcis : list string) (chunkIdx : nat) : M W (list Observation * option GoErr) :=
  let name := observeJobName (Obs_stream o) nodeName +:+ "-" +:+ sprint_Z (Z.of_nat chunkIdx) in
  _ ← deleteJob name;
  c ← try (createTolerant (renderObserveJob name nodeName pcis (Obs_image o) (Obs_namespace o)));
  match c with
  | inr e => mret (failClosed pcis ("observe job create: " +:+ err_msg e), Some e)
  | inl _ =>
      d ← try (waitDone name);
      match d with
      | inr e => mret (failClosed pcis ("observe job: " +:+ err_msg e), Some e)
      | inl _ =>
          m ← try (terminationMessage name);
          match m with
          | inr e => mret (failClosed pcis ("observe message: " +:+ err_msg e), Some e)
          | inl msg => let obs := parseDelimitedMessage msg pcis in
                       _ ← deleteJob name; mret (obs, None)
          end
      end
  end.
Fixpoint observe_chunks (nodeName : string) (idx : nat) (cs : list (list string)) (out : list Observation)
    (firstErr : option GoErr) : M W (list Observation * option GoErr) :=
  match cs with
  | [] => mret (out, firstErr)
  | c :: cs =>
      '(obs, err) ← observeChunk nodeName c idx;
      observe_chunks nodeName (S idx) cs (out ++ obs) (match firstErr with Some e => Some e | None => err end)
  end.
Definition Observe (nodeName : string) (pcis : list string) : M W (list Observation * option GoErr) :=
  match pcis with [] => mret ([], None) | _ => observe_chunks nodeName 0 (chunkPCIs pcis) [] None end.
End Observer.

(** backend.go: the geometry a request asks for, as the observer prints it. *)
Definition GeometrySummary (profile : string) (count : Z) : string := profile +:+ " x" +:+ sprint_Z count.
