(* ===== verification/MigReading.v ===== *)
(** * What the MIG observation can be trusted for

    The theorems about [MigObserve]: the parser refuses what it does not
    understand; the text the observe script writes is read back; a message the
    kubelet has cut is read like the whole one or refused; and the geometry string
    counts the instances of the table, whatever their order. *)

From S2P Require Import Prelude GoStrings GoTime GoText ApiTypes PolicyTypes Naming UpgradeTypes DriverJob PartitionTypes PartitionProfiles MigObserve.

(** ** Fail closed *)

Definition read_modes (modeCsv : string) : option (string * string) :=
  match split_on "," (trim_space modeCsv) with
  | [f0; f1] =>
      let cur := normalizeMigMode f0 in
      let pend := normalizeMigMode f1 in
      if bool_decide (cur = modeUnknown ∨ pend = modeUnknown) then None else Some (cur, pend)
  | _ => None
  end.

Lemma normalize_range s : normalizeMigMode s ∈ [modeEnabled; modeDisabled; modeNA; modeUnknown].
Proof. unfold normalizeMigMode. repeat case_match; set_solver. Qed.

Section Reading.
Context `{MapRange}.

(** C24. The observation of a device is error-free exactly when both mode fields
    are recognised and, for an enabled device, the instance table could be read:
    then the geometry is what the table says, and [disabled] for the others.  In
    every other case the error is set: an unread device is never reported as
    disabled or empty. *)
Theorem parseObservation_fail_closed (pci modeCsv lgi lgip : string) :
  let o := parseObservation pci modeCsv lgi lgip in
  match read_modes modeCsv with
  | None => Ob_Err o ≠ "" ∧ Ob_Geometry o = ""
  | Some (cur, pend) =>
      if bool_decide (cur = modeEnabled) then
        match summarizeMigGeometryStrict lgi with
        | inl g => o = mkObservation pci cur pend g lgip ""
        | inr e => Ob_Err o ≠ "" ∧ Ob_ModeCurrent o = modeUnknown ∧ Ob_Geometry o = ""
        end
      else o = mkObservation pci cur pend geomDisabled lgip ""
  end.
Proof.
  cbv zeta. unfold read_modes, parseObservation.
  destruct (split_on "," (trim_space modeCsv)) as [|f0 [|f1 [|f2 l]]]; [by split..| |by split].
  assert (Hblank : trim_space f0 = "" → normalizeMigMode f0 = modeUnknown) by (intros E; unfold normalizeMigMode; by rewrite E).
  pose proof (normalize_range f0) as Hr. set (cur := normalizeMigMode f0) in *. set (pend := normalizeMigMode f1) in *.
  clearbody cur pend. rewrite !elem_of_cons, elem_of_nil in Hr.
  destruct (decide (trim_space f0 = "")) as [Hb|Hb].
  { rewrite (bool_decide_eq_true_2 _ Hb), bool_decide_eq_true_2 by auto. by split. }
  rewrite (bool_decide_eq_false_2 _ Hb). destruct (decide (cur = modeUnknown)) as [Hu|Hu].
  { rewrite (bool_decide_eq_true_2 _ Hu), bool_decide_eq_true_2 by auto. by split. }
  rewrite (bool_decide_eq_false_2 _ Hu). destruct (decide (pend = modeUnknown)) as [Hp|Hp].
  { rewrite (bool_decide_eq_true_2 _ Hp), bool_decide_eq_true_2 by auto. by split. }
  rewrite (bool_decide_eq_false_2 _ Hp), (bool_decide_eq_false_2 (cur = _ ∨ _)) by tauto.
  destruct Hr as [->|[->|[->|[->|[]]]]]; [|done..]. simpl.
  by destruct (summarizeMigGeometryStrict lgi).
Qed.

(** ** The sections of a message *)

Lemma header_is_contained line p : parsePCIHeader line = Some p → str_contains line "===PCI " = true.
Proof.
  unfold parsePCIHeader. destruct (has_prefix (trim_space line) "===PCI ") eqn:E; [|done]. intros _.
  apply has_prefix_true in E as [t E]. destruct (trim_space_infix line) as (a & b & Hl). rewrite Hl.
  apply str_contains_infix. apply str_contains_true. by exists "", t.
Qed.
Lemma no_header text line : str_contains text "===PCI " = false → line ∈ split_on newline text → parsePCIHeader line = None.
Proof.
  intros Hn (a & b & ->)%split_on_infix. destruct (parsePCIHeader line) as [p|] eqn:E; [|done].
  apply header_is_contained in E. apply (str_contains_infix a _ b) in E. congruence.
Qed.
Lemma scan_plain lines st : Forall (λ l, parsePCIHeader l = None) lines →
  foldl scan_line st lines = (st.1, rev lines ++ st.2).
Proof.
  revert st. induction lines as [|l lines IH]; intros [st buf] Hf; [done|]. apply Forall_cons in Hf as [Hl Hf].
  simpl. unfold scan_line at 2. rewrite Hl, IH by done. simpl. by rewrite <-app_assoc.
Qed.
Lemma scan_text text st : str_contains text "===PCI " = false →
  foldl scan_line st (split_on newline text) = (st.1, rev (split_on newline text) ++ st.2).
Proof. intros Hn. apply scan_plain, Forall_forall. intros l. by apply no_header. Qed.

Lemma nl_app s : nl +:+ s = String newline s.
Proof. done. Qed.
Lemma contains_nl x y pat : contains_char pat newline = false →
  str_contains (x +:+ nl +:+ y) pat = str_contains x pat || str_contains y pat.
Proof. intros Hc. rewrite nl_app. by apply str_contains_sep. Qed.
(** A device name: no blanks in it. *)
Definition device_name (pci : string) : Prop := pci ≠ "" ∧ str_forall (λ c, negb (is_space c)) pci = true.
Definition pci_header (pci : string) : string := "===PCI " +:+ pci +:+ "===".

Lemma solid_no_newline s : str_forall (λ c, negb (is_space c)) s = true → contains_char s newline = false.
Proof.
  induction s as [|c s IH]; [done|]. simpl. intros [Hc Hs]%andb_true_iff. apply contains_char_cons. split; [|auto].
  intros ->. done.
Qed.
Lemma contains_char_append a b c : contains_char (a +:+ b) c = false ↔ contains_char a c = false ∧ contains_char b c = false.
Proof.
  induction a as [|d a IH]; [rewrite string_nil_app; split; [done|by intros []]|].
  rewrite string_cons_app, !contains_char_cons, IH. tauto.
Qed.
Lemma header_line pci : device_name pci → contains_char (pci_header pci) newline = false ∧ parsePCIHeader (pci_header pci) = Some pci.
Proof.
  intros [Hne Hs]. split.
  - unfold pci_header. rewrite !contains_char_append. split_and!; [done|by apply solid_no_newline|done].
  - unfold parsePCIHeader.
    assert (Et : trim_space (pci_header pci) = pci_header pci).
    { change (pci_header pci) with (String "=" ("==PCI " +:+ pci +:+ "==" +:+ "=")).
      rewrite !string_app_assoc. apply (trim_space_id "=" (("==PCI " +:+ pci) +:+ "==") "="); done. }
    rewrite Et. unfold pci_header. unfold has_prefix. rewrite cut_prefix_app, bool_decide_true by eauto.
    rewrite (string_app_assoc "===PCI " pci), has_suffix_app. simpl andb. cbv iota.
    rewrite <-string_app_assoc. unfold trim_prefix. rewrite cut_prefix_app. simpl default.
    rewrite trim_suffix_app, trim_space_solid by done. by rewrite bool_decide_false.
Qed.

(** The blocks of a message made of sections, the last one possibly cut. *)
Definition observed_text (pci body : string) : string := pci_header pci +:+ nl +:+ body.

Lemma parse_one pci body : device_name pci → str_contains body "===PCI " = false →
  parseDelimitedMessage (observed_text pci body) [pci] = [parse_block pci body].
Proof.
  intros Hd Hb. destruct (header_line pci Hd) as [Hc Hp]. unfold parseDelimitedMessage, observed_text, nl.
  rewrite string_cons_app, string_nil_app, split_on_app by done. simpl foldl. unfold scan_line at 2. rewrite Hp.
  rewrite scan_text by done. simpl. rewrite app_nil_r, rev_involutive.
  rewrite (bool_decide_eq_false_2 (pci = "")) by apply Hd.
  rewrite lookup_insert_eq. simpl. by rewrite join_split.
Qed.

Lemma section_cut block start end_ tail :
  sectionBetween block start end_ = "" ∨ sectionBetween (block +:+ tail) start end_ = sectionBetween block start end_.
Proof.
  unfold sectionBetween. destruct (cut_str start block) as [[a rest]|] eqn:E; [|by left].
  rewrite (cut_str_grow _ _ _ _ tail E). destruct (cut_str end_ rest) as [[b r]|] eqn:E2; [|by left].
  right. by rewrite (cut_str_grow _ _ _ _ tail E2).
Qed.

(** An observation that carries an error, or says of the device what [full] says. *)
Definition refused_or_agrees (o full : Observation) : Prop :=
  Ob_Err o ≠ "" ∨ (Ob_ModeCurrent o = Ob_ModeCurrent full ∧ Ob_ModePending o = Ob_ModePending full
                   ∧ Ob_Geometry o = Ob_Geometry full ∧ Ob_Err full = "").

Lemma cut_block_refused pci block tail :
  refused_or_agrees (parse_block pci block) (parse_block pci (block +:+ tail)).
Proof.
  unfold parse_block.
  destruct (section_cut block "<<<MODE" ">>>MODE" tail) as [->|Em]; [by left|]. rewrite Em.
  destruct (section_cut block "<<<LGI" ">>>LGI" tail) as [El|El].
  - rewrite El. set (m := sectionBetween block "<<<MODE" ">>>MODE").
    set (g := sectionBetween (block +:+ tail) "<<<LGI" _). set (p := sectionBetween block "<<<LGIP" _).
    pose proof (parseObservation_fail_closed pci m "" p) as H1. cbv zeta in H1.
    pose proof (parseObservation_fail_closed pci m g (sectionBetween (block +:+ tail) "<<<LGIP" ">>>LGIP")) as H2. cbv zeta in H2.
    destruct (read_modes m) as [[cur pend]|]; [|by left; apply H1].
    case_bool_decide; [by left; apply H1|]. right. by rewrite H1, H2.
  - rewrite El. set (m := sectionBetween block "<<<MODE" ">>>MODE"). set (g := sectionBetween block "<<<LGI" _).
    pose proof (parseObservation_fail_closed pci m g (sectionBetween block "<<<LGIP" ">>>LGIP")) as H1. cbv zeta in H1.
    pose proof (parseObservation_fail_closed pci m g (sectionBetween (block +:+ tail) "<<<LGIP" ">>>LGIP")) as H2. cbv zeta in H2.
    destruct (read_modes m) as [[cur pend]|]; [|by left; apply H1].
    case_bool_decide; [|by right; rewrite H1, H2].
    destruct (summarizeMigGeometryStrict g); [by right; rewrite H1, H2|by left; apply H1].
Qed.

Lemma empty_block pci : Ob_Err (parse_block pci "") ≠ "".
Proof. done. Qed.

(** A cut inside the header line leaves no section for the device, or an empty one. *)
Lemma cut_header pci text : contains_char text newline = false →
  ∃ o, parseDelimitedMessage text [pci] = [o] ∧ Ob_Err o ≠ "".
Proof.
  intros Hc. unfold parseDelimitedMessage. rewrite split_on_one by done. simpl. unfold scan_line.
  destruct (parsePCIHeader text) as [p|].
  - simpl. case_bool_decide; simpl.
    + rewrite lookup_empty. eauto using missing_section.
    + destruct (decide (p = pci)) as [->|Hp].
      * rewrite lookup_insert_eq. eexists. split; [done|]. apply empty_block.
      * rewrite lookup_insert_ne, lookup_empty by done. by eexists.
  - simpl. rewrite lookup_empty. by eexists.
Qed.

Lemma prefix_cases (p t a b : string) : p +:+ t = a +:+ b →
  (∃ c, a = p +:+ c) ∨ (∃ c, p = a +:+ c ∧ b = c +:+ t).
Proof.
  revert a. induction p as [|x p IH]; intros a E; [by left; exists a|]. destruct a as [|y a].
  - right. exists (String x p). by rewrite string_nil_app in E |- *.
  - rewrite !string_cons_app in E. injection E as <- E. destruct (IH a E) as [[c ->]|(c & -> & ->)].
    + left. by exists c.
    + right. by exists c.
Qed.

(** The kubelet cuts the message at 4096 bytes.  Wherever the cut falls, in
    the header, in a marker or in a table, the device is either reported with an
    error, which blocks the apply, or with the mode, the pending mode and the
    geometry that the whole message gives, and the whole message is then free of
    errors too. *)
Theorem truncated_message_fails_closed (pci body cut rest : string)
    (Hd : device_name pci) (Hb : str_contains body "===PCI " = false)
    (Hcut : observed_text pci body = cut +:+ rest) :
  ∃ o full, parseDelimitedMessage cut [pci] = [o] ∧ parseDelimitedMessage (observed_text pci body) [pci] = [full]
            ∧ refused_or_agrees o full.
Proof.
  destruct (header_line pci Hd) as [Hc _]. rewrite (parse_one pci body) by done. unfold observed_text in Hcut.
  symmetry in Hcut. destruct (prefix_cases _ _ _ _ Hcut) as [[c Ec]|(c & -> & Er)].
  - destruct (cut_header pci cut) as (o & Eo & He); [|by exists o, (parse_block pci body); split_and!; [| |left]].
    rewrite Ec in Hc. by apply contains_char_append in Hc as [? _].
  - destruct c as [|x c].
    + rewrite string_app_nil_r. destruct (cut_header pci (pci_header pci)) as (o & Eo & He); [done|].
      exists o, (parse_block pci body). split_and!; [done..|by left].
    + unfold nl in Er. rewrite string_cons_app, string_nil_app, string_cons_app in Er. injection Er as <- ->.
      change (String newline c) with (nl +:+ c). change (pci_header pci +:+ nl +:+ c) with (observed_text pci c).
      rewrite parse_one; [|done|].
      * eexists _, _. split_and!; [done..|]. apply cut_block_refused.
      * destruct (str_contains c "===PCI ") eqn:E; [|done]. apply (str_contains_infix "" _ rest) in E.
        rewrite string_nil_app in E. congruence.
Qed.

(** ** What the observe script writes *)

(** The output of [nvidia-smi] for one device: the modes, the instances, the profiles. *)
Record Readings := mkReadings { Rd_PCI : string; Rd_Mode : string; Rd_Lgi : string; Rd_Lgip : string }.
Definition marked (name text tail : string) : string :=
  "<<<" +:+ name +:+ nl +:+ text +:+ nl +:+ ">>>" +:+ name +:+ tail.
Definition readings_text (r : Readings) (tail : string) : string :=
  marked "MODE" (Rd_Mode r) (nl +:+ marked "LGI" (Rd_Lgi r) (nl +:+ marked "LGIP" (Rd_Lgip r) tail)).
(** The loop of the script: a header, then the three sections, each line ended. *)
Definition script_output (rs : list Readings) : string :=
  foldr (λ r s, pci_header (Rd_PCI r) +:+ nl +:+ readings_text r "" +:+ nl +:+ s) "" rs.

Definition no_marker (t : string) : Prop :=
  str_contains t "<<<" = false ∧ str_contains t ">>>" = false ∧ str_contains t "===PCI " = false.
Definition legible (r : Readings) : Prop :=
  device_name (Rd_PCI r) ∧ no_marker (Rd_Mode r) ∧ no_marker (Rd_Lgi r) ∧ no_marker (Rd_Lgip r).

Lemma no_marker_open t name : no_marker t → str_contains t ("<<<" +:+ name) = false.
Proof. intros (? & _ & _). by apply str_contains_shorter. Qed.
Lemma no_marker_close t name : no_marker t → str_contains t (">>>" +:+ name) = false.
Proof. intros (_ & ? & _). by apply str_contains_shorter. Qed.

(** The section that starts the text. *)
Lemma section_here name t tail : contains_char name newline = false → no_marker t →
  sectionBetween (marked name t tail) ("<<<" +:+ name) (">>>" +:+ name) = trim_space t.
Proof.
  intros Hn Ht. unfold sectionBetween, marked.
  assert (E1 : cut_str ("<<<" +:+ name) ("<<<" +:+ name +:+ nl +:+ t +:+ nl +:+ ">>>" +:+ name +:+ tail)
               = Some ("", nl +:+ t +:+ nl +:+ ">>>" +:+ name +:+ tail)).
  { rewrite (string_app_assoc "<<<" name). apply cut_str_here. }
  rewrite E1. rewrite (string_app_assoc nl t), (nl_app (">>>" +:+ _)), (string_app_assoc ">>>" name).
  rewrite cut_str_line; [| | |done].
  - rewrite nl_app. by apply trim_space_around.
  - by apply contains_char_append.
  - rewrite nl_app, <-(string_nil_app (String newline t)), str_contains_sep; [|by apply contains_char_append].
    by rewrite (no_marker_close t) by done.
Qed.

(** A section behind text in which its opening marker does not occur. *)
Lemma section_after start end_ a b : contains_char start newline = false → start ≠ "" →
  str_contains a start = false → has_prefix b start = true →
  sectionBetween (a +:+ nl +:+ b) start end_ = sectionBetween b start end_.
Proof.
  intros Hs Hne Ha [c ->]%has_prefix_true. unfold sectionBetween. rewrite nl_app.
  rewrite cut_str_line by done. by rewrite cut_str_here.
Qed.
Lemma marked_split name t tail :
  marked name t (nl +:+ tail) = ("<<<" +:+ name +:+ nl +:+ t +:+ nl +:+ ">>>" +:+ name) +:+ nl +:+ tail.
Proof. unfold marked. by rewrite !string_app_assoc. Qed.
Lemma marked_without name t pat : contains_char pat newline = false → no_marker t →
  str_contains t pat = false → str_contains ("<<<" +:+ name) pat = false → str_contains (">>>" +:+ name) pat = false →
  str_contains ("<<<" +:+ name +:+ nl +:+ t +:+ nl +:+ ">>>" +:+ name) pat = false.
Proof.
  intros Hc Ht Hp H1 H2. rewrite (string_app_assoc "<<<" name), !nl_app.
  rewrite str_contains_sep by done. rewrite str_contains_sep by done. by rewrite H1, Hp, H2.
Qed.

Lemma parse_readings pci r tail : legible r →
  parse_block pci (readings_text r tail) = parseObservation pci (trim_space (Rd_Mode r)) (trim_space (Rd_Lgi r)) (trim_space (Rd_Lgip r)).
Proof.
  intros (_ & Hm & Hl & Hp). unfold parse_block, readings_text. f_equal.
  - by apply (section_here "MODE").
  - rewrite marked_split, section_after; [by apply (section_here "LGI")|done..| |done].
    apply marked_without; [done..| | |]; [by apply (no_marker_open _ "LGI")|done..].
  - rewrite !marked_split. set (a1 := "<<<" +:+ "MODE" +:+ _). set (a2 := "<<<" +:+ "LGI" +:+ _).
    replace (a1 +:+ nl +:+ a2 +:+ nl +:+ marked "LGIP" (Rd_Lgip r) tail)
      with ((a1 +:+ nl +:+ a2) +:+ nl +:+ marked "LGIP" (Rd_Lgip r) tail) by (by rewrite !string_app_assoc).
    rewrite section_after; [by apply (section_here "LGIP")|done..| |done].
    rewrite nl_app, str_contains_sep by done.
    unfold a1, a2. rewrite !marked_without; try done; by apply (no_marker_open _ "LGIP").
Qed.

Lemma readings_no_header r tail : legible r → str_contains tail "===PCI " = false →
  str_contains (readings_text r (nl +:+ tail)) "===PCI " = false.
Proof.
  intros (_ & Hm & Hl & Hp) Ht. unfold readings_text. rewrite !marked_split, !contains_nl by done.
  rewrite !marked_without; try done; first [by apply Hm|by apply Hl|by apply Hp].
Qed.
Lemma readings_end r : readings_text r "" +:+ nl = readings_text r nl.
Proof. unfold readings_text, marked. by rewrite <-!string_app_assoc. Qed.

Notation scan st text := (flush (foldl scan_line st (split_on newline text))).

(** One section of the output: the open section is closed and the new one is
    left open with the lines of its readings. *)
Lemma scan_section st r text : legible r →
  foldl scan_line st (split_on newline (pci_header (Rd_PCI r) +:+ nl +:+ readings_text r "" +:+ nl +:+ text))
  = foldl scan_line (flush st, Rd_PCI r, rev (split_on newline (readings_text r ""))) (split_on newline text).
Proof.
  intros Hr. destruct (header_line (Rd_PCI r)) as [Hc Hh]; [apply Hr|].
  assert (Eh : scan_line st (pci_header (Rd_PCI r)) = (flush st, Rd_PCI r, [])) by (unfold scan_line; by rewrite Hh).
  rewrite nl_app, split_on_app by done. cbn [foldl]. rewrite Eh.
  rewrite nl_app, split_on_sep, foldl_app, (scan_text (readings_text r "")); [cbn [fst snd]; by rewrite app_nil_r|].
  pose proof (readings_no_header r "" Hr eq_refl) as Hn. rewrite string_app_nil_r, <-readings_end in Hn.
  destruct (str_contains (readings_text r "") "===PCI ") eqn:E; [|done].
  apply (str_contains_infix "" _ nl) in E. rewrite string_nil_app in E. congruence.
Qed.
(** A device without a section in the output is where it was. *)
Lemma scan_other st rs pci : Forall legible rs → pci ∉ Rd_PCI <$> rs →
  scan st (script_output rs) !! pci = flush (if rs is [] then (st.1, "" :: st.2) else st) !! pci.
Proof.
  revert st. induction rs as [|r rs IH]; intros st Hl Hn; [by destruct st as [[]]|].
  apply Forall_cons in Hl as [Hr Hl]. rewrite fmap_cons, not_elem_of_cons in Hn. destruct Hn as [Hne Hn].
  unfold script_output. simpl foldr. fold (script_output rs). rewrite scan_section by done. rewrite IH by done.
  assert (Hgo : ∀ buf, flush (flush st, Rd_PCI r, buf) !! pci = flush st !! pci).
  { intros buf. simpl. case_bool_decide; [done|]. by rewrite lookup_insert_ne. }
  destruct rs; apply Hgo.
Qed.
Lemma scan_own st rs r : Forall legible rs → NoDup (Rd_PCI <$> rs) → r ∈ rs →
  ∃ tail, scan st (script_output rs) !! Rd_PCI r = Some (readings_text r tail).
Proof.
  revert st. induction rs as [|r' rs IH]; intros st Hl Hd; [by intros ?%not_elem_of_nil|].
  apply Forall_cons in Hl as [Hr Hl]. rewrite fmap_cons, NoDup_cons in Hd. destruct Hd as [Hn Hd].
  unfold script_output. simpl foldr. fold (script_output rs). rewrite scan_section by done.
  intros [->|Hin]%elem_of_cons; [|by apply IH].
  rewrite scan_other by done.
  assert (Hne : Rd_PCI r' ≠ "") by apply Hr.
  assert (Hgo : ∀ buf, flush (flush st, Rd_PCI r', buf) !! Rd_PCI r' = Some (join nl (rev buf))).
  { intros buf. simpl. rewrite bool_decide_false by done. by rewrite lookup_insert_eq. }
  destruct rs.
  - exists nl. rewrite <-readings_end. cbn [fst snd]. rewrite Hgo. cbn [rev]. rewrite rev_involutive.
    pose proof (join_split newline (readings_text r' "" +:+ String newline "")) as Hj. rewrite split_on_sep in Hj.
    f_equal. exact Hj.
  - exists "". rewrite Hgo, rev_involutive. f_equal. apply join_split.
Qed.

(** C23. What the observe script writes for a list of devices is read back device
    by device: each observation is the one its own readings give, in the order
    of the devices asked for, however many share the message. *)
Theorem observation_roundtrip (rs : list Readings) (Hl : Forall legible rs) (Hd : NoDup (Rd_PCI <$> rs)) :
  parseDelimitedMessage (script_output rs) (Rd_PCI <$> rs)
  = (λ r, parseObservation (Rd_PCI r) (trim_space (Rd_Mode r)) (trim_space (Rd_Lgi r)) (trim_space (Rd_Lgip r))) <$> rs.
Proof.
  unfold parseDelimitedMessage. rewrite <-list_fmap_compose. apply list_fmap_ext. intros i r Hi.
  apply list_elem_of_lookup_2 in Hi. simpl. destruct (scan_own (∅, "", []) rs r Hl Hd Hi) as [tail ->].
  apply parse_readings. by eapply Forall_forall in Hl.
Qed.

(** ** The geometry string *)

Lemma str_forall_app p a b : str_forall p (a +:+ b) = str_forall p a && str_forall p b.
Proof. induction a as [|c a IH]; [done|]. rewrite string_cons_app. simpl. by rewrite IH, andb_assoc. Qed.
Lemma blank_line_no_gi line : str_forall is_space line = true → migGiLineRe line = None.
Proof.
  induction line as [|c line IH]; [done|]. simpl. intros [Hc Hl]%andb_true_iff. unfold gi_line_here. simpl.
  rewrite bool_decide_false by (by intros <-). auto.
Qed.
Lemma blank_text_no_gi lgi : trim_space lgi = "" → omap migGiLineRe (split_on newline lgi) = [].
Proof.
  intros Hb%trim_space_empty. assert (Hl : Forall (λ l, migGiLineRe l = None) (split_on newline lgi)).
  { apply Forall_forall. intros l (a & b & E)%split_on_infix. apply blank_line_no_gi.
    rewrite E, !str_forall_app in Hb. by apply andb_true_iff in Hb as [_ [? _]%andb_true_iff]. }
  induction Hl as [|l ls Hl _ IH]; [done|]. simpl. by rewrite Hl.
Qed.

Definition count_of (p : string) (l : list string) : Z := Z.of_nat (length (filter (λ x, x = p) l)).
Lemma count_of_cons p q l : count_of p (q :: l) = (if decide (q = p) then 1 else 0) + count_of p l.
Proof. unfold count_of. rewrite filter_cons. case_decide; [simpl length; lia|done]. Qed.
Lemma counts_lookup gis m p : foldl count_profile m gis !! p =
  if decide (p ∈ gis) then Some (mget 0 m p + count_of p gis) else m !! p.
Proof.
  revert m. induction gis as [|q gis IH]; intros m.
  { destruct (decide (p ∈ [])) as [?%not_elem_of_nil|]; done. }
  cbn [foldl]. rewrite IH, count_of_cons. unfold count_profile, mget. destruct (decide (q = p)) as [->|Hne].
  - rewrite lookup_insert_eq. simpl. destruct (decide (p ∈ p :: gis)) as [_|[]]; [|by left].
    case_decide as Hin; f_equal; [lia|]. unfold count_of. rewrite filter_none; [simpl; lia|]. intros x Hx ->. done.
  - rewrite lookup_insert_ne by done. destruct (decide (p ∈ gis)) as [Hin|Hin], (decide (p ∈ q :: gis)) as [Hin'|Hin'].
    + done.
    + destruct Hin'. by right.
    + apply elem_of_cons in Hin' as [->|]; done.
    + done.
Qed.

(** The geometry without a map: the distinct profiles of the table, each with the
    number of its rows, in the order of their text. *)
Definition geometry_of (gis : list string) : string :=
  join ", " (sort_strings ((λ p, GeometrySummary p (count_of p gis)) <$> remove_dups gis)).

Lemma count_entries gis :
  range_map (foldl count_profile ∅ gis) ≡ₚ (λ p, (p, count_of p gis)) <$> remove_dups gis.
Proof.
  apply NoDup_Permutation.
  - eapply NoDup_fmap_1, range_map_fst_NoDup.
  - apply NoDup_fmap_2; [by intros ?? [= ->]|apply NoDup_remove_dups].
  - intros [p n]. rewrite elem_of_range_map, counts_lookup, list_elem_of_fmap. split.
    + case_decide as Hin; [|by rewrite lookup_empty]. intros [= <-]. exists p.
      by rewrite elem_of_remove_dups.
    + intros (q & [= -> ->] & Hin). rewrite elem_of_remove_dups in Hin. by rewrite decide_True.
Qed.

(** The geometry the observer reports for an instance table is the reference
    one: each profile once with the number of its rows, sorted, whatever order the
    rows or the map's iteration come in; a table without a readable row is an
    error, and never an empty geometry. *)
Theorem geometry_is_row_count (lgi : string)
    (Hm : str_contains lgi "No MIG-enabled devices" = false)
    (Hg : str_contains lgi "No GPU instances found" = false) :
  let gis := omap migGiLineRe (split_on newline lgi) in
  match gis with
  | [] => ∃ e, summarizeMigGeometryStrict lgi = inr e
  | _ => summarizeMigGeometryStrict lgi = inl (geometry_of gis)
  end.
Proof.
  cbv zeta. unfold summarizeMigGeometryStrict. rewrite Hm, Hg. case_bool_decide as Hb.
  { rewrite blank_text_no_gi by done. eauto. }
  destruct (omap migGiLineRe (split_on newline lgi)) as [|p gis] eqn:E; [rewrite bool_decide_true by done; eauto|].
  rewrite bool_decide_false.
  - f_equal. unfold geometry_of. f_equal. apply sort_strings_unique. rewrite count_entries, <-list_fmap_compose. done.
  - intros E0. pose proof (counts_lookup (p :: gis) ∅ p) as Hl. rewrite E0, lookup_empty, decide_True in Hl by (by left). done.
Qed.

(** A table of [n] instances of one profile is the geometry a request for them asks for. *)
Lemma uniform_geometry p n : (0 < n)%nat → geometry_of (replicate n p) = GeometrySummary p (Z.of_nat n).
Proof.
  intros Hn. assert (Hd : remove_dups (replicate n p) = [p]).
  { induction n as [|[|n] IH]; [lia|done|]. change (replicate (S (S n)) p) with (p :: replicate (S n) p).
    assert (Hin : p ∈ replicate (S n) p) by by left. revert IH Hin. generalize (replicate (S n) p) as l.
    intros l IH Hin. cbn [remove_dups]. destruct (decide_rel _ _ _); [apply IH; lia|done]. }
  assert (Hc : ∀ k, count_of p (replicate k p) = Z.of_nat k).
  { clear. induction k as [|k IH]; [done|]. cbn [replicate]. rewrite count_of_cons, decide_True by done. lia. }
  unfold geometry_of. rewrite Hd. simpl. by rewrite Hc.
Qed.
End Reading.

(** ** Runs *)

Definition demo_lgi : string := join nl
  ["+-------------------------------------------------------+";
   "| GPU instances:                                        |";
   "|   0  MIG 1g.6gb       14        3          0:1     |";
   "|   0  MIG 2g.12gb       5        1          2:2     |";
   "|   0  MIG 1g.6gb       14        4          1:1     |"].
Definition demo_readings : Readings := mkReadings "00000000:01:00.0" "Enabled, Enabled" demo_lgi
  "|   0  MIG 1g.6gb       14     2/4        5.81       No     14     1     0   |".

Lemma geometry_is_row_count_witness :
  summarizeMigGeometryStrict demo_lgi = inl "1g.6gb x2, 2g.12gb x1".
Proof. rewrite (geometry_is_row_count demo_lgi); [by vm_compute|by vm_compute..]. Defined.

Lemma demo_legible : legible demo_readings.
Proof. split_and!; by vm_compute. Qed.
Lemma observation_roundtrip_witness :
  parseDelimitedMessage (script_output [demo_readings]) ["00000000:01:00.0"]
  = [mkObservation "00000000:01:00.0" "Enabled" "Enabled" "1g.6gb x2, 2g.12gb x1" (trim_space (Rd_Lgip demo_readings)) ""].
Proof.
  rewrite (observation_roundtrip [demo_readings]); [by vm_compute| |].
  - apply Forall_singleton, demo_legible.
  - apply NoDup_singleton.
Defined.

(** A message cut inside its instance table, one row short. *)
Definition cut_message : string :=
  String.substring 0 220 (observed_text "00000000:01:00.0" (readings_text demo_readings nl)).
Definition cut_rest : string :=
  String.substring 220 1000 (observed_text "00000000:01:00.0" (readings_text demo_readings nl)).
Lemma truncated_message_fails_closed_witness :
  str_contains cut_message "MIG 1g.6gb" = true ∧
  ∃ o full, parseDelimitedMessage cut_message ["00000000:01:00.0"] = [o]
    ∧ parseDelimitedMessage (observed_text "00000000:01:00.0" (readings_text demo_readings nl)) ["00000000:01:00.0"] = [full]
    ∧ refused_or_agrees o full.
Proof.
  split; [by vm_compute|].
  apply (truncated_message_fails_closed "00000000:01:00.0" (readings_text demo_readings nl) cut_message cut_rest); [|by vm_compute..].
  split; [done|by vm_compute].
Defined.
