(* ===== verification/MigSteps.v ===== *)
(** * internal/partition/nvidia: the commands and the Job that runs them

    Models [geometry.go], [migmode.go] and [migjob.go]: the [nvidia-smi] commands
    of an apply, a rollback and a mode change; the Job that carries them, named
    after what it is for; and [JobExecutor.Run], which reuses a running Job,
    replaces a finished one, and replaces one a reboot has stranded at most
    twice. *)

From S2P Require Import Prelude GoStrings GoTime GoText Naming ApiTypes PolicyTypes UpgradeTypes DriverJob PartitionTypes MigObserve.

(** ** geometry.go *)

Record CommandStep := mkStep {
  Cmd_Argv : list string;
  Cmd_ExpectEmpty : bool;
  Cmd_ExpectOneOf : list string;
  Cmd_Optional : bool;
}.
#[global] Instance CommandStep_eq_dec : EqDecision CommandStep.
Proof. solve_decision. Defined.
Definition run_step (argv : list string) : CommandStep := mkStep argv false [] false.
Record GeometrySpec := mkGeometrySpec { Gs_GPUSelector : string; Gs_ProfileName : string; Gs_Count : Z }.

Definition q (sel field : string) : list string :=
  ["nvidia-smi"; "-i"; sel; "--query-gpu=" +:+ field; "--format=csv,noheader"].
Definition BuildApplySteps (specs : list GeometrySpec) : list CommandStep :=
  specs ≫= λ s,
    let sel := Gs_GPUSelector s in
    [mkStep ["nvidia-smi"; "-i"; sel; "--query-compute-apps=pid"; "--format=csv,noheader"] true [] false;
     mkStep (q sel "mig.mode.current") false ["Enabled"] false;
     mkStep (q sel "mig.mode.pending") false ["Enabled"; "Disabled"; "N/A"; "[N/A]"] false;
     mkStep ["nvidia-smi"; "mig"; "-i"; sel; "-dci"] false [] true;
     mkStep ["nvidia-smi"; "mig"; "-i"; sel; "-dgi"] false [] true;
     run_step ["nvidia-smi"; "mig"; "-i"; sel; "-cgi";
               join "," (replicate (Z.to_nat (Gs_Count s)) (Gs_ProfileName s)); "-C"]].
Definition BuildDisableSteps (selectors : list string) : list CommandStep :=
  selectors ≫= λ sel,
    [mkStep ["nvidia-smi"; "mig"; "-i"; sel; "-dci"] false [] true;
     mkStep ["nvidia-smi"; "mig"; "-i"; sel; "-dgi"] false [] true;
     mkStep (q sel "mig.mode.current") false ["Enabled"; "Disabled"] false].

(** ** precondition.go, migmode.go: the devices *)

Record MigDevice := mkMigDevice {
  Md_PCI : string; Md_ModeCurrent : string; Md_ModePending : string; Md_Geometry : string; Md_ObsError : string;
}.
Definition ModeEnableSteps (pcis : list string) : list CommandStep :=
  (λ p, run_step ["nvidia-smi"; "-i"; p; "-mig"; "1"]) <$> pcis.
Definition in_mode (mode : string) (d : MigDevice) : option string :=
  if bool_decide (Md_ModeCurrent d = mode) && negb (bool_decide (Md_PCI d = "")) then Some (Md_PCI d) else None.
Definition ModeEnableTargets (devs : list MigDevice) : list string := omap (in_mode modeDisabled) devs.
Definition NeedsModeEnable (devs : list MigDevice) : bool := negb (bool_decide (ModeEnableTargets devs = [])).
Definition NeedsReboot (devs : list MigDevice) : bool :=
  existsb (λ d, bool_decide (Md_ModePending d = modeEnabled) && negb (bool_decide (Md_ModeCurrent d = modeEnabled))) devs.
Definition ModeDisableSteps (pcis : list string) : list CommandStep :=
  (λ p, run_step ["nvidia-smi"; "-i"; p; "-mig"; "0"]) <$> pcis.
Definition ModeDisableTargets (devs : list MigDevice) : list string := omap (in_mode modeEnabled) devs.
Definition NeedsModeDisable (devs : list MigDevice) : bool := negb (bool_decide (ModeDisableTargets devs = [])).
Definition ModeObservable (devs : list MigDevice) : bool :=
  forallb (λ d, bool_decide (Md_ObsError d = "") && negb (bool_decide (Md_ModeCurrent d = ""))
                && negb (bool_decide (Md_ModeCurrent d = modeUnknown))) devs.

(** ** migjob.go: identity *)

Definition CmdHashAnnotation : string := "acpp.npu.ai/cmd-hash".
Definition NodeBootIDAnnotation : string := "acpp.npu.ai/node-boot-id".
Definition RebootRestartsAnnotation : string := "acpp.npu.ai/reboot-restarts".
Definition maxJobRebootRestarts : Z := 2.
(** [60s / 2s] in [createWhenGone], [defaultWaitTimeout / defaultPollInterval] in [wait] *)
Definition create_gone_ticks : nat := 30.
Definition wait_ticks : nat := 300.

Definition byte_str (n : N) : string := String (Ascii.ascii_of_N n) "".
(** The bytes [hashSteps] feeds to the hash. *)
Definition step_bytes (s : CommandStep) : string :=
  foldr (λ a r, a +:+ byte_str 0 +:+ r) "" (Cmd_Argv s) +:+ byte_str 1 +:+
  (if Cmd_ExpectEmpty s then "empty" else "") +:+
  foldr (λ a r, a +:+ byte_str 0 +:+ r) "" (Cmd_ExpectOneOf s) +:+ byte_str 2.
Definition steps_bytes (steps : list CommandStep) : string := foldr (λ s r, step_bytes s +:+ r) "" steps.
Definition hashSteps (steps : list CommandStep) : string := hex (sum256 (steps_bytes steps)).
Definition trunc8 (s : string) : string := String.substring 0 8 s.
Definition OperationID (uid : string) (gen : Z) (node action : string) (steps : list CommandStep) : string * string :=
  let cmdHash := hashSteps steps in
  let suffix := "-" +:+ String.substring 0 8 cmdHash in
  let name := "acpp-mig-" +:+ trunc8 uid +:+ "-" +:+ sprint_Z gen +:+ "-" +:+ short_hash node +:+ "-" +:+ action +:+ suffix in
  (if Nat.ltb 63 (String.length name) then String.substring 0 (63 - String.length suffix) name +:+ suffix else name, cmdHash).
#[global] Opaque hashSteps.

(** ** migjob.go: the Job *)

Definition V_ref : string := String dquote ("$V" +:+ String dquote "").
Definition in_quotes (s : string) : string := String dquote (s +:+ String dquote "").
Definition scriptFor (steps : list CommandStep) : string :=
  "set -e" +:+ nl +:+
  foldr (λ s r,
    let ns := "nsenter --target 1 --mount --pid -- " +:+ join " " (Cmd_Argv s) in
    (if Cmd_Optional s then ns +:+ " || true" +:+ nl
     else if Cmd_ExpectEmpty s then
       "if " +:+ ns +:+ " | grep -q .; then echo 'expected empty output' >&2; exit 1; fi" +:+ nl
     else if negb (bool_decide (Cmd_ExpectOneOf s = [])) then
       "V=$(" +:+ ns +:+ " | tr -d ' '); if ! ( "
       +:+ join " || " ((λ want, "[ " +:+ V_ref +:+ " = " +:+ in_quotes want +:+ " ]") <$> Cmd_ExpectOneOf s)
       +:+ " ); then echo " +:+ in_quotes "unexpected: $V" +:+ " >&2; exit 1; fi" +:+ nl
     else ns +:+ nl) +:+ r) "" steps.
Definition renderMigJob (ns name cmdHash nodeName : string) (steps : list CommandStep) (image : string) : Job :=
  mkJob name ns
    {[ "app.kubernetes.io/name" := "kcloud-acpp-mig"; "app.kubernetes.io/component" := "mig-apply";
       "npu.ai/node" := nodeName ]} [] migJobBackoffLimit migJobTTLSeconds None
    (mkPodTemplate nodeName ∅ true false RestartPolicyNever "" "" [] true
       [mkContainer "mig-apply" image ["/bin/sh"; "-c"; scriptFor steps] [] [] true []] [])
    [] 0 None {[ CmdHashAnnotation := cmdHash ]} 0.
Definition job_annotate (k v : string) (j : Job) : Job :=
  mkJob (Job_Name j) (Job_Namespace j) (Job_Labels j) (Job_Owners j) (Job_BackoffLimit j) (Job_TTLSecondsAfterFinished j)
    (Job_ActiveDeadlineSeconds j) (Job_Template j) (Job_Conditions j) (Job_Succeeded j) (Job_CompletionTime j)
    (<[k := v]> (Job_Annotations j)) (Job_Failed j).
Definition rebootRestartsOf (j : Job) : Z :=
  match atoi (mget "" (Job_Annotations j) RebootRestartsAnnotation) with
  | Some n => if n <? 0 then 0 else n
  | None => 0
  end.

(** ** migjob.go: running it *)

Section Executor.
(** [Namespace], [e.Image] *)
Context {W : Type} `{UpgradeAPI W, Ticker W} (Namespace image : string).

Definition strandedByReboot (job : Job) : M W bool :=
  let placedOn := mget "" (Job_Annotations job) NodeBootIDAnnotation in
  let node := Pt_NodeName (Job_Template job) in
  if bool_decide (placedOn = "") || bool_decide (node = "") then mret false
  else n ← try (node_get node);
       mret (match n with
             | inr _ => false
             | inl n => negb (bool_decide (Node_BootID n = "")) && negb (bool_decide (Node_BootID n = placedOn))
             end).
Definition render_stamped (opID cmdHash nodeName : string) (steps : list CommandStep) (restarts : Z) : M W Job :=
  let job := renderMigJob Namespace opID cmdHash nodeName steps image in
  n ← try (node_get nodeName);
  let job := match n with inl n => job_annotate NodeBootIDAnnotation (Node_BootID n) job | inr _ => job end in
  mret (if 0 <? restarts then job_annotate RebootRestartsAnnotation (sprint_Z restarts) job else job).
Definition createWhenGone (opID cmdHash nodeName : string) (steps : list CommandStep) (restarts : Z) : M W () :=
  poll_now create_gone_ticks
    (job ← render_stamped opID cmdHash nodeName steps restarts;
     c ← try (job_create job);
     match c with
     | inl _ => mret (Some ())
     | inr e => if is_already_exists e then mret None else throw e
     end)
    (errorf ("nvidia: prior mig job " +:+ quote opID +:+ " not deleted in time")).
Definition wait_step (name : string) : M W (option ()) :=
  job ← job_get name;
  if 0 <? Job_Succeeded job then mret (Some ())
  else if 0 <? Job_Failed job then throw (errorf ("nvidia: job " +:+ quote name +:+ " failed"))
  else stranded ← strandedByReboot job;
       if (stranded : bool)
       then throw (errorf ("nvidia: job " +:+ quote name +:+ " stranded by node reboot; recreating on the next pass"))
       else mret None.
Definition wait (name : string) : M W () :=
  poll_after wait_ticks (wait_step name) (errorf ("nvidia: job " +:+ quote name +:+ " timed out after 10m0s")).

(** Replace the Job: [replace_job] deletes it and waits for its name. *)
Definition replace_job (opID cmdHash nodeName : string) (steps : list CommandStep) (restarts : Z) : M W () :=
  d ← try (job_delete opID);
  match d with
  | inr e => if is_not_found e then createWhenGone opID cmdHash nodeName steps restarts else throw e
  | inl _ => createWhenGone opID cmdHash nodeName steps restarts
  end.
Definition JobExecutor_Run (opID cmdHash nodeName : string) (steps : list CommandStep) : M W () :=
  g ← try (job_get opID);
  match g with
  | inl existing =>
      if negb (bool_decide (mget "" (Job_Annotations existing) CmdHashAnnotation = cmdHash)) then
        throw (errorf ("nvidia: job " +:+ quote opID +:+ " exists with different cmd-hash (name collision, different intent)"))
      else
        let restarts := rebootRestartsOf existing in
        if (Job_Succeeded existing =? 0) && (Job_Failed existing =? 0) then
          stranded ← strandedByReboot existing;
          if negb (stranded : bool) then wait opID
          else if maxJobRebootRestarts <? restarts + 1 then
            throw (errorf ("nvidia: job " +:+ quote opID +:+ " stranded by node reboot " +:+ sprint_Z restarts
                             +:+ " times; manual intervention required"))
          else _ ← replace_job opID cmdHash nodeName steps (restarts + 1); wait opID
        else _ ← replace_job opID cmdHash nodeName steps restarts; wait opID
  | inr e =>
      if is_not_found e then
        job ← render_stamped opID cmdHash nodeName steps 0;
        c ← try (job_create job);
        match c with
        | inr e => if is_already_exists e then wait opID else throw e
        | inl _ => wait opID
        end
      else throw e
  end.
End Executor.
