(* ===== verification/MigJob.v ===== *)
(** * The Job behind a geometry change: what its name identifies and what running it does

    The bytes hashed into a Job's annotation determine the commands it runs; and
    [JobExecutor.Run] creates only the Job of those commands, removes one only
    when it is its own and either finished or stranded with restarts to spare, and
    reports success only for a Job it has read as succeeded. *)

From S2P Require Import Prelude GoStrings GoTime GoText Naming ApiTypes PolicyTypes UpgradeTypes DriverJob UpgradeMachine UpgradeSpec UpgradeEffects PartitionTypes MigObserve MigSteps.

(** ** The hashed bytes *)

(** No byte the encoding uses as a mark. *)
Definition mark (c : ascii) : bool := (Ascii.N_of_ascii c <? 3)%N.
Definition unmarked (s : string) : bool := str_forall (λ c, negb (mark c)) s.
(** What the hash sees of a step: all but whether its failure is ignored. *)
Definition visible (s : CommandStep) : list string * bool * list string :=
  (Cmd_Argv s, Cmd_ExpectEmpty s, Cmd_ExpectOneOf s).
(** A step as the builders make them: an expectation of one kind, plain text. *)
Definition plain_step (s : CommandStep) : Prop :=
  Forall unmarked (Cmd_Argv s) ∧ Forall unmarked (Cmd_ExpectOneOf s)
  ∧ (Cmd_ExpectEmpty s = true → Cmd_ExpectOneOf s = []).

Definition terminated (l : list string) : string := foldr (λ a r, a +:+ byte_str 0 +:+ r) "" l.
Definition byte_char (n : N) : ascii := Ascii.ascii_of_N n.

Lemma mark_0 : mark (byte_char 0) = true.
Proof. done. Qed.
Lemma mark_1 : mark (byte_char 1) = true.
Proof. done. Qed.
Lemma mark_2 : mark (byte_char 2) = true.
Proof. done. Qed.
Lemma unmarked_cons c s : unmarked (String c s) = true ↔ mark c = false ∧ unmarked s = true.
Proof. unfold unmarked. simpl. rewrite andb_true_iff, negb_true_iff. done. Qed.
Lemma byte_str_app n s : byte_str n +:+ s = String (byte_char n) s.
Proof. done. Qed.

(** An unmarked word ends at the first mark. *)
Lemma word_until_mark a b c d r r' :
  unmarked a → unmarked b → mark c = true → mark d = true →
  a +:+ String c r = b +:+ String d r' → a = b ∧ c = d ∧ r = r'.
Proof.
  revert b. induction a as [|x a IH]; intros [|y b] Ha Hb Hc Hd; rewrite ?string_nil_app, ?string_cons_app.
  - by intros [= -> ->].
  - intros [= -> _]. apply Is_true_true, unmarked_cons in Hb as [Hy _]. congruence.
  - intros [= -> _]. apply Is_true_true, unmarked_cons in Ha as [Hx _]. congruence.
  - apply Is_true_true, unmarked_cons in Ha as [_ Ha]. apply Is_true_true, unmarked_cons in Hb as [_ Hb].
    intros [= -> E]. destruct (IH b) as (->&->&->); auto using Is_true_true_2.
Qed.

Lemma terminated_cons a l r : terminated (a :: l) +:+ r = a +:+ String (byte_char 0) (terminated l +:+ r).
Proof. unfold terminated. cbn [foldr]. rewrite byte_str_app, <- string_app_assoc. by rewrite string_cons_app. Qed.
Lemma terminated_inj l l' c d r r' :
  Forall unmarked l → Forall unmarked l' → mark c = true → mark d = true → c ≠ byte_char 0 → d ≠ byte_char 0 →
  terminated l +:+ String c r = terminated l' +:+ String d r' → l = l' ∧ c = d ∧ r = r'.
Proof.
  intros Hl. revert l'. induction Hl as [|a l Ha Hl IH]; intros l' Hl' Hc Hd Hc0 Hd0.
  - destruct Hl' as [|b l' Hb Hl']; [by intros [= -> ->]|]. rewrite terminated_cons. intros E.
    destruct (word_until_mark "" b c (byte_char 0) r _ I Hb Hc mark_0 E) as (_&?&_). done.
  - destruct Hl' as [|b l' Hb Hl']; rewrite terminated_cons.
    + intros E. destruct (word_until_mark a "" (byte_char 0) d _ r' Ha I mark_0 Hd E) as (_&?&_). done.
    + rewrite terminated_cons. intros E.
      destruct (word_until_mark _ _ _ _ _ _ Ha Hb mark_0 mark_0 E) as (->&_&E').
      destruct (IH l') as (->&->&->); auto.
Qed.

(** An expectation: the word "empty" alone, or words each followed by a mark. *)
Lemma expectation_inj (x y : CommandStep) r r' :
  plain_step x → plain_step y →
  (if Cmd_ExpectEmpty x then "empty" else "") +:+ terminated (Cmd_ExpectOneOf x) +:+ String (byte_char 2) r
  = (if Cmd_ExpectEmpty y then "empty" else "") +:+ terminated (Cmd_ExpectOneOf y) +:+ String (byte_char 2) r' →
  Cmd_ExpectEmpty x = Cmd_ExpectEmpty y ∧ Cmd_ExpectOneOf x = Cmd_ExpectOneOf y ∧ r = r'.
Proof.
  assert (Hno : ∀ l t u, Forall unmarked l → terminated l +:+ String (byte_char 2) t ≠ "empty" +:+ String (byte_char 2) u).
  { intros l t u Hl. destruct Hl as [|a l Ha Hl]; [done|]. rewrite terminated_cons. intros E.
    destruct (word_until_mark a "empty" (byte_char 0) (byte_char 2) _ u Ha I mark_0 mark_2 E) as (_&?&_). done. }
  intros (_&Hx&Ex) (_&Hy&Ey).
  destruct (Cmd_ExpectEmpty x) eqn:Bx, (Cmd_ExpectEmpty y) eqn:By; rewrite ?string_nil_app;
    try rewrite (Ex eq_refl) in *; try rewrite (Ey eq_refl) in *; intros E.
  - by injection E as E.
  - by destruct (Hno _ _ _ Hy (eq_sym E)).
  - by destruct (Hno _ _ _ Hx E).
  - destruct (terminated_inj _ _ (byte_char 2) (byte_char 2) r r' Hx Hy mark_2 mark_2) as (->&_&->); done.
Qed.
Lemma step_bytes_app s r :
  step_bytes s +:+ r = terminated (Cmd_Argv s) +:+ String (byte_char 1)
    ((if Cmd_ExpectEmpty s then "empty" else "") +:+ terminated (Cmd_ExpectOneOf s) +:+ String (byte_char 2) r).
Proof.
  unfold step_bytes. fold (terminated (Cmd_Argv s)) (terminated (Cmd_ExpectOneOf s)).
  by rewrite <- !string_app_assoc.
Qed.
Lemma step_bytes_inj x y r r' :
  plain_step x → plain_step y → step_bytes x +:+ r = step_bytes y +:+ r' → visible x = visible y ∧ r = r'.
Proof.
  intros Hx Hy. rewrite !step_bytes_app. intros E.
  destruct (terminated_inj _ _ _ _ _ _ (proj1 Hx) (proj1 Hy) mark_1 mark_1 ltac:(done) ltac:(done) E) as (Ea&_&E').
  destruct (expectation_inj x y _ _ Hx Hy E') as (Eb&Ec&->). unfold visible. by rewrite Ea, Eb, Ec.
Qed.

(** The bytes hashed for a sequence of steps determine it: two sequences made of
    plain words with the same bytes run the same commands in the same order with the
    same expectations.  What is left out is whether a failing command is ignored. *)
Theorem hashed_bytes_identify_commands (xs ys : list CommandStep) :
  Forall plain_step xs → Forall plain_step ys → steps_bytes xs = steps_bytes ys → visible <$> xs = visible <$> ys.
Proof.
  intros Hx. revert ys. induction Hx as [|x xs Hx Hxs IH]; intros ys [|y ys' Hy Hys]; [done| | |].
  - unfold steps_bytes. cbn [foldr]. rewrite step_bytes_app. destruct (Cmd_Argv y) as [|[|c a] l]; done.
  - unfold steps_bytes. cbn [foldr]. rewrite step_bytes_app. destruct (Cmd_Argv x) as [|[|c a] l]; done.
  - unfold steps_bytes. cbn [foldr]. intros E. destruct (step_bytes_inj _ _ _ _ Hx Hy E) as [Ev E'].
    cbn [fmap list_fmap]. by rewrite Ev, (IH ys').
Qed.

(** The builders make such steps from any unmarked selector and profile. *)
Lemma unmarked_app a b : unmarked (a +:+ b) = unmarked a && unmarked b.
Proof.
  unfold unmarked. induction a as [|c a IH]; [done|]. rewrite string_cons_app. simpl. by rewrite IH, andb_assoc.
Qed.
Lemma unmarked_join sep l : unmarked sep = true → Forall (λ w, unmarked w = true) l → unmarked (join sep l) = true.
Proof.
  intros Hs Hl. induction Hl as [|w l Hw Hl IH]; [done|]. destruct l as [|w' l]; [done|].
  rewrite join_cons by done. by rewrite !unmarked_app, Hw, Hs, IH.
Qed.
Lemma apply_steps_plain specs :
  Forall (λ s, unmarked (Gs_GPUSelector s) = true ∧ unmarked (Gs_ProfileName s) = true) specs →
  Forall plain_step (BuildApplySteps specs).
Proof.
  intros Hs. unfold BuildApplySteps. induction Hs as [|s specs [Hsel Hp] Hs IH]; [constructor|].
  rewrite bind_cons. apply Forall_app. split; [|exact IH].
  assert (Hj : unmarked (join "," (replicate (Z.to_nat (Gs_Count s)) (Gs_ProfileName s))) = true).
  { apply unmarked_join; [done|]. by apply Forall_replicate. }
  repeat (apply Forall_cons; split); try apply Forall_nil; try done;
    (split; [|split; [|done]]; simpl; repeat (apply Forall_cons; split); try apply Forall_nil; try done);
    by apply Is_true_true.
Qed.
Lemma disable_steps_plain sels :
  Forall (λ s, unmarked s = true) sels → Forall plain_step (BuildDisableSteps sels).
Proof.
  intros Hs. unfold BuildDisableSteps. induction Hs as [|s sels Hsel Hs IH]; [constructor|].
  rewrite bind_cons. apply Forall_app. split; [|exact IH].
  repeat (apply Forall_cons; split); try apply Forall_nil; try done;
    (split; [|split; [|done]]; simpl; repeat (apply Forall_cons; split); try apply Forall_nil; try done);
    by apply Is_true_true.
Qed.
Definition demo_specs (count : Z) : list GeometrySpec := [mkGeometrySpec "0000:3b:00.0" "1g.6gb" count].
Lemma hashed_bytes_identify_commands_witness :
  BuildApplySteps (demo_specs 2) ≠ [] ∧ visible <$> BuildApplySteps (demo_specs 2) = visible <$> BuildApplySteps (demo_specs 2).
Proof.
  split; [done|]. apply hashed_bytes_identify_commands; [apply apply_steps_plain..|reflexivity];
    repeat constructor.
Defined.
(** A different count, or nothing to remove first, is a different preimage. *)
Example hashed_bytes_differ : steps_bytes (BuildApplySteps (demo_specs 2)) ≠ steps_bytes (BuildApplySteps (demo_specs 3)).
Proof. vm_compute. discriminate. Qed.
Example hashed_bytes_ignore_optional :
  steps_bytes [run_step ["nvidia-smi"]] = steps_bytes [mkStep ["nvidia-smi"] false [] true]
  ∧ scriptFor [run_step ["nvidia-smi"]] ≠ scriptFor [mkStep ["nvidia-smi"] false [] true].
Proof. split; [done|]. vm_compute. discriminate. Qed.

(** ** Running the Job *)

Definition finished (j : Job) : bool := negb ((Job_Succeeded j =? 0) && (Job_Failed j =? 0)).
Section Run.
Context (opID cmdHash nodeName : string) (steps : list CommandStep).

Definition same_intent (existing : Job) : Prop := mget "" (Job_Annotations existing) CmdHashAnnotation = cmdHash.
(** A reboot took the Job's Pod away: the Job says which boot of its node it was
    placed on, and the node, asked for now, runs another one. *)
Definition rebooted_away (node : string → Node + GoErr) (j : Job) : Prop :=
  let placedOn := mget "" (Job_Annotations j) NodeBootIDAnnotation in
  let name := Pt_NodeName (Job_Template j) in
  placedOn ≠ "" ∧ name ≠ "" ∧ ∃ n, node name = inl n ∧ Node_BootID n ≠ "" ∧ Node_BootID n ≠ placedOn.
(** The restart count of a Job created after a first look that gave [first],
    with the nodes as they were read right after it. *)
Inductive run_starts (node : string → Node + GoErr) (first : Job + GoErr) : Z → Prop :=
| starts_fresh e : first = inr e → is_not_found e = true → run_starts node first 0
| starts_again j : first = inl j → same_intent j → finished j = true → run_starts node first (rebootRestartsOf j)
| starts_stranded j : first = inl j → same_intent j → finished j = false → rebooted_away node j →
    rebootRestartsOf j + 1 <= maxJobRebootRestarts → run_starts node first (rebootRestartsOf j + 1).
(** [booted]: the boots of this node that were read. *)
Definition run_created (booted : string → Prop) (restarts : Z) (j : Job) : Prop :=
  Job_Name j = opID ∧ same_intent j ∧ rebootRestartsOf j = restarts ∧ Pt_NodeName (Job_Template j) = nodeName
  ∧ (∀ b, Job_Annotations j !! NodeBootIDAnnotation = Some b → booted b)
  ∧ (∃ c, Pt_Containers (Job_Template j) = [c] ∧ Ct_Command c = ["/bin/sh"; "-c"; scriptFor steps]).
Definition run_may_write (booted : string → Prop) (node : string → Node + GoErr) (first : Job + GoErr) (wr : Write) : Prop :=
  match wr with
  | WJobCreate j => ∃ restarts, run_starts node first restarts ∧ run_created booted restarts j
  | WJobDelete name => name = opID ∧ ∃ j restarts, first = inl j ∧ run_starts node first restarts
  | _ => False
  end.
End Run.

Section Executor.
Context {W : Type} `{UpgradeAPI W, Clock W, Ticker W} (Namespace image : string).
Context (I : W → Prop) `{!ReadOnly I} (Htick : safe I next_tick).
Context (opID cmdHash nodeName : string) (steps : list CommandStep).
(** A boot of the node that was read while [I] held. *)
Definition booted (b : string) : Prop := ∃ w n, I w ∧ (node_get nodeName w).1 = inl n ∧ Node_BootID n = b.
Notation created_as := (run_created opID cmdHash nodeName steps booted).

Lemma safe_stranded job : safe I (strandedByReboot job).
Proof. unfold strandedByReboot. safe_tac. Qed.
(** Yes is the answer of a node that runs another boot. *)
Lemma stranded_rebooted job w : (strandedByReboot job w).1 = inl true → rebooted_away (λ n, (node_get n w).1) job.
Proof.
  unfold strandedByReboot, rebooted_away. destruct (_ || _) eqn:E; [done|]. bool_prop. unfold mbind, M_bind, try. simpl.
  destruct (node_get (Pt_NodeName (Job_Template job)) w) as [ [n|e] w1]; simpl; [|done]. intros [= Hb]. bool_prop. eauto 6.
Qed.
Lemma wp_stranded job (Q : bool + GoErr → W → Prop) w : I w →
  (∀ s w', I w' → (s = true → rebooted_away (λ n, (node_get n w).1) job) → Q (inl s) w') → (∀ e w', I w' → Q (inr e) w') →
  wp (strandedByReboot job) Q w.
Proof.
  intros HI Hs He. pose proof (safe_stranded job w HI) as HI'. pose proof (stranded_rebooted job w) as Hr. unfold wp in *.
  destruct (strandedByReboot job w) as [ [s|e] w']; simpl in *; [|by apply He]. apply Hs; [done|]. intros ->. by apply Hr.
Qed.

(** Unless a reboot count is written, the annotation is absent or says zero. *)
Lemma created_render boot restarts : 0 <= restarts → is_int64 restarts → (∀ b, boot = Some b → booted b) →
  created_as restarts
    (let job := renderMigJob Namespace opID cmdHash nodeName steps image in
     let job := from_option (λ b, job_annotate NodeBootIDAnnotation b job) job boot in
     if 0 <? restarts then job_annotate RebootRestartsAnnotation (sprint_Z restarts) job else job).
Proof.
  intros Hpos H64 Hb. unfold run_created, same_intent, rebootRestartsOf.
  assert (Hstamp : ∀ b (r : bool),
    Job_Annotations (let job := renderMigJob Namespace opID cmdHash nodeName steps image in
      let job := from_option (λ b, job_annotate NodeBootIDAnnotation b job) job boot in
      if r then job_annotate RebootRestartsAnnotation (sprint_Z restarts) job else job) !! NodeBootIDAnnotation = Some b → booted b).
  { intros b r. destruct boot as [b0|], r; simpl; intros E; simplify_map_eq; by apply Hb. }
  specialize (λ b, Hstamp b (0 <? restarts)). revert Hstamp.
  destruct (0 <? restarts) eqn:E; bool_prop; intros Hstamp;
    (split_and!; [by destruct boot| | |by destruct boot|exact Hstamp|by destruct boot; eexists]).
  - by destruct boot.
  - set (v := mget _ _ _). assert (v = sprint_Z restarts) as -> by (unfold v; by destruct boot).
    rewrite atoi_sprint by done. destruct (restarts <? 0) eqn:En; bool_prop; lia.
  - by destruct boot.
  - assert (restarts = 0) as -> by lia. by destruct boot.
Qed.
Lemma wp_render_stamped restarts w : 0 <= restarts → is_int64 restarts → I w →
  wp (render_stamped Namespace image opID cmdHash nodeName steps restarts)
     (λ r w', I w' ∧ ∀ j, r = inl j → created_as restarts j) w.
Proof.
  intros Hpos H64 HI. unfold render_stamped. wp_step. wp_step. unfold wp at 1. pose proof (ro_node_get nodeName w HI) as HI'.
  destruct (node_get nodeName w) as [r w'] eqn:E. cbv beta iota. apply wp_ret. split; [done|]. intros j [= <-].
  destruct r as [n|e]; [apply (created_render (Some (Node_BootID n)))|apply (created_render None)]; try done.
  intros b [= <-]. exists w, n. by rewrite E.
Qed.
Lemma wp_create_rendered restarts w (f : () + GoErr → M W (option ())) :
  0 <= restarts → is_int64 restarts → (∀ j, created_as restarts j → sends I (WJobCreate j)) → (∀ r, safe I (f r)) → I w →
  wp (job ← render_stamped Namespace image opID cmdHash nodeName steps restarts; c ← try (job_create job); f c)
     (λ _ w', I w') w.
Proof.
  intros Hpos H64 Hc Hf HI. wp_step. eapply wp_mono; [by apply wp_render_stamped|].
  intros [j|e] w' [HI' Hj]; [|done]. cbv beta iota. specialize (Hc _ (Hj j eq_refl)).
  assert (Hs : safe I (c ← try (job_create j); f c)).
  { safe_step; [|done]. apply safe_try. by apply (safe_send I _ (WJobCreate j)). }
  by apply Hs.
Qed.
Lemma safe_createWhenGone restarts :
  0 <= restarts → is_int64 restarts → (∀ j, created_as restarts j → sends I (WJobCreate j)) →
  safe I (createWhenGone Namespace image opID cmdHash nodeName steps restarts).
Proof.
  intros Hpos H64 Hc w HI. unfold createWhenGone. eapply wp_mono; [apply (wp_poll_now I (λ _, True)); [done| |done]|].
  - intros w1 HI1. eapply wp_mono; [by apply wp_create_rendered; [..|intros r; safe_tac|]|]. by intros.
  - by intros r w' [? _].
Qed.

(** Success is a Job read as succeeded. *)
Definition read_succeeded (w : W) : Prop := ∃ job, (job_get opID w).1 = inl job ∧ 0 < Job_Succeeded job.
Lemma wp_wait_step w : I w →
  wp (wait_step opID) (λ r w', I w' ∧ ∀ a, r = inl (Some a) → ∃ w1, I w1 ∧ read_succeeded w1) w.
Proof.
  intros HI. unfold wait_step. wp_step. unfold wp at 1. pose proof (ro_job_get opID w HI) as Hg.
  destruct (job_get opID w) as [[job|e] w'] eqn:E; simpl in *; [|done].
  assert (Hr : 0 < Job_Succeeded job → read_succeeded w) by (intros; exists job; by rewrite E).
  repeat wp_step; bool_prop; [split; eauto|by split..|].
  eapply (safe_use I); [apply safe_stranded|done|]. intros [[]|] ? ?; by split.
Qed.
Lemma wp_wait w : I w →
  wp (wait opID) (λ r w', I w' ∧ (r = inl () → ∃ w1, I w1 ∧ read_succeeded w1)) w.
Proof.
  intros HI. unfold wait.
  eapply wp_mono; [by apply (wp_poll_after I (λ _, ∃ w1, I w1 ∧ read_succeeded w1) _ _ _ w Htick wp_wait_step)|].
  intros r w' [? Hq]. split; [done|]. intros ->. by apply (Hq ()).
Qed.
Lemma wp_safe_then_wait {A} (m : M W A) w : safe I m → I w →
  wp (m ≫= λ _, wait opID) (λ r w', I w' ∧ (r = inl () → ∃ w1, I w1 ∧ read_succeeded w1)) w.
Proof.
  intros Hm HI. wp_step. eapply (safe_use I); [done|done|]. intros [a|e] w' HI'; [by apply wp_wait|done].
Qed.
Lemma safe_replace restarts :
  0 <= restarts → is_int64 restarts → (∀ j, created_as restarts j → sends I (WJobCreate j)) → sends I (WJobDelete opID) →
  safe I (replace_job Namespace image opID cmdHash nodeName steps restarts).
Proof.
  intros Hpos H64 Hc Hd. unfold replace_job. safe_step.
  - apply safe_try. by apply (safe_send I _ (WJobDelete opID)).
  - safe_step; [|safe_step]; try (by apply safe_createWhenGone). safe_tac.
Qed.
Lemma rebootRestartsOf_range j : 0 <= rebootRestartsOf j ∧ is_int64 (rebootRestartsOf j).
Proof.
  unfold rebootRestartsOf. destruct (atoi _) as [n|] eqn:E; [|by split].
  destruct (n <? 0) eqn:En; bool_prop; [by split|]. split; [lia|].
  unfold atoi in E. destruct (mget _ _ _) as [|c s]; [done|]. repeat case_match; simplify_eq; try done;
    by case_bool_decide; simplify_eq.
Qed.

(** C14. Running the Job of a geometry change.  It creates only Jobs that carry these
    commands, this hash, a boot of the node that was read, if any, and the restart
    count the first look allows: none before, the finished one's, or one more than a
    stranded one's while that stays within two.  It deletes only the Job of this name,
    and only when that look found the same hash and the Job finished, or stranded with
    a restart left: unfinished, stamped with the boot it was placed on, and its node,
    read right after that look, running another boot.  So a Job still running on the
    boot it was placed on, or on a node that cannot be read, is neither deleted nor
    made again.  It ends in success only after reading a Job that succeeded. *)
Theorem JobExecutor_Run_effects w :
  I w →
  (∀ wr, run_may_write opID cmdHash nodeName steps booted (λ n, (node_get n (job_get opID w).2).1) (job_get opID w).1 wr →
         sends I wr) →
  wp (JobExecutor_Run Namespace image opID cmdHash nodeName steps)
     (λ r w', I w' ∧ (r = inl () → ∃ w1, I w1 ∧ read_succeeded w1)) w.
Proof.
  intros HI Hw. unfold JobExecutor_Run. wp_step. wp_step. unfold wp at 1.
  pose proof (ro_job_get opID w HI) as Hg. destruct (job_get opID w) as [first w0] eqn:E. simpl in *.
  set (node := λ n, (node_get n w0).1) in Hw.
  assert (Hc : ∀ n j, run_starts cmdHash node first n → created_as n j → sends I (WJobCreate j)).
  { intros n j Hs Hj. apply Hw. by exists n. }
  assert (Hrepl : ∀ j n, first = inl j → run_starts cmdHash node first n → 0 <= n → is_int64 n →
    safe I (replace_job Namespace image opID cmdHash nodeName steps n)).
  { intros j n Ej Hs ??. apply safe_replace; [done|done|intros; by apply (Hc n)|]. apply Hw. simpl; eauto. }
  assert (Hsucc : ∀ w1 e, I w1 → I w1 ∧ (inr e = (inl () : () + GoErr) → ∃ w2, I w2 ∧ read_succeeded w2)) by done.
  destruct first as [j|e].
  - wp_step; [wp_step; auto|]. bool_prop. destruct (rebootRestartsOf_range j) as [Hn Hn64]. wp_step.
    + wp_step. apply wp_stranded; [done| |auto]. intros s w1 HI1 Hst. cbv beta iota. wp_step; [by apply wp_wait|]. wp_step; [wp_step; auto|]. bool_prop. subst s. unfold maxJobRebootRestarts in *.
      apply wp_safe_then_wait; [|done]. apply (Hrepl j); [done| |lia|unfold is_int64, min_int64, max_int64 in *; lia].
      apply starts_stranded; unfold maxJobRebootRestarts; try done; [|by apply Hst].
      unfold finished. by rewrite H2, H3.
    + apply wp_safe_then_wait; [|done]. apply (Hrepl j); [done| |done|done].
      apply starts_again; [done..|]. by unfold finished; rewrite Heqb0.
  - wp_step; [|wp_step; auto]. wp_step. eapply wp_mono; [by apply wp_render_stamped|].
    intros [j|e'] w1 [HI1 Hj]; cbv beta iota; [|auto]. wp_step. wp_step.
    eapply (safe_use I); [apply (safe_send I _ (WJobCreate j)); [|done]|done|].
    { apply (Hc 0); [by eapply starts_fresh|by apply Hj]. }
    intros [[]|e'] w2 HI2; cbv beta iota; [by apply wp_wait|]. wp_step; [by apply wp_wait|wp_step; auto].
Qed.
End Executor.

(** The witness runs a stranded Job's replacement: the node booted again since. *)
Definition demo_apply : string * string := OperationID "uid-acpp" 1 "node-a" "apply" (BuildApplySteps (demo_specs 2)).
Definition demo_job (boot : string) (succeeded failed : Z) : Job :=
  let j := job_annotate NodeBootIDAnnotation boot
    (renderMigJob "operator" demo_apply.1 demo_apply.2 "node-a" (BuildApplySteps (demo_specs 2)) "image") in
  mkJob (Job_Name j) (Job_Namespace j) (Job_Labels j) (Job_Owners j) (Job_BackoffLimit j) (Job_TTLSecondsAfterFinished j)
    (Job_ActiveDeadlineSeconds j) (Job_Template j) [] succeeded None (Job_Annotations j) failed.
Definition mig_frozen (job : option Job) : Frozen := mkFrozen hour (Some demo_node) None [] [] [] [] None job [].
Definition mig_nodes : string → Node + GoErr := λ n, (node_get n (mig_frozen None)).1.
Lemma JobExecutor_Run_effects_witness :
  let w0 := mig_frozen (Some (demo_job "boot-0" 0 1)) in
  run_starts demo_apply.2 mig_nodes (inl (demo_job "boot-0" 0 0)) 1
  ∧ (∀ n, ¬ run_starts demo_apply.2 mig_nodes (inl (demo_job "boot-1" 0 0)) n)
  ∧ wp (JobExecutor_Run "operator" "image" demo_apply.1 demo_apply.2 "node-a" (BuildApplySteps (demo_specs 2)))
     (λ r w', w' = w0 ∧ (r = inl () → ∃ w1, w1 = w0 ∧ read_succeeded demo_apply.1 w1)) w0.
Proof.
  intros w0. split; [|split].
  - apply (starts_stranded _ _ _ (demo_job "boot-0" 0 0)); try done. split; [done|]. split; [done|]. by exists demo_node.
  - intros n Hn. inversion Hn as [e E|j E _ Hf|j E _ _ (_&_&m&Em&_&Hb)]; [done|injection E as <-; discriminate Hf|].
    injection E as <-. injection Em as <-. by destruct Hb.
  - assert (Hro : ReadOnly (λ w, w = w0)) by (by split; intros; subst).
    apply (JobExecutor_Run_effects "operator" "image" (λ w, w = w0)).
    + by intros w ->.
    + done.
    + intros [] Hw w ->; done || by destruct Hw.
Defined.
