(* ===== verification/Quiescer.v ===== *)
(** * internal/partition/quiesce.go: emptying a node before its devices change

    [Quiescer]: cordon, eviction of the pods that hold a device, and the check
    that the node is empty, which looks at the pods and at the allocated claims. *)

From S2P Require Import Prelude GoStrings GoTime ApiTypes PolicyTypes UpgradeTypes DraClaim UpgradeNode UpgradeMachine UpgradeSpec UpgradeEffects.

(** [Client] is the API of the world. *)
Record Quiescer := mkQuiescer { Q_ResourcePrefixes : list string; Q_ExtraResources : list string }.
Definition NvidiaQuiescer : Quiescer := mkQuiescer ["nvidia.com/mig-"] ["nvidia.com/gpu"].
Definition RngdQuiescer : Quiescer := mkQuiescer [] ["furiosa.ai/rngd"].

Definition device_resource (q : Quiescer) (n : string) : bool :=
  existsb (λ e, bool_decide (n = e)) (Q_ExtraResources q) || existsb (has_prefix n) (Q_ResourcePrefixes q).
Definition holdsDevice (q : Quiescer) (p : Pod) : bool :=
  Nat.ltb 0 (Pod_ResourceClaims p)
  || existsb (existsb (λ ctr, existsb (λ l, device_resource q l.1) (Ct_Limits ctr)))
       [Pod_Containers p; Pod_InitContainers p].
Definition mirrorPodAnnotationKey : string := "kubernetes.io/config.mirror".
Definition isExemptPod (p : Pod) : bool :=
  bool_decide (is_Some (Pod_Annotations p !! mirrorPodAnnotationKey))
  || existsb (λ o, bool_decide (Or_Kind o = "DaemonSet") || bool_decide (Or_Kind o = "Node")) (Pod_Owners p).
Definition pod_over (p : Pod) : bool :=
  bool_decide (Pod_Phase p = PodSucceeded) || bool_decide (Pod_Phase p = PodFailed).

Section Quiesce.
Context {W : Type} `{UpgradeAPI W} `{Requirements} (q : Quiescer).

(** [client.MatchingFields{"spec.nodeName": node}] *)
Definition pods_on (node : string) : M W (list Pod) :=
  pods ← pod_list; mret (filter (λ p, Pod_NodeName p = node) pods).

Definition Cordon (node : string) : M W () :=
  n ← node_get node; if Node_Unschedulable n then mret () else node_patch n (node_unschedulable true n).
Definition Uncordon (node : string) : M W () :=
  n ← node_get node; if negb (Node_Unschedulable n) then mret () else node_patch n (node_unschedulable false n).

(** The loop, with the pods left in place counted. *)
Fixpoint evict_loop (pods : list Pod) (remaining : Z) : M W Z :=
  match pods with
  | [] => mret remaining
  | p :: pods =>
      if pod_over p then evict_loop pods remaining
      else if negb (holdsDevice q p) then evict_loop pods remaining
      else if isExemptPod p then evict_loop pods (remaining + 1)
      else
        e ← try (pod_evict p);
        match e with
        | inl _ => evict_loop pods remaining
        | inr e =>
            if is_not_found e then evict_loop pods remaining
            else throw (errorf_w ("evict pod " +:+ Pod_Namespace p +:+ "/" +:+ Pod_Name p) e)
        end
  end.
Definition EvictDeviceWorkloads (node : string) : M W Z :=
  pods ← pods_on node; evict_loop pods 0.

(** A pod that keeps the node from being empty. *)
Definition blocks_quiesce (p : Pod) : bool := negb (pod_over p) && holdsDevice q p && negb (isExemptPod p).
Definition AssertQuiesced (node : string) : M W () :=
  n ← node_get node;
  if negb (Node_Unschedulable n) then throw (errorf ("node " +:+ node +:+ " not cordoned"))
  else
    pods ← pods_on node;
    match find_first blocks_quiesce pods with
    | Some p => throw (errorf ("node " +:+ node +:+ " still has device-holding pod " +:+ Pod_Name p))
    | None => AssertNoneAllocatedOnNode (Node_Name n)
    end.
Definition DeviceHoldingPods (node : string) : M W (list string) :=
  pods ← pods_on node;
  mret ((λ p, Pod_Namespace p +:+ "/" +:+ Pod_Name p) <$> filter (λ p, blocks_quiesce p = true) pods).
End Quiesce.

(** ** What they touch, and what the check guarantees *)

Section Facts.
Context {W : Type} `{UpgradeAPI W} `{Clock W} `{Requirements} (q : Quiescer).

(** What emptying a node may write: its cordon, and evictions of what blocks. *)
Inductive quiesce_write (node : string) : Write → Prop :=
| qw_cordon n : Node_Unschedulable n = false → quiesce_write node (WNode n (node_unschedulable true n))
| qw_evict p : Pod_NodeName p = node → blocks_quiesce q p = true → quiesce_write node (WPodEvict p).
Inductive uncordon_write : Write → Prop :=
| uw_uncordon n : Node_Unschedulable n = true → uncordon_write (WNode n (node_unschedulable false n)).

Context (I : W → Prop) `{!ReadOnly I}.

Lemma safe_pods_on node : safe I (pods_on node).
Proof. unfold pods_on. safe_tac. Qed.
Lemma safe_Cordon node : (∀ wr, quiesce_write node wr → sends I wr) → safe I (Cordon node).
Proof.
  intros Hw. unfold Cordon. safe_step; [safe_tac|]. safe_step; [safe_tac|].
  eapply safe_send; [apply Hw, (qw_cordon node a); done|done].
Qed.
Lemma safe_Uncordon node : (∀ wr, uncordon_write wr → sends I wr) → safe I (Uncordon node).
Proof.
  intros Hw. unfold Uncordon. safe_step; [safe_tac|]. safe_step; [safe_tac|]. bool_prop.
  eapply safe_send; [apply Hw, (uw_uncordon a); done|done].
Qed.
Lemma safe_evict_loop node pods n :
  (∀ wr, quiesce_write node wr → sends I wr) → (∀ p, p ∈ pods → Pod_NodeName p = node) → safe I (evict_loop q pods n).
Proof.
  intros Hw. revert n. induction pods as [|p pods IH]; intros n Hp; simpl; [safe_tac|].
  assert (Hn : Pod_NodeName p = node) by (apply Hp; by left).
  assert (IH' : ∀ n, safe I (evict_loop q pods n)) by (intros; apply IH; intros; apply Hp; by right).
  do 3 (safe_step; [by apply IH'|]). safe_step.
  - apply safe_try. eapply safe_send; [apply Hw, (qw_evict node p Hn)|done].
    bool_prop. unfold blocks_quiesce. by rewrite Heqb, Heqb1, Heqb0.
  - safe_step; [apply IH'|]. safe_step; [apply IH'|safe_tac].
Qed.
Lemma safe_Evict node : (∀ wr, quiesce_write node wr → sends I wr) → safe I (EvictDeviceWorkloads q node).
Proof.
  intros Hw w HI. unfold EvictDeviceWorkloads, pods_on. wp_step. wp_step.
  eapply (safe_use I); [safe_tac|done|]. intros [pods|e] w' HI'; cbv beta iota; [|done]. apply wp_ret. cbv beta iota.
  apply (safe_evict_loop node); [done| |done]. intros p. rewrite list_elem_of_filter. tauto.
Qed.
Lemma safe_assert_claims node cs n : safe I (assert_claims node cs n).
Proof.
  revert n. induction cs as [|c cs IH]; intros n; simpl; [safe_tac|]. safe_step; [apply IH|].
  safe_step; [safe_tac|]. safe_step; [safe_tac|apply IH].
Qed.
Lemma safe_AssertQuiesced node : safe I (AssertQuiesced q node).
Proof.
  unfold AssertQuiesced, AssertNoneAllocatedOnNode. safe_step; [safe_tac|]. safe_step; [safe_tac|].
  safe_step; [apply safe_pods_on|]. safe_step; [safe_tac|]. safe_step; [safe_tac|].
  safe_step; [apply safe_assert_claims|safe_tac].
Qed.
End Facts.
#[export] Hint Resolve safe_pods_on safe_AssertQuiesced : safe.

Section Check.
Context {W : Type} `{UpgradeAPI W} `{Requirements} (q : Quiescer).

Lemma assert_claims_sound node cs n w w' :
  assert_claims node cs n w = (inl (), w') →
  Forall (λ c, pinnedToNode c = true → ∃ nd, (n = Some nd ∨ ∃ w1, (node_get node w1).1 = inl nd)
                                         ∧ AllocatedOnNode c nd = false) cs.
Proof.
  revert n w. induction cs as [|c cs IH]; intros n w; [by constructor|]. cbn [assert_claims].
  destruct (pinnedToNode c) eqn:Ep; cbn [negb]; intros E; [|constructor; [by rewrite Ep|by eapply IH]].
  destruct n as [nd|].
  - unfold mbind, M_bind, mret, M_ret in E. destruct (AllocatedOnNode c nd) eqn:Ea; [done|].
    constructor; [eauto|]. by eapply IH.
  - unfold mbind, M_bind, try in E. destruct (node_get node w) as [[nd|e] w1] eqn:Eg; [|done].
    unfold mret, M_ret in E. destruct (AllocatedOnNode c nd) eqn:Ea; [done|].
    constructor; [intros _; exists nd; split; [right; exists w; by rewrite Eg|done]|].
    eapply Forall_impl; [by eapply IH|]. intros c' Hc Hp. destruct (Hc Hp) as (nd'&[[= <-]|?]&?); [|eauto].
    exists nd. split; [right; exists w; by rewrite Eg|done].
Qed.

(** C22. When the check passes, the node it read was cordoned; of the pods it listed none
    on that node holds a device, is still running and can be evicted; and every claim it
    listed that is pinned to nodes was checked against a reading of the node and is not
    allocated there, unless the cluster has no such API. *)
Theorem AssertQuiesced_sound node w w' :
  AssertQuiesced q node w = (inl (), w') →
  ∃ n w1 pods w2, node_get node w = (inl n, w1) ∧ Node_Unschedulable n = true
    ∧ pod_list w1 = (inl pods, w2)
    ∧ (∀ p, p ∈ pods → Pod_NodeName p = node → pod_over p = false → isExemptPod p = false → holdsDevice q p = false)
    ∧ match (claim_list w2).1 with
      | inl claims => ∀ c, c ∈ claims → pinnedToNode c = true →
          ∃ nd w3, (node_get (Node_Name n) w3).1 = inl nd ∧ AllocatedOnNode c nd = false
      | inr e => is_no_match e || is_not_found e = true
      end.
Proof.
  unfold AssertQuiesced, pods_on, AssertNoneAllocatedOnNode, mbind, M_bind, try, mret, M_ret.
  destruct (node_get node w) as [[n|e] w1] eqn:En; [|done]. destruct (Node_Unschedulable n) eqn:Eu; [|done]. cbn [negb].
  destruct (pod_list w1) as [[pods|e] w2] eqn:Ep; [|done].
  destruct (find_first _ _) as [p|] eqn:Ef; [done|]. intros E. exists n, w1, pods, w2. split_and!; [done..| |].
  - intros p Hp Hn Ho Hx. apply find_first_None in Ef. rewrite Forall_forall in Ef.
    assert (Hb := Ef p ltac:(by apply list_elem_of_filter)). unfold blocks_quiesce in Hb.
    rewrite Ho, Hx in Hb. by destruct (holdsDevice q p).
  - destruct (claim_list w2) as [[claims|e] w3] eqn:Ec; cbn [fst] in *.
    + apply assert_claims_sound in E. rewrite Forall_forall in E. intros c Hc Hp.
      destruct (E c Hc Hp) as (nd&[?|[w4 ?]]&?); [done|eauto].
    + by destruct (is_no_match e || is_not_found e).
Qed.
End Check.
Definition quiet_world (cordoned : bool) (pods : list Pod) : Frozen :=
  mkFrozen hour (Some (node_unschedulable cordoned demo_node)) None [] [] pods [] None None [].
Lemma AssertQuiesced_sound_witness :
  ∃ n w1 pods w2, node_get "node-a" (quiet_world true []) = (inl n, w1) ∧ Node_Unschedulable n = true
    ∧ pod_list w1 = (inl pods, w2)
    ∧ (∀ p, p ∈ pods → Pod_NodeName p = "node-a" → pod_over p = false → isExemptPod p = false → holdsDevice NvidiaQuiescer p = false)
    ∧ match (claim_list w2).1 with
      | inl claims => ∀ c, c ∈ claims → pinnedToNode c = true →
          ∃ nd w3, (node_get (Node_Name n) w3).1 = inl nd ∧ AllocatedOnNode c nd = false
      | inr e => is_no_match e || is_not_found e = true
      end.
Proof. apply (AssertQuiesced_sound NvidiaQuiescer "node-a" (quiet_world true []) (quiet_world true [])). vm_compute. reflexivity. Defined.
