(* ===== verification/NvidiaBackend.v ===== *)
(** * internal/partition/nvidia: the MIG backend

    [backend.go] and [precondition.go]: what a node's devices can do, whether a
    layout is acceptable, whether it is already there, the commands that make and
    undo it, and the two kinds of precondition.  The backend's fields are a record
    that [Discover] returns changed; the client is the API of the world. *)

From S2P Require Import Prelude GoStrings GoTime GoText Naming ApiTypes PolicyTypes UpgradeTypes UpgradeEffects PartitionTypes PartitionProfiles MigObserve MigSteps Quiescer.

(** ** [(?i)\b(a30|a100|h100)\b] *)

Definition is_word (c : ascii) : bool :=
  let n := Ascii.N_of_ascii (lower_ascii c) in
  is_digit c || bool_decide (c = "_"%char) || ((97 <=? n)%N && (n <=? 122)%N).
Definition starts_word (s : string) : bool := match s with String c _ => is_word c | EmptyString => false end.
(** A token at the head of a lower-case text, after a word character or not, with
    a boundary on both sides; every token begins and ends with a word character. *)
Definition token_here (after_word : bool) (s : string) : bool :=
  negb after_word
  && existsb (λ tok, match cut_prefix tok s with Some rest => negb (starts_word rest) | None => false end)
       ["a30"; "a100"; "h100"].
Fixpoint token_in (after_word : bool) (s : string) : bool :=
  token_here after_word s || match s with String c s' => token_in (is_word c) s' | EmptyString => false end.
Definition migCapable (model : string) : bool := token_in false (to_lower model).
Example migCapable_runs : migCapable <$> ["NVIDIA A30"; "a100-pcie"; "NVIDIA RTX A3000"; "H100_NVL"; "generic"; ""]
  = [true; true; false; false; false; false].
Proof. vm_compute. reflexivity. Qed.

(** ** Constants *)

Definition ErrMixedPlacementUnsupported : GoErr := errorf "nvidia: mixed placement unsupported in MVP-2".
Definition ErrInvalidCount : GoErr := errorf "nvidia: countPerDevice out of range".
Definition ErrProfileUnsupported : GoErr := errorf "nvidia: profile not supported by target GPU".
Definition advProfileNamed : string := "ProfileNamed".
Definition reasonMPSModeUnobserved : string := "MIG 상태를 확정하지 못해 MPS 가능 여부를 판정할 수 없다".
Definition reasonMPSObserveFailed : string := "MIG 모드를 관측하지 못해 MPS 가능 여부를 판정할 수 없다".
Definition reasonMPSMigEnabled : string := "MIG 가 켜진 장치에서는 MPS 를 쓸 수 없다(상호 배타)".
Definition reasonMPSMigDisabled : string := "MIG 가 꺼진 장치라 MIG-MPS 상호배타가 성립하지 않는다".
Definition reasonMPSNoMigHardware : string := "MIG 미지원 장치라 MIG-MPS 상호배타가 성립하지 않는다".
Definition MultiProcessEnv : string := "KCLOUD_NVIDIA_MULTIPROCESS".
Definition TimeSlicingEnv : string := "KCLOUD_NVIDIA_TIMESLICING".
Definition maxTimeSlicingReplicas : Z := 16.

(** ** Pure parts *)

Definition deviceID (d : DeviceEntry) : string :=
  if bool_decide (De_PCIeAddress d = "") then De_Model d else "PCI-" +:+ De_PCIeAddress d.
Definition toProfileSupport (ps : list MigProfile) : list ProfileSupport :=
  (λ p, mkProfileSupport (Mp_Name p) (Mp_MaxInstances p) SupportDocumented) <$> ps.
Definition partitionCapabilityFrom (migCap : bool) (profiles : list MigProfile) (obsErr : string) (observed : bool)
    : PartitionCapability :=
  let verification := if observed && bool_decide (obsErr = "") then VerificationVerified else VerificationRequired in
  if migCap then mkCapability true "ProfileConstrained" true (toProfileSupport profiles) "" verification
  else mkCapability false "None" false [] ReasonHardwareCapabilityMissing verification.
Definition profileMap (ps : list MigProfile) : gmap string Z := foldl (λ m p, <[Mp_Name p := Mp_MaxInstances p]> m) ∅ ps.
(** The smallest value of [name] over all the sets; [None] when one lacks it. *)
Definition lowest (name : string) (first : Z) (sets : list (gmap string Z)) : option Z :=
  foldl (λ lo s, lo ← lo; v ← s !! name; Some (if v <? lo then v else lo)) (Some first) sets.
Definition intersectProfiles (sets : list (gmap string Z)) : gmap string Z :=
  match sets with [] => ∅ | s :: rest => map_imap (λ name first, lowest name first rest) s end.
Definition targetFor (targets : list MigDevice) (pci : string) : MigDevice :=
  default (mkMigDevice pci "" "" "" "") (find_first (λ t, bool_decide (Md_PCI t = pci)) targets).

(** The mode says something: one of the three values the driver prints. *)
Definition known_mode (mc : string) : bool :=
  bool_decide (mc = modeEnabled) || bool_decide (mc = modeDisabled) || bool_decide (mc = modeNA).

Section Pure.
Context `{Environment}.

Definition verifiedIfMeasured (env : string) : string :=
  if bool_decide (Getenv env = "verified") then VerificationVerified else VerificationRequired.
Definition mps_support (supported : bool) (reason : string) : SharingModeSupport :=
  mkSharingModeSupport supported (if supported then verifiedIfMeasured MultiProcessEnv else VerificationRequired) 0 reason.
Definition mpsSupportForNonMigDevice (mc obsErr model : string) : SharingModeSupport :=
  if bool_decide (mc = modeEnabled) || bool_decide (mc = modeDisabled) then mps_support false reasonMPSModeUnobserved
  else if bool_decide (mc = modeNA) && bool_decide (obsErr = "") then mps_support true reasonMPSNoMigHardware
  else if negb (bool_decide (model = "")) && negb (bool_decide (model = DriverModelUnknown)) && negb (migCapable model)
  then mps_support true reasonMPSNoMigHardware
  else mps_support false reasonMPSModeUnobserved.
Definition no_sharing_support : SharingModeSupport := mkSharingModeSupport false "" 0 "".
Definition no_sharing : SharingCapability := mkSharingCapability no_sharing_support no_sharing_support no_sharing_support.
Definition no_isolation : IsolationCapability := mkIsolationCapability "" "" "".

Definition mig_mps (d : MigDevice) : SharingModeSupport :=
  if negb (bool_decide (Md_ObsError d = "")) then mps_support false reasonMPSObserveFailed
  else if bool_decide (Md_ModeCurrent d = modeEnabled) then mps_support false reasonMPSMigEnabled
  else if bool_decide (Md_ModeCurrent d = modeDisabled) then mps_support true reasonMPSMigDisabled
  else mps_support false reasonMPSModeUnobserved.
Definition no_operations : OperationsStatus := mkOperationsStatus no_operation no_operation.
Definition no_capability : PartitionCapability := mkCapability false "" false [] "" "".
Definition deviceStatusFor (supported : gmap string Z) (d : MigDevice) (model : string) : DeviceStatus :=
  let iso := if bool_decide (supported = ∅) then mkIsolationCapability IsolationDevice IsolationDevice IsolationDevice
             else mkIsolationCapability IsolationHardware IsolationHardware IsolationDevice in
  mkDevice (Md_PCI d) (Md_PCI d) model no_capability
    (mkSharingCapability
       (mkSharingModeSupport true (verifiedIfMeasured TimeSlicingEnv) maxTimeSlicingReplicas "nvidia device-plugin sharing.timeSlicing")
       (mig_mps d)
       (mkSharingModeSupport false VerificationNotApplicable 0 ""))
    iso [AllocationAPIDevicePlugin] no_operations.

(** The MIG state of a device: observed when the operator looked, reported otherwise. *)
Definition device_observation (observations : option (gmap string Observation)) (d : DeviceEntry) : Observation :=
  match observations with
  | None => mkObservation (De_PCIeAddress d) (De_MigModeCurrent d) (De_MigModePending d) (De_MigCurrentGeometry d)
              (De_MigLgipOutput d) (De_MigObservationError d)
  | Some m => default (mkObservation "" modeUnknown modeUnknown "" "" "no observation for device") (m !! De_PCIeAddress d)
  end.
Definition has_no_profiles (o : Observation) : bool := bool_decide (length (ParseMigProfiles (Ob_LgipOutput o)) = 0%nat).
Definition capable_device (observations : option (gmap string Observation)) (d : DeviceEntry) : bool :=
  match observations with
  | None => migCapable (De_Model d)
  | Some _ => let o := device_observation observations d in
              negb (has_no_profiles o) || (bool_decide (Ob_ModeCurrent o = modeDisabled) && bool_decide (Ob_Err o = ""))
  end.
(** What [Discover] makes of one device of the report. *)
Record Scanned := mkScanned {
  Sca_Device : DeviceStatus;
  Sca_Target : option MigDevice;
  Sca_Unobservable : bool;
  Sca_Profiles : option (gmap string Z);
}.
Definition unsupportedApply : OperationsStatus :=
  mkOperationsStatus (mkOperationStatus false ReasonApplyBackendNotInstalled) no_operation.
Definition scan_device (observations : option (gmap string Observation)) (d : DeviceEntry) : Scanned :=
  let obs := device_observation observations d in
  let mc := Ob_ModeCurrent obs in
  let profiles := ParseMigProfiles (Ob_LgipOutput obs) in
  let migCap := capable_device observations d in
  let unobservable := migCap && has_no_profiles obs && bool_decide (mc = modeDisabled) in
  let observed := bool_decide (Ob_Err obs = "") && known_mode mc
                  && negb (negb migCap && bool_decide (mc = modeEnabled)) in
  let sharing := if migCap then no_sharing
                 else mkSharingCapability no_sharing_support (mpsSupportForNonMigDevice mc (Ob_Err obs) (De_Model d)) no_sharing_support in
  mkScanned
    (mkDevice (deviceID d) (De_PCIeAddress d) (De_Model d) (partitionCapabilityFrom migCap profiles (Ob_Err obs) observed)
       sharing no_isolation [] unsupportedApply)
    (if migCap then Some (mkMigDevice (De_PCIeAddress d) mc (Ob_ModePending obs) (Ob_Geometry obs) (Ob_Err obs)) else None)
    unobservable
    (if migCap && negb unobservable then Some (profileMap profiles) else None).
(** The three axes of a device that can be partitioned, once the profiles are known. *)
Definition fill_axes (supported : gmap string Z) (targets : list MigDevice) (dev : DeviceStatus) : DeviceStatus :=
  if negb (Pcap_HardwareSupported (Dv_PartitionCapability dev)) then dev
  else
    let axes := deviceStatusFor supported (targetFor targets (Dv_PCIAddress dev)) (Dv_Model dev) in
    dv_AllocationAPIs (Dv_AllocationAPIs axes)
      (dv_IsolationCapability (Dv_IsolationCapability axes) (dv_SharingCapability (Dv_SharingCapability axes) dev)).
End Pure.

(** ** The backend *)

(** [Executor.Run]: the Job's name, its hash, the node, the commands. *)
Definition Executor (W : Type) : Type := string → string → string → list CommandStep → M W ().
Record Backend (W : Type) := mkBackend {
  Nv_exec : option (Executor W);
  Nv_verifier : option (Verifier W);
  Nv_supported : gmap string Z;
  Nv_targets : list MigDevice;
  Nv_expected : gmap string Z;
  Nv_observations : option (gmap string Observation);
  Nv_profilesUnobservable : bool;
}.
#[global] Arguments mkBackend {W}.
#[global] Arguments Nv_exec {W}.
#[global] Arguments Nv_verifier {W}.
#[global] Arguments Nv_supported {W}.
#[global] Arguments Nv_targets {W}.
#[global] Arguments Nv_expected {W}.
#[global] Arguments Nv_observations {W}.
#[global] Arguments Nv_profilesUnobservable {W}.

Section Backend.
Context {W : Type}.
Implicit Types b : Backend W.

Definition New (exec : option (Executor W)) (verifier : option (Verifier W)) : Backend W :=
  mkBackend exec verifier ∅ [] ∅ None false.
Definition WithTargetPCIs (pcis : list string) b : Backend W :=
  mkBackend (Nv_exec b) (Nv_verifier b) (Nv_supported b) ((λ p, mkMigDevice p "" "" "" "") <$> pcis) (Nv_expected b)
    (Nv_observations b) (Nv_profilesUnobservable b).
Definition WithExpected (m : gmap string Z) b : Backend W :=
  mkBackend (Nv_exec b) (Nv_verifier b) (Nv_supported b) (Nv_targets b) m (Nv_observations b) (Nv_profilesUnobservable b).
Definition WithObservations (obs : gmap string Observation) b : Backend W :=
  mkBackend (Nv_exec b) (Nv_verifier b) (Nv_supported b) (Nv_targets b) (Nv_expected b) (Some obs) (Nv_profilesUnobservable b).
Definition targetSelectors b : list string := filter (λ p, p ≠ "") (Md_PCI <$> Nv_targets b).

Definition Validate b (layout : list Layout) : option GoErr :=
  match layout with
  | [] => Some ErrUnsupported
  | [l] =>
      if negb (IsNvidiaMIGProfile (Lay_Profile l)) then Some ErrUnsupported
      else if Lay_CountPerDevice l <=? 0 then Some ErrInvalidCount
      else match Nv_supported b !! Lay_Profile l with
           | None => if Nv_profilesUnobservable b then None else Some ErrProfileUnsupported
           | Some max => if max <? Lay_CountPerDevice l then Some ErrInvalidCount else None
           end
  | _ => Some ErrMixedPlacementUnsupported
  end.
Definition Diff b (resolved : list ResolvedEntry) : DiffResult :=
  match resolved, Nv_targets b with
  | [r], _ :: _ =>
      let want := GeometrySummary (Re_Profile r) (Re_ExpectedCountPerDevice r) in
      mkDiff (existsb (λ d, negb (bool_decide (Md_Geometry d = want))) (Nv_targets b)) "" want
  | _, _ => mkDiff true "" ""
  end.
(** The specifications of an apply; [None] when a target has no address. *)
Definition apply_specs b (r : ResolvedEntry) : option (list GeometrySpec) :=
  mapM (λ d, if bool_decide (Md_PCI d = "") then None
             else Some (mkGeometrySpec (Md_PCI d) (Re_Profile r) (Re_ExpectedCountPerDevice r))) (Nv_targets b).
Definition disabled_state : RollbackState := rollback_to "disabled".
Definition run_operation (exec : Executor W) (t : Target) (action : string) (steps : list CommandStep) : M W () :=
  let (name, hash) := OperationID (T_Owner t) (T_Generation t) (T_NodeName t) action steps in
  exec name hash (T_NodeName t) steps.
(** The rollback state, [None] for [nil], and the error. *)
Definition Apply b (t : Target) (resolved : list ResolvedEntry) : M W (option RollbackState * option GoErr) :=
  match resolved with
  | [r] =>
      match apply_specs b r with
      | None => mret (None, Some (errorf "nvidia: empty PCI, cannot target safely"))
      | Some specs =>
          match Nv_exec b with
          | None => mret (Some disabled_state, None)
          | Some exec =>
              e ← try (run_operation exec t "apply" (BuildApplySteps specs));
              mret (Some disabled_state, match e with inl _ => None | inr e => Some e end)
          end
      end
  | _ => mret (None, Some ErrMixedPlacementUnsupported)
  end.
Definition Rollback b (t : Target) : M W () :=
  match Nv_exec b, targetSelectors b with
  | None, _ | _, [] => mret ()
  | Some exec, sels => run_operation exec t "rollback" (BuildDisableSteps sels)
  end.
Definition Verify b (t : Target) : M W (option VerifyResult) :=
  match Nv_verifier b with
  | None => mret None
  | Some v => @VerifyAllocatable W v t (Nv_expected b)
  end.

Context `{Environment} `{UpgradeAPI W}.

Definition Discover b (t : Target) : M W (DiscoverResult * Backend W) :=
  ndr ← report_get (T_NodeName t);
  let devices := filter (λ d, De_Vendor d = "nvidia") (Ndr_Devices ndr) in
  let scanned := scan_device (Nv_observations b) <$> devices in
  let targets := omap Sca_Target scanned in
  let version := default "" (find_first (λ v, negb (bool_decide (v = ""))) (De_DriverVersion <$> devices)) in
  let supported := if bool_decide (targets = []) then ∅ else intersectProfiles (omap Sca_Profiles scanned) in
  let operations := if bool_decide (targets = []) then unsupportedApply
                    else mkOperationsStatus (mkOperationStatus true "") (mkOperationStatus true "") in
  let mode := if bool_decide (targets = []) then "Flat" else advProfileNamed in
  mret (mkDiscover zero_backend version (fill_axes supported targets <$> (Sca_Device <$> scanned)) [] [] operations
          (mkAdvertisement mode false "" ∅),
        mkBackend (Nv_exec b) (Nv_verifier b) supported targets (Nv_expected b) (Nv_observations b)
          (existsb Sca_Unobservable scanned)).
End Backend.

(** ** precondition.go *)

Record AlwaysResult := mkAlways { Al_PCIMissing : bool; Al_ObservationFailed : bool; Al_DriverReady : bool }.
Record HWResult := mkHW { Hw_NodeCordoned : bool; Hw_GPUBusy : bool; Hw_MigUnsafe : bool; Hw_MigModeNotEnabled : bool }.
Definition hw_NodeCordoned (v : bool) (h : HWResult) : HWResult := mkHW v (Hw_GPUBusy h) (Hw_MigUnsafe h) (Hw_MigModeNotEnabled h).
Definition podHoldsGPU (pod : Pod) : bool :=
  existsb (λ ctr, existsb (λ l, bool_decide (l.1 = "nvidia.com/gpu") || has_prefix l.1 "nvidia.com/mig-") (Ct_Limits ctr))
    (Pod_Containers pod).
Definition migSafe (d : MigDevice) : bool :=
  bool_decide (Md_ObsError d = "") && bool_decide (Md_ModeCurrent d = modeEnabled) && bool_decide (Md_Geometry d = "").
Definition CheckAlways (devs : list MigDevice) (driverReady : bool) : AlwaysResult :=
  mkAlways (existsb (λ d, bool_decide (Md_PCI d = "")) devs)
    (existsb (λ d, negb (bool_decide (Md_ObsError d = "")) || bool_decide (Md_ModeCurrent d = "Unknown")) devs) driverReady.
Definition mode_off (d : MigDevice) : bool := negb (bool_decide (Md_ModeCurrent d = modeEnabled)).

Section Precondition.
Context {W : Type} `{UpgradeAPI W}.
Definition CheckHardwareChange (node : string) (devs : list MigDevice) : M W HWResult :=
  n ← node_get node;
  pods ← pods_on node;
  mret (mkHW (Node_Unschedulable n) (existsb (λ p, negb (pod_over p) && podHoldsGPU p) pods)
          (existsb (λ d, negb (mode_off d) && negb (migSafe d)) devs) (existsb mode_off devs)).
End Precondition.

(** ** What a validated layout asks of every device *)

Lemma lowest_cons name first s sets :
  lowest name first (s :: sets) = match s !! name with
                                  | Some v => lowest name (if v <? first then v else first) sets
                                  | None => None
                                  end.
Proof.
  unfold lowest. cbn [foldl]. change (Some first ≫= ?f) with (f first). cbv beta.
  destruct (s !! name) as [v|]; [done|]. change (None ≫= ?f) with (@None Z). by induction sets.
Qed.
Lemma lowest_Some name first sets n :
  lowest name first sets = Some n →
  n <= first ∧ (∀ s, s ∈ sets → ∃ v, s !! name = Some v ∧ n <= v) ∧ (n = first ∨ ∃ s, s ∈ sets ∧ s !! name = Some n).
Proof.
  revert first. induction sets as [|s sets IH]; intros first.
  - intros [= <-]. set_solver by lia.
  - rewrite lowest_cons. destruct (s !! name) as [v|] eqn:E; [|done]. intros (Hb&Hc&Hd)%IH.
    assert (Hv : n <= v ∧ n <= first) by (destruct (Z.ltb_spec v first); lia).
    split_and!; [lia|intros s' [->|Hs]%elem_of_cons; [exists v; split; [done|lia]|auto]|].
    destruct Hd as [Hd|(s'&?&?)]; [|right; exists s'; split; [by right|done]].
    destruct (Z.ltb_spec v first); [right; exists s; split; [by left|congruence]|by left].
Qed.
Lemma intersectProfiles_Some sets name n :
  intersectProfiles sets !! name = Some n →
  (∀ s, s ∈ sets → ∃ v, s !! name = Some v ∧ n <= v) ∧ (∃ s, s ∈ sets ∧ s !! name = Some n).
Proof.
  destruct sets as [|s rest]; [done|]. cbn [intersectProfiles]. rewrite map_lookup_imap.
  destruct (s !! name) as [first|] eqn:E; [|done]. change (Some first ≫= ?f) with (f first). cbv beta.
  intros (Hb&Hc&Hd)%lowest_Some. split.
  - intros s' [->|Hs]%elem_of_cons; [eauto|]. by apply Hc.
  - destruct Hd as [->|(s'&?&?)]; [exists s|exists s']; split; auto; [by left|by right].
Qed.

Section DiscoverFacts.
Context {W : Type} `{Environment} `{UpgradeAPI W}.
Implicit Types b : Backend W.

(** The devices of a report the backend looks at, and what it makes of each. *)
Definition nvidia_devices (ndr : NodeDeviceReport) : list DeviceEntry := filter (λ d, De_Vendor d = "nvidia") (Ndr_Devices ndr).
Lemma Discover_inv b t w r b' w' : Discover b t w = (inl (r, b'), w') →
  ∃ ndr, report_get (T_NodeName t) w = (inl ndr, w') ∧
    let scanned := scan_device (Nv_observations b) <$> nvidia_devices ndr in
    Nv_targets b' = omap Sca_Target scanned
    ∧ Nv_supported b' = (if bool_decide (Nv_targets b' = []) then ∅ else intersectProfiles (omap Sca_Profiles scanned))
    ∧ Nv_profilesUnobservable b' = existsb Sca_Unobservable scanned
    ∧ Dis_Devices r = fill_axes (Nv_supported b') (Nv_targets b') <$> (Sca_Device <$> scanned).
Proof.
  unfold Discover, mbind, M_bind, mret, M_ret. destruct (report_get _ w) as [[ndr|e] w1] eqn:E; [|done].
  intros [= <- <- <-]. by exists ndr.
Qed.

(** A layout that passes validation after a discovery names one profile of the
    [<n>g.<m>gb] form and asks for at least one instance.  Unless some device's profiles
    could not be seen because its MIG mode is off and the profile is missing from the
    common ones, every device that reported profiles offers that profile at least that
    many times. *)
Theorem validated_layout_fits_every_device b t w r b' w' layout :
  Discover b t w = (inl (r, b'), w') → Validate b' layout = None →
  ∃ l ndr, layout = [l] ∧ report_get (T_NodeName t) w = (inl ndr, w')
    ∧ IsNvidiaMIGProfile (Lay_Profile l) = true ∧ 1 <= Lay_CountPerDevice l
    ∧ (Nv_profilesUnobservable b' = true ∧ Nv_supported b' !! Lay_Profile l = None
       ∨ ∀ d profiles, d ∈ nvidia_devices ndr → Sca_Profiles (scan_device (Nv_observations b) d) = Some profiles →
           ∃ max, profiles !! Lay_Profile l = Some max ∧ Lay_CountPerDevice l <= max).
Proof.
  intros (ndr&Hr&Ht&Hs&Hu&_)%Discover_inv. unfold Validate.
  destruct layout as [|l [|? ?]]; [done| |done]. destruct (IsNvidiaMIGProfile _) eqn:Ep; [|done]. cbn [negb].
  destruct (Z.leb_spec (Lay_CountPerDevice l) 0) as [|Hc]; [done|]. intros Hv.
  exists l, ndr. split_and!; [done..|lia|].
  destruct (Nv_supported b' !! Lay_Profile l) as [max|] eqn:El.
  - right. destruct (Z.ltb_spec max (Lay_CountPerDevice l)) as [|Hm]; [done|].
    rewrite Hs in El. case_bool_decide; [done|]. apply intersectProfiles_Some in El as (Hall&_).
    intros d profiles Hd Hp. destruct (Hall profiles) as (v&?&?); [|exists v; split; [done|lia]].
    apply list_elem_of_omap. exists (scan_device (Nv_observations b) d). split; [|done].
    by apply list_elem_of_fmap_2.
  - left. by destruct (Nv_profilesUnobservable b').
Qed.

(** No device is reported able to run MPS while its MIG mode was seen Enabled: for
    every discovered device with MPS supported there is a device of the report at its
    address whose mode, from the observation when there is one, is not Enabled. *)
Theorem mps_excludes_mig b t w r b' w' dev :
  Discover b t w = (inl (r, b'), w') → dev ∈ Dis_Devices r →
  Sms_Supported (Shc_MultiProcess (Dv_SharingCapability dev)) = true →
  ∃ ndr d, report_get (T_NodeName t) w = (inl ndr, w') ∧ d ∈ nvidia_devices ndr ∧ De_PCIeAddress d = Dv_PCIAddress dev
    ∧ Ob_ModeCurrent (device_observation (Nv_observations b) d) ≠ modeEnabled.
Proof.
  intros (ndr&Hr&Ht&_&_&Hd)%Discover_inv Hin Hmps. exists ndr. rewrite Hd in Hin.
  apply list_elem_of_fmap in Hin as (dev0&->&Hin). apply list_elem_of_fmap in Hin as (sc&->&Hin).
  apply list_elem_of_fmap in Hin as (d&->&Hin). unfold fill_axes in *.
  destruct (capable_device (Nv_observations b) d) eqn:Ecap.
  - assert (Eh : Pcap_HardwareSupported (Dv_PartitionCapability (Sca_Device (scan_device (Nv_observations b) d))) = true)
      by (unfold scan_device; by rewrite Ecap).
    rewrite Eh in Hmps |- *. change (negb true) with false in *. cbv iota in *.
    set (tg := targetFor _ _) in Hmps. change (Sms_Supported (mig_mps tg) = true) in Hmps.
    assert (Hmode : Md_ModeCurrent tg = modeDisabled).
    { unfold mig_mps, mps_support in Hmps. repeat case_bool_decide; done. }
    unfold tg, targetFor in Hmode. destruct (find_first _ _) as [t0|] eqn:Ef; [|done].
    apply find_first_Some in Ef as (l1&l2&El&Hp&_). bool_prop. cbn [default from_option id] in Hmode.
    assert (Htg : t0 ∈ Nv_targets b') by (rewrite El; set_solver). rewrite Ht in Htg.
    apply list_elem_of_omap in Htg as (sc&Hsc&Etg). apply list_elem_of_fmap in Hsc as (d'&->&Hd').
    exists d'. unfold scan_device in Etg. cbn [Sca_Target] in Etg.
    destruct (capable_device _ d'); [|done]. injection Etg as <-. cbn [Md_ModeCurrent Md_PCI] in *.
    split_and!; [done|done|exact Hp|by rewrite Hmode].
  - exists d. unfold scan_device in Hmps |- *. rewrite Ecap in Hmps |- *. split_and!; [done..|]. intros Eb.
    change (Sms_Supported (mpsSupportForNonMigDevice (Ob_ModeCurrent (device_observation (Nv_observations b) d))
      (Ob_Err (device_observation (Nv_observations b) d)) (De_Model d)) = true) in Hmps.
    by rewrite Eb in Hmps.
Qed.
End DiscoverFacts.

Definition demo_env (k : string) : string := "".
Definition demo_lgip_row : string := "|   0  MIG 1g.6gb       14     4/4        5.81       No     14     1     0   |".
Definition a30_device : DeviceEntry :=
  mkDeviceEntry "nvidia" "generic" 1 true "550.2" "" false 24576 "0000:01:00.0" "" "" "" "" "" "".
Definition a30_world : Frozen :=
  mkFrozen hour (Some demo_node) (Some (mkNDR "node-a" [a30_device] None None)) [] [] [] [] None None [].
Definition a30_backend (mode lgip : string) : Backend Frozen :=
  WithObservations {["0000:01:00.0" := mkObservation "0000:01:00.0" mode mode "" lgip ""]} (New None None).
Definition demo_target : Target := mkTargetCtx "node-a" "ds" "ns" "acpp-a" 1 "nvidia".
#[export] Instance demo_environment : Environment | 100 := {| Getenv := demo_env |}.
Definition discovered (b : Backend Frozen) : option (DiscoverResult * Backend Frozen) :=
  match (Discover b demo_target a30_world).1 with inl r => Some r | inr _ => None end.
Definition seen (b : Backend Frozen) : DiscoverResult * Backend Frozen :=
  default (mkDiscover zero_backend "" [] [] [] no_operations (mkAdvertisement "" false "" ∅), b) (discovered b).

Lemma validated_layout_fits_every_device_witness :
  let b := a30_backend modeEnabled demo_lgip_row in
  ∃ l ndr, [mkLayout "1g.6gb" 4] = [l] ∧ report_get (T_NodeName demo_target) a30_world = (inl ndr, a30_world)
    ∧ IsNvidiaMIGProfile (Lay_Profile l) = true ∧ 1 <= Lay_CountPerDevice l
    ∧ (Nv_profilesUnobservable (seen b).2 = true ∧ Nv_supported (seen b).2 !! Lay_Profile l = None
       ∨ ∀ d profiles, d ∈ nvidia_devices ndr → Sca_Profiles (scan_device (Nv_observations b) d) = Some profiles →
           ∃ max, profiles !! Lay_Profile l = Some max ∧ Lay_CountPerDevice l <= max).
Proof.
  intros b. apply (validated_layout_fits_every_device b demo_target a30_world (seen b).1 (seen b).2 a30_world); vm_compute; reflexivity.
Defined.
Lemma mps_excludes_mig_witness :
  let b := a30_backend modeDisabled "" in
  ∃ dev, Dis_Devices (seen b).1 = [dev] ∧
  ∃ ndr d, report_get (T_NodeName demo_target) a30_world = (inl ndr, a30_world) ∧ d ∈ nvidia_devices ndr
    ∧ De_PCIeAddress d = Dv_PCIAddress dev ∧ Ob_ModeCurrent (device_observation (Nv_observations b) d) ≠ modeEnabled.
Proof.
  intros b. eexists. split; [vm_compute; reflexivity|].
  apply (mps_excludes_mig b demo_target a30_world (seen b).1 (seen b).2 a30_world); [vm_compute; reflexivity|left|vm_compute; reflexivity].
Defined.
