(* ===== verification/SharingConfig.v ===== *)
(** * internal/partition/nvidia/timeslicing.go: sharing a device among replicas

    The configuration of the device plugin for time slicing and MPS, how it is
    wired into the plugin's DaemonSet and taken out again, and the two objects'
    owner mark.  [yaml.Marshal] is sigs.k8s.io/yaml's: the parameter [yaml_marshal]. *)

From S2P Require Import Prelude GoStrings GoTime Naming ApiTypes PolicyTypes HealthController UpgradeTypes UpgradeEffects PartitionTypes PartitionProfiles.

Definition SharingOwnerAnnotation : string := "npu.ai/sharing-owner".
Definition SharingConfigKey : string := "config.yaml".
Definition SharingConfigPath : string := "/etc/nvidia-device-plugin/config.yaml".
(** [path.Dir(SharingConfigPath)] *)
Definition SharingConfigDir : string := "/etc/nvidia-device-plugin".
Definition SharingVolumeName : string := "sharing-config".
Definition MPSPipeDir : string := "/tmp/nvidia-mps".
Definition MPSContainerRoot : string := "/mps".
Definition mpsPipeVolumeName : string := "mps-pipe".
Definition mpsShmVolumeName : string := "mps-shm".
Definition mpsRootEnvName : string := "MPS_ROOT".

(** ** The configuration *)

Record dpReplicatedResources := mkReplicated {
  Rr_RenameByDefault : bool; Rr_FailRequestsGreaterThanOne : bool; Rr_Resources : list (string * Z);
}.
Record dpSharing := mkDpSharing { Dps_TimeSlicing : option dpReplicatedResources; Dps_MPS : option dpReplicatedResources }.
Record dpSharingConfig := mkDpConfig { Dpc_Version : string; Dpc_Sharing : option dpSharing }.
Class Yaml := { yaml_marshal : dpSharingConfig → string + GoErr }.

Definition shared_mode (mode : string) : bool :=
  bool_decide (mode = SharingModeTimeSliced) || bool_decide (mode = SharingModeMPS).
Definition sharing_config (resources : gmap string Z) (l : SharingLayout) : dpSharingConfig + GoErr :=
  if negb (shared_mode (Sl_Mode l)) then inl (mkDpConfig "v1" None)
  else if bool_decide (resources = ∅) then
    inr (errorf ("nvidia: no advertised resources to share (" +:+ Sl_Mode l +:+ ")"))
  else
    let names := sort_strings (map_to_list resources).*1 in
    let entries := (λ n, (n, Sl_Replicas l)) <$> names in
    if bool_decide (Sl_Mode l = SharingModeMPS)
    then inl (mkDpConfig "v1" (Some (mkDpSharing None (Some (mkReplicated false true entries)))))
    else inl (mkDpConfig "v1" (Some (mkDpSharing (Some (mkReplicated false (Sl_FailRequestsGreaterThanOne l) entries)) None))).
Definition RenderSharingConfig `{Yaml} (resources : gmap string Z) (l : SharingLayout) : string + GoErr :=
  match sharing_config resources l with inl cfg => yaml_marshal cfg | inr e => inr e end.
Definition ExpectedShared (base : gmap string Z) (l : SharingLayout) : gmap string Z :=
  (λ v, if shared_mode (Sl_Mode l) then wrap32 (v * Sl_Replicas l) else v) <$> base.

(** ** Wiring *)

Definition has_mount (n : string) (c : PluginContainer) : bool := existsb (λ m, bool_decide (m.1 = n)) (Pc_VolumeMounts c).
Definition has_volume (n : string) (vs : list (string * PluginVolumeSource)) : bool := existsb (λ v, bool_decide (v.1 = n)) vs.
Definition has_env (n : string) (c : PluginContainer) : bool := existsb (λ e, bool_decide (e.1 = n)) (Pc_Env c).
Definition config_arg : string := "--config-file=" +:+ SharingConfigPath.
Definition add_arg (a : string) (c : PluginContainer) : PluginContainer :=
  if contains_string (Pc_Args c) a then c
  else mkPluginContainer (Pc_Name c) (Pc_Image c) (Pc_Args c ++ [a]) (Pc_Env c) (Pc_VolumeMounts c).
Definition add_env (k v : string) (c : PluginContainer) : PluginContainer :=
  if has_env k c then c
  else mkPluginContainer (Pc_Name c) (Pc_Image c) (Pc_Args c) (Pc_Env c ++ [(k, v)]) (Pc_VolumeMounts c).
Definition add_mount (n path : string) (c : PluginContainer) : PluginContainer :=
  if has_mount n c then c
  else mkPluginContainer (Pc_Name c) (Pc_Image c) (Pc_Args c) (Pc_Env c) (Pc_VolumeMounts c ++ [(n, path)]).
Definition add_volume (n : string) (s : PluginVolumeSource) (vs : list (string * PluginVolumeSource)) :=
  if has_volume n vs then vs else vs ++ [(n, s)].

Definition wire_container (mode : string) (c : PluginContainer) : PluginContainer :=
  let c := add_mount SharingVolumeName SharingConfigDir (add_arg config_arg c) in
  if negb (bool_decide (mode = SharingModeMPS)) then c
  else add_mount mpsShmVolumeName "/dev/shm"
         (add_mount mpsPipeVolumeName MPSContainerRoot (add_env mpsRootEnvName MPSPipeDir c)).
Definition wire_volumes (mode cmName : string) (vs : list (string * PluginVolumeSource)) :=
  let vs := add_volume SharingVolumeName (ConfigMapSource cmName) vs in
  if negb (bool_decide (mode = SharingModeMPS)) then vs
  else add_volume mpsShmVolumeName (HostPathSource (MPSPipeDir +:+ "/shm"))
         (add_volume mpsPipeVolumeName (HostPathSource MPSPipeDir) vs).
(** [Containers[0]] panics on an empty list: [None]. *)
Definition on_first_container (f : PluginContainer → PluginContainer)
    (g : list (string * PluginVolumeSource) → list (string * PluginVolumeSource)) (ds : PluginDaemonSet) : option PluginDaemonSet :=
  match Pds_Containers ds with
  | [] => None
  | c :: cs => Some (pds_template (f c :: cs) (g (Pds_Volumes ds)) ds)
  end.
Definition WireSharing (mode cmName : string) : PluginDaemonSet → option PluginDaemonSet :=
  on_first_container (wire_container mode) (wire_volumes mode cmName).

Definition our_volume (n : string) : bool :=
  bool_decide (n = SharingVolumeName) || bool_decide (n = mpsPipeVolumeName) || bool_decide (n = mpsShmVolumeName).
Definition unwire_container (c : PluginContainer) : PluginContainer :=
  mkPluginContainer (Pc_Name c) (Pc_Image c)
    (filter (λ a, has_prefix a "--config-file=" = false) (Pc_Args c))
    (filter (λ e, e.1 ≠ mpsRootEnvName) (Pc_Env c))
    (filter (λ m, our_volume m.1 = false) (Pc_VolumeMounts c)).
Definition UnwireSharing : PluginDaemonSet → option PluginDaemonSet :=
  on_first_container unwire_container (filter (λ v, our_volume v.1 = false)).
Definition HasMPSVolume (ds : PluginDaemonSet) : bool := has_volume mpsPipeVolumeName (Pds_Volumes ds).
Definition SharingConfigMapNameOf (ds : PluginDaemonSet) : string :=
  match find_first (λ v, bool_decide (v.1 = SharingVolumeName) && match v.2 with ConfigMapSource _ => true | _ => false end)
          (Pds_Volumes ds) with
  | Some (_, ConfigMapSource n) => n
  | _ => SharingConfigMapNameMixed
  end.

Definition index_panic : GoErr := errorf "runtime error: index out of range [0] with length 0".
Definition sharing_owner (annotations : gmap string string) : string := mget "" annotations SharingOwnerAnnotation.
(** Another policy's mark: the object is not to be touched. *)
Definition foreign (annotations : gmap string string) (owner : string) : bool :=
  negb (bool_decide (sharing_owner annotations = "")) && negb (bool_decide (sharing_owner annotations = owner)).

Section Sharing.
Context {W : Type} `{UpgradeAPI W, PartitionAPI W} `{Yaml}.

Definition DevicePluginTargetForNode (node : string) : M W (string * string) :=
  n ← node_get node;
  mret (if bool_decide (mget "" (Node_Labels n) MigActiveNodeLabel = "true")
        then (DevicePluginNameMixed, SharingConfigMapNameMixed)
        else (DevicePluginNameFlat, SharingConfigMapNameFlat)).

Definition ApplySharingConfig (t : Target) (l : SharingLayout) (base : gmap string Z) : M W SharingRollbackState :=
  match ValidateSharingLayout l with
  | Some e => throw e
  | None =>
      '(dsName, cmName) ← DevicePluginTargetForNode (T_NodeName t);
      ds ← plugin_ds_get dpNamespace dsName;
      if foreign (Pds_Annotations ds) (T_Owner t) then
        throw (errorf ("nvidia: device-plugin sharing owned by " +:+ quote (sharing_owner (Pds_Annotations ds))
                         +:+ ", not " +:+ quote (T_Owner t)))
      else
        match RenderSharingConfig base l with
        | inr e => throw e
        | inl rendered =>
            let data := {[ SharingConfigKey := rendered ]} in
            g ← try (configmap_get dpNamespace cmName);
            match g with
            | inl cm =>
                if foreign (Cm_Annotations cm) (T_Owner t) then
                  throw (errorf ("nvidia: sharing configmap " +:+ dpNamespace +:+ "/" +:+ cmName +:+ " exists but is owned by "
                                   +:+ quote (sharing_owner (Cm_Annotations cm)) +:+ ", not " +:+ quote (T_Owner t)))
                else
                  _ ← configmap_update (mkConfigMap (Cm_Name cm) (Cm_Namespace cm)
                                          (<[SharingOwnerAnnotation := T_Owner t]> (Cm_Annotations cm)) data);
                  mret (mkSharingRollback true (mget "" (Cm_Data cm) SharingConfigKey))
            | inr e =>
                if is_not_found e then
                  _ ← configmap_create (mkConfigMap cmName dpNamespace {[ SharingOwnerAnnotation := T_Owner t ]} data);
                  mret (mkSharingRollback false "")
                else throw e
            end
        end
  end.

(** The snapshot, which stays when the DaemonSet could not be wired, and the error. *)
Definition wire_ds (t : Target) (mode : string) : M W () :=
  '(dsName, cmName) ← DevicePluginTargetForNode (T_NodeName t);
  ds ← plugin_ds_get dpNamespace dsName;
  match WireSharing mode cmName (pds_annotations (<[SharingOwnerAnnotation := T_Owner t]> (Pds_Annotations ds)) ds) with
  | None => throw index_panic
  | Some ds' => plugin_ds_patch ds ds'
  end.
Definition ApplySharing (t : Target) (l : SharingLayout) (base : gmap string Z)
    : M W (option SharingRollbackState * option GoErr) :=
  c ← try (ApplySharingConfig t l base);
  match c with
  | inr e => mret (None, Some e)
  | inl st => e ← try (wire_ds t (Sl_Mode l)); mret (Some st, match e with inl _ => None | inr e => Some e end)
  end.

(** The two loops of [resolveRollbackTarget]: the first object marked with the owner. *)
Fixpoint owned_ds (owner : string) (names : list string) : M W (option (string * string)) :=
  match names with
  | [] => mret None
  | name :: names =>
      g ← try (plugin_ds_get dpNamespace name);
      match g with
      | inr e => if is_not_found e then owned_ds owner names else throw e
      | inl ds => if bool_decide (sharing_owner (Pds_Annotations ds) = owner)
                  then mret (Some (name, SharingConfigMapNameOf ds)) else owned_ds owner names
      end
  end.
Fixpoint owned_cm (owner : string) (pairs : list (string * string)) : M W (option (string * string)) :=
  match pairs with
  | [] => mret None
  | (cmName, dsName) :: pairs =>
      g ← try (configmap_get dpNamespace cmName);
      match g with
      | inr e => if is_not_found e then owned_cm owner pairs else throw e
      | inl cm => if bool_decide (sharing_owner (Cm_Annotations cm) = owner)
                  then mret (Some (dsName, cmName)) else owned_cm owner pairs
      end
  end.
Definition resolveRollbackTarget (t : Target) : M W (string * string) :=
  d ← owned_ds (T_Owner t) [DevicePluginNameMixed; DevicePluginNameFlat];
  match d with
  | Some p => mret p
  | None =>
      c ← owned_cm (T_Owner t) [(SharingConfigMapNameMixed, DevicePluginNameMixed); (SharingConfigMapNameFlat, DevicePluginNameFlat)];
      match c with Some p => mret p | None => DevicePluginTargetForNode (T_NodeName t) end
  end.

Definition restore_config (s : SharingRollbackState) (g : ConfigMap + GoErr) : M W () :=
  match g with
  | inl cm =>
      if Srb_ConfigMapExisted s
      then configmap_update (mkConfigMap (Cm_Name cm) (Cm_Namespace cm) (Cm_Annotations cm)
                               {[ SharingConfigKey := Srb_PrevConfigYAML s ]})
      else d ← try (configmap_delete cm);
           match d with inr e => if is_not_found e then mret () else throw e | inl _ => mret () end
  | inr e => if is_not_found e then mret () else throw e
  end.
Definition RollbackSharing (t : Target) (s : SharingRollbackState) : M W () :=
  '(dsName, cmName) ← resolveRollbackTarget t;
  d ← try (plugin_ds_get dpNamespace dsName);
  ds ← match d with
       | inl ds => mret (Some ds)
       | inr e => if is_not_found e then mret None else throw e
       end;
  if match ds with Some ds => foreign (Pds_Annotations ds) (T_Owner t) | None => false end then mret ()
  else
    g ← try (configmap_get dpNamespace cmName);
    if match g with inl cm => foreign (Cm_Annotations cm) (T_Owner t) | inr _ => false end then mret ()
    else
      _ ← restore_config s g;
      match ds with
      | None => mret ()
      | Some ds =>
          if Srb_ConfigMapExisted s then mret ()
          else match UnwireSharing (pds_annotations (delete SharingOwnerAnnotation (Pds_Annotations ds)) ds) with
               | None => throw index_panic
               | Some ds' => plugin_ds_patch ds ds'
               end
      end.
End Sharing.

(** ** internal/controller/mps_control_daemon.go: the MPS control daemon

    The DaemonSet the MPS mode needs, created and kept in shape while a policy
    asks for MPS and deleted when no other policy does; and the gate that waits
    for a ready pod on the node at hand. *)


#[global] Instance Requirement_eq_dec : EqDecision Requirement.
Proof. solve_decision. Defined.
#[global] Instance SelectorTerm_eq_dec : EqDecision SelectorTerm.
Proof. solve_decision. Defined.

(** ** The DaemonSet *)

(** A mount: the volume's name, the path, bidirectional propagation or not. *)
Record MpsContainer := mkMpsContainer {
  Mct_Name : string; Mct_Image : string; Mct_Command : list string; Mct_Env : list (string * string);
  Mct_Privileged : bool; Mct_Mounts : list (string * string * bool);
}.
#[global] Instance MpsContainer_eq_dec : EqDecision MpsContainer.
Proof. solve_decision. Defined.
Record MpsDaemonSpec := mkMpsSpec {
  Msp_Selector : gmap string string;
  Msp_PodLabels : gmap string string;
  (** the required node affinity *)
  Msp_Required : list SelectorTerm;
  Msp_RuntimeClassName : string;
  Msp_ToleratesAll : bool;
  Msp_ShareProcessNamespace : bool;
  Msp_InitContainers : list MpsContainer;
  Msp_Containers : list MpsContainer;
  Msp_Volumes : list (string * PluginVolumeSource);
}.
#[global] Instance MpsDaemonSpec_eq_dec : EqDecision MpsDaemonSpec.
Proof. solve_decision. Defined.
Record MpsDaemonSet := mkMpsDS {
  Mds_Name : string; Mds_Namespace : string; Mds_Labels : gmap string string; Mds_Spec : MpsDaemonSpec;
  Mds_NumberReady : Z; Mds_DesiredNumberScheduled : Z;
}.
Class MpsAPI (W : Type) := {
  mps_ds_get : string → string → M W MpsDaemonSet;
  mps_ds_create : MpsDaemonSet → M W ();
  mps_ds_update : MpsDaemonSet → M W ();
  mps_ds_delete : string → string → M W ();
}.

Definition mpsControlDaemonDSName : string := "nvidia-mps-control-daemon".
Definition mpsControlDaemonLegacyDSName : string := "kcloud-mps-control-daemon".
Definition mpsControlImageDefault : string := "nvcr.io/nvidia/k8s-device-plugin:v0.19.3".
Definition kube_system : string := "kube-system".
Definition NodeSelectorOpIn : string := "In".
Definition NodeSelectorOpDoesNotExist : string := "DoesNotExist".
Definition PodReady : string := "Ready".

(** [applyControlPlaneExclusion] of npuclusterpolicy_controller.go on a required affinity. *)
Definition control_plane_exclusion : list Requirement :=
  [mkRequirement "node-role.kubernetes.io/control-plane" NodeSelectorOpDoesNotExist [];
   mkRequirement "node-role.kubernetes.io/master" NodeSelectorOpDoesNotExist []].
Definition applyControlPlaneExclusion (terms : list SelectorTerm) : list SelectorTerm :=
  (λ t, mkTerm (Term_Expressions t ++ control_plane_exclusion) (Term_Fields t))
  <$> (match terms with [] => [mkTerm [] []] | _ => terms end).

Section Render.
Context `{Environment}.
Definition renderMpsControlDaemonDS : MpsDaemonSet :=
  let image := if bool_decide (Getenv "ACPP_MPS_CONTROL_IMAGE" = "") then mpsControlImageDefault
               else Getenv "ACPP_MPS_CONTROL_IMAGE" in
  let labels : gmap string string :=
    {[ "app.kubernetes.io/name" := mpsControlDaemonDSName; "app.kubernetes.io/component" := "mps-control-daemon" ]} in
  mkMpsDS mpsControlDaemonDSName kube_system labels
    (mkMpsSpec labels labels
       (applyControlPlaneExclusion
          [mkTerm [mkRequirement (PresentNodeLabel vendorNvidia) NodeSelectorOpIn ["true"];
                   mkRequirement MigActiveNodeLabel NodeSelectorOpDoesNotExist []] []])
       vendorNvidia true true
       [mkMpsContainer "mps-control-daemon-mounts" image ["mps-control-daemon"; "mount-shm"] [] true
          [("mps-pipe", MPSContainerRoot, true)]]
       [mkMpsContainer "mps-control-daemon" image ["mps-control-daemon"]
          [("NVIDIA_VISIBLE_DEVICES", "all"); ("NVIDIA_DRIVER_CAPABILITIES", "compute,utility");
           ("CONFIG_FILE", SharingConfigPath)] true
          [("mps-pipe", MPSContainerRoot, false); ("mps-shm", "/dev/shm", false); (SharingVolumeName, SharingConfigDir, false)]]
       [("mps-pipe", HostPathSource MPSPipeDir); ("mps-shm", HostPathSource (MPSPipeDir +:+ "/shm"));
        (SharingVolumeName, ConfigMapSource SharingConfigMapNameFlat)]) 0 0.
End Render.

(** ** Keeping it *)

Definition ErrMpsDaemonNotReady : GoErr := mkErr KMpsNotReady "mps control daemon not ready".
(** [errors.Is(err, ErrMpsDaemonNotReady)] *)
Definition is_mps_not_ready (e : GoErr) : bool := bool_decide (err_kind e = KMpsNotReady).
Definition uses_mps (p : AcceleratorPartitionPolicy) : bool :=
  existsb (λ rec, bool_decide (Rec_SharingMode rec = SharingModeMPS)) (Acpp_ApplyRecords p).
Definition pod_ready (p : Pod) : bool :=
  existsb (λ c, bool_decide (Cond_Type c = PodReady) && bool_decide (Cond_Status c = ConditionTrue)) (Pod_Conditions p).

Section Daemon.
Context {W : Type} `{UpgradeAPI W, PartitionAPI W, MpsAPI W} `{Environment}.

Definition mpsDaemonReadyOnNode (node : string) (ds : MpsDaemonSet) : M W bool :=
  pods ← pod_list;
  mret (existsb (λ p, bool_decide (Pod_Namespace p = Mds_Namespace ds)
                      && labels_match (Msp_Selector (Mds_Spec ds)) (Pod_Labels p)
                      && bool_decide (Pod_NodeName p = node) && pod_ready p) pods).
Definition anyPolicyStillUsesMPS (self : string) : M W bool :=
  l ← acpp_list; mret (existsb (λ p, negb (bool_decide (Acpp_Name p = self)) && uses_mps p) l).

Definition ignoring_not_found (m : M W ()) : M W () :=
  r ← try m;
  match r with inl _ => mret () | inr e => if is_not_found e then mret () else throw e end.
(** Not MPS: delete the daemon unless another policy uses it. *)
Definition retire_daemon (self : string) : M W () :=
  g ← try (mps_ds_get kube_system mpsControlDaemonDSName);
  match g with
  | inr e => if is_not_found e then mret () else throw e
  | inl cur =>
      used ← anyPolicyStillUsesMPS self;
      if (used : bool) then mret () else ignoring_not_found (mps_ds_delete (Mds_Namespace cur) (Mds_Name cur))
  end.
(** MPS: the daemon as rendered; the status of the object as it was read. *)
Definition shape_daemon (desired : MpsDaemonSet) : M W (Z * Z) :=
  g ← try (mps_ds_get (Mds_Namespace desired) (Mds_Name desired));
  match g with
  | inr e => if is_not_found e then _ ← mps_ds_create desired; mret (0, 0) else throw e
  | inl cur =>
      _ ← (if bool_decide (Mds_Spec cur = Mds_Spec desired) then mret ()
           else mps_ds_update (mkMpsDS (Mds_Name cur) (Mds_Namespace cur) (Mds_Labels cur) (Mds_Spec desired)
                                 (Mds_NumberReady cur) (Mds_DesiredNumberScheduled cur)));
      mret (Mds_NumberReady cur, Mds_DesiredNumberScheduled cur)
  end.
Definition ensureMpsControlDaemon (mode self node : string) : M W () :=
  if negb (bool_decide (mode = SharingModeMPS)) then retire_daemon self
  else
    _ ← ignoring_not_found (mps_ds_delete kube_system mpsControlDaemonLegacyDSName);
    let desired := renderMpsControlDaemonDS in
    '(ready_n, desired_n) ← shape_daemon desired;
    ready ← mpsDaemonReadyOnNode node desired;
    if (ready : bool) then mret ()
    else throw (mkErr KMpsNotReady (err_msg ErrMpsDaemonNotReady +:+ ": node=" +:+ node +:+ " has no ready daemon pod (ds numberReady="
                  +:+ sprint_Z ready_n +:+ " desiredNumberScheduled=" +:+ sprint_Z desired_n +:+ ")")).
End Daemon.
