(* ===== verification/RngdBackend.v ===== *)
(** * internal/partition/rngd: the RNGD backend

    [backend.go]: the partition policy of a FuriosaAI RNGD node is one environment
    variable of the device plugin's DaemonSet, so applying, comparing and rolling back
    a layout read and write that variable.  [json.Marshal] of the pod template is the
    parameter [template_json]. *)

From S2P Require Import Prelude GoStrings GoTime GoText Naming ApiTypes PolicyTypes HealthController UpgradeTypes UpgradeEffects PartitionTypes PartitionProfiles.

Definition RngdResourceName : string := "furiosa.ai/rngd".
Definition partitionPolicyEnv : string := "RNGD_PARTITION_POLICY".
Definition pluginContainerName : string := "furiosa-device-plugin".
Definition PartitionOwnerAnnotation : string := "npu.ai/partition-owner".
Definition MultiProcessEnv : string := "KCLOUD_RNGD_MULTIPROCESS".
Class TemplateJSON := { template_json : PluginDaemonSet → string }.

(** ** The plugin's container *)

Definition is_plugin (c : PluginContainer) : bool := bool_decide (Pc_Name c = pluginContainerName).
Definition envValue (ds : PluginDaemonSet) : string :=
  default "" (head
    (c ← filter (λ c, is_plugin c = true) (Pds_Containers ds);
     option_list (snd <$> find_first (λ e, bool_decide (e.1 = partitionPolicyEnv)) (Pc_Env c)))).
(** The first entry of that name, or a new one at the end. *)
Fixpoint set_env (name value : string) (env : list (string * string)) : list (string * string) :=
  match env with
  | [] => [(name, value)]
  | e :: env => if bool_decide (e.1 = name) then (name, value) :: env else e :: set_env name value env
  end.
Definition pc_env (f : list (string * string) → list (string * string)) (c : PluginContainer) : PluginContainer :=
  mkPluginContainer (Pc_Name c) (Pc_Image c) (Pc_Args c) (f (Pc_Env c)) (Pc_VolumeMounts c).
Fixpoint set_plugin_env (name value : string) (cs : list PluginContainer) : list PluginContainer :=
  match cs with
  | [] => []
  | c :: cs => if is_plugin c then pc_env (set_env name value) c :: cs else c :: set_plugin_env name value cs
  end.
Definition setEnvValue (name value : string) (ds : PluginDaemonSet) : PluginDaemonSet :=
  pds_template (set_plugin_env name value (Pds_Containers ds)) (Pds_Volumes ds) ds.
(** The tag of an image reference: what follows the last colon of its last component. *)
Definition image_version (image : string) : option string :=
  let ref := match cut_last "/" image with Some (_, r) => r | None => image end in
  snd <$> cut_last ":" ref.
Definition dsImageVersion (ds : PluginDaemonSet) : string :=
  default "" (head (omap (λ c, if is_plugin c then image_version (Pc_Image c) else None) (Pds_Containers ds))).
Example image_version_runs :
  image_version <$> ["registry.io:5000/furiosa/plugin:0.6.4"; "registry.io:5000/furiosa/plugin"; "plugin:v1"]
  = [Some "0.6.4"; None; Some "v1"].
Proof. vm_compute. reflexivity. Qed.
Definition templateHash `{TemplateJSON} (ds : PluginDaemonSet) : string := hex (take 8 (sum256 (template_json ds))).

(** ** Capabilities *)

Definition MultiProcessSupportFromEnv `{Environment} : SharingModeSupport :=
  let v := Getenv MultiProcessEnv in
  if bool_decide (v = "verified") then
    mkSharingModeSupport true VerificationVerified 0 "measured: concurrent processes on one RNGD device"
  else if bool_decide (v = "unsupported") then
    mkSharingModeSupport false VerificationVerified 0 "measured: concurrent process execution not possible"
  else mkSharingModeSupport false VerificationRequired 0 "runtime multi-process not measured yet".
Definition capabilityProfiles : list ProfileSupport :=
  (λ p, mkProfileSupport (Rp_Profile p) (Rp_CountPerDevice p) (Rp_SupportLevel p))
  <$> filter (λ p, Rp_SupportLevel p ≠ SupportLegacyDocumented) rngdProfileTable.
Definition deviceID (d : DeviceEntry) : string :=
  if negb (bool_decide (De_PCIeAddress d = "")) then "PCI-" +:+ De_PCIeAddress d else De_Model d.
Definition is_rngd (d : DeviceEntry) : bool := equal_fold (De_Vendor d) "furiosa" && equal_fold (De_Model d) "rngd".
Definition rngd_operations : OperationsStatus := mkOperationsStatus (mkOperationStatus true "") (mkOperationStatus true "").
(** [deviceStatusFor] with the fields [Discover] puts around it. *)
Definition deviceStatusFor `{Environment} (d : DeviceEntry) : DeviceStatus :=
  mkDevice (deviceID d) (De_PCIeAddress d) (De_Model d)
    (mkCapability true "FixedProfile" false capabilityProfiles "" "")
    (mkSharingCapability
       (mkSharingModeSupport false VerificationRequired 0 "furiosa device-plugin has no replica/time-slicing option")
       MultiProcessSupportFromEnv
       (mkSharingModeSupport false VerificationRequired 0 "broker not implemented"))
    (mkIsolationCapability "" "" "") [AllocationAPIDevicePlugin] rngd_operations.

(** ** The operations *)

Definition Validate (layout : list Layout) : option GoErr :=
  head (omap (λ l, ValidateLayout (Lay_Profile l) (Lay_CountPerDevice l)) layout).
(** The layout a policy stands for, as observed and as resolved. *)
Definition policy_layout (cur : string) : list ObservedLayoutEntry * list ResolvedLayoutEntry :=
  match ResolvePolicy cur with
  | Some rp => ([mkObservedLayout cur (Rp_CountPerDevice rp)], [mkResolvedLayout (Rp_Profile rp) cur (Rp_CountPerDevice rp)])
  | None => (if bool_decide (cur = "") then [] else [mkObservedLayout cur 0], [])
  end.
Definition set_policy (value : string) : PluginDaemonSet → PluginDaemonSet := setEnvValue partitionPolicyEnv value.
Definition claim_ds (owner : string) (ds : PluginDaemonSet) : PluginDaemonSet :=
  pds_annotations (<[PartitionOwnerAnnotation := owner]> (Pds_Annotations ds)) ds.
Definition bad_length (what : string) (resolved : list ResolvedEntry) : GoErr :=
  errorf ("rngd: expected exactly 1 resolved entry" +:+ what +:+ ", got " +:+ sprint_Z (Z.of_nat (length resolved))).

Section Backend.
Context {W : Type} `{UpgradeAPI W, PartitionAPI W}.
Context `{Environment, TemplateJSON}.

Definition getDS (t : Target) : M W PluginDaemonSet := plugin_ds_get (T_DaemonSetNamespace t) (T_DaemonSetName t).
Definition Diff (t : Target) (resolved : list ResolvedEntry) : M W DiffResult :=
  match resolved with
  | [r] =>
      ds ← getDS t;
      let cur := envValue ds in
      mret (mkDiff (negb (bool_decide (cur = Re_BackendPolicy r))) cur (Re_BackendPolicy r))
  | _ => throw (bad_length " (fixed-profile)" resolved)
  end.
Definition Discover (t : Target) : M W DiscoverResult :=
  ds ← getDS t;
  let '(observed, resolved) := policy_layout (envValue ds) in
  g ← try (report_get (T_NodeName t));
  let found := match g with inl ndr => filter (λ d, is_rngd d = true) (Ndr_Devices ndr) | inr _ => [] end in
  mret (mkDiscover
          (mkBackendRef "DaemonSet" (Pds_Namespace ds) (Pds_Name ds) (Pds_UID ds) (dsImageVersion ds) "DaemonSetGlobal" zero_rollback_info)
          (default "" (last (De_DriverVersion <$> found)))
          (deviceStatusFor <$> found) resolved observed rngd_operations
          (mkAdvertisement "Flat" false ReasonDevicePluginFlatAdvertisementOnly ∅)).
Definition Apply (t : Target) (resolved : list ResolvedEntry) : M W RollbackState :=
  match resolved with
  | [r] =>
      ds ← getDS t;
      let state := mkRollbackState (Pds_UID ds) (envValue ds) (Ds_Generation (Pds_Rollout ds)) (Pds_ResourceVersion ds) (templateHash ds) in
      _ ← plugin_ds_update (claim_ds (T_Owner t) (set_policy (Re_BackendPolicy r) ds));
      mret state
  | _ => throw (bad_length "" resolved)
  end.
Definition Rollback (t : Target) (s : RollbackState) : M W () :=
  ds ← getDS t;
  if negb (bool_decide (Pds_UID ds = Rb_DaemonSetUID s)) then
    throw (errorf ("rngd: rollback UID mismatch: DS=" +:+ Pds_UID ds +:+ " saved=" +:+ Rb_DaemonSetUID s))
  else plugin_ds_update (set_policy (Rb_PrevPolicy s) ds).
Definition Verify (verifier : option (Verifier W)) (t : Target) : M W (option VerifyResult) :=
  match verifier with None => mret None | Some v => @VerifyAllocation W v t RngdResourceName end.
End Backend.

(** ** The policy variable *)

Lemma envValue_set_plugin p ds :
  existsb is_plugin (Pds_Containers ds) = true → envValue (set_policy p ds) = p.
Proof.
  unfold envValue, set_policy, setEnvValue. destruct ds as [? ? ? ? ? ? cs ? ?]; cbn. intros Hex.
  induction cs as [|c cs IH]; [done|]. cbn [existsb] in Hex. cbn [set_plugin_env].
  destruct (is_plugin c) eqn:Ec.
  - rewrite filter_cons, decide_True by exact Ec. rewrite bind_cons.
    assert (E : find_first (λ e, bool_decide (e.1 = partitionPolicyEnv)) (set_env partitionPolicyEnv p (Pc_Env c))
                = Some (partitionPolicyEnv, p)).
    { induction (Pc_Env c) as [|e env IHe]; [done|]. cbn [set_env].
      case_bool_decide as Ee; cbn [find_first]; [done|]. rewrite bool_decide_eq_false_2 by done. exact IHe. }
    cbn [pc_env Pc_Env]. rewrite E. done.
  - rewrite filter_cons, decide_False by (rewrite Ec; done). apply IH. done.
Qed.
Lemma set_plugin_keeps_plugin p cs : existsb is_plugin (set_plugin_env partitionPolicyEnv p cs) = existsb is_plugin cs.
Proof.
  induction cs as [|c cs IH]; [done|]. cbn [set_plugin_env]. destruct (is_plugin c) eqn:E; cbn [existsb].
  - rewrite E. by replace (is_plugin (pc_env _ c)) with (is_plugin c) by done; rewrite E.
  - by rewrite E, IH.
Qed.
