(* ===== verification/PartitionPass.v ===== *)
(** * internal/controller: one pass over a partition policy

    The state of a pass of [acceleratorpartitionpolicy_controller.go] - the policy
    in hand, the evidence gathered, the world - and what [acpp_migmode.go] and the
    controller do to a node: the journal, the owner lock, the cordon, the
    [mig-active] label, the reboot Job and the device plugin's pods. *)

From S2P Require Import Prelude GoStrings GoTime Naming OperationModel ApiTypes VerificationAgreement PolicyTypes HealthController UpgradeTypes DriverJob DraClaim UpgradeNode PartitionTypes MigObserve MigSteps Quiescer NvidiaBackend SharingConfig.

(** ** The state of a pass *)

(** [evidenceCtx] *)
Record EvidenceCtx := mkEvidenceCtx {
  Ec_Vendor : string;
  Ec_Expectation : Expectation;
  Ec_ObservedGeometry : gmap string string;
  Ec_ObservationErrors : gmap string string;
  Ec_TargetDevices : list string;
  Ec_Verified : bool;
}.
Definition no_expectation : Expectation := mkExpectation "" 0 "" ∅ "".
Definition no_evidence : EvidenceCtx := mkEvidenceCtx "" no_expectation ∅ ∅ [] false.
Record Pass (W : Type) := mkPass { Ps_acpp : AcceleratorPartitionPolicy; Ps_ec : EvidenceCtx; Ps_world : W }.
#[global] Arguments mkPass {W}.
#[global] Arguments Ps_acpp {W}.
#[global] Arguments Ps_ec {W}.
#[global] Arguments Ps_world {W}.

(** [NvidiaExecFactory], [NvidiaObserverFactory], [Verifier] and
    [metrics.RecordACPPApply]; [observe] fails where the code reads an error. *)
Class PartitionSeams (W : Type) := {
  run_steps : Executor W;
  observe : string → list string → M W (list Observation);
  hardware_verifier : option (Verifier W);
  record_acpp_apply : string → string → string → M W ();
  report_status_patch : NodeDeviceReport → NodeDeviceReport → M W ();
}.

Definition migOwnerAnnotation : string := "npu.ai/mig-partition-owner".
Definition nvidiaGPUResource : string := "nvidia.com/gpu".
Definition acppFinalizer : string := "npu.ai/acpp-cleanup".
Definition maxMigRebootAttempts : Z := 2.
Definition HostExecImageEnv : string := "HOST_EXEC_IMAGE".
Definition HostExecImage `{Environment} : string := Getenv HostExecImageEnv.

(** ** The journal *)

Definition getApplyRecord (acpp : AcceleratorPartitionPolicy) (node : string) : ApplyRecord :=
  default zero_record (find_first (λ r, bool_decide (Rec_NodeName r = node)) (Acpp_ApplyRecords acpp)).
Fixpoint upsert_record (rec : ApplyRecord) (l : list ApplyRecord) : list ApplyRecord :=
  match l with
  | [] => [rec]
  | r :: l => if bool_decide (Rec_NodeName r = Rec_NodeName rec) then rec :: l else r :: upsert_record rec l
  end.
Definition isMigModeEnablePhase (phase : string) : bool :=
  contains_string [MigPhaseQuiescing; MigPhaseModeEnabling; MigPhaseRebootRequested; MigPhaseRebootWaiting] phase.
Definition isApplyInFlightPhase (phase : string) : bool :=
  contains_string [MigPhaseApplying; MigPhaseApplied; MigPhaseRestartingDP; MigPhaseVerifying] phase.
Definition targetPCIs (targets : list MigDevice) : list string := Md_PCI <$> targets.
Definition migModeFullyRestored_device (d : DeviceEntry) : bool :=
  negb (equal_fold (De_Vendor d) "nvidia")
  || (bool_decide (De_MigObservationError d = "")
      && contains_string [""; modeDisabled; modeNA; "N/A"] (De_MigModeCurrent d)).
(** An error that is logged and dropped. *)
Definition logged {S A} (m : M S A) : M S () := _ ← try m; mret ().
(** What a pass goes on with: the target's status and the error. *)
Notation Outcome := (TargetStatus * option GoErr)%type.

Section Pass.
Context {W : Type} `{UpgradeAPI W, PartitionAPI W, MpsAPI W, PartitionSeams W, Clock W} `{Environment}.
Notation P := (Pass W).
(** [driverjob.Namespace] *)
Context (ns : string).

Definition api {A} (m : M W A) : M P A := zoom Ps_world (λ w s, mkPass (Ps_acpp s) (Ps_ec s) w) m.
Definition the_acpp : M P AcceleratorPartitionPolicy := gets Ps_acpp.
Definition set_acpp (p : AcceleratorPartitionPolicy) : M P () := modify (λ s, mkPass p (Ps_ec s) (Ps_world s)).
Definition set_ec (f : EvidenceCtx → EvidenceCtx) : M P () := modify (λ s, mkPass (Ps_acpp s) (f (Ps_ec s)) (Ps_world s)).
Definition record_of (node : string) : M P ApplyRecord := gets (λ s, getApplyRecord (Ps_acpp s) node).

(** [return ts, nil], [return ts, err], and [if err := m; err != nil { return ts, err }]. *)
Definition finish (ts : TargetStatus) : M P Outcome := mret (ts, None).
Definition fails (ts : TargetStatus) (e : GoErr) : M P Outcome := mret (ts, Some e).
Definition check {A} (m : M P A) (ts : TargetStatus) (k : A → M P Outcome) : M P Outcome :=
  r ← try m; match r with inl a => k a | inr e => fails ts e end.

Definition setCond (ts : TargetStatus) (ctype status reason msg : string) : M P TargetStatus :=
  p ← the_acpp;
  now ← api read_clock;
  mret (ts_Conditions (SetStatusCondition now (Ts_Conditions ts) ctype status reason msg (Acpp_Generation p)) ts).
(** A phase with a condition. *)
Definition at_phase (ts : TargetStatus) (phase ctype status reason msg : string) : M P TargetStatus :=
  setCond (ts_Phase phase ts) ctype status reason msg.

(** The policy in hand changes first; the patch answers with the stored object. *)
Definition patch_status (f : AcceleratorPartitionPolicy → AcceleratorPartitionPolicy) : M P () :=
  base ← the_acpp;
  let p := f base in
  _ ← set_acpp p;
  stored ← api (acpp_status_patch base p);
  set_acpp stored.
Definition patchApplyRecord (rec : ApplyRecord) : M P () :=
  patch_status (λ p, acpp_ApplyRecords (upsert_record rec (Acpp_ApplyRecords p)) p).
Definition setRecordPhase (node phase : string) : M P () :=
  rec ← record_of node; patchApplyRecord (rec_MigPhase phase (rec_NodeName node rec)).

(** ** The owner lock *)

Definition owner_uid (n : Node) : string := mget "" (Node_Annotations n) migOwnerAnnotation.
Fixpoint lock_attempts (attempts : nat) (node uid : string) : M W bool :=
  match attempts with
  | O => throw (errorf ("owner lock: conflict retries exhausted for node " +:+ node))
  | S attempts =>
      n ← node_get node;
      if bool_decide (owner_uid n = uid) then mret true
      else if negb (bool_decide (owner_uid n = "")) then mret false
      else
        r ← try (node_patch n (node_annotations <[migOwnerAnnotation := uid]> n));
        match r with
        | inl _ => mret true
        | inr e => if is_conflict e then lock_attempts attempts node uid else throw e
        end
  end.
Definition ensureNodeOwnerLockUID (node uid : string) : M W bool := lock_attempts 3 node uid.
Definition nodeOwnerUID (node : string) : M W string := owner_uid <$> node_get node.
Definition releaseNodeOwnerLockUID (node uid : string) : M W () :=
  n ← node_get node;
  if negb (bool_decide (owner_uid n = uid)) then mret ()
  else node_patch n (node_annotations (delete migOwnerAnnotation) n).
Definition releaseOrphanOwnerLocks (uid : string) : M W () :=
  nodes ← node_list;
  for_each (λ n, if bool_decide (owner_uid n = uid) then releaseNodeOwnerLockUID (Node_Name n) uid else mret ()) nodes.

(** ** The [mig-active] label and the device plugin's pods *)

Definition migModeFullyRestoredFor (node : string) : M W bool :=
  r ← try (report_get node);
  mret (match r with inr _ => true | inl ndr => forallb migModeFullyRestored_device (Ndr_Devices ndr) end).
Definition syncMigActiveLabel (node : string) (active : bool) : M W () :=
  n ← node_get node;
  let cur := bool_decide (mget "" (Node_Labels n) MigActiveNodeLabel = "true") in
  if Bool.eqb cur active then mret ()
  else
    restored ← (if active then mret true else migModeFullyRestoredFor node);
    if negb active && negb restored then mret ()
    else node_patch n (node_labels (if active then <[MigActiveNodeLabel := "true"]> else delete MigActiveNodeLabel) n).
Definition plugin_pod_on (node : string) (p : Pod) : bool :=
  bool_decide (Pod_Labels p !! nvidiaDevicePluginVendorLabel = Some "nvidia") && bool_decide (Pod_NodeName p = node).
Definition restartNvidiaDevicePlugin (node : string) : M W () :=
  pods ← pod_list;
  for_each (λ p, if plugin_pod_on node p then ignoring_not_found (pod_delete p) else mret ()) pods.

(** ** The cordon *)

Definition journalQuiescing (node : string) (targets : list MigDevice) : M P () :=
  p ← the_acpp;
  let rec := getApplyRecord p node in
  rec ← (if isMigModeEnablePhase (Rec_MigPhase rec) then mret rec
         else n ← api (node_get node); mret (rec_CordonedByPolicy (negb (Node_Unschedulable n)) rec));
  patchApplyRecord
    (rec_MigPhase MigPhaseQuiescing (rec_GPUPCIs (targetPCIs targets) (rec_OwnerUID (Acpp_UID p) (rec_NodeName node rec)))).
Definition cordonForApply (node : string) (targets : list MigDevice) : M P () :=
  _ ← journalQuiescing node targets; api (Cordon node).
Definition cordonForRollback (rec : ApplyRecord) : M P () :=
  n ← api (node_get (Rec_NodeName rec));
  if Node_Unschedulable n then mret ()
  else _ ← patchApplyRecord (rec_CordonedByPolicy true rec); api (Cordon (Rec_NodeName rec)).

(** ** The reboot Job *)

Definition job_named (name : string) (owners : list OwnerRef) (j : Job) : Job :=
  mkJob name (Job_Namespace j) (Job_Labels j) owners (Job_BackoffLimit j) (Job_TTLSecondsAfterFinished j)
    (Job_ActiveDeadlineSeconds j) (Job_Template j) (Job_Conditions j) (Job_Succeeded j) (Job_CompletionTime j)
    (Job_Annotations j) (Job_Failed j).
Definition ignoring_already_exists (m : M W ()) : M W () :=
  r ← try m;
  match r with inl _ => mret () | inr e => if is_already_exists e then mret () else throw e end.
Definition acpp_reboot_job (node : string) (p : AcceleratorPartitionPolicy) : Job :=
  let owner := mkOwnerRef "AcceleratorPartitionPolicy" (Acpp_Name p) (Acpp_UID p) true in
  job_named (AcppRebootJobName node) [owner] (RenderRebootJobFor ns owner [] node HostExecImage).
(** Run [m] when the Job is not there. *)
Definition unless_job (name : string) (m : M P ()) : M P () :=
  g ← try (api (job_get name));
  match g with inl _ => mret () | inr e => if is_not_found e then m else throw e end.
Definition ensureAcppRebootJob (node : string) : M P () :=
  unless_job (AcppRebootJobName node)
    (if bool_decide (HostExecImage = "") then
       throw (errorf ("reboot job for node " +:+ node +:+ ": HOST_EXEC_IMAGE not configured"))
     else
       p ← the_acpp;
       let rec := rec_NodeName node (getApplyRecord p node) in
       _ ← patchApplyRecord (rec_RebootAttempts (wrap32 (Rec_RebootAttempts rec + 1)) rec);
       p ← the_acpp;
       api (ignoring_already_exists (job_create (acpp_reboot_job node p)))).
Definition deleteAcppRebootJob (node : string) : M W () := ignoring_not_found (job_delete (AcppRebootJobName node)).

Definition restoreSchedulable (node : string) : M P () :=
  if bool_decide (node = "") then mret ()
  else
    _ ← api (deleteAcppRebootJob node);
    rec ← record_of node;
    if negb (Rec_CordonedByPolicy rec) then mret ()
    else _ ← api (Uncordon node); patchApplyRecord (rec_CordonedByPolicy false rec).

(** operation_reboot.go *)
Definition RequestReboot (node : string) : M W () :=
  if bool_decide (HostExecImage = "") then
    throw (errorf ("reboot job for node " +:+ node +:+ ": reboot image not configured"))
  else
    g ← try (job_get (AcppRebootJobName node));
    match g with
    | inl _ => mret ()
    | inr e =>
        if is_not_found e then
          ignoring_already_exists
            (job_create (job_named (AcppRebootJobName node) []
               (RenderRebootJobFor ns (mkOwnerRef "" "" "" false) [] node HostExecImage)))
        else throw e
    end.
End Pass.

(** ** internal/controller/acpp_migmode.go: turning MIG mode on

    [ensureMigModeEnabled]: over several passes, cordon the node and empty it, run
    [nvidia-smi -mig 1], reboot the node while the mode is pending, at most twice,
    and go on when every device has the mode. *)


Definition migModeEnableAction : string := "mig-mode-enable".

Section MigMode.
Context {W : Type} `{UpgradeAPI W, PartitionAPI W, MpsAPI W, PartitionSeams W, Clock W} `{Environment, Requirements}.
Context (ns : string).
Notation P := (Pass W).

(** [done], and the outcome the caller returns when it is not. *)
Definition not_done (o : M P Outcome) : M P (bool * Outcome) := (λ o, (false, o)) <$> o.
Definition not_applied (ts : TargetStatus) (phase reason msg : string) : M P TargetStatus :=
  at_phase ts phase ACPPCondApplied ConditionFalse reason msg.

(** Every device is past the change: give the reboots back, forget the change. *)
Definition mode_settled (node : string) (ts : TargetStatus) : M P (bool * Outcome) :=
  rec ← record_of node;
  let changing := isMigModeEnablePhase (Rec_MigPhase rec) in
  if (0 <? Rec_RebootAttempts rec) || changing then
    r ← try (patchApplyRecord (let rec := rec_RebootAttempts 0 (rec_NodeName node rec) in
                               if changing then rec_MigPhase "" rec else rec));
    match r with
    | inr e => not_done (fails ts e)
    | inl _ => mret (true, (ts, None))
    end
  else mret (true, (ts, None)).

Definition reboot_for_mode (t : Target) (devs : list MigDevice) (ts : TargetStatus) : M P Outcome :=
  let node := T_NodeName t in
  rec ← record_of node;
  if maxMigRebootAttempts <=? Rec_RebootAttempts rec then
    _ ← logged (restoreSchedulable node);
    ts ← not_applied ts ACPPPhaseFailed ReasonMigModeNotEnabled
           ("MIG mode still pending after " +:+ sprint_Z maxMigRebootAttempts +:+ " reboots; manual intervention required");
    finish ts
  else
    check (cordonForApply node devs) ts (λ _,
    check (setRecordPhase node MigPhaseRebootRequested) ts (λ _,
    j ← try (ensureAcppRebootJob ns node);
    match j with
    | inr e =>
        _ ← logged (restoreSchedulable node);
        ts ← not_applied ts ACPPPhaseFailed ReasonMigModeNotEnabled ("reboot job: " +:+ err_msg e);
        fails ts e
    | inl _ =>
        check (setRecordPhase node MigPhaseRebootWaiting) ts (λ _,
        ts ← not_applied ts ACPPPhaseApplying ReasonMigModeNotEnabled "reboot requested to activate pending MIG mode";
        finish ts)
    end)).

Definition enable_mode (t : Target) (devs : list MigDevice) (ts : TargetStatus) : M P Outcome :=
  let node := T_NodeName t in
  p ← the_acpp;
  let steps := ModeEnableSteps (ModeEnableTargets devs) in
  let (opID, cmdHash) := OperationID (Acpp_UID p) (Acpp_Generation p) node migModeEnableAction steps in
  check (setRecordPhase node MigPhaseModeEnabling) ts (λ _,
  r ← try (api (run_steps opID cmdHash node steps));
  match r with
  | inr e =>
      _ ← logged (restoreSchedulable node);
      ts ← not_applied ts ACPPPhaseFailed ReasonMigModeNotEnabled ("mig mode enable failed: " +:+ err_msg e);
      fails ts e
  | inl _ =>
      ts ← not_applied ts ACPPPhaseApplying ReasonMigModeNotEnabled "mig mode enable issued; waiting for pending state";
      finish ts
  end).

Definition quiesce_for_mode (t : Target) (devs : list MigDevice) (ts : TargetStatus) : M P Outcome :=
  let node := T_NodeName t in
  check (cordonForApply node devs) ts (λ _,
  check (api (EvictDeviceWorkloads NvidiaQuiescer node)) ts (λ _,
  a ← try (api (AssertQuiesced NvidiaQuiescer node));
  match a with
  | inr e => ts ← not_applied ts ACPPPhaseWaitingForDrain ReasonQuiesceRequired (err_msg e); finish ts
  | inl _ => enable_mode t devs ts
  end)).

Definition ensureMigModeEnabled (t : Target) (devs : list MigDevice) (ts : TargetStatus) : M P (bool * Outcome) :=
  if negb (NeedsModeEnable devs) && negb (NeedsReboot devs) then mode_settled (T_NodeName t) ts
  else if negb (ModeObservable devs) then
    not_done (ts ← not_applied ts ACPPPhaseWaitingForDrain ReasonObservationUnavailable "mig mode not observable; refusing to enable";
              finish ts)
  else not_done (if NeedsReboot devs then reboot_for_mode t devs ts else quiesce_for_mode t devs ts).
End MigMode.
