(* ===== verification/AcppVerifier.v ===== *)
(** * internal/controller/acpp_verifier.go: looking at the cluster

    The verifier behind the partition policies: it polls the node's allocatable
    resources, or runs a pod that asks for one partition and judges how it ends.
    [internal/verifyprobe] is the table of commands. *)

From S2P Require Import Prelude GoStrings GoTime ApiTypes VerificationAgreement Verifier UpgradeTypes Naming PartitionTypes PartitionPass.

Definition verifyPollInterval : Z := 2 * second.
Definition verifyTimeout : Z := 180 * second.
Definition verifyProbeTimeout : Z := 240 * second.
Definition sharingProbeTimeout : Z := 10 * second.
Definition defaultProbeImage : string := "registry.k8s.io/pause:3.9".
Definition probeLogLines : Z := 20.
Definition probeContainerName : string := "verify".
(** The most ticks of the interval before the timeout. *)
Definition ticks_in (timeout : Z) : nat := Z.to_nat (timeout / verifyPollInterval).

(** ** verifyprobe/probe.go *)

Record Probe := mkProbe { Prb_Command : string; Prb_Args : list string; Prb_Privileged : bool; Prb_HostPID : bool }.
Definition probe_registry : gmap string Probe := list_to_map
  [("nvidia", mkProbe "nvidia-smi" ["-L"] false false);
   ("tenstorrent", mkProbe "tt-smi" ["-s"] false false);
   ("furiosa", mkProbe "furiosa-smi" ["info"] false false);
   ("rebellions", mkProbe "rbln-stat" [] true true)].
Definition Lookup (vendor : string) : option Probe := probe_registry !! vendor.
Definition Vendors : list string := sort_strings (map_to_list probe_registry).*1.
Example Vendors_sorted : Vendors = ["furiosa"; "nvidia"; "rebellions"; "tenstorrent"].
Proof. vm_compute. reflexivity. Qed.

(** ** The table of the deployment *)

Definition upper_ascii (c : ascii) : ascii :=
  let n := Ascii.N_of_ascii c in if ((97 <=? n)%N && (n <=? 122)%N) then Ascii.ascii_of_N (n - 32) else c.
Definition to_upper (s : string) : string := string_map upper_ascii s.
Record vendorProbe := mkVendorProbe { Vpr_Image : string; Vpr_Probe : Probe; Vpr_HostPathBinary : string }.
Definition vendorProbeTable `{Environment} : gmap string vendorProbe :=
  map_imap (λ vendor p,
    let img := Getenv ("ACPP_PROBE_IMAGE_" +:+ to_upper vendor) in
    if bool_decide (img = "") then None
    else Some (mkVendorProbe img p (Getenv ("ACPP_PROBE_HOSTBIN_" +:+ to_upper vendor)))) probe_registry.

(** ** The probe pod *)

Record ProbePod := mkProbePod {
  Pp_Namespace : string; Pp_NodeName : string; Pp_Image : string; Pp_Resource : string;
  Pp_Command : list string; Pp_Args : list string; Pp_Privileged : bool; Pp_HostPID : bool;
  (** the binary of the host mounted read-only at its own path *)
  Pp_HostBinary : option string;
}.
Record ProbeStatus := mkProbeStatus {
  Pst_Name : string; Pst_Phase : string; Pst_Reason : string; Pst_Message : string; Pst_Containers : list ContainerStatus;
}.
Class ProbeAPI (W : Type) := {
  (** the name the server generated *)
  probe_create : ProbePod → M W string;
  probe_get : string → string → M W ProbeStatus;
  probe_delete : string → string → M W ();
  tail_logs : option (string → string → Z → M W string);
}.
Definition probePod `{Environment} (default_image node resource : string) (probe : option vendorProbe) : ProbePod :=
  let ns := OperatorNamespace (Getenv "OPERATOR_NAMESPACE") in
  match probe with
  | None => mkProbePod ns node default_image resource [] [] false false None
  | Some vp =>
      let p := Vpr_Probe vp in
      mkProbePod ns node (Vpr_Image vp) resource [Prb_Command p] (Prb_Args p) (Prb_Privileged p) (Prb_HostPID p)
        (if bool_decide (Vpr_HostPathBinary vp = "") then None else Some (Vpr_HostPathBinary vp))
  end.
Definition probe_container (cs : ContainerStatus) : bool := bool_decide (Cs_Name cs = probeContainerName).
Definition probeExitCode (st : ProbeStatus) : option Z :=
  fst <$> head (omap Cs_Terminated (filter (λ cs, probe_container cs = true) (Pst_Containers st))).
Definition waiting_text (cs : ContainerStatus) : string :=
  match Cs_Waiting cs with
  | Some (reason, msg) => " waiting=" +:+ reason +:+ (if bool_decide (msg = "") then "" else " (" +:+ msg +:+ ")")
  | None => ""
  end.
Definition timeoutOutput (timeout : Z) (last : option ProbeStatus) : string :=
  let late := "timeout after " +:+ duration_string timeout in
  match last with
  | Some st =>
      if bool_decide (Pst_Name st = "") then late +:+ ": probe pod not observed"
      else late +:+ ": phase=" +:+ Pst_Phase st
           +:+ join "" (waiting_text <$> filter (λ cs, probe_container cs = true) (Pst_Containers st))
  | None => late +:+ ": probe pod not observed"
  end.

Definition allocatableMet (node : Node) (resource : string) (want : Z) : bool :=
  match Node_Allocatable node !! resource with Some q => want <=? q | None => false end.
Definition all_met (node : Node) (expected : gmap string Z) : bool :=
  bool_decide (map_Forall (λ res want, allocatableMet node res want = true) expected).
Definition expected_snapshot (node : Node) (expected : gmap string Z) : gmap string Z :=
  map_imap (λ res _, wrap32 <$> Node_Allocatable node !! res) expected.
Definition verdict (converged allocated : bool) (snapshot : gmap string Z) : VerifyResult :=
  mkVerifyResult converged allocated snapshot None "".

Section LiveVerifier.
Context {W : Type} `{UpgradeAPI W, ProbeAPI W, Ticker W} `{Environment}.
(** [probeImage] and [probes] as [NewLiveVerifier] reads them; the timeout of a test *)
Definition probeImage : string :=
  let img := Getenv "ACPP_PROBE_IMAGE" in if bool_decide (img = "") then defaultProbeImage else img.

(** [defer]: [d] runs however [m] ends, and its error is dropped. *)
Definition deferred {A} (d : M W ()) (m : M W A) : M W A :=
  r ← try m;
  _ ← logged d;
  match r with inl a => mret a | inr e => throw e end.
Definition read_node (name : string) : M W Node :=
  or_wrap (errorf_w ("acpp verify: get node " +:+ quote name)) (UpgradeTypes.node_get name).
Fixpoint await_allocatable (ticks : nat) (name : string) (expected : gmap string Z) : M W VerifyResult :=
  node ← read_node name;
  let snapshot := expected_snapshot node expected in
  if all_met node expected then mret (verdict true false snapshot)
  else match ticks with
       | O => mret (verdict false false snapshot)
       | S k => tick ← next_tick;
                if (tick : bool) then await_allocatable k name expected else mret (verdict false false snapshot)
       end.
Definition live_VerifyAllocatable (timeout : Z) (t : Target) (expected : gmap string Z) : M W (option VerifyResult) :=
  Some <$> await_allocatable (ticks_in timeout) (T_NodeName t) expected.

Definition tailLogs (ns name : string) : M W string :=
  match tail_logs with
  | None => mret ""
  | Some logs => r ← try (logs ns name probeLogLines);
                 mret (match r with inl out => trim_space out | inr e => "logs unavailable: " +:+ err_msg e end)
  end.
Definition probeOutcome (ns name : string) (st : ProbeStatus) : M W VerifyResult :=
  let exit := probeExitCode st in
  let ok := bool_decide (Pst_Phase st = PodSucceeded) && match exit with Some c => c =? 0 | None => true end in
  output ← match exit with
           | None => mret (trim_space (Pst_Reason st +:+ " " +:+ Pst_Message st))
           | Some _ => tailLogs ns name
           end;
  mret (mkVerifyResult false ok ∅ exit output).
(** How the pod ended, if it has; a command must end, the pause pod must run. *)
Definition probe_end (registered : bool) (ns name : string) (st : ProbeStatus) : M W (option VerifyResult) :=
  let phase := Pst_Phase st in
  if registered then
    if contains_string [PodSucceeded; PodFailed] phase then Some <$> probeOutcome ns name st else mret None
  else if bool_decide (phase = "Running") then mret (Some (verdict false true ∅))
  else if bool_decide (phase = PodFailed) then mret (Some (verdict false false ∅))
  else mret None.
(** The status of the pod, [None] while it is not found. *)
Definition probe_seen (ns name : string) : M W (option ProbeStatus) :=
  g ← try (probe_get ns name);
  match g with
  | inl st => mret (Some st)
  | inr e => if is_not_found e then mret None else throw (errorf_w "acpp verify: get test pod" e)
  end.
Fixpoint await_probe (ticks : nat) (registered : bool) (timeout : Z) (ns name : string) (last : option ProbeStatus) : M W VerifyResult :=
  seen ← probe_seen ns name;
  ended ← match seen with Some st => probe_end registered ns name st | None => mret None end;
  match ended with
  | Some r => mret r
  | None =>
      let last := match seen with Some st => Some st | None => last end in
      let late := mkVerifyResult false false ∅ None (timeoutOutput timeout last) in
      match ticks with
      | O => mret late
      | S k => tick ← next_tick; if (tick : bool) then await_probe k registered timeout ns name last else mret late
      end
  end.
Definition live_VerifyAllocation (t : Target) (resource : string) : M W (option VerifyResult) :=
  let probe := vendorProbeTable !! T_Vendor t in
  let pod := probePod probeImage (T_NodeName t) resource probe in
  let registered := bool_decide (is_Some probe) in
  let timeout := if registered then verifyProbeTimeout else verifyTimeout in
  name ← or_wrap (errorf_w "acpp verify: create test pod") (probe_create pod);
  Some <$> deferred (probe_delete (Pp_Namespace pod) name)
             (await_probe (ticks_in timeout) registered timeout (Pp_Namespace pod) name None).
Definition liveVerifier : PartitionTypes.Verifier W :=
  {| VerifyAllocatable := live_VerifyAllocatable verifyTimeout; VerifyAllocation := live_VerifyAllocation |}.
Definition sharing_probe_verifier : PartitionTypes.Verifier W :=
  {| VerifyAllocatable := live_VerifyAllocatable sharingProbeTimeout; VerifyAllocation := live_VerifyAllocation |}.

(** The same probe as the evidence asks for it. *)
Definition allocationProber (v : option (PartitionTypes.Verifier W)) (node resource vendor : string) : M W ProbeResult :=
  match v with
  | None => mret (mkProbeResult false None "no verifier configured")
  | Some v =>
      res ← @VerifyAllocation W v (mkTargetCtx node "" "" "" 0 vendor) resource;
      mret (match res with
            | None => mkProbeResult false None "verifier returned no result"
            | Some r => mkProbeResult (Vr_TestPodAllocated r) (Vr_ProbeExitCode r) (Vr_ProbeOutput r)
            end)
  end.
End LiveVerifier.
