(* ===== verification/PartitionSharing.v ===== *)
(** * internal/controller/acpp_sharing.go: applying and taking back sharing

    [runSharing] and what it is made of: the checks before anything changes, the
    journal, the ConfigMap, the MPS daemon, the wiring, the verification and the way
    back.  A mode is applied to the whole cluster; only the target node is verified. *)

From S2P Require Import Prelude GoStrings GoTime Naming OperationModel ApiTypes VerificationPolicy VerificationAgreement VerificationDrift Verifier PolicyTypes HealthController UpgradeTypes DriverJob UpgradeNode PartitionTypes PartitionProfiles MigObserve MigSteps Quiescer NvidiaBackend SharingConfig PartitionPass.

(** [verifySucceeded]: no verifier, or one of the two answers. *)
Definition verifySucceeded (r : option VerifyResult + GoErr) : bool :=
  match r with
  | inr _ => false
  | inl None => true
  | inl (Some vr) => Vr_AllocatableConverged vr || Vr_TestPodAllocated vr
  end.
Definition verify_error {A} (r : A + GoErr) : option GoErr := match r with inl _ => None | inr e => Some e end.

(** The backend at hand, as [partition.SharingFor] sees it. *)
Inductive BackendKind := NvidiaKind | FuriosaKind.
#[global] Instance BackendKind_eq_dec : EqDecision BackendKind.
Proof. solve_decision. Defined.
Definition SharingFor (b : BackendKind) : option GoErr :=
  match b with NvidiaKind => None | FuriosaKind => Some (fmtSharingUnsupported "furiosa") end.

Definition advertised (r : gmap string Z) (reason : string) (a : AdvertisementStatus) : AdvertisementStatus :=
  mkAdvertisement (Adv_Mode a) (Adv_ProfileNamedSupported a) reason r.
Definition regrade (grade : string) (dev : DeviceStatus) : DeviceStatus :=
  let iso := Dv_IsolationCapability dev in
  let on axis := if bool_decide (axis = "") then axis else grade in
  dv_IsolationCapability (mkIsolationCapability (on (Iso_Compute iso)) (on (Iso_Memory iso)) (Iso_Fault iso)) dev.

Section Sharing.
Context {W : Type} `{UpgradeAPI W, PartitionAPI W, MpsAPI W, PartitionSeams W, Clock W} `{Environment, Yaml}.
Notation P := (Pass W).
(** the verification with the short timeout of [sharingProbeTimeout] *)
Context (probe_verifier : option (Verifier W)).

Definition verify_shared (v : option (Verifier W)) (t : Target) (expected : gmap string Z) : M W (option VerifyResult) :=
  match v with None => mret None | Some v => @VerifyAllocatable W v t expected end.
Definition verifySharedAllocatable (t : Target) (expected : gmap string Z) : M W (option VerifyResult) :=
  verify_shared hardware_verifier t expected.

Definition restoreSharingRecord (node prevMode : string) (prevReplicas : Z) : M P () :=
  rec ← record_of node;
  logged (patchApplyRecord (rec_SharingReplicas prevReplicas (rec_SharingMode prevMode (rec_NodeName node rec)))).

Definition sharingReady (ts : TargetStatus) (expected : gmap string Z) (mode : string) (replicas : Z) (transitioned : bool)
    : M P TargetStatus :=
  let mps := bool_decide (mode = SharingModeMPS) in
  let reason := mode +:+ " x" +:+ sprint_Z replicas +:+
    (if mps then " — replicas share one device; compute and memory capped per process by the control daemon, no bandwidth isolation"
     else " — replicas share one device; no isolation between replicas") in
  let grade := if mps then IsolationProcess else IsolationNone in
  let ts := ts_Devices (regrade grade <$> Ts_Devices ts) (ts_Advertisement (advertised expected reason (Ts_Advertisement ts)) ts) in
  ts ← at_phase ts ACPPPhaseReady ACPPCondVerified ConditionTrue ReasonSharingVerified "shared allocatable converged";
  p ← the_acpp;
  _ ← (if transitioned then api (record_acpp_apply (Spec_Vendor (Acpp_Spec p)) mode "ready") else mret ());
  mret ts.
Definition sharingDaemonFailure (ts : TargetStatus) (e : GoErr) : M P Outcome :=
  if is_mps_not_ready e then
    ts ← not_applied ts ACPPPhaseApplying ReasonSharingDaemonNotReady (err_msg e); finish ts
  else ts ← not_applied ts ACPPPhaseFailed ReasonSharingApplyFailed (err_msg e); fails ts e.

(** ** Taking it back *)

Definition daemon_for (mode node : string) : M P () :=
  p ← the_acpp; api (ensureMpsControlDaemon mode (Acpp_Name p) node).
Definition no_snapshot : SharingRollbackState := mkSharingRollback false "".
Definition disableSharing (b : BackendKind) (t : Target) (ts : TargetStatus) : M P Outcome :=
  let node := T_NodeName t in
  rec ← record_of node;
  r ← try (if shared_mode (Rec_SharingMode rec) && bool_decide (SharingFor b = None) then
             _ ← api (RollbackSharing t no_snapshot);
             _ ← logged (api (restartNvidiaDevicePlugin node));
             restoreSharingRecord node "" 0
           else mret ());
  match r with
  | inr e => fails ts e
  | inl _ => check (daemon_for SharingModeExclusive node) ts (λ _, finish ts)
  end.
Definition rejectSharing (b : BackendKind) (t : Target) (rejected : TargetStatus) : M P Outcome :=
  p ← the_acpp;
  _ ← api (record_acpp_apply (Spec_Vendor (Acpp_Spec p)) (EffectiveSharingMode (Acpp_Spec p)) "rejected");
  o ← disableSharing b t rejected;
  mret (rejected, o.2).

(** ** The checks *)

Definition devicesOwnedByOtherPolicies (node self : string) : M W (list string) :=
  l ← acpp_list;
  mret (l ≫= λ p,
    let rec := getApplyRecord p node in
    if bool_decide (Acpp_Name p = self) then []
    else if bool_decide (Rec_OwnerUID rec = "") || negb (bool_decide (Rec_OwnerUID rec = Acpp_UID p)) then []
    else Rec_GPUPCIs rec).
Definition mpsBlockedByMigStrategy (node : string) : M W bool :=
  g ← try (node_get node);
  match g with
  | inl n => mret (bool_decide (mget "" (Node_Labels n) MigActiveNodeLabel = "true"))
  | inr e => if is_not_found e then mret false else throw e
  end.
Definition mps_supported (d : DeviceStatus) : bool := Sms_Supported (Shc_MultiProcess (Dv_SharingCapability d)).
(** The reason to refuse MPS, if any, given what other policies own. *)
Definition mps_refusal (owned : list string) (devices : list DeviceStatus) (node : string) : option string :=
  let ours := filter (λ d, contains_string owned (Dv_PCIAddress d) = false) devices in
  match find_first (λ d, negb (mps_supported d)) ours with
  | Some d => Some ("device " +:+ Dv_ID d +:+ " cannot run MPS: " +:+ Sms_Reason (Shc_MultiProcess (Dv_SharingCapability d)))
  | None =>
      if bool_decide (ours = []) && negb (bool_decide (devices = [])) then
        Some ("every device on node " +:+ node +:+ " is owned by another AcceleratorPartitionPolicy; no device left for MPS "
                +:+ "(check other ACPPs targeting this node for the owner)")
      else None
  end.
Definition mig_strategy_refusal (node : string) : string :=
  "node " +:+ node +:+ " runs the MIG-managed device-plugin (nvidia.MigActiveNodeLabel=true): "
  +:+ "upstream k8s-device-plugin refuses to start when --mig-strategy=mixed and sharing.mps are combined, "
  +:+ "so applying MPS here would crash-loop that node's plugin and drop the MIG partitions it advertises; "
  +:+ "remove MIG partitions from this node first, or request MPS on a node without active MIG partitions".
Definition mps_gate (node self : string) (devices : list DeviceStatus) : M W (option string) :=
  blocked ← mpsBlockedByMigStrategy node;
  if (blocked : bool) then mret (Some (mig_strategy_refusal node))
  else owned ← devicesOwnedByOtherPolicies node self; mret (mps_refusal owned devices node).

(** [Some ts]: the request is refused with [ts]; an error: it could not be judged. *)
Definition not_validated (ts : TargetStatus) (phase reason msg : string) : M P TargetStatus :=
  at_phase ts phase ACPPCondValidated ConditionFalse reason msg.
Definition precheckSharing (b : BackendKind) (ts : TargetStatus) : M P (option TargetStatus) :=
  p ← the_acpp;
  let layout := SharingLayoutFrom (Acpp_Spec p) in
  if bool_decide (Sl_Mode layout = SharingModeExclusive) then mret None
  else
    match SharingFor b with
    | Some e => Some <$> not_validated ts ACPPPhaseUnsupported ReasonSharingUnsupported (err_msg e)
    | None =>
        refusal ← (if bool_decide (Sl_Mode layout = SharingModeMPS)
                   then api (mps_gate (Ts_NodeName ts) (Acpp_Name p) (Ts_Devices ts)) else mret None);
        match refusal with
        | Some msg => Some <$> not_validated ts ACPPPhaseFailed ReasonSharingUnsupported msg
        | None =>
            match ValidateSharingLayout layout with
            | Some e => Some <$> not_validated ts ACPPPhaseFailed ReasonSharingInvalid (err_msg e)
            | None => mret None
            end
        end
    end.

(** ** Applying it *)

Definition sharing_journal (node mode : string) (replicas : Z) (rec : ApplyRecord) : ApplyRecord :=
  rec_SharingReplicas replicas (rec_SharingMode mode (rec_NodeName node rec)).
Definition applyFailed (t : Target) (ts : TargetStatus) (state : option SharingRollbackState) (prevMode : string) (prevReplicas : Z)
    (e : GoErr) : M P Outcome :=
  _ ← match state with Some st => logged (api (RollbackSharing t st)) | None => mret () end;
  _ ← restoreSharingRecord (T_NodeName t) prevMode prevReplicas;
  ts ← not_applied ts ACPPPhaseFailed ReasonSharingApplyFailed (err_msg e);
  fails ts e.

(** Once: this generation has been rolled back. *)
Definition mark_rolled_back (node : string) : M P () :=
  p ← the_acpp;
  let rec := getApplyRecord p node in
  if bool_decide (Rec_SharingRolledBackGeneration rec = Acpp_Generation p) then mret ()
  else logged (patchApplyRecord (rec_SharingRolledBackGeneration (Acpp_Generation p) (rec_NodeName node rec))).
Definition roll_back_unverified (t : Target) (ts : TargetStatus) (state : SharingRollbackState) (prevMode : string) (prevReplicas : Z)
    (verr : option GoErr) : M P Outcome :=
  let node := T_NodeName t in
  r ← try (api (RollbackSharing t state));
  match r with
  | inr e =>
      ts ← at_phase ts ACPPPhaseRollbackFailed ACPPCondRolledBack ConditionFalse ReasonSharingApplyFailed (err_msg e);
      fails ts e
  | inl _ =>
      _ ← logged (api (restartNvidiaDevicePlugin node));
      _ ← restoreSharingRecord node prevMode prevReplicas;
      _ ← mark_rolled_back node;
      _ ← logged (daemon_for SharingModeExclusive node);
      ts ← at_phase ts ACPPPhaseRestored ACPPCondVerified ConditionFalse ReasonSharingNotConverged "shared allocatable did not converge";
      ts ← setCond ts ACPPCondRolledBack ConditionTrue ReasonSharingNotConverged
             "shared allocatable did not converge; sharing restored";
      mret (ts, verr)
  end.

(** The wiring is in place: restart the plugin and look. *)
Definition verify_applied (t : Target) (ts : TargetStatus) (layout : SharingLayout) (expected : gmap string Z)
    (state : SharingRollbackState) (prevMode : string) (prevReplicas : Z) : M P Outcome :=
  _ ← logged (api (restartNvidiaDevicePlugin (T_NodeName t)));
  r ← try (api (verifySharedAllocatable t expected));
  if verifySucceeded r then (λ ts, (ts, None)) <$> sharingReady ts expected (Sl_Mode layout) (Sl_Replicas layout) true
  else roll_back_unverified t ts state prevMode prevReplicas (verify_error r).
Definition apply_sharing (t : Target) (ts : TargetStatus) (layout : SharingLayout) (base expected : gmap string Z) : M P Outcome :=
  let node := T_NodeName t in
  rec ← record_of node;
  let prevMode := Rec_SharingMode rec in
  let prevReplicas := Rec_SharingReplicas rec in
  check (patchApplyRecord (sharing_journal node (Sl_Mode layout) (Sl_Replicas layout) rec)) ts (λ _,
  let ts := ts_Phase ACPPPhaseApplying ts in
  c ← try (api (ApplySharingConfig t layout base));
  match c with
  | inr e => applyFailed t ts None prevMode prevReplicas e
  | inl state =>
      d ← try (daemon_for (Sl_Mode layout) node);
      match d with
      | inr e => if is_mps_not_ready e then sharingDaemonFailure ts e
                 else applyFailed t ts (Some state) prevMode prevReplicas e
      | inl _ =>
          '(_, e) ← api (ApplySharing t layout base);
          match (e : option GoErr) with
          | Some e => applyFailed t ts (Some state) prevMode prevReplicas e
          | None => verify_applied t ts layout expected state prevMode prevReplicas
          end
      end
  end).

(** The journal already holds this request: the daemon, then a short look. *)
Definition confirm_sharing (t : Target) (ts : TargetStatus) (layout : SharingLayout) (base expected : gmap string Z) : M P Outcome :=
  d ← try (daemon_for (Sl_Mode layout) (T_NodeName t));
  match d with
  | inr e => sharingDaemonFailure ts e
  | inl _ =>
      r ← try (api (verify_shared probe_verifier t expected));
      if verifySucceeded r then (λ ts, (ts, None)) <$> sharingReady ts expected (Sl_Mode layout) (Sl_Replicas layout) false
      else apply_sharing t ts layout base expected
  end.
Definition rolled_back_here (t : Target) (ts : TargetStatus) : M P Outcome :=
  check (daemon_for SharingModeExclusive (T_NodeName t)) ts (λ _,
  ts ← not_applied ts ACPPPhaseFailed "SharingRolledBack"
         "sharing rolled back for this generation after verify failure; update spec to retry";
  finish ts).
Definition runSharing (b : BackendKind) (t : Target) (ts : TargetStatus) (base : gmap string Z) : M P Outcome :=
  p ← the_acpp;
  let layout := SharingLayoutFrom (Acpp_Spec p) in
  if bool_decide (Sl_Mode layout = SharingModeExclusive) then
    o ← disableSharing b t ts;
    _ ← match o.2 with
        | None => api (record_acpp_apply (Spec_Vendor (Acpp_Spec p)) (Sl_Mode layout) "disabled")
        | Some _ => mret ()
        end;
    mret o
  else
    check (precheckSharing b ts) ts (λ refused,
    match refused with
    | Some rejected => rejectSharing b t rejected
    | None =>
        let rec := getApplyRecord p (T_NodeName t) in
        if negb (Rec_SharingRolledBackGeneration rec =? 0) && (Rec_SharingRolledBackGeneration rec =? Acpp_Generation p)
        then rolled_back_here t ts
        else
          let expected := ExpectedShared base layout in
          if bool_decide (Rec_SharingMode rec = Sl_Mode layout) && (Rec_SharingReplicas rec =? Sl_Replicas layout)
          then confirm_sharing t ts layout base expected
          else apply_sharing t ts layout base expected
    end).

(** ** Sharing without a layout *)

Definition sharingOnlyBase (node : string) : M P (gmap string Z) :=
  rec ← record_of node;
  if negb (bool_decide (Rec_SharingMode rec = "")) && (0 <? Rec_BaselineGPUCount rec)
  then mret {[ nvidiaGPUResource := Rec_BaselineGPUCount rec ]}
  else
    n ← api (node_get node);
    let count := wrap32 (mget 0 (Node_Allocatable n) nvidiaGPUResource) in
    if count <=? 0 then
      throw (errorf ("sharing-only: node " +:+ node +:+ " advertises no " +:+ nvidiaGPUResource +:+ " to share"))
    else
      _ ← patchApplyRecord (rec_BaselineGPUCount count (rec_NodeName node rec));
      mret {[ nvidiaGPUResource := count ]}.
Definition expect_allocatable (expected : gmap string Z) (ec : EvidenceCtx) : EvidenceCtx :=
  let x := Ec_Expectation ec in
  mkEvidenceCtx (Ec_Vendor ec) (mkExpectation (Ex_Profile x) (Ex_CountPerDevice x) (Ex_Geometry x) expected (Ex_ProbeResource x))
    (Ec_ObservedGeometry ec) (Ec_ObservationErrors ec) (Ec_TargetDevices ec) true.
Definition runSharingOnly (b : BackendKind) (t : Target) (ts : TargetStatus) : M P Outcome :=
  p ← the_acpp;
  let mode := EffectiveSharingMode (Acpp_Spec p) in
  if bool_decide (mode = SharingModeExclusive) then
    o ← disableSharing b t ts;
    match o with
    | (_, Some _) => mret o
    | (_, None) =>
        _ ← api (record_acpp_apply (Spec_Vendor (Acpp_Spec p)) mode "disabled");
        ts ← not_validated ts ACPPPhaseFailed "ValidationFailed"
               "spec.layout and spec.sharing are both empty; the policy requests nothing";
        finish ts
    end
  else
    ts ← setCond ts ACPPCondValidated ConditionTrue "ValidationSucceeded" "sharing-only policy; no partition layout to validate";
    check (precheckSharing b ts) ts (λ refused,
    match refused with
    | Some rejected => rejectSharing b t rejected
    | None =>
        check (sharingOnlyBase (T_NodeName t)) ts (λ base,
        p ← the_acpp;
        _ ← set_ec (expect_allocatable (ExpectedShared base (SharingLayoutFrom (Acpp_Spec p))));
        runSharing b t ts base)
    end).
End Sharing.

(** ** internal/controller: the evidence behind Ready, and the advertisement after it

    Of [acceleratorpartitionpolicy_controller.go]: the gate that a pass which reaches
    Ready goes through, the watch on the advertisement of a node that is Ready
    already, and the conditions' transition times from one pass to the next. *)


(** ** Device observations *)

Definition geometry_step (acc : gmap string string * gmap string string) (d : MigDevice) : gmap string string * gmap string string :=
  if negb (bool_decide (Md_ObsError d = "")) then (acc.1, <[Md_PCI d := Md_ObsError d]> acc.2)
  else (<[Md_PCI d := Md_Geometry d]> acc.1, acc.2).
(** The geometries and the errors of the devices. *)
Definition observedGeometryOf (devs : list MigDevice) : gmap string string * gmap string string := foldl geometry_step (∅, ∅) devs.
Definition deviceKey (pci id : string) : string := if bool_decide (pci = "") then id else pci.
Definition rngdObservedPCIs (devs : list DeviceStatus) : gmap string string :=
  foldl (λ out d, let key := deviceKey (Dv_PCIAddress d) (Dv_ID d) in
                  if bool_decide (key = "") then out else <[key := ""]> out) ∅ devs.

(** ** The verdict on the advertisement *)

Definition driftConfirmed (ts : TargetStatus) : bool :=
  match FindStatusCondition (Ts_Conditions ts) ACPPCondDegraded with
  | Some c => bool_decide (Sc_Status c = ConditionTrue) && bool_decide (Sc_Reason c = ReasonAdvertisementDrift)
  | None => false
  end.
Definition driftFirstSeen (ts : TargetStatus) : option Z :=
  match FindStatusCondition (Ts_Conditions ts) ACPPCondDegraded with
  | Some c => if bool_decide (Sc_Status c = ConditionUnknown) then Some (Sc_LastTransitionTime c) else None
  | None => None
  end.
Definition isNodeReadyForDrift (node : Node) : bool :=
  match find_first (λ c, bool_decide (Cond_Type c = NodeReady)) (Node_Conditions node) with
  | Some c => bool_decide (Cond_Status c = ConditionTrue)
  | None => true
  end.
(** The phase, the status of [Degraded], its reason and its message. *)
Definition drift_outcome (verdict : DriftVerdict) (reason : string) : string * string * string * string :=
  match verdict with
  | DriftConfirmed => (ACPPPhaseDegraded, ConditionTrue, ReasonAdvertisementDrift, reason)
  | DriftSuspected => (ACPPPhaseReady, ConditionUnknown, ReasonAdvertisementDriftSuspected, reason)
  | DriftSuppressed => (ACPPPhaseReady, ConditionFalse, ReasonAdvertisementCheckSuppressed, reason)
  | DriftNone => (ACPPPhaseReady, ConditionFalse, ReasonAdvertisementConsistent, "advertisement matches the verified baseline")
  end.
Definition DRAOwnedNodeLabel (vendor : string) : string := "kcloud.ai/" +:+ vendor +:+ ".dra-owned".
(** [acpp.DeletionTimestamp.IsZero()] *)
Definition is_deleting (t : option Z) : bool := match t with Some t => negb (is_zero_time t) | None => false end.
Definition zero_report : NodeDeviceReport := mkNDR "" [] None None.

Section Drift.
Context {W : Type} `{UpgradeAPI W, PartitionAPI W, VerifyAPI W, Clock W} `{Environment}.
Notation P := (Pass W).
(** [Verification]: [None] turns the evidence off *)
Context (Verification : option (Verifier.Verifier W)).

Definition applyDriftVerdict (ts : TargetStatus) (v : DriftVerdict * string) : M P TargetStatus :=
  let '(phase, status, reason, msg) := drift_outcome v.1 v.2 in
  at_phase ts phase ACPPCondDegraded status reason msg.
Definition draOwnedNode (node vendor : string) : M W bool :=
  if bool_decide (node = "") || bool_decide (vendor = "") then mret false
  else
    g ← try (UpgradeTypes.node_get node);
    match g with
    | inr e => throw (errorf_w ("노드 " +:+ node +:+ " 조회 실패(DRA 소유 확인)") e)
    | inl n => mret (bool_decide (mget "" (Node_Labels n) (DRAOwnedNodeLabel vendor) = labelValueTrue))
    end.
(** nvidia.DevicePluginRolling; unknown counts as rolling. *)
Definition DevicePluginRolling (node : string) : M W bool :=
  '(dsName, _) ← DevicePluginTargetForNode node;
  g ← try (plugin_ds_get dpNamespace dsName);
  match g with
  | inl ds => mret (rolling_out (Pds_Rollout ds))
  | inr e => if is_not_found e then mret false else throw e
  end.
Definition rolling_or_unknown (vendor node : string) : M W bool :=
  if bool_decide (vendor = vendorNvidia) then
    r ← try (DevicePluginRolling node); mret (match r with inl v => v | inr _ => true end)
  else mret false.

Definition gate_request (p : AcceleratorPartitionPolicy) (t : Target) (ec : EvidenceCtx) : Request :=
  mkRequest (T_NodeName t) (Spec_Vendor (Acpp_Spec p)) (Acpp_Name p) (Acpp_Generation p) (Ec_Expectation ec)
    (Ec_ObservedGeometry ec) (Ec_ObservationErrors ec) (Ec_TargetDevices ec) "" 0 false.
(** The status, and the error the caller logs. *)
Definition gateReady (ts : TargetStatus) (t : Target) : M P Outcome :=
  ec ← gets Ps_ec;
  match Verification with
  | None => finish ts
  | Some v =>
      if negb (Ec_Verified ec) || negb (bool_decide (Ts_Phase ts = ACPPPhaseReady)) then finish ts
      else
        p ← the_acpp;
        check (api (Verifier.Verify v (gate_request p t ec))) ts (λ ev,
        if bool_decide (Es_Level (Ev_Status ev) = "") then
          ts ← at_phase ts ACPPPhaseVerifyingAllocatable ACPPCondVerified ConditionFalse ReasonEvidenceDisagreement
                 (Es_Reason (Ev_Status ev));
          finish ts
        else finish ts)
  end.

Definition drift_policy (labels : gmap string string) : M W EffectivePolicy :=
  l ← try Verifier.policy_list;
  mret (match l with inl l => Resolve l labels | inr _ => DefaultPolicy end).
(** Everything the verdict is made of, once the node and its report are read. *)
Definition drift_input (p : AcceleratorPartitionPolicy) (ts : TargetStatus) (t : Target) (ev : option AcceleratorEvidence)
    (node : Node) (ndr : option NodeDeviceReport) : M W DriftInput :=
  pol ← drift_policy (Node_Labels node);
  let report := match ndr with Some r => r | None => zero_report end in
  let cur := Compute (Some node) (Some report) (Spec_Vendor (Acpp_Spec p)) (Acpp_Generation p) in
  now ← read_clock;
  let fresh := (CheckFreshness ev now cur (Pol_InvalidateOn pol)).1 in
  rolling ← rolling_or_unknown (Spec_Vendor (Acpp_Spec p)) (T_NodeName t);
  now ← read_clock;
  let rec := getApplyRecord p (T_NodeName t) in
  mret (mkDriftInput (match ev with Some ev => Es_AdvertisedResources (Ev_Status ev) | None => ∅ end) (allocatableSnapshot node)
          rolling (isNodeReadyForDrift node)
          (isApplyInFlightPhase (Rec_MigPhase rec) || isMigModeEnablePhase (Rec_MigPhase rec))
          (is_deleting (Acpp_DeletionTimestamp p) || is_deleting (Node_DeletionTimestamp node)) (IsFresh fresh)
          (driftFirstSeen ts) (driftConfirmed ts) now (Pol_DriftGracePeriod pol)).
(** A read whose NotFound is an absence. *)
Definition or_absent {A} (m : M W A) : M W (option A) :=
  g ← try m;
  match g with inl a => mret (Some a) | inr e => if is_not_found e then mret None else throw e end.
Definition monitorDrift (t : Target) (ts : TargetStatus) : M P Outcome :=
  match Verification with
  | None => finish ts
  | Some v =>
      if bool_decide (T_NodeName t = "") then finish ts
      else
        p ← the_acpp;
        owned ← try (api (draOwnedNode (T_NodeName t) (Spec_Vendor (Acpp_Spec p))));
        if match owned with inl b => b | inr _ => false end then finish ts
        else
          check (api (Load (T_NodeName t))) ts (λ ev,
          check (api (or_absent (UpgradeTypes.node_get (T_NodeName t)))) ts (λ node,
          match node with
          | None => finish ts
          | Some node =>
              check (api (or_absent (UpgradeTypes.report_get (T_NodeName t)))) ts (λ ndr,
              inp ← api (drift_input p ts t ev node ndr);
              ts ← applyDriftVerdict ts (EvaluateDrift inp);
              finish ts)
          end))
  end.

(** ** Conditions from one pass to the next *)

Definition findTargetStatus (p : AcceleratorPartitionPolicy) (node : string) : option TargetStatus :=
  find_first (λ ts, bool_decide (Ts_NodeName ts = node)) (Acpp_Targets p).
Definition carry_time (prev : list StatusCondition) (c : StatusCondition) : StatusCondition :=
  match FindStatusCondition prev (Sc_Type c) with
  | Some old => if bool_decide (Sc_Status old = Sc_Status c) then sc_LastTransitionTime (Sc_LastTransitionTime old) c else c
  | None => c
  end.
Definition carryCondTimes (prev : option TargetStatus) (ts : TargetStatus) : TargetStatus :=
  match prev with
  | None => ts
  | Some prev => ts_Conditions (carry_time (Ts_Conditions prev) <$> Ts_Conditions ts) ts
  end.
Definition aggregatePhase (targets : list TargetStatus) : string :=
  match targets with
  | [] => ACPPPhasePending
  | _ => match find_first (λ ts, negb (bool_decide (Ts_Phase ts = ACPPPhaseReady))) targets with
         | Some ts => Ts_Phase ts
         | None => ACPPPhaseReady
         end
  end.
Definition with_target_status (p : AcceleratorPartitionPolicy) (ts : TargetStatus) : AcceleratorPartitionPolicy :=
  let targets := [carryCondTimes (findTargetStatus p (Ts_NodeName ts)) ts] in
  acpp_Phase (aggregatePhase targets) (acpp_ObservedGeneration (Acpp_Generation p) (acpp_Targets targets p)).
Definition writeTargetStatus (ts : TargetStatus) : M P () :=
  p ← the_acpp;
  let p := with_target_status p ts in
  _ ← set_acpp p;
  stored ← api (acpp_status_update p);
  set_acpp stored.

(** [prev] is the first target of the policy, if any. *)
Definition shouldReverify (p : AcceleratorPartitionPolicy) : bool :=
  match Acpp_Targets p with
  | [] => true
  | prev :: _ =>
      negb (contains_string [ACPPPhaseReady; ACPPPhaseDegraded] (Ts_Phase prev))
      || negb (Acpp_ObservedGeneration p =? Acpp_Generation p)
  end.
End Drift.
