(* ===== verification/PartitionApply.v ===== *)
(** * internal/controller: applying a MIG layout

    [runNvidiaTarget] of [acceleratorpartitionpolicy_controller.go] and what it is made
    of: the operator's own observation, the two kinds of precondition, the baseline,
    what to do when the geometry is there already, the apply itself and its undoing. *)

From S2P Require Import Prelude GoStrings GoTime Naming OperationModel ApiTypes OperationLease VerificationPolicy VerificationAgreement VerificationDrift Verifier PolicyTypes HealthController UpgradeTypes DriverJob DraClaim UpgradeNode PartitionTypes RngdBackend MigObserve MigSteps Quiescer NvidiaBackend SharingConfig PartitionPass PartitionSharing.

(** ** Pure parts *)

Definition toPartitionLayouts (ls : list PartitionLayout) : list Layout := (λ l, mkLayout (Pl_Profile l) (Pl_CountPerDevice l)) <$> ls.
Definition resolveNvidia (ls : list PartitionLayout) : list ResolvedEntry * list ResolvedLayoutEntry :=
  ((λ l, mkResolvedEntry (Pl_Profile l) "" (Pl_CountPerDevice l)) <$> ls,
   (λ l, mkResolvedLayout (Pl_Profile l) "" (Pl_CountPerDevice l)) <$> ls).
(** The reason and the message when a precondition does not hold. *)
Definition nvidiaAlwaysBlock (a : AlwaysResult) : option (string * string) :=
  if Al_ObservationFailed a then Some (ReasonObservationUnavailable, "mig observation unavailable")
  else if Al_PCIMissing a then Some (ReasonUnstableGpuIdentity, "gpu pci address missing")
  else if negb (Al_DriverReady a) then Some (ReasonDriverNotReady, "nvidia driver not ready")
  else None.
Definition nvidiaHWBlock (h : HWResult) : option (string * string) :=
  if Hw_MigModeNotEnabled h then Some (ReasonMigModeNotEnabled, "MIG mode must be pre-enabled on the target GPU")
  else if Hw_MigUnsafe h then Some (ReasonExistingMigConfiguration, "existing/unsafe mig state present")
  else if negb (Hw_NodeCordoned h) then Some (ReasonNodeNotCordoned, "node not cordoned")
  else if Hw_GPUBusy h then Some (ReasonQuiesceRequired, "gpu workloads still running")
  else None.
Definition nvidiaPhysicalGPUs (ndr : NodeDeviceReport) : Z :=
  foldl (λ n d, if equal_fold (De_Vendor d) vendorNvidia then wrap32 (n + if De_Count d <=? 0 then 1 else De_Count d) else n) 0
    (Ndr_Devices ndr).
Definition expectedAllocatable (rec : ApplyRecord) : gmap string Z :=
  <[nvidiaGPUResource := Rec_ExpectedFullGPUCount rec]> {[ "nvidia.com/mig-" +:+ Rec_Profile rec := Rec_ExpectedMigCount rec ]}.
Definition recMatches (rec : ApplyRecord) (resolved : list ResolvedEntry) (targets : list MigDevice) : bool :=
  match resolved with
  | [r] =>
      bool_decide (Rec_Profile rec = Re_Profile r) && (Rec_Count rec =? Re_ExpectedCountPerDevice r)
      && bool_decide (length (Rec_GPUPCIs rec) = length targets)
      && forallb (λ d, contains_string (Rec_GPUPCIs rec) (Md_PCI d)) targets
  | _ => false
  end.
(** The number of targets as an [int32]. *)
Definition int32_len {A} (l : list A) : Z := wrap32 (Z.of_nat (length l)).
(** The journal of an apply; what it says besides the baseline stays. *)
Definition baseline_record (node uid : string) (gen : Z) (r : ResolvedEntry) (targets : list MigDevice) (baseline physical : Z)
    (rec : ApplyRecord) : ApplyRecord :=
  let nt := int32_len targets in
  mkApplyRecord node (targetPCIs targets) uid baseline (wrap32 (Re_ExpectedCountPerDevice r * nt)) (wrap32 (physical - nt))
    (Re_Profile r) (Re_ExpectedCountPerDevice r) gen (Rec_MigPhase rec) (Rec_CordonedByPolicy rec) (Rec_RebootAttempts rec)
    (Rec_DisableRebootAttempts rec) (Rec_SharingMode rec) (Rec_SharingReplicas rec) (Rec_SharingRolledBackGeneration rec).
Definition observation_map (obs : list Observation) : gmap string Observation := foldl (λ m o, <[Ob_PCI o := o]> m) ∅ obs.

Section Nvidia.
Context {W : Type} `{UpgradeAPI W, PartitionAPI W, MpsAPI W, PartitionSeams W, Clock W} `{Environment, Requirements}.
Context (ns : string).
Notation P := (Pass W).
Implicit Types nvb : Backend W.

(** ** Observing *)

Definition observed_pcis (devs : list DeviceStatus) : list string := filter (λ p, p ≠ "") (Dv_PCIAddress <$> devs).
(** The backend as observed and the status to go on with, or the outcome to stop with. *)
Definition observeNvidiaMIG nvb (t : Target) (ts : TargetStatus) : M P (Backend W * TargetStatus + Outcome) :=
  match observed_pcis (Ts_Devices ts) with
  | [] => mret (inl (nvb, ts))
  | pcis =>
      o ← try (api (observe (T_NodeName t) pcis));
      match o with
      | inr e =>
          ts ← not_applied ts ACPPPhaseWaitingForDrain ReasonObservationUnavailable ("mig observation unavailable: " +:+ err_msg e);
          mret (inr (ts, None))
      | inl obs =>
          d ← try (api (Discover (WithObservations (observation_map obs) nvb) t));
          match d with
          | inr e =>
              ts ← at_phase ts ACPPPhaseFailed ACPPCondCapabilitiesDiscovered ConditionFalse "DiscoveryFailed" (err_msg e);
              mret (inr (ts, Some e))
          | inl (dis, nvb) =>
              mret (inl (nvb, ts_Advertisement (Dis_Advertisement dis) (ts_Operations (Dis_Operations dis)
                                (ts_Devices (Dis_Devices dis) (ts_DriverVersion (Dis_DriverVersion dis) ts)))))
          end
      end
  end.

(** ** The baseline *)

Definition computeBaseline (node : string) (resolved : list ResolvedEntry) (targets : list MigDevice) : M P ApplyRecord :=
  match resolved with
  | [r] =>
      n ← api (node_get node);
      let baseline := wrap32 (mget 0 (Node_Allocatable n) nvidiaGPUResource) in
      g ← try (api (report_get node));
      match g with
      | inr e => throw (errorf_w ("baseline: get NodeDeviceReport " +:+ quote node) e)
      | inl ndr =>
          let physical := nvidiaPhysicalGPUs ndr in
          if physical <? int32_len targets then
            throw (errorf ("baseline: node " +:+ node +:+ " reports " +:+ sprint_Z physical +:+ " nvidia GPUs but "
                             +:+ sprint_Z (int32_len targets) +:+ " are partition targets"))
          else
            p ← the_acpp;
            mret (baseline_record node (Acpp_UID p) (Acpp_Generation p) r targets baseline physical (getApplyRecord p node))
      end
  | _ => throw (errorf ("baseline: expected single resolved layout, got " +:+ sprint_Z (Z.of_nat (length resolved))))
  end.

(** ** When the geometry is there *)

Definition setNvidiaReady (ts : TargetStatus) : M P TargetStatus :=
  ts ← at_phase ts ACPPPhaseReady ACPPCondApplied ConditionTrue "DevicePluginConfigured" "mig geometry applied";
  setCond ts ACPPCondVerified ConditionTrue "AllocatableConverged" "mig allocatable converged".
Definition verifyManagedNvidia nvb (t : Target) (ts : TargetStatus) (rec : ApplyRecord) : M P Outcome :=
  r ← try (api (Verify (WithExpected (expectedAllocatable rec) nvb) t));
  match r with
  | inr e =>
      ts ← at_phase ts ACPPPhaseFailed ACPPCondVerified ConditionFalse "VerificationFailed" "managed mig verify failed";
      fails ts e
  | inl _ =>
      if negb (verifySucceeded r) then
        ts ← at_phase ts ACPPPhaseVerifyingAllocatable ACPPCondVerified ConditionFalse "VerificationPending"
               "managed mig allocatable not yet converged; retrying";
        finish ts
      else ts ← setNvidiaReady ts; finish ts
  end.
(** Undo on the hardware, and say whether it worked. *)
Definition rollback_hardware nvb (t : Target) (ts : TargetStatus) (msg : string) : M P TargetStatus :=
  r ← try (api (Rollback nvb t));
  match r with
  | inr e => at_phase ts ACPPPhaseRollbackFailed ACPPCondRolledBack ConditionFalse "RollbackFailed" (err_msg e)
  | inl _ => setCond ts ACPPCondRolledBack ConditionTrue "RollbackSucceeded" msg
  end.
Definition resumeNvidiaRecovery nvb (t : Target) (ts : TargetStatus) (rec : ApplyRecord) : M P Outcome :=
  let node := T_NodeName t in
  let nvb := WithExpected (expectedAllocatable rec) nvb in
  let ts := ts_Phase ACPPPhaseRestartingDevicePlugin ts in
  check (if bool_decide (Rec_MigPhase rec = MigPhaseApplied) then api (restartNvidiaDevicePlugin node) else mret ()) ts (λ _,
  _ ← logged (setRecordPhase node MigPhaseVerifying);
  r ← try (api (Verify nvb t));
  if negb (verifySucceeded r) then
    ts ← rollback_hardware nvb t (ts_Phase ACPPPhaseRollingBack ts) "partition restored after recovery verify failure";
    _ ← logged (setRecordPhase node MigPhaseRolledBack);
    ts ← setCond ts ACPPCondVerified ConditionFalse "VerificationFailed" "recovery verify failed";
    mret (ts, verify_error r)
  else
    _ ← logged (setRecordPhase node MigPhaseReady);
    ts ← setNvidiaReady ts;
    finish ts).
(** [Some o]: handled, return [o]; [None]: go on with the apply. *)
Definition routeNvidiaNoDiff nvb (t : Target) (ts : TargetStatus) (rec : ApplyRecord) (resolved : list ResolvedEntry)
    (changed : bool) : M P (option Outcome) :=
  if changed then mret None
  else
    p ← the_acpp;
    let owned := bool_decide (Rec_OwnerUID rec = Acpp_UID p) in
    if bool_decide (Rec_MigPhase rec = MigPhaseReady) && owned && recMatches rec resolved (Nv_targets nvb) then
      Some <$> verifyManagedNvidia nvb t ts rec
    else if owned && isApplyInFlightPhase (Rec_MigPhase rec) then Some <$> resumeNvidiaRecovery nvb t ts rec
    else if isMigModeEnablePhase (Rec_MigPhase rec) then mret None
    else if bool_decide (Rec_MigPhase rec = MigPhaseRolledBack) then mret None
    else
      ts ← at_phase ts ACPPPhaseFailed ACPPCondValidated ConditionFalse ReasonExistingMigConfiguration
             "geometry matches but not managed by this ACPP";
      mret (Some (ts, None)).

(** The end a rolled back generation stays in, with what the last pass said of the rollback. *)
Definition carryRollbackFailure (ts : TargetStatus) (node : string) : M P TargetStatus :=
  p ← the_acpp;
  match findTargetStatus p node ≫= λ prev, FindStatusCondition (Ts_Conditions prev) ACPPCondRolledBack with
  | None => mret (ts_Phase ACPPPhaseFailed ts)
  | Some rb =>
      let phase := if bool_decide (Sc_Status rb = ConditionFalse) then ACPPPhaseRollbackFailed else ACPPPhaseFailed in
      at_phase ts phase ACPPCondRolledBack (Sc_Status rb) (Sc_Reason rb) (Sc_Message rb)
  end.
(** ** Applying *)

(** Run [k] unless the preconditions of a change of the hardware stop the pass. *)
Definition hw_gate (t : Target) (targets : list MigDevice) (ts : TargetStatus) (k : M P Outcome) : M P Outcome :=
  let node := T_NodeName t in
  check (api (CheckHardwareChange node targets)) ts (λ hw,
  let lock := negb (Hw_NodeCordoned hw) && negb (Hw_MigModeNotEnabled hw) && negb (Hw_MigUnsafe hw) in
  check (if lock then cordonForApply node targets else mret ()) ts (λ _,
  match nvidiaHWBlock (if lock then hw_NodeCordoned true hw else hw) with
  | Some (reason, msg) => ts ← not_applied ts ACPPPhaseWaitingForDrain reason msg; finish ts
  | None => k
  end)).
(** The common end of a failed apply and of a failed verification. *)
Definition undo_apply nvb (t : Target) (ts : TargetStatus) (rb : option RollbackState) (done cond reason msg : string)
    (err : option GoErr) : M P Outcome :=
  let node := T_NodeName t in
  p ← the_acpp;
  _ ← api (record_acpp_apply (Spec_Vendor (Acpp_Spec p)) (EffectiveSharingMode (Acpp_Spec p)) "rollback");
  let ts := ts_Phase ACPPPhaseRollingBack ts in
  ts ← match rb with Some _ => rollback_hardware nvb t ts done | None => mret ts end;
  _ ← logged (setRecordPhase node MigPhaseRolledBack);
  _ ← logged (api (syncMigActiveLabel node false));
  ts ← setCond ts cond ConditionFalse reason msg;
  mret (ts, err).
Definition verify_partition nvb (t : Target) (ts : TargetStatus) (rb : option RollbackState) : M P Outcome :=
  let node := T_NodeName t in
  _ ← logged (setRecordPhase node MigPhaseApplied);
  let ts := ts_Phase ACPPPhaseRestartingDevicePlugin ts in
  check (api (restartNvidiaDevicePlugin node)) ts (λ _,
  _ ← logged (setRecordPhase node MigPhaseVerifying);
  r ← try (api (Verify nvb t));
  if negb (verifySucceeded r) then
    undo_apply nvb t ts rb "partition restored after verify failure" ACPPCondVerified "VerificationFailed" "mig verify failed"
      (verify_error r)
  else
    _ ← logged (setRecordPhase node MigPhaseReady);
    ts ← setNvidiaReady ts;
    finish ts).
(** The journal first, then the label, then the hardware. *)
Definition apply_partition nvb (t : Target) (ts : TargetStatus) (resolved : list ResolvedEntry) : M P Outcome :=
  let node := T_NodeName t in
  b ← try (computeBaseline node resolved (Nv_targets nvb));
  match b with
  | inr e => ts ← not_applied ts ACPPPhaseFailed ReasonBaselineInconsistent (err_msg e); finish ts
  | inl rec =>
      let rec := rec_MigPhase MigPhaseApplying rec in
      check (patchApplyRecord rec) ts (λ _,
      check (api (syncMigActiveLabel node true)) ts (λ _,
      let nvb := WithExpected (expectedAllocatable rec) nvb in
      '(rb, e) ← api (NvidiaBackend.Apply nvb t resolved);
      match (e : option GoErr) with
      | Some e => undo_apply nvb t ts rb "partition restored after apply failure" ACPPCondApplied "ApplyFailed" (err_msg e) (Some e)
      | None => verify_partition nvb t ts rb
      end))
  end.
Definition change_partition nvb (t : Target) (ts : TargetStatus) (rec : ApplyRecord) (resolved : list ResolvedEntry) : M P Outcome :=
  p ← the_acpp;
  if bool_decide (Rec_MigPhase rec = MigPhaseRolledBack) && (Rec_Generation rec =? Acpp_Generation p) then
    ts ← carryRollbackFailure ts (T_NodeName t);
    ts ← setCond ts ACPPCondApplied ConditionFalse "ApplyRolledBack"
           "apply rolled back for this generation; update spec to retry";
    finish ts
  else if isApplyInFlightPhase (Rec_MigPhase rec) then apply_partition nvb t ts resolved
  else hw_gate t (Nv_targets nvb) ts (apply_partition nvb t ts resolved).
(** Once the mode is on everywhere. *)
Definition reach_layout nvb (t : Target) (ts : TargetStatus) : M P Outcome :=
  rec ← record_of (T_NodeName t);
  p ← the_acpp;
  let (resolved, status) := resolveNvidia (Spec_Layout (Acpp_Spec p)) in
  let ts := ts_ResolvedLayout status ts in
  let t := t_Generation (Acpp_Generation p) t in
  route ← routeNvidiaNoDiff nvb t ts rec resolved (Diff_Changed (Diff nvb resolved));
  match route with Some o => mret o | None => change_partition nvb t ts rec resolved end.
Definition runNvidiaTarget nvb (t : Target) (ts : TargetStatus) : M P Outcome :=
  match nvidiaAlwaysBlock (CheckAlways (Nv_targets nvb) (negb (bool_decide (Ts_DriverVersion ts = "")))) with
  | Some (reason, msg) => ts ← not_applied ts ACPPPhaseWaitingForDrain reason msg; finish ts
  | None =>
      p ← the_acpp;
      check (api (ensureNodeOwnerLockUID (T_NodeName t) (Acpp_UID p))) ts (λ owned,
      if negb (owned : bool) then
        ts ← not_applied ts ACPPPhaseFailed ReasonTargetConflict "node MIG owned by another ACPP"; finish ts
      else
        '(done, out) ← ensureMigModeEnabled ns t (Nv_targets nvb) ts;
        if negb done then mret out else reach_layout nvb t out.1)
  end.
End Nvidia.

(** ** internal/controller: deleting a partition policy

    [handleDeletion] of [acceleratorpartitionpolicy_controller.go]: the hardware a
    policy changed is put back and seen to be back before the finalizer goes, node by
    node along the journal.  Events are not modelled. *)


Definition migModeDisableAction : string := "mig-mode-disable".
Definition rngdUnifiedDSName : string := "kcloud-furiosa-device-plugin".
Definition deletionLeaseHolder (p : AcceleratorPartitionPolicy) : string := "acpp-delete-" +:+ Acpp_Name p.
Definition delegateModeEnabled `{Environment} : bool := bool_decide (Getenv "KCLOUD_OPERATION_COORDINATOR" = "delegate").
(** [naming.OperatorNamespace()] *)
Definition operatorNamespaceEnv : string := "OPERATOR_NAMESPACE".
Definition rngdUnifiedDSNS `{Environment} : string := OperatorNamespace (Getenv operatorNamespaceEnv).

(** ** operation_participants.go: observing for the report too *)

Definition observed_by_pci (obs : list Observation) : gmap string Observation :=
  foldl (λ m o, if negb (bool_decide (Ob_PCI o = "")) && bool_decide (Ob_Err o = "") then <[Ob_PCI o := o]> m else m) ∅ obs.
Definition report_unchanged (o : Observation) (d : DeviceEntry) : bool :=
  bool_decide (De_MigModeCurrent d = Ob_ModeCurrent o) && bool_decide (De_MigModePending d = Ob_ModePending o)
  && bool_decide (De_MigCurrentGeometry d = Ob_Geometry o) && bool_decide (De_MigObservationError d = "").
Definition de_observed (o : Observation) (d : DeviceEntry) : DeviceEntry :=
  mkDeviceEntry (De_Vendor d) (De_Model d) (De_Count d) (De_DriverLoaded d) (De_DriverVersion d) (De_DriverVersionDetail d)
    (De_NeedsReboot d) (De_MemoryMiB d) (De_PCIeAddress d) (Ob_ModeCurrent o) (Ob_Geometry o) "" (De_FirmwareVersion d)
    (Ob_ModePending o) (if bool_decide (Ob_LgipOutput o = "") then De_MigLgipOutput d else Ob_LgipOutput o).
(** The device as reported now, and whether that is new. *)
Definition publish_device (byPCI : gmap string Observation) (d : DeviceEntry) : DeviceEntry * bool :=
  match byPCI !! De_PCIeAddress d with
  | Some o => if report_unchanged o d then (d, false) else (de_observed o d, true)
  | None => (d, false)
  end.
Definition mig_device_of (o : Observation) : MigDevice :=
  mkMigDevice (Ob_PCI o) (Ob_ModeCurrent o) (Ob_ModePending o) (Ob_Geometry o) (Ob_Err o).

(** ** What a restored node shows *)

Definition migGeometryEmpty (g : string) : bool := bool_decide (g = "") || equal_fold g "disabled".
(** The complaint about one device, if any. *)
Definition restored_device (allowModeDisabled : bool) (node : string) (o : Observation) : option GoErr :=
  let about := "node " +:+ node +:+ " pci " +:+ Ob_PCI o in
  if negb (bool_decide (Ob_Err o = "")) then Some (errorf (about +:+ " observation failed after rollback: " +:+ Ob_Err o))
  else if negb (bool_decide (Ob_ModeCurrent o = modeEnabled)
                || allowModeDisabled && bool_decide (Ob_ModeCurrent o = modeDisabled)) then
    Some (errorf (about +:+ " MIG not enabled after rollback (current=" +:+ Ob_ModeCurrent o +:+ ")"))
  else if negb (migGeometryEmpty (Ob_Geometry o)) then
    Some (errorf (about +:+ " still has GPU instances after rollback (geometry=" +:+ Ob_Geometry o +:+ ")"))
  else None.
Definition unseen_pci (obs : list Observation) (pcis : list string) : option string :=
  find_first (λ p, negb (contains_string (Ob_PCI <$> obs) p)) pcis.
Definition restored_count (allowModeDisabled : bool) (rec : ApplyRecord) (got : Z) : option GoErr :=
  let about := "node " +:+ Rec_NodeName rec +:+ " allocatable " +:+ nvidiaGPUResource +:+ "=" +:+ sprint_Z got in
  if allowModeDisabled then
    if got <? Rec_BaselineGPUCount rec
    then Some (errorf (about +:+ " not restored to baseline " +:+ sprint_Z (Rec_BaselineGPUCount rec))) else None
  else if negb (got =? Rec_ExpectedFullGPUCount rec)
  then Some (errorf (about +:+ " not restored to expected full-gpu count " +:+ sprint_Z (Rec_ExpectedFullGPUCount rec))) else None.
Definition throw_some {S} (e : option GoErr) : M S () := match e with Some e => throw e | None => mret () end.
(** The phases after which the hardware has been changed. *)
Definition hardwareChanged (phase : string) : bool :=
  negb (contains_string [""; MigPhasePrepared; MigPhaseLockAcquired] phase) && negb (isMigModeEnablePhase phase).
Definition restore_mode_policy (p : AcceleratorPartitionPolicy) : bool :=
  bool_decide (Spec_DeletionPolicy (Acpp_Spec p) = DeletionPolicyRestoreMode).
Fixpoint update_target (node : string) (f : TargetStatus → TargetStatus) (l : list TargetStatus) : list TargetStatus :=
  match l with
  | [] => [f (zero_target node [])]
  | ts :: l => if bool_decide (Ts_NodeName ts = node) then f ts :: l else ts :: update_target node f l
  end.
Definition ContainsFinalizer (p : AcceleratorPartitionPolicy) (f : string) : bool := contains_string (Acpp_Finalizers p) f.
Definition RemoveFinalizer (f : string) (p : AcceleratorPartitionPolicy) : AcceleratorPartitionPolicy :=
  acpp_Finalizers (filter (λ x, x ≠ f) (Acpp_Finalizers p)) p.
Definition AddFinalizer (f : string) (p : AcceleratorPartitionPolicy) : AcceleratorPartitionPolicy :=
  if ContainsFinalizer p f then p else acpp_Finalizers (Acpp_Finalizers p ++ [f]) p.

Section Deletion.
Context {W : Type} `{UpgradeAPI W, PartitionAPI W, MpsAPI W, PartitionSeams W, LeaseAPI W, Clock W} `{Environment, Requirements}.
(** [driverjob.Namespace]; [Leases] *)
Context (ns : string) (Leases : option LeaseManager).
Notation P := (Pass W).

Definition publishMigObservationTo (node : string) (obs : list Observation) : M W () :=
  let byPCI := observed_by_pci obs in
  if bool_decide (byPCI = ∅) then mret ()
  else
    g ← try (report_get node);
    match g with
    | inr e => if is_not_found e then mret () else throw e
    | inl ndr =>
        let devices := publish_device byPCI <$> Ndr_Devices ndr in
        if negb (existsb snd devices) then mret ()
        else report_status_patch ndr (mkNDR (Ndr_NodeName ndr) devices.*1 (Ndr_Validation ndr) (Ndr_ObservedAt ndr))
    end.
Definition observeDevicesForNode (node : string) (pcis : list string) : M W (list MigDevice) :=
  match pcis with
  | [] => mret []
  | _ =>
      o ← try (observe node pcis);
      match o with
      | inr e => throw (errorf_w ("observe " +:+ node) e)
      | inl obs => _ ← logged (publishMigObservationTo node obs); mret (mig_device_of <$> obs)
      end
  end.
Definition assertMigEmptyAndBaseline (rec : ApplyRecord) (allowModeDisabled : bool) : M W () :=
  let node := Rec_NodeName rec in
  obs ← observe node (Rec_GPUPCIs rec);
  _ ← throw_some (head (omap (restored_device allowModeDisabled node) obs));
  _ ← throw_some ((λ p, errorf ("node " +:+ node +:+ ": snapshot MIG pci " +:+ p +:+ " not observed after rollback"))
                  <$> unseen_pci obs (Rec_GPUPCIs rec));
  n ← node_get node;
  throw_some (restored_count allowModeDisabled rec (wrap32 (mget 0 (Node_Allocatable n) nvidiaGPUResource))).
Definition assertNodeQuiesced (node : string) : M W () :=
  r ← try (AssertQuiesced NvidiaQuiescer node);
  match r with
  | inl _ => mret ()
  | inr e => throw (mkErr (err_kind e) (err_msg e +:+ "; unsafe to rollback MIG"))
  end.
Definition setDeletionBlocked (node msg : string) : M P () :=
  now ← api read_clock;
  logged (patch_status (λ p,
    acpp_Targets (update_target node (λ ts, ts_Conditions
                    (SetStatusCondition now (Ts_Conditions ts) ACPPCondApplied ConditionFalse ReasonOwnershipConflict msg
                       (Acpp_Generation p)) ts) (Acpp_Targets p))
      (acpp_ApplyRecords ((λ r, if bool_decide (Rec_NodeName r = node) then rec_MigPhase MigPhaseCleanupBlocked r else r)
                          <$> Acpp_ApplyRecords p) p))).

(** ** The leases *)

Definition takeDeletionLease (node : string) : M P bool :=
  match Leases with
  | Some m =>
      if negb delegateModeEnabled then mret false
      else
        p ← the_acpp;
        now ← api read_clock;
        '(ok, _) ← api (Acquire m node (deletionLeaseHolder p) now);
        if negb (ok : bool) then throw (errorf ("cleanup waiting for node lease on " +:+ node +:+ ": coordinator busy"))
        else mret true
  | None => mret false
  end.
Definition releaseDeletionLeases (nodes : list string) : M P () :=
  match Leases with
  | Some m => p ← the_acpp; api (for_each (λ node, Release m node (deletionLeaseHolder p)) nodes)
  | None => mret ()
  end.

(** ** Turning the mode off again *)

(** Whether every device is seen with the mode off. *)
Definition restoreMigModeDisabled (rec : ApplyRecord) : M P bool :=
  let node := Rec_NodeName rec in
  devs ← api (observeDevicesForNode node (Rec_GPUPCIs rec));
  if negb (ModeObservable devs) then throw (errorf ("mig mode not observable on node " +:+ node +:+ "; refusing to restore"))
  else if negb (NeedsModeDisable devs) then mret true
  else
    j ← try (api (job_get (AcppRebootJobName node)));
    match j with
    | inl _ => mret false
    | inr e =>
        if negb (is_not_found e) then throw e
        else if maxMigRebootAttempts <=? Rec_DisableRebootAttempts rec then
          throw (errorf ("mig mode still enabled on node " +:+ node +:+ " after " +:+ sprint_Z (Rec_DisableRebootAttempts rec)
                           +:+ " reboots; manual intervention required"))
        else
          p ← the_acpp;
          let steps := ModeDisableSteps (ModeDisableTargets devs) in
          let (opID, cmdHash) := OperationID (Acpp_UID p) (Acpp_Generation p) node migModeDisableAction steps in
          _ ← api (run_steps opID cmdHash node steps);
          next ← record_of node;
          _ ← patchApplyRecord (rec_DisableRebootAttempts (wrap32 (Rec_DisableRebootAttempts next + 1)) (rec_NodeName node next));
          _ ← api (RequestReboot ns node);
          mret false
    end.
Definition enforceRestoreModeOnDeletion (rec : ApplyRecord) : M P () :=
  p ← the_acpp;
  if negb (restore_mode_policy p) then mret ()
  else
    done ← restoreMigModeDisabled rec;
    if (done : bool) then mret () else throw (errorf ("cleanup waiting for MIG mode restore on node " +:+ Rec_NodeName rec)).
Definition finishNvidiaDeletionRollback (rec : ApplyRecord) : M P () :=
  p ← the_acpp;
  let restoreMode := restore_mode_policy p in
  _ ← (if restoreMode then enforceRestoreModeOnDeletion rec else mret ());
  api (assertMigEmptyAndBaseline rec restoreMode).

(** ** A node of the journal *)

Definition drop_sharing (rec : ApplyRecord) : M P () :=
  if shared_mode (Rec_SharingMode rec) then
    p ← the_acpp;
    _ ← api (RollbackSharing (mkTargetCtx (Rec_NodeName rec) "" "" (Acpp_Name p) 0 "") no_snapshot);
    logged (api (restartNvidiaDevicePlugin (Rec_NodeName rec)))
  else mret ().
Definition not_the_owner (rec : ApplyRecord) : M P () :=
  if negb (hardwareChanged (Rec_MigPhase rec)) then mret ()
  else
    p ← the_acpp;
    r ← try (api (assertMigEmptyAndBaseline rec (restore_mode_policy p)));
    match r with
    | inl _ => mret ()
    | inr _ =>
        _ ← setDeletionBlocked (Rec_NodeName rec) "ownership conflict during cleanup";
        throw (errorf ("cleanup blocked on node " +:+ Rec_NodeName rec +:+ ": ownership conflict (phase=" +:+ Rec_MigPhase rec +:+ ")"))
    end.
Definition hand_back (node : string) : M P () :=
  _ ← restoreSchedulable node;
  p ← the_acpp;
  api (releaseNodeOwnerLockUID node (Acpp_UID p)).
Definition undo_hardware (rec : ApplyRecord) : M P () :=
  let node := Rec_NodeName rec in
  _ ← cordonForRollback rec;
  rec ← record_of node;
  _ ← api (assertNodeQuiesced (Rec_NodeName rec));
  p ← the_acpp;
  let b := WithTargetPCIs (Rec_GPUPCIs rec) (New (Some run_steps) None) in
  _ ← api (Rollback b (mkTargetCtx (Rec_NodeName rec) "" "" (Acpp_UID p) (Rec_Generation rec) ""));
  _ ← api (restartNvidiaDevicePlugin (Rec_NodeName rec));
  _ ← finishNvidiaDeletionRollback rec;
  _ ← api (syncMigActiveLabel (Rec_NodeName rec) false);
  hand_back (Rec_NodeName rec).
Definition cleanup_record (rec : ApplyRecord) : M P () :=
  _ ← drop_sharing rec;
  lockUID ← api (nodeOwnerUID (Rec_NodeName rec));
  p ← the_acpp;
  if negb (bool_decide (lockUID = Acpp_UID p)) then not_the_owner rec
  else if negb (hardwareChanged (Rec_MigPhase rec)) then hand_back (Rec_NodeName rec)
  else undo_hardware rec.
(** The nodes whose lease was taken; [range] fixes the list before the loop. *)
Fixpoint cleanup_all (recs : list ApplyRecord) (held : list string) : M P (list string) :=
  match recs with
  | [] => mret held
  | rec :: recs =>
      took ← takeDeletionLease (Rec_NodeName rec);
      _ ← cleanup_record rec;
      cleanup_all recs (if (took : bool) then held ++ [Rec_NodeName rec] else held)
  end.
Definition handleNvidiaDeletion : M P () :=
  p ← the_acpp;
  held ← cleanup_all (Acpp_ApplyRecords p) [];
  p ← the_acpp;
  _ ← api (ensureMpsControlDaemon SharingModeExclusive (Acpp_Name p) "");
  _ ← api (releaseOrphanOwnerLocks (Acpp_UID p));
  releaseDeletionLeases held.

(** ** The finalizer *)

Definition drop_finalizer : M P () :=
  p ← the_acpp;
  let p := RemoveFinalizer acppFinalizer p in
  _ ← set_acpp p;
  stored ← api (acpp_update p);
  set_acpp stored.
Definition release_ds_lock : M P () :=
  p ← the_acpp;
  g ← try (api (plugin_ds_get rngdUnifiedDSNS rngdUnifiedDSName));
  match g with
  | inl ds =>
      if bool_decide (mget "" (Pds_Annotations ds) PartitionOwnerAnnotation = Acpp_Name p)
      then api (plugin_ds_update (pds_annotations (delete PartitionOwnerAnnotation (Pds_Annotations ds)) ds))
      else mret ()
  | inr e => if is_not_found e then mret () else throw e
  end.
Definition handleDeletion : M P () :=
  p ← the_acpp;
  if negb (ContainsFinalizer p acppFinalizer) then mret ()
  else
    _ ← (if bool_decide (Spec_Vendor (Acpp_Spec p) = vendorNvidia) then handleNvidiaDeletion else release_ds_lock);
    drop_finalizer.
End Deletion.
