(* ===== verification/PartitionController.v ===== *)
(** * internal/controller: the partition policy's reconciler

    [Reconcile] of [acceleratorpartitionpolicy_controller.go]: which of the policies
    for a DaemonSet may act, one target from discovery to Ready, the release of the
    node at every end, and the operation that stands in for it in delegate mode. *)

From S2P Require Import Prelude GoStrings GoTime Naming OperationModel ApiTypes OperationLease VerificationPolicy VerificationAgreement VerificationDrift Verifier PolicyTypes VendorCap HealthController UpgradeTypes DriverJob DraClaim UpgradeNode PartitionTypes PartitionProfiles MigObserve MigSteps Quiescer NvidiaBackend SharingConfig RngdBackend PartitionPass PartitionSharing PartitionApply.

(** ** Pure parts *)

Definition rngd_resolved (ls : list PartitionLayout) : list RngdProfile := omap (λ l, ResolveProfile (Pl_Profile l)) ls.
Definition resolveRngd (ls : list PartitionLayout) : list ResolvedEntry * list ResolvedLayoutEntry :=
  ((λ p, mkResolvedEntry (Rp_Profile p) (Rp_BackendPolicy p) (Rp_CountPerDevice p)) <$> rngd_resolved ls,
   (λ p, mkResolvedLayout (Rp_Profile p) (Rp_BackendPolicy p) (Rp_CountPerDevice p)) <$> rngd_resolved ls).
Definition backendFor (vendor : string) : option BackendKind :=
  if bool_decide (vendor = vendorFuriosa) then Some FuriosaKind
  else if bool_decide (vendor = vendorNvidia) then Some NvidiaKind else None.
Definition rngdPresentNodeLabel : string := PresentNodeLabel vendorRngd.
(** The older policy first, then by name. *)
Definition contender_before (a b : AcceleratorPartitionPolicy) : bool :=
  if negb (Acpp_CreationTimestamp a =? Acpp_CreationTimestamp b) then Acpp_CreationTimestamp a <? Acpp_CreationTimestamp b
  else str_ltb (Acpp_Name a) (Acpp_Name b).
Definition contenders (vendor : string) (l : list AcceleratorPartitionPolicy) : list AcceleratorPartitionPolicy :=
  sort_slice contender_before
    (filter (λ o, Spec_Vendor (Acpp_Spec o) = vendor ∧ is_deleting (Acpp_DeletionTimestamp o) = false) l).
Definition with_discovery (d : DiscoverResult) (ts : TargetStatus) : TargetStatus :=
  ts_ObservedLayout (Dis_Observed d) (ts_Advertisement (Dis_Advertisement d) (ts_Operations (Dis_Operations d)
    (ts_Devices (Dis_Devices d) (ts_DriverVersion (Dis_DriverVersion d) (ts_Backend (Dis_Backend d) ts))))).
Definition backend_rollback (s : RollbackState) (ts : TargetStatus) : TargetStatus :=
  ts_Backend (bk_Rollback (mkRollbackInfo (Rb_PrevPolicy s) (Rb_Generation s) (Rb_ResourceVersion s) (Rb_TemplateHash s))
                (Ts_Backend ts)) ts.
Definition dra_message (node vendor : string) : string :=
  "노드 " +:+ node +:+ " 의 " +:+ vendor +:+ " 장치는 DRA 가 광고한다(NPUClusterPolicy 의 advertiseBy: dra) — "
  +:+ "파티션 구성 주체가 둘이 되지 않도록 이 노드에는 적용하지 않는다. 되돌리려면 advertiseBy 를 devicePlugin 으로 두라".

(** ** operation_participants.go: what a policy asks of the coordinator *)

Definition OperationTypeForACPP (p : AcceleratorPartitionPolicy) : OpType :=
  match Spec_Layout (Acpp_Spec p) with [] => SharingModeChange | _ => PartitionReconfigure end.
Definition ResourceKeysForACPP (p : AcceleratorPartitionPolicy) (node : string) (opType : OpType) : list string :=
  let pcis := Rec_GPUPCIs (getApplyRecord p node) in
  if bool_decide (opType = SharingModeChange)
  then (DeviceSharingKey <$> pcis) ++ [ClusterDPConfigKey DevicePluginNameMixed]
  else (DevicePartitionKey <$> pcis) ++ [NodeCordonKey node].
Definition TransactionIDFor (p : AcceleratorPartitionPolicy) (node : string) : string :=
  Acpp_UID p +:+ "-" +:+ sprint_Z (Acpp_Generation p) +:+ "-" +:+ node.
Definition OperationNameFor (p : AcceleratorPartitionPolicy) (node : string) : string :=
  let suffix := "-" +:+ String.substring 0 8 (Acpp_UID p) in
  let name := "acpp-" +:+ Acpp_Name p +:+ "-" +:+ sprint_Z (Acpp_Generation p) +:+ "-" +:+ node in
  String.substring 0 (63 - String.length suffix) name +:+ suffix.
Definition acpp_operation (p : AcceleratorPartitionPolicy) (node : string) : AcceleratorOperation :=
  let opType := OperationTypeForACPP p in
  mkOperation (OperationNameFor p node) 0 "" zero_time
    (mkOperationSpec opType node (Spec_Vendor (Acpp_Spec p)) (TransactionIDFor p node)
       (mkOperationOwner "AcceleratorPartitionPolicy" (Acpp_Name p) (Acpp_UID p) (Acpp_Generation p))
       (ResourceKeysForACPP p node opType)) zero_op_status.

Section Controller.
Context {W : Type} `{UpgradeAPI W, PartitionAPI W, MpsAPI W, PartitionSeams W, LeaseAPI W, VerifyAPI W, OperationCreateAPI W, Clock W}.
Context `{Environment, Requirements, Yaml, TemplateJSON}.
(** [driverjob.Namespace]; [Leases]; [Verification]; the verifier with the short timeout *)
Context (ns : string) (Leases : option LeaseManager) (Verification : option (Verifier.Verifier W)).
Context (probe_verifier : option (PartitionTypes.Verifier W)).
Notation P := (Pass W).

(** ** Who may act *)

Definition matching_nodes (sel : gmap string string) : M W (list Node) :=
  nodes ← UpgradeTypes.node_list; mret (filter (λ n, labels_match sel (Node_Labels n) = true) nodes).
Definition firstNodeName (sel : gmap string string) : M W string :=
  g ← try (matching_nodes sel);
  mret (match g with inl nodes => default "" (head (sort_strings (Node_Name <$> nodes))) | inr _ => "" end).
Definition dsManagedNodes : M W (list string) :=
  ds ← plugin_ds_get rngdUnifiedDSNS rngdUnifiedDSName;
  if bool_decide (Pds_NodeSelector ds = ∅) then mret []
  else
    nodes ← matching_nodes (Pds_NodeSelector ds);
    mret (Node_Name <$> filter (λ n, mget "" (Node_Labels n) rngdPresentNodeLabel = labelValueTrue) nodes).
Definition selectorCoversAll (sel : gmap string string) (dsNodes : list string) : M W bool :=
  match dsNodes with
  | [] => mret true
  | _ =>
      g ← try (matching_nodes sel);
      mret (match g with inl nodes => forallb (contains_string (Node_Name <$> nodes)) dsNodes | inr _ => false end)
  end.
Definition vendor_on_node (vendor node : string) : M W bool :=
  if bool_decide (node = "") then mret true
  else
    g ← try (UpgradeTypes.report_get node);
    mret (match g with
          | inl ndr => bool_decide (Ndr_Devices ndr = []) || existsb (λ d, bool_decide (De_Vendor d = vendor)) (Ndr_Devices ndr)
          | inr _ => true
          end).
Definition in_scope (sel : gmap string string) : M W bool :=
  g ← try dsManagedNodes;
  match g with inl dsNodes => selectorCoversAll sel dsNodes | inr _ => mret true end.
(** The reason not to act, if any. *)
Definition resolveConflict (p : AcceleratorPartitionPolicy) : M W (option string) :=
  let spec := Acpp_Spec p in
  node ← firstNodeName (Spec_NodeSelector spec);
  here ← vendor_on_node (Spec_Vendor spec) node;
  if negb (here : bool) then mret (Some ReasonVendorMismatch)
  else if negb (bool_decide (Spec_Vendor spec = vendorFuriosa)) then mret None
  else
    covers ← in_scope (Spec_NodeSelector spec);
    if negb (covers : bool) then mret (Some ReasonBackendScopeMismatch)
    else
      g ← try acpp_list;
      mret (match g with
            | inr _ => None
            | inl l => match contenders (Spec_Vendor spec) l with
                       | first :: _ => if bool_decide (Acpp_Name first = Acpp_Name p) then None else Some ReasonTargetConflict
                       | [] => None
                       end
            end).

(** ** One target: NVIDIA *)

Definition discovery_failed (ts : TargetStatus) (e : GoErr) : M P Outcome :=
  ts ← at_phase ts ACPPPhaseFailed ACPPCondCapabilitiesDiscovered ConditionFalse "DiscoveryFailed" (err_msg e);
  fails ts e.
Definition discovered (d : DiscoverResult) (ts : TargetStatus) : M P TargetStatus :=
  setCond (with_discovery d ts) ACPPCondCapabilitiesDiscovered ConditionTrue "DiscoverySucceeded" "capabilities discovered".
(** The checks before anything is applied, then [k]. *)
Definition validated (b : BackendKind) (verdict : option GoErr) (t : Target) (ts : TargetStatus) (k : TargetStatus → M P Outcome)
    : M P Outcome :=
  p ← the_acpp;
  match Spec_Layout (Acpp_Spec p) with
  | [] => runSharingOnly probe_verifier b t ts
  | _ =>
      match verdict with
      | Some e =>
          check (restoreSchedulable (T_NodeName t)) ts (λ _,
          ts ← not_validated ts ACPPPhaseFailed "ValidationFailed" (err_msg e); finish ts)
      | None =>
          ts ← setCond ts ACPPCondValidated ConditionTrue "ValidationSucceeded" "layout valid";
          check (precheckSharing b ts) ts (λ refused,
          match refused with
          | Some rejected => rejectSharing b t rejected
          | None => if negb (Ost_Supported (Ops_Apply (Ts_Operations ts))) then finish (ts_Phase ACPPPhaseUnsupported ts) else k ts
          end)
      end
  end.
Definition mig_expectation (rec : ApplyRecord) : Expectation :=
  mkExpectation (Rec_Profile rec) (Rec_Count rec) (GeometrySummary (Rec_Profile rec) (Rec_Count rec)) (expectedAllocatable rec)
    ("nvidia.com/mig-" +:+ Rec_Profile rec).
Definition ec_verified (vendor : option string) (x : Expectation) (geometry : option (gmap string string)) (ec : EvidenceCtx) : EvidenceCtx :=
  mkEvidenceCtx (default (Ec_Vendor ec) vendor) x (default (Ec_ObservedGeometry ec) geometry) (Ec_ObservationErrors ec)
    (Ec_TargetDevices ec) true.
Definition ec_observed (devs : list MigDevice) (ec : EvidenceCtx) : EvidenceCtx :=
  let (geometry, errors) := observedGeometryOf devs in
  mkEvidenceCtx vendorNvidia (Ec_Expectation ec) geometry errors (targetPCIs devs) (Ec_Verified ec).
Definition nvidia_apply (nvb : Backend W) (t : Target) (ts : TargetStatus) : M P Outcome :=
  '(nts, e) ← runNvidiaTarget ns nvb t ts;
  match (e : option GoErr) with
  | Some _ => mret (nts, e)
  | None =>
      if negb (bool_decide (Ts_Phase nts = ACPPPhaseReady)) then finish nts
      else
        check (restoreSchedulable (T_NodeName t)) nts (λ _,
        rec ← record_of (T_NodeName t);
        _ ← set_ec (ec_verified None (mig_expectation rec) None);
        runSharing probe_verifier NvidiaKind t nts (expectedAllocatable rec))
  end.
Definition nvidia_target (t : Target) (ts : TargetStatus) : M P Outcome :=
  d ← try (api (NvidiaBackend.Discover (New (Some run_steps) hardware_verifier) t));
  match d with
  | inr e => discovery_failed ts e
  | inl (dis, nvb) =>
      ts ← discovered dis ts;
      o ← observeNvidiaMIG nvb t ts;
      match (o : Backend W * TargetStatus + Outcome) with
      | inr stop => mret stop
      | inl (nvb, ts) =>
          _ ← set_ec (ec_observed (Nv_targets nvb));
          p ← the_acpp;
          validated NvidiaKind (NvidiaBackend.Validate nvb (toPartitionLayouts (Spec_Layout (Acpp_Spec p)))) t ts (nvidia_apply nvb t)
      end
  end.

(** ** One target: RNGD *)

Definition ensureOwnerLock : M P () :=
  p ← the_acpp;
  g ← try (api (plugin_ds_get rngdUnifiedDSNS rngdUnifiedDSName));
  match g with
  | inr _ => mret ()
  | inl ds =>
      if bool_decide (mget "" (Pds_Annotations ds) PartitionOwnerAnnotation = Acpp_Name p) then mret ()
      else logged (api (plugin_ds_update (claim_ds (Acpp_Name p) ds)))
  end.
(** The policy is set and a pod got a partition. *)
Definition rngd_verified (t : Target) (ts : TargetStatus) : M P Outcome :=
  ts ← at_phase ts ACPPPhaseReady ACPPCondVerified ConditionTrue "AllocationTestSucceeded" "test pod allocated";
  p ← the_acpp;
  _ ← (if bool_decide (Spec_Vendor (Acpp_Spec p) = vendorFuriosa) then ensureOwnerLock else mret ());
  _ ← set_ec (ec_verified (Some vendorFuriosa) (mkExpectation "" 0 "" ∅ RngdResourceName) (Some (rngdObservedPCIs (Ts_Devices ts))));
  runSharing probe_verifier FuriosaKind t ts (Adv_AdvertisedResources (Ts_Advertisement ts)).
Definition rngd_changed (t : Target) (ts : TargetStatus) (resolved : list ResolvedEntry) (diff : DiffResult) : M P Outcome :=
  a ← try (api (RngdBackend.Apply t resolved));
  match a with
  | inr e =>
      ts ← not_applied ts ACPPPhaseFailed "ApplyFailed" (err_msg e); fails ts e
  | inl state =>
      ts ← setCond (backend_rollback state ts) ACPPCondApplied ConditionTrue "DevicePluginConfigured"
             ("policy " +:+ Diff_ToPolicy diff +:+ " applied (changed=" +:+ sprint_bool (Diff_Changed diff) +:+ ")");
      r ← try (api (RngdBackend.Verify hardware_verifier t));
      if verifySucceeded r then rngd_verified t ts
      else
        u ← try (api (RngdBackend.Rollback t state));
        match u with
        | inr e => ts ← at_phase ts ACPPPhaseFailed ACPPCondRolledBack ConditionFalse ACPPPhaseRollbackFailed (err_msg e); fails ts e
        | inl _ =>
            ts ← at_phase ts ACPPPhaseFailed ACPPCondRolledBack ConditionTrue "RollbackSucceeded" "restored previous policy";
            finish ts
        end
  end.
Definition rngd_unchanged (t : Target) (ts : TargetStatus) : M P Outcome :=
  ts ← setCond ts ACPPCondApplied ConditionTrue "DevicePluginConfigured" "no-diff; policy already applied (changed=false)";
  r ← try (api (RngdBackend.Verify hardware_verifier t));
  if verifySucceeded r then rngd_verified t ts
  else
    ts ← at_phase ts ACPPPhaseFailed ACPPCondVerified ConditionFalse "VerificationFailed"
           "no-diff verify failed; manual intervention may be required";
    mret (ts, verify_error r).
Definition rngd_apply (t : Target) (ts : TargetStatus) : M P Outcome :=
  p ← the_acpp;
  let (resolved, status) := resolveRngd (Spec_Layout (Acpp_Spec p)) in
  let ts := ts_ResolvedLayout status ts in
  d ← try (api (RngdBackend.Diff t resolved));
  match d with
  | inr e => fails (ts_Phase ACPPPhaseFailed ts) e
  | inl diff => if Diff_Changed diff then rngd_changed t ts resolved diff else rngd_unchanged t ts
  end.
Definition rngd_target (t : Target) (ts : TargetStatus) : M P Outcome :=
  d ← try (api (RngdBackend.Discover t));
  match d with
  | inr e => discovery_failed ts e
  | inl dis =>
      ts ← discovered dis ts;
      p ← the_acpp;
      validated FuriosaKind (RngdBackend.Validate (toPartitionLayouts (Spec_Layout (Acpp_Spec p)))) t ts (rngd_apply t)
  end.

(** ** The pass *)

Definition apply_target (b : BackendKind) (t : Target) : M P Outcome :=
  p ← the_acpp;
  let ts := zero_target (T_NodeName t) (Spec_Layout (Acpp_Spec p)) in
  o ← try (api (draOwnedNode (T_NodeName t) (Spec_Vendor (Acpp_Spec p))));
  match o with
  | inr e =>
      ts ← at_phase ts ACPPPhaseFailed ACPPCondCapabilitiesDiscovered ConditionFalse "OwnershipCheckFailed" (err_msg e);
      fails ts e
  | inl true =>
      ts ← at_phase ts ACPPPhaseFailed ACPPCondCapabilitiesDiscovered ConditionFalse "NodeOwnedByDRA"
             (dra_message (T_NodeName t) (Spec_Vendor (Acpp_Spec p)));
      finish ts
  | inl false => match b with NvidiaKind => nvidia_target t ts | FuriosaKind => rngd_target t ts end
  end.
Definition runTarget (b : BackendKind) (t : Target) : M P Outcome :=
  p ← the_acpp;
  match Acpp_Targets p with
  | prev :: _ => if shouldReverify p then apply_target b t else monitorDrift Verification t prev
  | [] => apply_target b t
  end.
(** The ends that give the node back; a rollback that will be retried keeps it. *)
Definition gives_node_back (ts : TargetStatus) (err : option GoErr) : bool :=
  (bool_decide (err = None) || negb (contains_string [ACPPPhaseRollingBack; ACPPPhaseRollbackFailed] (Ts_Phase ts)))
  && contains_string [ACPPPhaseFailed; ACPPPhaseUnsupported; ACPPPhaseRollingBack; ACPPPhaseRollbackFailed; ACPPPhaseRestored] (Ts_Phase ts).
(** [RequeueAfter] by the phase of the policy; zero leaves it to the error. *)
Definition requeue_for_phase (phase : string) : Z :=
  if contains_string [ACPPPhaseReady; ACPPPhaseDegraded; ACPPPhaseVerifyingAllocatable] phase then 15 * second
  else if contains_string [ACPPPhaseWaitingForDrain; ACPPPhaseApplying] phase then 30 * second
  else if bool_decide (phase = ACPPPhaseRestored) then 10 * minute
  else 0.
Definition reconcile_target (b : BackendKind) (t : Target) : M P Z :=
  '(ts, runErr) ← runTarget b t;
  '(ts, _) ← gateReady Verification ts t;
  _ ← (if gives_node_back ts runErr then logged (restoreSchedulable (T_NodeName t)) else mret ());
  _ ← writeTargetStatus ts;
  p ← the_acpp;
  let after := requeue_for_phase (Acpp_Phase p) in
  if negb (after =? 0) then mret after
  else match (runErr : option GoErr) with Some e => throw e | None => mret 0 end.
Definition delegateToOperation (t : Target) : M P Z :=
  p ← the_acpp;
  match Acpp_Targets p, shouldReverify p with
  | prev :: _, false =>
      '(ts, err) ← monitorDrift Verification t prev;
      match (err : option GoErr) with
      | Some e => throw e
      | None => _ ← writeTargetStatus ts; mret (15 * second)
      end
  | _, _ =>
      if bool_decide (T_NodeName t = "") then mret 0
      else _ ← api (ignoring_already_exists (operation_create (acpp_operation p (T_NodeName t)))); mret (15 * second)
  end.
Definition fail : M P () :=
  p ← the_acpp;
  let p := acpp_Phase ACPPPhaseFailed p in
  _ ← set_acpp p;
  stored ← api (acpp_status_update p);
  set_acpp stored.
Definition ensure_finalizer : M P () :=
  p ← the_acpp;
  if ContainsFinalizer p acppFinalizer then mret ()
  else
    let p := AddFinalizer acppFinalizer p in
    _ ← set_acpp p;
    stored ← api (acpp_update p);
    set_acpp stored.
Definition reconcile_policy : M P Z :=
  p ← the_acpp;
  if is_deleting (Acpp_DeletionTimestamp p) then _ ← handleDeletion ns Leases; mret 0
  else
    _ ← ensure_finalizer;
    p ← the_acpp;
    match backendFor (Spec_Vendor (Acpp_Spec p)) with
    | None => _ ← fail; mret 0
    | Some b =>
        node ← api (firstNodeName (Spec_NodeSelector (Acpp_Spec p)));
        let t := mkTargetCtx node rngdUnifiedDSName rngdUnifiedDSNS (Acpp_Name p) 0 (Spec_Vendor (Acpp_Spec p)) in
        conflict ← api (resolveConflict p);
        match (conflict : option string) with
        | Some reason =>
            ts ← not_applied (zero_target node []) ACPPPhaseFailed reason "conflict/scope guard";
            _ ← writeTargetStatus ts; mret 0
        | None => if delegateModeEnabled then delegateToOperation t else reconcile_target b t
        end
    end.
Definition on_policy {A} (p : AcceleratorPartitionPolicy) (m : M P A) : M W A := λ w,
  let '(r, s) := m (mkPass p no_evidence w) in (r, Ps_world s).
Definition Reconcile (name : string) : M W Z :=
  g ← try (acpp_get name);
  match g with
  | inr e => if is_not_found e then mret 0 else throw e
  | inl p => on_policy p reconcile_policy
  end.
End Controller.
