(* ===== verification/PartitionParticipant.v ===== *)
(** * internal/controller: partitions, sharing and reboots as operations

    [operation_participants.go] and [operation_reboot.go]: a pass of the partition
    policy as the body of an operation, a reboot with its evidence, and a revalidation
    that changes nothing. *)

From S2P Require Import Prelude GoStrings GoTime Naming OperationModel ApiTypes OperationStateMachine OperationJournal OperationLease VerificationPolicy VerificationAgreement VerificationDrift Verifier OperationController PolicyTypes HealthController UpgradeTypes DriverJob DraClaim UpgradeNode PartitionTypes PartitionProfiles MigObserve MigSteps Quiescer NvidiaBackend SharingConfig RngdBackend PartitionPass PartitionSharing PartitionApply PartitionController.

Definition participantRequeue : Z := 15 * second.
Definition maxOperationReboots : Z := 2.
Definition acppOwnerKind : string := "AcceleratorPartitionPolicy".
Definition event_outcome (e : Event) (msg : string) : OperationController.Outcome := OperationController.mkOutcome e msg 0.
Definition wait_outcome (msg : string) : OperationController.Outcome := OperationController.mkOutcome "" msg participantRequeue.
Definition no_request : Request := mkRequest "" "" "" 0 no_expectation ∅ ∅ [] "" 0 false.

(** ** What a pass means to the coordinator *)

Definition rebooting (rec : ApplyRecord) : bool := contains_string [MigPhaseRebootRequested; MigPhaseRebootWaiting] (Rec_MigPhase rec).
Definition applyOutcomeFor (rec : ApplyRecord) (phase : string) : OperationController.Outcome :=
  if rebooting rec then event_outcome EventRebootRequired "waiting for node reboot"
  else if contains_string [ACPPPhaseReady; ACPPPhaseDegraded] phase then
    event_outcome EventApplyDone ("apply path converged: " +:+ phase)
  else if contains_string [ACPPPhaseFailed; ACPPPhaseUnsupported; ACPPPhaseRollingBack; ACPPPhaseRollbackFailed; ACPPPhaseRestored] phase then
    event_outcome EventApplyFailed ("apply path failed: " +:+ phase)
  else wait_outcome ("in progress: " +:+ phase).
Definition rollback_waits (ts : TargetStatus) (err : option GoErr) : OperationController.Outcome :=
  wait_outcome (match err with
                | Some e => "rollback pass failed: " +:+ err_msg e
                | None => "rollback in progress: " +:+ Ts_Phase ts
                end).
Definition rollbackOutcomeFor (ts : TargetStatus) (err : option GoErr) : OperationController.Outcome :=
  let phase := Ts_Phase ts in
  if bool_decide (phase = ACPPPhaseRollbackFailed) then event_outcome EventCompensationFailed "rollback failed"
  else if contains_string [ACPPPhaseRestored; ACPPPhaseUnsupported] phase then
    event_outcome EventCompensated ("restored: " +:+ phase)
  else if bool_decide (phase = ACPPPhaseFailed) then
    match FindStatusCondition (Ts_Conditions ts) ACPPCondRolledBack with
    | Some cond =>
        if bool_decide (Sc_Status cond = ConditionFalse) then event_outcome EventCompensationFailed (Sc_Message cond)
        else event_outcome EventCompensated ("restored: " +:+ phase)
    | None => rollback_waits ts err
    end
  else rollback_waits ts err.

(** How often a reboot has been asked for, from the journal. *)
Definition RebootAttemptsFrom (journal : list OperationJournalEntry) : Z :=
  Z.of_nat (length (filter (λ e, Entry_Step e = StepRebootRequested) journal)).

Section Participants.
Context {W : Type} `{UpgradeAPI W, PartitionAPI W, MpsAPI W, PartitionSeams W, LeaseAPI W, VerifyAPI W, OperationCreateAPI W, Clock W}.
Context `{Environment, Requirements, Yaml, TemplateJSON}.
Context (ns : string) (Verification : option (Verifier.Verifier W)) (probe_verifier : option (PartitionTypes.Verifier W)).

(** ** Partitions and sharing *)

Definition acpp_request (p : AcceleratorPartitionPolicy) (node : string) (rec : ApplyRecord) (geom errs : gmap string string) : Request :=
  mkRequest node (Spec_Vendor (Acpp_Spec p)) (Acpp_Name p) (Acpp_Generation p) (mig_expectation rec) geom errs [] "" 0 false.
Definition observeForNode (node : string) (pcis : list string) : M W (gmap string string * gmap string string) :=
  devs ← observeDevicesForNode node pcis;
  mret (observedGeometryOf devs).
Definition verifyRequestFor (op : AcceleratorOperation) : M W (Request * bool) :=
  let owner := ApiTypes.Spec_Owner (Op_Spec op) in
  let node := ApiTypes.Spec_NodeName (Op_Spec op) in
  if negb (bool_decide (Owner_Kind owner = "")) && negb (bool_decide (Owner_Kind owner = acppOwnerKind)) then mret (no_request, false)
  else
    g ← try (acpp_get (Owner_Name owner));
    match g with
    | inr e => if is_not_found e then mret (no_request, false)
               else throw (errorf_w ("verify request: get owner " +:+ quote (Owner_Name owner)) e)
    | inl p =>
        let rec := getApplyRecord p node in
        if bool_decide (Rec_Profile rec = "") then mret (no_request, false)
        else
          '(geom, errs) ← observeForNode node (Rec_GPUPCIs rec);
          mret (acpp_request p node rec geom errs, true)
    end.

(** The status, the policy unless it is gone, and the error. *)
Definition PassResult : Type := TargetStatus * option AcceleratorPartitionPolicy * option GoErr.
Definition pass_once (b : BackendKind) (t : Target) : M (Pass W) PassResult :=
  '(ts, runErr) ← runTarget ns Verification probe_verifier b t;
  '(ts, gerr) ← gateReady Verification ts t;
  match (gerr : option GoErr) with
  | Some e => p ← the_acpp; mret (ts, Some p, Some e)
  | None =>
      w ← try (writeTargetStatus ts);
      p ← the_acpp;
      mret (ts, Some p, match w with inr e => Some e | inl _ => runErr end)
  end.
Definition op_target (op : AcceleratorOperation) (p : AcceleratorPartitionPolicy) : Target :=
  mkTargetCtx (ApiTypes.Spec_NodeName (Op_Spec op)) rngdUnifiedDSName rngdUnifiedDSNS (Acpp_Name p) 0 "".
Definition runOnce (op : AcceleratorOperation) : M W PassResult :=
  let owner := ApiTypes.Spec_Owner (Op_Spec op) in
  let none := zero_target "" [] in
  g ← try (acpp_get (Owner_Name owner));
  match g with
  | inr e => mret (none, None, if is_not_found e then None else Some e)
  | inl p =>
      if negb (bool_decide (Owner_UID owner = "")) && negb (bool_decide (Acpp_UID p = Owner_UID owner)) then
        mret (none, None, Some (errorf ("owner uid mismatch for " +:+ quote (Owner_Name owner))))
      else match backendFor (Spec_Vendor (Acpp_Spec p)) with
           | None => mret (none, Some p, Some (errorf ("unknown vendor " +:+ quote (Spec_Vendor (Acpp_Spec p)))))
           | Some b => on_policy p (pass_once b (op_target op p))
           end
  end.
Definition acpp_Apply (op : AcceleratorOperation) : M W OperationController.Outcome :=
  '(ts, p, err) ← runOnce op;
  mret (match (err : option GoErr), (p : option AcceleratorPartitionPolicy) with
        | Some e, _ => event_outcome EventApplyFailed (err_msg e)
        | None, None => event_outcome EventApplyFailed "owner policy is gone"
        | None, Some p => applyOutcomeFor (getApplyRecord p (ApiTypes.Spec_NodeName (Op_Spec op))) (Ts_Phase ts)
        end).
Definition acpp_Rollback (op : AcceleratorOperation) : M W OperationController.Outcome :=
  '(ts, p, err) ← runOnce op;
  mret (match (p : option AcceleratorPartitionPolicy) with
        | None => wait_outcome "rollback pass failed"
        | Some _ => rollbackOutcomeFor ts err
        end).
Definition acppParticipant : Participant W :=
  mkParticipant (λ op, (λ out, (out, op)) <$> acpp_Apply op) acpp_Rollback verifyRequestFor.
Definition revalidateParticipant : Participant W :=
  mkParticipant (λ op, mret (event_outcome EventApplyDone "revalidate: nothing to mutate", op))
    (λ _, mret (event_outcome EventCompensated "revalidate: nothing to compensate")) verifyRequestFor.

(** ** Reboots *)

(** Whether the node came back, and what is missing. *)
Definition BootObserved (node captured : string) : M W (bool * string) :=
  g ← try (UpgradeTypes.node_get node);
  mret (match g with
        | inr e => (false, if is_not_found e then "node not found" else "node not readable: " +:+ err_msg e)
        | inl n =>
            if negb (nodeReadyForHealth n) then (false, "node is not Ready yet")
            else if negb (bool_decide (captured = "")) && bool_decide (Node_BootID n = captured)
            then (false, "node is Ready but the boot id has not changed yet") else (true, "")
        end).
Definition reboot_Apply (op : AcceleratorOperation) : M W OperationController.Outcome :=
  let node := ApiTypes.Spec_NodeName (Op_Spec op) in
  let journal := St_Journal (Op_Status op) in
  let captured := match St_Snapshot (Op_Status op) with Some s => Snap_BootID s | None => "" end in
  let attempts := RebootAttemptsFrom journal in
  if HasStep journal StepRebootObserved then mret (event_outcome EventApplyDone "node reboot already observed")
  else if attempts =? 0 then
    r ← try (RequestReboot ns node);
    mret (match r with
          | inr e => event_outcome EventApplyFailed (err_msg e)
          | inl _ => event_outcome EventRebootRequired "reboot requested"
          end)
  else
    '(done, reason) ← BootObserved node captured;
    mret (if (done : bool) then event_outcome EventBootObserved "node came back from reboot"
          else if maxOperationReboots <=? attempts then
            event_outcome EventApplyFailed ("node did not come back after " +:+ sprint_Z attempts +:+ " reboots: " +:+ reason)
          else event_outcome EventRebootRequired reason).
Definition reboot_Rollback (op : AcceleratorOperation) : M W OperationController.Outcome :=
  r ← try (deleteAcppRebootJob (ApiTypes.Spec_NodeName (Op_Spec op)));
  mret (match r with
        | inr e => wait_outcome ("could not cancel the pending reboot: " +:+ err_msg e)
        | inl _ => event_outcome EventCompensated "pending reboot cancelled; a reboot that already happened cannot be undone"
        end).
Definition nodeRebootParticipant : Participant W :=
  mkParticipant (λ op, (λ out, (out, op)) <$> reboot_Apply op) reboot_Rollback (λ _, mret (no_request, false)).
End Participants.
