(* ===== verification/PartitionSpec.v ===== *)
(** * The partition controller, abstractly: what a pass may write, and when

    [PWrite] lists the calls that change something.  [may_write] says which of them a
    pass over a MIG policy may send, given the journal the API server holds at that
    moment: the hardware is only touched as the journal already says, the node is only
    locked for an intent that is recorded, and only released when the record says the
    policy locked it.  [PartitionEffects] proves it of [runNvidiaTarget]. *)

From S2P Require Import Prelude GoStrings GoTime Naming OperationModel ApiTypes VerificationAgreement PolicyTypes HealthController UpgradeTypes DriverJob UpgradeNode UpgradeSpec UpgradeEffects PartitionTypes MigObserve MigSteps Quiescer NvidiaBackend SharingConfig PartitionPass.

(** ** Writes *)

Inductive PWrite :=
| PCluster (wr : Write)
| PExec (opID cmdHash node : string) (steps : list CommandStep)
| PPolicyPatch (base p : AcceleratorPartitionPolicy)
| PMetric (vendor mode result : string).

Section World.
Context {W : Type} `{UpgradeAPI W, PartitionAPI W, PartitionSeams W, Clock W}.

(** Each as the call that sends it, its answer dropped. *)
Definition psend (wr : PWrite) (w : W) : W :=
  match wr with
  | PCluster wr => send wr w
  | PExec opID cmdHash node steps => (run_steps opID cmdHash node steps w).2
  | PPolicyPatch base p => (acpp_status_patch base p w).2
  | PMetric vendor mode result => (record_acpp_apply vendor mode result w).2
  end.

(** [I] survives everything that is not one of these; the observation and the
    verification are calls of their own. *)
Class PReadOnly (I : W → Prop) := {
  #[global] pro_cluster :: ReadOnly I;
  pro_node_list : safe I node_list;
  pro_observe node pcis : safe I (observe node pcis);
  pro_allocatable v t e : hardware_verifier = Some v → safe I (@VerifyAllocatable W v t e);
}.
Definition psends (I : W → Prop) (wr : PWrite) : Prop := ∀ w, I w → I (psend wr w).

(** What the proofs use of the API server: [journal] is the journal it holds of the
    policy at hand.  Nobody but this controller writes it, a patch of the status that
    succeeds stores the journal it is given and answers with it, one that fails may
    have stored it or not.  This takes the controller for the journal's only writer:
    the records are one field of a merge patch, which the server replaces as a whole
    when it differs from the base that was read. *)
Class JournalLaws (uid : string) := {
  journal : W → list ApplyRecord;
  journal_read j : PReadOnly (λ w, journal w = j);
  journal_cluster j wr : sends (λ w, journal w = j) wr;
  journal_exec j opID cmdHash node steps : psends (λ w, journal w = j) (PExec opID cmdHash node steps);
  journal_metric j vendor mode result : psends (λ w, journal w = j) (PMetric vendor mode result);
  journal_patch base p w r w' : acpp_status_patch base p w = (r, w') →
    match r with
    | inl q => journal w' = Acpp_ApplyRecords p ∧ Acpp_ApplyRecords q = Acpp_ApplyRecords p ∧ Acpp_UID q = Acpp_UID p
    | inr _ => journal w' = Acpp_ApplyRecords p ∨ journal w' = journal w
    end;
}.
End World.

(** ** When *)

Definition record_in (node : string) (j : list ApplyRecord) : ApplyRecord :=
  default zero_record (find_first (λ r, bool_decide (Rec_NodeName r = node)) j).
(** The layout the record stands for, on its devices. *)
Definition recorded_specs (rec : ApplyRecord) : list GeometrySpec :=
  (λ pci, mkGeometrySpec pci (Rec_Profile rec) (Rec_Count rec)) <$> Rec_GPUPCIs rec.
Definition lock_patch (uid : string) (n : Node) : Node := node_annotations <[migOwnerAnnotation := uid]> n.
Definition label_patch (active : bool) (n : Node) : Node :=
  node_labels (if active then <[MigActiveNodeLabel := "true"]> else delete MigActiveNodeLabel) n.

Section May.
Context (uid node : string).

Inductive may_write (rec : ApplyRecord) : PWrite → Prop :=
| may_apply opID cmdHash : Rec_OwnerUID rec = uid → Rec_MigPhase rec = MigPhaseApplying →
    may_write rec (PExec opID cmdHash node (BuildApplySteps (recorded_specs rec)))
| may_enable opID cmdHash pcis : Rec_OwnerUID rec = uid → Rec_MigPhase rec = MigPhaseModeEnabling → pcis ⊆ Rec_GPUPCIs rec →
    may_write rec (PExec opID cmdHash node (ModeEnableSteps pcis))
| may_undo opID cmdHash pcis : Rec_OwnerUID rec = uid → isApplyInFlightPhase (Rec_MigPhase rec) = true →
    may_write rec (PExec opID cmdHash node (BuildDisableSteps pcis))
| may_reboot j : Rec_OwnerUID rec = uid → Rec_MigPhase rec = MigPhaseRebootRequested → Rec_RebootAttempts rec <= maxMigRebootAttempts →
    Job_Name j = AcppRebootJobName node → may_write rec (PCluster (WJobCreate j))
| may_cancel : may_write rec (PCluster (WJobDelete (AcppRebootJobName node)))
| may_quiesce wr : quiesce_write NvidiaQuiescer node wr → Rec_OwnerUID rec = uid → Rec_MigPhase rec = MigPhaseQuiescing →
    may_write rec (PCluster wr)
| may_uncordon wr : uncordon_write wr → Rec_CordonedByPolicy rec = true → may_write rec (PCluster wr)
| may_lock n : owner_uid n = "" → may_write rec (PCluster (WNode n (lock_patch uid n)))
| may_label active n : Rec_OwnerUID rec = uid → (active = true → Rec_MigPhase rec = MigPhaseApplying) →
    may_write rec (PCluster (WNode n (label_patch active n)))
| may_restart p : plugin_pod_on node p = true → Rec_OwnerUID rec = uid → may_write rec (PCluster (WPodDelete p))
| may_journal base rec' : Rec_NodeName rec' = node →
    may_write rec (PPolicyPatch base (acpp_ApplyRecords (upsert_record rec' (Acpp_ApplyRecords base)) base))
| may_count vendor mode result : may_write rec (PMetric vendor mode result).
End May.

(** ** A site to run passes in

    One node, one policy, the device plugin's DaemonSet, its ConfigMap and the MPS
    daemon.  Writes of the node, the policy and these objects change them; every write
    of [PWrite] is also logged, with the journal's record of the node at that moment.
    The witnesses of the partition theorems run here. *)


Record Site := mkSite {
  S_cluster : Frozen;
  S_policy : AcceleratorPartitionPolicy;
  S_others : list AcceleratorPartitionPolicy;
  S_plugin : option PluginDaemonSet;
  S_config : option ConfigMap;
  S_mps : list MpsDaemonSet;
  S_observations : list Observation;
  (** what a verification of the allocatable resources answers *)
  S_allocatable : option VerifyResult;
  S_log : list (ApplyRecord * PWrite);
}.
Definition s_cluster (f : Frozen → Frozen) (s : Site) : Site :=
  mkSite (f (S_cluster s)) (S_policy s) (S_others s) (S_plugin s) (S_config s) (S_mps s) (S_observations s) (S_allocatable s) (S_log s).
Definition s_policy (p : AcceleratorPartitionPolicy) (s : Site) : Site :=
  mkSite (S_cluster s) p (S_others s) (S_plugin s) (S_config s) (S_mps s) (S_observations s) (S_allocatable s) (S_log s).
Definition s_plugin (d : PluginDaemonSet) (s : Site) : Site :=
  mkSite (S_cluster s) (S_policy s) (S_others s) (Some d) (S_config s) (S_mps s) (S_observations s) (S_allocatable s) (S_log s).
Definition s_config (c : option ConfigMap) (s : Site) : Site :=
  mkSite (S_cluster s) (S_policy s) (S_others s) (S_plugin s) c (S_mps s) (S_observations s) (S_allocatable s) (S_log s).
Definition s_mps (l : list MpsDaemonSet) (s : Site) : Site :=
  mkSite (S_cluster s) (S_policy s) (S_others s) (S_plugin s) (S_config s) l (S_observations s) (S_allocatable s) (S_log s).
Definition s_logged (wr : PWrite) (s : Site) : Site :=
  mkSite (S_cluster s) (S_policy s) (S_others s) (S_plugin s) (S_config s) (S_mps s) (S_observations s) (S_allocatable s)
    (S_log s ++ [(record_in "node-a" (Acpp_ApplyRecords (S_policy s)), wr)]).
Definition f_node (n : Node) (w : Frozen) : Frozen :=
  mkFrozen (F_now w) (Some n) (F_report w) (F_policies w) (F_states w) (F_pods w) (F_deployments w) (F_daemonset w) (F_job w) (F_claims w).

Definition on_cluster {A} (m : M Frozen A) : M Site A := zoom S_cluster (λ w s, s_cluster (λ _, w) s) m.
Definition site_write (wr : PWrite) (f : Site → Site) : M Site () := modify (λ s, f (s_logged wr s)).
Definition site_ask {A} (f : Site → A + GoErr) : M Site A := λ s, (f s, s).

#[export] Instance site_api : UpgradeAPI Site := {|
  node_get n := on_cluster (node_get n);
  node_list := on_cluster node_list;
  node_patch a b := site_write (PCluster (WNode a b)) (s_cluster (f_node b));
  report_get n := on_cluster (report_get n);
  report_list := on_cluster report_list;
  policy_list := on_cluster policy_list;
  dus_get n := on_cluster (dus_get n);
  dus_list := on_cluster dus_list;
  dus_create d := mret ();
  dus_status_update d := _ ← site_write (PCluster (WStatus d)) id; mret d;
  dus_patch a b := _ ← site_write (PCluster (WMeta a b)) id; mret b;
  dus_status_patch _ d := mret d;
  pod_list := on_cluster pod_list;
  pod_get a b := on_cluster (pod_get a b);
  pod_create p := site_write (PCluster (WPodCreate p)) id;
  pod_delete p := site_write (PCluster (WPodDelete p)) id;
  pod_evict p := site_write (PCluster (WPodEvict p)) id;
  deployment_list := on_cluster deployment_list;
  deployment_get a b := on_cluster (deployment_get a b);
  deployment_patch a b := site_write (PCluster (WDeployment a b)) id;
  daemonset_get n := on_cluster (daemonset_get n);
  daemonset_patch a b := site_write (PCluster (WDaemonSet a b)) id;
  job_get n := on_cluster (job_get n);
  job_create j := site_write (PCluster (WJobCreate j)) id;
  job_delete n := site_write (PCluster (WJobDelete n)) id;
  claim_list := on_cluster claim_list;
|}.
#[export] Instance site_partition : PartitionAPI Site := {|
  plugin_ds_get _ _ := site_ask (λ s, missing (S_plugin s));
  plugin_ds_update d := modify (s_plugin d);
  plugin_ds_patch _ d := modify (s_plugin d);
  configmap_get _ _ := site_ask (λ s, missing (S_config s));
  configmap_create c := modify (s_config (Some c));
  configmap_update c := modify (s_config (Some c));
  configmap_delete _ := modify (s_config None);
  acpp_get _ := site_ask (λ s, inl (S_policy s));
  acpp_list := site_ask (λ s, inl (S_policy s :: S_others s));
  acpp_update p := _ ← modify (s_policy p); mret p;
  acpp_status_update p := _ ← modify (s_policy p); mret p;
  acpp_status_patch b p := _ ← site_write (PPolicyPatch b p) (s_policy p); mret p;
|}.
Definition mps_named (ns n : string) (d : MpsDaemonSet) : bool := bool_decide (Mds_Namespace d = ns ∧ Mds_Name d = n).
#[export] Instance site_mps : MpsAPI Site := {|
  mps_ds_get ns n := site_ask (λ s, missing (find_first (mps_named ns n) (S_mps s)));
  mps_ds_create d := modify (λ s, s_mps (S_mps s ++ [d]) s);
  mps_ds_update d := modify (λ s, s_mps (d :: filter (λ x, mps_named (Mds_Namespace d) (Mds_Name d) x = false) (S_mps s)) s);
  mps_ds_delete ns n := modify (λ s, s_mps (filter (λ x, mps_named ns n x = false) (S_mps s)) s);
|}.
Definition site_verifier : Verifier Site :=
  {| VerifyAllocatable _ _ := site_ask (λ s, inl (S_allocatable s)); VerifyAllocation _ _ := mret None |}.
#[export] Instance site_seams : PartitionSeams Site := {|
  run_steps o h n s := site_write (PExec o h n s) id;
  observe _ _ := site_ask (λ s, inl (S_observations s));
  hardware_verifier := Some site_verifier;
  record_acpp_apply v m r := site_write (PMetric v m r) id;
  report_status_patch _ _ := mret ();
|}.
#[export] Instance site_clock : Clock Site := {| time_now s := (F_now (S_cluster s), s) |}.

(** Reading changes nothing a predicate of these fields can see. *)
Lemma site_read_only (I : Site → Prop) : PReadOnly I.
Proof. split; [split; intros; by destruct w as [[]]|by intros [[]]|by intros ?? w|].
  intros ??? [= <-]. by intros w. Qed.
#[export] Instance site_journal uid : JournalLaws uid.
Proof.
  refine {| journal s := Acpp_ApplyRecords (S_policy s) |}; [intros; apply site_read_only|by intros ? [] w|by intros ????? w|by intros ???? w|].
  by intros base p w r w' [= <- <-].
Defined.
(** Every write in the log was allowed when it was sent. *)
Definition log_allowed (uid : string) (s : Site) : Prop := Forall (λ e, may_write uid "node-a" e.1 e.2) (S_log s).
Lemma log_allowed_closed uid wr s :
  log_allowed uid s → may_write uid "node-a" (record_in "node-a" (journal (uid := uid) s)) wr → log_allowed uid (psend wr s).
Proof.
  intros Hl Hw. assert (Hl' : log_allowed uid (s_logged wr s)) by (apply Forall_app; split; [done|by apply Forall_singleton]).
  by destruct wr as [[]| | |].
Qed.

(** ** Samples *)

Definition demo_spec (count : Z) : AcceleratorPartitionPolicySpec :=
  mkPolicySpec ∅ "nvidia" [mkPartitionLayout "1g.6gb" count] "" None.
Definition demo_acpp (records : list ApplyRecord) : AcceleratorPartitionPolicy :=
  mkPolicy "acpp-a" "uid-acpp" 1 hour None [] "7" (demo_spec 4) 0 "" [] records.
Definition demo_mig (mode geometry : string) : MigDevice := mkMigDevice "0000:01:00.0" mode mode geometry "".
Definition demo_backend (mode geometry : string) : Backend Site :=
  mkBackend (Some run_steps) hardware_verifier {["1g.6gb" := 4]} [demo_mig mode geometry] ∅ None false.
Definition demo_site (records : list ApplyRecord) (converged : bool) : Site :=
  mkSite (a30_world) (demo_acpp records) [] None None [] [] (Some (mkVerifyResult converged false ∅ None "")) [].
Definition demo_pass (records : list ApplyRecord) (converged : bool) : Pass Site :=
  mkPass (demo_acpp records) no_evidence (demo_site records converged).
Definition demo_ts : TargetStatus := ts_DriverVersion "550.2" (zero_target "node-a" [mkPartitionLayout "1g.6gb" 4]).
(** The kinds of the writes of a log. *)
Definition kind_of (wr : PWrite) : string :=
  match wr with
  | PCluster (WNode _ _) => "node" | PCluster (WJobCreate _) => "job" | PCluster (WJobDelete _) => "job gone"
  | PCluster (WPodDelete _) => "pod gone" | PCluster _ => "cluster" | PExec _ _ _ _ => "exec"
  | PPolicyPatch _ _ => "journal" | PMetric _ _ _ => "metric"
  end.
Definition kinds (s : Pass Site) : list string := (λ e, kind_of e.2) <$> S_log (Ps_world s).
