(* ===== verification/PartitionEffects.v ===== *)
(** * A pass over a MIG policy keeps to [may_write]

    One lemma per function of [PartitionPass], [PartitionPass] and [PartitionApply],
    in the order they call each other.  An assertion about a pass relates the record in
    hand to the one the API server holds. *)

From S2P Require Import Prelude GoStrings GoTime Naming OperationModel ApiTypes VerificationAgreement PolicyTypes HealthController UpgradeTypes DriverJob DraClaim UpgradeNode UpgradeSpec UpgradeEffects PartitionTypes MigObserve MigSteps Quiescer NvidiaBackend SharingConfig PartitionPass PartitionSharing PartitionApply PartitionSpec.

(** ** Records *)

Lemma record_in_upsert node rec l : Rec_NodeName rec = node → record_in node (upsert_record rec l) = rec.
Proof.
  intros Hn. unfold record_in. induction l as [|r l IH]; cbn [upsert_record find_first].
  - by rewrite bool_decide_eq_true_2.
  - case_bool_decide as E; cbn [find_first]; [by rewrite bool_decide_eq_true_2|].
    rewrite bool_decide_eq_false_2 by congruence. exact IH.
Qed.

Lemma record_in_name node l : Rec_CordonedByPolicy (record_in node l) = true → Rec_NodeName (record_in node l) = node.
Proof.
  unfold record_in. destruct (find_first _ _) as [r|] eqn:Ef; [|done]. intros _.
  apply find_first_Some in Ef as (?&?&_&Hp&_). by bool_prop.
Qed.

Section Conj.
Context {W : Type} `{UpgradeAPI W, PartitionAPI W, PartitionSeams W, Clock W}.
Lemma safe_and {A} (I J : W → Prop) (m : M W A) : safe I m → safe J m → safe (λ w, I w ∧ J w) m.
Proof. intros HI HJ w [? ?]. split; [by apply HI|by apply HJ]. Qed.
#[export] Instance PReadOnly_and (I J : W → Prop) : PReadOnly I → PReadOnly J → PReadOnly (λ w, I w ∧ J w).
Proof.
  intros HI HJ. split; [split; intros; destruct_and!; split; by first
    [apply ro_node_get|apply ro_report_get|apply ro_dus_list|apply ro_pod_list|apply ro_pod_get|apply ro_deployment_list
    |apply ro_deployment_get|apply ro_daemonset_get|apply ro_job_get|apply ro_claim_list|apply ro_clock]|..].
  - apply safe_and; apply pro_node_list.
  - intros. apply safe_and; apply pro_observe.
  - intros. apply safe_and; by apply pro_allocatable.
Qed.
End Conj.

Section Effects.
Context {W : Type} `{UpgradeAPI W, PartitionAPI W, MpsAPI W, PartitionSeams W, Clock W} `{Environment, Requirements}.
Context (ns uid node : string) `{JL : !JournalLaws uid}.
Context (I : W → Prop) `{HI : !PReadOnly I}.
Context (Hmay : ∀ wr w, I w → may_write uid node (record_in node (journal w)) wr → I (psend wr w)).
Notation P := (Pass W).

(** [I], while the server holds the journal [j]. *)
Definition Ij (j : list ApplyRecord) (w : W) : Prop := I w ∧ journal w = j.
#[local] Instance Ij_read j : PReadOnly (Ij j).
Proof. apply PReadOnly_and; [done|apply journal_read]. Qed.
Lemma Ij_ro j : ReadOnly (Ij j).
Proof. apply _. Qed.
#[local] Hint Resolve Ij_ro : safe.
Definition stored_in (j : list ApplyRecord) : ApplyRecord := record_in node j.
Lemma Ij_cluster j wr : may_write uid node (stored_in j) (PCluster wr) → sends (Ij j) wr.
Proof. intros Hw w [HIw <-]. split; [by apply (Hmay (PCluster wr))|by apply journal_cluster]. Qed.
Lemma Ij_exec j opID h steps : may_write uid node (stored_in j) (PExec opID h node steps) → safe (Ij j) (run_steps opID h node steps).
Proof.
  intros Hw w [HIw Hj]. unfold wp. subst j. split; [by apply (Hmay (PExec opID h node steps))|by apply journal_exec].
Qed.
Lemma Ij_metric j v m r : safe (Ij j) (record_acpp_apply v m r).
Proof. intros w [HIw Hj]. unfold wp. subst j. split; [apply (Hmay (PMetric v m r)); [done|apply may_count]|by apply journal_metric]. Qed.

(** ** The cluster *)

Lemma safe_ignoring_not_found (J : W → Prop) m : safe J m → safe J (ignoring_not_found m).
Proof. intros Hm. unfold ignoring_not_found. safe_step; [by apply safe_try|]. safe_tac. Qed.
Lemma safe_ignoring_already_exists (J : W → Prop) m : safe J m → safe J (ignoring_already_exists m).
Proof. intros Hm. unfold ignoring_already_exists. safe_step; [by apply safe_try|]. safe_tac. Qed.
Lemma safe_lock j : safe (Ij j) (ensureNodeOwnerLockUID node uid).
Proof.
  unfold ensureNodeOwnerLockUID. generalize 3%nat as k. induction k as [|k IH]; simpl; [safe_tac|].
  safe_step; [safe_tac|].
  safe_step; [safe_tac|]. safe_step; [safe_tac|]. bool_prop. safe_step; [|safe_step; [safe_tac|safe_step; [exact IH|safe_tac]]].
  apply safe_try. eapply safe_send; [apply (Ij_cluster j (WNode a (lock_patch uid a)))|done]. by constructor.
Qed.
Lemma safe_restart_plugin j : Rec_OwnerUID (stored_in j) = uid → safe (Ij j) (restartNvidiaDevicePlugin node).
Proof.
  intros Ho. unfold restartNvidiaDevicePlugin. safe_step; [safe_tac|]. safe_step. safe_step; [|safe_tac].
  apply safe_ignoring_not_found. eapply safe_send; [apply (Ij_cluster j (WPodDelete x))|done]. by apply may_restart.
Qed.
Lemma safe_sync_label j active :
  Rec_OwnerUID (stored_in j) = uid → (active = true → Rec_MigPhase (stored_in j) = MigPhaseApplying) →
  safe (Ij j) (syncMigActiveLabel node active).
Proof.
  intros Ho Hp. unfold syncMigActiveLabel. safe_step; [safe_tac|]. safe_step; [safe_tac|]. safe_step.
  - destruct active; [safe_tac|]. unfold migModeFullyRestoredFor. safe_tac.
  - safe_step; [safe_tac|]. eapply safe_send; [apply (Ij_cluster j (WNode a (label_patch active a)))|done]. by apply may_label.
Qed.
Lemma safe_cancel_reboot j : safe (Ij j) (deleteAcppRebootJob node).
Proof.
  unfold deleteAcppRebootJob. apply safe_ignoring_not_found.
  eapply safe_send; [apply (Ij_cluster j (WJobDelete (AcppRebootJobName node)))|done]. apply may_cancel.
Qed.
Lemma safe_uncordon j : Rec_CordonedByPolicy (stored_in j) = true → safe (Ij j) (Uncordon node).
Proof. intros Hc. apply safe_Uncordon; [apply _|]. intros wr Hwr. by apply Ij_cluster, may_uncordon. Qed.
Definition quiescing (rec : ApplyRecord) : Prop := Rec_OwnerUID rec = uid ∧ Rec_MigPhase rec = MigPhaseQuiescing.
Lemma quiesce_sends j wr : quiescing (stored_in j) → quiesce_write NvidiaQuiescer node wr → sends (Ij j) wr.
Proof. intros [? ?] Hwr. by apply Ij_cluster, may_quiesce. Qed.
Lemma safe_hardware_check j devs : safe (Ij j) (CheckHardwareChange node devs).
Proof. unfold CheckHardwareChange. safe_step; [safe_tac|]. safe_step; [apply safe_pods_on; apply _|safe_tac]. Qed.
Lemma safe_verify j b t : Nv_verifier b = hardware_verifier → safe (Ij j) (Verify b t).
Proof.
  intros Hv. unfold Verify. rewrite Hv. destruct hardware_verifier as [v|] eqn:E; [|safe_tac]. by apply pro_allocatable.
Qed.

(** ** Passes *)

(** A relation between the record in hand and the stored one. *)
Notation Rel := (ApplyRecord → ApplyRecord → Prop).
Definition St (K : Rel) (s : P) : Prop :=
  I (Ps_world s) ∧ Acpp_UID (Ps_acpp s) = uid ∧ K (getApplyRecord (Ps_acpp s) node) (record_in node (journal (Ps_world s))).
Definition ends {A} (_ : A) (s : P) : Prop := I (Ps_world s).
(** The two records say the same of the owner, the devices and the cordon. *)
Definition agree (a b : ApplyRecord) : Prop :=
  Rec_OwnerUID a = Rec_OwnerUID b ∧ Rec_GPUPCIs a = Rec_GPUPCIs b ∧ Rec_CordonedByPolicy a = Rec_CordonedByPolicy b.
(** The same record, with a property. *)
Definition same (X : ApplyRecord → Prop) : Rel := λ a b, a = b ∧ X a.

Lemma agree_refl a : agree a a.
Proof. by split_and!. Qed.
#[local] Hint Resolve agree_refl : core.

Lemma St_mono (K K' : Rel) s : St K s → (∀ a b, K a b → K' a b) → St K' s.
Proof. intros (?&?&?) HK. split_and!; auto. Qed.
Lemma wp_call {A} (K : Rel) (m : M W A) Q s :
  (∀ j a, K a (stored_in j) → safe (Ij j) m) → St K s → (∀ r s', St K s' → Ps_acpp s' = Ps_acpp s → Q r s') → wp (api m) Q s.
Proof.
  intros Hm (HIs&Hu&HK) HQ. unfold api. apply wp_zoom.
  assert (Hsafe := Hm _ _ HK (Ps_world s) (conj HIs eq_refl)). eapply wp_mono; [exact Hsafe|].
  intros r w' [HI' Hj]. apply HQ; [|done]. split_and!; [done|done|]. cbn [Ps_acpp Ps_world]. by rewrite Hj.
Qed.
Lemma wp_read {A} (K : Rel) (m : M W A) Q s :
  (∀ j, safe (Ij j) m) → St K s → (∀ r s', St K s' → Ps_acpp s' = Ps_acpp s → Q r s') → wp (api m) Q s.
Proof. intros Hm. apply wp_call. intros j _ _. apply Hm. Qed.
Lemma wp_check {A} (m : M P A) ts (k : A → M P Outcome) Q s :
  wp m (λ r s', match r with inl a => wp (k a) Q s' | inr e => Q (inl (ts, Some e)) s' end) s → wp (check m ts k) Q s.
Proof.
  intros Hm. unfold check. apply wp_bind, wp_try. eapply wp_mono; [exact Hm|]. by intros [a|e] s'.
Qed.
Lemma wp_logged {A} (m : M P A) (Q : () + GoErr → P → Prop) s : wp m (λ _ s', Q (inl ()) s') s → wp (logged m) Q s.
Proof. intros Hm. unfold logged. apply wp_bind, wp_try. eapply wp_mono; [exact Hm|]. by intros r s' ?. Qed.
Lemma wp_now (K : Rel) Q s :
  St K s → (∀ now s', St K s' → Ps_acpp s' = Ps_acpp s → Q (inl now) s') → wp (api read_clock) Q s.
Proof.
  intros (HIs&Hu&HK) HQ. unfold wp, api, zoom, read_clock.
  assert (Hr := ro_clock (I := Ij (journal (Ps_world s))) (Ps_world s) (conj HIs eq_refl)).
  destruct (time_now (Ps_world s)) as [t w']. destruct Hr as [HI' Hj]. cbn in HI', Hj.
  change (Q (inl t) (mkPass (Ps_acpp s) (Ps_ec s) w')). apply HQ; [|done].
  split_and!; [done|done|]. cbn [Ps_acpp Ps_world]. by rewrite Hj.
Qed.
Lemma wp_cond (K : Rel) ts c st reason msg Q s :
  St K s → (∀ ts' s', St K s' → Ps_acpp s' = Ps_acpp s → Q (inl ts') s') → wp (setCond ts c st reason msg) Q s.
Proof.
  intros HS HQ. unfold setCond. apply wp_bind, wp_gets. cbv beta iota. apply wp_bind.
  apply (wp_now K); [done|]. intros now s' HS' E. by apply wp_ret, HQ.
Qed.
(** A status with a condition ends the function. *)
Lemma wp_stop (K : Rel) {A} ts phase c st reason msg (k : TargetStatus → A) s :
  St K s → wp (ts' ← at_phase ts phase c st reason msg; mret (k ts')) ends s.
Proof.
  intros HS. apply wp_bind. unfold at_phase. apply (wp_cond K); [done|]. intros ts' s' (?&_) _. by apply wp_ret.
Qed.

(** Patching the record of the node. *)
Lemma wp_patch (K : Rel) rec Q s :
  St K s → Rec_NodeName rec = node →
  (∀ s', St (λ a b, a = rec ∧ b = rec) s' → Q (inl ()) s') →
  (∀ e s' old, St (λ a b, a = rec ∧ (b = rec ∨ b = old)) s' → K (getApplyRecord (Ps_acpp s) node) old → Q (inr e) s') →
  wp (patchApplyRecord rec) Q s.
Proof.
  intros (HIs&Hu&HK) Hn Hok Herr. unfold patchApplyRecord, patch_status. apply wp_bind, wp_gets. cbv beta iota.
  apply wp_bind. unfold set_acpp at 1. apply wp_modify. cbv beta iota. apply wp_bind. unfold api. apply wp_zoom. cbn [Ps_world Ps_acpp Ps_ec].
  set (base := Ps_acpp s) in *. set (p := acpp_ApplyRecords (upsert_record rec (Acpp_ApplyRecords base)) base).
  assert (HI' : I (acpp_status_patch base p (Ps_world s)).2).
  { apply (Hmay (PPolicyPatch base p) (Ps_world s) HIs). by apply may_journal. }
  unfold wp. destruct (acpp_status_patch base p (Ps_world s)) as [r w'] eqn:E. cbn [fst snd] in *.
  apply journal_patch in E. destruct r as [q|e].
  - destruct E as (Ej&Eq&Eu). unfold set_acpp, modify. cbn [fst snd Ps_acpp Ps_world Ps_ec]. apply Hok. split_and!; cbn [Ps_acpp Ps_world].
    + done.
    + by rewrite Eu.
    + unfold getApplyRecord. fold (record_in node (Acpp_ApplyRecords q)). rewrite Eq. by apply record_in_upsert.
    + rewrite Ej. by apply record_in_upsert.
  - apply (Herr e _ (record_in node (journal (Ps_world s)))); [|done]. split_and!; cbn [Ps_acpp Ps_world].
    + done.
    + done.
    + by apply record_in_upsert.
    + destruct E as [->| ->]; [left|by right]. by apply record_in_upsert.
Qed.

(** ** The steps of a pass *)

Definition Any : Rel := λ _ _, True.
Lemma St_any K s : St K s → St Any s.
Proof. intros HS. by eapply St_mono. Qed.
Lemma St_same a s : St (λ x y, x = a ∧ y = a) s → St (same (λ x, x = a)) s.
Proof. intros HS. eapply St_mono; [done|]. by intros x y [-> ->]. Qed.
Lemma wp_phase (K : Rel) ph Q s :
  let rec := rec_MigPhase ph (rec_NodeName node (getApplyRecord (Ps_acpp s) node)) in
  St K s → (∀ s', St (same (λ a, a = rec)) s' → Q (inl ()) s') → (∀ e s', St Any s' → Q (inr e) s') →
  wp (setRecordPhase node ph) Q s.
Proof.
  intros rec HS Hok Herr. unfold setRecordPhase. apply wp_bind, wp_gets. cbv beta iota. apply (wp_patch K); [done..| |].
  - intros s' HS'. by apply Hok, St_same.
  - intros e s' old HS' _. by eapply Herr, St_any.
Qed.
(** The owner is recorded, and the stored phase is one of these. *)
Definition owned_in (X : string → Prop) : Rel := λ a b, agree a b ∧ Rec_OwnerUID b = uid ∧ X (Rec_MigPhase b).
Lemma wp_logged_phase X ph (Q : () + GoErr → P → Prop) s :
  St (owned_in X) s → X ph → (∀ s', St (owned_in X) s' → Q (inl ()) s') → wp (logged (setRecordPhase node ph)) Q s.
Proof.
  intros HS HX HQ. apply wp_logged. unfold setRecordPhase. apply wp_bind, wp_gets. cbv beta iota.
  assert (Hin := proj2 (proj2 HS)). destruct Hin as ((Ho&Hp&Hc)&Hu&_). apply (wp_patch (owned_in X)); [done..| |].
  - intros s' HS'. apply HQ. eapply St_mono; [done|]. intros a b [-> ->]. split_and!; [done|cbn; congruence|done].
  - intros e s' old HS' ((Ho'&Hp'&Hc')&Hu'&HX'). apply HQ. destruct HS' as (?&?&Ha&Hb). split_and!; [done|done|].
    rewrite Ha. destruct Hb as [-> | ->]; split_and!; try done; cbn; congruence.
Qed.

Definition set_quiescing (targets : list MigDevice) (rec : ApplyRecord) : ApplyRecord :=
  rec_MigPhase MigPhaseQuiescing (rec_GPUPCIs (targetPCIs targets) (rec_OwnerUID uid (rec_NodeName node rec))).
Lemma wp_cordonForApply (K : Rel) targets Q s :
  St K s →
  (∀ s', St (same (λ a, quiescing a ∧ Rec_GPUPCIs a = targetPCIs targets
                       ∧ Rec_RebootAttempts a = Rec_RebootAttempts (getApplyRecord (Ps_acpp s) node))) s' → Q (inl ()) s') →
  (∀ e s', St Any s' → Q (inr e) s') → wp (cordonForApply node targets) Q s.
Proof.
  intros HS Hok Herr. unfold cordonForApply, journalQuiescing. apply wp_bind, wp_bind, wp_gets. cbv beta iota.
  set (rec0 := getApplyRecord (Ps_acpp s) node) in *.
  assert (Hrest : ∀ c s1, St K s1 → Ps_acpp s1 = Ps_acpp s →
    wp (patchApplyRecord (rec_MigPhase MigPhaseQuiescing (rec_GPUPCIs (targetPCIs targets)
          (rec_OwnerUID (Acpp_UID (Ps_acpp s)) (rec_NodeName node c)))))
      (λ r s', match r with inl _ => wp (api (Cordon node)) Q s' | inr e => Q (inr e) s' end) s1 ∨ Rec_RebootAttempts c ≠ Rec_RebootAttempts rec0).
  { intros c s1 HS1 _. destruct (decide (Rec_RebootAttempts c = Rec_RebootAttempts rec0)) as [Ec|]; [left|by right].
    replace (Acpp_UID (Ps_acpp s)) with uid by (symmetry; apply HS). fold (set_quiescing targets c).
    apply (wp_patch K); [done..| |].
    - intros s' HS'. cbv beta iota. eapply (wp_call (same (λ x, x = set_quiescing targets c))); [|by apply St_same|].
      + intros j a [Ea Es]. apply (safe_Cordon NvidiaQuiescer); [apply _|]. intros wr. apply quiesce_sends. by rewrite <-Ea, Es.
      + intros [[]|e] s2 HS2 _; [|by eapply Herr, St_any]. apply Hok. eapply St_mono; [done|]. intros a b [-> ->].
        split; [done|]. by split_and!.
    - intros e s' old HS' _. by eapply Herr, St_any. }
  destruct (isMigModeEnablePhase (Rec_MigPhase rec0)).
  - apply wp_bind, wp_ret. cbv beta iota. by destruct (Hrest rec0 s HS eq_refl).
  - apply wp_bind, wp_bind. apply (wp_read K); [intros; apply safe_node_get; apply _|done|].
    intros [n|e] s' HS' E; [|by eapply Herr, St_any]. apply wp_ret. cbv beta iota.
    by destruct (Hrest (rec_CordonedByPolicy (negb (Node_Unschedulable n)) rec0) s' HS' E).
Qed.

Lemma wp_restoreSchedulable Q s : St agree s → (∀ r s', St Any s' → Q r s') → wp (restoreSchedulable node) Q s.
Proof.
  intros HS HQ. unfold restoreSchedulable. destruct (bool_decide (node = "")); [by apply wp_ret; eapply HQ, St_any|].
  apply wp_bind. apply (wp_read agree); [intros; apply safe_cancel_reboot|done|].
  intros [[]|e] s1 HS1 _; [|by eapply HQ, St_any]. apply wp_bind, wp_gets. cbv beta iota.
  destruct (Rec_CordonedByPolicy _) eqn:Ec; [|by apply wp_ret; eapply HQ, St_any]. cbn [negb].
  set (rec := getApplyRecord (Ps_acpp s1) node) in *. apply wp_bind.
  eapply (wp_call (λ a b, agree a b ∧ Rec_CordonedByPolicy a = true)).
  - intros j a [(_&_&Hc) Ha]. apply safe_uncordon. congruence.
  - destruct HS1 as (?&?&?). by split_and!.
  - intros [[]|e] s2 HS2 _; [|by eapply HQ, St_any].
    eapply (wp_patch _); [exact HS2|by apply record_in_name|intros ? HS'|intros ? ? ? HS' _]; by eapply HQ, St_any.
Qed.

(** ** Turning the mode on *)

Definition may_reboot_again (rec : ApplyRecord) : Prop :=
  Rec_OwnerUID rec = uid ∧ Rec_MigPhase rec = MigPhaseRebootRequested ∧ is_int32 (Rec_RebootAttempts rec)
  ∧ Rec_RebootAttempts rec < maxMigRebootAttempts.
Lemma attempts_bound z : is_int32 z → z < maxMigRebootAttempts → wrap32 (z + 1) <= maxMigRebootAttempts.
Proof.
  intros Hz Hlt. unfold maxMigRebootAttempts in *. rewrite wrap32_id; [lia|].
  unfold is_int32, min_int32, max_int32 in *. lia.
Qed.
Lemma wp_ensureAcppRebootJob (Q : () + GoErr → P → Prop) s :
  St (same may_reboot_again) s → (∀ r s', St agree s' → Q r s') → wp (ensureAcppRebootJob ns node) Q s.
Proof.
  intros HS HQ. assert (Hag : ∀ s', St (same may_reboot_again) s' → St agree s').
  { intros s' HS'. eapply St_mono; [done|]. by intros a b [-> _]. }
  unfold ensureAcppRebootJob, unless_job. apply wp_bind, wp_try.
  apply (wp_read (same may_reboot_again)); [intros; apply safe_job_get; apply _|done|].
  intros [j|e] s1 HS1 _; cbv beta iota; [by apply wp_ret, HQ, Hag|].
  destruct (is_not_found e); [|by apply wp_throw, HQ, Hag].
  destruct (bool_decide (HostExecImage = "")); [by apply wp_throw, HQ, Hag|].
  apply wp_bind, wp_gets. cbv beta iota. apply wp_bind.
  destruct HS1 as (HI1&Hu1&Heq&Ho&Hp&Hi&Hlt). set (cur := getApplyRecord (Ps_acpp s1) node) in *.
  set (rec := rec_RebootAttempts _ _). apply (wp_patch (same (λ a, a = cur))); [by split_and!|done|..].
  - intros s2 HS2. cbv beta iota. apply wp_bind, wp_gets. cbv beta iota.
    eapply (wp_call (same (λ a, a = rec))); [|by apply St_same|].
    + intros j a [Ea Er]. apply safe_ignoring_already_exists.
      apply (safe_send _ _ (WJobCreate (acpp_reboot_job ns node (Ps_acpp s2)))); [|done]. apply Ij_cluster.
      rewrite <-Ea, Er. apply may_reboot; [exact Ho|exact Hp| |done]. by apply attempts_bound.
    + intros r s3 HS3 _. apply HQ. eapply St_mono; [done|]. intros a b [-> _]. apply agree_refl.
  - intros e' s2 old HS2 [<- _]. apply HQ. eapply St_mono; [done|]. intros a b [-> [-> | ->]]; [apply agree_refl|by split_and!].
Qed.

Lemma mode_targets_in mode devs : omap (in_mode mode) devs ⊆ targetPCIs devs.
Proof.
  intros p (d&Hd&Ed)%list_elem_of_omap. unfold in_mode in Ed. apply list_elem_of_fmap. exists d. split; [|done].
  destruct (bool_decide _ && _); [by injection Ed|done].
Qed.
Definition inited (rec : ApplyRecord) : Prop := is_int32 (Rec_RebootAttempts rec).
(** Whether the pass goes on, with the records the same; else just the end. *)
Definition mode_done (r : (bool * Outcome) + GoErr) (s : P) : Prop :=
  match r with inl (true, _) => St (same (λ _, True)) s | _ => I (Ps_world s) end.
Lemma wp_not_done (m : M P Outcome) s : wp m ends s → wp (not_done m) mode_done s.
Proof. intros Hm. unfold not_done. apply wp_fmap. eapply wp_mono; [exact Hm|]. by intros [o|e] s'. Qed.
Lemma wp_give_back ts phase c st reason msg (k : TargetStatus → Outcome) s : St agree s →
  wp (_ ← logged (restoreSchedulable node); ts ← at_phase ts phase c st reason msg; mret (k ts)) ends s.
Proof.
  intros HS. apply wp_bind, wp_logged. apply wp_restoreSchedulable; [done|]. intros _ s1 HS1. cbv beta iota.
  by apply (wp_stop Any).
Qed.
Lemma wp_mode_settled ts s : St (same inited) s → wp (mode_settled node ts) mode_done s.
Proof.
  intros HS. unfold mode_settled. apply wp_bind, wp_gets. cbv beta iota. set (cur := getApplyRecord (Ps_acpp s) node).
  assert (Hs : ∀ s', St (same inited) s' → St (same (λ _, True)) s') by (intros; eapply St_mono; [done|]; by intros ? ? [-> _]).
  destruct (_ || _); [|apply wp_ret; by apply Hs]. apply wp_bind, wp_try. apply (wp_patch (same inited)); [done| | |].
  - by destruct (isMigModeEnablePhase _).
  - intros s' HS'. cbv beta iota. apply wp_ret. cbn [mode_done]. eapply St_mono; [done|]. by intros a b [-> ->].
  - intros e s' old (HI'&_) _. cbv beta iota. apply wp_not_done. by apply wp_ret.
Qed.
Lemma wp_enable_mode t devs ts s : T_NodeName t = node →
  St (same (λ a, quiescing a ∧ Rec_GPUPCIs a = targetPCIs devs)) s → wp (enable_mode t devs ts) ends s.
Proof.
  intros Ht HS. unfold enable_mode. rewrite Ht. apply wp_bind, wp_gets. cbv beta iota zeta.
  destruct (OperationID _ _ _ _ _) as [opID h]. apply wp_check.
  destruct HS as (HI1&Hu1&Heq&[Ho Hp]&Hg). apply (wp_phase (same (λ a, a = getApplyRecord (Ps_acpp s) node))); [by split_and!| |].
  - intros s1 HS1. cbv beta iota. set (rec := rec_MigPhase _ _) in HS1. apply wp_bind, wp_try.
    eapply (wp_call (same (λ a, a = rec))); [|done|].
    + intros j a [Ea Er]. apply Ij_exec. apply may_enable; rewrite <-Ea, Er; [done|done|].
      change (Rec_GPUPCIs rec) with (Rec_GPUPCIs (getApplyRecord (Ps_acpp s) node)). rewrite Hg. apply mode_targets_in.
    + intros [[]|e] s2 HS2 _; cbv beta iota; [by apply (wp_stop (same (λ a, a = rec)))|].
      apply wp_give_back. eapply St_mono; [done|]. by intros a b [-> _].
  - intros e s1 (HI2&_). by cbv beta iota.
Qed.
Lemma wp_quiesce_for_mode t devs ts s : T_NodeName t = node → St (same inited) s → wp (quiesce_for_mode t devs ts) ends s.
Proof.
  intros Ht HS. unfold quiesce_for_mode. rewrite Ht. apply wp_check. apply (wp_cordonForApply (same inited)); [done| |by intros e s1 (?&_)].
  intros s1 HS1. cbv beta iota. set (X := λ a, quiescing a ∧ Rec_GPUPCIs a = targetPCIs devs).
  assert (HX : St (same X) s1) by (eapply St_mono; [done|]; intros a b (->&?&?&_); by split_and!).
  apply wp_check. apply (wp_call (same X)); [|done|].
  { intros j a [Ea Hq]. apply safe_Evict; [apply _|]. intros wr. apply quiesce_sends. rewrite <-Ea. apply Hq. }
  intros [n|e] s2 HS2 _; cbv beta iota; [|by destruct HS2]. apply wp_bind, wp_try.
  apply (wp_read (same X)); [intros; apply safe_AssertQuiesced; apply _|done|].
  intros [[]|e] s3 HS3 _; cbv beta iota; [by apply wp_enable_mode|by apply (wp_stop (same X))].
Qed.
Lemma wp_reboot_for_mode t devs ts s : T_NodeName t = node → St (same inited) s → wp (reboot_for_mode ns t devs ts) ends s.
Proof.
  intros Ht HS. unfold reboot_for_mode. rewrite Ht. apply wp_bind, wp_gets. cbv beta iota.
  set (cur := getApplyRecord (Ps_acpp s) node). destruct (maxMigRebootAttempts <=? Rec_RebootAttempts cur) eqn:Emax.
  { apply wp_give_back. eapply St_mono; [done|]. by intros a b [-> _]. }
  bool_prop. assert (Hini : inited cur) by apply HS. apply wp_check.
  apply (wp_cordonForApply (same inited)); [done| |by intros e s1 (?&_)].
  intros s1 HS1. cbv beta iota. apply wp_check. destruct HS1 as (HI1&Hu1&Heq&[Ho _]&_&Hr).
  apply (wp_phase (same (λ a, a = getApplyRecord (Ps_acpp s1) node))); [by split_and!| |by intros e s2 (?&_)].
  intros s2 HS2. cbv beta iota. apply wp_bind, wp_try. apply wp_ensureAcppRebootJob.
  { eapply St_mono; [done|]. intros a b [-> ->]. split; [done|]. unfold may_reboot_again. cbn. rewrite Hr. by split_and!. }
  intros [[]|e] s3 HS3; cbv beta iota; [|by apply wp_give_back].
  apply wp_check. apply (wp_phase agree); [done| |by intros e s4 (?&_)]. intros s4 HS4. cbv beta iota. by eapply wp_stop.
Qed.
Lemma wp_ensureMigModeEnabled t devs ts s : T_NodeName t = node →
  St (same inited) s → wp (ensureMigModeEnabled ns t devs ts) mode_done s.
Proof.
  intros Ht HS. unfold ensureMigModeEnabled. rewrite Ht. destruct (_ && _); [by apply wp_mode_settled|].
  destruct (negb (ModeObservable devs)); [apply wp_not_done; by apply (wp_stop (same inited))|].
  apply wp_not_done. destruct (NeedsReboot devs); [by apply wp_reboot_for_mode|by apply wp_quiesce_for_mode].
Qed.

(** ** Applying *)

Definition in_flight (ph : string) : Prop := isApplyInFlightPhase ph = true.
Definition everywhere (_ : string) : Prop := True.
Lemma St_owned (X X' : string → Prop) s : St (owned_in X) s → (∀ ph, X ph → X' ph) → St (owned_in X') s.
Proof. intros HS HX. eapply St_mono; [done|]. intros a b (?&?&?). split_and!; auto. Qed.
Lemma wp_try_read (K : Rel) {A} (m : M W A) Q s :
  (∀ j, safe (Ij j) m) → St K s → (∀ r s', St K s' → Ps_acpp s' = Ps_acpp s → Q (inl r) s') → wp (try (api m)) Q s.
Proof. intros Hm HS HQ. apply wp_try. by apply (wp_read K). Qed.
Lemma wp_ends_cond (K : Rel) ts c st reason msg (k : TargetStatus → Outcome) s :
  St K s → wp (ts' ← setCond ts c st reason msg; mret (k ts')) ends s.
Proof. intros HS. apply wp_bind, (wp_cond K); [done|]. intros ts' s' (?&_) _. by apply wp_ret. Qed.
Lemma wp_ready (K : Rel) ts (k : TargetStatus → Outcome) s : St K s → wp (ts' ← setNvidiaReady ts; mret (k ts')) ends s.
Proof.
  intros HS. apply wp_bind. unfold setNvidiaReady. apply wp_bind. unfold at_phase. apply (wp_cond K); [done|].
  intros ts1 s1 HS1 _. cbv beta iota. apply (wp_cond K); [done|]. intros ts2 s2 (?&_) _. by apply wp_ret.
Qed.

Definition backend_of nvb : Prop := Nv_exec nvb = Some run_steps ∧ Nv_verifier nvb = hardware_verifier.
Lemma safe_rollback j nvb t : backend_of nvb → T_NodeName t = node → Rec_OwnerUID (stored_in j) = uid →
  in_flight (Rec_MigPhase (stored_in j)) → safe (Ij j) (Rollback nvb t).
Proof.
  intros [He _] Ht Ho Hf. unfold Rollback. rewrite He. destruct (targetSelectors nvb) as [|sel sels]; [safe_tac|].
  unfold run_operation. destruct (OperationID _ _ _ _ _) as [opID h]. rewrite Ht. apply Ij_exec. by apply may_undo.
Qed.
Lemma wp_rollback_hardware nvb t ts msg Q s : backend_of nvb → T_NodeName t = node → St (owned_in in_flight) s →
  (∀ ts' s', St (owned_in in_flight) s' → Q (inl ts') s') → wp (rollback_hardware nvb t ts msg) Q s.
Proof.
  intros Hb Ht HS HQ. unfold rollback_hardware. apply wp_bind, wp_try. apply (wp_call (owned_in in_flight)); [|done|].
  { intros j a (_&Ho&Hf). by apply safe_rollback. }
  intros [[]|e] s1 HS1 _; cbv beta iota; apply (wp_cond (owned_in in_flight)); [done| |done|]; intros ts' s' HS' _; by apply HQ.
Qed.
(** The phase of the end, the condition, the outcome. *)
Lemma wp_end_phase ph ts c st reason msg (k : TargetStatus → Outcome) s : St (owned_in everywhere) s →
  wp (_ ← logged (setRecordPhase node ph); ts' ← setCond ts c st reason msg; mret (k ts')) ends s.
Proof.
  intros HS. apply wp_bind. apply (wp_logged_phase everywhere); [done..|]. intros s1 HS1. cbv beta iota. by eapply wp_ends_cond.
Qed.
Lemma wp_end_ready ts s : St (owned_in in_flight) s →
  wp (_ ← logged (setRecordPhase node MigPhaseReady); ts' ← setNvidiaReady ts; finish ts') ends s.
Proof.
  intros HS. apply wp_bind. apply (wp_logged_phase everywhere); [by eapply St_owned|done|]. intros s1 HS1. cbv beta iota.
  by eapply wp_ready.
Qed.

Lemma wp_verifyManaged (K : Rel) nvb t ts rec s : backend_of nvb → St K s → wp (verifyManagedNvidia nvb t ts rec) ends s.
Proof.
  intros [_ Hv] HS. unfold verifyManagedNvidia. apply wp_bind.
  apply (wp_try_read K); [intros; by apply safe_verify|done|]. intros [r|e] s1 HS1 _; cbv beta iota; [|by apply (wp_stop K)].
  destruct (negb _); [by apply (wp_stop K)|by apply (wp_ready K)].
Qed.
Lemma wp_resume nvb t ts rec s : backend_of nvb → T_NodeName t = node → St (owned_in in_flight) s →
  wp (resumeNvidiaRecovery nvb t ts rec) ends s.
Proof.
  intros Hb Ht HS. unfold resumeNvidiaRecovery. rewrite Ht. apply wp_check.
  assert (Hgo : ∀ s1, St (owned_in in_flight) s1 → wp (
     _ ← logged (setRecordPhase node MigPhaseVerifying);
     r ← try (api (Verify (WithExpected (expectedAllocatable rec) nvb) t));
     if negb (verifySucceeded r) then
       ts ← rollback_hardware (WithExpected (expectedAllocatable rec) nvb) t
              (ts_Phase ACPPPhaseRollingBack (ts_Phase ACPPPhaseRestartingDevicePlugin ts)) "partition restored after recovery verify failure";
       _ ← logged (setRecordPhase node MigPhaseRolledBack);
       ts ← setCond ts ACPPCondVerified ConditionFalse "VerificationFailed" "recovery verify failed";
       mret (ts, verify_error r)
     else
       _ ← logged (setRecordPhase node MigPhaseReady);
       ts ← setNvidiaReady (ts_Phase ACPPPhaseRestartingDevicePlugin ts);
       finish ts) ends s1).
  { intros s1 HS1. apply wp_bind. apply (wp_logged_phase in_flight); [done..|]. intros s2 HS2. cbv beta iota.
    apply wp_bind. apply (wp_try_read (owned_in in_flight)); [intros; apply safe_verify, Hb|done|].
    intros r s3 HS3 _. cbv beta iota. destruct (negb _); [|by apply wp_end_ready].
    apply wp_bind, wp_rollback_hardware; [done..|]. intros ts' s4 HS4. cbv beta iota. apply wp_end_phase. by eapply St_owned. }
  case_bool_decide; [|by apply wp_ret, Hgo].
  apply (wp_call (owned_in in_flight)); [intros j a (_&Ho&_); by apply safe_restart_plugin|done|].
  intros [[]|e] s1 HS1 _; [by apply Hgo|by destruct HS1].
Qed.
Lemma wp_undo_apply nvb t ts rb done cond reason msg err s : backend_of nvb → T_NodeName t = node → St (owned_in in_flight) s →
  wp (undo_apply nvb t ts rb done cond reason msg err) ends s.
Proof.
  intros Hb Ht HS. unfold undo_apply. apply wp_bind, wp_gets. cbv beta iota zeta. apply wp_bind.
  apply (wp_read (owned_in in_flight)); [intros; apply Ij_metric|exact HS|]. intros [[]|e] s1 HS1 _; cbv beta iota; [|by destruct HS1].
  apply wp_bind. rewrite Ht.
  assert (Hend : ∀ ts s2, St (owned_in in_flight) s2 → wp (
     _ ← logged (setRecordPhase node MigPhaseRolledBack);
     _ ← logged (api (syncMigActiveLabel node false));
     ts ← setCond ts cond ConditionFalse reason msg;
     mret (ts, err)) ends s2).
  { intros ts' s2 HS2. apply wp_bind. apply (wp_logged_phase everywhere); [by eapply St_owned|easy|]. intros s3 HS3. cbv beta iota.
    apply wp_bind, wp_logged. apply (wp_call (owned_in everywhere)); [intros j a (_&Ho&_); by apply safe_sync_label|exact HS3|].
    intros r s4 HS4 _. cbv beta iota. by eapply wp_ends_cond. }
  destruct rb; [|by apply wp_ret, Hend]. apply wp_rollback_hardware; [easy..|]. intros ts' s2 HS2. by apply Hend.
Qed.
Lemma wp_verify_partition nvb t ts rb s : backend_of nvb → T_NodeName t = node → St (owned_in in_flight) s →
  wp (verify_partition nvb t ts rb) ends s.
Proof.
  intros Hb Ht HS. unfold verify_partition. rewrite Ht. apply wp_bind. apply (wp_logged_phase in_flight); [done..|].
  intros s1 HS1. cbv beta iota zeta. apply wp_check.
  apply (wp_call (owned_in in_flight)); [intros j a (_&Ho&_); by apply safe_restart_plugin|done|].
  intros [[]|e] s2 HS2 _; cbv beta iota; [|by destruct HS2]. apply wp_bind. apply (wp_logged_phase in_flight); [done..|].
  intros s3 HS3. cbv beta iota. apply wp_bind. apply (wp_try_read (owned_in in_flight)); [intros; apply safe_verify, Hb|done|].
  intros r s4 HS4 _. cbv beta iota. destruct (negb _); [by apply wp_undo_apply|by apply wp_end_ready].
Qed.

(** What an apply records stands for the layout it is about to make. *)
Definition records (resolved : list ResolvedEntry) (targets : list MigDevice) (rec : ApplyRecord) : Prop :=
  Rec_NodeName rec = node ∧ Rec_OwnerUID rec = uid
  ∧ ∃ r, resolved = [r] ∧ recorded_specs rec = (λ d, mkGeometrySpec (Md_PCI d) (Re_Profile r) (Re_ExpectedCountPerDevice r)) <$> targets.
Lemma wp_computeBaseline (K : Rel) resolved targets Q s : St K s →
  (∀ rec s', records resolved targets rec → St K s' → Q (inl rec) s') → (∀ e s', St K s' → Q (inr e) s') →
  wp (computeBaseline node resolved targets) Q s.
Proof.
  intros HS Hok Herr. unfold computeBaseline. destruct resolved as [|r [|? ?]]; [by apply wp_throw, Herr| |by apply wp_throw, Herr].
  apply wp_bind. apply (wp_read K); [intros; apply safe_node_get; apply _|done|]. intros [n|e] s1 HS1 _; [|by apply Herr].
  apply wp_bind. apply (wp_try_read K); [intros; apply safe_report_get; apply _|done|]. intros [ndr|e] s2 HS2 _; cbv beta iota zeta;
    [|by apply wp_throw, Herr].
  destruct (_ <? _); [by apply wp_throw, Herr|]. apply wp_bind, wp_gets. cbv beta iota. apply wp_ret, Hok; [|done].
  split_and!; [done|apply HS2|]. exists r. split; [done|]. unfold recorded_specs, targetPCIs. cbn. clear. by induction targets as [|d l IH]; [|cbn; f_equal].
Qed.
Lemma apply_specs_eq (nvb : Backend W) r specs : apply_specs nvb r = Some specs →
  specs = (λ d, mkGeometrySpec (Md_PCI d) (Re_Profile r) (Re_ExpectedCountPerDevice r)) <$> Nv_targets nvb.
Proof.
  unfold apply_specs. revert specs. induction (Nv_targets nvb) as [|d l IH]; intros specs E; [by injection E as <-|].
  apply mapM_Some in E. inversion E as [|? y ? ys E1 E2]; subst. apply mapM_Some in E2.
  rewrite fmap_cons, <-(IH ys E2). case_bool_decide; [done|]. by injection E1 as <-.
Qed.
Lemma safe_apply j nvb t resolved : backend_of nvb → T_NodeName t = node → records resolved (Nv_targets nvb) (stored_in j) →
  Rec_MigPhase (stored_in j) = MigPhaseApplying → safe (Ij j) (Apply nvb t resolved).
Proof.
  intros [He _] Ht (_&Ho&r&->&Hs) Hp. unfold Apply. destruct (apply_specs nvb r) as [specs|] eqn:Es; [|safe_tac].
  apply apply_specs_eq in Es. rewrite <-Es in Hs. rewrite He. safe_step; [|safe_tac]. apply safe_try.
  unfold run_operation. destruct (OperationID _ _ _ _ _) as [opID h]. rewrite Ht, <-Hs. apply Ij_exec. by apply may_apply.
Qed.
Lemma wp_apply_partition (K : Rel) nvb t ts resolved s : backend_of nvb → T_NodeName t = node → St K s →
  wp (apply_partition nvb t ts resolved) ends s.
Proof.
  intros Hb Ht HS. unfold apply_partition. rewrite Ht. apply wp_bind, wp_try. apply (wp_computeBaseline K); [done| |].
  2:{ intros e s1 HS1. cbv beta iota. by apply (wp_stop K). }
  intros rec s1 Hr HS1. cbv beta iota zeta. set (rec' := rec_MigPhase MigPhaseApplying rec).
  assert (Hr' : records resolved (Nv_targets nvb) rec') by exact Hr. apply wp_check.
  apply (wp_patch K); [done|apply Hr'| |by intros e s2 old (?&_)]. intros s2 HS2%St_same. cbv beta iota. apply wp_check.
  apply (wp_call (same (λ a, a = rec'))); [|done|].
  { intros j a [Ea Er]. apply safe_sync_label; intros; rewrite <-Ea, Er; [apply Hr'|done]. }
  intros [[]|e] s3 HS3 _; cbv beta iota; [|by destruct HS3]. apply wp_bind.
  apply (wp_call (same (λ a, a = rec'))); [|exact HS3|].
  { intros j a [Ea Er]. apply safe_apply; [exact Hb|done|rewrite <-Ea, Er..]; done. }
  intros [[rb [e|]]|e] s4 HS4 _; cbv beta iota; [| |by destruct HS4].
  all: assert (HO : St (owned_in in_flight) s4)
    by (eapply St_mono; [done|]; intros a b [-> ->]; split; [apply agree_refl|split; [apply Hr'|done]]).
  - by apply wp_undo_apply.
  - by apply wp_verify_partition.
Qed.
Lemma wp_hw_gate (K : Rel) t targets ts k s : T_NodeName t = node → St K s → (∀ s', St Any s' → wp k ends s') →
  wp (hw_gate t targets ts k) ends s.
Proof.
  intros Ht HS Hk. unfold hw_gate. rewrite Ht. apply wp_check.
  apply (wp_read K); [intros; apply safe_hardware_check|done|]. intros [hw|e] s1 HS1 _; cbv beta iota zeta; [|by destruct HS1].
  set (lock := negb _ && _ && _). apply wp_check.
  assert (Hgo : ∀ s2, St Any s2 → wp (match nvidiaHWBlock (if lock then hw_NodeCordoned true hw else hw) with
    | Some (reason, msg) => ts ← not_applied ts ACPPPhaseWaitingForDrain reason msg; finish ts | None => k end) ends s2).
  { intros s2 HS2. destruct (nvidiaHWBlock _) as [[reason msg]|]; [by apply (wp_stop Any)|by apply Hk]. }
  destruct lock; [|apply wp_ret; by eapply Hgo, St_any].
  apply (wp_cordonForApply K); [done| |by intros e s2 (?&_)]. intros s2 HS2. by eapply Hgo, St_any.
Qed.

(** ** The pass *)

Lemma wp_change_partition (K : Rel) nvb t ts rec resolved s : backend_of nvb → T_NodeName t = node → St K s →
  wp (change_partition nvb t ts rec resolved) ends s.
Proof.
  intros Hb Ht HS. unfold change_partition. apply wp_bind, wp_gets. cbv beta iota. destruct (_ && _).
  - apply wp_bind. unfold carryRollbackFailure. apply wp_bind, wp_gets. cbv beta iota.
    destruct (_ ≫= _) as [rb|]; [|apply wp_ret; by eapply wp_ends_cond].
    unfold at_phase. apply (wp_cond K); [done|]. intros ts' s1 HS1 _. cbv beta iota. by eapply wp_ends_cond.
  - destruct (isApplyInFlightPhase _); [by apply (wp_apply_partition K)|].
    apply (wp_hw_gate K); [done..|]. intros s1 HS1. by apply (wp_apply_partition Any).
Qed.
Lemma wp_reach_layout nvb t ts s : backend_of nvb → T_NodeName t = node → St (same (λ _, True)) s →
  wp (reach_layout nvb t ts) ends s.
Proof.
  intros Hb Ht HS. unfold reach_layout. rewrite Ht. apply wp_bind, wp_gets. cbv beta iota. apply wp_bind, wp_gets. cbv beta iota.
  destruct (resolveNvidia _) as [resolved status]. cbv zeta. apply wp_bind.
  set (t' := t_Generation _ t). assert (Ht' : T_NodeName t' = node) by exact Ht. clearbody t'.
  set (rec := getApplyRecord (Ps_acpp s) node). unfold routeNvidiaNoDiff.
  set (Q := λ r s', _). assert (Hgo : ∀ s', St Any s' → Q (inl None) s') by (intros; by apply (wp_change_partition Any)).
  assert (Hstop : ∀ (m : M P Outcome), wp m ends s → wp (Some <$> m) Q s).
  { intros m Hm. apply wp_fmap. eapply wp_mono; [exact Hm|]. by intros [o|e] s'; [intros; apply wp_ret|]. }
  destruct (Diff_Changed _); [by eapply wp_ret, Hgo, St_any|]. apply wp_bind, wp_gets. cbv beta iota zeta.
  destruct (_ && recMatches _ _ _); [by apply Hstop, (wp_verifyManaged (same (λ _, True)))|].
  destruct (bool_decide (Rec_OwnerUID _ = _) && _) eqn:Eo.
  { apply Hstop, wp_resume; [done..|]. bool_prop. destruct HS as (?&Hu&Heq&_). split_and!; [done..|rewrite <-Heq].
    split; [apply agree_refl|]. split; [by etrans|done]. }
  destruct (isMigModeEnablePhase _); [by eapply wp_ret, Hgo, St_any|].
  destruct (bool_decide (Rec_MigPhase rec = MigPhaseRolledBack)); [by eapply wp_ret, Hgo, St_any|].
  apply wp_bind. unfold at_phase. apply (wp_cond (same (λ _, True))); [done|]. intros ts' s1 (?&_) _. cbv beta iota.
  apply wp_ret. unfold Q. cbv beta iota. by apply wp_ret.
Qed.
Lemma wp_runNvidiaTarget nvb t ts s : backend_of nvb → T_NodeName t = node → St (same inited) s →
  wp (runNvidiaTarget ns nvb t ts) ends s.
Proof.
  intros Hb Ht HS. unfold runNvidiaTarget. destruct (nvidiaAlwaysBlock _) as [[reason msg]|]; [by apply (wp_stop (same inited))|].
  apply wp_bind, wp_gets. cbv beta iota. apply wp_check. rewrite Ht. replace (Acpp_UID (Ps_acpp s)) with uid by (symmetry; apply HS).
  apply (wp_read (same inited)); [intros; apply safe_lock|done|]. intros [owned|e] s1 HS1 _; cbv beta iota; [|by destruct HS1].
  destruct owned; cbn [negb]; [|by apply (wp_stop (same inited))].
  apply wp_bind. eapply wp_mono; [by apply wp_ensureMigModeEnabled|]. intros [[[] out]|e] s2 Hm; cbn in Hm |- *; [|by apply wp_ret|done].
  by apply wp_reach_layout.
Qed.
End Effects.

(** ** What a pass over a MIG policy may do, as theorems

    [runNvidiaTarget_effects] closes the lemmas of [PartitionEffects] and runs them at
    the site of [PartitionSpec]. *)


(** C9. Whatever a pass over a MIG policy meets, everything it writes is allowed by the
    journal the API server holds at that moment: the partitions it creates are the ones
    recorded under this policy's name in phase Applying, [-mig 1] goes to recorded
    devices in phase ModeEnabling, at most two reboots are asked for and only once
    recorded, the node is cordoned and emptied only after that intent is recorded and
    released only when the record says this policy cordoned it, the layout is only
    destroyed while an apply of this policy is in flight, and a lock is only taken of a
    node that has none.  So any property of the world that these writes keep holds after
    the pass. *)
Theorem runNvidiaTarget_effects {W} `{UpgradeAPI W, PartitionAPI W, PartitionSeams W, Clock W} `{Environment, Requirements}
    ns uid node (JL : JournalLaws uid) (I : W → Prop) (nvb : Backend W) t ts (s : Pass W) :
  PReadOnly I →
  (∀ wr w, I w → may_write uid node (record_in node (journal w)) wr → I (psend wr w)) →
  Nv_exec nvb = Some run_steps → Nv_verifier nvb = hardware_verifier → T_NodeName t = node →
  Acpp_UID (Ps_acpp s) = uid → getApplyRecord (Ps_acpp s) node = record_in node (journal (Ps_world s)) →
  is_int32 (Rec_RebootAttempts (getApplyRecord (Ps_acpp s) node)) → I (Ps_world s) →
  wp (runNvidiaTarget ns nvb t ts) (λ _ s', I (Ps_world s')) s.
Proof.
  intros HI Hmay He Hv Ht Hu Hj Hi HIs. by eapply wp_runNvidiaTarget.
Qed.
(** A pass that cordons the node, applies the layout, fails to see it and undoes it. *)
Lemma runNvidiaTarget_effects_witness :
  let s := demo_pass [] false in
  let m := runNvidiaTarget "operator" (demo_backend modeEnabled "") demo_target demo_ts in
  wp m (λ _ s', log_allowed "uid-acpp" (Ps_world s')) s
  ∧ kinds (m s).2 = ["node"; "journal"; "node"; "journal"; "node"; "exec"; "journal"; "journal"; "metric"; "exec"; "journal"; "node"].
Proof.
  intros s m. split; [|vm_compute; reflexivity].
  apply (runNvidiaTarget_effects "operator" "uid-acpp" "node-a" (site_journal "uid-acpp") (log_allowed "uid-acpp")
    (demo_backend modeEnabled "") demo_target demo_ts s); [apply site_read_only|intros wr w; apply (log_allowed_closed "uid-acpp")|reflexivity..| |].
  - vm_compute. split; discriminate.
  - by apply Forall_nil.
Defined.
