(* ===== verification/PartitionReady.v ===== *)
(** * Ready means verified

    A pass over a MIG policy reports [Ready] only when the verification it ran just
    before saw the resources the journal expects.  The ends that are not [Ready] need no
    state; the ones that are go through [Verify]. *)

From S2P Require Import Prelude GoStrings GoTime Naming OperationModel ApiTypes VerificationAgreement PolicyTypes HealthController UpgradeTypes DriverJob DraClaim UpgradeNode UpgradeSpec UpgradeEffects PartitionTypes MigObserve MigSteps Quiescer NvidiaBackend SharingConfig PartitionPass PartitionSharing PartitionApply PartitionSpec PartitionEffects.

Section Ready.
Context {W : Type} `{UpgradeAPI W, PartitionAPI W, PartitionSeams W, Clock W} `{Environment, Requirements}.
Context (ns uid node : string) `{JL : !JournalLaws uid}.
Notation P := (Pass W).

(** ** Ends without a verification *)

Definition not_ready (o : Outcome) : Prop := Ts_Phase o.1 ≠ ACPPPhaseReady.
Lemma yields_fmap {S A C} (f : A → C) (m : M S A) Q : yields m (λ a, Q (f a)) → yields (f <$> m) Q.
Proof.
  intros Hm s c s'. unfold fmap, M_fmap. destruct (m s) as [[a|e] s1] eqn:E; [|done]. intros [= <- _]. by eapply Hm.
Qed.
Lemma yields_setCond ts c st reason msg : yields (setCond ts c st reason msg) (λ ts', Ts_Phase ts' = Ts_Phase ts).
Proof. unfold setCond. apply yields_then. intros p. apply yields_then. intros now. by apply yields_ret. Qed.
Lemma yields_phase ts phase c st reason msg : yields (at_phase ts phase c st reason msg) (λ ts', Ts_Phase ts' = phase).
Proof. apply yields_setCond. Qed.
Lemma yields_stop {A} ts phase c st reason msg (k : TargetStatus → A) (Q : A → Prop) :
  (∀ ts', Ts_Phase ts' = phase → Q (k ts')) → yields (ts' ← at_phase ts phase c st reason msg; mret (k ts')) Q.
Proof. intros HQ. eapply yields_bind; [apply yields_phase|]. intros ts' E. by apply yields_ret, HQ. Qed.
Lemma yields_check {A} (m : M P A) ts (k : A → M P Outcome) :
  Ts_Phase ts ≠ ACPPPhaseReady → (∀ a, yields (k a) not_ready) → yields (check m ts k) not_ready.
Proof. intros Ht Hk. apply yields_then. intros [a|e]; [apply Hk|]. by apply yields_ret. Qed.
(** The outcome, when the pass does not go on. *)
Definition mode_not_ready (r : bool * Outcome) : Prop := Ts_Phase r.2.1 ≠ ACPPPhaseReady.
Lemma yields_not_done (m : M P Outcome) : yields m not_ready → yields (not_done m) mode_not_ready.
Proof. intros Hm. by apply yields_fmap. Qed.
Ltac ends_elsewhere :=
  repeat first
    [ by apply yields_ret | apply yields_check; [assumption|]; intros
    | apply yields_stop; intros ? E; unfold not_ready; cbn [fst]; by rewrite E
    | apply yields_then; intros
    | match goal with |- yields (match ?x with _ => _ end) _ => destruct x end ].
Lemma ensureMigModeEnabled_not_ready t devs ts :
  Ts_Phase ts ≠ ACPPPhaseReady → yields (ensureMigModeEnabled ns t devs ts) mode_not_ready.
Proof.
  intros Ht. unfold ensureMigModeEnabled. destruct (_ && _).
  - unfold mode_settled. apply yields_then. intros rec. destruct (_ || _); [|by apply yields_ret].
    apply yields_then. intros [[]|e]; [by apply yields_ret|]. by apply yields_not_done, yields_ret.
  - destruct (negb _); [by apply yields_not_done, yields_stop; intros ? E; unfold not_ready; cbn [fst]; rewrite E|].
    apply yields_not_done. destruct (NeedsReboot devs).
    + unfold reboot_for_mode, not_applied, finish, fails. ends_elsewhere.
    + unfold quiesce_for_mode, enable_mode, not_applied, finish, fails. ends_elsewhere.
Qed.

Lemma yields_rollback_hardware (nvb : Backend W) t ts msg :
  Ts_Phase ts ≠ ACPPPhaseReady → yields (rollback_hardware nvb t ts msg) (λ ts', Ts_Phase ts' ≠ ACPPPhaseReady).
Proof.
  intros Ht. unfold rollback_hardware. apply yields_then. intros [[]|e].
  - eapply yields_impl; [apply yields_setCond|]. by intros ts' ->.
  - eapply yields_impl; [apply yields_phase|]. by intros ts' ->.
Qed.
(** What is dropped, and a condition. *)
Lemma yields_undone (drop : M P ()) ts c st reason msg err :
  Ts_Phase ts ≠ ACPPPhaseReady → yields (_ ← drop; ts ← setCond ts c st reason msg; mret (ts, err)) not_ready.
Proof.
  intros Ht. apply yields_then. intros _.
  eapply yields_bind; [apply yields_setCond|]. intros ts'' E. apply yields_ret. unfold not_ready. cbn [fst]. by rewrite E.
Qed.
Lemma undo_apply_not_ready (nvb : Backend W) t ts rb d cond reason msg err :
  yields (undo_apply nvb t ts rb d cond reason msg err) not_ready.
Proof.
  unfold undo_apply. apply yields_then. intros p. apply yields_then. intros _. cbv zeta.
  apply (yields_bind _ _ (λ ts', Ts_Phase ts' ≠ ACPPPhaseReady)).
  2:{ intros ts' E'. apply yields_then. intros _. by apply yields_undone. }
  destruct rb; [by apply yields_rollback_hardware|by apply yields_ret].
Qed.
Lemma yields_hw_gate t targets ts k : Ts_Phase ts ≠ ACPPPhaseReady → yields k not_ready → yields (hw_gate t targets ts k) not_ready.
Proof.
  intros Ht Hk. unfold hw_gate, not_applied, finish. ends_elsewhere. exact Hk.
Qed.

(** ** The verification *)

(** [V e w]: a verification has seen [e], and nothing but the journal was written since. *)
Context (V : gmap string Z → W → Prop).
Context (Vsaid : ∀ v t e w r w', hardware_verifier = Some v → T_NodeName t = node →
  @VerifyAllocatable W v t e w = (inl r, w') → verifySucceeded (inl r) = true → V e w').
Context (Vpatch : ∀ e base p w, V e w → V e (acpp_status_patch base p w).2).
Context (Vclock : ∀ e w, V e w → V e (time_now w).2).

Definition expects (rec : ApplyRecord) (s : P) : Prop :=
  expectedAllocatable (getApplyRecord (Ps_acpp s) node) = expectedAllocatable rec.
Definition ready_ok (r : Outcome + GoErr) (s : P) : Prop :=
  match r with
  | inl o => Ts_Phase o.1 = ACPPPhaseReady → V (expectedAllocatable (getApplyRecord (Ps_acpp s) node)) (Ps_world s)
  | inr _ => True
  end.
Lemma wp_not_ready (m : M P Outcome) s : yields m not_ready → wp m ready_ok s.
Proof.
  intros Hm. unfold wp. destruct (m s) as [[o|e] s'] eqn:E; [|done]. cbn. intros Ho. by destruct (Hm _ _ _ E).
Qed.
Lemma wp_any_api {A} (m : M W A) (Q : A + GoErr → P → Prop) s :
  (∀ r w', m (Ps_world s) = (r, w') → Q r (mkPass (Ps_acpp s) (Ps_ec s) w')) → wp (api m) Q s.
Proof. intros HQ. apply wp_zoom. unfold wp. destruct (m (Ps_world s)) as [r w'] eqn:E. by apply HQ. Qed.
(** Patching another phase keeps what is expected and what was seen. *)
Lemma wp_patched (J : W → Prop) rec (Q : () + GoErr → P → Prop) s :
  Rec_NodeName rec = node → (∀ base p w, J w → J (acpp_status_patch base p w).2) → J (Ps_world s) →
  (∀ r s', expects rec s' → J (Ps_world s') → Q r s') → wp (patchApplyRecord rec) Q s.
Proof.
  intros Hn HJ HJs HQ. unfold patchApplyRecord, patch_status. apply wp_bind, wp_gets. cbv beta iota.
  apply wp_bind. unfold set_acpp at 1. apply wp_modify. cbv beta iota. apply wp_bind, wp_any_api. cbn [Ps_world Ps_acpp Ps_ec].
  set (p := acpp_ApplyRecords _ _). assert (Hin : getApplyRecord p node = rec) by (by apply record_in_upsert).
  intros r w' E. assert (HJ' : J w') by (replace w' with (acpp_status_patch (Ps_acpp s) p (Ps_world s)).2 by (by rewrite E); by apply HJ). apply journal_patch in E.
  destruct r as [q|e]; cbv beta iota.
  - unfold set_acpp. apply wp_modify. apply HQ; [|done]. destruct E as (_&Eq&_). unfold expects, getApplyRecord in *.
    cbn [Ps_acpp]. rewrite Eq. by rewrite Hin.
  - apply HQ; [|done]. unfold expects. cbn [Ps_acpp]. by rewrite Hin.
Qed.
Lemma wp_kept_phase (J : W → Prop) ph (Q : () + GoErr → P → Prop) rec s :
  (∀ base p w, J w → J (acpp_status_patch base p w).2) → J (Ps_world s) → expects rec s →
  (∀ s', expects rec s' → J (Ps_world s') → Q (inl ()) s') → wp (logged (setRecordPhase node ph)) Q s.
Proof.
  intros HJ HJs Hx HQ. apply wp_logged. unfold setRecordPhase. apply wp_bind, wp_gets. cbv beta iota.
  apply (wp_patched J); [done..|]. intros r s' Hx' HJ'. apply HQ; [|done]. unfold expects in *. by rewrite Hx', <-Hx.
Qed.
Lemma wp_set_ready rec ts (k : TargetStatus → Outcome) s : expects rec s → V (expectedAllocatable rec) (Ps_world s) →
  wp (ts' ← setNvidiaReady ts; mret (k ts')) ready_ok s.
Proof.
  intros Hx HV.
  assert (Hc : ∀ ts1 c st reason msg (Q : TargetStatus + GoErr → P → Prop) s1, expects rec s1 → V (expectedAllocatable rec) (Ps_world s1) →
    (∀ ts2 s2, expects rec s2 → V (expectedAllocatable rec) (Ps_world s2) → Q (inl ts2) s2) → wp (setCond ts1 c st reason msg) Q s1).
  { intros ts1 c st reason msg Q s1 Hx1 HV1 HQ. unfold setCond. apply wp_bind, wp_gets. cbv beta iota. apply wp_bind, wp_any_api.
    unfold read_clock. intros r w' E. pose proof (Vclock _ _ HV1) as HV2. destruct (time_now (Ps_world s1)) as [now w2].
    injection E as <- <-. apply wp_ret, HQ; [exact Hx1|exact HV2]. }
  apply wp_bind. unfold setNvidiaReady. apply wp_bind. unfold at_phase. apply Hc; [done..|]. intros ts1 s1 Hx1 HV1. cbv beta iota.
  apply Hc; [done..|]. intros ts2 s2 Hx2 HV2. apply wp_ret. cbn. intros _. by rewrite Hx2.
Qed.
Context (Vhas : is_Some (hardware_verifier (W := W))).
Lemma wp_verified nvb t rec (Q : (option VerifyResult + GoErr) + GoErr → P → Prop) s :
  Nv_verifier nvb = hardware_verifier → T_NodeName t = node → Nv_expected nvb = expectedAllocatable rec → expects rec s →
  (∀ r s', expects rec s' → (verifySucceeded r = true → V (expectedAllocatable rec) (Ps_world s')) → Q (inl r) s') →
  wp (try (api (Verify nvb t))) Q s.
Proof.
  intros Hv Ht He Hx HQ. apply wp_try, wp_any_api. intros r w' E. apply HQ; [done|]. destruct Vhas as [v Ev].
  unfold Verify in E. rewrite Hv, Ev, He in E. destruct r as [r|e]; [|done]. intros Hs. by eapply Vsaid.
Qed.

Definition sees_node nvb (t : Target) : Prop := Nv_verifier nvb = hardware_verifier (W := W) ∧ T_NodeName t = node.
Lemma wp_ready_then rec ts s : expects rec s → V (expectedAllocatable rec) (Ps_world s) →
  wp (_ ← logged (setRecordPhase node MigPhaseReady); ts' ← setNvidiaReady ts; finish ts') ready_ok s.
Proof.
  intros Hx HV. apply wp_bind. apply (wp_kept_phase (V (expectedAllocatable rec)) _ _ rec); [by apply Vpatch|done..|].
  intros s1 Hx1 HV1. cbv beta iota. by apply (wp_set_ready rec).
Qed.
Lemma verifyManaged_ready nvb t ts rec s : sees_node nvb t → Ts_Phase ts ≠ ACPPPhaseReady → expects rec s →
  wp (verifyManagedNvidia nvb t ts rec) ready_ok s.
Proof.
  intros [Hv Ht] Hts Hx. unfold verifyManagedNvidia. apply wp_bind. apply (wp_verified _ _ rec); [done..|].
  intros r s1 Hx1 HV1. cbv beta iota. destruct r as [r|e].
  - destruct (verifySucceeded (inl r)); cbn [negb]; [by apply (wp_set_ready rec); auto|].
    apply wp_not_ready, yields_stop. intros ts' E. unfold not_ready. cbn [fst]. by rewrite E.
  - apply wp_not_ready, yields_stop. intros ts' E. unfold not_ready. cbn [fst]. by rewrite E.
Qed.
Lemma wp_check_ready {A} (m : M P A) ts (k : A → M P Outcome) s : Ts_Phase ts ≠ ACPPPhaseReady →
  wp m (λ r s', match r with inl a => wp (k a) ready_ok s' | inr _ => True end) s → wp (check m ts k) ready_ok s.
Proof. intros Hts Hm. apply wp_check. eapply wp_mono; [exact Hm|]. intros [a|e] s'; [done|]. intros _. cbn. by intros. Qed.
Lemma resume_ready nvb t ts rec s : sees_node nvb t → expects rec s → wp (resumeNvidiaRecovery nvb t ts rec) ready_ok s.
Proof.
  intros [Hv Ht] Hx. unfold resumeNvidiaRecovery. rewrite Ht. apply wp_check_ready; [done|].
  apply (wp_mono _ (λ _ s', expects rec s')).
  { destruct (bool_decide _); [|by apply wp_ret]. apply wp_any_api. by intros. }
  intros [[]|e] s1 Hx1; [|done]. cbv beta iota. apply wp_bind. apply (wp_kept_phase (λ _, True) _ _ rec); [done..|].
  intros s2 Hx2 _. cbv beta iota. apply wp_bind. apply (wp_verified _ _ rec); [done..|]. intros r s3 Hx3 HV3. cbv beta iota.
  destruct (verifySucceeded r); cbn [negb]; [apply (wp_ready_then rec); auto|].
  apply wp_not_ready. eapply yields_bind; [by apply yields_rollback_hardware|]. intros ts' E'. by apply yields_undone.
Qed.
Lemma verify_partition_ready nvb t ts rb rec s : sees_node nvb t → Nv_expected nvb = expectedAllocatable rec → expects rec s →
  wp (verify_partition nvb t ts rb) ready_ok s.
Proof.
  intros [Hv Ht] He Hx. unfold verify_partition. rewrite Ht. apply wp_bind.
  apply (wp_kept_phase (λ _, True) _ _ rec); [done..|]. intros s1 Hx1 _. cbv beta iota zeta. apply wp_check_ready; [done|].
  apply wp_any_api. intros [[]|e] w' _; [|done]. cbv beta iota. apply wp_bind. apply (wp_kept_phase (λ _, True) _ _ rec); [done..|].
  intros s2 Hx2 _. cbv beta iota. apply wp_bind. apply (wp_verified _ _ rec); [done..|]. intros r s3 Hx3 HV3. cbv beta iota.
  destruct (verifySucceeded r); cbn [negb]; [apply (wp_ready_then rec); auto|]. apply wp_not_ready, undo_apply_not_ready.
Qed.
Lemma wp_baseline_name resolved targets (Q : ApplyRecord + GoErr → P → Prop) s :
  (∀ r s', match r with inl rec => Rec_NodeName rec = node | inr _ => True end → Q r s') → wp (computeBaseline node resolved targets) Q s.
Proof.
  intros HQ. unfold computeBaseline. destruct resolved as [|r [|? ?]]; [by apply wp_throw, HQ| |by apply wp_throw, HQ].
  apply wp_bind, wp_any_api. intros [n|e] w1 _; [|by apply HQ]. apply wp_bind, wp_try, wp_any_api.
  intros [ndr|e] w2 _; cbv beta iota zeta; [|by apply wp_throw, HQ]. destruct (_ <? _); [by apply wp_throw, HQ|].
  apply wp_bind, wp_gets. cbv beta iota. by apply wp_ret, HQ.
Qed.
Lemma apply_partition_ready nvb t ts resolved s : sees_node nvb t → Ts_Phase ts ≠ ACPPPhaseReady →
  wp (apply_partition nvb t ts resolved) ready_ok s.
Proof.
  intros [Hv Ht] Hts. unfold apply_partition. rewrite Ht. apply wp_bind, wp_try, wp_baseline_name.
  intros [rec|e] s1 Hn; cbv beta iota zeta.
  2:{ apply wp_not_ready, yields_stop. intros ts' E. unfold not_ready. cbn [fst]. by rewrite E. }
  apply wp_check_ready; [done|]. apply (wp_patched (λ _, True)); [done..|]. intros [[]|e] s2 Hx2 _; [|done]. cbv beta iota.
  apply wp_check_ready; [done|]. apply wp_any_api. intros [[]|e] w' _; [|done]. cbv beta iota.
  apply wp_bind, wp_any_api. intros [[rb [e|]]|e] w2 _; cbv beta iota; [| |done].
  - apply wp_not_ready, undo_apply_not_ready.
  - by eapply verify_partition_ready.
Qed.

Lemma wp_stopped ts phase c st reason msg (k : TargetStatus → Outcome) s : phase ≠ ACPPPhaseReady → (∀ ts', (k ts').1 = ts') →
  wp (ts' ← at_phase ts phase c st reason msg; mret (k ts')) ready_ok s.
Proof. intros Hp Hk. apply wp_not_ready, yields_stop. intros ts' E. unfold not_ready. by rewrite Hk, E. Qed.
Lemma change_partition_ready nvb t ts rec resolved s : sees_node nvb t → Ts_Phase ts ≠ ACPPPhaseReady →
  wp (change_partition nvb t ts rec resolved) ready_ok s.
Proof.
  intros Hb Hts. unfold change_partition. apply wp_bind, wp_gets. cbv beta iota. destruct (_ && _).
  - apply wp_not_ready. apply (yields_bind _ _ (λ ts', Ts_Phase ts' ≠ ACPPPhaseReady)).
    + unfold carryRollbackFailure. apply yields_then. intros p. destruct (_ ≫= _) as [rb|]; [|by apply yields_ret].
      eapply yields_impl; [apply yields_phase|]. intros ts' ->. by case_bool_decide.
    + intros ts' E'. eapply yields_bind; [apply yields_setCond|]. intros ts'' E. apply yields_ret. unfold not_ready. cbn [fst]. by rewrite E.
  - destruct (isApplyInFlightPhase _); [by apply apply_partition_ready|]. unfold hw_gate.
    apply wp_check_ready; [done|]. apply wp_any_api. intros [hw|e] w1 _; [|done]. cbv beta iota zeta.
    apply wp_check_ready; [done|]. eapply wp_mono; [apply wp_true|]. intros [[]|e] s1 _; [|done].
    destruct (nvidiaHWBlock _) as [[reason msg]|]; [by apply wp_stopped|by apply apply_partition_ready].
Qed.
Lemma reach_layout_ready nvb t ts s : sees_node nvb t → Ts_Phase ts ≠ ACPPPhaseReady → wp (reach_layout nvb t ts) ready_ok s.
Proof.
  intros [Hv Ht] Hts. unfold reach_layout. rewrite Ht. apply wp_bind, wp_gets. cbv beta iota. apply wp_bind, wp_gets. cbv beta iota.
  destruct (resolveNvidia _) as [resolved status]. cbv zeta. set (t' := t_Generation _ t). set (ts1 := ts_ResolvedLayout status ts).
  assert (Hb : sees_node nvb t') by done. assert (Hts1 : Ts_Phase ts1 ≠ ACPPPhaseReady) by done. clearbody t' ts1.
  set (rec := getApplyRecord (Ps_acpp s) node). assert (Hx : expects rec s) by done. apply wp_bind.
  assert (Hsome : ∀ (m : M P Outcome) s1, wp m ready_ok s1 → wp (Some <$> m) (λ r s', match r with
    | inl route => wp (match route with Some o => mret o | None => change_partition nvb t' ts1 rec resolved end) ready_ok s'
    | inr e => ready_ok (inr e) s' end) s1).
  { intros m s1 Hm. apply wp_fmap. eapply wp_mono; [exact Hm|]. by intros [o|e] s'. }
  assert (Hgo := λ s', change_partition_ready nvb t' ts1 rec resolved s' Hb Hts1).
  unfold routeNvidiaNoDiff. destruct (Diff_Changed _); [by apply wp_ret, Hgo|]. apply wp_bind, wp_gets. cbv beta iota zeta.
  destruct (_ && recMatches _ _ _); [by apply Hsome, verifyManaged_ready|].
  destruct (_ && isApplyInFlightPhase _); [by apply Hsome, resume_ready|].
  destruct (isMigModeEnablePhase _); [by apply wp_ret, Hgo|].
  destruct (bool_decide (Rec_MigPhase rec = MigPhaseRolledBack)); [by apply wp_ret, Hgo|].
  apply wp_bind. unfold wp at 1. destruct (at_phase _ _ _ _ _ _ s) as [[ts'|e] s1] eqn:E; [|done]. cbn [fst snd].
  apply wp_ret, wp_ret. cbn. pose proof (yields_phase _ _ _ _ _ _ _ _ _ E) as Ep. by rewrite Ep.
Qed.
Lemma runNvidiaTarget_ready nvb t ts s : sees_node nvb t → Ts_Phase ts ≠ ACPPPhaseReady → wp (runNvidiaTarget ns nvb t ts) ready_ok s.
Proof.
  intros Hb Hts. unfold runNvidiaTarget. destruct (nvidiaAlwaysBlock _) as [[reason msg]|]; [by apply wp_stopped|].
  apply wp_bind, wp_gets. cbv beta iota. apply wp_check_ready; [done|]. apply wp_any_api. intros [owned|e] w1 _; [|done]. cbv beta iota.
  destruct owned; cbn [negb]; [|by apply wp_stopped]. apply wp_bind. unfold wp at 1.
  destruct (ensureMigModeEnabled _ _ _ _ _) as [[[[] out]|e] s1] eqn:E; [| |done]; cbn [fst snd];
    apply ensureMigModeEnabled_not_ready in E; try done; unfold mode_not_ready in E; cbn [fst snd] in E.
  - by apply reach_layout_ready.
  - apply wp_ret. intros Ho. by destruct E.
Qed.
End Ready.

(** C10. A pass over a MIG policy that ends in Ready, whichever of the three ways it came
    (the first apply, an apply resumed after a crash, a layout that was there already),
    has run the verification on that node in this pass, the verification answered that
    it had converged, for exactly the resources the journal at hand expects, and nothing
    was written between its answer and the end but the journal.  [V] is any property that
    such an answer establishes and that writing the journal and reading the clock keep. *)
Theorem ready_is_verified {W} `{UpgradeAPI W, PartitionAPI W, PartitionSeams W, Clock W} `{Environment, Requirements}
    ns uid node (JL : JournalLaws uid) (V : gmap string Z → W → Prop) (nvb : Backend W) t ts (s s' : Pass W) out err :
  (∀ v t e w r w', hardware_verifier = Some v → T_NodeName t = node →
     @VerifyAllocatable W v t e w = (inl r, w') → verifySucceeded (inl r) = true → V e w') →
  (∀ e base p w, V e w → V e (acpp_status_patch base p w).2) → (∀ e w, V e w → V e (time_now w).2) →
  is_Some hardware_verifier → Nv_verifier nvb = hardware_verifier → T_NodeName t = node → Ts_Phase ts ≠ ACPPPhaseReady →
  runNvidiaTarget ns nvb t ts s = (inl (out, err), s') → Ts_Phase out = ACPPPhaseReady →
  V (expectedAllocatable (getApplyRecord (Ps_acpp s') node)) (Ps_world s').
Proof.
  intros Hsaid Hpatch Hclock Hhas Hv Ht Hts E Hr.
  assert (Hw := runNvidiaTarget_ready ns uid node V Hsaid Hpatch Hclock Hhas nvb t ts s (conj Hv Ht) Hts).
  apply (wp_run _ _ _ _ _ Hw) in E. by apply E.
Qed.

(** At a site where the verification sees the resources converged, the pass is Ready. *)
Definition ready_site : (Outcome + GoErr) * Pass Site :=
  runNvidiaTarget "operator" (demo_backend modeEnabled "") demo_target demo_ts (demo_pass [] true).
Definition ended_ready (r : Outcome + GoErr) : bool :=
  match r with inl (out, None) => bool_decide (Ts_Phase out = ACPPPhaseReady) | _ => false end.
Lemma ready_is_verified_witness :
  ended_ready ready_site.1 = true ∧ verifySucceeded (inl (S_allocatable (Ps_world ready_site.2))) = true.
Proof.
  assert (E : ended_ready ready_site.1 = true) by (vm_compute; reflexivity). split; [exact E|].
  destruct ready_site as [[[out [e|]]|e] s'] eqn:Er; [discriminate E| |discriminate E].
  apply bool_decide_eq_true in E. unfold ready_site in Er.
  refine (ready_is_verified "operator" "uid-acpp" "node-a" (site_journal "uid-acpp")
    (λ _ w, verifySucceeded (inl (S_allocatable w)) = true) (demo_backend modeEnabled "") demo_target demo_ts
    (demo_pass [] true) s' out None _ _ _ _ _ _ _ Er E).
  - intros v t x w r w' [= <-] _ [= <- <-]. done.
  - by intros.
  - by intros.
  - by eexists.
  - reflexivity.
  - reflexivity.
  - discriminate.
Defined.
