(* ===== verification/UpgradeController.v ===== *)
(** * internal/controller/driver_upgrade_controller.go

    The reconciler around the state machine: it sweeps labels left behind, keeps
    one [DriverUpgradeState] per node and vendor in step with the device
    reports, runs one pass of the machine and writes the status back, and takes
    the labels off when the cycle is closed.  Events, metrics and logs are left
    out, and so is the registration with the manager. *)

From S2P Require Import Prelude GoStrings GoTime Naming OperationModel ApiTypes VerificationDrift OperationController UpgradeTypes DriverImage DraClaim UpgradeNode UpgradeMachine UpgradeEffects.

Definition modelUnknown : string := DriverModelUnknown.
Definition defaultDriftGrace : Z := 10 * minute.
Definition stuckLabelGracePeriod : Z := 30 * second.
Definition stuckBlockingLabelGracePeriod : Z := 15 * second.

(** ** Pure parts *)

Definition vendorRepresentativeModels (devices : list DeviceEntry) : gmap string string :=
  foldl (λ models d,
    match models !! De_Vendor d with
    | None => <[De_Vendor d := De_Model d]> models
    | Some prev => if negb (bool_decide (prev = De_Model d)) then <[De_Vendor d := modelUnknown]> models else models
    end) ∅ devices.
(** [observedModels[vendor]]: the distinct models, sorted. *)
Definition vendorObservedModels (devices : list DeviceEntry) (vendor : string) : list string :=
  sort_strings (remove_dups (De_Model <$>
    filter (λ d, De_Vendor d = vendor ∧ De_Model d ≠ "") devices)).

Definition driftBaseline (s : DriverUpgradeStateStatus) (desired observed : string) : string :=
  if negb (bool_decide (observed = desired)) && negb (bool_decide (Us_RolledBackVersion s = ""))
     && bool_decide (Us_RolledBackVersion s = desired) && negb (bool_decide (Us_PreviousVersion s = ""))
  then Us_PreviousVersion s else desired.
Definition timeOrZero (t : option Z) : Z := default zero_time t.

Definition driverUpgradeStateName (nodeName vendor : string) : string := nodeName +:+ "-" +:+ vendor.
Definition nodeMatchesSelector `{MapRange} (node : Node) (selector : gmap string string) : bool :=
  forallb (λ kv, bool_decide (mget "" (Node_Labels node) kv.1 = kv.2)) (range_map selector).

(** An exact model wins; otherwise the first policy whose model matches. *)
Fixpoint find_policy (vendor model : string) (policies : list DriverInstallPolicy) (fallback : option DriverInstallPolicy)
    : option DriverInstallPolicy :=
  match policies with
  | [] => fallback
  | p :: policies =>
      if negb (equal_fold (Dip_Vendor p) vendor) then find_policy vendor model policies fallback
      else if equal_fold (Dip_Model p) model then Some p
      else find_policy vendor model policies
             (match fallback with
              | Some _ => fallback
              | None => if DeviceModelMatches model (Dip_Model p) then Some p else None
              end)
  end.
Definition findPolicy (policies : list DriverInstallPolicy) (vendor model : string) : option DriverInstallPolicy :=
  find_policy vendor model policies None.

Definition TransactionIDForDriver (d : DriverUpgradeState) : string :=
  Dus_UID d +:+ "-" +:+ Us_DesiredVersion (Dus_Status d) +:+ "-" +:+ Dus_NodeName d.
Definition OperationNameForDriver (d : DriverUpgradeState) : string :=
  let name := "drv-" +:+ Dus_Name d +:+ "-" +:+ Us_DesiredVersion (Dus_Status d) in
  if Nat.ltb 63 (String.length name) then String.substring 0 63 name else name.
Definition isDriverOperationInFlight (state : string) : bool := isActiveState state.

(** The first instant of a status that is new: everything but what is set is zero. *)
Definition new_status (current desired : string) (now : Z) (message : string) (observed : list string) : DriverUpgradeStateStatus :=
  mkDusStatus UpgradeStateIdle current desired now "" "" "" 0 0 zero_time "" message [] None observed "" "" 0.
Definition new_state (name node vendor model : string) (s : DriverUpgradeStateStatus) : DriverUpgradeState :=
  mkDUS name "" 0 "" ∅ node vendor model s.

(** What a policy change does to an idle state. *)
Definition retarget (desired current : string) (now : Z) (s : DriverUpgradeStateStatus) : DriverUpgradeStateStatus :=
  us_Message ("정책 버전 변경: " +:+ Us_DesiredVersion s +:+ " → " +:+ desired)
    (us_LastTransitionTime now (resetRebootTracking (us_PreviousImage ""
      (us_CurrentVersion current (us_DesiredVersion desired s))))).
Definition sync_version (version : string) (now : Z) (s : DriverUpgradeStateStatus) : DriverUpgradeStateStatus :=
  us_Message ("NDR 버전 동기화: " +:+ version) (us_LastTransitionTime now (us_CurrentVersion version s)).
Definition trackMsg : string := "TrackOnly: 버전 관측 전용(설치 경로 없음)".
Definition track_status (current desired : string) (now : Z) (s : DriverUpgradeStateStatus) : DriverUpgradeStateStatus :=
  us_Message trackMsg (us_LastTransitionTime now (us_DesiredVersion desired (us_CurrentVersion current (us_State UpgradeStateIdle s)))).

(** ** The reconciler *)


Section Controller.
Context {W : Type} `{UpgradeAPI W} `{OperationCreateAPI W} `{Clock W} `{MapRange} `{Requirements} `{Versions}.
(** [naming.OperatorNamespace()]; [KCLOUD_OPERATION_COORDINATOR=delegate] *)
Context (ns : string) (delegateMode : bool).

(** *** Labels left by a cycle that died *)

(** The labels to take off a node, from its states and the clock. *)
Definition all_terminal (l : list DriverUpgradeState) : bool :=
  forallb (λ d, UpgradeCycleClosed (Us_State (Dus_Status d))) l.
Definition oldest_transition (now : Z) (l : list DriverUpgradeState) : Z :=
  foldl (λ oldest d, let t := Us_LastTransitionTime (Dus_Status d) in
                     if negb (is_zero_time t) && time_before t oldest then t else oldest) now l.
Definition sweep_node (duss : list DriverUpgradeState) (node : Node) : M W () :=
  let hasMain := has_label driverUpgradingLabelKey node in
  let hasBlocking := has_label driverUpgradingBlockingLabelKey node in
  let nodeDUS := filter (λ d, Dus_NodeName d = Node_Name node) duss in
  if (negb hasMain && negb hasBlocking) || bool_decide (length nodeDUS = 0%nat) then mret ()
  else
    now ← read_clock;
    if negb (all_terminal nodeDUS) then mret ()
    else
      later ← read_clock;
      let age := time_sub later (oldest_transition now nodeDUS) in
      _ ← (if hasBlocking && (stuckBlockingLabelGracePeriod <=? age)
           then _ ← try (EnsureUpgradingBlockingLabelRemoved (Node_Name node)); mret () else mret ());
      if hasMain && (stuckLabelGracePeriod <=? age)
      then _ ← try (EnsureUpgradingLabelRemoved (Node_Name node)); mret () else mret ().
Definition sweepStuckUpgradingLabels : M W () :=
  ns ← try node_list;
  match ns with
  | inr e => throw (errorf_w "노드 리스트 조회 실패" e)
  | inl nodes =>
      ds ← try dus_list;
      match ds with
      | inr e => throw (errorf_w "DriverUpgradeState 리스트 조회 실패" e)
      | inl duss => for_each (sweep_node duss) nodes
      end
  end.

(** *** One state per node and vendor *)

(** A patch whose failure is logged: the caller goes on with its own copy. *)
Definition patch_status (f : DriverUpgradeStateStatus → DriverUpgradeStateStatus) (d : DriverUpgradeState) : M W DriverUpgradeState :=
  p ← try (dus_status_patch d (dus_status f d));
  mret (match p with inl stored => stored | inr _ => dus_status f d end).
Definition syncDUSModel (deviceModel : string) (d : DriverUpgradeState) : M W DriverUpgradeState :=
  if bool_decide (deviceModel = "") || bool_decide (Dus_Model d = deviceModel) then mret d
  else
    p ← try (dus_patch d (dus_model deviceModel d));
    mret (match p with inl stored => stored | inr _ => dus_model deviceModel d end).
Definition syncDUSObservedModels (observed : list string) (d : DriverUpgradeState) : M W DriverUpgradeState :=
  if bool_decide (Us_ObservedModels (Dus_Status d) = observed) then mret d
  else patch_status (us_ObservedModels observed) d.

(** The creation of a state; one that exists already is fine. *)
Definition create_state (d : DriverUpgradeState) : M W () :=
  c ← try (dus_create d);
  match c with inr e => if is_already_exists e then mret () else throw e | inl _ => mret () end.

Definition sync_drift (policy : DriverInstallPolicy) (loaded version : string) (d : DriverUpgradeState) : M W DriverUpgradeState :=
  let s := Dus_Status d in
  if VersionObservationAllowed (Us_State s) && negb (bool_decide (version = "")) then
    observedAt ← read_clock;
    let verdict := (EvaluateVersionDrift (mkVersionDriftInput (Us_State s)
      (driftBaseline s (EffectiveDesiredVersion policy loaded) version) version observedAt
      (timeOrZero (Us_DriftFirstSeen s)) defaultDriftGrace)).1 in
    next ← match verdict with
           | VersionDriftPending =>
               match Us_DriftFirstSeen s with
               | None => now ← read_clock; mret (Some now)
               | Some t => mret (Some t)
               end
           | VersionDriftNone => mret None
           | _ => mret (Us_DriftFirstSeen s)
           end;
    if bool_decide (next = Us_DriftFirstSeen s) then mret d else patch_status (us_DriftFirstSeen next) d
  else mret d.

Definition syncUpgradeState (nodeName : string) (device : DeviceEntry) (policy : DriverInstallPolicy) (vendorModel : string)
    (observed : list string) (loaded : string) : M W () :=
  let dusName := driverUpgradeStateName nodeName (De_Vendor device) in
  let desired := EffectiveDesiredVersion policy loaded in
  let version := De_DriverVersion device in
  g ← try (dus_get dusName);
  match g with
  | inr e =>
      if is_not_found e then
        now ← read_clock;
        _ ← try (create_state (new_state dusName nodeName (De_Vendor device) vendorModel (new_status version desired now "" observed)));
        mret ()
      else mret ()
  | inl d =>
      d ← syncDUSModel vendorModel d;
      d ← syncDUSObservedModels observed d;
      d ← sync_drift policy loaded version d;
      let s := Dus_Status d in
      if negb (bool_decide (desired = "")) && negb (bool_decide (Us_DesiredVersion s = desired))
         && bool_decide (Us_State s = UpgradeStateIdle) then
        now ← read_clock; _ ← patch_status (retarget desired version now) d; mret ()
      else if VersionObservationAllowed (Us_State s) && negb (bool_decide (version = ""))
              && negb (bool_decide (Us_CurrentVersion s = version)) then
        now ← read_clock; _ ← patch_status (sync_version version now) d; mret ()
      else mret ()
  end.

Definition ensureTrackOnlyState (nodeName : string) (device : DeviceEntry) (policy : DriverInstallPolicy) (vendorModel : string)
    (observed : list string) : M W () :=
  let dusName := driverUpgradeStateName nodeName (De_Vendor device) in
  let desired := Ds_Version (Dip_Driver policy) in
  g ← try (dus_get dusName);
  match g with
  | inr e =>
      if is_not_found e then
        now ← read_clock;
        create_state (new_state dusName nodeName (De_Vendor device) vendorModel
          (new_status (De_DriverVersion device) desired now trackMsg observed))
      else throw e
  | inl d =>
      d ← syncDUSModel vendorModel d;
      d ← syncDUSObservedModels observed d;
      let s := Dus_Status d in
      if negb (bool_decide (Us_State s = UpgradeStateIdle)) || negb (bool_decide (Us_CurrentVersion s = De_DriverVersion device))
         || negb (bool_decide (Us_DesiredVersion s = desired)) then
        now ← read_clock;
        _ ← dus_status_patch d (dus_status (track_status (De_DriverVersion device) desired now) d);
        mret ()
      else mret ()
  end.

Definition ensure_device (dips : list DriverInstallPolicy) (nodeName : string) (node : Node) (devices : list DeviceEntry)
    (device : DeviceEntry) : M W () :=
  match findPolicy dips (De_Vendor device) (De_Model device) with
  | None => mret ()
  | Some policy =>
      if negb (nodeMatchesSelector node (Dip_NodeSelector policy)) then mret ()
      else
        let vendorModel := mget "" (vendorRepresentativeModels devices) (De_Vendor device) in
        let observed := vendorObservedModels devices (De_Vendor device) in
        if Ds_TrackOnly (Dip_Driver policy) then
          _ ← try (ensureTrackOnlyState nodeName device policy vendorModel observed); mret ()
        else
          syncUpgradeState nodeName device policy vendorModel observed
            (LoadedHostVersion devices (De_Vendor device) vendorModel)
  end.
(** A report and the name of its object, which stands in for an empty node name. *)
Definition ensure_report (dips : list DriverInstallPolicy) (report : string * NodeDeviceReport) : M W () :=
  let nodeName := if bool_decide (Ndr_NodeName report.2 = "") then report.1 else Ndr_NodeName report.2 in
  g ← try (node_get nodeName);
  match g with
  | inr _ => mret ()
  | inl node =>
      if has_label "node-role.kubernetes.io/control-plane" node || has_label "node-role.kubernetes.io/master" node then mret ()
      else for_each (ensure_device dips nodeName node (Ndr_Devices report.2)) (Ndr_Devices report.2)
  end.
Definition ensureUpgradeStates : M W () :=
  reports ← report_list;
  dips ← policy_list;
  for_each (ensure_report dips) reports.

(** *** One pass over one state *)

Definition findMatchingPolicy (vendor model : string) : M W (option DriverInstallPolicy) :=
  l ← policy_list; mret (findPolicy l vendor model).

Definition devicePCIsForNode (node vendor : string) : M W (list string) :=
  g ← try (report_get node);
  match g with
  | inr e => if is_not_found e then mret [] else throw e
  | inl ndr => mret (De_PCIeAddress <$> filter (λ d, equal_fold (De_Vendor d) vendor
                       && negb (bool_decide (De_PCIeAddress d = "")) = true) (Ndr_Devices ndr))
  end.

Definition driver_operation (d : DriverUpgradeState) (pcis : list string) : AcceleratorOperation :=
  mkOperation (OperationNameForDriver d) 0 "" zero_time
    (mkOperationSpec DriverUpgrade (Dus_NodeName d) (Dus_Vendor d) (TransactionIDForDriver d)
       (mkOperationOwner "DriverUpgradeState" (Dus_Name d) (Dus_UID d) (Dus_Generation d))
       (ResourceKeysForDriver (Dus_NodeName d) pcis)) zero_op_status.
(** [None]: not handled, the caller runs the machine itself. *)
Definition delegateDriverUpgrade (d : DriverUpgradeState) : M W (option CtrlResult) :=
  let state := Us_State (Dus_Status d) in
  if negb (bool_decide (state = UpgradeStateRequired)) then
    mret (if isDriverOperationInFlight state then Some (requeue_after opRequeue) else None)
  else
    pcis ← devicePCIsForNode (Dus_NodeName d) (Dus_Vendor d);
    c ← try (operation_create (driver_operation d pcis));
    match c with
    | inr e => if is_already_exists e then mret (Some (requeue_after opRequeue)) else throw e
    | inl _ => mret (Some (requeue_after opRequeue))
    end.

(** The machine's pass, then the status write, whatever the machine answered. *)
Definition run_machine (policy : DriverInstallPolicy) : M (DriverUpgradeState * W) CtrlResult :=
  r ← try (TransitionState ns policy);
  u ← try update_status;
  match u with
  | inr e => if is_conflict e then mret (mkRes true 0) else throw (errorf_w "상태 업데이트 실패" e)
  | inl _ =>
      match r with
      | inr e => throw e
      | inl (requeue, requeueAfter) =>
          if negb requeue then mret (requeue_after (30 * second))
          else if 0 <? requeueAfter then mret (requeue_after requeueAfter)
          else mret (mkRes true 0)
      end
  end.
Definition reconcile_state : M (DriverUpgradeState * W) CtrlResult :=
  d ← the_state;
  p ← try (api (findMatchingPolicy (Dus_Vendor d) (Dus_Model d)));
  match p with
  | inr e => throw (errorf_w "DriverInstallPolicy 조회 실패" e)
  | inl None => mret zero_res
  | inl (Some policy) =>
      handled ← (if delegateMode then api (delegateDriverUpgrade d) else mret None);
      match handled : option CtrlResult with
      | Some res => mret res
      | None => run_machine policy
      end
  end.
(** The deferred clean-up: it sees the state as the pass left it. *)
Definition deferred_cleanup (d : DriverUpgradeState) : M W () :=
  if bool_decide (Dus_NodeName d = "") || negb (UpgradeCycleClosed (Us_State (Dus_Status d))) then mret ()
  else
    _ ← try (EnsureUpgradingLabelRemoved (Dus_NodeName d));
    _ ← try (EnsureUpgradingBlockingLabelRemoved (Dus_NodeName d));
    mret ().
Definition with_cleanup (d : DriverUpgradeState) : M W CtrlResult := λ w,
  let '(res, (d', w')) := reconcile_state (d, w) in
  (res, (deferred_cleanup d' w').2).

Definition DriverUpgrade_Reconcile (name : string) : M W CtrlResult :=
  _ ← try sweepStuckUpgradingLabels;
  _ ← try ensureUpgradeStates;
  g ← try (dus_get name);
  match g with
  | inr e => if is_not_found e then mret (requeue_after (30 * second)) else throw e
  | inl d => with_cleanup d
  end.

(** The requests a change of a report enqueues. *)
Definition mapNDRToUpgradeStates (report : string * NodeDeviceReport) : M W (list string) :=
  let nodeName := if bool_decide (Ndr_NodeName report.2 = "") then report.1 else Ndr_NodeName report.2 in
  l ← try dus_list;
  mret (match l with
        | inr _ => []
        | inl duss =>
            match Dus_Name <$> filter (λ d, Dus_NodeName d = nodeName) duss with
            | [] => [nodeName +:+ "-bootstrap"]
            | requests => requests
            end
        end).
End Controller.

(** ** Properties *)

(** The policies that name the vendor and exactly the model, and those whose
    model merely covers it. *)
Definition exact_policy (vendor model : string) (p : DriverInstallPolicy) : bool :=
  equal_fold (Dip_Vendor p) vendor && equal_fold (Dip_Model p) model.
Definition covering_policy (vendor model : string) (p : DriverInstallPolicy) : bool :=
  equal_fold (Dip_Vendor p) vendor && DeviceModelMatches model (Dip_Model p).

Lemma find_policy_fallback vendor model policies p :
  find_policy vendor model policies (Some p) = Some (default p (find_first (exact_policy vendor model) policies)).
Proof.
  unfold exact_policy. induction policies as [|q l IH]; [done|]. simpl.
  destruct (equal_fold (Dip_Vendor q) vendor); simpl; [|exact IH]. by destruct (equal_fold (Dip_Model q) model).
Qed.
(** Of the policies of a vendor, the first that names exactly the device's
    model is chosen wherever it stands in the list; only when there is none, the
    first whose model covers the device (empty, generic, or of its family). *)
Theorem findPolicy_exact_first (policies : list DriverInstallPolicy) (vendor model : string) :
  findPolicy policies vendor model =
  match find_first (exact_policy vendor model) policies with
  | Some p => Some p
  | None => find_first (covering_policy vendor model) policies
  end.
Proof.
  unfold findPolicy. induction policies as [|q l IH]; [done|]. simpl.
  unfold exact_policy at 1, covering_policy at 1. destruct (equal_fold (Dip_Vendor q) vendor); simpl; [|exact IH].
  destruct (equal_fold (Dip_Model q) model); simpl; [done|]. destruct (DeviceModelMatches model (Dip_Model q)); [|exact IH].
  rewrite find_policy_fallback. by destruct (find_first _ l).
Qed.

(** The sweep that takes off forgotten labels does not touch a node with a
    cycle under way: as long as one upgrade of the node is in a state that no
    closed cycle ends in, the sweep of the node does nothing but read the clock. *)
Theorem sweep_spares_running {W} `{UpgradeAPI W} `{Clock W} (I : W → Prop) (duss : list DriverUpgradeState) (node : Node)
    (d : DriverUpgradeState) (w : W)
    (Hclock : ∀ w, I w → I (time_now w).2)
    (Hd : d ∈ duss) (Hn : Dus_NodeName d = Node_Name node)
    (Hopen : UpgradeCycleClosed (Us_State (Dus_Status d)) = false) (Hpre : I w) :
  (sweep_node duss node w).1 = inl () ∧ I (sweep_node duss node w).2.
Proof.
  unfold sweep_node. set (l := filter _ duss). destruct (_ || _); [done|].
  assert (Hl : all_terminal l = false).
  { apply not_true_iff_false. unfold all_terminal. rewrite forallb_forall. intros Hall.
    assert (Hin : d ∈ l) by (by apply list_elem_of_filter). apply list_elem_of_In in Hin. rewrite (Hall d Hin) in Hopen. done. }
  rewrite Hl. unfold mbind, M_bind, read_clock. specialize (Hclock w Hpre). by destruct (time_now w).
Qed.

Definition stuck_node : Node :=
  mkNode "node-a" {[driverUpgradingLabelKey := labelValueTrue]} ∅ true ∅ [] "boot-1" "6.8" None.
Definition running_state : DriverUpgradeState := demo_dus UpgradeStateValidating "1" "2" "1".
Definition untouched_by_sweep (w : Frozen) : Prop := F_node w = Some stuck_node.
Lemma sweep_spares_running_witness :
  (sweep_node [running_state] stuck_node (mkFrozen hour (Some stuck_node) None [] [] [] [] None None [])).1 = inl ().
Proof.
  apply (sweep_spares_running untouched_by_sweep [running_state] stuck_node running_state); try reflexivity.
  - intros w Hw. exact Hw.
  - apply list_elem_of_singleton. reflexivity.
Defined.
