(* ===== verification/DriverParticipant.v ===== *)
(** * internal/controller/operation_driver_participant.go

    The driver upgrade as a participant of the operation coordinator: one pass of
    the state machine per call, and its resulting state as an event. *)

From S2P Require Import Prelude GoStrings GoTime OperationModel ApiTypes OperationStateMachine VerificationAgreement Verifier OperationController Naming UpgradeTypes DriverImage DraClaim UpgradeMachine UpgradeController.

Definition participantRequeue : Z := 15 * second.
Definition event_outcome (e : Event) (msg : string) : Outcome := mkOutcome e msg 0.
Definition wait_outcome (msg : string) : Outcome := mkOutcome "" msg participantRequeue.

Definition driver_ended_badly (state : string) : bool :=
  contains_string [UpgradeStateFailed; UpgradeStateUnverifiedVersion; UpgradeStateHostAhead] state.

Definition driverOutcomeFor (st : DriverUpgradeStateStatus) : Outcome :=
  let state := Us_State st in
  if bool_decide (state = UpgradeStateIdle) || bool_decide (state = "") then
    if bool_decide (Us_DesiredVersion st = "") || bool_decide (Us_CurrentVersion st = Us_DesiredVersion st)
    then event_outcome EventApplyDone ("driver cycle idle at " +:+ Us_CurrentVersion st)
    else wait_outcome "driver cycle not started yet"
  else if driver_ended_badly state then
    event_outcome EventApplyFailed ("driver state " +:+ state +:+ ": " +:+ Us_Message st)
  else if bool_decide (state = UpgradeStateRebootRequired) || bool_decide (state = UpgradeStateRebooting) then
    event_outcome EventRebootRequired "driver upgrade is rebooting the node"
  else if bool_decide (state = UpgradeStateRollback) then
    event_outcome EventApplyFailed "driver upgrade entered rollback"
  else wait_outcome ("driver state " +:+ state).

Definition rollbackOutcomeFor (st : DriverUpgradeStateStatus) : Outcome :=
  let state := Us_State st in
  if bool_decide (state = UpgradeStateIdle) then
    event_outcome EventCompensated ("driver restored to " +:+ Us_CurrentVersion st)
  else if driver_ended_badly state then
    event_outcome EventCompensationFailed ("driver rollback ended in " +:+ state)
  else wait_outcome ("driver rollback in progress: " +:+ state).

(** The zero [verification.Request]. *)
Definition no_request : Request :=
  mkRequest "" "" "" 0 (mkExpectation "" 0 "" ∅ "") ∅ ∅ [] "" 0 false.

Section Participant.
Context {W : Type} `{UpgradeAPI W} `{Clock W} `{MapRange} `{Requirements} `{Versions}.
Context (ns : string).

(** The machine's error and the write's: the status is written first either way. *)
Definition advance_state (policy : DriverInstallPolicy) : M (DriverUpgradeState * W) DriverUpgradeStateStatus :=
  r ← try (TransitionState ns policy);
  _ ← update_status;
  match r with inr e => throw e | inl _ => the_status end.
Definition run_on {A} (d : DriverUpgradeState) (m : M (DriverUpgradeState * W) A) : M W A := λ w,
  let '(r, (_, w')) := m (d, w) in (r, w').

Definition advance (op : AcceleratorOperation) : M W (option DriverUpgradeStateStatus) :=
  let owner := Spec_Owner (Op_Spec op) in
  g ← try (dus_get (Owner_Name owner));
  match g with
  | inr e => if is_not_found e then mret None else throw e
  | inl d =>
      if negb (bool_decide (Owner_UID owner = "")) && negb (bool_decide (Dus_UID d = Owner_UID owner)) then
        throw (errorf ("owner uid mismatch for " +:+ quote (Owner_Name owner)))
      else
        p ← findMatchingPolicy (Dus_Vendor d) (Dus_Model d);
        match p with
        | None => throw (errorf ("no driver install policy for node " +:+ quote (Dus_NodeName d)))
        | Some policy => Some <$> run_on d (advance_state policy)
        end
  end.

Definition driver_Apply (op : AcceleratorOperation) : M W Outcome :=
  st ← try (advance op);
  mret (match st with
        | inr e => event_outcome EventApplyFailed (err_msg e)
        | inl None => event_outcome EventApplyFailed "driver upgrade state is gone"
        | inl (Some st) => driverOutcomeFor st
        end).
Definition driver_Rollback (op : AcceleratorOperation) : M W Outcome :=
  st ← try (advance op);
  mret (match st with
        | inl (Some st) => rollbackOutcomeFor st
        | _ => wait_outcome "rollback pass failed"
        end).
Definition driverParticipant : Participant W :=
  mkParticipant
    (λ op, (λ out, (out, op)) <$> driver_Apply op)
    driver_Rollback
    (λ _, mret (no_request, false)).
End Participant.

(** ** Properties *)

Definition outcome_states : list string :=
  [UpgradeStateIdle; ""; UpgradeStateFailed; UpgradeStateUnverifiedVersion; UpgradeStateHostAhead; UpgradeStateRebootRequired;
   UpgradeStateRebooting; UpgradeStateRollback].
Ltac outcome_cases :=
  simpl; split_and!; split; intros; destruct_and?; destruct_or?; try done; try lia; auto.

(** The coordinator hears that a driver upgrade is applied exactly when its
    cycle is idle at the version it was to reach, or has none to reach; a state
    that never comes back from the outside (Failed, an unverified version, a
    host ahead of the policy, a rollback) is a failure, a reboot is announced,
    and every other state is waited for. *)
Theorem driverOutcomeFor_events (st : DriverUpgradeStateStatus) :
  let idle := bool_decide (Us_State st = UpgradeStateIdle) || bool_decide (Us_State st = "") in
  let ended := contains_string [UpgradeStateFailed; UpgradeStateUnverifiedVersion; UpgradeStateHostAhead; UpgradeStateRollback] (Us_State st) in
  let reboot := contains_string [UpgradeStateRebootRequired; UpgradeStateRebooting] (Us_State st) in
  (Out_Event (driverOutcomeFor st) = EventApplyDone ↔
     idle = true ∧ (Us_DesiredVersion st = "" ∨ Us_CurrentVersion st = Us_DesiredVersion st))
  ∧ (Out_Event (driverOutcomeFor st) = EventApplyFailed ↔ ended = true)
  ∧ (Out_Event (driverOutcomeFor st) = EventRebootRequired ↔ reboot = true)
  ∧ (Out_Event (driverOutcomeFor st) = "" ↔ 0 < Out_RequeueAfter (driverOutcomeFor st)).
Proof.
  unfold driverOutcomeFor, driver_ended_badly. generalize (Us_State st) as s. intros s.
  assert (Hr : Us_DesiredVersion st = "" ∨ Us_CurrentVersion st = Us_DesiredVersion st ↔
    bool_decide (Us_DesiredVersion st = "") || bool_decide (Us_CurrentVersion st = Us_DesiredVersion st) = true).
  { by rewrite orb_true_iff, !bool_decide_eq_true. }
  rewrite Hr. clear Hr. generalize (bool_decide (Us_DesiredVersion st = "") || bool_decide (Us_CurrentVersion st = Us_DesiredVersion st)).
  intros reached. destruct (decide (s ∈ outcome_states)) as [Hs|Hs].
  - unfold outcome_states in Hs. rewrite !elem_of_cons, elem_of_nil in Hs.
    destruct reached; repeat destruct Hs as [->|Hs]; try done; outcome_cases.
  - unfold outcome_states in Hs. rewrite !elem_of_cons, elem_of_nil in Hs. unfold contains_string. simpl.
    rewrite !bool_decide_eq_false_2 by (intros ?; subst; tauto). outcome_cases.
Qed.
