(* ===== verification/Uninstall.v ===== *)
(** * internal/uninstall: the gate before helm uninstall

    Models [gate.go]: while a pod uses an accelerator nothing is deleted; otherwise
    the objects the operator left are, the custom resources in tiers, each awaited
    when its finalizer cleans up after it.  Only the log (whose failures the code
    ignores), the client set-up of [Run] and the totals that only the log prints are
    left out.  The API is [UninstallAPI]; the wait is a loop without a bound, so it
    takes fuel and answers [None] when the fuel is gone. *)

From S2P Require Import Prelude GoStrings GoTime Naming ApiTypes IntentResources UpgradeTypes PartitionTypes.

(** ** Objects and the API *)

(** What the gate reads of an object of any kind. *)
Record Object := mkObject {
  Ob_Kind : string;
  Ob_Namespace : string;
  Ob_Name : string;
  Ob_Labels : gmap string string;
  Ob_Annotations : gmap string string;
  Ob_Finalizers : list string;
  (** [metadata.deletionTimestamp] is set *)
  Ob_Deleting : bool;
}.
#[export] Instance Object_eq_dec : EqDecision Object.
Proof. solve_decision. Defined.
(** [item.SetFinalizers(nil)] *)
Definition no_finalizers (o : Object) : Object :=
  mkObject (Ob_Kind o) (Ob_Namespace o) (Ob_Name o) (Ob_Labels o) (Ob_Annotations o) [] (Ob_Deleting o).

(** A container's [resources], and what the gate reads of a pod. *)
Record ContainerUse := mkContainerUse { Cu_Limits : gmap string Z; Cu_Requests : gmap string Z }.
Record PodUse := mkPodUse {
  Pu_Namespace : string;
  Pu_Name : string;
  Pu_Phase : string;
  Pu_InitContainers : list ContainerUse;
  Pu_Containers : list ContainerUse;
  (** the names in [spec.resourceClaims] *)
  Pu_ResourceClaims : list string;
}.

Class UninstallAPI (W : Type) := {
  list_pods : M W (list PodUse);
  (** [List] of a kind, in a namespace and with a component label where the caller asks *)
  list_objects : string → option string → option string → M W (list Object);
  get_object : string → string → string → M W Object;
  (** [background]: the propagation policy is given as [Background] *)
  delete_object : Object → bool → M W ();
  update_object : Object → M W ();
  (** [select] on [ctx.Done()] and [time.After d]: throws the context's error *)
  wait_for : Z → M W ();
}.

(** [runtime.Scheme]: the registered (group/version, kind) pairs. *)
Notation Scheme := (gset (string * string)).

(** ** Names *)

Definition acceleratorDomains `{MapRange} : list string := AcceleratorResourceDomains.
Definition waitKinds : gmap string bool :=
  {[ "NPUClusterPolicy" := true; "DriverInstallPolicy" := true; "AcceleratorPartitionPolicy" := true ]}.
Definition managedComponents : list string :=
  ["driver"; "toolkit"; "telemetry"; "dra-driver"; "generated-dra-driver"; "generated-device-plugin";
   "mps-control-daemon"].
Definition managedJobComponents : list string :=
  ["mig-observe"; "mig-apply"; "driver-install"; "node-reboot"; "device-reset"].
Definition componentLabel : string := "app.kubernetes.io/component".
Definition ownerAnnotation : string := "npu.ai/owner".
Definition KubeSystemNamespace : string := "kube-system".
Definition GroupVersion : string := "npu.ai/v1alpha1".

(** [SchemeBuilder.Register]: every kind with its list. *)
Definition registered_kinds : list string :=
  ["NPUClusterPolicy"; "NodeDeviceReport"; "DriverInstallPolicy"; "DriverUpgradeState"; "AcceleratorPartitionPolicy";
   "AcceleratorClass"; "AcceleratorWorkload"; "AcceleratorEvidence"; "AcceleratorVerificationPolicy";
   "AcceleratorOperation"; "AcceleratorDescriptor"; "AcceleratorHealth"; "AcceleratorHealthPolicy"].
Definition npu_scheme : Scheme :=
  list_to_set (registered_kinds ≫= λ k, [(GroupVersion, k); (GroupVersion, k +:+ "List")]).

(** ** Options *)

Record Options := mkOptions { SkipUsageCheck : bool; Timeout_ : Z; Poll : Z }.
Definition OptionsFromEnv `{Environment} : Options :=
  let skip := bool_decide (Getenv "UNINSTALL_SKIP_USAGE_CHECK" = "true") in
  let v := Getenv "UNINSTALL_TIMEOUT" in
  let timeout := if bool_decide (v = "") then 5 * minute else default (5 * minute) (parse_duration v) in
  mkOptions skip timeout (2 * second).

(** ** Who uses an accelerator *)

Section Use.
Context `{MapRange}.

Definition isAcceleratorResource (name : string) : bool := existsb (has_prefix name) acceleratorDomains.
Definition note_resources (found : gset string) (rl : gmap string Z) : gset string :=
  foldl (λ found '(name, _), if isAcceleratorResource name then {[name]} ∪ found else found) found (range_map rl).
Definition acceleratorUse (p : PodUse) : string :=
  let ctrs := Pu_InitContainers p ++ Pu_Containers p in
  let found := foldl (λ found c, foldl note_resources found [Cu_Limits c; Cu_Requests c]) ∅ ctrs in
  if 0 <? Z.of_nat (size found) then join "," (sort_strings (elements found))
  else if 0 <? Z.of_nat (length (Pu_ResourceClaims p))
    then "resourceClaim:" +:+ join "," (sort_strings (Pu_ResourceClaims p))
  else "".

Record Consumer := mkConsumer { Co_Namespace : string; Co_Name : string; Co_Resource : string }.
Definition ended (p : PodUse) : bool := bool_decide (Pu_Phase p = PodSucceeded) || bool_decide (Pu_Phase p = PodFailed).
Definition consumer_of (p : PodUse) : option Consumer :=
  if ended p then None
  else let res := acceleratorUse p in
       if bool_decide (res = "") then None else Some (mkConsumer (Pu_Namespace p) (Pu_Name p) res).
End Use.

(** ** The kinds and their order *)

Definition crKinds (s : Scheme) : list string :=
  sort_strings (omap (λ '(gv, kind),
    if negb (bool_decide (gv = GroupVersion)) || has_suffix kind "List" then None
    else if negb (bool_decide ((GroupVersion, kind +:+ "List") ∈ s)) then None
    else Some kind) (elements s)).
Definition tier_first : string := "AcceleratorWorkload".
Definition tier_last : list string := ["NPUClusterPolicy"; "DriverInstallPolicy"].
Definition crTiers (s : Scheme) : list (list string) :=
  let kinds := crKinds s in
  let hasFirst := existsb (λ k, bool_decide (k = tier_first)) kinds in
  let mid := filter (λ k, k ≠ tier_first ∧ k ∉ tier_last) kinds in
  (if hasFirst then [[tier_first]] else []) ++ (if 0 <? Z.of_nat (length mid) then [mid] else [])
  ++ ((λ k, [k]) <$> tier_last).

(** ** Ownership *)

Definition operatorOwned (o : Object) : bool :=
  if bool_decide (is_Some (Ob_Annotations o !! ownerAnnotation)) then true
  else let comp := mget "" (Ob_Labels o) componentLabel in existsb (λ c, bool_decide (comp = c)) managedComponents.
Definition cleanupNamespaces `{Environment} : list string :=
  let ns := OperatorNamespace (Getenv "OPERATOR_NAMESPACE") in
  [KubeSystemNamespace] ++ (if bool_decide (ns = KubeSystemNamespace) then [] else [ns]).
Definition managedDaemonSets `{Environment} : list (string * string) :=
  let ks := KubeSystemNamespace in
  let ns := OperatorNamespace (Getenv "OPERATOR_NAMESPACE") in
  ((λ n, (ks, n)) <$>
    ["furiosa-warboy-device-plugin"; "furiosa-rngd-device-plugin"; "furiosa-device-plugin";
     "furiosa-unified-device-plugin"; "nvidia-device-plugin"; "nvidia-device-plugin-flat"; "rbln-device-plugin";
     "nvidia-toolkit"; "kcloud-nvidia-toolkit"; "dcgm-exporter"; "kcloud-dcgm-exporter"; "nvidia-mps-control-daemon"])
  ++ ((λ n, (ns, n)) <$>
    ["kcloud-tt-device-plugin"; "kcloud-furiosa-device-plugin"; "kcloud-furiosa-warboy-device-plugin";
     "kcloud-furiosa-rngd-device-plugin"; "kcloud-node-manager"; "kcloud-furiosa-exporter"]).

(** ** The gate *)

Section Gate.
Context {W : Type} `{UninstallAPI W, Clock W} `{MapRange, Environment}.
Notation IO := (M W).
Implicit Types (kind : string) (opt : Options).

Definition Consumers : IO (list Consumer) :=
  pods ← list_pods;
  mret (sort_slice (lex_less Co_Namespace Co_Name) (omap consumer_of pods)).

(** [client.IgnoreNotFound(c.Delete(o))], and the caller's wrapping of the rest. *)
Definition delete_there (o : Object) (background : bool) (wrap : GoErr → GoErr) : IO () :=
  r ← try (delete_object o background);
  match r with
  | inr e => if is_not_found e then mret () else throw (wrap e)
  | inl _ => mret ()
  end.

(** No match: the CRD is already gone. *)
Definition listKind kind : IO (list Object) :=
  r ← try (list_objects kind None None);
  match r with
  | inr e => if is_no_match e || is_not_found e then mret [] else throw e
  | inl items => mret items
  end.
Definition deleteKind kind : IO Z :=
  items ← listKind kind;
  _ ← for_each (λ o, delete_there o false id) items;
  mret (Z.of_nat (length items)).

Definition strip (item : Object) : IO () :=
  r ← try (update_object (no_finalizers item));
  match r with
  | inr e => if is_not_found e then mret ()
             else throw (errorf_w (Ob_Namespace item +:+ "/" +:+ Ob_Name item +:+ " finalizer 제거 실패") e)
  | inl _ => mret ()
  end.
(** The rounds of [waitGone]; [None]: the loop is still going. *)
Fixpoint wait_rounds (fuel : nat) kind (deadline poll : Z) : IO (option ()) :=
  match fuel with
  | O => mret None
  | S k =>
      r ← try (listKind kind);
      match r with
      | inr e => throw (errorf_w (kind +:+ " 조회 실패") e)
      | inl items =>
          if Z.of_nat (length items) =? 0 then mret (Some ())
          else
            now ← read_clock;
            if time_after now deadline then (_ ← for_each strip items; mret (Some ()))
            else (_ ← wait_for poll; wait_rounds k kind deadline poll)
      end
  end.
Definition waitGone (fuel : nat) kind opt : IO (option ()) :=
  now ← read_clock;
  wait_rounds fuel kind (time_add now (Timeout_ opt)) (Poll opt).

(** [a]; when it has come to its end, [b]. *)
Definition then_go (a b : IO (option ())) : IO (option ()) :=
  r ← a;
  match r with None => mret None | Some _ => b end.
Fixpoint each_go {A} (f : A → IO (option ())) (l : list A) : IO (option ()) :=
  match l with
  | [] => mret (Some ())
  | x :: l => then_go (f x) (each_go f l)
  end.
Definition delete_tier (fuel : nat) opt (tier : list string) : IO (option ()) :=
  _ ← for_each (λ kind,
    r ← try (deleteKind kind);
    match r with inr e => throw (errorf_w (kind +:+ " 삭제 실패") e) | inl _ => mret () end) tier;
  each_go (λ kind, if mget false waitKinds kind then waitGone fuel kind opt else mret (Some ())) tier.
Definition deleteCRs (s : Scheme) (fuel : nat) opt : IO (option ()) := each_go (delete_tier fuel opt) (crTiers s).

(** Every object of the list that is ours; how many. *)
Definition sweep kind (ns component : option string) : IO Z :=
  r ← try (list_objects kind ns component);
  match r with
  | inr e => throw (errorf_w (kind +:+ " 조회 실패") e)
  | inl items =>
      let ours := filter (λ o, operatorOwned o = true) items in
      _ ← for_each (λ o, delete_there o false
        (errorf_w (kind +:+ " " +:+ Ob_Namespace o +:+ "/" +:+ Ob_Name o +:+ " 삭제 실패"))) ours;
      mret (Z.of_nat (length ours))
  end.
Definition sweep_ kind ns component : IO () := _ ← sweep kind ns component; mret ().

Definition deleteOwnedObjects : IO () :=
  _ ← for_each (λ kind, sweep_ kind None None) ["ClusterRole"; "ClusterRoleBinding"];
  for_each (λ ns, for_each (λ kind, sweep_ kind (Some ns) None) ["ServiceAccount"; "ConfigMap"]) cleanupNamespaces.

Definition ds_error (key : string * string) (what : string) : GoErr → GoErr :=
  errorf_w ("DaemonSet " +:+ key.1 +:+ "/" +:+ key.2 +:+ what).
Definition delete_named (key : string * string) : IO () :=
  r ← try (get_object "DaemonSet" key.1 key.2);
  match r with
  | inr e => if is_not_found e then mret () else throw (ds_error key " 조회 실패" e)
  | inl ds => if negb (operatorOwned ds) then mret () else delete_there ds false (ds_error key " 삭제 실패")
  end.
Definition deleteDaemonSets : IO () :=
  _ ← for_each delete_named managedDaemonSets;
  for_each (λ ns, for_each (λ comp, sweep_ "DaemonSet" (Some ns) (Some comp)) managedComponents) cleanupNamespaces.

Definition delete_jobs_of (ns comp : string) : IO () :=
  r ← try (list_objects "Job" (Some ns) (Some comp));
  match r with
  | inr e => throw (errorf_w ("job 조회 실패(" +:+ ns +:+ ", " +:+ comp +:+ ")") e)
  | inl items => for_each (λ o, delete_there o true
      (errorf_w ("job " +:+ ns +:+ "/" +:+ Ob_Name o +:+ " 삭제 실패"))) items
  end.
Definition deleteJobs : IO () :=
  for_each (λ ns, for_each (delete_jobs_of ns) managedJobComponents) cleanupNamespaces.

Definition usage_check opt : IO () :=
  if negb (SkipUsageCheck opt) then
    r ← try Consumers;
    match r with
    | inr e => throw (errorf_w "pod 목록 조회 실패" e)
    | inl users =>
        if 0 <? Z.of_nat (length users)
        then throw (errorf ("가속기 사용 Pod " +:+ sprint_Z (Z.of_nat (length users)) +:+ " 개로 삭제 보류"))
        else mret ()
    end
  else mret ().
Definition Execute (s : Scheme) (fuel : nat) opt : IO (option ()) :=
  _ ← usage_check opt;
  then_go (deleteCRs s fuel opt)
    (_ ← deleteDaemonSets; _ ← deleteJobs; _ ← deleteOwnedObjects; mret (Some ())).
End Gate.
