(* ===== verification/UninstallSafety.v ===== *)
(** * The uninstall gate: what it spares, what it leaves behind

    The store as the API server keeps it ([UninstallLaws]), the gate's refusal while a
    pod uses an accelerator, the objects it never touches, the ones it has asked the
    server to delete when it succeeds, and the end of its wait. *)

From S2P Require Import Prelude GoStrings GoText GoTime Naming ApiTypes IntentResources UpgradeTypes PartitionTypes Uninstall.

(** ** The store *)

Notation Key := (string * string * string)%type.
Definition key_of (o : Object) : Key := (Ob_Kind o, Ob_Namespace o, Ob_Name o).
Definition component_of (o : Object) : string := mget "" (Ob_Labels o) componentLabel.
(** What [List] with these options selects. *)
Definition selected (kind : string) (ns comp : option string) (o : Object) : Prop :=
  Ob_Kind o = kind ∧ (∀ n, ns = Some n → Ob_Namespace o = n) ∧ (∀ c, comp = Some c → component_of o = c).

(** The API server: reads answer from the store, a delete touches the object of its
    key only and removes it or marks it (finalizers keep it), an update neither
    revives an object nor touches another. *)
Class UninstallLaws (W : Type) `{UninstallAPI W, Clock W} := {
  stored : W → gmap Key Object;
  cleared (w : W) (k : Key) : Prop := match stored w !! k with None => True | Some o => Ob_Deleting o = true end;
  stored_key w k o : stored w !! k = Some o → key_of o = k;
  stored_pods : keeps stored list_pods;
  stored_clock w : stored (time_now w).2 = stored w;
  stored_list kind ns comp : keeps stored (list_objects kind ns comp);
  stored_get kind ns name : keeps stored (get_object kind ns name);
  list_says kind ns comp w items w' : list_objects kind ns comp w = (inl items, w') →
    ∀ o, o ∈ items ↔ stored w !! key_of o = Some o ∧ selected kind ns comp o;
  list_without_kind kind w e w' : list_objects kind None None w = (inr e, w') →
    is_no_match e || is_not_found e = true → ∀ k, k.1.1 = kind → stored w !! k = None;
  get_says kind ns name w o w' : get_object kind ns name w = (inl o, w') → stored w !! (kind, ns, name) = Some o;
  get_missing kind ns name w e w' : get_object kind ns name w = (inr e, w') → is_not_found e = true →
    stored w !! (kind, ns, name) = None;
  delete_others o bg w k : k ≠ key_of o → stored (delete_object o bg w).2 !! k = stored w !! k;
  delete_effect o bg w : let w' := (delete_object o bg w).2 in
    stored w' !! key_of o = stored w !! key_of o ∨ cleared w' (key_of o);
  delete_says o bg w r w' : delete_object o bg w = (r, w') →
    (∀ e, r = inr e → is_not_found e = true) → cleared w' (key_of o);
  update_others o w k : k ≠ key_of o → stored (update_object o w).2 !! k = stored w !! k;
  update_cleared o w : cleared w (key_of o) → cleared (update_object o w).2 (key_of o);
}.

(** ** What counts as use *)

Section Use.
Context `{MapRange}.

Definition accelerator_name (name : string) : Prop := ∃ d t, d ∈ AcceleratorResourceDomains ∧ name = d +:+ t.
Definition names_accelerator (c : ContainerUse) : Prop :=
  ∃ name, accelerator_name name ∧ (is_Some (Cu_Limits c !! name) ∨ is_Some (Cu_Requests c !! name)).
Definition uses_accelerator (p : PodUse) : Prop :=
  (∃ c, c ∈ Pu_InitContainers p ++ Pu_Containers p ∧ names_accelerator c) ∨ Pu_ResourceClaims p ≠ [].

Lemma isAcceleratorResource_true name : isAcceleratorResource name = true ↔ accelerator_name name.
Proof.
  unfold isAcceleratorResource. rewrite existsb_exists. unfold accelerator_name, acceleratorDomains. split.
  - intros (d & Hd & [t E]%has_prefix_true). exists d, t. by rewrite list_elem_of_In.
  - intros (d & t & Hd & E). exists d. rewrite <-list_elem_of_In, has_prefix_true. eauto.
Qed.
Lemma note_resources_spec found rl name : name ∈ note_resources found rl ↔
  name ∈ found ∨ accelerator_name name ∧ is_Some (rl !! name).
Proof.
  unfold note_resources.
  transitivity (name ∈ found ∨ accelerator_name name ∧ name ∈ (range_map rl).*1).
  - generalize (range_map rl). intros l. revert found. induction l as [|[n q] l IH]; intros found; simpl.
    { set_solver. }
    rewrite IH, elem_of_cons. destruct (isAcceleratorResource n) eqn:E.
    + apply isAcceleratorResource_true in E. set_solver.
    + assert (¬ accelerator_name n) by (rewrite <-isAcceleratorResource_true; congruence). naive_solver.
  - f_equiv. f_equiv. rewrite list_elem_of_fmap. split.
    + intros ([n q] & -> & Hq%elem_of_range_map). by eexists.
    + intros [q Hq]. exists (name, q). by rewrite elem_of_range_map.
Qed.
Definition found_in (ctrs : list ContainerUse) (found : gset string) : gset string :=
  foldl (λ found c, foldl note_resources found [Cu_Limits c; Cu_Requests c]) found ctrs.
Lemma found_in_spec ctrs found name : name ∈ found_in ctrs found ↔ name ∈ found ∨
  accelerator_name name ∧ ∃ c, c ∈ ctrs ∧ (is_Some (Cu_Limits c !! name) ∨ is_Some (Cu_Requests c !! name)).
Proof.
  revert found. induction ctrs as [|c ctrs IH]; intros found; simpl; [set_solver|].
  fold (found_in ctrs). rewrite IH, !note_resources_spec. setoid_rewrite elem_of_cons. naive_solver.
Qed.
Lemma join_nonempty l x : x ∈ l → x ≠ "" → join "," l ≠ "".
Proof.
  destruct l as [|y [|z l]]; [by intros ?%elem_of_nil|by intros ->%list_elem_of_singleton|].
  intros _ _. rewrite join_cons by done. intros E. apply (f_equal String.length) in E.
  rewrite !string_app_length in E. cbn in E. lia.
Qed.
Lemma domains_nonempty d : d ∈ AcceleratorResourceDomains → d ≠ "".
Proof.
  unfold AcceleratorResourceDomains. rewrite elem_of_sort_strings.
  assert (Hdom : ∀ res d, d ∈ domain_of res → d ≠ "").
  { intros res e. unfold domain_of. destruct (cut_at "/" res) as [[x y]|]; [|by intros ?%elem_of_nil].
    intros ->%list_elem_of_singleton E. apply (f_equal String.length) in E. rewrite string_app_length in E. cbn in E. lia. }
  assert (Hfold : ∀ l acc, Forall (λ d, d ≠ "") l → Forall (λ d, d ≠ "") acc →
    Forall (λ d, d ≠ "") (foldl (λ domains d, if bool_decide (d ∈ domains) then domains else domains ++ [d]) acc l)).
  { induction l as [|e l IH]; intros acc Hl Ha; simpl; [done|]. apply Forall_cons in Hl as [He Hl].
    apply IH; [done|]. case_bool_decide; [done|]. apply Forall_app. by rewrite Forall_singleton. }
  intros Hd. refine (proj1 (Forall_forall _ _) (Hfold _ [] _ _) d Hd); [|by apply Forall_nil].
  apply Forall_forall. intros e He. apply list_elem_of_bind in He as ([v ps] & He & _).
  apply list_elem_of_bind in He as ([q res] & He & _). by eapply Hdom.
Qed.
Lemma accelerator_name_nonempty name : accelerator_name name → name ≠ "".
Proof. intros (d & t & Hd%domains_nonempty & ->). by destruct d. Qed.

Lemma acceleratorUse_spec p : acceleratorUse p ≠ "" ↔ uses_accelerator p.
Proof.
  unfold acceleratorUse, uses_accelerator, names_accelerator. fold (found_in (Pu_InitContainers p ++ Pu_Containers p) ∅).
  set (found := found_in _ _). assert (Hf := found_in_spec (Pu_InitContainers p ++ Pu_Containers p) ∅). fold found in Hf.
  destruct (0 <? Z.of_nat (size found)) eqn:Es.
  - apply Z.ltb_lt in Es. destruct (set_choose_L found) as [x Hx]; [by intros ->; rewrite size_empty in Es|].
    split; [|intros _].
    + intros _. left. apply Hf in Hx as [?|(Hn & c & Hc & Hl)]; [set_solver|]. eauto.
    + apply (join_nonempty _ x); [by rewrite elem_of_sort_strings, elem_of_elements|].
      apply Hf in Hx as [?|[Hn _]]; [set_solver|]. by apply accelerator_name_nonempty.
  - assert (found = ∅) as E0 by (apply leibniz_equiv, size_empty_inv; lia).
    assert (¬ ∃ c, c ∈ Pu_InitContainers p ++ Pu_Containers p ∧ ∃ name, accelerator_name name ∧
      (is_Some (Cu_Limits c !! name) ∨ is_Some (Cu_Requests c !! name))) as Hno.
    { intros (c & Hc & name & Hn & Hl). assert (name ∈ found) as Hin by (apply Hf; eauto 6). set_solver. }
    destruct (Pu_ResourceClaims p) as [|r l]; simpl; [naive_solver|]. split; [by right|done].
Qed.
Lemma consumer_of_Some p : is_Some (consumer_of p) ↔ ended p = false ∧ uses_accelerator p.
Proof.
  rewrite <-acceleratorUse_spec. unfold consumer_of. destruct (ended p); [by split; [intros []|intros []]|].
  case_bool_decide; split; [by intros []|naive_solver|done|by eexists].
Qed.
Lemma omap_nil_iff {A B} (f : A → option B) l : omap f l = [] ↔ ∀ x, x ∈ l → f x = None.
Proof.
  induction l as [|x l IH]; simpl; [split; [intros _ y ?%elem_of_nil|]; done|].
  setoid_rewrite elem_of_cons. destruct (f x) eqn:E; [split; [done|intros Hn; specialize (Hn x); naive_solver]|].
  rewrite IH. naive_solver.
Qed.
End Use.

(** ** What every run preserves *)

Section Runs.
Context {W : Type} `{UninstallLaws W} `{MapRange, Environment}.
Implicit Types (P : W → Prop) (s : Scheme) (w : W).

(** What the gate deletes: custom resources by kind; the rest as they were read, by
    label, name or owner mark. *)
Definition to_delete s (o : Object) : Prop :=
  let kind := Ob_Kind o in
  let here := Ob_Namespace o ∈ cleanupNamespaces in
  kind ∈ mjoin (crTiers s) ∨
  (kind = "DaemonSet" ∧ (here ∧ component_of o ∈ managedComponents ∨
     operatorOwned o = true ∧ (Ob_Namespace o, Ob_Name o) ∈ managedDaemonSets) ∨
   kind = "Job" ∧ here ∧ component_of o ∈ managedJobComponents ∨
   kind ∈ ["ClusterRole"; "ClusterRoleBinding"] ∧ operatorOwned o = true ∨
   kind ∈ ["ServiceAccount"; "ConfigMap"] ∧ here ∧ operatorOwned o = true).

(** [P] survives the reads, the waits, and the writes to what was read as such from a
    store that satisfied [R]. *)
Class Kept s (R P : W → Prop) := {
  kept_reads w : P w → R w;
  kept_stored w w' : stored w' = stored w → P w → P w';
  kept_wait d w : P w → P (wait_for d w).2;
  kept_delete o bg w w0 : to_delete s o → R w0 → stored w0 !! key_of o = Some o → P w → P (delete_object o bg w).2;
  kept_update o w w0 : Ob_Kind o ∈ mjoin (crTiers s) → R w0 → stored w0 !! key_of o = Some o → P w → P (update_object (no_finalizers o) w).2;
}.

Context s (R P : W → Prop) `{HK : !Kept s R P}.
Lemma P_R w : P w → R w.
Proof. exact (kept_reads w). Qed.
Notation inv m := (preserves P m).
(** Read as an object to delete from a store that satisfied [R]. *)
Definition read_ours (o : Object) : Prop := to_delete s o ∧ ∃ w0, R w0 ∧ stored w0 !! key_of o = Some o.

Lemma inv_reads {A} (m : M W A) : keeps stored m → inv m.
Proof. intros Hm w HP. unfold wp. apply (kept_stored w); [apply Hm|done]. Qed.
Lemma inv_clock : inv read_clock.
Proof.
  intros w HP. unfold wp, read_clock. assert (Hc := stored_clock w). destruct (time_now w) as [t w'].
  by apply (kept_stored w).
Qed.
Lemma inv_go a b : inv a → inv b → inv (then_go a b).
Proof. intros Ha Hb. apply preserves_bind; [done|]. intros [[]|]; [done|by intros w]. Qed.
Lemma inv_each_go {A} (f : A → M W (option ())) l : (∀ x, x ∈ l → inv (f x)) → inv (each_go f l).
Proof.
  induction l as [|x l IH]; intros Hf; simpl; [by intros w|]. apply inv_go; [by apply Hf; left|].
  apply IH. intros y Hy. apply Hf. by right.
Qed.

Lemma inv_delete_there o bg wrap : read_ours o → inv (delete_there o bg wrap).
Proof.
  intros (Ho & w0 & HP0 & E). apply preserves_bind; [apply preserves_try; intros w HP; by apply (kept_delete o bg w w0)|].
  intros [[]|e]; [apply preserves_ret|]. destruct (is_not_found e); [apply preserves_ret|apply preserves_throw].
Qed.
(** A list read, and what is done with each of its objects. *)
Lemma inv_listed {B} kind ns comp (k : list Object + GoErr → M W B) :
  (∀ e, inv (k (inr e))) →
  (∀ items, (∀ o, o ∈ items → selected kind ns comp o ∧ ∃ w0, R w0 ∧ stored w0 !! key_of o = Some o) → inv (k (inl items))) →
  inv (r ← try (list_objects kind ns comp); k r).
Proof.
  intros He Hi w HP. unfold wp. rewrite bind_try. assert (Hs := inv_reads _ (stored_list kind ns comp) w HP). unfold wp in Hs.
  destruct (list_objects kind ns comp w) as [[items|e] w'] eqn:E; simpl in *; [|by apply He].
  apply Hi; [|done]. intros o Ho. apply (list_says _ _ _ _ _ _ E) in Ho as [Ho ?]. eauto using P_R.
Qed.
Definition all_read (q : Object → Prop) (items : list Object) : Prop :=
  ∀ o, o ∈ items → q o ∧ ∃ w0, R w0 ∧ stored w0 !! key_of o = Some o.
Lemma wp_listKind kind w : P w →
  wp (listKind kind) (λ r w', P w' ∧ ∀ items, r = inl items → all_read (λ o, Ob_Kind o = kind) items) w.
Proof.
  intros HP. unfold listKind, wp. rewrite bind_try. assert (Hs := inv_reads _ (stored_list kind None None) w HP).
  unfold wp in Hs. destruct (list_objects kind None None w) as [[items|e] w'] eqn:E; simpl in *.
  - split; [done|]. intros ? [= <-] o Ho. apply (list_says _ _ _ _ _ _ E) in Ho as [Ho (?&_)]. eauto using P_R.
  - destruct (is_no_match e || is_not_found e); (split; [done|]); [|done]. by intros ? [= <-] o ?%elem_of_nil.
Qed.
Lemma all_read_ours kind items o : kind ∈ mjoin (crTiers s) → all_read (λ o, Ob_Kind o = kind) items → o ∈ items → read_ours o.
Proof. intros Hk Hi Ho. destruct (Hi o Ho) as [<- ?]. split; [by left|done]. Qed.

Lemma inv_deleteKind kind : kind ∈ mjoin (crTiers s) → inv (deleteKind kind).
Proof.
  intros Hk w HP. apply wp_bind. eapply wp_mono; [by apply wp_listKind|]. intros [items|e] w' [HP' Hi]; [|done].
  revert w' HP'. apply preserves_bind; [|intros ?; apply preserves_ret]. apply preserves_for_each. intros o Ho. apply inv_delete_there.
  eapply all_read_ours; [done|by apply Hi|done].
Qed.
Lemma inv_strip o : Ob_Kind o ∈ mjoin (crTiers s) → read_ours o → inv (strip o).
Proof.
  intros Hk (Ho & w0 & HP0 & E). apply preserves_bind; [apply preserves_try; intros w HP; by apply (kept_update o w w0)|].
  intros [[]|e]; [apply preserves_ret|]. destruct (is_not_found e); [apply preserves_ret|apply preserves_throw].
Qed.
Lemma inv_wait_rounds fuel kind deadline poll : kind ∈ mjoin (crTiers s) → inv (wait_rounds fuel kind deadline poll).
Proof.
  intros Hk. induction fuel as [|fuel IH]; [apply preserves_ret|]. cbn [wait_rounds]. intros w HP. apply wp_bind, wp_try.
  eapply wp_mono; [by apply wp_listKind|]. intros [items|e] w' [HP' Hi]; [|done].
  destruct (_ =? 0); [done|]. revert w' HP'. apply preserves_bind; [apply inv_clock|]. intros now. destruct (time_after _ _).
  - apply preserves_bind; [|intros ?; apply preserves_ret]. apply preserves_for_each. intros o Ho. assert (Hr := Hi items eq_refl). apply inv_strip.
    + by destruct (Hr o Ho) as [-> _].
    + by eapply all_read_ours.
  - apply preserves_bind; [|intros ?; apply IH]. intros w' HP'. by apply kept_wait.
Qed.
Lemma inv_waitGone fuel kind opt : kind ∈ mjoin (crTiers s) → inv (waitGone fuel kind opt).
Proof. intros Hk. apply preserves_bind; [apply inv_clock|]. intros now. by apply inv_wait_rounds. Qed.
Lemma inv_delete_tier fuel opt tier : tier ∈ crTiers s → inv (delete_tier fuel opt tier).
Proof.
  intros Ht. assert (Hk : ∀ k, k ∈ tier → k ∈ mjoin (crTiers s)) by (intros k Hk; apply list_elem_of_join; eauto).
  apply preserves_bind; [|intros ?].
  - apply preserves_for_each. intros kind Hkind. apply preserves_bind; [by apply preserves_try, inv_deleteKind, Hk|]. by intros [|] w.
  - apply inv_each_go. intros kind Hkind. destruct (mget _ _ _); [by apply inv_waitGone, Hk|apply preserves_ret].
Qed.
Lemma inv_deleteCRs fuel opt : inv (deleteCRs s fuel opt).
Proof. apply inv_each_go. intros tier. apply inv_delete_tier. Qed.

(** Each sweep deletes only what is to delete. *)
Definition sweeps (kind : string) (ns comp : option string) : Prop :=
  ∀ o, selected kind ns comp o → operatorOwned o = true → to_delete s o.
Lemma sweeps_daemonsets ns comp : ns ∈ cleanupNamespaces → comp ∈ managedComponents → sweeps "DaemonSet" (Some ns) (Some comp).
Proof.
  intros Hns Hc o (Hk & Hn & Hcomp) Ho. right. left. split; [done|]. left. by rewrite (Hn ns), (Hcomp comp).
Qed.
Lemma sweeps_roles kind : kind ∈ ["ClusterRole"; "ClusterRoleBinding"] → sweeps kind None None.
Proof. intros Hk o (<- & _) Ho. right. do 2 right. by left. Qed.
Lemma sweeps_local ns kind : ns ∈ cleanupNamespaces → kind ∈ ["ServiceAccount"; "ConfigMap"] → sweeps kind (Some ns) None.
Proof. intros Hns Hk o (<- & Hn & _) Ho. right. do 3 right. by rewrite (Hn ns). Qed.
Lemma inv_sweep_ kind ns comp : sweeps kind ns comp → inv (sweep_ kind ns comp).
Proof.
  intros Hk. apply preserves_bind; [|intros ?; apply preserves_ret]. apply inv_listed; [by intros e w|]. intros items Hi.
  apply preserves_bind; [|intros ?; apply preserves_ret]. apply preserves_for_each. intros o [Ho Hin]%list_elem_of_filter.
  apply inv_delete_there. destruct (Hi o Hin) as [Hsel Hr]. split; [by apply Hk|done].
Qed.
Lemma inv_deleteOwnedObjects : inv deleteOwnedObjects.
Proof.
  apply preserves_bind; [|intros _]; apply preserves_for_each.
  - intros kind Hk. by apply inv_sweep_, sweeps_roles.
  - intros ns Hns. apply preserves_for_each. intros kind Hk. by apply inv_sweep_, sweeps_local.
Qed.
Lemma inv_delete_named key : key ∈ managedDaemonSets → inv (delete_named key).
Proof.
  destruct key as [ns name]. intros Hin w HP. unfold delete_named, wp. rewrite bind_try. simpl.
  assert (Hs := inv_reads _ (stored_get "DaemonSet" ns name) w HP). unfold wp in Hs.
  destruct (get_object "DaemonSet" ns name w) as [[ds|e] w'] eqn:E; simpl in *; [|by destruct (is_not_found e)].
  apply get_says in E. assert (Ek := stored_key _ _ _ E). destruct (operatorOwned ds) eqn:Eo; [|done]. simpl.
  apply inv_delete_there; [|done]. split; [|exists w; rewrite Ek; eauto using P_R].
  unfold key_of in Ek. injection Ek as Ek1 Ek2 Ek3. right. left. split; [done|]. right. by rewrite Ek2, Ek3.
Qed.
Lemma inv_deleteDaemonSets : inv deleteDaemonSets.
Proof.
  apply preserves_bind; [|intros _]; apply preserves_for_each; [intros key; apply inv_delete_named|].
  intros ns Hns. apply preserves_for_each. intros comp Hc. by apply inv_sweep_, sweeps_daemonsets.
Qed.
Lemma inv_delete_jobs_of ns comp : ns ∈ cleanupNamespaces → comp ∈ managedJobComponents → inv (delete_jobs_of ns comp).
Proof.
  intros Hns Hc. apply inv_listed; [by intros e w|]. intros items Hi. apply preserves_for_each. intros o Ho. apply inv_delete_there.
  destruct (Hi o Ho) as [(Hk & Hn & Hcomp) Hr]. split; [|done]. right. right. left.
  rewrite (Hcomp comp), (Hn ns) by done. done.
Qed.
Lemma inv_deleteJobs : inv deleteJobs.
Proof. apply preserves_for_each. intros ns Hns. apply preserves_for_each. intros comp. by apply inv_delete_jobs_of. Qed.
Lemma inv_Execute fuel opt : inv (Execute s fuel opt).
Proof.
  apply preserves_bind; [|intros _; apply inv_go; [apply inv_deleteCRs|]].
  - unfold usage_check. destruct (negb _); [|apply preserves_ret]. apply preserves_bind; [apply preserves_try|].
    + apply preserves_bind; [apply inv_reads, stored_pods|]. intros ?. apply preserves_ret.
    + intros [users|e]; [|apply preserves_throw]. intros w. by destruct (0 <? _).
  - apply preserves_bind; [apply inv_deleteDaemonSets|intros _]. apply preserves_bind; [apply inv_deleteJobs|intros _].
    apply preserves_bind; [apply inv_deleteOwnedObjects|intros _]. apply preserves_ret.
Qed.
End Runs.

(** ** Reaching what must go *)

Section Clears.
Context {W : Type} `{UninstallLaws W} `{MapRange, Environment}.
Context (s : Scheme) (k : Key).
Context (Hquiet : ∀ d w, stored (wait_for d w).2 !! k = stored w !! k ∨ cleared (wait_for d w).2 k).
Implicit Types (w : W) (o : Object).
Notation any := (λ _ : W, True).
Definition gone w : Prop := cleared w k.
(** As it was, or cleared. *)
Definition same_or_gone o w : Prop := stored w !! k = Some o ∨ gone w.

Lemma gone_stored w w' : stored w' !! k = stored w !! k → gone w → gone w'.
Proof. unfold gone, cleared. by intros ->. Qed.
Lemma gone_deleted o bg w : gone w → gone (delete_object o bg w).2.
Proof.
  intros Hg. destruct (decide (k = key_of o)) as [E|Hne]; [|by eapply gone_stored; [apply delete_others|]].
  unfold gone in *. destruct (delete_effect o bg w) as [Es|?]; [|by rewrite E].
  rewrite <-E in Es. by apply (gone_stored w).
Qed.
Lemma gone_updated o w : gone w → gone (update_object o w).2.
Proof.
  intros Hg. destruct (decide (k = key_of o)) as [E|Hne]; [|by eapply gone_stored; [apply update_others|]].
  unfold gone in *. rewrite E in *. by apply update_cleared.
Qed.
#[export] Instance kept_any : Kept s any any.
Proof. by split. Qed.
#[export] Instance kept_gone : Kept s any gone.
Proof.
  split; [done|..].
  - intros w w' E. apply gone_stored. by rewrite E.
  - intros d w Hg. destruct (Hquiet d w) as [E|?]; [|done]. by apply (gone_stored w).
  - intros o bg w w0 _ _ _. apply gone_deleted.
  - intros o w w0 _ _ _. apply gone_updated.
Qed.
#[export] Instance kept_same o : k.1.1 ∉ mjoin (crTiers s) → Kept s any (same_or_gone o).
Proof.
  intros Hk. split; [done|..].
  - intros w w' E [?|?]; [left; by rewrite E|right; apply (gone_stored w); [by rewrite E|done]].
  - intros d w [Es|Hg]; [|right; by apply (kept_wait (Kept := kept_gone))].
    destruct (Hquiet d w) as [E|?]; [left; by rewrite E|by right].
  - intros o' bg w w0 _ _ _ [Es|Hg]; [|right; by apply gone_deleted].
    destruct (decide (k = key_of o')) as [E|Hne]; [|left; by rewrite delete_others].
    unfold same_or_gone, gone. destruct (delete_effect o' bg w) as [E'|?]; [left; by rewrite E, E', <-E|right; by rewrite E].
  - intros o' w w0 Hk' _ _ Hs. assert (k ≠ key_of o') as Hne by (intros E; rewrite E in Hk; done).
    destruct Hs as [?|?]; [left; by rewrite update_others|right; by apply gone_updated].
Qed.

(** Success reaches [gone]. *)
Notation reaches Pre m := (∀ w, Pre w → wp m (λ r w', r = inl () → gone w') w).
Lemma reaches_for_each {A} (Pre : W → Prop) (f : A → M W ()) l x : x ∈ l → reaches Pre (f x) →
  (∀ y, y ∈ l → preserves Pre (f y)) → (∀ y, y ∈ l → preserves gone (f y)) →
  reaches Pre (for_each f l).
Proof.
  intros Hx Hf HPre Hg w HP. revert w HP. induction l as [|y l IH]; intros w HP; [by apply elem_of_nil in Hx|]. simpl.
  apply wp_bind. apply elem_of_cons in Hx as [->|Hin].
  - eapply wp_mono; [by apply Hf|]. intros [[]|e] w' HP'; [|done].
    eapply wp_mono; [apply (wp_for_each gone)|by intros ? ? ? _]; [intros z w1 Hz; apply Hg; by right|by apply HP'].
  - eapply wp_mono; [apply HPre; [by left|done]|]. intros [[]|e] w' HP'; [|done].
    apply IH; [done|intros z Hz; apply HPre; by right|intros z Hz; apply Hg; by right|done].
Qed.
Lemma delete_there_reaches o bg wrap : key_of o = k → reaches any (delete_there o bg wrap).
Proof.
  intros Ek w _. unfold delete_there, wp. rewrite bind_try. assert (Hd := delete_says o bg w).
  destruct (delete_object o bg w) as [r w'] eqn:E. specialize (Hd _ _ eq_refl). rewrite Ek in Hd. simpl.
  destruct r as [[]|e]; simpl; [intros _; apply Hd; naive_solver|].
  destruct (is_not_found e) eqn:En; [|done]. intros _. apply Hd. naive_solver.
Qed.
(** Deleting every object of a list that has ours, unless it is gone already. *)
Lemma delete_all_reaches items bg wrap w : Forall (read_ours s any) items →
  (∀ o, stored w !! k = Some o → Ob_Deleting o = false → o ∈ items) →
  wp (for_each (λ o, delete_there o bg (wrap o)) items) (λ r w', r = inl () → gone w') w.
Proof.
  intros Hall Hin. rewrite Forall_forall in Hall.
  assert (gone w ∨ ∃ o, o ∈ items ∧ key_of o = k) as [Hg|(o & Ho & Ek)].
  { unfold gone, cleared. destruct (stored w !! k) as [o|] eqn:E; [|by left]. destruct (Ob_Deleting o) eqn:Ed; [by left|].
    right. exists o. split; [by apply Hin|by apply (stored_key w)]. }
  - eapply wp_mono; [apply (wp_for_each gone); [|done]|by intros ? ? ? _].
    intros y w1 Hy. apply (inv_delete_there s any gone). by apply Hall.
  - apply (reaches_for_each any _ _ o); [done|by apply delete_there_reaches|done| |done].
    intros y Hy. apply (inv_delete_there s any gone). by apply Hall.
Qed.

Lemma wp_list {B} kind ns comp (f : list Object + GoErr → M W B) Q w :
  (∀ e w', stored w' = stored w → wp (f (inr e)) Q w') →
  (∀ items w', stored w' = stored w → (∀ o, o ∈ items ↔ stored w !! key_of o = Some o ∧ selected kind ns comp o) →
    wp (f (inl items)) Q w') →
  wp (r ← try (list_objects kind ns comp); f r) Q w.
Proof.
  intros He Hi. unfold wp. rewrite bind_try. assert (Hs := stored_list kind ns comp w).
  destruct (list_objects kind ns comp w) as [[items|e] w'] eqn:E; simpl in *; [|by apply He].
  apply Hi; [done|]. by apply (list_says _ _ _ _ _ _ E).
Qed.
Lemma deleteKind_reaches kind w : kind ∈ mjoin (crTiers s) → k.1.1 = kind →
  wp (deleteKind kind) (λ r w', ∀ n, r = inl n → gone w') w.
Proof.
  intros Hk Ek. unfold deleteKind, listKind. apply wp_bind.
  unfold wp. rewrite bind_try. assert (Hs := stored_list kind None None w).
  destruct (list_objects kind None None w) as [[items|e] w'] eqn:E; simpl in *.
  - assert (Hl := list_says _ _ _ _ _ _ E). apply wp_bind. eapply wp_mono; [apply delete_all_reaches|].
    + apply Forall_forall. intros o [? [<- _]]%Hl. split; [by left|by exists w].
    + intros o Eo _. rewrite Hs in Eo. apply Hl. assert (Ek' := stored_key _ _ _ Eo). rewrite Ek'. split; [done|].
      split; [|by split]. by rewrite <-Ek, <-Ek'.
    + intros [[]|e] w1 Hg n [=]. by apply Hg.
  - destruct (is_no_match e || is_not_found e) eqn:En; simpl; [|done]. intros n _.
    unfold gone, cleared. rewrite Hs. by rewrite (list_without_kind _ _ _ _ E En).
Qed.

Lemma each_go_reaches {A} (f : A → M W (option ())) l x : x ∈ l →
  (∀ w, wp (f x) (λ r w', r = inl (Some ()) → gone w') w) → (∀ y, y ∈ l → preserves gone (f y)) →
  ∀ w, wp (each_go f l) (λ r w', r = inl (Some ()) → gone w') w.
Proof.
  intros Hx Hf Hg. induction l as [|y l IH]; intros w; [by apply elem_of_nil in Hx|]. simpl. apply wp_bind.
  apply elem_of_cons in Hx as [->|Hx].
  - eapply wp_mono; [apply Hf|]. intros [[[]|]|e] w' HP'; [|done..].
    eapply wp_mono; [apply (inv_each_go gone); [|by apply HP']|by intros ? ? ? _].
    intros z Hz. apply Hg. by right.
  - eapply wp_mono; [apply wp_true|]. intros [[[]|]|e] w' _; [|done..]. apply IH; [done|]. intros z Hz. apply Hg. by right.
Qed.
Lemma delete_tier_reaches fuel opt tier w : tier ∈ crTiers s → k.1.1 ∈ tier →
  wp (delete_tier fuel opt tier) (λ r w', r = inl (Some ()) → gone w') w.
Proof.
  intros Ht Hk. assert (Hin : ∀ k', k' ∈ tier → k' ∈ mjoin (crTiers s)) by (intros k' Hk'; apply list_elem_of_join; eauto).
  apply wp_bind. eapply wp_mono; [apply (reaches_for_each any _ _ (k.1.1)); [done| |done| |done]|].
  - intros w1 _. apply wp_bind, wp_try. eapply wp_mono; [apply deleteKind_reaches; eauto|].
    intros [n|e] w2 Hg; [|done]. intros _. by eapply Hg.
  - intros y Hy. apply (preserves_bind gone); [by apply (preserves_try gone), (inv_deleteKind s any gone), Hin|].
    by intros [|] w1.
  - intros [[]|e] w1 Hg; [|done]. eapply wp_mono; [apply (inv_each_go gone); [|by apply Hg]|by intros ? ? ? _].
    intros kind Hkind. destruct (mget _ _ _); [by apply (inv_waitGone s any gone), Hin|by intros w2].
Qed.
Lemma deleteCRs_reaches fuel opt w : k.1.1 ∈ mjoin (crTiers s) →
  wp (deleteCRs s fuel opt) (λ r w', r = inl (Some ()) → gone w') w.
Proof.
  intros (tier & Hk & Ht)%list_elem_of_join. revert w. apply (each_go_reaches _ _ tier); [done| |].
  - intros w. by apply delete_tier_reaches.
  - intros tier' Ht'. by apply (inv_delete_tier s any gone).
Qed.

Context (o : Object) (Ek : key_of o = k) (Hcr : k.1.1 ∉ mjoin (crTiers s)).
Notation same := (same_or_gone o).
Lemma same_live w o' : same w → stored w !! k = Some o' → Ob_Deleting o' = false → o' = o.
Proof. intros [E|Hg] E' Hd; [congruence|]. unfold gone, cleared in Hg. rewrite E' in Hg. congruence. Qed.

Lemma sweep_reaches kind ns comp : selected kind ns comp o → operatorOwned o = true →
  sweeps s kind ns comp → reaches same (sweep_ kind ns comp).
Proof.
  intros Hsel Hown Hswept w Hsame. apply wp_bind. apply wp_list; [done|]. intros items w' Es Hl. apply wp_bind.
  eapply wp_mono; [apply delete_all_reaches|].
  - apply Forall_forall. intros o' [Ho' [? Hsel']%Hl]%list_elem_of_filter. split; [by apply Hswept|by exists w].
  - rewrite Es. intros o' E' Hd. apply list_elem_of_filter. rewrite Hl. assert (o' = o) as -> by by eapply same_live.
    by rewrite Ek.
  - intros [[]|e] w1 Hg; [|done]. intros _. by apply Hg.
Qed.
Lemma named_reaches : operatorOwned o = true → k.1.1 = "DaemonSet" → reaches same (delete_named (k.1.2, k.2)).
Proof.
  intros Hown Hkind w Hsame. unfold delete_named. cbn [fst snd]. apply wp_bind, wp_try.
  assert (Hs := stored_get "DaemonSet" (k.1.2) (k.2) w). unfold wp.
  destruct (get_object "DaemonSet" (k.1.2) (k.2) w) as [[ds|e] w'] eqn:E; simpl in *.
  - apply get_says in E. replace ("DaemonSet", k.1.2, k.2) with k in E by (rewrite <-Hkind; by destruct k as [[]]).
    destruct (Ob_Deleting ds) eqn:Ed.
    { assert (gone w') as Hg by (unfold gone, cleared; by rewrite Hs, E).
      destruct (operatorOwned ds) eqn:Eo; [|by intros _]. simpl. intros Hr.
      assert (Hw := delete_there_reaches ds false (ds_error (k.1.2, k.2) " 삭제 실패") (stored_key _ _ _ E) w' I).
      by apply Hw. }
    assert (ds = o) as -> by by eapply same_live. rewrite Hown. simpl.
    by apply (delete_there_reaches o false _ Ek w' I).
  - destruct (is_not_found e) eqn:En; [|done]. simpl. intros _. unfold gone, cleared. rewrite Hs.
    assert (Hm := get_missing _ _ _ _ _ _ E En). rewrite <-Hkind in Hm. replace (k.1.1, k.1.2, k.2) with k in Hm by by destruct k as [[]].
    by rewrite Hm.
Qed.
Lemma jobs_reaches ns comp : selected "Job" (Some ns) (Some comp) o → ns ∈ cleanupNamespaces →
  comp ∈ managedJobComponents → reaches same (delete_jobs_of ns comp).
Proof.
  intros Hsel Hns Hcomp w Hsame. apply wp_list; [done|]. intros items w' Es Hl.
  eapply wp_mono; [apply (delete_all_reaches _ _ (λ o, errorf_w ("job " +:+ ns +:+ "/" +:+ Ob_Name o +:+ " 삭제 실패")))|].
  - apply Forall_forall. intros o' [? (Hk & Hn & Hc)]%Hl. split; [|by exists w].
    right. right. left. by rewrite (Hn ns), (Hc comp).
  - rewrite Es. intros o' E' Hd. rewrite Hl. assert (o' = o) as -> by by eapply same_live. by rewrite Ek.
  - by intros r w1 Hg.
Qed.
(** One element of a loop whose every step keeps both. *)
Lemma reaches_loop {A} (f : A → M W ()) l x : x ∈ l → reaches same (f x) →
  (∀ P, Kept s any P → ∀ y, y ∈ l → preserves P (f y)) → reaches same (for_each f l).
Proof.
  intros Hx Hf Hk. apply (reaches_for_each same _ _ x); [done|done| |].
  - by apply Hk, kept_same.
  - by apply Hk, kept_gone.
Qed.
Lemma reaches_first (m n : M W ()) : reaches same m → (preserves gone n) → reaches same (_ ← m; n).
Proof.
  intros Hm Hn w Hs. apply wp_bind. eapply wp_mono; [by apply Hm|]. intros [[]|e] w' Hg; [|done].
  eapply wp_mono; [by apply Hn, Hg|by intros].
Qed.
Lemma reaches_second (m n : M W ()) : (preserves same m) → reaches same n → reaches same (_ ← m; n).
Proof. intros Hm Hn w Hs. apply wp_bind. eapply wp_mono; [by apply Hm|]. intros [[]|e] w' Hg; [by apply Hn|done]. Qed.

Lemma deleteDaemonSets_reaches : Ob_Kind o = "DaemonSet" →
  Ob_Namespace o ∈ cleanupNamespaces ∧ component_of o ∈ managedComponents ∨
  operatorOwned o = true ∧ (Ob_Namespace o, Ob_Name o) ∈ managedDaemonSets → reaches same deleteDaemonSets.
Proof.
  intros Hkind [[Hns Hcomp]|[Hown Hin]].
  - assert (operatorOwned o = true) as Hown.
    { unfold operatorOwned. case_bool_decide; [done|]. apply existsb_exists. exists (component_of o).
      by rewrite <-list_elem_of_In, bool_decide_true. }
    apply reaches_second.
    + apply (preserves_for_each same). intros key Hkey. by apply (inv_delete_named s any); [apply kept_same|].
    + apply (reaches_loop _ _ (Ob_Namespace o)); [done| |].
      * apply (reaches_loop _ _ (component_of o)); [done| |].
        -- apply sweep_reaches; [|done|by apply sweeps_daemonsets]. split; [done|]. by split; intros ? [= <-].
        -- intros P HP y Hy. by apply (inv_sweep_ s any P), sweeps_daemonsets.
      * intros P HP ns Hn. apply (preserves_for_each P). intros y Hy. by apply (inv_sweep_ s any P), sweeps_daemonsets.
  - apply reaches_first.
    + apply (reaches_loop _ _ (k.1.2, k.2)); [by rewrite <-Ek|apply named_reaches; [done|by rewrite <-Ek]|].
      intros P HP key Hkey. by apply (inv_delete_named s any P).
    + apply (preserves_for_each gone). intros ns Hn. apply (preserves_for_each gone). intros y Hy.
      by apply (inv_sweep_ s any gone), sweeps_daemonsets.
Qed.
Lemma deleteJobs_reaches : Ob_Kind o = "Job" → Ob_Namespace o ∈ cleanupNamespaces →
  component_of o ∈ managedJobComponents → reaches same deleteJobs.
Proof.
  intros Hkind Hns Hcomp. apply (reaches_loop _ _ (Ob_Namespace o)); [done| |].
  - apply (reaches_loop _ _ (component_of o)); [done| |].
    + apply jobs_reaches; [|done..]. split; [done|]. by split; intros ? [= <-].
    + intros P HP y Hy. by apply (inv_delete_jobs_of s any P).
  - intros P HP ns Hn. apply (preserves_for_each P). intros y Hy. by apply (inv_delete_jobs_of s any P).
Qed.
Lemma deleteOwnedObjects_reaches : operatorOwned o = true →
  Ob_Kind o ∈ ["ClusterRole"; "ClusterRoleBinding"] ∨
  Ob_Kind o ∈ ["ServiceAccount"; "ConfigMap"] ∧ Ob_Namespace o ∈ cleanupNamespaces → reaches same deleteOwnedObjects.
Proof.
  intros Hown [Hk|[Hk Hns]].
  - apply reaches_first.
    + apply (reaches_loop _ _ (Ob_Kind o)); [done| |].
      * apply sweep_reaches; [by split|done|by apply sweeps_roles].
      * intros P HP y Hy. by apply (inv_sweep_ s any P), sweeps_roles.
    + apply (preserves_for_each gone). intros ns Hn. apply (preserves_for_each gone). intros y Hy.
      by apply (inv_sweep_ s any gone), sweeps_local.
  - apply reaches_second.
    + apply (preserves_for_each same). intros y Hy. by apply (inv_sweep_ s any); [apply kept_same|apply sweeps_roles].
    + apply (reaches_loop _ _ (Ob_Namespace o)); [done| |].
      * apply (reaches_loop _ _ (Ob_Kind o)); [done| |].
        -- apply sweep_reaches; [|done|by apply sweeps_local]. split; [done|]. by split; [intros ? [= <-]|].
        -- intros P HP y Hy. by apply (inv_sweep_ s any P), sweeps_local.
      * intros P HP ns Hn. apply (preserves_for_each P). intros y Hy. by apply (inv_sweep_ s any P), sweeps_local.
Qed.
Lemma rest_reaches : to_delete s o → reaches same (_ ← deleteDaemonSets; _ ← deleteJobs; deleteOwnedObjects).
Proof.
  intros [Hk|Ho]; [by rewrite <-Ek in Hcr|].
  assert (Hj : ∀ P, Kept s any P → preserves P (_ ← deleteJobs; deleteOwnedObjects)).
  { intros P HP. apply (preserves_bind P); [by apply (inv_deleteJobs s any P)|intros _; by apply (inv_deleteOwnedObjects s any P)]. }
  destruct Ho as [[Hk Ho]|Ho].
  { apply reaches_first; [by apply deleteDaemonSets_reaches|]. by apply Hj, kept_gone. }
  apply reaches_second; [by apply (inv_deleteDaemonSets s any), kept_same|]. destruct Ho as [(Hk & Hns & Hc)|Ho].
  { apply reaches_first; [by apply deleteJobs_reaches|]. by apply (inv_deleteOwnedObjects s any), kept_gone. }
  apply reaches_second; [by apply (inv_deleteJobs s any), kept_same|].
  apply deleteOwnedObjects_reaches; naive_solver.
Qed.
End Clears.


Lemma inv_usage_check {W} `{UninstallLaws W} `{MapRange} s (R P : W → Prop) `{Environment, !Kept s R P} opt :
  preserves P (usage_check opt).
Proof.
  unfold usage_check. destruct (negb _); [|by intros w]. apply (preserves_bind P); [apply (preserves_try P)|].
  - apply (preserves_bind P); [apply (inv_reads s R P), stored_pods|]. by intros ? w.
  - intros [users|e]; [|by intros w]. intros w. by destruct (0 <? _).
Qed.
Lemma Execute_reaches {W} `{UninstallLaws W} `{MapRange, Environment} s k o
    (Hquiet : ∀ d w, stored (wait_for d w).2 !! k = stored w !! k ∨ cleared (wait_for d w).2 k) fuel opt w :
  key_of o = k → to_delete s o → stored w !! k = Some o →
  wp (Execute s fuel opt) (λ r w', r = inl (Some ()) → cleared w' k) w.
Proof.
  intros Ek Ho Hs. apply wp_bind. destruct (decide (k.1.1 ∈ mjoin (crTiers s))) as [Hcr|Hcr].
  - eapply wp_mono; [apply wp_true|]. intros [[]|e] w1 _; [|done]. apply wp_bind.
    eapply wp_mono; [by apply (deleteCRs_reaches s k Hquiet)|]. intros [[[]|]|e] w2 Hg; [|done..].
    assert (Hk := kept_gone s k Hquiet). specialize (Hg eq_refl). eapply (wp_mono _ (λ _ w', gone k w')); [|by intros ? ? ? _]. revert w2 Hg.
    apply (preserves_bind (gone k)); [by apply (inv_deleteDaemonSets s (λ _, True))|intros _].
    apply (preserves_bind (gone k)); [by apply (inv_deleteJobs s (λ _, True))|intros _].
    apply (preserves_bind (gone k)); [by apply (inv_deleteOwnedObjects s (λ _, True))|]. by intros [] w2.
  - assert (Hk := kept_same s k Hquiet o Hcr). eapply wp_mono; [apply (inv_usage_check s (λ _, True) (same_or_gone k o)); by left|].
    intros [[]|e] w1 Hs1; [|done]. apply wp_bind. eapply wp_mono; [by apply (inv_deleteCRs s (λ _, True) (same_or_gone k o))|].
    intros [[[]|]|e] w2 Hs2; [|done..].
    assert (Hr := rest_reaches s k Hquiet o Ek Hcr Ho w2 Hs2). revert Hr.
    unfold wp, mbind, M_bind. destruct (deleteDaemonSets w2) as [[[]|e] w3]; [|done].
    destruct (deleteJobs w3) as [[[]|e] w4]; [|done]. destruct (deleteOwnedObjects w4) as [[[]|e] w5]; [|done].
    simpl. intros Hg _. by apply Hg.
Qed.
