(* ===== verification/UninstallGate.v ===== *)
(** * The uninstall gate: its theorems

    The refusal while a pod uses an accelerator, the objects a run removes and those it
    leaves, the tiers, and the end of the wait; and a small cluster on which they run. *)

From S2P Require Import Prelude GoStrings GoText GoTime Naming ApiTypes IntentResources UpgradeTypes PartitionTypes Uninstall UninstallSafety.

(** ** A cluster that runs

    The store, the pods, and a clock that moves when the gate waits.  An object with
    finalizers is only marked when it is deleted; nobody but the gate acts on it. *)
Record Cluster := mkCluster { C_objects : gmap Key Object; C_pods : list PodUse; C_now : Z }.
Definition mark (o : Object) : Object :=
  mkObject (Ob_Kind o) (Ob_Namespace o) (Ob_Name o) (Ob_Labels o) (Ob_Annotations o) (Ob_Finalizers o) true.
Definition put_objects (m : gmap Key Object) (c : Cluster) : Cluster := mkCluster m (C_pods c) (C_now c).
Definition not_found : GoErr := mkErr KNotFound "not found".
Definition asked (ask : option string) (v : string) : bool :=
  match ask with None => true | Some n => bool_decide (v = n) end.
Lemma asked_true ask v : asked ask v = true ↔ ∀ n, ask = Some n → v = n.
Proof. destruct ask; simpl; [rewrite bool_decide_eq_true|]; naive_solver. Qed.
#[export] Instance selected_dec kind ns comp o : Decision (selected kind ns comp o).
Proof.
  refine (cast_if (decide (Ob_Kind o = kind ∧ asked ns (Ob_Namespace o) = true ∧ asked comp (component_of o) = true)));
  unfold selected; by rewrite <-!asked_true.
Defined.
(** The objects of the store that carry their own key. *)
Definition objects_in (c : Cluster) : gmap Key Object := filter (λ '(k, o), key_of o = k) (C_objects c).
#[export] Instance cluster_clock : Clock Cluster := {| time_now c := (C_now c, c) |}.
#[export] Instance cluster_api : UninstallAPI Cluster := {|
  list_pods := gets C_pods;
  list_objects kind ns comp := gets (λ c, filter (selected kind ns comp) (map_to_list (objects_in c)).*2);
  get_object kind ns name c :=
    match objects_in c !! (kind, ns, name) with Some o => (inl o, c) | None => (inr not_found, c) end;
  delete_object o bg c :=
    match objects_in c !! key_of o with
    | None => (inr not_found, c)
    | Some cur => (inl (), put_objects (if bool_decide (Ob_Finalizers cur = [])
        then delete (key_of o) (objects_in c) else <[key_of o := mark cur]> (objects_in c)) c)
    end;
  update_object o c :=
    match objects_in c !! key_of o with
    | None => (inr not_found, c)
    | Some cur => (inl (), put_objects (if Ob_Deleting cur && bool_decide (Ob_Finalizers o = [])
        then delete (key_of o) (objects_in c)
        else <[key_of o := if Ob_Deleting cur then mark o else o]> (objects_in c)) c)
    end;
  wait_for d c := (inl (), mkCluster (C_objects c) (C_pods c) (C_now c + d));
|}.

Lemma objects_in_Some c k o : objects_in c !! k = Some o ↔ C_objects c !! k = Some o ∧ key_of o = k.
Proof. apply map_lookup_filter_Some. Qed.
Lemma objects_in_put m c : map_Forall (λ k o, key_of o = k) m → objects_in (put_objects m c) = m.
Proof.
  intros Hm. apply map_eq. intros k. apply option_eq. intros o. rewrite objects_in_Some. simpl.
  split; [naive_solver|]. intros E. split; [done|by apply Hm].
Qed.
Lemma objects_in_keyed c : map_Forall (λ k o, key_of o = k) (objects_in c).
Proof. intros k o. by intros [_ E]%objects_in_Some. Qed.
Lemma keyed_insert (o : Object) (m : gmap Key Object) : map_Forall (λ k o, key_of o = k) m → map_Forall (λ k o, key_of o = k) (<[key_of o := o]> m).
Proof. intros Hm. by apply map_Forall_insert_2. Qed.
Lemma keyed_delete (k : Key) (m : gmap Key Object) : map_Forall (λ k o, key_of o = k) m → map_Forall (λ k (o : Object), key_of o = k) (delete k m).
Proof. apply map_Forall_delete. Qed.

#[export] Program Instance cluster_laws : UninstallLaws Cluster := {| stored := objects_in |}.
Next Obligation. intros c k o E. by apply objects_in_keyed in E. Qed.
Next Obligation. done. Qed.
Next Obligation. done. Qed.
Next Obligation. done. Qed.
Next Obligation. intros kind ns name c. unfold get_object. simpl. by destruct (objects_in c !! _). Qed.
Next Obligation.
  intros kind ns comp c items c' [= <- _] o. rewrite list_elem_of_filter, list_elem_of_fmap. split.
  - intros (Hs & [k o'] & -> & Hk%elem_of_map_to_list). simpl in *. by rewrite (objects_in_keyed _ _ _ Hk).
  - intros [E Hs]. split; [done|]. exists (key_of o, o). by rewrite elem_of_map_to_list.
Qed.
Next Obligation. done. Qed.
Next Obligation. intros kind ns name c o c'. unfold get_object. simpl. destruct (objects_in c !! _); naive_solver. Qed.
Next Obligation. intros kind ns name c e c'. unfold get_object. simpl. destruct (objects_in c !! _); naive_solver. Qed.
Next Obligation.
  intros o bg c k Hk. unfold delete_object. simpl. destruct (objects_in c !! key_of o) as [cur|] eqn:E; [|done]. simpl.
  destruct (bool_decide _); rewrite objects_in_put.
  - by rewrite lookup_delete_ne.
  - by apply keyed_delete, objects_in_keyed.
  - by rewrite lookup_insert_ne.
  - rewrite <-(objects_in_keyed _ _ _ E). apply (keyed_insert (mark cur)), objects_in_keyed.
Qed.
Next Obligation.
  intros o bg c. unfold delete_object. simpl. destruct (objects_in c !! key_of o) as [cur|] eqn:E; [|by left]. right. simpl.
  destruct (bool_decide _); rewrite objects_in_put.
  - by rewrite lookup_delete_eq.
  - by apply keyed_delete, objects_in_keyed.
  - by rewrite lookup_insert_eq.
  - rewrite <-(objects_in_keyed _ _ _ E). apply (keyed_insert (mark cur)), objects_in_keyed.
Qed.
Next Obligation.
  intros o bg c r c'. unfold delete_object. simpl. destruct (objects_in c !! key_of o) as [cur|] eqn:E.
  - intros [= <- <-] _. destruct (bool_decide _); rewrite objects_in_put.
    + by rewrite lookup_delete_eq.
    + by apply keyed_delete, objects_in_keyed.
    + by rewrite lookup_insert_eq.
    + rewrite <-(objects_in_keyed _ _ _ E). apply (keyed_insert (mark cur)), objects_in_keyed.
  - intros [= <- <-] _. by rewrite E.
Qed.
Next Obligation.
  intros o c k Hk. unfold update_object. simpl. destruct (objects_in c !! key_of o) as [cur|] eqn:E; [|done]. simpl.
  destruct (_ && _); rewrite objects_in_put.
  - by rewrite lookup_delete_ne.
  - by apply keyed_delete, objects_in_keyed.
  - by rewrite lookup_insert_ne.
  - apply map_Forall_insert_2; [by destruct (Ob_Deleting cur)|apply objects_in_keyed].
Qed.
Next Obligation.
  intros o c. unfold update_object. simpl. destruct (objects_in c !! key_of o) as [cur|] eqn:E; simpl; [|by rewrite E].
  intros Hd. rewrite Hd. simpl. destruct (bool_decide _); rewrite objects_in_put.
  - by rewrite lookup_delete_eq.
  - by apply keyed_delete, objects_in_keyed.
  - by rewrite lookup_insert_eq.
  - apply (keyed_insert (mark o)), objects_in_keyed.
Qed.

(** ** The order of the kinds *)

Lemma elem_of_crKinds s k :
  k ∈ crKinds s ↔ (GroupVersion, k) ∈ s ∧ (GroupVersion, k +:+ "List") ∈ s ∧ has_suffix k "List" = false.
Proof.
  unfold crKinds. rewrite elem_of_sort_strings, list_elem_of_omap. split.
  - intros ([gv k'] & Hin%elem_of_elements & E). destruct (bool_decide_reflect (gv = GroupVersion)) as [->|]; [|done]. simpl in E.
    destruct (has_suffix k' "List") eqn:Es; [done|]. simpl in E. destruct (bool_decide_reflect ((GroupVersion, k' +:+ "List") ∈ s)); [|done]. by injection E as <-.
  - intros (Hin & Hl & Es). exists (GroupVersion, k). rewrite elem_of_elements. split; [done|].
    rewrite bool_decide_true by done. simpl. rewrite Es. by rewrite bool_decide_true.
Qed.
Lemma elem_of_crTiers s k : k ∈ mjoin (crTiers s) ↔ k ∈ crKinds s ∨ k ∈ tier_last.
Proof.
  unfold crTiers. rewrite !join_app, !elem_of_app.
  assert (mjoin ((λ k, [k]) <$> tier_last) = tier_last) as -> by done.
  set (mid := filter _ _). assert (Hmid : ∀ k, k ∈ mid ↔ (k ≠ tier_first ∧ k ∉ tier_last) ∧ k ∈ crKinds s) by (intros; unfold mid; by rewrite list_elem_of_filter).
  assert (mjoin (if 0 <? Z.of_nat (length mid) then [mid] else []) = mid) as ->.
  { destruct mid; [done|]. by apply app_nil_r. }
  assert (k ∈ mjoin (if existsb (λ k, bool_decide (k = tier_first)) (crKinds s) then [[tier_first]] else []) ↔
    k = tier_first ∧ k ∈ crKinds s) as ->.
  { destruct (existsb _ _) eqn:E; simpl.
    - apply existsb_exists in E as (x & Hx%list_elem_of_In & ->%bool_decide_eq_true). rewrite list_elem_of_singleton. naive_solver.
    - split; [by intros ?%elem_of_nil|]. intros [-> Hin]. exfalso. apply not_true_iff_false in E. apply E, existsb_exists.
      exists tier_first. by rewrite <-list_elem_of_In, bool_decide_true. }
  rewrite Hmid. destruct (decide (k = tier_first)), (decide (k ∈ tier_last)); naive_solver.
Qed.

(** ** The end of the wait *)

Section Ends.
Context {W : Type} `{UninstallAPI W, Clock W} `{MapRange, Environment}.
Context (now : W → Z).
Hypothesis clock_reads : ∀ w, time_now w = (now w, w).
Hypothesis list_takes_time : ∀ kind w, now w <= now (list_objects kind None None w).2.
Hypothesis wait_waits : ∀ d w w', wait_for d w = (inl (), w') → now w + d <= now w'.

Definition ends {A} (m : M W (option A)) : Prop := ∀ w, (m w).1 ≠ inl None.
Lemma wait_rounds_end fuel kind deadline poll w : 0 < poll → (0 < fuel)%nat → deadline < now w + (Z.of_nat fuel - 1) * poll →
  (wait_rounds fuel kind deadline poll w).1 ≠ inl None.
Proof.
  intros Hp. revert w. induction fuel as [|fuel IH]; intros w H0f Hd; [lia|]. cbn [wait_rounds]. rewrite bind_try.
  assert (Hl : now w <= now (listKind kind w).2).
  { unfold listKind. rewrite bind_try. assert (Ht := list_takes_time kind w).
    destruct (list_objects kind None None w) as [[items|e] w1]; simpl in *; [done|]. by destruct (_ || _). }
  destruct (listKind kind w) as [[items|e] w1]; simpl in *; [|done].
  destruct (_ =? 0); [done|]. unfold read_clock, mbind, M_bind. rewrite clock_reads.
  destruct (time_after (now w1) deadline) eqn:Ea.
  - by destruct (for_each strip items w1) as [[[]|e] w2].
  - unfold time_after in Ea. apply Z.ltb_ge in Ea. assert (Hw := wait_waits poll w1).
    destruct (wait_for poll w1) as [[[]|e] w2]; [|done]. specialize (Hw _ eq_refl). apply IH; nia.
Qed.
Lemma each_go_ends {A} (f : A → M W (option ())) l : (∀ x, x ∈ l → ends (f x)) → ends (each_go f l).
Proof.
  induction l as [|x l IH]; intros Hf w; [done|]. simpl. unfold then_go, mbind, M_bind.
  assert (Hx := Hf x ltac:(by left) w). destruct (f x w) as [[[[]|]|e] w1]; simpl in *; [|done..].
  apply IH. intros y Hy. apply Hf. by right.
Qed.
Lemma bind_ends {A B} (m : M W A) (f : A → M W (option B)) : (∀ a, ends (f a)) → ends (m ≫= f).
Proof. intros Hf w. unfold mbind, M_bind. destruct (m w) as [[a|e] w1]; [apply Hf|done]. Qed.
Lemma deleteCRs_ends s fuel opt : 0 < Poll opt → Z.max 0 (Timeout_ opt / Poll opt) + 2 <= Z.of_nat fuel → ends (deleteCRs s fuel opt).
Proof.
  intros Hp Hfuel. apply each_go_ends. intros tier _. apply bind_ends. intros _. apply each_go_ends. intros kind _ w.
  destruct (mget _ _ _); [|done]. unfold waitGone, read_clock, mbind, M_bind. rewrite clock_reads.
  apply wait_rounds_end; [done| |]; unfold time_add; assert (Hm := Z.mod_pos_bound (Timeout_ opt) (Poll opt) Hp); assert (Hdm := Z.div_mod (Timeout_ opt) (Poll opt)); nia.
Qed.
End Ends.

(** ** The theorems *)

(** Unless the usage check is skipped, a live pod that names an accelerator resource
    (limit or request, of any container) or a resource claim stops the uninstall before
    it has written anything: the error says how many pods there are, and the state is
    the one after the pod list.  Without such a pod the deletion starts; when the pods
    cannot be listed nothing is deleted. *)
Theorem uninstall_refuses_while_used {W} `{UninstallAPI W, Clock W} `{MapRange, Environment} s fuel opt w r w1 :
  SkipUsageCheck opt = false → list_pods w = (r, w1) →
  match r with
  | inr e => Execute s fuel opt w = (inr (errorf_w "pod 목록 조회 실패" e), w1)
  | inl pods =>
      ((∃ p, p ∈ pods ∧ ended p = false ∧ uses_accelerator p) → ∃ n, 0 < n ∧
         Execute s fuel opt w = (inr (errorf ("가속기 사용 Pod " +:+ sprint_Z n +:+ " 개로 삭제 보류")), w1)) ∧
      ((∀ p, p ∈ pods → ended p = false → ¬ uses_accelerator p) →
         Execute s fuel opt w = then_go (deleteCRs s fuel opt)
           (_ ← deleteDaemonSets; _ ← deleteJobs; _ ← deleteOwnedObjects; mret (Some ())) w1)
  end.
Proof.
  intros Hskip Hpods. unfold Execute, usage_check. rewrite Hskip. cbn [negb].
  assert (Hc : Consumers w = match r with inl pods => (inl (sort_slice (lex_less Co_Namespace Co_Name) (omap consumer_of pods)), w1)
    | inr e => (inr e, w1) end) by (unfold Consumers, mbind, M_bind; rewrite Hpods; by destruct r).
  destruct r as [pods|e]; unfold mbind, M_bind, try; rewrite Hc; [|done].
  assert (Hlen : length (sort_slice (lex_less Co_Namespace Co_Name) (omap consumer_of pods)) = length (omap consumer_of pods))
    by apply Permutation_length, sort_slice_perm.
  cbn beta iota. rewrite Hlen. split.
  - intros (p & Hp & He & Hu). exists (Z.of_nat (length (omap consumer_of pods))).
    assert (0 < Z.of_nat (length (omap consumer_of pods))) as Hpos.
    { destruct (omap consumer_of pods) eqn:E; [|simpl; lia]. rewrite omap_nil_iff in E.
      assert (is_Some (consumer_of p)) as [c Ec] by by apply consumer_of_Some. by rewrite (E p Hp) in Ec. }
    split; [done|]. rewrite (proj2 (Z.ltb_lt _ _)) by done. done.
  - intros Hno. assert (omap consumer_of pods = []) as ->; [|done]. apply omap_nil_iff. intros p Hp.
    destruct (consumer_of p) eqn:E; [|done]. assert (Hs : is_Some (consumer_of p)) by by eexists.
    apply consumer_of_Some in Hs as [He Hu]. by destruct (Hno p Hp He).
Qed.

(** Whatever happens, an object that is not to delete keeps its state. *)
Lemma spares {W} `{UninstallLaws W} `{MapRange, Environment} s fuel opt w r w' o :
  (∀ d w, stored (wait_for d w).2 !! key_of o = stored w !! key_of o) →
  stored w !! key_of o = Some o → ¬ to_delete s o → Execute s fuel opt w = (r, w') → stored w' !! key_of o = Some o.
Proof.
  intros Hwait Hs Hno E. pose (P w := stored w !! key_of o = Some o).
  assert (Hne : ∀ o' w0, to_delete s o' → P w0 → stored w0 !! key_of o' = Some o' → key_of o ≠ key_of o').
  { unfold P. intros o' w0 Ho' Hw0 E' Ek. rewrite Ek in Hw0. congruence. }
  assert (HP : Kept s P P).
  { split; [done|..].
    - intros w1 w2 E12. unfold P. by rewrite E12.
    - intros d w1. unfold P. by rewrite Hwait.
    - intros o' bg w1 w0 Ho' Hw0 E' Hw1. unfold P. rewrite delete_others; [done|]. by apply (Hne o' w0).
    - intros o' w1 w0 Hk Hw0 E' Hw1. unfold P. rewrite update_others; [done|]. apply (Hne o' w0); [by left|done|done]. }
  apply (wp_run _ _ _ _ _ (inv_Execute s P P fuel opt w Hs)) in E. done.
Qed.
(** Out of the sweep's reach: a kind it does not list, or a namespace it does not visit. *)
Definition out_of_reach `{Environment} (o : Object) : Prop :=
  Ob_Kind o ∉ ["DaemonSet"; "Job"; "ClusterRole"; "ClusterRoleBinding"; "ServiceAccount"; "ConfigMap"] ∨
  Ob_Kind o ∉ ["ClusterRole"; "ClusterRoleBinding"] ∧ Ob_Namespace o ∉ cleanupNamespaces.
Lemma managed_here `{Environment} ns name : (ns, name) ∈ managedDaemonSets → ns ∈ cleanupNamespaces.
Proof.
  unfold managedDaemonSets, cleanupNamespaces. rewrite elem_of_app, !list_elem_of_fmap.
  intros [(n & [= -> _] & _)|(n & [= -> _] & _)]; [by left|]. case_bool_decide as E; [rewrite E; by left|]. right. by left.
Qed.
Lemma out_of_reach_stays `{Environment} s o : out_of_reach o → Ob_Kind o ∉ mjoin (crTiers s) → ¬ to_delete s o.
Proof.
  intros Ho Hcr [?|Hd]; [done|]. destruct Ho as [Hk|[Hk Hns] ].
  - apply Hk. destruct Hd as [ [-> _]|[(-> & _)|[ [Hk' _]|(Hk' & _)] ] ]; set_solver.
  - destruct Hd as [(_ & [ [? _]|[_ ?%managed_here] ])|[(_ & ? & _)|[ [? _]|(_ & ? & _)] ] ]; done.
Qed.

(** C25. What a run deletes, exactly.  When it succeeds, every object that is to delete is
    deleted, or marked by the server while its finalizers finish: every custom resource
    of a registered kind, every DaemonSet with a managed component in the swept
    namespaces or with a managed name and an owner mark, every Job of the operator's
    components there, every owned cluster role and binding, and every owned service
    account and config map there.  Whether it succeeds or not, any other object keeps
    its state, whatever its name, as long as nobody else touches it while the gate
    waits.  Among those are objects that the operator made:
    DeviceClasses, whatever their labels, and the DaemonSets, accounts and config maps
    of a namespace that is not swept, as those of the DRA drivers (namespace kcloud)
    are when the operator runs in another one. *)
Theorem uninstall_removes_exactly {W} `{UninstallLaws W} `{MapRange, Environment} s fuel opt w r w' o :
  stored w !! key_of o = Some o → Execute s fuel opt w = (r, w') →
  (to_delete s o → r = inl (Some ()) →
     (∀ d w, stored (wait_for d w).2 !! key_of o = stored w !! key_of o ∨ cleared (wait_for d w).2 (key_of o)) →
     cleared w' (key_of o)) ∧
  ((∀ d w, stored (wait_for d w).2 !! key_of o = stored w !! key_of o) →
     (¬ to_delete s o → stored w' !! key_of o = Some o) ∧
     (out_of_reach o → Ob_Kind o ∉ mjoin (crTiers s) → stored w' !! key_of o = Some o)).
Proof.
  intros Hs E. split.
  - intros Ho -> Hquiet. by apply (wp_run _ _ _ _ _ (Execute_reaches s (key_of o) o Hquiet fuel opt w eq_refl Ho Hs) E).
  - intros Hwait. split; [intros Hno|intros Hr Hk; assert (Hno := out_of_reach_stays s o Hr Hk)]; by eapply spares.
Qed.

(** The gate ends: when waiting for [Poll] lets at least that time pass, as many
    rounds as [Timeout] has periods, and two more, are enough for every wait. *)
Theorem uninstall_ends {W} `{UninstallAPI W, Clock W} `{MapRange, Environment} (now : W → Z) s fuel opt w :
  (∀ w, time_now w = (now w, w)) → (∀ kind w, now w <= now (list_objects kind None None w).2) →
  (∀ d w w', wait_for d w = (inl (), w') → now w + d <= now w') →
  0 < Poll opt → Z.max 0 (Timeout_ opt / Poll opt) + 2 <= Z.of_nat fuel → (Execute s fuel opt w).1 ≠ inl None.
Proof.
  intros Hc Hl Hw Hp Hf. revert w. apply bind_ends. intros [] w. unfold then_go, mbind, M_bind.
  assert (Hd := deleteCRs_ends now Hc Hl Hw s fuel opt Hp Hf w).
  destruct (deleteCRs s fuel opt w) as [[[[]|]|e] w1]; simpl in *; [|done..].
  destruct (deleteDaemonSets w1) as [[[]|e] w2]; [|done]. destruct (deleteJobs w2) as [[[]|e] w3]; [|done].
  by destruct (deleteOwnedObjects w3) as [[[]|e] w4].
Qed.

(** ** On a cluster *)

#[local] Instance demo_env : Environment := {| Getenv k := if bool_decide (k = "OPERATOR_NAMESPACE") then "kcloud" else "" |}.
Definition plain (kind ns name : string) : Object := mkObject kind ns name ∅ ∅ [] false.
Definition labelled (comp : string) (o : Object) : Object :=
  mkObject (Ob_Kind o) (Ob_Namespace o) (Ob_Name o) {[ componentLabel := comp ]} (Ob_Annotations o) (Ob_Finalizers o) (Ob_Deleting o).
Definition owned_obj (o : Object) : Object :=
  mkObject (Ob_Kind o) (Ob_Namespace o) (Ob_Name o) (Ob_Labels o) {[ ownerAnnotation := "default/policy" ]} (Ob_Finalizers o) (Ob_Deleting o).
Definition policy_cr : Object := mkObject "NPUClusterPolicy" "default" "policy" ∅ ∅ ["npu.ai/cleanup"] false.
Definition vendor_plugin : Object := plain "DaemonSet" "kube-system" "nvidia-device-plugin".
Definition driver_ds : Object := labelled "driver" (plain "DaemonSet" "kcloud" "kcloud-nvidia-driver").
Definition device_class : Object := labelled "dra-driver" (plain "DeviceClass" "" "npu.furiosa.ai").
Definition demo_objects : list Object :=
  [policy_cr; device_class; plain "AcceleratorWorkload" "team" "train"; vendor_plugin; driver_ds;
   labelled "mig-apply" (plain "Job" "kcloud" "mig-apply-1"); owned_obj (plain "ClusterRole" "" "rbln")].
Definition demo_pod (phase : string) : PodUse :=
  mkPodUse "team" "train-0" phase [] [mkContainerUse {[ "nvidia.com/gpu" := 1 ]} ∅] [].
Definition demo_cluster (phase : string) : Cluster :=
  mkCluster (list_to_map ((λ o, (key_of o, o)) <$> demo_objects)) [demo_pod phase] 0.
Definition demo_options : Options := mkOptions false (10 * second) (2 * second).
Definition demo_run (phase : string) : (option () + GoErr) * Cluster :=
  Execute npu_scheme 7 demo_options (demo_cluster phase).

Lemma uninstall_refuses_while_used_witness : (demo_run "Running").2 = demo_cluster "Running" ∧ ∃ e, (demo_run "Running").1 = inr e.
Proof.
  assert (Hr := uninstall_refuses_while_used npu_scheme 7 demo_options (demo_cluster "Running")
    (inl [demo_pod "Running"]) (demo_cluster "Running") eq_refl eq_refl). destruct Hr as [Hr _].
  destruct Hr as (n & _ & E); [|unfold demo_run; rewrite E; eauto].
  exists (demo_pod "Running"). split; [by left|]. split; [reflexivity|]. left.
  exists (mkContainerUse {[ "nvidia.com/gpu" := 1 ]} ∅). split; [by left|]. exists "nvidia.com/gpu".
  split; [|left; by eexists]. exists "nvidia.com/", "gpu". split; [|reflexivity]. decide_compute.
Defined.
Lemma vendor_plugin_kept : ¬ to_delete npu_scheme vendor_plugin.
Proof.
  assert (Ho : operatorOwned vendor_plugin = false) by (vm_compute; reflexivity).
  assert (Hc : component_of vendor_plugin ∉ managedComponents) by decide_compute.
  assert (Hk : Ob_Kind vendor_plugin ∉ mjoin (crTiers npu_scheme)) by decide_compute.
  unfold to_delete. rewrite Ho. intros [?|[(_ & [ [_ ?]|[? _] ])|[(Hj & _)|[ [_ ?]|(_ & _ & ?)] ] ] ]; try done.
Qed.
(** The driver's DaemonSet goes; the vendor's own plugin stays, and so does the
    DeviceClass of a DRA driver. *)
Lemma uninstall_removes_exactly_witness :
  cleared (demo_run "Succeeded").2 (key_of driver_ds)
  ∧ C_objects (demo_run "Succeeded").2 !! key_of vendor_plugin = Some vendor_plugin
  ∧ C_objects (demo_run "Succeeded").2 !! key_of device_class = Some device_class.
Proof.
  destruct (demo_run "Succeeded") as [r w'] eqn:E.
  assert (Er : r = inl (Some ())) by (apply (f_equal fst) in E; vm_compute in E; by rewrite E). subst r.
  assert (Hx := λ o Hs, uninstall_removes_exactly npu_scheme 7 demo_options (demo_cluster "Succeeded") (inl (Some ())) w' o Hs E).
  split_and!.
  - destruct (Hx driver_ds) as [Hgone _]; [vm_compute; reflexivity|]. apply Hgone; [|done|by left].
    right. left. split; [reflexivity|]. left. split; decide_compute.
  - apply objects_in_Some. destruct (Hx vendor_plugin) as [_ Hkeep]; [vm_compute; reflexivity|].
    destruct Hkeep as [Hkeep _]; [reflexivity|]. apply Hkeep.
    apply vendor_plugin_kept.
  - apply objects_in_Some. destruct (Hx device_class) as [_ Hkeep]; [vm_compute; reflexivity|].
    destruct Hkeep as [_ Hkeep]; [reflexivity|]. apply Hkeep; [left; decide_compute|decide_compute].
Defined.
(** Nobody finishes the finalizer of the policy: the wait runs into its limit. *)
Lemma uninstall_ends_witness : (demo_run "Succeeded").1 ≠ inl None.
Proof.
  apply (uninstall_ends C_now); [reflexivity|reflexivity| |reflexivity|vm_compute; discriminate].
  intros d w w' [= <-]. simpl. lia.
Defined.
Example forgotten_finalizer :
  C_now (demo_run "Succeeded").2 = 12 * second ∧ size (C_objects (demo_run "Succeeded").2) = 2%nat.
Proof. vm_compute. auto. Qed.
