(* ===== verification/Workload.v ===== *)
(** * AcceleratorWorkload: from an intent to a Deployment

    Models [acceleratorworkload_types.go] and [acceleratorworkload_controller.go]: the
    workload is translated again at every pass; a translation becomes a Deployment (and,
    on the DRA path, a ResourceClaimTemplate) that the workload owns, a refusal only a
    status.  Objects are the fields the controller reads or writes, and one opaque field
    for what the API server and others fill in. *)

From S2P Require Import Prelude GoStrings GoTime ApiTypes PolicyTypes IntentResources IntentGates IntentSnapshot IntentTranslate UpgradeTypes UpgradeNode PartitionTypes.
From S2P Require DriverAdapter.

(** ** acceleratorworkload_types.go *)

Definition AWPhaseTranslated : string := "Translated".
Definition AWPhaseRunning : string := "Running".
Definition AWPhaseRejected : string := "Rejected".
Definition AWCondTranslated : string := "Translated".
Definition AWCondWorkloadReady : string := "WorkloadReady".
Definition AWReasonClassNotFound : string := "ClassNotFound".
Definition AWReasonTranslated : string := "Translated".
Definition AWReasonWorkloadReady : string := "WorkloadReady".
Definition AWReasonWorkloadNotReady : string := "WorkloadNotReady".
Definition AWReasonDeploymentConflict : string := "DeploymentConflict".
Definition AWReasonDeploymentInvalid : string := "DeploymentInvalid".
Definition AWReasonResourceClaimTemplateDrift : string := "ResourceClaimTemplateDrift".

(** [Env_From]: where the value comes from, when it is not given. *)
Record EnvVar := mkEnvVar { Env_Name : string; Env_Value : string; Env_From : string }.
Record WorkloadTemplate := mkWorkloadTemplate {
  Wt_Image : string;
  Wt_Replicas : option Z;
  Wt_Command : list string;
  Wt_Args : list string;
  Wt_Env : list EnvVar;
}.
Record AcceleratorWorkloadSpec `{Quantities} := mkWorkloadSpec {
  Aws_Accelerator : AcceleratorRequest; Aws_Workload : WorkloadTemplate;
}.
Record WorkloadRejection := mkRejection { Wr_Axis : string; Wr_Reason : string; Wr_Message : string }.
Record AcceleratorWorkloadStatus := mkWorkloadStatus {
  Aw_ObservedGeneration : Z;
  Aw_Phase : string;
  Aw_Resolved : option ResolvedAllocation;
  Aw_Conditions : list StatusCondition;
  Aw_Rejection : option WorkloadRejection;
}.
Record AcceleratorWorkload `{Quantities} := mkWorkload {
  Aw_Namespace : string;
  Aw_Name : string;
  Aw_UID : string;
  Aw_Generation : Z;
  Aw_Spec : AcceleratorWorkloadSpec;
  Aw_Status : AcceleratorWorkloadStatus;
}.
#[global] Arguments mkWorkloadSpec {_} _ _.
#[global] Arguments mkWorkload {_} _ _ _ _ _ _.

(** ** The objects it owns *)

(** [affinity]: the required node selector terms, and the rest of it. *)
Record Affinity := mkAffinity { Aff_Required : list SelectorTerm; Aff_Other : string }.
Record WContainer := mkWContainer {
  Wc_Name : string;
  Wc_Image : string;
  Wc_Command : list string;
  Wc_Args : list string;
  Wc_Env : list EnvVar;
  Wc_Limits : gmap string Z;
  Wc_Requests : gmap string Z;
  (** [resources.claims], by name *)
  Wc_Claims : list string;
  Wc_Other : string;
}.
Record DeploymentSpec := mkDeploymentSpec {
  Dsp_Replicas : option Z;
  Dsp_Selector : gmap string string;
  Dsp_TemplateLabels : gmap string string;
  Dsp_Affinity : option Affinity;
  Dsp_RuntimeClassName : option string;
  (** [resourceClaims]: name and template *)
  Dsp_ResourceClaims : list (string * string);
  Dsp_Containers : list WContainer;
  Dsp_NodeSelector : gmap string string;
  Dsp_Other : string;
}.
Record WDeployment := mkWDeployment {
  Wd_Namespace : string;
  Wd_Name : string;
  Wd_Labels : gmap string string;
  Wd_Annotations : gmap string string;
  Wd_OwnerReferences : list OwnerRef;
  Wd_Spec : DeploymentSpec;
  Wd_Replicas : Z;
  Wd_ReadyReplicas : Z;
}.
(** [Tp_Requests]: of each device request its name, and when it asks for exactly one
    class, the class and the count. *)
Record ResourceClaimTemplate := mkTemplate {
  Tp_Namespace : string;
  Tp_Name : string;
  Tp_OwnerReferences : list OwnerRef;
  Tp_Requests : list (string * option (string * Z));
}.
#[export] Instance SelectorTerm_eq_dec : EqDecision SelectorTerm.
Proof. assert (EqDecision Requirement) by solve_decision. solve_decision. Defined.
#[export] Instance EnvVar_eq_dec : EqDecision EnvVar.
Proof. solve_decision. Defined.
#[export] Instance Affinity_eq_dec : EqDecision Affinity.
Proof. solve_decision. Defined.
#[export] Instance WContainer_eq_dec : EqDecision WContainer.
Proof. solve_decision. Defined.
#[export] Instance DeploymentSpec_eq_dec : EqDecision DeploymentSpec.
Proof. solve_decision. Defined.

Class WorkloadAPI (W : Type) `{Quantities} := {
  aw_get : string → string → M W AcceleratorWorkload;
  class_get : string → M W AcceleratorClass;
  aw_status_update : AcceleratorWorkload → M W ();
  wdep_get : string → string → M W WDeployment;
  (** both answer with the stored object *)
  wdep_create : WDeployment → M W WDeployment;
  wdep_update : WDeployment → M W WDeployment;
  template_get : string → string → M W ResourceClaimTemplate;
  template_create : ResourceClaimTemplate → M W ();
  template_delete : ResourceClaimTemplate → M W ();
  (** a Warning event, when there is a recorder *)
  warn : string → string → W → W;
}.

(** ** acceleratorworkload_controller.go *)

Definition podInjectLabel : string := "kcloud.ai/inject".
Definition awWorkloadLabel : string := "kcloud.ai/accelerator-workload".
Definition awRequeueInterval : Z := 2 * minute.
Definition errDeploymentNotOwned : GoErr :=
  mkErr KDeploymentNotOwned "deployment is not owned by this AcceleratorWorkload".
Definition errResourceClaimTemplateNotOwned : GoErr :=
  mkErr KTemplateNotOwned "resourceclaimtemplate is not owned by this AcceleratorWorkload".
Definition errResourceClaimTemplateDrift : GoErr :=
  mkErr KTemplateDrift "resourceclaimtemplate deviceClassName no longer matches the resolved allocation".
Definition draClaimName : string := "accel".
Definition draClaimTemplateName (awName : string) : string := awName +:+ "-accel".

Definition nonRetryableAPIError (e : GoErr) : bool :=
  bool_decide (err_kind e = KInvalid) || bool_decide (err_kind e = KForbidden) || bool_decide (err_kind e = KBadRequest).
(** [metav1.GetControllerOf]: its UID. *)
Definition GetControllerOf (owners : list OwnerRef) : option string := Or_UID <$> find_first Or_Controller owners.
Definition first_owner_uid (owners : list OwnerRef) : string := match owners with o :: _ => Or_UID o | [] => "" end.

Definition renderDeployment `{Quantities} (aw : AcceleratorWorkload) (res : ResolvedAllocation) : WDeployment :=
  let tmpl := Aws_Workload (Aw_Spec aw) in
  let replicas := default 1 (Wt_Replicas tmpl) in
  let selector : gmap string string := {[ awWorkloadLabel := Aw_Name aw ]} in
  let podLabels : gmap string string :=
    {[ awWorkloadLabel := Aw_Name aw; "app.kubernetes.io/managed-by" := "kcloud-operator"; podInjectLabel := labelValueTrue ]} in
  let dra := bool_decide (Ra_AllocationAPI res = AllocationAPIDRA) in
  let podClaims := if dra then [(draClaimName, draClaimTemplateName (Aw_Name aw))] else [] in
  let claims := if dra then [draClaimName] else [] in
  let limits : gmap string Z := if dra then ∅ else {[ Ra_ResourceName res := Ra_Quantity res ]} in
  let runtimeClass := match DriverAdapter.Lookup (Ra_Vendor res) "" with
                      | Some a => let rc := DriverAdapter.RuntimeClass a in if bool_decide (rc = "") then None else Some rc
                      | None => None
                      end in
  let affinity := if 0 <? Z.of_nat (length (Ra_Nodes res)) then
                    Some (mkAffinity [mkTerm [mkRequirement "kubernetes.io/hostname" "In" (Ra_Nodes res)] []] "")
                  else None in
  mkWDeployment (Aw_Namespace aw) (Aw_Name aw) selector ∅ []
    (mkDeploymentSpec (Some replicas) selector podLabels affinity runtimeClass podClaims
       [mkWContainer "workload" (Wt_Image tmpl) (Wt_Command tmpl) (Wt_Args tmpl) (Wt_Env tmpl) limits ∅ claims ""] ∅ "") 0 0.
Definition renderResourceClaimTemplate `{Quantities} (aw : AcceleratorWorkload) (res : ResolvedAllocation)
    : option ResourceClaimTemplate :=
  if negb (bool_decide (Ra_AllocationAPI res = AllocationAPIDRA)) then None
  else Some (mkTemplate (Aw_Namespace aw) (draClaimTemplateName (Aw_Name aw)) []
               [(draClaimName, Some (Ra_DeviceClassName res, Ra_Quantity res))]).

(** [ctrl.SetControllerReference] on an object without owners. *)
Definition controller_ref `{Quantities} (aw : AcceleratorWorkload) : OwnerRef :=
  mkOwnerRef "AcceleratorWorkload" (Aw_Name aw) (Aw_UID aw) true.
Definition own_deployment `{Quantities} (aw : AcceleratorWorkload) (d : WDeployment) : WDeployment :=
  mkWDeployment (Wd_Namespace d) (Wd_Name d) (Wd_Labels d) (Wd_Annotations d) [controller_ref aw] (Wd_Spec d)
    (Wd_Replicas d) (Wd_ReadyReplicas d).
Definition own_template `{Quantities} (aw : AcceleratorWorkload) (t : ResourceClaimTemplate) : ResourceClaimTemplate :=
  mkTemplate (Tp_Namespace t) (Tp_Name t) [controller_ref aw] (Tp_Requests t).

(** The fields of the container of [want], over those of [c]. *)
Definition merge_container (c wc : WContainer) : WContainer :=
  mkWContainer (Wc_Name wc) (Wc_Image wc) (Wc_Command wc) (Wc_Args wc) (Wc_Env wc) (Wc_Limits wc) (Wc_Requests wc)
    (Wc_Claims wc) (Wc_Other c).
(** [want.Spec.Template.Spec.Containers[0]]: rendered Deployments have one. *)
Definition merge_containers (live want : list WContainer) : list WContainer :=
  match live, want with
  | [c], wc :: _ => [merge_container c wc]
  | _, _ => want
  end.
Definition mergeDeployment (live want : WDeployment) : WDeployment :=
  let ls := Wd_Spec live in
  let ws := Wd_Spec want in
  mkWDeployment (Wd_Namespace live) (Wd_Name live) (Wd_Labels want ∪ Wd_Labels live) (Wd_Annotations live)
    (Wd_OwnerReferences live)
    (mkDeploymentSpec
       (if bool_decide (is_Some (Wd_Annotations live !! QuiesceReplicasBackupAnnotation)) then Dsp_Replicas ls else Dsp_Replicas ws)
       (Dsp_Selector ws) (Dsp_TemplateLabels ws) (Dsp_Affinity ws) (Dsp_RuntimeClassName ws) (Dsp_ResourceClaims ws)
       (merge_containers (Dsp_Containers ls) (Dsp_Containers ws)) (Dsp_NodeSelector ls) (Dsp_Other ls))
    (Wd_Replicas live) (Wd_ReadyReplicas live).

Definition claimDeviceClassName (t : ResourceClaimTemplate) : string :=
  match find_first (λ r, match r.2 with Some (c, _) => negb (bool_decide (c = "")) | None => false end) (Tp_Requests t) with
  | Some (_, Some (c, _)) => c
  | _ => ""
  end.
Definition conditionReasonChanged `{Quantities} (aw : AcceleratorWorkload) (condType reason : string) : bool :=
  match FindStatusCondition (Aw_Conditions (Aw_Status aw)) condType with
  | None => true
  | Some c => negb (bool_decide (Sc_Reason c = reason))
  end.
Definition with_status `{Quantities} (aw : AcceleratorWorkload) (s : AcceleratorWorkloadStatus) : AcceleratorWorkload :=
  mkWorkload (Aw_Namespace aw) (Aw_Name aw) (Aw_UID aw) (Aw_Generation aw) (Aw_Spec aw) s.

Section Reconcile.
Context {W : Type} `{WorkloadAPI W, IntentAPI W, Clock W} `{MapRange}.
Notation IO := (M W).

Definition applyDeployment (want : WDeployment) : IO WDeployment :=
  let name := Wd_Namespace want +:+ "/" +:+ Wd_Name want in
  live ← try (wdep_get (Wd_Namespace want) (Wd_Name want));
  match live with
  | inr e =>
      if is_not_found e then
        r ← try (wdep_create want);
        match r with inl d => mret d | inr e => throw (errorf_w ("create deployment " +:+ name) e) end
      else throw e
  | inl live =>
      if negb (bool_decide (GetControllerOf (Wd_OwnerReferences live) = Some (first_owner_uid (Wd_OwnerReferences want)))) then
        throw (errorf_w ("deployment " +:+ name +:+ " already exists and is not controlled by this workload") errDeploymentNotOwned)
      else
        let merged := mergeDeployment live want in
        if bool_decide (Wd_Spec live = Wd_Spec merged) && bool_decide (Wd_Labels live = Wd_Labels merged) then mret live
        else
          r ← try (wdep_update merged);
          match r with inl d => mret d | inr e => throw (errorf_w ("update deployment " +:+ name) e) end
  end.

Definition applyResourceClaimTemplate (want : ResourceClaimTemplate) : IO () :=
  let name := Tp_Namespace want +:+ "/" +:+ Tp_Name want in
  live ← try (template_get (Tp_Namespace want) (Tp_Name want));
  match live with
  | inr e =>
      if is_not_found e then
        r ← try (template_create want);
        match r with inl _ => mret () | inr e => throw (errorf_w ("create resourceclaimtemplate " +:+ name) e) end
      else throw e
  | inl live =>
      if negb (bool_decide (GetControllerOf (Tp_OwnerReferences live) = Some (first_owner_uid (Tp_OwnerReferences want)))) then
        throw (errorf_w ("resourceclaimtemplate " +:+ name +:+ " already exists and is not controlled by this workload")
                 errResourceClaimTemplateNotOwned)
      else if negb (bool_decide (claimDeviceClassName live = claimDeviceClassName want)) then
        throw (errorf_w ("resourceclaimtemplate " +:+ name +:+ " still requests deviceClass " +:+ quote (claimDeviceClassName live)
          +:+ " but the resolved allocation is " +:+ quote (claimDeviceClassName want)
          +:+ "; spec is immutable, so delete the template (and the pods holding claims from it) to adopt the new class")
          errResourceClaimTemplateDrift)
      else mret ()
  end.

Definition deleteOwnedResourceClaimTemplate (aw : AcceleratorWorkload) : IO () :=
  live ← try (template_get (Aw_Namespace aw) (draClaimTemplateName (Aw_Name aw)));
  match live with
  | inr e => if is_no_match e || is_not_found e then mret () else throw e
  | inl live =>
      if negb (bool_decide (GetControllerOf (Tp_OwnerReferences live) = Some (Aw_UID aw))) then mret ()
      else
        r ← try (template_delete live);
        match r with
        | inr e => if is_not_found e then mret () else throw e
        | inl _ => mret ()
        end
  end.

(** [apimeta.SetStatusCondition] of one of the two conditions. *)
Definition set_cond (gen : Z) (ctype status reason msg : string) (conds : list StatusCondition) : IO (list StatusCondition) :=
  now ← read_clock; mret (SetStatusCondition now conds ctype status reason msg gen).
Definition event_if (b : bool) (reason msg : string) : IO () := if b then modify (warn reason msg) else mret ().

Definition rejected (aw : AcceleratorWorkload) (reason axis message : string) : IO Z :=
  let changed := conditionReasonChanged aw AWCondTranslated reason in
  conds ← set_cond (Aw_Generation aw) AWCondTranslated ConditionFalse reason message (Aw_Conditions (Aw_Status aw));
  conds ← set_cond (Aw_Generation aw) AWCondWorkloadReady ConditionFalse reason message conds;
  _ ← event_if changed reason message;
  _ ← aw_status_update (with_status aw
        (mkWorkloadStatus (Aw_Generation aw) AWPhaseRejected None conds (Some (mkRejection axis reason message))));
  mret awRequeueInterval.

Definition translated (aw : AcceleratorWorkload) (res : ResolvedAllocation) (dep : option WDeployment)
    (blockedReason blockedMessage : string) : IO () :=
  let blockedChanged := conditionReasonChanged aw AWCondWorkloadReady blockedReason in
  conds ← set_cond (Aw_Generation aw) AWCondTranslated ConditionTrue AWReasonTranslated (Ra_Explanation res)
            (Aw_Conditions (Aw_Status aw));
  let store phase status reason msg :=
    conds ← set_cond (Aw_Generation aw) AWCondWorkloadReady status reason msg conds;
    aw_status_update (with_status aw (mkWorkloadStatus (Aw_Generation aw) phase (Some res) conds None)) in
  if negb (bool_decide (blockedReason = "")) then
    _ ← event_if blockedChanged blockedReason blockedMessage;
    store AWPhaseTranslated ConditionFalse blockedReason blockedMessage
  else match dep with
  | Some d =>
      if 0 <? Wd_ReadyReplicas d then
        store AWPhaseRunning ConditionTrue AWReasonWorkloadReady
          (sprint_Z (Wd_ReadyReplicas d) +:+ "/" +:+ sprint_Z (Wd_Replicas d) +:+ " pods ready")
      else store AWPhaseTranslated ConditionFalse AWReasonWorkloadNotReady "no pod is ready yet"
  | None => store AWPhaseTranslated ConditionFalse AWReasonWorkloadNotReady "no pod is ready yet"
  end.

(** What a failure to realise the translation becomes; [None]: it goes back to the queue. *)
Definition blocked_reason (notOwned : ErrKind) (drift : bool) (e : GoErr) : option string :=
  if bool_decide (err_kind e = notOwned) then Some AWReasonDeploymentConflict
  else if drift && bool_decide (err_kind e = KTemplateDrift) then Some AWReasonResourceClaimTemplateDrift
  else if nonRetryableAPIError e then Some AWReasonDeploymentInvalid
  else None.
Definition blocked (aw : AcceleratorWorkload) (res : ResolvedAllocation) (reason : option string) (e : GoErr) : IO Z :=
  match reason with
  | Some reason => _ ← translated aw res None reason (err_msg e); mret awRequeueInterval
  | None => throw e
  end.
Definition realise_deployment (aw : AcceleratorWorkload) (res : ResolvedAllocation) : IO Z :=
  live ← try (applyDeployment (own_deployment aw (renderDeployment aw res)));
  match live with
  | inr e => blocked aw res (blocked_reason KDeploymentNotOwned false e) e
  | inl live => _ ← translated aw res (Some live) "" ""; mret awRequeueInterval
  end.
Definition realise (aw : AcceleratorWorkload) (res : ResolvedAllocation) : IO Z :=
  match renderResourceClaimTemplate aw res with
  | None => _ ← deleteOwnedResourceClaimTemplate aw; realise_deployment aw res
  | Some rct =>
      r ← try (applyResourceClaimTemplate (own_template aw rct));
      match r with
      | inr e => blocked aw res (blocked_reason KTemplateNotOwned true e) e
      | inl _ => realise_deployment aw res
      end
  end.
Definition Reconcile (namespace name : string) : IO Z :=
  aw ← try (aw_get namespace name);
  match aw with
  | inr e => if is_not_found e then mret 0 else throw e
  | inl aw =>
      class ← try (class_get (Areq_Class (Aws_Accelerator (Aw_Spec aw))));
      match class with
      | inr e =>
          if is_not_found e then
            rejected aw AWReasonClassNotFound ""
              ("AcceleratorClass " +:+ quote (Areq_Class (Aws_Accelerator (Aw_Spec aw))) +:+ " does not exist")
          else throw e
      | inl class =>
          loaded ← try Load;
          match loaded with
          | inr e =>
              if nonRetryableAPIError e then
                rejected aw AWReasonCapabilityUnverified ""
                  ("cluster capability cannot be read, so nothing can be confirmed: " +:+ err_msg e)
              else throw e
          | inl (snap, dra) =>
              match TranslateWithDRA (BuildRequest (Aws_Accelerator (Aw_Spec aw)) class) snap dra with
              | inl res => realise aw res
              | inr (Some rj) => rejected aw (Rj_Reason rj) (Rj_Axis rj) (Reject_Error (Some rj))
              (* a nil pointer in the error: its fields cannot be read *)
              | inr None => throw (errorf "panic: nil pointer dereference")
              end
          end
      end
  end.
End Reconcile.
