(* ===== verification/WorkloadSafety.v ===== *)
(** * AcceleratorWorkload: what the controller may write, and when it writes nothing

    Every write of a pass, with the object it is about ([AwWrite], [aw_allowed]); the
    statuses it stores; the merge that leaves alone what others own, and so comes to
    rest; the Deployment a driver upgrade has quiesced. *)

From S2P Require Import Prelude GoStrings GoTime ApiTypes PolicyTypes IntentResources IntentGates IntentSnapshot IntentTranslate IntentSafety UpgradeTypes UpgradeNode PartitionTypes Workload.

(** ** Statuses *)

Definition cond_is (s : AcceleratorWorkloadStatus) (ctype status : string) : Prop :=
  ∃ c, FindStatusCondition (Aw_Conditions s) ctype = Some c ∧ Sc_Status c = status.
(** A status names a translation or a refusal, never both, and is Ready only when
    the translation runs. *)
Definition status_ok (s : AcceleratorWorkloadStatus) : Prop :=
  (Aw_Phase s = AWPhaseRejected ∧ Aw_Resolved s = None ∧ is_Some (Aw_Rejection s)
     ∧ cond_is s AWCondTranslated ConditionFalse ∧ cond_is s AWCondWorkloadReady ConditionFalse)
  ∨ (Aw_Phase s = AWPhaseTranslated ∧ is_Some (Aw_Resolved s) ∧ Aw_Rejection s = None
     ∧ cond_is s AWCondTranslated ConditionTrue ∧ cond_is s AWCondWorkloadReady ConditionFalse)
  ∨ (Aw_Phase s = AWPhaseRunning ∧ is_Some (Aw_Resolved s) ∧ Aw_Rejection s = None
     ∧ cond_is s AWCondTranslated ConditionTrue ∧ cond_is s AWCondWorkloadReady ConditionTrue).

Lemma find_set now conds t st r m g :
  ∃ c, FindStatusCondition (SetStatusCondition now conds t st r m g) t = Some c ∧ Sc_Status c = st.
Proof.
  unfold FindStatusCondition. induction conds as [|c conds IH]; simpl.
  - rewrite bool_decide_true by done. by eexists.
  - case_bool_decide as E; simpl; [rewrite bool_decide_true by done; by eexists|]. by rewrite bool_decide_false.
Qed.
Lemma find_set_other now conds t t' st r m g : t ≠ t' →
  FindStatusCondition (SetStatusCondition now conds t st r m g) t' = FindStatusCondition conds t'.
Proof.
  intros Hne. unfold FindStatusCondition. induction conds as [|c conds IH]; simpl.
  - by rewrite bool_decide_false.
  - destruct (bool_decide_reflect (Sc_Type c = t)) as [E|E]; simpl.
    + rewrite (bool_decide_false (t = t')) by done. by rewrite bool_decide_false by congruence.
    + by case_bool_decide.
Qed.

(** ** The merge *)

(** What the controller decides of a Deployment; the replicas only while no quiesce holds them. *)
Definition quiesced (d : WDeployment) : Prop := is_Some (Wd_Annotations d !! QuiesceReplicasBackupAnnotation).
Definition container_owned (c : WContainer) : WContainer := merge_container (mkWContainer "" "" [] [] [] ∅ ∅ [] "") c.
Definition as_wanted (live want : WDeployment) : Prop :=
  let l := Wd_Spec live in let w := Wd_Spec want in
  (∀ k v, Wd_Labels want !! k = Some v → Wd_Labels live !! k = Some v) ∧ (quiesced live ∨ Dsp_Replicas l = Dsp_Replicas w)
  ∧ Dsp_Selector l = Dsp_Selector w ∧ Dsp_TemplateLabels l = Dsp_TemplateLabels w ∧ Dsp_Affinity l = Dsp_Affinity w
  ∧ Dsp_RuntimeClassName l = Dsp_RuntimeClassName w ∧ Dsp_ResourceClaims l = Dsp_ResourceClaims w
  ∧ container_owned <$> Dsp_Containers l = container_owned <$> Dsp_Containers w.

Lemma merge_container_id c wc : container_owned c = container_owned wc → merge_container c wc = c.
Proof. destruct c, wc. unfold container_owned, merge_container. simpl. intros [=]. by subst. Qed.
Lemma union_included (m1 m2 : gmap string string) : (∀ k v, m1 !! k = Some v → m2 !! k = Some v) → m1 ∪ m2 = m2.
Proof.
  intros Hm. apply map_eq. intros k. destruct (m1 !! k) as [v|] eqn:E.
  - rewrite (lookup_union_Some_l _ _ _ _ E). symmetry. by apply Hm.
  - by rewrite lookup_union_r.
Qed.
Lemma merge_at_rest live want : length (Dsp_Containers (Wd_Spec want)) = 1%nat → as_wanted live want →
  mergeDeployment live want = live.
Proof.
  intros Hone (Hl & Hr & Hsel & Htl & Haff & Hrc & Hcl & Hc). unfold mergeDeployment. rewrite union_included by done.
  destruct live as [ns name labels anns owners [rep sel tl aff rc cl cs nsel other] n r]. simpl in *. subst. f_equal. f_equal.
  - case_bool_decide as E; [done|]. by destruct Hr as [?|].
  - destruct (Dsp_Containers (Wd_Spec want)) as [|wc [|]]; [done| |done]. destruct cs as [|c [|]]; cbn in Hc; [done| |done].
    assert (Hc' : container_owned c = container_owned wc) by congruence. simpl. f_equal. by apply merge_container_id.
Qed.
Lemma merge_as_wanted live want : length (Dsp_Containers (Wd_Spec want)) = 1%nat →
  as_wanted (mergeDeployment live want) want.
Proof.
  intros Hone. split_and!; try done; simpl.
  - intros k v E. by apply lookup_union_Some_l.
  - unfold quiesced. simpl. case_bool_decide; [by left|by right].
  - destruct (Dsp_Containers (Wd_Spec want)) as [|wc [|]]; [done| |done].
    by destruct (Dsp_Containers (Wd_Spec live)) as [|c [|]].
Qed.
Lemma rendered_one `{Quantities} aw res : length (Dsp_Containers (Wd_Spec (renderDeployment aw res))) = 1%nat.
Proof. done. Qed.

(** ** The writes of a pass *)

Inductive AwWrite `{Quantities} :=
| WStatus (aw : AcceleratorWorkload)
| WDepCreate (d : WDeployment)
| WDepUpdate (d : WDeployment)
| WTplCreate (t : ResourceClaimTemplate)
| WTplDelete (t : ResourceClaimTemplate).

Section Writes.
Context {W : Type} `{WorkloadAPI W, IntentAPI W, Clock W} `{MapRange}.
Definition send (x : AwWrite) (w : W) : W :=
  match x with
  | WStatus aw => (aw_status_update aw w).2
  | WDepCreate d => (wdep_create d w).2
  | WDepUpdate d => (wdep_update d w).2
  | WTplCreate t => (template_create t w).2
  | WTplDelete t => (template_delete t w).2
  end.

(** What the cluster said when the workload was translated. *)
Definition resolves (I : W → Prop) (aw : AcceleratorWorkload) (res : ResolvedAllocation) : Prop :=
  ∃ class snap dra w1 w2 w3, I w1 ∧ class_get (Areq_Class (Aws_Accelerator (Aw_Spec aw))) w1 = (inl class, w2) ∧ I w2 ∧
    Load w2 = (inl (snap, dra), w3) ∧
    TranslateWithDRA (BuildRequest (Aws_Accelerator (Aw_Spec aw)) class) snap dra = inl res.
(** The Deployment of a resolved workload. *)
Definition wanted (I : W → Prop) (aw : AcceleratorWorkload) (want : WDeployment) : Prop :=
  ∃ res, resolves I aw res ∧ want = own_deployment aw (renderDeployment aw res).
(** Read from a store that satisfied [I]. *)
Definition read_dep (I : W → Prop) (live : WDeployment) : Prop :=
  ∃ ns name w w', I w ∧ wdep_get ns name w = (inl live, w').

Definition aw_allowed (I : W → Prop) (aw : AcceleratorWorkload) (x : AwWrite) : Prop :=
  match x with
  | WStatus aw' => ∃ s, aw' = with_status aw s ∧ Aw_ObservedGeneration s = Aw_Generation aw ∧ status_ok s
      ∧ (∀ res, Aw_Resolved s = Some res → resolves I aw res)
  | WDepCreate d => wanted I aw d
  | WDepUpdate d => ∃ live want, read_dep I live ∧ wanted I aw want ∧ d = mergeDeployment live want ∧ d ≠ live
      ∧ GetControllerOf (Wd_OwnerReferences live) = Some (Aw_UID aw)
  | WTplCreate t => ∃ res rct, resolves I aw res ∧ renderResourceClaimTemplate aw res = Some rct ∧ t = own_template aw rct
  | WTplDelete t => GetControllerOf (Tp_OwnerReferences t) = Some (Aw_UID aw)
      ∧ ∃ res, resolves I aw res ∧ Ra_AllocationAPI res ≠ AllocationAPIDRA
  end.

(** [I] survives the reads, the events, and the allowed writes about the workload that
    was asked for. *)
Class KeepsAw (I : W → Prop) (namespace name : string) := {
  ka_get ns n : preserves I (aw_get ns n);
  ka_class n : preserves I (class_get n);
  ka_load : preserves I Load;
  ka_clock : preserves I read_clock;
  ka_dep ns n : preserves I (wdep_get ns n);
  ka_tpl ns n : preserves I (template_get ns n);
  ka_warn r m : ∀ w, I w → I (warn r m w);
  ka_send x w : I w → (∃ aw w1 w2, I w1 ∧ aw_get namespace name w1 = (inl aw, w2) ∧ aw_allowed I aw x) → I (send x w);
}.
End Writes.

Section Effects.
Context {W : Type} `{WorkloadAPI W, IntentAPI W, Clock W} `{MapRange}.
Context (I : W → Prop) (namespace name : string) `{HK : !KeepsAw I namespace name} (aw : AcceleratorWorkload).
Hypothesis Haw : ∃ w1 w2, I w1 ∧ aw_get namespace name w1 = (inl aw, w2).
Notation inv m := (preserves I m).

Lemma allowed_sent x w : I w → aw_allowed I aw x → I (send x w).
Proof. destruct Haw as (w1 & w2 & Hw1 & E). intros Hw Hx. apply (ka_send (KeepsAw := HK) x w Hw). eauto 6. Qed.
Lemma inv_event b r m : inv (event_if b r m).
Proof. intros w Hw. destruct b; [|done]. unfold wp. simpl. by apply (ka_warn (KeepsAw := HK)). Qed.

Lemma wp_set_cond gen t st r m conds (Q : list StatusCondition + GoErr → W → Prop) w : I w →
  (∀ now w', I w' → Q (inl (SetStatusCondition now conds t st r m gen)) w') → wp (set_cond gen t st r m conds) Q w.
Proof.
  intros Hw HQ. unfold set_cond. apply wp_bind. assert (Hc := ka_clock (KeepsAw := HK) w Hw). revert Hc.
  unfold wp, read_clock. destruct (time_now w) as [now w']. apply HQ.
Qed.
(** The status at the end: what both conditions say is fixed by the last two steps. *)
Lemma cond_both now now' conds st st' r r' m m' g g' gen phase res rj :
  let s := mkWorkloadStatus gen phase res (SetStatusCondition now' (SetStatusCondition now conds AWCondTranslated st r m g)
             AWCondWorkloadReady st' r' m' g') rj in
  cond_is s AWCondTranslated st ∧ cond_is s AWCondWorkloadReady st'.
Proof. split; [|apply find_set]. unfold cond_is. simpl. rewrite find_set_other by done. apply find_set. Qed.
Lemma inv_status_update s : Aw_ObservedGeneration s = Aw_Generation aw → status_ok s →
  (∀ res, Aw_Resolved s = Some res → resolves I aw res) → inv (aw_status_update (with_status aw s)).
Proof. intros Hg Hs Hr w Hw. apply (allowed_sent (WStatus (with_status aw s))); [done|]. by exists s. Qed.

Lemma inv_rejected reason axis message : inv (rejected aw reason axis message).
Proof.
  intros w Hw. apply wp_bind, wp_set_cond; [done|]. intros now w1 Hw1. apply wp_bind, wp_set_cond; [done|].
  intros now' w2 Hw2. apply preserves_bind; [apply inv_event|intros _|done].
  apply preserves_bind; [|intros _; apply preserves_ret]. apply inv_status_update; [done| |done].
  left. split_and!; [done..|by eexists| |]; apply cond_both.
Qed.
Lemma inv_translated res dep reason msg : resolves I aw res → inv (translated aw res dep reason msg).
Proof.
  intros Hres w Hw. apply wp_bind, wp_set_cond; [done|]. intros now w1 Hw1.
  assert (Hst : ∀ phase st r m, (phase = AWPhaseTranslated ∧ st = ConditionFalse ∨ phase = AWPhaseRunning ∧ st = ConditionTrue) →
    inv (conds ← set_cond (Aw_Generation aw) AWCondWorkloadReady st r m
           (SetStatusCondition now (Aw_Conditions (Aw_Status aw)) AWCondTranslated ConditionTrue AWReasonTranslated
              (Ra_Explanation res) (Aw_Generation aw));
         aw_status_update (with_status aw (mkWorkloadStatus (Aw_Generation aw) phase (Some res) conds None)))).
  { intros phase st r m Hph w2 Hw2. apply wp_bind, wp_set_cond; [done|]. intros now' w3 Hw3.
    apply inv_status_update; [done| |by intros ? [= <-]|done]. right.
    destruct Hph as [[-> ->]|[-> ->]]; [left|right]; (split_and!; [done|by eexists|done| |]; apply cond_both). }
  destruct (negb _).
  - apply preserves_bind; [apply inv_event|intros _; apply Hst; by left|done].
  - destruct dep as [d|]; [destruct (0 <? Wd_ReadyReplicas d)|]; apply Hst; auto.
Qed.

Lemma inv_read_try {A B} (m : M W A) (f : A + GoErr → M W B) :
  inv m → (∀ r w w', I w → m w = (r, w') → inv (f r)) → inv (r ← try m; f r).
Proof. intros Hm Hf w Hw. apply (wp_try_of I); [done..|]. intros r w' E Hw'. by apply (Hf r w w' Hw E). Qed.
Lemma inv_checked {A B} (m : M W A) (ok : A → M W B) (err : GoErr → M W B) :
  inv m → (∀ a, inv (ok a)) → (∀ e, inv (err e)) → inv (r ← try m; match r with inl a => ok a | inr e => err e end).
Proof. intros Hm Hok He. apply preserves_bind; [by apply preserves_try|]. intros [a|e]; auto. Qed.

Lemma inv_applyDeployment want : wanted I aw want → inv (applyDeployment want).
Proof.
  intros Hwant. assert (Huid : first_owner_uid (Wd_OwnerReferences want) = Aw_UID aw) by by destruct Hwant as (res & _ & ->).
  apply inv_read_try; [apply ka_dep|]. intros [live|e] w w' Hw E.
  - destruct (bool_decide_reflect (GetControllerOf (Wd_OwnerReferences live) = Some (first_owner_uid (Wd_OwnerReferences want))))
      as [Hown|]; cbn [negb]; cbv zeta; [|by intros w1].
    destruct (bool_decide _ && _) eqn:Esame; [by intros w1|]. apply inv_checked; [|by intros d w1|by intros e w1].
    intros w1 Hw1. apply (allowed_sent (WDepUpdate (mergeDeployment live want))); [done|]. exists live, want.
    split_and!; [by exists (Wd_Namespace want), (Wd_Name want), w, w'|done|done| |by rewrite <-Huid].
    intros Em. rewrite Em, !bool_decide_true in Esame by done. done.
  - destruct (is_not_found e); [|by intros w1]. apply inv_checked; [|by intros d w1|by intros e1 w1].
    intros w1 Hw1. by apply (allowed_sent (WDepCreate want)).
Qed.
Lemma inv_applyTemplate res rct : resolves I aw res → renderResourceClaimTemplate aw res = Some rct →
  inv (applyResourceClaimTemplate (own_template aw rct)).
Proof.
  intros Hres E. apply preserves_bind; [apply preserves_try, ka_tpl|]. intros [live|e].
  - destruct (negb _); [by intros w|]. by destruct (negb _); intros w.
  - destruct (is_not_found e); [|by intros w]. apply inv_checked; [|by intros d w1|by intros e1 w1].
    intros w1 Hw1. apply (allowed_sent (WTplCreate (own_template aw rct))); [done|]. by exists res, rct.
Qed.
Lemma inv_deleteTemplate res : resolves I aw res → Ra_AllocationAPI res ≠ AllocationAPIDRA →
  inv (deleteOwnedResourceClaimTemplate aw).
Proof.
  intros Hres Hapi. apply preserves_bind; [apply preserves_try, ka_tpl|]. intros [live|e].
  - destruct (bool_decide_reflect (GetControllerOf (Tp_OwnerReferences live) = Some (Aw_UID aw))) as [Hown|]; simpl; [|by intros w].
    apply preserves_bind; [apply preserves_try|intros [[]|e]; [by intros w|by destruct (is_not_found e); intros w]].
    intros w Hw. apply (allowed_sent (WTplDelete live)); [done|]. split; [done|eauto].
  - by destruct (_ || _); intros w.
Qed.
Lemma inv_blocked res reason e : resolves I aw res → inv (blocked aw res reason e).
Proof.
  intros Hres. destruct reason as [reason|]; simpl; [|by intros w].
  apply preserves_bind; [by apply inv_translated|intros _; by intros w].
Qed.
Lemma inv_realise res : resolves I aw res → inv (realise aw res).
Proof.
  intros Hres. assert (Hdep : inv (realise_deployment aw res)).
  { apply preserves_bind; [apply preserves_try, inv_applyDeployment; by exists res|]. intros [live|e]; [|by apply inv_blocked].
    apply preserves_bind; [by apply inv_translated|intros _; by intros w]. }
  unfold realise. destruct (renderResourceClaimTemplate aw res) as [rct|] eqn:E.
  - apply preserves_bind; [by apply preserves_try, (inv_applyTemplate res)|]. intros [_|e]; [done|by apply inv_blocked].
  - apply preserves_bind; [|by intros _]. apply (inv_deleteTemplate res); [done|]. unfold renderResourceClaimTemplate in E.
    intros Hapi. by rewrite bool_decide_true in E.
Qed.
End Effects.

(** ** The theorems *)

(** C4. Everything a pass over a workload writes is about that workload and what it
    translates to: a Deployment or template of its own, rendered from a translation of
    the cluster just read; an update that merges it into a Deployment the workload
    already controls, and only when that changes something; the deletion of its own
    template once DRA is no longer used; and a status that names either the translation
    or the refusal, never both, and is Running exactly when WorkloadReady is true. *)
Theorem workload_writes {W} `{WorkloadAPI W, IntentAPI W, Clock W} `{MapRange} (I : W → Prop) namespace name w r w' :
  KeepsAw I namespace name → I w → Reconcile namespace name w = (r, w') → I w'.
Proof.
  intros HK Hw E. cut (wp (Reconcile namespace name) (λ _ w', I w') w); [unfold wp; by rewrite E|]. clear E. unfold Reconcile.
  apply (wp_try_of I); [apply (ka_get (KeepsAw := HK))|done|]. intros [aw|e] w1 Eaw Hw1; [|by destruct (is_not_found e)].
  assert (Haw : ∃ w1 w2, I w1 ∧ aw_get namespace name w1 = (inl aw, w2)) by eauto.
  apply (wp_try_of I); [apply (ka_class (KeepsAw := HK))|done|]. intros [class|e] w2 Ecl Hw2.
  - apply (wp_try_of I); [apply (ka_load (KeepsAw := HK))|done|]. intros [[snap dra]|e] w3 El Hw3.
    + destruct (TranslateWithDRA _ snap dra) as [res|[rj|]] eqn:Et; [|by apply (inv_rejected I namespace name aw)|done].
      apply (inv_realise I namespace name aw Haw); [|done]. by exists class, snap, dra, w1, w2, w3.
    + destruct (nonRetryableAPIError e); [|done]. by apply (inv_rejected I namespace name aw).
  - destruct (is_not_found e); [|done]. by apply (inv_rejected I namespace name aw).
Qed.

(** C5. Reconciling settles: a Deployment the workload controls is updated exactly when
    a field of the controller differs, whatever the API server or others filled in
    elsewhere; the update it sends then is one it would not send again. *)
Theorem workload_comes_to_rest {W} `{WorkloadAPI W} aw res live w w1 :
  let want := own_deployment aw (renderDeployment aw res) in
  let merged := mergeDeployment live want in
  wdep_get (Aw_Namespace aw) (Aw_Name aw) w = (inl live, w1) → GetControllerOf (Wd_OwnerReferences live) = Some (Aw_UID aw) →
  as_wanted merged want ∧
  (as_wanted live want → applyDeployment want w = (inl live, w1)) ∧
  (¬ as_wanted live want → (applyDeployment want w).2 = (wdep_update merged w1).2).
Proof.
  intros want merged Hget Hown. assert (Hone : length (Dsp_Containers (Wd_Spec want)) = 1%nat) by done.
  assert (Hm : as_wanted merged want) by by apply merge_as_wanted. split; [done|].
  assert (E : applyDeployment want w =
    (if bool_decide (Wd_Spec live = Wd_Spec merged) && bool_decide (Wd_Labels live = Wd_Labels merged) then mret live
     else r ← try (wdep_update merged);
          match r with inl d => mret d
          | inr e => throw (errorf_w ("update deployment " +:+ (Wd_Namespace want +:+ "/" +:+ Wd_Name want)) e) end) w1).
  { unfold applyDeployment. rewrite bind_try. change (Wd_Namespace want) with (Aw_Namespace aw).
    change (Wd_Name want) with (Aw_Name aw). rewrite Hget. cbn [fst snd].
    change (first_owner_uid (Wd_OwnerReferences want)) with (Aw_UID aw). by rewrite (bool_decide_true (GetControllerOf _ = _)). }
  rewrite E. split.
  - intros Hlive. assert (merged = live) as -> by by apply merge_at_rest. by rewrite !bool_decide_true by done.
  - intros Hno. destruct (bool_decide_reflect (Wd_Spec live = Wd_Spec merged)) as [Es|Es];
      [destruct (bool_decide_reflect (Wd_Labels live = Wd_Labels merged)) as [El|El]|]; cbn [andb].
    + destruct Hno. unfold as_wanted, quiesced in *. rewrite Es, El. exact Hm.
    + rewrite bind_try. by destruct (wdep_update merged w1) as [[]].
    + rewrite bind_try. by destruct (wdep_update merged w1) as [[]].
Qed.

(** The Deployment as the driver upgrade sees it. *)
Definition upgrade_view (d : WDeployment) : Deployment :=
  mkDeployment (Wd_Namespace d) (Wd_Name d) (Wd_Labels d) (Wd_Annotations d) (Dsp_Replicas (Wd_Spec d))
    (Dsp_NodeSelector (Wd_Spec d)) (Aff_Required <$> Dsp_Affinity (Wd_Spec d)).

(** C6. A Deployment that a driver upgrade scaled to zero stays at zero through every
    reconcile of its workload, and keeps the record of its replicas; once the upgrade
    restores it, the next merge gives it the workload's replicas again. *)
Theorem quiesce_survives_reconcile node live live' want original patched :
  quiesce_patch node (upgrade_view live) = Some (patched, original) → upgrade_view live' = patched →
  Dsp_Replicas (Wd_Spec (mergeDeployment live' want)) = Some 0 ∧
  Wd_Annotations (mergeDeployment live' want) !! QuiesceReplicasBackupAnnotation = Some (sprint_Z original) ∧
  (∀ restored, upgrade_view restored = restore_patch original (upgrade_view (mergeDeployment live' want)) →
     Dsp_Replicas (Wd_Spec (mergeDeployment restored want)) = Dsp_Replicas (Wd_Spec want)).
Proof.
  unfold quiesce_patch. destruct (negb _); [done|]. destruct (Dep_Replicas (upgrade_view live)) as [n|]; [|done].
  destruct (n =? 0); [done|]. intros [= <- <-] Hv.
  assert (Hr : Dsp_Replicas (Wd_Spec live') = Some 0) by by apply (f_equal Dep_Replicas) in Hv.
  assert (Ha : Wd_Annotations live' = <[QuiesceReplicasBackupAnnotation := sprint_Z n]> (Wd_Annotations live))
    by by apply (f_equal Dep_Annotations) in Hv.
  split_and!; simpl.
  - rewrite Ha, lookup_insert_eq. by rewrite bool_decide_true by by eexists.
  - by rewrite Ha, lookup_insert_eq.
  - intros restored Hres. apply (f_equal Dep_Annotations) in Hres. simpl in Hres.
    rewrite Hres, lookup_delete_eq. by rewrite bool_decide_false by by intros [].
Qed.

(** ** AcceleratorWorkload: a cluster that runs

    One workload, its class, the nodes, and the Deployment and template of its name;
    every write is stored.  The witnesses of [WorkloadSafety] run on it. *)


#[local] Existing Instance byte_quantities.
#[local] Existing Instance map_range_default.

Record WlCluster := mkWlCluster {
  Wl_Workload : AcceleratorWorkload;
  Wl_Class : option AcceleratorClass;
  Wl_Nodes : list Node;
  Wl_Deployment : option WDeployment;
  Wl_Template : option ResourceClaimTemplate;
  Wl_Events : list (string * string);
}.
Definition wl_absent : GoErr := mkErr KNotFound "not found".
Definition answer {A} (f : WlCluster → option A) : M WlCluster A := λ c,
  match f c with Some a => (inl a, c) | None => (inr wl_absent, c) end.
Definition put_dep (d : WDeployment) (c : WlCluster) : WlCluster :=
  mkWlCluster (Wl_Workload c) (Wl_Class c) (Wl_Nodes c) (Some d) (Wl_Template c) (Wl_Events c).
Definition put_tpl (t : option ResourceClaimTemplate) (c : WlCluster) : WlCluster :=
  mkWlCluster (Wl_Workload c) (Wl_Class c) (Wl_Nodes c) (Wl_Deployment c) t (Wl_Events c).
#[export] Instance wl_clock : Clock WlCluster := {| time_now c := (0, c) |}.
#[export] Instance wl_intent : IntentAPI WlCluster := {|
  IntentSnapshot.node_list := gets Wl_Nodes; partition_policy_list := mret []; IntentSnapshot.report_list := mret [];
  health_list := mret []; device_class_list := throw wl_absent; resource_slice_list := mret [];
|}.
#[export] Instance wl_api : WorkloadAPI WlCluster := {|
  aw_get _ _ := gets Wl_Workload;
  class_get _ := answer Wl_Class;
  aw_status_update aw := modify (λ c, mkWlCluster aw (Wl_Class c) (Wl_Nodes c) (Wl_Deployment c) (Wl_Template c) (Wl_Events c));
  wdep_get _ _ := answer Wl_Deployment;
  wdep_create d c := (inl d, put_dep d c);
  wdep_update d c := (inl d, put_dep d c);
  template_get _ _ := answer Wl_Template;
  template_create t := modify (put_tpl (Some t));
  template_delete _ := modify (put_tpl None);
  warn r m c := mkWlCluster (Wl_Workload c) (Wl_Class c) (Wl_Nodes c) (Wl_Deployment c) (Wl_Template c) (Wl_Events c ++ [(r, m)]);
|}.

Definition demo_workload (status : AcceleratorWorkloadStatus) : AcceleratorWorkload :=
  mkWorkload "team" "train" "uid-1" 3
    (mkWorkloadSpec (mkAccRequest "gpu" (mkAccess AccessModeExclusive "" 0) None None)
       (mkWorkloadTemplate "img:1" (Some 2) [] [] [])) status.
Definition no_status : AcceleratorWorkloadStatus := mkWorkloadStatus 0 "" None [] None.
Definition gpu_class : AcceleratorClass := mkClass "gpu" (mkRequirements "" None) [mkMapping "nvidia" "" "" "" ""].
Definition host (name : string) : Node :=
  mkNode name ∅ ∅ false {["nvidia.com/gpu" := 2; "cpu" := 64]} [] "boot" "6.8" None.
Definition foreign_dep : WDeployment :=
  mkWDeployment "team" "train" ∅ ∅ [mkOwnerRef "Helm" "chart" "uid-9" true]
    (mkDeploymentSpec (Some 1) ∅ ∅ None None [] [] ∅ "defaults") 1 1.
Definition wl_cluster (dep : option WDeployment) : WlCluster :=
  mkWlCluster (demo_workload no_status) (Some gpu_class) [host "w1"] dep None [].
Definition wl_run (c : WlCluster) : (Z + GoErr) * WlCluster := Reconcile "team" "train" c.

Example fresh_workload_deploys :
  match Wl_Deployment (wl_run (wl_cluster None)).2 with
  | Some d => Dsp_Replicas (Wd_Spec d) = Some 2 ∧ GetControllerOf (Wd_OwnerReferences d) = Some "uid-1"
  | None => False
  end.
Proof. vm_compute. auto. Qed.
(** Somebody else's Deployment stays, and the status says why. *)
Example foreign_deployment_stays :
  Wl_Deployment (wl_run (wl_cluster (Some foreign_dep))).2 = Some foreign_dep ∧
  (Wl_Events (wl_run (wl_cluster (Some foreign_dep))).2).*1 = [AWReasonDeploymentConflict].
Proof. vm_compute. auto. Qed.

(** The uid stays, the stored status is well formed, and nobody else's Deployment is touched. *)
Definition wl_ok (dep : option WDeployment) (c : WlCluster) : Prop :=
  Aw_UID (Wl_Workload c) = "uid-1" ∧ (Wl_Workload c = demo_workload no_status ∨ status_ok (Aw_Status (Wl_Workload c))) ∧
  (Wl_Deployment c = dep ∨ ∃ d, Wl_Deployment c = Some d ∧ GetControllerOf (Wd_OwnerReferences d) = Some "uid-1").
Lemma wl_answers {A} (f : WlCluster → option A) P : preserves P (answer f).
Proof. intros c Hc. unfold wp, answer. by destruct (f c). Qed.
Lemma wl_keeps dep : (∀ d, dep = Some d → GetControllerOf (Wd_OwnerReferences d) ≠ Some "uid-1") → KeepsAw (wl_ok dep) "team" "train".
Proof.
  intros Hdep. split; try (intros; apply wl_answers); try (intros; intros c Hc; exact Hc).
  - intros r m c Hc. exact Hc.
  - intros x c (Hu & Hs & Hd) (aw & c1 & c2 & (Hu1 & _) & Haw & Hx). injection Haw as <- <-. destruct x; simpl in *.
    + destruct Hx as (s & -> & _ & Hok & _). by split_and!; [|right|].
    + destruct Hx as (res & _ & ->). split_and!; [done..|]. right. eexists. split; [done|]. unfold GetControllerOf. simpl. by rewrite Hu1.
    + destruct Hx as (live & want & _ & _ & -> & _ & Hown). split_and!; [done..|]. right. eexists. split; [done|]. simpl. by rewrite <-Hu1, Hown.
    + done.
    + done.
Qed.
Lemma workload_writes_witness : Wl_Deployment (wl_run (wl_cluster (Some foreign_dep))).2 = Some foreign_dep ∧
  status_ok (Aw_Status (Wl_Workload (wl_run (wl_cluster (Some foreign_dep))).2)).
Proof.
  assert (Hd : Wl_Deployment (wl_run (wl_cluster (Some foreign_dep))).2 = Some foreign_dep) by (vm_compute; reflexivity).
  assert (Hph : Aw_Phase (Aw_Status (Wl_Workload (wl_run (wl_cluster (Some foreign_dep))).2)) = AWPhaseTranslated)
    by (vm_compute; reflexivity).
  destruct (wl_run (wl_cluster (Some foreign_dep))) as [r c'] eqn:E. cbn [fst snd] in Hd, Hph |- *.
  assert (Hok : wl_ok (Some foreign_dep) c').
  { apply (workload_writes (wl_ok (Some foreign_dep)) "team" "train" (wl_cluster (Some foreign_dep)) r c').
    - apply wl_keeps. by intros d [= <-].
    - split; [reflexivity|]. split; [by left|by left].
    - exact E. }
  split; [exact Hd|]. destruct Hok as (_ & [Hw|Hok] & _); [|exact Hok]. rewrite Hw in Hph. discriminate Hph.
Defined.

(** The Deployment of the demo workload, as the API server keeps it. *)
Definition demo_res : ResolvedAllocation := mkResolved "nvidia" AccessModeExclusive "nvidia.com/gpu" "" 1 AllocationAPIDevicePlugin ["w1"] "".
Definition live_dep : WDeployment :=
  let d := own_deployment (demo_workload no_status) (renderDeployment (demo_workload no_status) demo_res) in
  mkWDeployment (Wd_Namespace d) (Wd_Name d) (<["team" := "a"]> (Wd_Labels d)) {["rev" := "1"]} (Wd_OwnerReferences d)
    (mkDeploymentSpec (Dsp_Replicas (Wd_Spec d)) (Dsp_Selector (Wd_Spec d)) (Dsp_TemplateLabels (Wd_Spec d)) (Dsp_Affinity (Wd_Spec d))
       (Dsp_RuntimeClassName (Wd_Spec d)) (Dsp_ResourceClaims (Wd_Spec d)) (Dsp_Containers (Wd_Spec d)) {["zone" := "x"]} "defaults") 2 2.
Lemma workload_comes_to_rest_witness :
  applyDeployment (own_deployment (demo_workload no_status) (renderDeployment (demo_workload no_status) demo_res)) (wl_cluster (Some live_dep))
  = (inl live_dep, wl_cluster (Some live_dep)).
Proof.
  apply (workload_comes_to_rest (demo_workload no_status) demo_res live_dep (wl_cluster (Some live_dep)) (wl_cluster (Some live_dep)));
    [reflexivity|reflexivity|].
  split_and!; [|by right|reflexivity..]. intros k v Hk. apply (lookup_singleton_Some awWorkloadLabel k "train" v) in Hk as [<- <-]. vm_compute. reflexivity.
Defined.

Definition quiesced_dep : WDeployment :=
  mkWDeployment "team" "train" (Wd_Labels live_dep) (<[QuiesceReplicasBackupAnnotation := "2"]> (Wd_Annotations live_dep))
    (Wd_OwnerReferences live_dep)
    (mkDeploymentSpec (Some 0) (Dsp_Selector (Wd_Spec live_dep)) (Dsp_TemplateLabels (Wd_Spec live_dep)) (Dsp_Affinity (Wd_Spec live_dep))
       (Dsp_RuntimeClassName (Wd_Spec live_dep)) (Dsp_ResourceClaims (Wd_Spec live_dep)) (Dsp_Containers (Wd_Spec live_dep))
       (Dsp_NodeSelector (Wd_Spec live_dep)) "defaults") 0 0.
Lemma quiesce_survives_reconcile_witness : Dsp_Replicas (Wd_Spec (mergeDeployment quiesced_dep live_dep)) = Some 0.
Proof.
  apply (quiesce_survives_reconcile "w1" live_dep quiesced_dep live_dep 2 (upgrade_view quiesced_dep)); [vm_compute; reflexivity|reflexivity].
Defined.
