(* ===== verification/PodSpec.v ===== *)
(** * The Pods the operator renders, and the nodes they may run on

    The fields that the cluster-policy controller writes of a DaemonSet, and the helpers
    of npuclusterpolicy_controller.go and node_exclusion.go that narrow the nodes: each
    appends requirements to every required term of the node affinity.  What a selector
    and the scheduler make of them is Kubernetes' ([LabelSelectors], [Scheduler]). *)

From S2P Require Import Prelude GoStrings ApiTypes PolicyTypes UpgradeTypes UpgradeNode PartitionTypes SharingConfig.

(** ** Pods *)

Inductive EnvSource := FieldRef (path : string) | OtherEnvSource (what : string).
Record EnvVar := mkEnv { Env_Name : string; Env_Value : string; Env_ValueFrom : option EnvSource }.
Definition env (n v : string) : EnvVar := mkEnv n v None.
Definition env_field (n path : string) : EnvVar := mkEnv n "" (Some (FieldRef path)).
Record Mount := mkMnt { Mt_Name : string; Mt_Path : string; Mt_ReadOnly : bool; Mt_Propagation : string }.
Definition mnt (n path : string) : Mount := mkMnt n path false "".
Definition mnt_ro (n path : string) : Mount := mkMnt n path true "".
(** [HostPath]: the path and its type; [EmptyDir]: the medium and the size limit. *)
Inductive VolumeSource := HostPath (path type : string) | ConfigMapVolume (name : string) | EmptyDir (medium : string) (limit : Z).
Notation Volume := (string * VolumeSource)%type.
Definition host_volume (n path : string) : Volume := (n, HostPath path "").
Record SecurityContext := mkSecurity {
  Sec_Privileged : option bool;
  Sec_AllowPrivilegeEscalation : option bool;
  Sec_Drop : list string;
  Sec_RunAsUser : option Z;
  Sec_RunAsNonRoot : option bool;
  Sec_ReadOnlyRootFilesystem : option bool;
  Sec_SeccompProfile : string;
}.
Definition privileged : SecurityContext := mkSecurity (Some true) None [] None None None "".
(** A gRPC liveness probe. *)
Record Probe := mkProbe { Pr_Port : Z; Pr_InitialDelaySeconds : Z; Pr_PeriodSeconds : Z; Pr_FailureThreshold : Z }.
Record OContainer := mkOContainer {
  Oc_Name : string;
  Oc_Image : string;
  Oc_ImagePullPolicy : string;
  Oc_Command : list string;
  Oc_Args : list string;
  Oc_Ports : list (string * Z);
  Oc_Env : list EnvVar;
  Oc_Security : option SecurityContext;
  (** as written, before the API server parses the quantities *)
  Oc_Requests : list (string * string);
  Oc_Limits : list (string * string);
  Oc_Mounts : list Mount;
  Oc_LivenessProbe : option Probe;
}.
Record NodeAffinity := mkNodeAffinity { Na_Required : option (list SelectorTerm) }.
Record Affinity := mkAffinity { Af_NodeAffinity : option NodeAffinity }.
Record PodSpec := mkPodSpec {
  Ps_NodeSelector : gmap string string;
  Ps_Affinity : option Affinity;
  (** operator and effect *)
  Ps_Tolerations : list (string * string);
  Ps_ServiceAccountName : string;
  Ps_PriorityClassName : string;
  Ps_RuntimeClassName : option string;
  Ps_HostNetwork : bool;
  Ps_HostPID : bool;
  Ps_InitContainers : list OContainer;
  Ps_Containers : list OContainer;
  Ps_Volumes : list Volume;
  Ps_ImagePullSecrets : list string;
}.
Definition ps_affinity (v : option Affinity) (s : PodSpec) : PodSpec :=
  mkPodSpec (Ps_NodeSelector s) v (Ps_Tolerations s) (Ps_ServiceAccountName s) (Ps_PriorityClassName s)
    (Ps_RuntimeClassName s) (Ps_HostNetwork s) (Ps_HostPID s) (Ps_InitContainers s) (Ps_Containers s) (Ps_Volumes s)
    (Ps_ImagePullSecrets s).
Definition ps_image_pull_secrets (v : list string) (s : PodSpec) : PodSpec :=
  mkPodSpec (Ps_NodeSelector s) (Ps_Affinity s) (Ps_Tolerations s) (Ps_ServiceAccountName s) (Ps_PriorityClassName s)
    (Ps_RuntimeClassName s) (Ps_HostNetwork s) (Ps_HostPID s) (Ps_InitContainers s) (Ps_Containers s) (Ps_Volumes s) v.
Definition ps_workload (cs : list OContainer) (vs : list Volume) (s : PodSpec) : PodSpec :=
  mkPodSpec (Ps_NodeSelector s) (Ps_Affinity s) (Ps_Tolerations s) (Ps_ServiceAccountName s) (Ps_PriorityClassName s)
    (Ps_RuntimeClassName s) (Ps_HostNetwork s) (Ps_HostPID s) (Ps_InitContainers s) cs vs (Ps_ImagePullSecrets s).

Record DaemonSetSpec := mkDaemonSetSpec {
  Dss_Selector : gmap string string;
  Dss_TemplateLabels : gmap string string;
  Dss_TemplateAnnotations : gmap string string;
  Dss_Pod : PodSpec;
}.
Record ODaemonSet := mkODaemonSet {
  Ods_Namespace : string;
  Ods_Name : string;
  Ods_Labels : gmap string string;
  Ods_Annotations : gmap string string;
  (** [deletionTimestamp] is set *)
  Ods_Deleting : bool;
  Ods_Spec : DaemonSetSpec;
}.
Definition ods_pod (ds : ODaemonSet) : PodSpec := Dss_Pod (Ods_Spec ds).
Definition on_pod (f : PodSpec → PodSpec) (ds : ODaemonSet) : ODaemonSet :=
  mkODaemonSet (Ods_Namespace ds) (Ods_Name ds) (Ods_Labels ds) (Ods_Annotations ds) (Ods_Deleting ds)
    (mkDaemonSetSpec (Dss_Selector (Ods_Spec ds)) (Dss_TemplateLabels (Ods_Spec ds)) (Dss_TemplateAnnotations (Ods_Spec ds))
       (f (ods_pod ds))).
Definition ods_annotations (v : gmap string string) (ds : ODaemonSet) : ODaemonSet :=
  mkODaemonSet (Ods_Namespace ds) (Ods_Name ds) (Ods_Labels ds) v (Ods_Deleting ds) (Ods_Spec ds).

#[export] Instance OContainer_eq_dec : EqDecision OContainer.
Proof.
  assert (EqDecision EnvSource) by solve_decision. assert (EqDecision EnvVar) by solve_decision.
  assert (EqDecision Mount) by solve_decision. assert (EqDecision SecurityContext) by solve_decision.
  assert (EqDecision Probe) by solve_decision. solve_decision.
Defined.
#[export] Instance VolumeSource_eq_dec : EqDecision VolumeSource.
Proof. solve_decision. Defined.
#[export] Instance Affinity_eq_dec : EqDecision Affinity.
Proof. assert (EqDecision NodeAffinity) by solve_decision. solve_decision. Defined.
#[export] Instance PodSpec_eq_dec : EqDecision PodSpec.
Proof. solve_decision. Defined.
#[export] Instance DaemonSetSpec_eq_dec : EqDecision DaemonSetSpec.
Proof. solve_decision. Defined.

(** ** Narrowing the nodes *)

Definition required_terms (s : PodSpec) : option (list SelectorTerm) :=
  match Ps_Affinity s with Some (mkAffinity (Some (mkNodeAffinity r))) => r | _ => None end.
Definition appendNodeAffinityRequirements (reqs : list Requirement) (s : PodSpec) : PodSpec :=
  let terms := match required_terms s with None | Some [] => [mkTerm [] []] | Some ts => ts end in
  ps_affinity (Some (mkAffinity (Some (mkNodeAffinity
    (Some ((λ t, mkTerm (Term_Expressions t ++ reqs) (Term_Fields t)) <$> terms)))))) s.

Definition controlPlaneNodeLabel : string := "node-role.kubernetes.io/control-plane".
Definition masterNodeLabel : string := "node-role.kubernetes.io/master".
Definition OpIn : string := "In".
Definition OpNotIn : string := "NotIn".
Definition OpExists : string := "Exists".
Definition OpDoesNotExist : string := "DoesNotExist".
Definition absent (key : string) : Requirement := mkRequirement key OpDoesNotExist [].

Definition applyDriverUpgradeAntiAffinity : PodSpec → PodSpec :=
  appendNodeAffinityRequirements [absent driverUpgradingBlockingLabelKey].
Definition applyControlPlaneExclusion : PodSpec → PodSpec :=
  appendNodeAffinityRequirements [absent controlPlaneNodeLabel; absent masterNodeLabel].
Definition applyImagePullSecrets (secrets : list string) (s : PodSpec) : PodSpec :=
  if 0 <? Z.of_nat (length secrets) then ps_image_pull_secrets secrets s else s.

(** npuclusterpolicy_types.go: the two labels an operator derives from the policy *)
Definition DRAOwnedNodeLabel (vendor : string) : string := "kcloud.ai/" +:+ vendor +:+ ".dra-owned".
Definition DRARetiredNodeLabel (vendor : string) : string := "kcloud.ai/" +:+ vendor +:+ ".dra-retired".
Definition excludeDRAOwnedNodes (vendor : string) : PodSpec → PodSpec :=
  appendNodeAffinityRequirements [absent (DRAOwnedNodeLabel vendor)].
Definition excludeDRARetiredNodes (vendor : string) : PodSpec → PodSpec :=
  appendNodeAffinityRequirements [absent (DRARetiredNodeLabel vendor)].

(** ** Selectors *)

Record LabelSelector := mkLabelSelector { MatchLabels : gmap string string; MatchExpressions : list Requirement }.
(** [metav1.LabelSelectorAsSelector] of a non-nil selector. *)
Class LabelSelectors := { LabelSelectorAsSelector : LabelSelector → (gmap string string → bool) + GoErr }.

Section Exclusion.
Context `{LabelSelectors}.

Definition conditionSelector (c : Requirement) : (gmap string string → bool) + GoErr :=
  LabelSelectorAsSelector (mkLabelSelector ∅ [c]).
(** The keys are sorted, so the order of the map does not show. *)
Definition all_conditions (sel : LabelSelector) : list Requirement :=
  ((λ kv : string * string, mkRequirement kv.1 OpIn [kv.2]) <$> sort_on fst (map_to_list (MatchLabels sel)))
  ++ ((λ e, if bool_decide (Req_Operator e = OpExists) || bool_decide (Req_Operator e = OpDoesNotExist)
            then mkRequirement (Req_Key e) (Req_Operator e) [] else e) <$> MatchExpressions sel).
Definition condition_valid (c : Requirement) : bool := match conditionSelector c with inl _ => true | inr _ => false end.
Definition exclusionConditions (sel : option LabelSelector) : list Requirement * list Requirement :=
  match sel with
  | None => ([], [])
  | Some sel => (filter (λ c, condition_valid c = true) (all_conditions sel), filter (λ c, condition_valid c = false) (all_conditions sel))
  end.
Definition not_condition (e : Requirement) : option Requirement :=
  if bool_decide (Req_Operator e = OpIn) then Some (mkRequirement (Req_Key e) OpNotIn (Req_Values e))
  else if bool_decide (Req_Operator e = OpNotIn) then Some (mkRequirement (Req_Key e) OpIn (Req_Values e))
  else if bool_decide (Req_Operator e = OpExists) then Some (absent (Req_Key e))
  else if bool_decide (Req_Operator e = OpDoesNotExist) then Some (mkRequirement (Req_Key e) OpExists [])
  else None.
Definition applyExcludeNodeSelector (sel : option LabelSelector) (s : PodSpec) : PodSpec :=
  let reqs := omap not_condition (exclusionConditions sel).1 in
  if bool_decide (reqs = []) then s else appendNodeAffinityRequirements reqs s.
End Exclusion.

(** ** What Kubernetes makes of them

    A requirement on the labels of a node, as the documentation of label selectors and
    of node affinity states it. *)

Definition selects (c : Requirement) (labels : gmap string string) : bool :=
  let v := labels !! Req_Key c in
  if bool_decide (Req_Operator c = OpIn) then match v with Some v => bool_decide (v ∈ Req_Values c) | None => false end
  else if bool_decide (Req_Operator c = OpNotIn) then match v with Some v => bool_decide (v ∉ Req_Values c) | None => true end
  else if bool_decide (Req_Operator c = OpExists) then bool_decide (is_Some v)
  else if bool_decide (Req_Operator c = OpDoesNotExist) then bool_decide (v = None)
  else false.
(** A selector of one requirement is refused, or selects what the requirement says; its
    operator is then one of the four. *)
Class SelectorLaws `{LabelSelectors} : Prop := {
  one_requirement c f labels : LabelSelectorAsSelector (mkLabelSelector ∅ [c]) = inl f → f labels = selects c labels;
  known_operator c f : LabelSelectorAsSelector (mkLabelSelector ∅ [c]) = inl f →
    Req_Operator c ∈ [OpIn; OpNotIn; OpExists; OpDoesNotExist];
}.

(** May a pod with this spec be placed on a node with these labels?  The node selector
    holds, and so does one of the required terms, when there are any; a term with
    nothing in it holds nowhere. *)
Class Scheduler := { may_run : PodSpec → gmap string string → Prop }.
Definition term_holds (t : SelectorTerm) (labels : gmap string string) : Prop :=
  (Term_Expressions t ≠ [] ∨ Term_Fields t ≠ []) ∧ Forall (λ c, selects c labels = true) (Term_Expressions t).
Class SchedulerLaws `{Scheduler} : Prop := {
  needs_selector s labels : may_run s labels → ∀ k v, Ps_NodeSelector s !! k = Some v → labels !! k = Some v;
  needs_term s labels ts : may_run s labels → required_terms s = Some ts → ∃ t, t ∈ ts ∧ term_holds t labels;
  (** nothing but the labels in the way, and no requirement on the fields *)
  suffices s labels : (∀ k v, Ps_NodeSelector s !! k = Some v → labels !! k = Some v) →
    (∀ ts, required_terms s = Some ts → ∃ t, t ∈ ts ∧ Term_Fields t = [] ∧ term_holds t labels) → may_run s labels;
}.

Lemma selects_absent key labels : selects (absent key) labels = true ↔ labels !! key = None.
Proof. unfold selects, absent. simpl. rewrite bool_decide_eq_true. done. Qed.
(** The requirement that is rendered is the negation of the one that excludes. *)
Lemma selects_not c d labels : not_condition c = Some d → selects d labels = negb (selects c labels).
Proof.
  unfold not_condition, selects. destruct c as [key op vals]. cbn [Req_Key Req_Operator Req_Values].
  destruct (bool_decide_reflect (op = OpIn)) as [->|]; [intros [= <-]|].
  { cbn. destruct (labels !! key); [|done]. by repeat case_bool_decide. }
  destruct (bool_decide_reflect (op = OpNotIn)) as [->|]; [intros [= <-]|].
  { cbn. destruct (labels !! key); [|done]. by repeat case_bool_decide. }
  destruct (bool_decide_reflect (op = OpExists)) as [->|]; [intros [= <-]|].
  { cbn. by destruct (labels !! key). }
  destruct (bool_decide_reflect (op = OpDoesNotExist)) as [->|]; [intros [= <-]|done].
  cbn. by destruct (labels !! key).
Qed.
Lemma not_condition_known c : Req_Operator c ∈ [OpIn; OpNotIn; OpExists; OpDoesNotExist] → is_Some (not_condition c).
Proof.
  unfold not_condition. intros Hop. repeat case_bool_decide; [by eexists..|]. exfalso. set_solver.
Qed.

(** *** Requirements that are in every term *)

Definition demands (c : Requirement) (s : PodSpec) : Prop :=
  match required_terms s with Some ts => ts ≠ [] ∧ Forall (λ t, c ∈ Term_Expressions t) ts | None => False end.
Lemma demands_hold `{SchedulerLaws} c s labels : may_run s labels → demands c s → selects c labels = true.
Proof.
  intros Hrun. unfold demands. destruct (required_terms s) as [ts|] eqn:E; [|done]. intros [_ Hall].
  destruct (needs_term _ _ _ Hrun E) as (t & Ht & _ & Hh). rewrite Forall_forall in Hall.
  by apply (proj1 (Forall_forall _ _) Hh), (Hall t).
Qed.
Lemma demands_append c reqs s : c ∈ reqs ∨ demands c s → demands c (appendNodeAffinityRequirements reqs s).
Proof.
  intros Hc. unfold demands. simpl. split.
  - destruct (required_terms s) as [[|t ts]|]; done.
  - apply Forall_fmap, Forall_forall. intros t Ht. simpl. apply elem_of_app. destruct Hc as [Hc|Hc]; [by right|left].
    unfold demands in Hc. destruct (required_terms s) as [ts|]; [|done]. destruct Hc as [Hne Hall]. destruct ts as [|t1 ts]; [done|].
    rewrite Forall_forall in Hall. by apply Hall.
Qed.
Lemma demands_new c reqs s : c ∈ reqs → demands c (appendNodeAffinityRequirements reqs s).
Proof. intros. apply demands_append. by left. Qed.
Lemma demands_old c reqs s : demands c s → demands c (appendNodeAffinityRequirements reqs s).
Proof. intros. apply demands_append. by right. Qed.
Lemma demands_secrets c secrets s : demands c s → demands c (applyImagePullSecrets secrets s).
Proof. unfold applyImagePullSecrets. by destruct (_ <? _). Qed.
Lemma demands_exclude `{LabelSelectors} c sel s :
  c ∈ omap not_condition (exclusionConditions sel).1 ∨ demands c s → demands c (applyExcludeNodeSelector sel s).
Proof.
  intros Hc. unfold applyExcludeNodeSelector. case_bool_decide as E; [|by apply demands_append].
  destruct Hc as [Hc|]; [|done]. rewrite E in Hc. by apply elem_of_nil in Hc.
Qed.
(** Nodes that carry one of these labels are out. *)
Definition keeps_off `{Scheduler} (keys : list string) (s : PodSpec) : Prop :=
  ∀ labels, may_run s labels → Forall (λ k, labels !! k = None) keys.
Lemma keeps_off_demands `{SchedulerLaws} keys s : Forall (λ k, demands (absent k) s) keys → keeps_off keys s.
Proof.
  intros Hall labels Hrun. apply (Forall_impl _ _ _ Hall). intros k Hk. apply selects_absent. by apply (demands_hold _ _ _ Hrun).
Qed.
#[export] Hint Resolve demands_secrets demands_new demands_old : go_db.

Section Admits.
Context `{Scheduler, !SchedulerLaws}.

(** A pod that was narrowed runs only where the requirements hold too. *)
Lemma appended_hold reqs s labels :
  may_run (appendNodeAffinityRequirements reqs s) labels → Forall (λ c, selects c labels = true) reqs.
Proof.
  intros Hrun. destruct (needs_term _ _ _ Hrun eq_refl) as (t & Ht & Hh).
  apply list_elem_of_fmap in Ht as (t0 & -> & _). destruct Hh as [_ Hh]. simpl in Hh. by apply Forall_app in Hh as [_ ?].
Qed.
(** And where the pod ran before; a spec whose terms are all empty asks for nothing yet. *)
Definition asks (s : PodSpec) : Prop :=
  match required_terms s with Some ts => ts ≠ [] ∧ Forall (λ t, Term_Expressions t ≠ []) ts | None => True end.
Definition plain (s : PodSpec) : Prop :=
  asks s ∧ match required_terms s with Some ts => Forall (λ t, Term_Fields t = []) ts | None => True end.
Lemma appended_runs reqs s labels : plain s → reqs ≠ [] →
  may_run (appendNodeAffinityRequirements reqs s) labels ↔ may_run s labels ∧ Forall (λ c, selects c labels = true) reqs.
Proof.
  intros [Hask Hf] Hne. split.
  - intros Hrun. split; [|by eapply appended_hold]. apply suffices; [by apply (needs_selector _ _ Hrun)|].
    intros ts Ets. destruct (needs_term _ _ _ Hrun eq_refl) as (t & Ht & Hn & Hh).
    unfold asks in Hask. rewrite Ets in Ht, Hask, Hf. destruct Hask as [Hts Hexp]. destruct ts as [|t1 ts]; [done|].
    apply list_elem_of_fmap in Ht as (t0 & -> & Ht0). exists t0. simpl in Hh. apply Forall_app in Hh as [Hh _].
    rewrite Forall_forall in Hexp, Hf. split_and!; [done|by apply Hf|]. split; [left; by apply Hexp|done].
  - intros [Hrun Hreqs]. apply suffices; [by apply (needs_selector _ _ Hrun)|]. intros ts [= <-].
    unfold asks in Hask. destruct (required_terms s) as [ts|] eqn:Ets.
    + destruct (needs_term _ _ _ Hrun Ets) as (t & Ht & Hn & Hh). destruct ts as [|t1 ts]; [by apply elem_of_nil in Ht|].
      rewrite Forall_forall in Hf. eexists. split; [apply list_elem_of_fmap; by exists t|]. simpl.
      split; [by apply Hf|]. split; [left; simpl; intros [_ ?]%app_nil; done|by apply Forall_app].
    + eexists. split; [by left|]. split; [done|]. by split; [left|].
Qed.
Lemma appended_plain reqs s : plain s → reqs ≠ [] → plain (appendNodeAffinityRequirements reqs s).
Proof.
  intros [Hask Hf] Hne. unfold plain, asks. simpl. unfold asks in Hask.
  destruct (required_terms s) as [[|t ts]|]; [by destruct Hask| |].
  - split; [split; [done|]|]; apply Forall_fmap, Forall_forall; intros t' Ht'; simpl; [intros [_ ?]%app_nil; done|].
    rewrite Forall_forall in Hf. by apply Hf.
  - split; [split; [done|]|]; apply Forall_fmap, Forall_singleton; simpl; done.
Qed.
End Admits.

(** ** Selectors and a scheduler to run with *)

Definition requirement_valid (c : Requirement) : bool :=
  if bool_decide (Req_Operator c = OpIn) || bool_decide (Req_Operator c = OpNotIn) then negb (bool_decide (Req_Values c = []))
  else if bool_decide (Req_Operator c = OpExists) || bool_decide (Req_Operator c = OpDoesNotExist) then bool_decide (Req_Values c = [])
  else false.
Definition plain_selectors : LabelSelectors := {|
  LabelSelectorAsSelector sel :=
    if forallb requirement_valid (MatchExpressions sel) then
      inl (λ labels, labels_match (MatchLabels sel) labels && forallb (λ c, selects c labels) (MatchExpressions sel))
    else inr (errorf "invalid label selector");
|}.
Lemma plain_selector_laws : SelectorLaws (H := plain_selectors).
Proof.
  split; simpl; intros c f; [intros labels|]; destruct (requirement_valid c) eqn:E; simpl; [intros [= <-]|done|intros _|done].
  - by rewrite andb_true_r.
  - unfold requirement_valid in E. destruct (bool_decide (_ = OpIn) || bool_decide (_ = OpNotIn)) eqn:E1.
    + apply orb_true_iff in E1 as [E1%bool_decide_eq_true|E1%bool_decide_eq_true]; rewrite E1; set_solver.
    + destruct (bool_decide (_ = OpExists) || bool_decide (_ = OpDoesNotExist)) eqn:E2; [|done].
      apply orb_true_iff in E2 as [E2%bool_decide_eq_true|E2%bool_decide_eq_true]; rewrite E2; set_solver.
Qed.
Definition label_scheduler : Scheduler := {|
  may_run s labels := (∀ k v, Ps_NodeSelector s !! k = Some v → labels !! k = Some v) ∧
    ∀ ts, required_terms s = Some ts → ∃ t, t ∈ ts ∧ term_holds t labels;
|}.
Lemma label_scheduler_laws : SchedulerLaws (H := label_scheduler).
Proof.
  split; simpl.
  - by intros s labels [? _].
  - intros s labels ts [_ Ht]. apply Ht.
  - intros s labels Hs Ht. split; [done|]. intros ts (t & ? & _ & ?)%Ht. eauto.
Qed.
