(* ===== verification/ClusterPolicy.v ===== *)
(** * NPUClusterPolicy: the declaration, and what it says of a vendor and of a node

    Models npuclusterpolicy_types.go, vendor_table.go and node_exclusion.go up to the
    write of the labels.  The theorem: the label that says a node is excluded and the
    affinity that keeps the pods off it never disagree. *)

From S2P Require Import Prelude GoStrings GoTime Naming ApiTypes PolicyTypes HealthController IntentResources UpgradeTypes PartitionTypes SharingConfig PodSpec.

(** ** npuclusterpolicy_types.go *)

Definition AdvertiseByDevicePlugin : string := "devicePlugin".
Definition AdvertiseByDRA : string := "dra".
Definition DRAPhaseAbsent : string := "Absent".
Definition DRAPhaseBlocked : string := "Blocked".
Definition DRAPhaseInstalling : string := "Installing".
Definition DRAPhaseReady : string := "Ready".
Definition ConditionDualAdvertisement : string := "DualAdvertisement".
Definition FuriosaFamilyPresentLabel : string := "kcloud.ai/furiosa-family.present".

Record AdvertiseSpec := mkAdvertise { Adv_By : string; Adv_NodeSelector : option LabelSelector }.
Definition AdvertisedBy (a : AdvertiseSpec) : string :=
  if bool_decide (Adv_By a = "") then AdvertiseByDevicePlugin else Adv_By a.
(** [ManagementSpec]: its one field. *)
Definition ManagementSpec : Type := string.
Definition IsOperatorOwned (m : ManagementSpec) : bool := bool_decide (m = "") || bool_decide (m = "managed").
Definition IsDelegated (m : ManagementSpec) : bool := bool_decide (m = "delegated").
Definition IsExternal (m : ManagementSpec) : bool := bool_decide (m = "external").
Record DRASpec := mkDRASpec {
  Ds_Enabled : bool; Ds_Image : string; Ds_FabricManagerImage : string; Ds_Args : list string; Ds_Env : list EnvVar;
}.
Definition IsEnabled (d : option DRASpec) : bool := match d with Some d => Ds_Enabled d | None => false end.
Record DcgmExporterSpec := mkDcgm { Dcgm_Enabled : bool; Dcgm_Image : string }.

Record RngdSpec := mkRngd {
  Rg_Advertise : AdvertiseSpec; Rg_Enabled : bool; Rg_DevicePluginImage : string; Rg_NodeSelector : gmap string string;
  Rg_ExcludeNodeSelector : option LabelSelector; Rg_PartitionPolicy : string; Rg_DebugMode : option bool; Rg_DRA : option DRASpec;
}.
Record FuriosaSpec := mkFuriosa {
  Fu_Advertise : AdvertiseSpec; Fu_Management : ManagementSpec; Fu_Enabled : bool; Fu_DevicePluginImage : string;
  Fu_ConfigMapName : string; Fu_NodeSelector : gmap string string; Fu_ExcludeNodeSelector : option LabelSelector;
  Fu_Rngd : RngdSpec; Fu_DRA : option DRASpec; Fu_Unified : bool; Fu_UnifiedDevicePluginImage : string;
}.
Record NvidiaSpec := mkNvidia {
  Nv_Advertise : AdvertiseSpec; Nv_Management : ManagementSpec; Nv_Enabled : bool; Nv_DevicePluginImage : string;
  Nv_NodeSelector : gmap string string; Nv_ExcludeNodeSelector : option LabelSelector;
  Nv_DcgmExporter : option DcgmExporterSpec; Nv_DRA : option DRASpec;
}.
Record RebellionsSpec := mkRebellions {
  Rbl_Advertise : AdvertiseSpec; Rbl_Management : ManagementSpec; Rbl_Enabled : bool; Rbl_DevicePluginImage : string;
  Rbl_ResourceName : string; Rbl_ResourcePrefix : string; Rbl_Namespace : string; Rbl_ConfigMapName : string;
  Rbl_NodeSelector : gmap string string; Rbl_ExcludeNodeSelector : option LabelSelector; Rbl_DRA : option DRASpec;
}.
Record TenstorrentSpec := mkTenstorrent {
  Tt_Advertise : AdvertiseSpec; Tt_Management : ManagementSpec; Tt_Enabled : bool; Tt_DevicePluginImage : string;
  Tt_ResourceName : string; Tt_NodeSelector : gmap string string; Tt_ExcludeNodeSelector : option LabelSelector;
  Tt_DRA : option DRASpec;
}.
(** [Np_Detector]: the image, when the block is there. *)
Record NPUClusterPolicySpec := mkNcpSpec {
  Np_Detector : option string;
  Np_Nvidia : NvidiaSpec;
  Np_Furiosa : FuriosaSpec;
  Np_Rebellions : RebellionsSpec;
  Np_Tenstorrent : TenstorrentSpec;
  Np_ImagePullSecrets : list string;
}.
Record AdvertiseSwitchStatus := mkSwitch {
  Sw_Vendor : string; Sw_Node : string; Sw_Mode : string; Sw_Applied : bool; Sw_Reason : string; Sw_BlockingPods : list string;
}.
#[export] Instance AdvertiseSwitchStatus_eq_dec : EqDecision AdvertiseSwitchStatus.
Proof. solve_decision. Defined.
Record DRADriverStatus := mkDRAStatus {
  Drs_Vendor : string; Drs_Phase : string; Drs_DriverName : string; Drs_PublishedNodes : Z; Drs_Message : string;
}.
(** [status.phase] is never written. *)
Record NPUClusterPolicyStatus := mkNcpStatus {
  Nps_Conditions : list StatusCondition; Nps_AdvertiseSwitch : list AdvertiseSwitchStatus; Nps_DRADrivers : list DRADriverStatus;
}.
Record NPUClusterPolicy := mkNcp {
  Ncp_Namespace : string;
  Ncp_Name : string;
  Ncp_Generation : Z;
  Ncp_Finalizers : list string;
  Ncp_Deleting : bool;
  Ncp_Spec : NPUClusterPolicySpec;
  Ncp_Status : NPUClusterPolicyStatus;
}.
Definition ncp_status (v : NPUClusterPolicyStatus) (p : NPUClusterPolicy) : NPUClusterPolicy :=
  mkNcp (Ncp_Namespace p) (Ncp_Name p) (Ncp_Generation p) (Ncp_Finalizers p) (Ncp_Deleting p) (Ncp_Spec p) v.
Definition ncp_finalizers (v : list string) (p : NPUClusterPolicy) : NPUClusterPolicy :=
  mkNcp (Ncp_Namespace p) (Ncp_Name p) (Ncp_Generation p) v (Ncp_Deleting p) (Ncp_Spec p) (Ncp_Status p).
Definition ncp_conditions (v : list StatusCondition) (p : NPUClusterPolicy) : NPUClusterPolicy :=
  ncp_status (mkNcpStatus v (Nps_AdvertiseSwitch (Ncp_Status p)) (Nps_DRADrivers (Ncp_Status p))) p.
Notation Nvidia p := (Np_Nvidia (Ncp_Spec p)).
Notation Furiosa p := (Np_Furiosa (Ncp_Spec p)).
Notation Rngd p := (Fu_Rngd (Np_Furiosa (Ncp_Spec p))).
Notation Rebellions p := (Np_Rebellions (Ncp_Spec p)).
Notation Tenstorrent p := (Np_Tenstorrent (Ncp_Spec p)).

(** ** vendor_table.go *)

Definition vendorTenstorrent : string := "tenstorrent".
Definition vendorRebellions : string := "rebellions".
Definition draDSNameFuriosa : string := "kcloud-furiosa-dra-driver".
Definition draDriverNameFuriosa : string := "npu.furiosa.ai".
Definition draDSNameRebellions : string := "kcloud-rebellions-dra-driver".
Definition draDriverNameRebellions : string := "npu.rebellions.ai".
Definition draDSNameNvidia : string := "kcloud-nvidia-dra-driver".
Definition draDriverNameNvidia : string := "gpu.nvidia.com".
Definition draDSNameTenstorrent : string := "kcloud-tenstorrent-dra-driver".
Definition draDriverNameTenstorrent : string := "tenstorrent.com".
Definition nvidiaGPUResource : string := "nvidia.com/gpu".
Definition ttResourceDefault : string := "tenstorrent.com/blackhole".
Definition rbllnsResourceNameDefault : string := "ATOM".
Definition rbllnsResourcePrefixDfault : string := "rebellions.ai".

Definition or_default (v dflt : string) : string := if bool_decide (v = "") then dflt else v.

Record vendorAttrs := mkVendorAttrs {
  advertise : NPUClusterPolicy → AdvertiseSpec;
  owned : NPUClusterPolicy → bool;
  draEnabled : NPUClusterPolicy → bool;
  driverName : string;
  dsName : string;
  resource : NPUClusterPolicy → string;
}.
Section Table.
Context `{MapRange}.

(** The error is only logged: the name is then empty. *)
Definition whole_resource (vendor product : string) : string :=
  match WholeDeviceResource vendor product with inl res => res | inr _ => "" end.
Definition rebellions_resource (p : NPUClusterPolicy) : string :=
  or_default (Rbl_ResourcePrefix (Rebellions p)) rbllnsResourcePrefixDfault +:+ "/"
    +:+ or_default (Rbl_ResourceName (Rebellions p)) rbllnsResourceNameDefault.
Definition vendorTable : gmap string vendorAttrs := list_to_map [
  (vendorNvidia, mkVendorAttrs (λ p, Nv_Advertise (Nvidia p)) (λ p, IsOperatorOwned (Nv_Management (Nvidia p)))
     (λ p, IsEnabled (Nv_DRA (Nvidia p))) draDriverNameNvidia draDSNameNvidia (λ _, nvidiaGPUResource));
  (vendorFuriosa, mkVendorAttrs (λ p, Fu_Advertise (Furiosa p)) (λ p, IsOperatorOwned (Fu_Management (Furiosa p)))
     (λ p, IsEnabled (Fu_DRA (Furiosa p))) draDriverNameFuriosa draDSNameFuriosa (λ _, whole_resource vendorFuriosa "warboy"));
  (vendorRngd, mkVendorAttrs (λ p, Rg_Advertise (Rngd p)) (λ p, IsOperatorOwned (Fu_Management (Furiosa p)))
     (λ p, IsEnabled (Rg_DRA (Rngd p))) draDriverNameFuriosa draDSNameFuriosa (λ _, whole_resource vendorFuriosa "rngd"));
  (vendorTenstorrent, mkVendorAttrs (λ p, Tt_Advertise (Tenstorrent p)) (λ p, IsOperatorOwned (Tt_Management (Tenstorrent p)))
     (λ p, IsEnabled (Tt_DRA (Tenstorrent p))) draDriverNameTenstorrent draDSNameTenstorrent
     (λ p, or_default (Tt_ResourceName (Tenstorrent p)) ttResourceDefault));
  (vendorRebellions, mkVendorAttrs (λ p, Rbl_Advertise (Rebellions p)) (λ p, IsOperatorOwned (Rbl_Management (Rebellions p)))
     (λ p, IsEnabled (Rbl_DRA (Rebellions p))) draDriverNameRebellions draDSNameRebellions rebellions_resource)].

(** npuclusterpolicy_advertise.go and dra_driver.go: the readers of the table *)
Definition advertiseVendors (p : NPUClusterPolicy) : gmap string AdvertiseSpec := (λ a, advertise a p) <$> vendorTable.
Definition vendorIsOperatorOwned (p : NPUClusterPolicy) (vendor : string) : bool :=
  match vendorTable !! vendor with Some a => owned a p | None => true end.
Definition vendorDRAEnabled (p : NPUClusterPolicy) (vendor : string) : bool :=
  match vendorTable !! vendor with Some a => draEnabled a p | None => false end.
Definition advertiseVendorDriverName (vendor : string) : string :=
  match vendorTable !! vendor with Some a => driverName a | None => "" end.
Definition advertiseVendorDRADSName (vendor : string) : string :=
  match vendorTable !! vendor with Some a => dsName a | None => "" end.
Definition advertiseVendorResourceName (p : NPUClusterPolicy) (vendor : string) : string :=
  match vendorTable !! vendor with Some a => resource a p | None => "" end.
End Table.

(** ** node_exclusion.go *)

Definition nodeExcludedLabel : string := "kcloud.ai/excluded".
Definition nodeExcludedReasonLabel : string := "kcloud.ai/excluded-reason".
Definition exclusionReasonControlPlane : string := "control-plane".
Definition exclusionReasonPolicy : string := "policy".

Definition vendorExcludeSelectors (ncp : option NPUClusterPolicy) : list (option LabelSelector) :=
  match ncp with
  | None => []
  | Some p => [Nv_ExcludeNodeSelector (Nvidia p); Fu_ExcludeNodeSelector (Furiosa p); Rg_ExcludeNodeSelector (Rngd p);
               Tt_ExcludeNodeSelector (Tenstorrent p); Rbl_ExcludeNodeSelector (Rebellions p)]
  end.
Section NodeExclusion.
Context `{LabelSelectors}.

Definition condition_matches (labels : gmap string string) (c : Requirement) : bool :=
  match conditionSelector c with inl s => s labels | inr _ => false end.
Definition matchesAnyExcludeNodeSelector (node : Node) (ncp : option NPUClusterPolicy) : bool :=
  existsb (λ sel, existsb (condition_matches (Node_Labels node)) (exclusionConditions sel).1) (vendorExcludeSelectors ncp).
Definition nodeExclusion (node : Node) (ncp : option NPUClusterPolicy) : bool * string :=
  match ncp with
  | None => (false, "")
  | Some _ =>
      if bool_decide (is_Some (Node_Labels node !! controlPlaneNodeLabel)) then (true, exclusionReasonControlPlane)
      else if bool_decide (is_Some (Node_Labels node !! masterNodeLabel)) then (true, exclusionReasonControlPlane)
      else if matchesAnyExcludeNodeSelector node ncp then (true, exclusionReasonPolicy)
      else (false, "")
  end.
(** The labels of the node, when they are not those it should have. *)
Definition exclusion_labels (node : Node) (ncp : option NPUClusterPolicy) : option (gmap string string) :=
  let (excluded, reason) := nodeExclusion node ncp in
  let want := if excluded then labelValueTrue else "" in
  if bool_decide (mget "" (Node_Labels node) nodeExcludedLabel = want)
     && bool_decide (mget "" (Node_Labels node) nodeExcludedReasonLabel = reason) then None
  else Some (if excluded then <[nodeExcludedReasonLabel := reason]> (<[nodeExcludedLabel := labelValueTrue]> (Node_Labels node))
             else delete nodeExcludedReasonLabel (delete nodeExcludedLabel (Node_Labels node))).
End NodeExclusion.

(** ** The label and the affinity agree *)

Section Agree.
Context `{SelectorLaws, Scheduler, !SchedulerLaws}.
(** What the renderers do to the pods of the vendor with this selector. *)
Definition narrowed (sel : option LabelSelector) (s : PodSpec) : PodSpec :=
  applyExcludeNodeSelector sel (applyControlPlaneExclusion s).
Definition excluded_by (sel : option LabelSelector) (labels : gmap string string) : bool :=
  existsb (condition_matches labels) (exclusionConditions sel).1.
Definition control_plane (labels : gmap string string) : bool :=
  bool_decide (is_Some (labels !! controlPlaneNodeLabel)) || bool_decide (is_Some (labels !! masterNodeLabel)).

Lemma kept_valid sel c : c ∈ (exclusionConditions sel).1 → ∃ f, conditionSelector c = inl f.
Proof.
  destruct sel as [sel|]; simpl; [|by intros ?%elem_of_nil]. intros [Hv _]%list_elem_of_filter. unfold condition_valid in Hv.
  destruct (conditionSelector c) as [f|e]; [by exists f|done].
Qed.
Lemma kept_matches sel c labels : c ∈ (exclusionConditions sel).1 →
  condition_matches labels c = selects c labels ∧ is_Some (not_condition c).
Proof.
  intros [f Ef]%kept_valid. unfold condition_matches. rewrite Ef. split; [by apply one_requirement|].
  by eapply not_condition_known, known_operator.
Qed.
Lemma not_excluded_iff sel labels :
  excluded_by sel labels = false ↔ Forall (λ c, selects c labels = true) (omap not_condition (exclusionConditions sel).1).
Proof.
  unfold excluded_by. rewrite <-not_true_iff_false, existsb_elem, Forall_forall. split.
  - intros Hno d (c & Hc & Ed)%list_elem_of_omap. rewrite (selects_not _ _ _ Ed).
    destruct (selects c labels) eqn:E; [|done]. destruct Hno. exists c. split; [done|]. by rewrite (proj1 (kept_matches _ _ _ Hc)).
  - intros Hall (c & Hc & E). destruct (kept_matches _ _ labels Hc) as [Em [d Ed]]. specialize (Hall d).
    rewrite (selects_not _ _ _ Ed), <-Em, E in Hall. simpl in Hall. discriminate Hall. apply list_elem_of_omap. eauto.
Qed.
Lemma narrowed_runs sel s labels : plain s →
  may_run (narrowed sel s) labels ↔ may_run s labels ∧ control_plane labels = false ∧ excluded_by sel labels = false.
Proof.
  intros Hp. assert (Hcp : may_run (applyControlPlaneExclusion s) labels ↔ may_run s labels ∧ control_plane labels = false).
  { unfold applyControlPlaneExclusion. rewrite appended_runs, !Forall_cons, !selects_absent by done. unfold control_plane.
    rewrite orb_false_iff, !bool_decide_eq_false, <-!eq_None_not_Some, Forall_nil. tauto. }
  rewrite not_excluded_iff. unfold narrowed, applyExcludeNodeSelector. case_bool_decide as E.
  - rewrite E, Hcp, Forall_nil. tauto.
  - rewrite appended_runs, Hcp by (done || by apply appended_plain). tauto.
Qed.
Lemma any_excludes node p : matchesAnyExcludeNodeSelector node (Some p) = true ↔
  ∃ sel, sel ∈ vendorExcludeSelectors (Some p) ∧ excluded_by sel (Node_Labels node) = true.
Proof. unfold matchesAnyExcludeNodeSelector. by rewrite existsb_elem. Qed.

(** C27. The label that says a node is excluded and the affinity the renderers write come
    from the same conditions and never disagree: a node without the label gets exactly
    the pods it would get if there were no exclusion; a control-plane node gets the pods
    of no vendor; a node excluded by policy gets the pods of no vendor whose selector
    matches it, and there is one. *)
Theorem exclusion_label_agrees node p :
  let labels := Node_Labels node in
  match nodeExclusion node (Some p) with
  | (false, _) => ∀ sel s, sel ∈ vendorExcludeSelectors (Some p) → plain s → may_run (narrowed sel s) labels ↔ may_run s labels
  | (true, reason) =>
      if bool_decide (reason = exclusionReasonControlPlane) then ∀ sel s, plain s → ¬ may_run (narrowed sel s) labels
      else ∃ sel, sel ∈ vendorExcludeSelectors (Some p) ∧ ∀ s, plain s → ¬ may_run (narrowed sel s) labels
  end.
Proof.
  intros labels. assert (Hcp : ∀ b, b = control_plane labels → match b with true => ∀ sel s, plain s → ¬ may_run (narrowed sel s) labels | false => True end).
  { intros [] Hb; [|done]. intros sel s Hp. rewrite narrowed_runs by done. rewrite <-Hb. by intros (_ & ? & _). }
  unfold control_plane in Hcp. unfold nodeExclusion. fold labels. specialize (Hcp _ eq_refl).
  assert (Hno : control_plane labels = false ↔ ¬ is_Some (labels !! controlPlaneNodeLabel) ∧ ¬ is_Some (labels !! masterNodeLabel)).
  { unfold control_plane. by rewrite orb_false_iff, !bool_decide_eq_false. }
  destruct (bool_decide_reflect (is_Some (labels !! controlPlaneNodeLabel))); [by rewrite bool_decide_true|].
  destruct (bool_decide_reflect (is_Some (labels !! masterNodeLabel))); [by rewrite bool_decide_true|].
  destruct (matchesAnyExcludeNodeSelector node (Some p)) eqn:E.
  - rewrite bool_decide_false by done. apply any_excludes in E as (sel & Hsel & E). exists sel. split; [done|].
    intros s Hp. rewrite narrowed_runs by done. fold labels in E. rewrite E. by intros (_ & _ & ?).
  - intros sel s Hsel Hp. rewrite narrowed_runs by done. split; [by intros [? _]|]. intros Hrun. split_and!; [done|by apply Hno|].
    apply not_true_is_false. intros Hex. rewrite <-not_true_iff_false, any_excludes in E. apply E. by exists sel.
Qed.
End Agree.

(** ** A policy *)

Definition no_advertise : AdvertiseSpec := mkAdvertise "" None.
Definition demo_nvidia (exclude : option LabelSelector) : NvidiaSpec := mkNvidia no_advertise "" true "plugin:1" ∅ exclude None None.
Definition demo_policy (nvidia : NvidiaSpec) : NPUClusterPolicy :=
  mkNcp "" "cluster" 1 [] false
    (mkNcpSpec (Some "detector:1") nvidia
       (mkFuriosa no_advertise "" false "" "" ∅ None (mkRngd no_advertise false "" ∅ None "" None None) None false "")
       (mkRebellions no_advertise "" false "" "" "" "" "" ∅ None None) (mkTenstorrent no_advertise "" false "" "" ∅ None None) [])
    (mkNcpStatus [] [] []).
Definition labelled (name : string) (labels : gmap string string) : Node := mkNode name labels ∅ false ∅ [] "" "" None.
Definition spare_pool : LabelSelector := mkLabelSelector {["pool" := "spare"]} [mkRequirement "broken" OpIn []].

Lemma exclusion_label_agrees_witness :
  let p := demo_policy (demo_nvidia (Some spare_pool)) in
  let node := labelled "w1" {["pool" := "spare"]} in
  nodeExclusion (H := plain_selectors) node (Some p) = (true, exclusionReasonPolicy) ∧
  ∃ sel, sel ∈ vendorExcludeSelectors (Some p) ∧
    ∀ s, plain s → ¬ may_run (Scheduler := label_scheduler) (narrowed (H := plain_selectors) sel s) (Node_Labels node).
Proof.
  intros p node.
  assert (E : nodeExclusion (H := plain_selectors) node (Some p) = (true, exclusionReasonPolicy)) by (vm_compute; reflexivity).
  split; [exact E|].
  pose proof (exclusion_label_agrees (H := plain_selectors) (H0 := plain_selector_laws) (H1 := label_scheduler)
                (H2 := label_scheduler_laws) node p) as Hagree.
  cbv zeta in Hagree. rewrite E in Hagree. exact Hagree.
Defined.
