(* ===== verification/DevicePlugins.v ===== *)
(** * The DaemonSets of the cluster policy

    Models the renderers of npuclusterpolicy_controller.go and dcgm_exporter.go: node
    manager, telemetry exporter, and one device plugin per vendor.  The functions return
    the object as it is sent; the settings of a live object that another writer owns
    (sharing, partitioning) are put back by [preserveNvidiaSharing] and
    [preserve_partition_env]. *)

From S2P Require Import Prelude GoStrings GoTime Naming ApiTypes PolicyTypes HealthController IntentResources UpgradeTypes PartitionTypes SharingConfig RngdBackend PodSpec ClusterPolicy.

Definition finalizerName : string := "npu.ai/cleanup".
Definition ownerAnnotation : string := "npu.ai/owner".
Definition owner_value (p : NPUClusterPolicy) : string := Ncp_Namespace p +:+ "/" +:+ Ncp_Name p.
Definition setOwnerAnnotation (p : NPUClusterPolicy) (ds : ODaemonSet) : ODaemonSet :=
  ods_annotations (<[ownerAnnotation := owner_value p]> (Ods_Annotations ds)) ds.

Definition appName : string := "app.kubernetes.io/name".
Definition tolerate_all : list (string * string) := [("Exists", "")].
Definition IfNotPresent : string := "IfNotPresent".
Definition kubeletPlugins : string := "/var/lib/kubelet/device-plugins".
Definition named (name : string) : gmap string string := {[ appName := name ]}.
(** The selector, the template and the object carry the same labels. *)
Definition daemonset (ns name : string) (labels selector annotations : gmap string string) (pod : PodSpec) : ODaemonSet :=
  mkODaemonSet ns name labels ∅ false (mkDaemonSetSpec selector labels annotations pod).
Definition selector_or (sel dflt : gmap string string) : gmap string string :=
  if 0 <? Z.of_nat (size sel) then sel else dflt.
Definition present (vendor : string) : gmap string string := {[ PresentNodeLabel vendor := labelValueTrue ]}.
Definition operator_namespace `{Environment} : string := OperatorNamespace (Getenv "OPERATOR_NAMESPACE").

(** ** NVIDIA *)

Definition nvidiaDevicePluginVendorLabel : string := "kcloud.ai/dp-vendor".

Section Nvidia.
Context `{LabelSelectors}.

Definition nvidia_containers (p : NPUClusterPolicy) (mixed : bool) : list OContainer :=
  [mkOContainer "nvidia-device-plugin" (Nv_DevicePluginImage (Nvidia p)) IfNotPresent []
     (if mixed then ["--mig-strategy=mixed"] else []) []
     [env "NVIDIA_VISIBLE_DEVICES" "all"; env "NVIDIA_DRIVER_CAPABILITIES" "all"; env "NVIDIA_MIG_MONITOR_DEVICES" "all"]
     (Some privileged) [] [] [mnt "device-plugin" kubeletPlugins] None].
Definition buildNvidiaDevicePluginDS (p : NPUClusterPolicy) (name : string) (baseSel : gmap string string) (mixed : bool)
    : ODaemonSet :=
  let labels : gmap string string := {[ appName := name; nvidiaDevicePluginVendorLabel := "nvidia" ]} in
  let terms := ((λ kv : string * string, mkRequirement kv.1 OpIn [kv.2]) <$> sort_on fst (map_to_list baseSel))
               ++ [absent MigActiveNodeLabel] in
  let spec := mkPodSpec (if mixed then baseSel ∪ {[ MigActiveNodeLabel := "true" ]} else ∅)
    (if mixed then None else Some (mkAffinity (Some (mkNodeAffinity (Some [mkTerm terms []])))))
    tolerate_all "" "" (Some vendorNvidia) false false [] (nvidia_containers p mixed)
    [host_volume "device-plugin" kubeletPlugins] [] in
  daemonset kube_system name labels (named name) ∅ (excludeDRAOwnedNodes vendorNvidia spec).
(** One of the two, as it is sent but for the sharing. *)
Definition nvidia_plugin (p : NPUClusterPolicy) (name : string) (mixed : bool) : ODaemonSet :=
  let sel := selector_or (Nv_NodeSelector (Nvidia p)) (present vendorNvidia) in
  on_pod (λ s, applyImagePullSecrets (Np_ImagePullSecrets (Ncp_Spec p))
                 (applyExcludeNodeSelector (Nv_ExcludeNodeSelector (Nvidia p))
                   (applyControlPlaneExclusion (applyDriverUpgradeAntiAffinity s))))
    (setOwnerAnnotation p (buildNvidiaDevicePluginDS p name sel mixed)).
End Nvidia.

(** [nvidia.WireSharing] on the object that is rendered *)
Definition o_container (args : list string) (e : list EnvVar) (m : list Mount) (c : OContainer) : OContainer :=
  mkOContainer (Oc_Name c) (Oc_Image c) (Oc_ImagePullPolicy c) (Oc_Command c) args (Oc_Ports c) e (Oc_Security c)
    (Oc_Requests c) (Oc_Limits c) m (Oc_LivenessProbe c).
Definition o_add_arg (a : string) (c : OContainer) : OContainer :=
  if bool_decide (a ∈ Oc_Args c) then c else o_container (Oc_Args c ++ [a]) (Oc_Env c) (Oc_Mounts c) c.
Definition o_add_env (n v : string) (c : OContainer) : OContainer :=
  if existsb (λ e, bool_decide (Env_Name e = n)) (Oc_Env c) then c
  else o_container (Oc_Args c) (Oc_Env c ++ [env n v]) (Oc_Mounts c) c.
Definition o_add_mount (n path : string) (c : OContainer) : OContainer :=
  if existsb (λ m, bool_decide (Mt_Name m = n)) (Oc_Mounts c) then c
  else o_container (Oc_Args c) (Oc_Env c) (Oc_Mounts c ++ [mnt n path]) c.
Definition o_has_volume (n : string) (vs : list Volume) : bool := existsb (λ v, bool_decide (v.1 = n)) vs.
Definition o_add_volume (n : string) (src : VolumeSource) (vs : list Volume) : list Volume :=
  if o_has_volume n vs then vs else vs ++ [(n, src)].
Definition o_wire_container (mode : string) (c : OContainer) : OContainer :=
  let c := o_add_mount SharingVolumeName SharingConfigDir (o_add_arg config_arg c) in
  if negb (bool_decide (mode = SharingModeMPS)) then c
  else o_add_mount mpsShmVolumeName "/dev/shm"
         (o_add_mount mpsPipeVolumeName MPSContainerRoot (o_add_env mpsRootEnvName MPSPipeDir c)).
Definition o_wire_volumes (mode cmName : string) (vs : list Volume) : list Volume :=
  let vs := o_add_volume SharingVolumeName (ConfigMapVolume cmName) vs in
  if negb (bool_decide (mode = SharingModeMPS)) then vs
  else o_add_volume mpsShmVolumeName (HostPath (MPSPipeDir +:+ "/shm") "DirectoryOrCreate")
         (o_add_volume mpsPipeVolumeName (HostPath MPSPipeDir "DirectoryOrCreate") vs).
(** The renderer's object has a container. *)
Definition WireSharing (mode cmName : string) : ODaemonSet → ODaemonSet := on_pod (λ s,
  ps_workload (match Ps_Containers s with c :: cs => o_wire_container mode c :: cs | [] => [] end)
    (o_wire_volumes mode cmName (Ps_Volumes s)) s).
Definition HasMPSVolume (ds : ODaemonSet) : bool := o_has_volume mpsPipeVolumeName (Ps_Volumes (ods_pod ds)).
Definition SharingConfigMapNameOf (ds : ODaemonSet) : string :=
  match find_first (λ v : Volume, bool_decide (v.1 = SharingVolumeName) && match v.2 with ConfigMapVolume _ => true | _ => false end)
          (Ps_Volumes (ods_pod ds)) with
  | Some (_, ConfigMapVolume n) => n
  | _ => SharingConfigMapNameMixed
  end.
Definition preserveNvidiaSharing (live desired : ODaemonSet) : ODaemonSet :=
  match Ods_Annotations live !! SharingOwnerAnnotation with
  | None => desired
  | Some owner =>
      let mode := if HasMPSVolume live then SharingModeMPS else SharingModeTimeSliced in
      WireSharing mode (SharingConfigMapNameOf live)
        (ods_annotations (<[SharingOwnerAnnotation := owner]> (Ods_Annotations desired)) desired)
  end.

(** ** Furiosa *)

Definition furiosaWarboyDSName : string := "furiosa-warboy-device-plugin".
Definition furiosaRngdDSName : string := "furiosa-rngd-device-plugin".
Definition furiosaWarboyLegacyDSName : string := "furiosa-device-plugin".
Definition furiosaWarboyV0727DSName : string := "kcloud-furiosa-warboy-device-plugin".
Definition furiosaRngdV0727DSName : string := "kcloud-furiosa-rngd-device-plugin".
Definition furiosaPluginContainerName : string := "furiosa-device-plugin".
Definition furiosaUnifiedDSName : string := "kcloud-furiosa-device-plugin".
Definition furiosaUnifiedLegacyDSName : string := "furiosa-unified-device-plugin".
Definition furiosaUnifiedImgDefault : string := "furiosa-unified-device-plugin:0.1.0".
Definition furiosaRngdDevicePluginImageDefault : string := "docker.io/furiosaai/furiosa-device-plugin:2026.1.1".
Definition furiosaVendorDSNamespace : string := kube_system.
Definition furiosaUnifiedDSNamespace `{Environment} : string := operator_namespace.
Definition furiosaPerModelDSRefs `{Environment} : list (string * string) :=
  [(furiosaVendorDSNamespace, furiosaWarboyDSName); (furiosaVendorDSNamespace, furiosaRngdDSName);
   (kube_system, furiosaWarboyLegacyDSName); (operator_namespace, furiosaWarboyV0727DSName);
   (operator_namespace, furiosaRngdV0727DSName)].

Definition furiosa_config : string :=
  "defaultPe: Fusion" +:+ String "010" "disabledDevices: []" +:+ String "010" "interval: 10".
Definition furiosa_configmap (p : NPUClusterPolicy) (ns : string) : ConfigMap :=
  mkConfigMap (Fu_ConfigMapName (Furiosa p)) ns {[ ownerAnnotation := owner_value p ]} {[ "config.yaml" := furiosa_config ]}.
Definition drop_all (priv : option bool) : SecurityContext := mkSecurity priv (Some false) ["ALL"] None None None "".
(** The mount of the ConfigMap, when one is named. *)
Definition config_mounts (cm : string) : list Mount := if bool_decide (cm = "") then [] else [mnt "config" "/etc/furiosa"].
Definition config_volumes (cm : string) : list Volume := if bool_decide (cm = "") then [] else [("config", ConfigMapVolume cm)].
Definition node_name_env : EnvVar := env_field "NODE_NAME" "spec.nodeName".

Section Furiosa.
Context `{LabelSelectors}.

(** The narrowing every renderer ends with. *)
Definition narrow (p : NPUClusterPolicy) (vendors : list string) (excludes : list (option LabelSelector)) (s : PodSpec) : PodSpec :=
  applyImagePullSecrets (Np_ImagePullSecrets (Ncp_Spec p))
    (foldl (λ s sel, applyExcludeNodeSelector sel s)
       (applyControlPlaneExclusion
          (foldl (λ s v, excludeDRAOwnedNodes v s) (applyDriverUpgradeAntiAffinity s) vendors)) excludes).

Definition warboy_plugin (p : NPUClusterPolicy) : ODaemonSet :=
  let cm := Fu_ConfigMapName (Furiosa p) in
  let labels := named furiosaWarboyDSName in
  let pod := mkPodSpec (selector_or (Fu_NodeSelector (Furiosa p)) (present vendorFuriosa)) None tolerate_all "" "" None false false []
    [mkOContainer furiosaPluginContainerName (Fu_DevicePluginImage (Furiosa p)) IfNotPresent ["/usr/bin/k8s-device-plugin"]
       ["--config-file"; "/etc/furiosa/config.yaml"] [] [node_name_env; env "RUST_LOG" "info"] (Some (drop_all None)) [] []
       ([mnt "sys" "/sys"; mnt "dev" "/dev"; mnt "dp" kubeletPlugins] ++ config_mounts cm) None]
    ([host_volume "sys" "/sys"; host_volume "dev" "/dev"; host_volume "dp" kubeletPlugins] ++ config_volumes cm) [] in
  setOwnerAnnotation p (daemonset furiosaVendorDSNamespace furiosaWarboyDSName labels labels ∅
    (narrow p [vendorFuriosa] [Fu_ExcludeNodeSelector (Furiosa p)] pod)).

Definition rngdDevicePluginArgs (partitionPolicy : string) (debugMode : option bool) : list string :=
  (if default true debugMode then ["--debugMode"] else [])
  ++ (if negb (bool_decide (partitionPolicy = "")) && negb (bool_decide (partitionPolicy = "none"))
      then ["--policy=" +:+ partitionPolicy] else []).
Definition rngd_plugin (p : NPUClusterPolicy) (partitionPolicy : string) : ODaemonSet :=
  let labels := named furiosaRngdDSName in
  let pod := mkPodSpec (selector_or (Rg_NodeSelector (Rngd p)) (present vendorRngd)) None tolerate_all "" "system-node-critical" None
    false false []
    [mkOContainer furiosaPluginContainerName (or_default (Rg_DevicePluginImage (Rngd p)) furiosaRngdDevicePluginImageDefault)
       IfNotPresent ["./main"] (rngdDevicePluginArgs partitionPolicy (Rg_DebugMode (Rngd p))) [] [node_name_env]
       (Some (drop_all (Some false))) [] []
       [mnt "kubelet-socket" kubeletPlugins; mnt "dev-fs" "/dev"; mnt "sys-fs" "/sys"] None]
    [host_volume "kubelet-socket" kubeletPlugins; host_volume "dev-fs" "/dev"; host_volume "sys-fs" "/sys"] [] in
  setOwnerAnnotation p (daemonset furiosaVendorDSNamespace furiosaRngdDSName labels labels ∅
    (narrow p [vendorRngd] [Rg_ExcludeNodeSelector (Rngd p)] pod)).

Definition unified_plugin `{Environment} (p : NPUClusterPolicy) : ODaemonSet :=
  let cm := Fu_ConfigMapName (Furiosa p) in
  let labels := named furiosaUnifiedDSName in
  let pod := mkPodSpec {[ FuriosaFamilyPresentLabel := "true" ]} None tolerate_all "" "system-node-critical" None false false []
    [mkOContainer furiosaPluginContainerName (or_default (Fu_UnifiedDevicePluginImage (Furiosa p)) furiosaUnifiedImgDefault)
       IfNotPresent [] [] []
       [node_name_env; env "RUST_LOG" "info"; env partitionPolicyEnv (Rg_PartitionPolicy (Rngd p))]
       (Some (drop_all (Some false))) [] []
       ([mnt "sys" "/sys"; mnt "dev" "/dev"; mnt "dp" kubeletPlugins] ++ config_mounts cm) None]
    ([host_volume "sys" "/sys"; host_volume "dev" "/dev"; host_volume "dp" kubeletPlugins] ++ config_volumes cm) [] in
  setOwnerAnnotation p (daemonset furiosaUnifiedDSNamespace furiosaUnifiedDSName labels labels ∅
    (narrow p [vendorFuriosa; vendorRngd] [Fu_ExcludeNodeSelector (Furiosa p); Rg_ExcludeNodeSelector (Rngd p)] pod)).
End Furiosa.

Definition plugin_container (c : OContainer) : bool := bool_decide (Oc_Name c = furiosaPluginContainerName).
(** Every container of that name is searched; the first match is answered. *)
Definition unifiedEnvValue (ds : ODaemonSet) (name : string) : string :=
  match find_first (λ e, bool_decide (Env_Name e = name))
          (concat (Oc_Env <$> filter (λ c, plugin_container c = true) (Ps_Containers (ods_pod ds)))) with
  | Some e => Env_Value e
  | None => ""
  end.
(** The first entry of that name keeps its source. *)
Fixpoint set_env_value (name value : string) (es : list EnvVar) : list EnvVar :=
  match es with
  | [] => [env name value]
  | e :: es => if bool_decide (Env_Name e = name) then mkEnv name value (Env_ValueFrom e) :: es else e :: set_env_value name value es
  end.
Fixpoint set_container_env (name value : string) (cs : list OContainer) : list OContainer :=
  match cs with
  | [] => []
  | c :: cs =>
      if negb (plugin_container c) then c :: set_container_env name value cs
      else o_container (Oc_Args c) (set_env_value name value (Oc_Env c)) (Oc_Mounts c) c :: cs
  end.
Definition setUnifiedEnvValue (name value : string) : ODaemonSet → ODaemonSet :=
  on_pod (λ s, ps_workload (set_container_env name value (Ps_Containers s)) (Ps_Volumes s) s).
Definition preserve_partition_env (live desired : ODaemonSet) : ODaemonSet :=
  match Ods_Annotations live !! PartitionOwnerAnnotation with
  | None => desired
  | Some owner =>
      let v := unifiedEnvValue live partitionPolicyEnv in
      let desired := if bool_decide (v = "") then desired else setUnifiedEnvValue partitionPolicyEnv v desired in
      ods_annotations (<[PartitionOwnerAnnotation := owner]> (Ods_Annotations desired)) desired
  end.

(** ** Tenstorrent and Rebellions *)

Definition ttDaemonSetName : string := "kcloud-tt-device-plugin".
Definition ttImageDefault : string := "kcloud-tt-device-plugin:v0.1.0".
Definition tenstorrent_plugin `{LabelSelectors, Environment} (p : NPUClusterPolicy) : ODaemonSet :=
  let tt := Tenstorrent p in
  let labels := named ttDaemonSetName in
  let pod := mkPodSpec (selector_or (Tt_NodeSelector tt) (present vendorTenstorrent)) None tolerate_all "" "system-node-critical" None
    false false []
    [mkOContainer "tenstorrent-device-plugin" (or_default (Tt_DevicePluginImage tt) ttImageDefault) IfNotPresent [] [] []
       [node_name_env; env "TT_RESOURCE_NAME" (or_default (Tt_ResourceName tt) ttResourceDefault)] (Some privileged) [] []
       [mnt "kubelet-socket" kubeletPlugins; mnt "dev-fs" "/dev"; mnt_ro "sys-fs" "/sys"] None]
    [host_volume "kubelet-socket" kubeletPlugins; host_volume "dev-fs" "/dev"; host_volume "sys-fs" "/sys"] [] in
  setOwnerAnnotation p (daemonset operator_namespace ttDaemonSetName labels labels ∅
    (narrow p [vendorTenstorrent] [Tt_ExcludeNodeSelector tt] pod)).

Definition rbllnsNamespaceDefault : string := kube_system.
Definition rbllnsServiceAccountName : string := "rbln-device-plugin".
Definition rbllnsClusterRoleName : string := "rbln-device-plugin".
Definition rbllnsConfigMapNameDefault : string := "rbln-device-plugin-config".
Definition rbllnsDaemonSetName : string := "rbln-device-plugin".
Definition rbllnsResolveNamespace (p : NPUClusterPolicy) : string :=
  or_default (Rbl_Namespace (Rebellions p)) rbllnsNamespaceDefault.
Definition rbllns_config_name (p : NPUClusterPolicy) : string := or_default (Rbl_ConfigMapName (Rebellions p)) rbllnsConfigMapNameDefault.
Definition quoted (s : string) : string := String dquote (s +:+ String dquote "").
Definition config_json (resourceName resourcePrefix : string) : string :=
  let field k v := quoted k +:+ ":" +:+ v in
  let strings l := "[" +:+ join "," (quoted <$> l) +:+ "]" in
  "{" +:+ field "resourceList" ("[{" +:+ join ","
    [field "resourceName" (quoted resourceName); field "resourcePrefix" (quoted resourcePrefix);
     field "deviceType" (quoted "accelerator");
     field "selectors" ("{" +:+ join ","
       [field "vendors" (strings ["1eff"]);
        field "devices" (strings ["0010"; "0011"; "1020"; "1021"; "1120"; "1121"; "1150"; "1151"; "1220"; "1221"; "1250"; "1251"]);
        field "drivers" (strings ["rebellions"])] +:+ "}")] +:+ "}]") +:+ "}".
Definition rbllns_configmap (p : NPUClusterPolicy) : ConfigMap :=
  mkConfigMap (rbllns_config_name p) (rbllnsResolveNamespace p) {[ ownerAnnotation := owner_value p ]}
    {[ "config.json" := config_json (or_default (Rbl_ResourceName (Rebellions p)) rbllnsResourceNameDefault)
                          (or_default (Rbl_ResourcePrefix (Rebellions p)) rbllnsResourcePrefixDfault) ]}.

Definition rebellions_mounts : list Mount :=
  [mnt "devicesock" kubeletPlugins; mnt "plugins-registry" "/var/lib/kubelet/plugins_registry"; mnt "log" "/var/log";
   mnt "config-volume" "/etc/pcidp"; mnt "device-info" "/var/run/k8s.cni.cncf.io/devinfo/dp"; mnt_ro "host-usr-bin" "/host/usr/bin";
   mnt_ro "host-driver-usr-bin" "/host/driver/usr/bin"; mnt "host-dev" "/dev"; mnt "host-sys" "/sys"].
Definition rebellions_volumes (cm : string) : list Volume :=
  [host_volume "devicesock" kubeletPlugins; host_volume "plugins-registry" "/var/lib/kubelet/plugins_registry";
   host_volume "log" "/var/log"; ("config-volume", ConfigMapVolume cm);
   host_volume "device-info" "/var/run/k8s.cni.cncf.io/devinfo/dp"; host_volume "host-usr-bin" "/usr/bin";
   host_volume "host-driver-usr-bin" "/usr/local/bin"; host_volume "host-dev" "/dev"; host_volume "host-sys" "/sys"].
Definition rebellions_plugin `{LabelSelectors} (p : NPUClusterPolicy) : ODaemonSet :=
  let labels := named rbllnsDaemonSetName in
  let sel := selector_or (Rbl_NodeSelector (Rebellions p))
               {[ "kubernetes.io/arch" := "amd64"; PresentNodeLabel vendorRebellions := labelValueTrue ]} in
  let pod := mkPodSpec sel None [("Exists", "NoSchedule"); ("Exists", "NoExecute")] rbllnsServiceAccountName "" None true false []
    [mkOContainer "rbln-device-plugin" (Rbl_DevicePluginImage (Rebellions p)) IfNotPresent []
       ["--log-dir=device-plugin"; "--log-level=10"] [] []
       (Some (mkSecurity (Some true) None [] (Some 0) None None ""))
       [("cpu", "250m"); ("memory", "40Mi")] [("cpu", "1"); ("memory", "200Mi")] rebellions_mounts None]
    (rebellions_volumes (rbllns_config_name p)) [] in
  setOwnerAnnotation p (daemonset (rbllnsResolveNamespace p) rbllnsDaemonSetName labels labels ∅
    (narrow p [vendorRebellions] [Rbl_ExcludeNodeSelector (Rebellions p)] pod)).

(** ** The node manager and the telemetry exporter *)

Definition detectorServiceAccountName : string := "kcloud-node-manager".
Definition hostPodResourcesDir : string := "/var/lib/kubelet/pod-resources".
Definition scraped (port : string) : gmap string string :=
  {[ "prometheus.io/scrape" := "true"; "prometheus.io/port" := port; "prometheus.io/path" := "/metrics" ]}.
Definition detector_containers (image : string) : list OContainer :=
  [mkOContainer "detector" image IfNotPresent [] [] [("metrics", 9100)]
     [node_name_env; env "NODEAGENT_ENABLE_LABELS" "true"]
     (Some (mkSecurity None (Some false) ["ALL"] None (Some true) (Some true) "RuntimeDefault")) [] []
     [mnt_ro "host-proc" "/host/proc"; mnt_ro "host-dev" "/host/dev"; mnt_ro "host-var" "/host/var"; mnt_ro "host-sys" "/host/sys";
      mnt_ro "host-usr" "/host/usr"; mnt_ro "podresources-share" "/run/podresources"] None;
   mkOContainer "podresources" image IfNotPresent ["/podresources-writer"] ["--podresources-writer"] [] []
     (Some (mkSecurity (Some false) (Some false) ["ALL"] (Some 0) (Some false) (Some true) "RuntimeDefault")) [] []
     [mnt_ro "kubelet-podresources" hostPodResourcesDir; mnt "podresources-share" "/run/podresources"] None].
Definition renderDetectorDS `{Environment} (image : string) (pullSecrets : list string) : ODaemonSet :=
  let labels := named detectorServiceAccountName in
  let pod := mkPodSpec ∅ None tolerate_all detectorServiceAccountName "" None false false [] (detector_containers image)
    [host_volume "host-proc" "/proc"; host_volume "host-dev" "/dev"; host_volume "host-var" "/var"; host_volume "host-sys" "/sys";
     host_volume "host-usr" "/usr"; ("kubelet-podresources", HostPath hostPodResourcesDir "DirectoryOrCreate");
     ("podresources-share", EmptyDir "Memory" (2 ^ 20))] [] in
  daemonset operator_namespace detectorServiceAccountName labels labels (scraped "9100")
    (applyImagePullSecrets pullSecrets (applyDriverUpgradeAntiAffinity pod)).

Definition dcgmExporterDSName : string := "dcgm-exporter".
Definition dcgmExporterLegacyDSName : string := "kcloud-dcgm-exporter".
Definition dcgmExporterImageDefault : string := "nvcr.io/nvidia/k8s/dcgm-exporter:4.5.2-4.8.1-ubuntu22.04".
Definition dcgmExporterPort : Z := 9400.
Definition renderDcgmExporterDS (p : NPUClusterPolicy) : ODaemonSet :=
  let image := match Nv_DcgmExporter (Nvidia p) with Some s => or_default (Dcgm_Image s) dcgmExporterImageDefault
               | None => dcgmExporterImageDefault end in
  let labels : gmap string string := {[ appName := dcgmExporterDSName; "app.kubernetes.io/component" := "telemetry" ]} in
  daemonset kube_system dcgmExporterDSName labels labels (scraped "9400")
    (mkPodSpec (selector_or (Nv_NodeSelector (Nvidia p)) (present vendorNvidia)) None tolerate_all "" "" (Some vendorNvidia) false false []
       [mkOContainer "dcgm-exporter" image IfNotPresent [] [] [("metrics", dcgmExporterPort)]
          [env "DCGM_EXPORTER_LISTEN" ":9400"; env "DCGM_EXPORTER_KUBERNETES" "true"; env "NVIDIA_VISIBLE_DEVICES" "all";
           env "NVIDIA_DRIVER_CAPABILITIES" "all"; env "NVIDIA_MIG_MONITOR_DEVICES" "all"]
          (Some privileged) [] [] [mnt_ro "pod-gpu-resources" hostPodResourcesDir] None]
       [("pod-gpu-resources", HostPath hostPodResourcesDir "Directory")] []).
Definition dcgm_exporter (p : NPUClusterPolicy) : ODaemonSet :=
  on_pod (λ s, applyImagePullSecrets (Np_ImagePullSecrets (Ncp_Spec p)) (applyControlPlaneExclusion (applyDriverUpgradeAntiAffinity s)))
    (setOwnerAnnotation p (renderDcgmExporterDS p)).

(** ** Two writers of one DaemonSet *)

(** What the partition controller sees of the object. *)
Definition source_view (v : VolumeSource) : PluginVolumeSource :=
  match v with ConfigMapVolume n => ConfigMapSource n | HostPath path _ => HostPathSource path | EmptyDir _ _ => OtherSource end.
Definition container_view (c : OContainer) : PluginContainer :=
  mkPluginContainer (Oc_Name c) (Oc_Image c) (Oc_Args c) ((λ e, (Env_Name e, Env_Value e)) <$> Oc_Env c)
    ((λ m, (Mt_Name m, Mt_Path m)) <$> Oc_Mounts c).
Definition plugin_view (uid version : string) (rollout : HealthController.DaemonSet) (ds : ODaemonSet) : PluginDaemonSet :=
  mkPluginDS (Ods_Name ds) (Ods_Namespace ds) uid version (Ods_Annotations ds) (Ps_NodeSelector (ods_pod ds))
    (container_view <$> Ps_Containers (ods_pod ds)) ((λ v : Volume, (v.1, source_view v.2)) <$> Ps_Volumes (ods_pod ds)) rollout.
(** The object once the partition controller shares its devices, or fixes its partitions. *)
Definition shared_by (owner mode cm : string) (ds : ODaemonSet) : ODaemonSet :=
  WireSharing mode cm (ods_annotations (<[SharingOwnerAnnotation := owner]> (Ods_Annotations ds)) ds).
Definition partitioned_by (owner v : string) (ds : ODaemonSet) : ODaemonSet :=
  ods_annotations (<[PartitionOwnerAnnotation := owner]> (Ods_Annotations ds)) (setUnifiedEnvValue partitionPolicyEnv v ds).

Lemma existsb_fmap {A B} (f : A → B) (p : B → bool) (q : A → bool) l : (∀ x, p (f x) = q x) → existsb p (f <$> l) = existsb q l.
Proof. intros Hpq. induction l as [|x l IH]; [done|]. rewrite fmap_cons. cbn [existsb]. by rewrite Hpq, IH. Qed.
Lemma view_arg a c : container_view (o_add_arg a c) = add_arg a (container_view c).
Proof.
  unfold o_add_arg, add_arg. simpl. destruct (contains_string (Oc_Args c) a) eqn:E.
  - rewrite bool_decide_true; [done|]. by apply contains_string_true.
  - rewrite bool_decide_false; [done|]. intros ?%contains_string_true. congruence.
Qed.
Lemma view_env n v c : container_view (o_add_env n v c) = add_env n v (container_view c).
Proof.
  unfold o_add_env, add_env, has_env. simpl. rewrite (existsb_fmap _ _ (λ e, bool_decide (Env_Name e = n))) by done.
  destruct (existsb _ _); [done|]. unfold container_view. simpl. by rewrite fmap_app.
Qed.
Lemma view_mount n path c : container_view (o_add_mount n path c) = add_mount n path (container_view c).
Proof.
  unfold o_add_mount, add_mount, has_mount. simpl. rewrite (existsb_fmap _ _ (λ m, bool_decide (Mt_Name m = n))) by done.
  destruct (existsb _ _); [done|]. unfold container_view. simpl. by rewrite fmap_app.
Qed.
Lemma view_volume n src vs :
  (λ v : Volume, (v.1, source_view v.2)) <$> o_add_volume n src vs = add_volume n (source_view src) ((λ v : Volume, (v.1, source_view v.2)) <$> vs).
Proof.
  unfold o_add_volume, add_volume, has_volume, o_has_volume. rewrite (existsb_fmap _ _ (λ v : Volume, bool_decide (v.1 = n))) by done.
  destruct (existsb _ _); [done|]. by rewrite fmap_app.
Qed.
Lemma view_wire_container mode c : container_view (o_wire_container mode c) = wire_container mode (container_view c).
Proof. unfold o_wire_container, wire_container. cbv zeta. destruct (negb _); by rewrite ?view_mount, ?view_env, ?view_mount, ?view_arg. Qed.
Lemma view_wire_volumes mode cm vs : (λ v : Volume, (v.1, source_view v.2)) <$> o_wire_volumes mode cm vs
  = wire_volumes mode cm ((λ v : Volume, (v.1, source_view v.2)) <$> vs).
Proof. unfold o_wire_volumes, wire_volumes. cbv zeta. destruct (negb _); by rewrite ?view_volume. Qed.
#[local] Arguments o_wire_container : simpl never.
#[local] Arguments o_wire_volumes : simpl never.
#[local] Arguments wire_container : simpl never.
#[local] Arguments wire_volumes : simpl never.
Lemma view_wired uid version rollout mode cm ds : Ps_Containers (ods_pod ds) ≠ [] →
  SharingConfig.WireSharing mode cm (plugin_view uid version rollout ds) = Some (plugin_view uid version rollout (WireSharing mode cm ds)).
Proof.
  intros Hc. unfold SharingConfig.WireSharing, on_first_container, plugin_view, WireSharing.
  destruct (Ps_Containers (ods_pod ds)) as [|c cs] eqn:E; [done|]. cbn. rewrite E. cbn.
  by rewrite <-view_wire_container, <-view_wire_volumes.
Qed.

(** What the policy reads off a shared object. *)
Lemma o_has_add n n' src vs : o_has_volume n (o_add_volume n' src vs) = o_has_volume n vs || bool_decide (n' = n).
Proof.
  unfold o_add_volume. destruct (o_has_volume n' vs) eqn:E.
  - case_bool_decide as En; [subst; by rewrite E|by rewrite orb_false_r].
  - unfold o_has_volume. rewrite existsb_app. simpl. by rewrite orb_false_r.
Qed.
Lemma shared_mode_read owner mode cm ds : o_has_volume mpsPipeVolumeName (Ps_Volumes (ods_pod ds)) = false →
  HasMPSVolume (shared_by owner mode cm ds) = bool_decide (mode = SharingModeMPS).
Proof.
  intros E. unfold HasMPSVolume, shared_by, WireSharing, on_pod, ods_pod. simpl. unfold o_wire_volumes. cbv zeta.
  unfold ods_pod in E. case_bool_decide; simpl; by rewrite !o_has_add, E.
Qed.
Lemma annotations_shared owner mode cm ds : Ods_Annotations (shared_by owner mode cm ds) = <[SharingOwnerAnnotation := owner]> (Ods_Annotations ds).
Proof. done. Qed.

Section Survive.
Context `{LabelSelectors} `{Environment}.
(** Where a Pod may run, and who may pull its images, says nothing of what it runs. *)
Definition workload (s : PodSpec) : list OContainer * list Volume := (Ps_Containers s, Ps_Volumes s).
Lemma workload_secrets l s : workload (applyImagePullSecrets l s) = workload s.
Proof. unfold applyImagePullSecrets. by destruct (_ <? _). Qed.
Lemma workload_exclude sel s : workload (applyExcludeNodeSelector sel s) = workload s.
Proof. unfold applyExcludeNodeSelector. by case_bool_decide. Qed.
Lemma nvidia_workload p name mixed :
  workload (ods_pod (nvidia_plugin p name mixed)) = (nvidia_containers p mixed, [host_volume "device-plugin" kubeletPlugins]).
Proof. unfold nvidia_plugin. etransitivity; [apply workload_secrets|]. etransitivity; [apply workload_exclude|]. done. Qed.
Lemma narrow_workload p vendors sels s : workload (narrow p vendors sels s) = workload s.
Proof.
  unfold narrow. rewrite workload_secrets. assert (Hs : ∀ s, workload (foldl (λ s sel, applyExcludeNodeSelector sel s) s sels) = workload s).
  { induction sels as [|sel sels IH]; intros s'; [done|]. simpl. by rewrite IH, workload_exclude. }
  rewrite Hs. change (workload (foldl (λ s v, excludeDRAOwnedNodes v s) (applyDriverUpgradeAntiAffinity s) vendors) = workload s).
  generalize (applyDriverUpgradeAntiAffinity s), (eq_refl : workload (applyDriverUpgradeAntiAffinity s) = workload s).
  induction vendors as [|v vendors IH]; intros s' E; [done|]. simpl. by apply IH.
Qed.
Lemma unified_containers p : ∃ c, Ps_Containers (ods_pod (unified_plugin p)) = [c] ∧ plugin_container c = true
  ∧ Oc_Env c = [node_name_env; env "RUST_LOG" "info"; env partitionPolicyEnv (Rg_PartitionPolicy (Rngd p))].
Proof.
  eexists. split; [etransitivity; [exact (f_equal fst (narrow_workload p _ _ _))|reflexivity]|]. done.
Qed.
Lemma unified_env p owner v : unifiedEnvValue (partitioned_by owner v (unified_plugin p)) partitionPolicyEnv = v.
Proof.
  destruct (unified_containers p) as (c & Ec & Hp & He). unfold unifiedEnvValue.
  change (Ps_Containers (ods_pod (partitioned_by owner v (unified_plugin p)))) with
    (set_container_env partitionPolicyEnv v (Ps_Containers (ods_pod (unified_plugin p)))).
  rewrite Ec. destruct c as [n img pol cmd args ports es sec rq lim ms lp]. simpl in He. subst es. unfold plugin_container in Hp. simpl in Hp.
  apply bool_decide_eq_true in Hp as ->. done.
Qed.

(** C31. The cluster policy and the partition policy write the same DaemonSets and never
    undo each other.  What a sharing layout does to the rendered NVIDIA plugin is the
    same in both models of the object; rendering the plugin again over the result, in
    either mode and with any ConfigMap, gives exactly that object; and the partition
    setting of the unified Furiosa plugin is kept whatever the policy declares. *)
Theorem two_writers_agree p owner uid version rollout :
  (∀ name mixed mode cm, mode = SharingModeMPS ∨ mode = SharingModeTimeSliced →
     let ds := nvidia_plugin p name mixed in let live := shared_by owner mode cm ds in
     SharingConfig.WireSharing mode cm (pds_annotations (<[SharingOwnerAnnotation := owner]> (Ods_Annotations ds)) (plugin_view uid version rollout ds))
       = Some (plugin_view uid version rollout live)
     ∧ preserveNvidiaSharing live ds = live) ∧
  (∀ v, v ≠ "" → let ds := unified_plugin p in preserve_partition_env (partitioned_by owner v ds) ds = partitioned_by owner v ds).
Proof.
  split.
  - intros name mixed mode cm Hmode ds live. pose proof (nvidia_workload p name mixed) as E. fold ds in E. injection E as Ec Ev. split.
    + apply (view_wired uid version rollout mode cm (ods_annotations (<[SharingOwnerAnnotation := owner]> (Ods_Annotations ds)) ds)).
      change (Ps_Containers (ods_pod ds) ≠ []). by rewrite Ec.
    + unfold preserveNvidiaSharing. subst live. rewrite annotations_shared, lookup_insert_eq, shared_mode_read by by rewrite Ev.
      assert (Ecm : SharingConfigMapNameOf (shared_by owner mode cm ds) = cm).
      { unfold SharingConfigMapNameOf. change (Ps_Volumes (ods_pod (shared_by owner mode cm ds))) with (o_wire_volumes mode cm (Ps_Volumes (ods_pod ds))).
        rewrite Ev. by destruct Hmode as [-> | ->]. }
      rewrite Ecm. by destruct Hmode as [-> | ->].
  - intros v Hv. cbv zeta. unfold preserve_partition_env.
    change (Ods_Annotations (partitioned_by owner v (unified_plugin p))) with (<[PartitionOwnerAnnotation := owner]> (Ods_Annotations (unified_plugin p))).
    rewrite lookup_insert_eq. cbv zeta. by rewrite unified_env, (bool_decide_false (v = "")) by done.
Qed.
End Survive.
Lemma two_writers_agree_witness :
  let ds := nvidia_plugin (H := plain_selectors) (demo_policy (demo_nvidia None)) DevicePluginNameFlat false in
  let live := shared_by "ns/acpp" SharingModeMPS "shared" ds in
  HasMPSVolume live = true ∧ preserveNvidiaSharing live ds = live.
Proof.
  cbv zeta. split; [vm_compute; reflexivity|].
  exact (proj2 (proj1 (two_writers_agree (H := plain_selectors) (H0 := {| Getenv _ := "" |}) (demo_policy (demo_nvidia None)) "ns/acpp" "" ""
    (HealthController.mkDaemonSet 0 0 0 0 0 0)) DevicePluginNameFlat false SharingModeMPS "shared" (or_introl eq_refl))).
Defined.
