(* ===== verification/DraDriver.v ===== *)
(** * The DRA drivers of the vendors

    Models dra_driver.go up to the pass: what is rendered for each vendor, which vendors
    a policy declares, and what blocks a deployment. *)

From S2P Require Import Prelude GoStrings GoTime GoText Naming ApiTypes PolicyTypes HealthController IntentResources UpgradeTypes PartitionTypes SharingConfig PartitionPass PodSpec ClusterPolicy DevicePlugins.

Definition draDriverImageFuriosaDefault : string := "docker.io/furiosaai/furiosa-dra-driver:2026.1.1".
Definition draDriverCommandFuriosa : string := "./dra-kubelet-plugin".
Definition draCDIRoot : string := "/var/run/cdi".
Definition draNamespace : string := "kcloud".
Definition draDriverImageRebellionsDefault : string := "docker.io/rebellions/k8s-dra-driver-npu:v0.2.0".
Definition draHealthcheckPortRebellions : Z := 51515.
Definition draDriverImageNvidiaDefault : string := "registry.k8s.io/dra-driver-nvidia/dra-driver-nvidia-gpu:v0.4.0".
Definition draDriverImageTenstorrentDefault : string := "ghcr.io/tenstorrent/tt-dra-driver:0.0.48".
Definition draFMImageTenstorrentDefault : string := "ghcr.io/tenstorrent/tt-fabric-manager:latest".
Definition draFMPortTenstorrent : Z := 50053.

(** ** The objects *)

(** [rbacv1.PolicyRule]: groups, resources, verbs. *)
Record PolicyRule := mkRule { Rule_APIGroups : list string; Rule_Resources : list string; Rule_Verbs : list string }.
Inductive DRAObject :=
| DraServiceAccount (ns name : string) (labels : gmap string string)
| DraClusterRole (name : string) (labels : gmap string string) (rules : list PolicyRule)
| DraClusterRoleBinding (name : string) (labels : gmap string string) (role account ns : string)
| DraConfigMap (ns name : string) (labels data : gmap string string)
| DraDeviceClass (name : string) (labels : gmap string string) (expression : string)
| DraDaemonSet (ds : ODaemonSet).
(** [mergeEnv]: the overrides still to be placed shrink as they are. *)
Fixpoint place_base (override : gmap string EnvVar) (base : list EnvVar) : list EnvVar * gmap string EnvVar :=
  match base with
  | [] => ([], override)
  | e :: base =>
      match override !! Env_Name e with
      | Some o => let (out, rest) := place_base (delete (Env_Name e) override) base in (o :: out, rest)
      | None => let (out, rest) := place_base override base in (e :: out, rest)
      end
  end.
Fixpoint place_extra (override : gmap string EnvVar) (extra : list EnvVar) : list EnvVar :=
  match extra with
  | [] => []
  | e :: extra =>
      match override !! Env_Name e with
      | Some _ => e :: place_extra (delete (Env_Name e) override) extra
      | None => place_extra override extra
      end
  end.
Definition mergeEnv (base extra : list EnvVar) : list EnvVar :=
  let override := foldl (λ m e, <[Env_Name e := e]> m) (∅ : gmap string EnvVar) extra in
  let (out, rest) := place_base override base in out ++ place_extra rest extra.

(** ** renderCDIInitContainer *)

(** The scripts are written with a back quote for every double quote; they have no
    back quote of their own. *)
Definition script_text (s : string) : string := string_map (λ c, if bool_decide (c = "`"%char) then dquote else c) s.
Definition cdi_script : string := script_text
"set -eu
DIR=/host/etc/containerd
CFG=$DIR/config.toml
SEC='[plugins.`io.containerd.grpc.v1.cri`]'

# 유효 설정이 이미 켜져 있으면 아무것도 하지 않는다. 파일이 아니라 containerd 가
# 실제로 읽은 값을 본다 — 파일에 true 가 있어도 뒤 파일이 덮으면 꺼져 있다.
if nsenter -t 1 -m -u -i -n -p -- containerd config dump 2>/dev/null |
     grep -q 'enable_cdi[[:space:]]*=[[:space:]]*true'; then
  echo `CDI already enabled (effective) - no-op`
  exit 0
fi

# 이 plugin 테이블을 선언하는 파일 중 **마지막에 로드되는 것**을 고른다.
# containerd 의 import 병합은 같은 plugin 테이블을 재선언하면 앞 파일의 그 테이블을
# 통째로 대체한다. 새 drop-in 을 만들어 넣으면 거기 있던 다른 설정(예: nvidia 런타임
# 등록)이 사라진다 — 2026-08-10 k8s-worker1 에서 실제로 그렇게 만들어 device-plugin 이
# `no runtime for nvidia` 로 뜨지 못했다. 그래서 새 파일을 만들지 않는다.
TARGET=$CFG
if grep -qE '^[[:space:]]*imports[[:space:]]*=' `$CFG` && [ -d `$DIR/conf.d` ]; then
  for f in $(ls `$DIR`/conf.d/*.toml 2>/dev/null | sort); do
    if grep -qF `$SEC` `$f`; then TARGET=$f; fi
  done
fi
echo `CDI target: $TARGET`
cp `$TARGET` `$TARGET.bak.cdi`

if grep -qE '^[[:space:]]*enable_cdi[[:space:]]*=' `$TARGET`; then
  # 이미 키가 있으면 값만 바꾼다. 같은 테이블에 키가 두 번 있으면 TOML 파싱이
  # 실패해 containerd 가 아예 안 뜬다.
  sed -i -E 's/^([[:space:]]*)enable_cdi[[:space:]]*=.*/\1enable_cdi = true/' `$TARGET`
else
  # 공백을 걷어낸 줄이 대상 섹션과 정확히 같을 때만 그 뒤에 넣는다. 부분일치를
  # 쓰면 하위 섹션에 걸려 중복 섹션이 생기고 containerd 가 안 뜬다.
  awk -v sec=`$SEC` '
{ line = $0; t = line; sub(/^[[:space:]]+/, ``, t); sub(/[[:space:]]+$/, ``, t); print line }
t == sec && !done {
  ind = line; sub(/[^[:space:]].*$/, ``, ind)
  print ind `  enable_cdi = true`
  done = 1
}
' `$TARGET` > `$TARGET.new`
  if grep -q 'enable_cdi' `$TARGET.new`; then
    mv `$TARGET.new` `$TARGET`
  else
    rm -f `$TARGET.new`
    printf '\n%s\n  enable_cdi = true\n' `$SEC` >> `$TARGET`
  fi
fi

# spec 경로는 containerd 기본값이 이미 /etc/cdi 와 /var/run/cdi 다. 다시 쓰지 않는다 —
# 쓸수록 덮어쓰기 사고 면적만 넓어진다.

nsenter -t 1 -m -u -i -n -p -- systemctl restart containerd

# 적용을 확인한다. 실패하면 되돌리고 종료 코드로 드러낸다 — 조용한 미작동 금지.
if ! nsenter -t 1 -m -u -i -n -p -- containerd config dump 2>/dev/null |
       grep -q 'enable_cdi[[:space:]]*=[[:space:]]*true'; then
  echo `CDI 적용 실패 — 유효 설정이 여전히 꺼져 있다. 원복한다` >&2
  cp `$TARGET.bak.cdi` `$TARGET`
  nsenter -t 1 -m -u -i -n -p -- systemctl restart containerd
  exit 1
fi
echo `CDI enabled; containerd restarted`
".
Section CDI.
Context `{Environment}.
Definition renderCDIInitContainer : OContainer :=
  mkOContainer "enable-cdi" HostExecImage "" ["sh"; "-c"; cdi_script] [] [] [] (Some privileged) [] []
    [mnt "host-etc-containerd" "/host/etc/containerd"] None.
End CDI.

(** ** The renderers *)

Definition draKubeletPluginArgsNvidia : string := script_text
"if [ `${MASK_NVIDIA_DRIVER_PARAMS}` = `true` ]; then
  cp /proc/driver/nvidia/params /root/gpu-params
  sed -i 's/^ModifyDeviceFiles: 1$/ModifyDeviceFiles: 0/' /root/gpu-params
  mount --bind /root/gpu-params /proc/driver/nvidia/params
fi
gpu-kubelet-plugin -v $(LOG_VERBOSITY)".
Definition dra_labels (name : string) : gmap string string :=
  {[ appName := name; "app.kubernetes.io/component" := "dra-driver" ]}.
Definition registryPath : string := "/var/lib/kubelet/plugins_registry".
Definition pluginsPath : string := "/var/lib/kubelet/plugins".
Definition dir_or_create (n path : string) : Volume := (n, HostPath path "DirectoryOrCreate").
Definition driver_selector (driver : string) : string := "device.driver == '" +:+ driver +:+ "'".
(** ServiceAccount, ClusterRole and binding share the name of the driver. *)
Definition dra_identity (name : string) (rules : list PolicyRule) : list DRAObject :=
  [DraServiceAccount draNamespace name (dra_labels name); DraClusterRole name (dra_labels name) rules;
   DraClusterRoleBinding name (dra_labels name) name name draNamespace].
Definition dra_image (spec : option DRASpec) (dflt : string) : string :=
  match spec with Some s => or_default (Ds_Image s) dflt | None => dflt end.
Definition dra_args (spec : option DRASpec) (dflt : list string) : list string :=
  match spec with Some s => if 0 <? Z.of_nat (length (Ds_Args s)) then Ds_Args s else dflt | None => dflt end.
Definition dra_env (spec : option DRASpec) (base : list EnvVar) : list EnvVar :=
  match spec with Some s => mergeEnv base (Ds_Env s) | None => base end.
(** The eight rules of the driver, as its chart has them. *)
Definition dra_rules : list PolicyRule :=
  let g := ["resource.k8s.io"] in
  [mkRule [""] ["nodes"] ["get"; "list"; "watch"];
   mkRule g ["resourceclaims"] ["get"; "list"; "watch"; "create"; "update"; "patch"; "delete"];
   mkRule g ["resourceclaims/status"] ["update"; "patch"];
   mkRule g ["resourceclaims/driver"] ["associated-node:update"; "associated-node:patch"];
   mkRule g ["resourceclaimtemplates"] ["get"; "list"; "watch"; "create"; "update"; "delete"];
   mkRule g ["resourceclaimtemplates/status"] ["update"; "patch"];
   mkRule g ["resourceslices"] ["get"; "list"; "watch"; "create"; "update"; "patch"; "delete"];
   mkRule g ["resourceslices/status"] ["update"; "patch"]].

Section Renderers.
Context `{Environment}.
(** A driver's Pod: its vendor's nodes, the host's process ids, CDI first. *)
Definition dra_pod (vendor account : string) (inits cs : list OContainer) (vs : list Volume) : PodSpec :=
  mkPodSpec (present vendor) None tolerate_all account "system-node-critical" None false true
    (renderCDIInitContainer :: inits) cs vs [].
Definition dra_daemonset (name : string) (pod : PodSpec) : ODaemonSet :=
  daemonset draNamespace name (dra_labels name) (dra_labels name) ∅ pod.

Definition renderFuriosaDRADaemonSet (spec : option DRASpec) : ODaemonSet :=
  dra_daemonset draDSNameFuriosa
    (excludeDRARetiredNodes vendorRngd (excludeDRARetiredNodes vendorFuriosa
      (dra_pod vendorRngd draDSNameFuriosa []
        [mkOContainer "plugin" (dra_image spec draDriverImageFuriosaDefault) "" [draDriverCommandFuriosa]
           (dra_args spec ["--node-name=$(NODE_NAME)"; "--cdi-root=$(CDI_ROOT)"]) []
           (dra_env spec [env "CDI_ROOT" draCDIRoot; node_name_env])
           (Some (mkSecurity None (Some false) ["ALL"] None None None "")) [] []
           [mnt "plugins-registry" registryPath; mnt "plugins" pluginsPath; mnt "cdi" draCDIRoot; mnt "dev-fs" "/dev"; mnt "sys-fs" "/sys"]
           None]
        [dir_or_create "plugins-registry" registryPath; dir_or_create "plugins" pluginsPath; dir_or_create "cdi" draCDIRoot;
         dir_or_create "dev-fs" "/dev"; dir_or_create "sys-fs" "/sys"; dir_or_create "host-etc-containerd" "/etc/containerd"]))).
Definition renderFuriosaDRADriver (p : NPUClusterPolicy) : list DRAObject :=
  dra_identity draDSNameFuriosa dra_rules
  ++ [DraDaemonSet (renderFuriosaDRADaemonSet (Rg_DRA (Rngd p)));
      DraDeviceClass draDriverNameFuriosa (dra_labels draDSNameFuriosa) (driver_selector draDriverNameFuriosa)].

Definition nvidia_dra_env (image : string) : list EnvVar :=
  [env "HTTP_ENDPOINT" ":8080"; env "METRICS_PATH" "/metrics"; env "LOG_VERBOSITY" "4"; env "MASK_NVIDIA_DRIVER_PARAMS" "";
   env "NVIDIA_DRIVER_ROOT" "/"; env "NVIDIA_VISIBLE_DEVICES" "void"; env "CDI_ROOT" draCDIRoot; env "NVIDIA_MIG_CONFIG_DEVICES" "all";
   node_name_env; env_field "NAMESPACE" "metadata.namespace"; env "IMAGE_NAME" image; env "IMAGE_PULL_POLICY" IfNotPresent;
   env "KUBELET_REGISTRAR_DIRECTORY_PATH" registryPath; env "KUBELET_PLUGINS_DIRECTORY_PATH" pluginsPath;
   env "HEALTHCHECK_PORT" "51516"].
Definition renderNvidiaDRADaemonSet (spec : option DRASpec) : ODaemonSet :=
  let image := dra_image spec draDriverImageNvidiaDefault in
  dra_daemonset draDSNameNvidia
    (excludeDRARetiredNodes vendorNvidia
      (dra_pod vendorNvidia draDSNameNvidia
        [mkOContainer "vendor-prestart" image "" ["bash"; "/usr/bin/kubelet-plugin-prestart.sh"] [] [] [] (Some privileged) [] []
           [mnt "driver-root-parent" "/driver-root-parent"] None]
        [mkOContainer "gpus" image "" ["bash"; "-c"] (dra_args spec [draKubeletPluginArgsNvidia]) []
           (dra_env spec (nvidia_dra_env image)) (Some privileged) [] []
           [mnt "plugins-registry" registryPath; mkMnt "plugins" pluginsPath false "Bidirectional"; mnt "cdi" draCDIRoot;
            mkMnt "driver-root" "/driver-root" false "HostToContainer"] None]
        [dir_or_create "plugins-registry" registryPath; dir_or_create "plugins" pluginsPath; dir_or_create "cdi" draCDIRoot;
         dir_or_create "driver-root-parent" "/"; dir_or_create "driver-root" "/"; dir_or_create "host-etc-containerd" "/etc/containerd"])).
Definition nvidia_rules : list PolicyRule :=
  [mkRule ["resource.k8s.io"] ["resourceclaims"] ["get"; "list"; "watch"];
   mkRule ["resource.k8s.io"] ["resourceslices"] ["get"; "list"; "watch"; "create"; "update"; "delete"];
   mkRule [""] ["nodes"] ["get"; "list"; "watch"; "update"; "patch"];
   mkRule [""] ["pods"] ["get"; "list"; "watch"]].
Definition nvidia_device_class (name kind : string) : DRAObject :=
  DraDeviceClass name (dra_labels draDSNameNvidia)
    (driver_selector draDriverNameNvidia +:+ " && device.attributes['" +:+ draDriverNameNvidia +:+ "'].type == '" +:+ kind +:+ "'").
Definition renderNvidiaDRADriver (p : NPUClusterPolicy) : list DRAObject :=
  dra_identity draDSNameNvidia nvidia_rules
  ++ [DraDaemonSet (renderNvidiaDRADaemonSet (Nv_DRA (Nvidia p))); nvidia_device_class "gpu.nvidia.com" "gpu";
      nvidia_device_class "mig.nvidia.com" "mig"; nvidia_device_class "vfio.gpu.nvidia.com" "vfio"].
End Renderers.

(** The first [HEALTHCHECK_PORT] of the merged environment decides on the probe. *)
Definition health_port (es : list EnvVar) : option Z :=
  match find_first (λ e, bool_decide (Env_Name e = "HEALTHCHECK_PORT")) es with
  | Some (mkEnv _ v None) =>
      match atoi v with Some n => if (1 <=? n) && (n <=? 65535) then Some n else None | None => None end
  | _ => None
  end.
Section Renderers.
Context `{Environment}.
Definition rebellions_dra_env : list EnvVar :=
  [env "DRIVER_NAME" draDriverNameRebellions; env "CDI_ROOT" draCDIRoot; env "KUBELET_REGISTRAR_DIRECTORY_PATH" registryPath;
   env "KUBELET_PLUGINS_DIRECTORY_PATH" pluginsPath; node_name_env; env_field "NAMESPACE" "metadata.namespace";
   env "HEALTHCHECK_PORT" (sprint_Z draHealthcheckPortRebellions)].
Definition renderRebellionsDRADaemonSet (spec : option DRASpec) : ODaemonSet :=
  let es := dra_env spec rebellions_dra_env in
  dra_daemonset draDSNameRebellions
    (excludeDRARetiredNodes vendorRebellions
      (dra_pod vendorRebellions draDSNameRebellions []
        [mkOContainer "plugin" (dra_image spec draDriverImageRebellionsDefault) IfNotPresent
           ("npu-kubelet-plugin" :: dra_args spec []) [] [] es (Some privileged) [] []
           [mnt "plugins-registry" registryPath; mnt "plugins" pluginsPath; mnt "cdi" draCDIRoot; mnt "host-dev" "/dev";
            mnt "host-run-rbln" "/run/rbln"; mnt_ro "host-usr-bin" "/host/usr/bin"]
           ((λ port, mkProbe port 30 10 3) <$> health_port es)]
        [host_volume "plugins-registry" registryPath; host_volume "plugins" pluginsPath; host_volume "cdi" draCDIRoot;
         host_volume "host-dev" "/dev"; host_volume "host-run-rbln" "/run/rbln"; host_volume "host-usr-bin" "/usr/bin";
         host_volume "host-etc-containerd" "/etc/containerd"])).
Definition rebellions_rules : list PolicyRule :=
  [mkRule ["resource.k8s.io"] ["resourceclaims"] ["get"]; mkRule [""] ["nodes"] ["get"];
   mkRule ["resource.k8s.io"] ["resourceslices"] ["get"; "list"; "watch"; "create"; "update"; "patch"; "delete"]].
Definition renderRebellionsDRADriver (p : NPUClusterPolicy) : list DRAObject :=
  dra_identity draDSNameRebellions rebellions_rules
  ++ [DraDaemonSet (renderRebellionsDRADaemonSet (Rbl_DRA (Rebellions p)));
      DraDeviceClass draDriverNameRebellions (dra_labels draDSNameRebellions) (driver_selector draDriverNameRebellions)].

(** The driver asks the Fabric Manager of the same Pod for the devices, so its
    arguments and environment are fixed. *)
Definition fm_config : string :=
  "controller:" +:+ String "010" ("  listen_address: " +:+ quoted "127.0.0.1:50051" +:+ String "010" "").
Definition renderTenstorrentDRADaemonSet (spec : option DRASpec) : ODaemonSet :=
  let fmImage := match spec with Some s => or_default (Ds_FabricManagerImage s) draFMImageTenstorrentDefault
                 | None => draFMImageTenstorrentDefault end in
  dra_daemonset draDSNameTenstorrent
    (excludeDRARetiredNodes vendorTenstorrent
      (dra_pod vendorTenstorrent draDSNameTenstorrent []
        [mkOContainer "plugin" (dra_image spec draDriverImageTenstorrentDefault) IfNotPresent ["tt-dra-driver-kubeletplugin"]
           ["--device-profile"; "tenstorrent"; "--fabric-manager-agent-address"; "localhost:" +:+ sprint_Z draFMPortTenstorrent;
            "--cdi-root"; draCDIRoot] [] [node_name_env] (Some privileged) [] []
           [mnt "plugins-registry" registryPath; mnt "plugins" pluginsPath; mnt "cdi" draCDIRoot; mnt "host-dev" "/dev"] None;
         mkOContainer "fabric-manager" fmImage IfNotPresent ["tt-fabric-manager-agent"] ["--host-id"; "0"] [] [] (Some privileged) [] []
           [mnt "fm-config" "/etc/fabric-manager"; mnt "host-dev" "/dev"] None]
        [host_volume "plugins-registry" registryPath; host_volume "plugins" pluginsPath; host_volume "cdi" draCDIRoot;
         host_volume "host-dev" "/dev"; host_volume "host-etc-containerd" "/etc/containerd";
         ("fm-config", ConfigMapVolume draDSNameTenstorrent)])).
Definition renderTenstorrentDRADriver (p : NPUClusterPolicy) : list DRAObject :=
  dra_identity draDSNameTenstorrent dra_rules
  ++ [DraConfigMap draNamespace draDSNameTenstorrent (dra_labels draDSNameTenstorrent) {[ "config.yaml" := fm_config ]};
      DraDaemonSet (renderTenstorrentDRADaemonSet (Tt_DRA (Tenstorrent p)));
      DraDeviceClass draDriverNameTenstorrent (dra_labels draDSNameTenstorrent) (driver_selector draDriverNameTenstorrent)].

(** ** What a policy declares *)

Record draVendor := mkDraVendor {
  Dv_name : string; Dv_spec : DRASpec; Dv_render : option (NPUClusterPolicy → list DRAObject); Dv_driverName : string; Dv_dsName : string;
}.
Definition draVendors (p : NPUClusterPolicy) : list draVendor :=
  let entry spec name render driver ds := match spec with Some s => [mkDraVendor name s (Some render) driver ds] | None => [] end in
  entry (Rg_DRA (Rngd p)) vendorFuriosa renderFuriosaDRADriver draDriverNameFuriosa draDSNameFuriosa
  ++ entry (Nv_DRA (Nvidia p)) vendorNvidia renderNvidiaDRADriver draDriverNameNvidia draDSNameNvidia
  ++ entry (Rbl_DRA (Rebellions p)) vendorRebellions renderRebellionsDRADriver draDriverNameRebellions draDSNameRebellions
  ++ entry (Tt_DRA (Tenstorrent p)) vendorTenstorrent renderTenstorrentDRADriver draDriverNameTenstorrent draDSNameTenstorrent.
End Renderers.

Definition nvidia_by_plugin : string := "NVIDIA DRA 드라이버는 advertiseBy: dra 일 때만 배포한다. 벤더 chart 가 device-plugin 과의 공존을 막고, 광고를 끈 채로 깔면 발행물 없는 껍데기만 남는다. advertiseBy 를 dra 로 바꾼 뒤 다시 켤 것".
Definition nvidia_by_node : string := "NVIDIA 는 노드 일부만 DRA 로 넘길 수 없다. 벤더 chart 의 GPU 발행 스위치가 DaemonSet 단위라 노드마다 다른 값을 줄 수 없다. advertiseByNodeSelector 를 비워 전부 넘기거나 전부 device-plugin 으로 둘 것".
Definition nvidiaDRABlockReason (p : NPUClusterPolicy) : string :=
  if negb (IsEnabled (Nv_DRA (Nvidia p))) then ""
  else if negb (bool_decide (AdvertisedBy (Nv_Advertise (Nvidia p)) = AdvertiseByDRA)) then nvidia_by_plugin
  else if bool_decide (is_Some (Adv_NodeSelector (Nv_Advertise (Nvidia p)))) then nvidia_by_node
  else "".
Definition ignored_note (fields : string) : string :=
  "spec.dra." +:+ fields +:+ " 는 이 벤더에서 반영하지 않는다 — 드라이버가 FM agent 주소와 device-profile 인자를 잃으면 기동하지 못한다. 설정은 저장되지만 컨테이너에 전달되지 않는다".
Definition ignoredDRAConfigNote (vendor : string) (spec : DRASpec) : string :=
  if negb (bool_decide (vendor = vendorTenstorrent)) then ""
  else let ignored := (if 0 <? Z.of_nat (length (Ds_Args spec)) then ["args"] else [])
                      ++ (if 0 <? Z.of_nat (length (Ds_Env spec)) then ["env"] else []) in
       if bool_decide (ignored = []) then "" else ignored_note (join "·" ignored).
Definition priorDRAMessage (p : NPUClusterPolicy) (vendor : string) : string :=
  match find_first (λ d, bool_decide (Drs_Vendor d = vendor)) (Nps_DRADrivers (Ncp_Status p)) with
  | Some d => Drs_Message d
  | None => ""
  end.

(** ** The environment a container ends up with *)

Definition env_named (name : string) (es : list EnvVar) : option EnvVar := find_first (λ e, bool_decide (Env_Name e = name)) es.
Definition keyed (m : gmap string EnvVar) : Prop := map_Forall (λ k e, Env_Name e = k) m.
Lemma env_named_cons name e es : env_named name (e :: es) = if bool_decide (Env_Name e = name) then Some e else env_named name es.
Proof. done. Qed.
Lemma env_named_app name es es' :
  env_named name (es ++ es') = match env_named name es with Some e => Some e | None => env_named name es' end.
Proof. induction es as [|e es IH]; [done|]. rewrite <-app_comm_cons, !env_named_cons. by case_bool_decide. Qed.
Lemma env_named_None name es : env_named name es = None ↔ name ∉ (Env_Name <$> es).
Proof.
  induction es as [|e es IH]; [split; [intros _; apply not_elem_of_nil|done]|]. rewrite env_named_cons, fmap_cons, not_elem_of_cons.
  case_bool_decide; naive_solver.
Qed.
Lemma env_named_elem e es : NoDup (Env_Name <$> es) → e ∈ es → env_named (Env_Name e) es = Some e.
Proof.
  induction es as [|e' es IH]; [by intros _ ?%elem_of_nil|]. rewrite fmap_cons, NoDup_cons, env_named_cons.
  intros [Hno Hnd] [->|He]%elem_of_cons; [by rewrite bool_decide_true|].
  rewrite bool_decide_false; [by apply IH|]. intros E. apply Hno. rewrite E. by apply list_elem_of_fmap_2.
Qed.
(** The overrides by name. *)
Lemma overrides_spec es m : NoDup (Env_Name <$> es) → keyed m →
  keyed (foldl (λ m e, <[Env_Name e := e]> m) m es) ∧
  ∀ name, foldl (λ m e, <[Env_Name e := e]> m) m es !! name = match env_named name es with Some e => Some e | None => m !! name end.
Proof.
  revert m. induction es as [|e es IH]; intros m; [done|]. rewrite fmap_cons, NoDup_cons. intros [Hno Hnd] Hm. simpl.
  destruct (IH (<[Env_Name e := e]> m) Hnd) as [Hk Hl]; [by apply map_Forall_insert_2|]. split; [done|]. intros name.
  rewrite Hl, env_named_cons. case_bool_decide as E.
  - subst name. rewrite (proj2 (env_named_None _ _) Hno). by rewrite lookup_insert_eq.
  - destruct (env_named name es); [done|]. by rewrite lookup_insert_ne.
Qed.
Lemma place_base_spec base override : keyed override → NoDup (Env_Name <$> base) →
  let '(out, rest) := place_base override base in
  Env_Name <$> out = Env_Name <$> base
  ∧ (∀ name, env_named name out = match env_named name base with None => None
      | Some e => match override !! name with Some o => Some o | None => Some e end end)
  ∧ (∀ name, rest !! name = match env_named name base with None => override !! name | Some _ => None end).
Proof.
  revert override. induction base as [|e base IH]; intros override Hk; [done|]. rewrite fmap_cons, NoDup_cons. intros [Hno Hnd]. simpl.
  apply env_named_None in Hno. destruct (override !! Env_Name e) as [o|] eqn:Eo.
  - specialize (IH (delete (Env_Name e) override) (map_Forall_delete _ _ _ Hk) Hnd).
    destruct (place_base (delete (Env_Name e) override) base) as [out rest]. destruct IH as (En & Eout & Erest).
    assert (Hname : Env_Name o = Env_Name e) by exact (Hk _ _ Eo). split_and!; [by rewrite !fmap_cons, En, Hname| |]; intros name;
      rewrite !env_named_cons, ?Hname; case_bool_decide as E; [by subst; rewrite Eo| | |].
    + rewrite Eout. destruct (env_named name base); [|done]. by rewrite lookup_delete_ne.
    + subst. rewrite Erest, Hno. by rewrite lookup_delete_eq.
    + rewrite Erest. destruct (env_named name base); [done|]. by rewrite lookup_delete_ne.
  - specialize (IH override Hk Hnd). destruct (place_base override base) as [out rest]. destruct IH as (En & Eout & Erest).
    split_and!; [by rewrite !fmap_cons, En| |]; intros name; rewrite !env_named_cons; case_bool_decide as E; [by subst; rewrite Eo|by rewrite Eout| |by rewrite Erest].
    subst. by rewrite Erest, Hno.
Qed.
Lemma place_extra_spec override extra : NoDup (Env_Name <$> extra) →
  NoDup (Env_Name <$> place_extra override extra) ∧
  ∀ name, env_named name (place_extra override extra) = match override !! name with Some _ => env_named name extra | None => None end.
Proof.
  revert override. induction extra as [|e extra IH]; intros override; simpl; [intros _; split; [constructor|by intros name; destruct (_ !! _)]|].
  rewrite NoDup_cons. intros [Hno%env_named_None Hnd]. destruct (override !! Env_Name e) as [o|] eqn:Eo.
  - destruct (IH (delete (Env_Name e) override) Hnd) as [Hnd' El]. rewrite fmap_cons, NoDup_cons. split_and!; [|done|].
    + apply env_named_None. by rewrite El, lookup_delete_eq.
    + intros name. rewrite !env_named_cons. case_bool_decide as E; [by subst; rewrite Eo|]. by rewrite El, lookup_delete_ne.
  - destruct (IH override Hnd) as [Hnd' El]. split; [done|]. intros name. rewrite env_named_cons. case_bool_decide as E; [|by rewrite El].
    subst. by rewrite El, Eo.
Qed.

(** What a user sets in [spec.dra.env] wins, and nothing else changes: when no name
    is given twice, the container ends up with one variable per name, the user's where
    there is one and the renderer's everywhere else, and the renderer's keep their
    order and their place.  The liveness probe of the Rebellions driver asks on the port
    the container is told to listen on. *)
Theorem merged_environment base extra :
  NoDup (Env_Name <$> base) → NoDup (Env_Name <$> extra) →
  NoDup (Env_Name <$> mergeEnv base extra)
  ∧ (∀ name, env_named name (mergeEnv base extra) = match env_named name extra with Some e => Some e | None => env_named name base end)
  ∧ (∃ added, Env_Name <$> mergeEnv base extra = (Env_Name <$> base) ++ added)
  ∧ health_port (mergeEnv base extra) = health_port (option_list (match env_named "HEALTHCHECK_PORT" extra with
      Some e => Some e | None => env_named "HEALTHCHECK_PORT" base end)).
Proof.
  intros Hb He. unfold mergeEnv. destruct (overrides_spec extra ∅ He) as [Hk Hl]; [apply map_Forall_empty|].
  set (override := foldl _ _ _) in *. assert (Hover : ∀ name, override !! name = env_named name extra).
  { intros name. rewrite Hl, lookup_empty. by destruct (env_named name extra). }
  generalize (place_base_spec base override Hk Hb). destruct (place_base override base) as [out rest]. intros (En & Eout & Erest).
  destruct (place_extra_spec rest extra He) as [Hnd Ex].
  assert (Hname : ∀ name, env_named name (out ++ place_extra rest extra) = match env_named name extra with Some e => Some e | None => env_named name base end).
  { intros name. rewrite env_named_app, Eout, Ex, Erest, Hover. destruct (env_named name base), (env_named name extra); done. }
  split_and!; [|done| |].
  - rewrite fmap_app, En. apply NoDup_app. split_and!; [done| |done]. intros name Hin Hin2.
    assert (Hsome : env_named name base ≠ None) by by intros ?%env_named_None.
    assert (Hsome2 : env_named name (place_extra rest extra) ≠ None) by by intros ?%env_named_None.
    rewrite Ex, Erest in Hsome2. by destruct (env_named name base).
  - exists (Env_Name <$> place_extra rest extra). by rewrite fmap_app, En.
  - unfold health_port. fold (env_named "HEALTHCHECK_PORT" (out ++ place_extra rest extra)). rewrite Hname.
    destruct (env_named "HEALTHCHECK_PORT" extra) as [e|] eqn:E1; [|destruct (env_named "HEALTHCHECK_PORT" base) as [e|] eqn:E2; [|done]]; simpl.
    + apply find_first_Some in E1 as (l1 & l2 & _ & Hn & _). by rewrite Hn.
    + apply find_first_Some in E2 as (l1 & l2 & _ & Hn & _). by rewrite Hn.
Qed.
Lemma merged_environment_witness :
  env_named "HEALTHCHECK_PORT" (mergeEnv (rebellions_dra_env) [env "HEALTHCHECK_PORT" "6000"; env "NEW" "1"]) = Some (env "HEALTHCHECK_PORT" "6000") ∧
  health_port (mergeEnv (rebellions_dra_env) [env "HEALTHCHECK_PORT" "6000"; env "NEW" "1"]) = Some 6000.
Proof.
  destruct (merged_environment rebellions_dra_env [env "HEALTHCHECK_PORT" "6000"; env "NEW" "1"]) as (_ & Hn & _ & Hp);
    [decide_compute|decide_compute|]. rewrite Hn, Hp. split; vm_compute; reflexivity.
Defined.
