(* ===== verification/ClusterPolicyPass.v ===== *)
(** * The cluster-policy pass

    Models the reconciler of npuclusterpolicy_controller.go, npuclusterpolicy_advertise.go,
    dra_driver.go, dcgm_exporter.go and vendoroperator_*.go over an API that may answer
    anything.  The policy of the Go code is one object that the pass changes and that an
    update refreshes; here every step that can change it answers with it. *)

From S2P Require Import Prelude GoStrings GoTime GoText Naming ApiTypes PolicyTypes HealthController IntentResources IntentSnapshot UpgradeTypes UpgradeNode PartitionTypes Quiescer SharingConfig RngdBackend PartitionPass PodSpec ClusterPolicy DevicePlugins DraDriver.

(** ** The API *)

Record ServiceAccount := mkServiceAccount {
  Sa_Namespace : string; Sa_Name : string; Sa_Annotations : gmap string string; Sa_ImagePullSecrets : list string;
}.
Record KNamespace := mkNamespace { Kn_Name : string; Kn_Labels : gmap string string; Kn_Annotations : gmap string string }.
Record ClusterRole := mkClusterRole { Cr_Name : string; Cr_Annotations : gmap string string; Cr_Rules : list PolicyRule }.
(** A subject: kind, name, namespace. *)
Record ClusterRoleBinding := mkBinding {
  Crb_Name : string; Crb_Annotations : gmap string string; Crb_Role : string; Crb_Subjects : list (string * string * string);
}.
#[export] Instance PolicyRule_eq_dec : EqDecision PolicyRule.
Proof. solve_decision. Defined.

Class ClusterAPI (W : Type) := {
  ncp_get : string → string → M W NPUClusterPolicy;
  (** these answer with the stored object *)
  ncp_update : NPUClusterPolicy → M W NPUClusterPolicy;
  ncp_status_update : NPUClusterPolicy → M W NPUClusterPolicy;
  ncp_status_patch : NPUClusterPolicy → NPUClusterPolicy → M W NPUClusterPolicy;
  labels_patch : Node → Node → M W Node;
  ds_get : string → string → M W ODaemonSet;
  ds_list : string → M W (list ODaemonSet);
  ds_create : ODaemonSet → M W ();
  ds_update : ODaemonSet → M W ();
  ds_delete : string → string → M W ();
  cm_get : string → string → M W ConfigMap;
  cm_list : string → M W (list ConfigMap);
  cm_create : ConfigMap → M W ();
  cm_update : ConfigMap → M W ();
  cm_delete : string → string → M W ();
  sa_get : string → string → M W ServiceAccount;
  sa_create : ServiceAccount → M W ();
  sa_update : ServiceAccount → M W ();
  ns_get : string → M W KNamespace;
  ns_create : KNamespace → M W ();
  ns_update : KNamespace → M W ();
  role_get : string → M W ClusterRole;
  role_create : ClusterRole → M W ();
  role_update : ClusterRole → M W ();
  binding_get : string → M W ClusterRoleBinding;
  binding_create : ClusterRoleBinding → M W ();
  binding_update : ClusterRoleBinding → M W ();
  (** the object of this kind and name *)
  dra_get : DRAObject → M W ();
  dra_create : DRAObject → M W ();
  dra_update : DRAObject → M W ();
  dra_delete : DRAObject → M W ();
  (** the RESTMapper: the resource and group of a kind *)
  rest_mapping : string → string → M W (string * string);
  (** the uncached reader, when there is one *)
  api_reader : bool;
  crd_get : string → M W ();
  (** name and [status.state] of the objects of a group, version and kind *)
  operator_list : string → string → string → M W (list (string * string));
  (** type, reason, message *)
  cluster_event : string → string → string → W → W;
}.

(** ** Objects *)

Section Pass.
Context {W : Type} `{UpgradeAPI W, IntentAPI W, ClusterAPI W, Clock W} `{MapRange} `{LabelSelectors} `{Environment}.
Notation IO := (M W).

Definition unless_missing (m : IO ()) : IO () :=
  r ← try m;
  match r with inl _ => mret () | inr e => if is_not_found e then mret () else throw e end.
Definition emit (type reason msg : string) : IO () := modify (cluster_event type reason msg).

Definition createOrUpdateDS (desired : ODaemonSet) : IO () :=
  cur ← try (ds_get (Ods_Namespace desired) (Ods_Name desired));
  match cur with
  | inr e => if is_not_found e then ds_create desired else throw e
  | inl cur =>
      if Ods_Deleting cur then
        throw (errorf ("DaemonSet " +:+ Ods_Namespace cur +:+ "/" +:+ Ods_Name cur +:+ " 삭제 진행 중 — 재생성 전 GC 완료 대기"))
      else if negb (bool_decide (Ods_Spec cur = Ods_Spec desired)) || negb (bool_decide (Ods_Labels cur = Ods_Labels desired))
              || negb (bool_decide (Ods_Annotations cur = Ods_Annotations desired)) then
        ds_update (mkODaemonSet (Ods_Namespace cur) (Ods_Name cur) (Ods_Labels desired) (Ods_Annotations desired) (Ods_Deleting cur)
                     (Ods_Spec desired))
      else mret ()
  end.
Definition createOrUpdateCM (desired : ConfigMap) : IO () :=
  cur ← try (cm_get (Cm_Namespace desired) (Cm_Name desired));
  match cur with
  | inr e => if is_not_found e then cm_create desired else throw e
  | inl cur =>
      if negb (bool_decide (Cm_Data cur = Cm_Data desired)) then
        cm_update (mkConfigMap (Cm_Name cur) (Cm_Namespace cur) (Cm_Annotations cur) (Cm_Data desired))
      else mret ()
  end.
(** The bodies of [ensureDetectorServiceAccount] and [ensureRbllnsServiceAccount]. *)
Definition ensure_account (sa : ServiceAccount) : IO () :=
  cur ← try (sa_get (Sa_Namespace sa) (Sa_Name sa));
  match cur with
  | inr e => if is_not_found e then sa_create sa else throw e
  | inl cur =>
      if negb (bool_decide (Sa_ImagePullSecrets cur = Sa_ImagePullSecrets sa)) then
        sa_update (mkServiceAccount (Sa_Namespace cur) (Sa_Name cur) (Sa_Annotations cur) (Sa_ImagePullSecrets sa))
      else mret ()
  end.
Definition deleteDaemonSetIn (ns name : string) : IO () := unless_missing (ds_delete ns name).
Definition deleteOwnedDaemonSetInIfExists (ns name : string) (p : NPUClusterPolicy) : IO () :=
  ds ← try (ds_get ns name);
  match ds with
  | inr e => if is_not_found e then mret () else throw e
  | inl ds =>
      if negb (bool_decide (mget "" (Ods_Annotations ds) ownerAnnotation = owner_value p)) then mret ()
      else unless_missing (ds_delete (Ods_Namespace ds) (Ods_Name ds))
  end.
Definition deleteOwnedDaemonSetIfExists (name : string) (p : NPUClusterPolicy) : IO () :=
  deleteOwnedDaemonSetInIfExists kube_system name p.

(** ** Node labels *)

(** [reconcileNodeExclusionLabels]; dropped conditions are only logged. *)
Definition label_excluded (p : option NPUClusterPolicy) (node : Node) : IO () :=
  match exclusion_labels node p with
  | None => mret ()
  | Some labels =>
      r ← try (labels_patch node (node_labels (λ _, labels) node));
      match r with
      | inl _ => mret ()
      | inr e => throw (errorf_w ("노드 " +:+ Node_Name node +:+ " 배제 라벨 갱신 실패") e)
      end
  end.
Definition list_nodes : IO (list Node) :=
  r ← try UpgradeTypes.node_list;
  match r with inl nodes => mret nodes | inr e => throw (errorf_w "노드 목록 조회 실패" e) end.
Definition reconcileNodeExclusionLabels (p : option NPUClusterPolicy) : IO () :=
  nodes ← list_nodes; for_each (label_excluded p) nodes.

Definition draDaemonSetExists (name : string) : IO bool :=
  if bool_decide (name = "") then mret false
  else
    r ← try (ds_get draNamespace name);
    match r with inl _ => mret true | inr e => if is_not_found e then mret false else throw e end.

(** The label as it should be, and the one write when it is not. *)
Definition reconcileDRARetiredLabel (node : Node) (retiredKey : string) (want has draEnabled dsExists : bool) : IO Node :=
  let wasRetired := bool_decide (is_Some (Node_Labels node !! retiredKey)) in
  let retired := if want then false else if negb draEnabled && negb dsExists then false else if has then true else wasRetired in
  if Bool.eqb retired wasRetired then mret node
  else labels_patch node (node_labels (if retired then <[retiredKey := labelValueTrue]> else delete retiredKey) node).

Definition advertiseQuiescer (vendor : string) : Quiescer :=
  if bool_decide (vendor = vendorNvidia) then NvidiaQuiescer
  else if bool_decide (vendor = vendorRngd) then RngdQuiescer
  else mkQuiescer [] [].
(** The reason and the pods in the way; [None]: the node may be handed over. *)
Definition refuseAdvertiseSwitch (vendor node : string) (dra : DRACapability) : IO (option (string * list string)) :=
  let driver := advertiseVendorDriverName vendor in
  if mget 0 (mget ∅ (Dra_SlicesByNodeDriver dra) node) driver =? 0 then
    mret (Some ("이 노드에서 " +:+ driver +:+ " 드라이버가 ResourceSlice 를 발행하지 않는다 — 드라이버를 먼저 설치하라", []))
  else
    pods ← try (DeviceHoldingPods (advertiseQuiescer vendor) node);
    match pods with
    | inr e => throw (errorf_w ("노드 " +:+ node +:+ " 점유 조회 실패") e)
    | inl [] => mret None
    | inl pods => mret (Some ("장치를 쥔 워크로드가 있다 — 노드를 비우고 다시 시도하라", pods))
    end.

(** The nodes a vendor gives to DRA. *)
Definition advertise_selector (vendor : string) (adv : AdvertiseSpec) : (gmap string string → bool) + GoErr :=
  if bool_decide (AdvertisedBy adv = AdvertiseByDRA) then
    match Adv_NodeSelector adv with
    | None => inl (λ _, true)
    | Some sel =>
        match LabelSelectorAsSelector sel with
        | inl s => inl s
        | inr e => inr (errorf_w (vendor +:+ " advertiseByNodeSelector 해석 실패") e)
        end
    end
  else inl (λ _, false).
Definition vendor_present (vendor : string) (node : Node) : bool :=
  bool_decide (mget "" (Node_Labels node) (PresentNodeLabel vendor) = labelValueTrue).
(** One node: what [has] and [want] say is settled before the first write. *)
Definition advertise_node (dra : DRACapability) (vendor mode : string)
    (selector : gmap string string → bool) (draEnabled dsExists : bool) (node : Node) : IO (Node * list AdvertiseSwitchStatus) :=
  let key := DRAOwnedNodeLabel vendor in
  let present := vendor_present vendor node in
  let want := present && selector (Node_Labels node) in
  let has := bool_decide (is_Some (Node_Labels node !! key)) in
  node ← reconcileDRARetiredLabel node (DRARetiredNodeLabel vendor) want has draEnabled dsExists;
  let returning := if present && negb (bool_decide (mode = AdvertiseByDRA)) then
      [mkSwitch vendor (Node_Name node) mode (negb has)
         (if has then "dra-owned 라벨이 남아 있어 device-plugin 광고로 되돌리는 중" else "") []] else [] in
  refusal ← (if want && negb has then refuseAdvertiseSwitch vendor (Node_Name node) dra else mret None);
  match refusal with
  | Some (reason, pods) =>
      _ ← emit "Warning" "AdvertiseSwitchRefused"
            ("노드 " +:+ Node_Name node +:+ " 의 " +:+ vendor +:+ " 광고 주체 전환 거절: " +:+ reason);
      mret (node, returning ++ [mkSwitch vendor (Node_Name node) mode false reason pods])
  | None =>
      let entries := returning ++ (if want then [mkSwitch vendor (Node_Name node) mode true "" []] else []) in
      if Bool.eqb want has then mret (node, entries)
      else
        r ← try (labels_patch node (node_labels (if want then <[key := labelValueTrue]> else delete key) node));
        match r with
        | inl node => mret (node, entries)
        | inr e => throw (errorf_w ("노드 " +:+ Node_Name node +:+ " 라벨 " +:+ key +:+ " 갱신 실패") e)
        end
  end.
Fixpoint advertise_nodes (f : Node → IO (Node * list AdvertiseSwitchStatus)) (nodes : list Node)
    : IO (list Node * list AdvertiseSwitchStatus) :=
  match nodes with
  | [] => mret ([], [])
  | n :: nodes =>
      '(n, e) ← f n;
      '(nodes, es) ← advertise_nodes f nodes;
      mret (n :: nodes, e ++ es)
  end.
(** One vendor, over the nodes as the vendors before it left them. *)
Definition advertise_vendor (p : NPUClusterPolicy) (dra : DRACapability) (vendor : string) (adv : AdvertiseSpec) (nodes : list Node)
    : IO (list Node * list AdvertiseSwitchStatus) :=
  if negb (vendorIsOperatorOwned p vendor) then mret (nodes, [])
  else
    ds ← try (draDaemonSetExists (advertiseVendorDRADSName vendor));
    match ds with
    | inr e => throw (errorf_w (vendor +:+ " DRA DaemonSet 조회 실패") e)
    | inl dsExists =>
        match advertise_selector vendor adv with
        | inr e => throw e
        | inl selector =>
            advertise_nodes (advertise_node dra vendor (AdvertisedBy adv) selector (vendorDRAEnabled p vendor) dsExists) nodes
        end
    end.
Fixpoint advertise_all (p : NPUClusterPolicy) (dra : DRACapability) (vendors : list (string * AdvertiseSpec)) (nodes : list Node)
    : IO (list AdvertiseSwitchStatus) :=
  match vendors with
  | [] => mret []
  | (vendor, adv) :: vendors =>
      '(nodes, es) ← advertise_vendor p dra vendor adv nodes;
      more ← advertise_all p dra vendors nodes;
      mret (es ++ more)
  end.
(** The policy keeps the new list when the write fails: the error comes with it. *)
Definition recordAdvertiseSwitch (p : NPUClusterPolicy) (switches : list AdvertiseSwitchStatus)
    : IO (NPUClusterPolicy * option GoErr) :=
  let switches := sort_slice (lex_less Sw_Vendor Sw_Node) switches in
  if bool_decide (Nps_AdvertiseSwitch (Ncp_Status p) = switches) then mret (p, None)
  else
    let p' := ncp_status (mkNcpStatus (Nps_Conditions (Ncp_Status p)) switches (Nps_DRADrivers (Ncp_Status p))) p in
    r ← try (ncp_status_patch p p');
    match r with
    | inl p => mret (p, None)
    | inr e => mret (p', Some (errorf_w "광고 주체 전환 상태 기록 실패" e))
    end.
Definition reconcileDRAOwnedLabels (p : NPUClusterPolicy) : IO (NPUClusterPolicy * option GoErr) :=
  nodes ← list_nodes;
  dra ← try LoadDRACapability;
  match dra with
  | inr e => throw (errorf_w "DRA 발행 상태 조회 실패" e)
  | inl dra =>
      switches ← advertise_all p dra (range_map (advertiseVendors p)) nodes;
      recordAdvertiseSwitch p switches
  end.
Definition dra_label_keys (p : NPUClusterPolicy) : list string :=
  concat ((λ va : string * AdvertiseSpec, [DRAOwnedNodeLabel va.1; DRARetiredNodeLabel va.1]) <$> range_map (advertiseVendors p)).
Definition reclaim_node (p : NPUClusterPolicy) (node : Node) : IO () :=
  let labels := foldl (λ m k, delete k m) (Node_Labels node) (dra_label_keys p) in
  if negb (existsb (λ k, bool_decide (is_Some (Node_Labels node !! k))) (dra_label_keys p)) then mret ()
  else
    r ← try (labels_patch node (node_labels (λ _, labels) node));
    match r with
    | inl _ => mret ()
    | inr e => throw (errorf_w ("노드 " +:+ Node_Name node +:+ " DRA 라벨 회수 실패") e)
    end.
Definition reclaimDRANodeLabels (p : NPUClusterPolicy) : IO () :=
  nodes ← list_nodes; for_each (reclaim_node p) nodes.

(** ** Status *)

Definition set_condition (ctype status reason msg : string) (p : NPUClusterPolicy) : IO NPUClusterPolicy :=
  now ← read_clock;
  mret (ncp_conditions (SetStatusCondition now (Nps_Conditions (Ncp_Status p)) ctype status reason msg (Ncp_Generation p)) p).
Definition condition_status (p : NPUClusterPolicy) (ctype : string) : string :=
  match FindStatusCondition (Nps_Conditions (Ncp_Status p)) ctype with Some c => Sc_Status c | None => ConditionUnknown end.
(** A failed write is only logged. *)
Definition setReadyCondition (status reason msg : string) (p : NPUClusterPolicy) : IO NPUClusterPolicy :=
  p ← set_condition "Ready" status reason msg p;
  r ← try (ncp_status_update p);
  match r with inl p => mret p | inr _ => mret p end.
(** A failure becomes an event, the Ready condition and the error. *)
Definition not_ready {A} (p : NPUClusterPolicy) (event msg reason : string) (e : GoErr) : IO A :=
  _ ← emit "Warning" event msg;
  _ ← setReadyCondition ConditionFalse reason (err_msg e) p;
  throw e.
Definition or_not_ready {A} (p : NPUClusterPolicy) (event : string) (msg : GoErr → string) (reason : string) (m : IO A) : IO A :=
  r ← try m;
  match r with inl a => mret a | inr e => not_ready p event (msg e) reason e end.
Definition failed_to (verb what : string) (e : GoErr) : string := "Failed to " +:+ verb +:+ " " +:+ what +:+ ": " +:+ err_msg e.
Definition ensuring {A} (p : NPUClusterPolicy) (what : string) (m : IO A) : IO A :=
  or_not_ready p "ReconcileFailed" (failed_to "ensure" what) (what +:+ "Failed") m.
Definition removing {A} (p : NPUClusterPolicy) (ds reason : string) (m : IO A) : IO A :=
  or_not_ready p "ReconcileFailed" (failed_to "remove" ds) reason m.
Definition syncNodeLabels (p : NPUClusterPolicy) : IO NPUClusterPolicy :=
  r ← try (reconcileDRAOwnedLabels p);
  let failed p e := not_ready p "AdvertiseSwitchFailed" (err_msg e) "AdvertiseSwitchFailed" e in
  match r with
  | inr e => failed p e
  | inl (p, Some e) => failed p e
  | inl (p, None) =>
      _ ← or_not_ready p "NodeExclusionLabelFailed" err_msg "NodeExclusionLabelFailed" (reconcileNodeExclusionLabels (Some p));
      mret p
  end.

(** ** Device plugins *)

Definition ensureDetector (p : NPUClusterPolicy) : IO () :=
  match Np_Detector (Ncp_Spec p) with
  | None => throw (errorf "detector image must be specified in NPUClusterPolicy.spec.detector.image")
  | Some image =>
      if bool_decide (image = "") then throw (errorf "detector image must be specified in NPUClusterPolicy.spec.detector.image")
      else
        _ ← ensure_account (mkServiceAccount operator_namespace detectorServiceAccountName {[ ownerAnnotation := owner_value p ]}
              (Np_ImagePullSecrets (Ncp_Spec p)));
        createOrUpdateDS (setOwnerAnnotation p (renderDetectorDS image (Np_ImagePullSecrets (Ncp_Spec p))))
  end.
(** What another writer set on the live object is kept; a failed read keeps nothing. *)
Definition ensure_preserving (preserve : ODaemonSet → ODaemonSet → ODaemonSet) (ds : ODaemonSet) : IO () :=
  live ← try (ds_get (Ods_Namespace ds) (Ods_Name ds));
  createOrUpdateDS (match live with inl live => preserve live ds | inr _ => ds end).
Definition ensureNvidiaDevicePlugin (p : NPUClusterPolicy) : IO () :=
  for_each (ensure_preserving preserveNvidiaSharing)
    [nvidia_plugin p DevicePluginNameMixed true; nvidia_plugin p DevicePluginNameFlat false].
Definition ensureFuriosaDevicePlugin (p : NPUClusterPolicy) : IO () :=
  _ ← (if bool_decide (Fu_ConfigMapName (Furiosa p) = "") then mret ()
       else createOrUpdateCM (furiosa_configmap p furiosaVendorDSNamespace));
  _ ← for_each (λ ref : string * string, deleteOwnedDaemonSetInIfExists ref.1 ref.2 p)
        [(kube_system, furiosaWarboyLegacyDSName); (operator_namespace, furiosaWarboyV0727DSName)];
  createOrUpdateDS (warboy_plugin p).
Definition ensureFuriosaRngdDevicePlugin (p : NPUClusterPolicy) (partitionPolicy : string) : IO () :=
  _ ← deleteDaemonSetIn operator_namespace furiosaRngdV0727DSName;
  createOrUpdateDS (rngd_plugin p partitionPolicy).
Definition ensureFuriosaUnifiedDevicePlugin (p : NPUClusterPolicy) : IO () :=
  _ ← deleteDaemonSetIn kube_system furiosaUnifiedLegacyDSName;
  _ ← (if bool_decide (Fu_ConfigMapName (Furiosa p) = "") then mret ()
       else createOrUpdateCM (furiosa_configmap p furiosaUnifiedDSNamespace));
  ensure_preserving preserve_partition_env (unified_plugin p).
Definition ensureTenstorrentDevicePlugin (p : NPUClusterPolicy) : IO () := createOrUpdateDS (tenstorrent_plugin p).
(** The error of a step that is only logged. *)
Definition logged (m : IO ()) : IO () := _ ← try m; mret ().
Definition rollbackFuriosaUnified (p : NPUClusterPolicy) : IO () :=
  _ ← logged (deleteDaemonSetIn furiosaUnifiedDSNamespace furiosaUnifiedDSName);
  _ ← logged (deleteDaemonSetIn kube_system furiosaUnifiedLegacyDSName);
  if bool_decide (Fu_ConfigMapName (Furiosa p) = "") then mret ()
  else logged (cm_delete furiosaUnifiedDSNamespace (Fu_ConfigMapName (Furiosa p))).
Definition cleanupDisabledFuriosaLegacyDS (p : NPUClusterPolicy) : IO () :=
  let warboy := negb (Fu_Enabled (Furiosa p)) in
  let rngd := negb (Rg_Enabled (Rngd p)) in
  for_each (λ ref : string * string, logged (deleteOwnedDaemonSetInIfExists ref.1 ref.2 p))
    ((if warboy then [(kube_system, furiosaWarboyLegacyDSName); (operator_namespace, furiosaWarboyV0727DSName)] else [])
     ++ (if rngd then [(operator_namespace, furiosaRngdV0727DSName)] else [])
     ++ (if warboy then [(furiosaVendorDSNamespace, furiosaWarboyDSName)] else [])
     ++ (if rngd then [(furiosaVendorDSNamespace, furiosaRngdDSName)] else [])).
Definition reconcileFuriosaDevicePlugins (p : NPUClusterPolicy) : IO () :=
  let managed := IsOperatorOwned (Fu_Management (Furiosa p)) in
  if managed && Fu_Enabled (Furiosa p) && Fu_Unified (Furiosa p) then
    _ ← ensuring p "FuriosaUnifiedDevicePlugin" (ensureFuriosaUnifiedDevicePlugin p);
    for_each (λ ref : string * string, logged (deleteOwnedDaemonSetInIfExists ref.1 ref.2 p)) furiosaPerModelDSRefs
  else if negb managed then mret ()
  else
    _ ← cleanupDisabledFuriosaLegacyDS p;
    _ ← (if Fu_Enabled (Furiosa p) then ensuring p "FuriosaDevicePlugin" (ensureFuriosaDevicePlugin p) else mret ());
    _ ← (if Rg_Enabled (Rngd p)
         then ensuring p "FuriosaRngdDevicePlugin" (ensureFuriosaRngdDevicePlugin p (Rg_PartitionPolicy (Rngd p))) else mret ());
    rollbackFuriosaUnified p.
Definition ensureDcgmExporter (p : NPUClusterPolicy) : IO () :=
  if negb (IsOperatorOwned (Nv_Management (Nvidia p))) then mret ()
  else if Nv_Enabled (Nvidia p) && match Nv_DcgmExporter (Nvidia p) with Some s => Dcgm_Enabled s | None => false end then
    _ ← deleteOwnedDaemonSetIfExists dcgmExporterLegacyDSName p;
    createOrUpdateDS (dcgm_exporter p)
  else
    new ← try (deleteOwnedDaemonSetIfExists dcgmExporterDSName p);
    legacy ← try (deleteOwnedDaemonSetIfExists dcgmExporterLegacyDSName p);
    match new, legacy with
    | inl _, inl _ => mret ()
    | inr e, inl _ | inl _, inr e => throw e
    | inr e1, inr e2 => throw (mkErr (err_kind e1) (err_msg e1 +:+ String "010" (err_msg e2)))
    end.

(** *** Rebellions *)

Definition psa_labels : gmap string string :=
  {[ "pod-security.kubernetes.io/enforce" := "privileged"; "pod-security.kubernetes.io/audit" := "privileged";
     "pod-security.kubernetes.io/warn" := "privileged" ]}.
Definition system_namespace (name : string) : bool :=
  bool_decide (name ∈ ["kube-system"; "kube-public"; "kube-node-lease"; "default"]).
Definition ensureRbllnsNamespace (p : NPUClusterPolicy) : IO () :=
  let name := rbllnsResolveNamespace p in
  if system_namespace name then mret ()
  else
    cur ← try (ns_get name);
    match cur with
    | inr e => if is_not_found e then ns_create (mkNamespace name psa_labels {[ ownerAnnotation := owner_value p ]}) else throw e
    | inl cur =>
        let merged := psa_labels ∪ Kn_Labels cur in
        if bool_decide (merged = Kn_Labels cur) then mret ()
        else ns_update (mkNamespace (Kn_Name cur) merged (Kn_Annotations cur))
    end.
Definition ensureRbllnsServiceAccount (p : NPUClusterPolicy) : IO () :=
  ensure_account (mkServiceAccount (rbllnsResolveNamespace p) rbllnsServiceAccountName {[ ownerAnnotation := owner_value p ]}
    (Np_ImagePullSecrets (Ncp_Spec p))).
Definition rbllns_rules : list PolicyRule :=
  [mkRule [""] ["nodes"] ["get"; "list"; "watch"; "patch"]; mkRule [""] ["pods"] ["get"; "list"; "watch"];
   mkRule [""] ["events"] ["create"; "patch"]].
Definition rbllns_subjects (p : NPUClusterPolicy) : list (string * string * string) :=
  [("ServiceAccount", rbllnsServiceAccountName, rbllnsResolveNamespace p)].
Definition ensure_rbllns_role (p : NPUClusterPolicy) : IO () :=
  cr ← try (role_get rbllnsClusterRoleName);
  match cr with
  | inr e => if is_not_found e then role_create (mkClusterRole rbllnsClusterRoleName {[ ownerAnnotation := owner_value p ]} rbllns_rules)
             else throw e
  | inl cr => if bool_decide (Cr_Rules cr = rbllns_rules) then mret ()
              else role_update (mkClusterRole (Cr_Name cr) (Cr_Annotations cr) rbllns_rules)
  end.
Definition ensure_rbllns_binding (p : NPUClusterPolicy) : IO () :=
  crb ← try (binding_get rbllnsClusterRoleName);
  match crb with
  | inr e => if is_not_found e
             then binding_create (mkBinding rbllnsClusterRoleName {[ ownerAnnotation := owner_value p ]} rbllnsClusterRoleName (rbllns_subjects p))
             else throw e
  | inl crb => if bool_decide (Crb_Subjects crb = rbllns_subjects p) then mret ()
               else binding_update (mkBinding (Crb_Name crb) (Crb_Annotations crb) (Crb_Role crb) (rbllns_subjects p))
  end.
Definition ensureRbllnsRBAC (p : NPUClusterPolicy) : IO () := _ ← ensure_rbllns_role p; ensure_rbllns_binding p.
Definition ensureRbllnsConfigMap (p : NPUClusterPolicy) : IO () := createOrUpdateCM (rbllns_configmap p).
Definition ensureRebellionsDevicePlugin (p : NPUClusterPolicy) : IO () := createOrUpdateDS (rebellions_plugin p).

(** ** DRA drivers *)

Definition draDeployed (v : draVendor) : IO bool :=
  match Dv_render v with
  | None => mret false
  | Some _ =>
      r ← try (ds_get draNamespace (Dv_dsName v));
      match r with inl _ => mret true | inr e => if is_not_found e then mret false else throw e end
  end.
Definition applyDRAObject (o : DRAObject) : IO () :=
  r ← try (dra_get o);
  match r with
  | inr e => if is_not_found e then dra_create o else throw e
  | inl _ => dra_update o
  end.
Definition deleteDRAObjects (objs : list DRAObject) : IO () := for_each (λ o, unless_missing (dra_delete o)) objs.
(** [int32]; the API may not be served at all. *)
Definition publishing_nodes (driver : string) (slices : list ResourceSlice) : gset string :=
  list_to_set (omap (λ s, if bool_decide (Rs_Driver s = driver) then Rs_NodeName s else None) slices).
Definition countPublishingNodes (driver : string) : IO Z :=
  if bool_decide (driver = "") then mret 0
  else
    r ← try resource_slice_list;
    match r with
    | inr e => if is_no_match e then mret 0 else throw e
    | inl slices => mret (wrap32 (Z.of_nat (size (publishing_nodes driver slices))))
    end.

Record dualAdvertiseNode := mkDual { Da_Node : string; Da_ResourceQty : Z; Da_Slices : Z }.
(** The devices each node publishes; sums are [int32]. *)
Definition slice_counts (driver : string) (slices : list ResourceSlice) : gmap string Z :=
  foldl (λ m s, match Rs_NodeName s with
                | Some node => if bool_decide (Rs_Driver s = driver) && negb (bool_decide (node = ""))
                               then <[node := wrap32 (mget 0 m node + wrap32 (Rs_Devices s))]> m else m
                | None => m
                end) ∅ slices.
Fixpoint dual_nodes (vendor resourceName : string) (counts : list (string * Z)) : IO (list dualAdvertiseNode) :=
  match counts with
  | [] => mret []
  | (name, k) :: counts =>
      r ← try (node_get name);
      match r with
      | inr e =>
          if is_not_found e then dual_nodes vendor resourceName counts
          else throw (errorf_w (vendor +:+ " 노드 " +:+ name +:+ " 조회 실패") e)
      | inl node =>
          more ← dual_nodes vendor resourceName counts;
          mret (match Node_Allocatable node !! resourceName with
                | Some qty => if 0 <? qty then mkDual name qty k :: more else more
                | None => more
                end)
      end
  end.
Definition dualAdvertiseNodes (vendor driver resourceName : string) : IO (list dualAdvertiseNode) :=
  r ← try resource_slice_list;
  match r with
  | inr e => throw (errorf_w (vendor +:+ " ResourceSlice 조회 실패") e)
  | inl slices => dual ← dual_nodes vendor resourceName (range_map (slice_counts driver slices)); mret (sort_on Da_Node dual)
  end.
Definition rebellionsDualAdvertiseNote (p : NPUClusterPolicy) : IO string :=
  dual ← dualAdvertiseNodes vendorRebellions draDriverNameRebellions (rebellions_resource p);
  mret (if bool_decide (length dual = 0%nat) then ""
        else "이중광고: 노드 " +:+ sprint_list (Da_Node <$> dual) +:+ " 가 " +:+ rebellions_resource p
          +:+ " 을 device-plugin 과 DRA 로 동시 광고한다(스케줄러가 카드 1장을 자원 2개로 본다). 해당 노드에서 device-plugin 광고를 끄거나 DRA 를 끄라").
(** [None]: a list could not be read, and the condition stays as it is. *)
Fixpoint dual_parts (p : NPUClusterPolicy) (vendors : list string) : IO (option (list string)) :=
  match vendors with
  | [] => mret (Some [])
  | vendor :: vendors =>
      let driver := advertiseVendorDriverName vendor in
      let resourceName := advertiseVendorResourceName p vendor in
      if bool_decide (driver = "") || bool_decide (resourceName = "") then dual_parts p vendors
      else
        r ← try (dualAdvertiseNodes vendor driver resourceName);
        match r with
        | inr _ => mret None
        | inl nodes =>
            more ← dual_parts p vendors;
            mret (app ((λ n, vendor +:+ ": " +:+ Da_Node n +:+ "(" +:+ resourceName +:+ "=" +:+ sprint_Z (Da_ResourceQty n)
              +:+ ", slices=" +:+ sprint_Z (Da_Slices n) +:+ ")") <$> nodes) <$> more)
        end
  end.
Definition detectDualAdvertisement (p : NPUClusterPolicy) : IO NPUClusterPolicy :=
  parts ← dual_parts p (range_map (advertiseVendors p)).*1;
  match parts with
  | None => mret p
  | Some [] =>
      set_condition ConditionDualAdvertisement ConditionFalse "NoDualAdvertise"
        "device-plugin 과 DRA 가 같은 장치를 동시에 광고하는 노드가 없다" p
  | Some parts =>
      let message := join "; " (sort_strings parts) in
      p' ← set_condition ConditionDualAdvertisement ConditionTrue "DualAdvertiseDetected" message p;
      _ ← (if bool_decide (condition_status p ConditionDualAdvertisement = ConditionTrue) then mret ()
           else emit "Warning" "DualAdvertise" message);
      mret p'
  end.

Definition not_operator_owned : string := "delegated·external 관리 모드 — kcloud 가 DRA 드라이버를 배포·회수하지 않는다".
Definition not_published : string := "드라이버는 배포됐으나 ResourceSlice 발행이 아직 관측되지 않음".
(** An event when the note was not in the last message. *)
Definition note_once (p : NPUClusterPolicy) (vendor reason note event : string) : IO () :=
  if str_contains (priorDRAMessage p vendor) note then mret () else emit "Warning" reason event.
Definition apply_dra_object (p : NPUClusterPolicy) (o : DRAObject) : IO () :=
  match o with
  | DraDaemonSet ds =>
      createOrUpdateDS (on_pod (λ s, applyImagePullSecrets (Np_ImagePullSecrets (Ncp_Spec p)) (applyControlPlaneExclusion s))
                          (setOwnerAnnotation p ds))
  | o => applyDRAObject o
  end.
Definition reconcileOneDRADriver (p : NPUClusterPolicy) (v : draVendor) : IO DRADriverStatus :=
  let vendor := Dv_name v in
  let st phase driver nodes msg := mkDRAStatus vendor phase driver nodes msg in
  if negb (vendorIsOperatorOwned p vendor) then mret (st DRAPhaseAbsent "" 0 not_operator_owned)
  else if negb (Ds_Enabled (Dv_spec v)) then
    deployed ← draDeployed v;
    if negb deployed then mret (st DRAPhaseAbsent "" 0 "")
    else _ ← deleteDRAObjects (match Dv_render v with Some render => render p | None => [] end); mret (st DRAPhaseAbsent "" 0 "")
  else
    let note := ignoredDRAConfigNote vendor (Dv_spec v) in
    _ ← (if bool_decide (note = "") then mret ()
         else note_once p vendor "DRAConfigIgnored" note (vendor +:+ " DRA: " +:+ note));
    if bool_decide (vendor = vendorNvidia) && negb (bool_decide (nvidiaDRABlockReason p = "")) then
      mret (st DRAPhaseBlocked "" 0 (nvidiaDRABlockReason p))
    else
      match Dv_render v with
      | None => mret (st DRAPhaseBlocked "" 0 (vendor +:+ " 는 아직 DRA 드라이버 렌더러가 없다 — 배포하지 않는다"))
      | Some render =>
          _ ← for_each (apply_dra_object p) (render p);
          nodes ← countPublishingNodes (Dv_driverName v);
          if nodes =? 0 then
            mret (st DRAPhaseInstalling (Dv_driverName v) nodes
              (not_published +:+ (if bool_decide (note = "") then "" else ". " +:+ note)))
          else
            dual ← (if bool_decide (vendor = vendorRebellions) then rebellionsDualAdvertiseNote p else mret "");
            _ ← (if bool_decide (dual = "") then mret () else note_once p vendor "RebellionsDualAdvertise" dual dual);
            mret (st DRAPhaseReady (Dv_driverName v) nodes
              (if bool_decide (dual = "") then note else if bool_decide (note = "") then dual else note +:+ ". " +:+ dual))
      end.
Fixpoint dra_statuses (p : NPUClusterPolicy) (vs : list draVendor) : IO (list DRADriverStatus) :=
  match vs with
  | [] => mret []
  | v :: vs => st ← reconcileOneDRADriver p v; sts ← dra_statuses p vs; mret (st :: sts)
  end.
Definition ensureDRADriver (p : NPUClusterPolicy) : IO NPUClusterPolicy :=
  out ← dra_statuses p (draVendors p);
  mret (ncp_status (mkNcpStatus (Nps_Conditions (Ncp_Status p)) (Nps_AdvertiseSwitch (Ncp_Status p)) out) p).
Definition ensureSideOperands (p : NPUClusterPolicy) : IO NPUClusterPolicy :=
  _ ← ensuring p "DcgmExporter" (ensureDcgmExporter p);
  ensuring p "DRADriver" (ensureDRADriver p).

(** ** Operators of the vendors *)

Inductive OperatorPresence := PresencePresent | PresenceAbsent | PresenceUnknown.
Record vendorOperatorSignature := mkSignature {
  groupKinds : list (string * string); conditionType : string; detectedReason : string; detectedMessage : string; absentMessage : string;
}.
Definition vendorOperatorSignatures : gmap string vendorOperatorSignature := list_to_map [
  ("nvidia", mkSignature [("nvidia.com", "ClusterPolicy")] "VendorOperatorDetected" "NvidiaGPUOperator"
     "NVIDIA GPU Operator 가 설치돼 있음(nvidia.com/ClusterPolicy) — nvidia.managementMode=delegated 를 권장(중복 배포 차단·operator 설치 지속 확인), 노드만 관측하려면 external"
     "NVIDIA GPU Operator 미감지 또는 nvidia 가 kcloud 미배포(delegated/external)");
  ("rebellions", mkSignature [("rebellions.ai", "RblnClusterPolicy")] "RebellionsOperatorDetected" "RebellionsNPUOperator"
     "Rebellions NPU Operator 가 설치돼 있음(rebellions.ai/RblnClusterPolicy) — rebellions.managementMode=delegated 를 권장(중복 배포 차단·operator 설치 지속 확인), 노드만 관측하려면 external"
     "Rebellions NPU Operator 미감지 또는 rebellions 가 kcloud 미배포(delegated/external)");
  ("tenstorrent", mkSignature [("driver.tenstorrent.com", "TenstorrentDriverPolicy"); ("firmware.tenstorrent.com", "TenstorrentFirmwarePolicy")]
     "TenstorrentOperatorDetected" "TenstorrentOperator"
     "Tenstorrent Operator 가 설치돼 있음(driver.tenstorrent.com/TenstorrentDriverPolicy) — tenstorrent.managementMode=delegated 를 권장(중복 배포 차단·operator 설치 지속 확인), 노드만 관측하려면 external"
     "Tenstorrent Operator 미감지 또는 tenstorrent 가 kcloud 미배포(delegated/external)")].
(** The first kind that is served; a failed discovery is not an absence.  The errors
    are only logged. *)
Fixpoint first_served (kinds : list (string * string)) (failed : bool) : IO (option (string * string) * OperatorPresence) :=
  match kinds with
  | [] => mret (None, if failed then PresenceUnknown else PresenceAbsent)
  | (group, kind) :: kinds =>
      r ← try (rest_mapping group kind);
      match r with
      | inl mapping => mret (Some mapping, PresencePresent)
      | inr e => first_served kinds (failed || negb (is_no_match e))
      end
  end.
Definition vendorOperatorMapping (vendor : string) : IO (option (string * string) * OperatorPresence) :=
  match vendorOperatorSignatures !! vendor with
  | None => mret (None, PresenceUnknown)
  | Some sig => if bool_decide (groupKinds sig = []) then mret (None, PresenceUnknown) else first_served (groupKinds sig) false
  end.
Definition DetectVendorOperator (vendor : string) : IO OperatorPresence := '(_, presence) ← vendorOperatorMapping vendor; mret presence.
Definition crd_name (mapping : string * string) : string := mapping.1 +:+ "." +:+ mapping.2.
(** Only a missing definition counts as one that was removed. *)
Definition vendorOperatorCRDConfirmed (mapping : string * string) : IO bool :=
  r ← try (crd_get (crd_name mapping));
  mret (match r with inl _ => true | inr e => negb (is_not_found e) end).

Record vendorOperatorStatusProbe := mkProbe_ { Vp_group : string; Vp_version : string; Vp_readyValues : list string }.
Definition vendorOperatorStatusProbes : gmap string vendorOperatorStatusProbe := list_to_map [
  ("nvidia", mkProbe_ "nvidia.com" "v1" ["ready"]); ("rebellions", mkProbe_ "rebellions.ai" "v1beta1" ["ready"; "Ready"])].
Definition vendorOperatorCRKind (vendor : string) : string :=
  match vendorOperatorSignatures !! vendor with
  | Some sig => match groupKinds sig with (_, kind) :: _ => kind | [] => "" end
  | None => ""
  end.
Definition listKindFor (vendor : string) : string :=
  let kind := vendorOperatorCRKind vendor in if bool_decide (kind = "") then "" else kind +:+ "List".
Inductive vendorOperatorState :=
| OpNoProbe | OpBlocked | OpNotFound
| OpFound (name state : string) (ready : bool).
Definition is_forbidden (e : GoErr) : bool := bool_decide (err_kind e = KForbidden).
Definition readVendorOperatorState (vendor : string) : IO vendorOperatorState :=
  match vendorOperatorStatusProbes !! vendor with
  | None => mret OpNoProbe
  | Some probe =>
      if negb api_reader then mret OpNoProbe
      else
        r ← try (operator_list (Vp_group probe) (Vp_version probe) (listKindFor vendor));
        match r with
        | inr e => if is_not_found e || is_no_match e || is_forbidden e then mret OpBlocked else throw e
        | inl items =>
            match sort_on fst items with
            | [] => mret OpNotFound
            | (name, state) :: _ => mret (OpFound name state (bool_decide (state ∈ Vp_readyValues probe)))
            end
        end
  end.
Definition vendorOperatorReadyConditionType (vendor : string) : option string :=
  if bool_decide (vendor = "nvidia") then Some "NvidiaOperatorReady"
  else if bool_decide (vendor = "rebellions") then Some "RebellionsOperatorReady"
  else if bool_decide (vendor = "tenstorrent") then Some "TenstorrentOperatorReady"
  else None.
(** Status, reason and message of the report. *)
Definition operator_report (vendor : string) (st : vendorOperatorState + GoErr) : string * string * string :=
  let kind := vendorOperatorCRKind vendor in
  match st with
  | inr e => (ConditionUnknown, "StatusProbeUnavailable", vendor +:+ " 상태 조회 오류: " +:+ err_msg e)
  | inl OpNoProbe => (ConditionUnknown, "StatusProbeUnavailable", vendor +:+ " 는 상태 조회 표에 없음")
  | inl OpBlocked => (ConditionUnknown, "StatusProbeUnavailable", kind +:+ " CR 조회가 막힘(CRD 또는 RBAC 확인 필요)")
  | inl OpNotFound => (ConditionUnknown, "NoClusterPolicy", kind +:+ " CR 이 없음")
  | inl (OpFound name state true) => (ConditionTrue, "Ready", kind +:+ " " +:+ name +:+ " status.state=" +:+ state)
  | inl (OpFound name state false) => (ConditionFalse, "NotReady", kind +:+ " " +:+ name +:+ " status.state=" +:+ state)
  end.
Definition setVendorOperatorReadyCondition (p : NPUClusterPolicy) (vendor : string) (present : bool) : IO NPUClusterPolicy :=
  match vendorOperatorReadyConditionType vendor with
  | None => mret p
  | Some readyType =>
      let prev := condition_status p readyType in
      '(status, reason, msg) ← (if negb present
        then mret (ConditionUnknown, "NotDetected", vendor +:+ " operator 가 감지되지 않아 상태 조회를 생략함")
        else st ← try (readVendorOperatorState vendor); mret (operator_report vendor st));
      p ← set_condition readyType status reason msg p;
      _ ← (if bool_decide (status = ConditionTrue) && negb (bool_decide (prev = ConditionTrue)) then emit "Normal" "VendorOperatorReady" msg
           else if bool_decide (status = ConditionFalse) && negb (bool_decide (prev = ConditionFalse))
                then emit "Warning" "VendorOperatorNotReady" msg else mret ());
      mret p
  end.
Definition detectVendorOperator (p : NPUClusterPolicy) (managed : bool) (vendor : string) : IO NPUClusterPolicy :=
  match vendorOperatorSignatures !! vendor with
  | None => mret p
  | Some sig =>
      '(mapping, presence) ← vendorOperatorMapping vendor;
      let prev := condition_status p (conditionType sig) in
      confirmed ← match mapping with
                  | Some mapping => if managed && api_reader then vendorOperatorCRDConfirmed mapping else mret true
                  | None => mret true
                  end;
      let present := match mapping with Some _ => confirmed | None => false end in
      p ← setVendorOperatorReadyCondition p vendor present;
      if managed && present then
        p ← set_condition (conditionType sig) ConditionTrue (detectedReason sig) (detectedMessage sig) p;
        _ ← (if bool_decide (prev = ConditionTrue) then mret () else emit "Warning" (conditionType sig) (detectedMessage sig));
        mret p
      else
        let '(reason, msg) := match mapping with
          | Some mapping => if negb confirmed
              then ("OperatorCRDRemoved", crd_name mapping +:+ " CRD 가 제거됨 — 재확인 결과 조건을 False 로 되돌림")
              else ("NotDetected", absentMessage sig)
          | None => ("NotDetected", absentMessage sig)
          end in
        p ← set_condition (conditionType sig) ConditionFalse reason msg p;
        _ ← (if negb confirmed && bool_decide (prev = ConditionTrue) then emit "Normal" (conditionType sig) msg else mret ());
        mret p
  end.
Definition detectNvidiaGPUOperator (p : NPUClusterPolicy) : IO NPUClusterPolicy :=
  detectVendorOperator p (Nv_Enabled (Nvidia p) && IsOperatorOwned (Nv_Management (Nvidia p))) "nvidia".
Definition detectRebellionsOperator (p : NPUClusterPolicy) : IO NPUClusterPolicy :=
  detectVendorOperator p (Rbl_Enabled (Rebellions p) && IsOperatorOwned (Rbl_Management (Rebellions p))) "rebellions".
Definition detectTenstorrentOperator (p : NPUClusterPolicy) : IO NPUClusterPolicy :=
  detectVendorOperator p (Tt_Enabled (Tenstorrent p) && IsOperatorOwned (Tt_Management (Tenstorrent p))) "tenstorrent".
Definition warn_absent (vc : string * bool) : IO () :=
  if negb vc.2 then mret ()
  else
    presence ← DetectVendorOperator vc.1;
    match presence with
    | PresenceAbsent =>
        emit "Warning" "DelegatedOperatorAbsent"
          (vc.1 +:+ ".managementMode=delegated 인데 벤더 operator 를 감지하지 못했다(Absent) — kcloud 는 배포하지 않으므로 이 벤더는 광고 주체가 없다. 벤더 operator 를 설치하거나 managed 로 전환한다")
    | _ => mret ()
    end.
Definition warnDelegatedOperatorAbsent (p : NPUClusterPolicy) : IO () :=
  for_each warn_absent [("nvidia", IsDelegated (Nv_Management (Nvidia p))); ("furiosa", IsDelegated (Fu_Management (Furiosa p)));
    ("rebellions", IsDelegated (Rbl_Management (Rebellions p))); ("tenstorrent", IsDelegated (Tt_Management (Tenstorrent p)))].

(** ** The pass *)

Definition ownedScanNamespaces : list string :=
  if bool_decide (operator_namespace = kube_system) then [kube_system] else [kube_system; operator_namespace].
Definition isDevicePluginResource (name : string) : bool := str_contains name "device-plugin".
Definition cleanup_namespace (p : NPUClusterPolicy) (ns : string) : IO () :=
  dss ← ds_list ns;
  _ ← for_each (λ ds, if bool_decide (mget "" (Ods_Annotations ds) ownerAnnotation = owner_value p)
                          && negb (isDevicePluginResource (Ods_Name ds))
                       then unless_missing (ds_delete (Ods_Namespace ds) (Ods_Name ds)) else mret ()) dss;
  cms ← cm_list ns;
  for_each (λ cm, if bool_decide (mget "" (Cm_Annotations cm) ownerAnnotation = owner_value p)
                     && negb (isDevicePluginResource (Cm_Name cm))
                  then unless_missing (cm_delete (Cm_Namespace cm) (Cm_Name cm)) else mret ()) cms.
Definition cleanupOwnedResources (p : NPUClusterPolicy) : IO () :=
  _ ← for_each (cleanup_namespace p) ownedScanNamespaces;
  _ ← reclaimDRANodeLabels p;
  reconcileNodeExclusionLabels None.

Definition draRequeue (p : NPUClusterPolicy) : Z :=
  if existsb (λ d, bool_decide (Drs_Phase d = DRAPhaseInstalling)) (Nps_DRADrivers (Ncp_Status p)) then 30 * second else 0.
(** The vendors without a data plane of ours: external and delegated. *)
Definition nonOperandVendorNames (p : NPUClusterPolicy) : list string * list string :=
  let vendors := [(vendorNvidia, Nv_Enabled (Nvidia p), Nv_Management (Nvidia p));
                  (vendorFuriosa, Fu_Enabled (Furiosa p) || Rg_Enabled (Rngd p), Fu_Management (Furiosa p));
                  (vendorRebellions, Rbl_Enabled (Rebellions p), Rbl_Management (Rebellions p));
                  (vendorTenstorrent, Tt_Enabled (Tenstorrent p), Tt_Management (Tenstorrent p))] in
  (omap (λ v : string * bool * ManagementSpec, if v.1.2 && IsExternal v.2 then Some v.1.1 else None) vendors,
   omap (λ v : string * bool * ManagementSpec, if v.1.2 && negb (IsExternal v.2) && IsDelegated v.2 then Some v.1.1 else None) vendors).
Definition nonOperandReadyMessage (external delegated : list string) : string :=
  let group what l := if 0 <? Z.of_nat (length l) then [what +:+ ": " +:+ join ", " l] else [] in
  "no data plane deployed for vendors observed only (" +:+ join "; " (group "external" external ++ group "delegated" delegated) +:+ ")".
Definition ready_reason (p : NPUClusterPolicy) : string * string :=
  let (ext, del) := nonOperandVendorNames p in
  if 0 <? Z.of_nat (length ext) + Z.of_nat (length del) then ("ExternalManaged", nonOperandReadyMessage ext del)
  else ("AllResourcesReady", "All resources reconciled successfully").

Definition nvidia_step (p : NPUClusterPolicy) : IO () :=
  let owned := IsOperatorOwned (Nv_Management (Nvidia p)) in
  if Nv_Enabled (Nvidia p) && owned then
    or_not_ready p "ReconcileFailed" (failed_to "ensure" "NvidiaDevicePlugin") "NvidiaDevicePluginFailed" (ensureNvidiaDevicePlugin p)
  else if owned then
    for_each (λ ds : string * string, removing p ds.1 ds.2 (deleteOwnedDaemonSetIfExists ds.1 p))
      [(DevicePluginNameMixed, "NvidiaDevicePluginMixedRemoveFailed"); (DevicePluginNameFlat, "NvidiaDevicePluginFlatRemoveFailed")]
  else mret ().
Definition rebellions_step (p : NPUClusterPolicy) : IO () :=
  let owned := IsOperatorOwned (Rbl_Management (Rebellions p)) in
  if Rbl_Enabled (Rebellions p) && owned then
    for_each (λ step : string * IO (), ensuring p step.1 step.2)
      [("RebellionsNamespace", ensureRbllnsNamespace p); ("RebellionsServiceAccount", ensureRbllnsServiceAccount p);
       ("RebellionsRBAC", ensureRbllnsRBAC p); ("RebellionsConfigMap", ensureRbllnsConfigMap p);
       ("RebellionsDevicePlugin", ensureRebellionsDevicePlugin p)]
  else if owned then
    removing p rbllnsDaemonSetName "RebellionsDevicePluginRemoveFailed"
      (deleteOwnedDaemonSetInIfExists (rbllnsResolveNamespace p) rbllnsDaemonSetName p)
  else mret ().
Definition tenstorrent_step (p : NPUClusterPolicy) : IO () :=
  let owned := IsOperatorOwned (Tt_Management (Tenstorrent p)) in
  if Tt_Enabled (Tenstorrent p) && owned then ensuring p "TenstorrentDevicePlugin" (ensureTenstorrentDevicePlugin p)
  else if owned then
    removing p ttDaemonSetName "TenstorrentDevicePluginRemoveFailed"
      (deleteOwnedDaemonSetInIfExists operator_namespace ttDaemonSetName p)
  else mret ().
Definition finish (p : NPUClusterPolicy) : IO Z :=
  let (reason, msg) := ready_reason p in
  p ← detectNvidiaGPUOperator p;
  p ← detectRebellionsOperator p;
  p ← detectTenstorrentOperator p;
  p ← detectDualAdvertisement p;
  _ ← warnDelegatedOperatorAbsent p;
  p ← setReadyCondition ConditionTrue reason msg p;
  _ ← emit "Normal" "Reconciled" "Successfully reconciled all resources";
  mret (draRequeue p).
Definition operate (p : NPUClusterPolicy) : IO Z :=
  _ ← or_not_ready p "ReconcileFailed" (failed_to "ensure" "kcloud-node-manager") "DetectorFailed" (ensureDetector p);
  p ← syncNodeLabels p;
  _ ← nvidia_step p;
  p ← ensureSideOperands p;
  _ ← reconcileFuriosaDevicePlugins p;
  _ ← rebellions_step p;
  _ ← tenstorrent_step p;
  finish p.
Definition has_finalizer (p : NPUClusterPolicy) : bool := contains_string (Ncp_Finalizers p) finalizerName.
Definition Reconcile (namespace name : string) : IO Z :=
  r ← try (ncp_get namespace name);
  match r with
  | inr e => if is_not_found e then mret 0 else throw e
  | inl p =>
      if Ncp_Deleting p then
        if has_finalizer p then
          _ ← cleanupOwnedResources p;
          _ ← ncp_update (ncp_finalizers (filter (λ f, f ≠ finalizerName) (Ncp_Finalizers p)) p);
          mret 0
        else mret 0
      else
        p ← (if has_finalizer p then mret p else ncp_update (ncp_finalizers (Ncp_Finalizers p ++ [finalizerName]) p));
        operate p
  end.
End Pass.
