(* ===== verification/ClusterPolicySafety.v ===== *)
(** * The cluster policy: where its pods may run, and everything a pass may write

    The nodes each rendered DaemonSet stays off ([off_limits]), the writes of a pass with
    the object each is about ([NcpWrite], [ncp_allowed]), the handover of a node between
    the two ways a device is advertised, and the status of the DRA drivers. *)

From S2P Require Import Prelude GoStrings GoTime GoText Naming ApiTypes PolicyTypes HealthController IntentResources IntentSnapshot UpgradeTypes UpgradeNode PartitionTypes Quiescer SharingConfig RngdBackend PartitionPass PodSpec ClusterPolicy DevicePlugins DraDriver ClusterPolicyPass.

(** ** Where the pods may run *)

Section Limits.
Context `{LabelSelectors} `{Environment}.
Definition base_keys : list string := [driverUpgradingBlockingLabelKey; controlPlaneNodeLabel; masterNodeLabel].
(** For each DaemonSet: labels whose nodes it stays off, and selectors of nodes it
    leaves out. *)
Definition limits (p : NPUClusterPolicy) : list (string * (list string * list (option LabelSelector))) :=
  let plugin vendors sels := (base_keys ++ (DRAOwnedNodeLabel <$> vendors), sels) in
  let driver vendors := ([controlPlaneNodeLabel; masterNodeLabel] ++ (DRARetiredNodeLabel <$> vendors), []) in
  [(detectorServiceAccountName, ([driverUpgradingBlockingLabelKey], []));
   (dcgmExporterDSName, (base_keys, []));
   (DevicePluginNameMixed, plugin [vendorNvidia] [Nv_ExcludeNodeSelector (Nvidia p)]);
   (DevicePluginNameFlat, plugin [vendorNvidia] [Nv_ExcludeNodeSelector (Nvidia p)]);
   (furiosaWarboyDSName, plugin [vendorFuriosa] [Fu_ExcludeNodeSelector (Furiosa p)]);
   (furiosaRngdDSName, plugin [vendorRngd] [Rg_ExcludeNodeSelector (Rngd p)]);
   (furiosaUnifiedDSName, plugin [vendorFuriosa; vendorRngd] [Fu_ExcludeNodeSelector (Furiosa p); Rg_ExcludeNodeSelector (Rngd p)]);
   (ttDaemonSetName, plugin [vendorTenstorrent] [Tt_ExcludeNodeSelector (Tenstorrent p)]);
   (rbllnsDaemonSetName, plugin [vendorRebellions] [Rbl_ExcludeNodeSelector (Rebellions p)]);
   (draDSNameFuriosa, driver [vendorFuriosa; vendorRngd]);
   (draDSNameNvidia, driver [vendorNvidia]);
   (draDSNameRebellions, driver [vendorRebellions]);
   (draDSNameTenstorrent, driver [vendorTenstorrent])].
Definition off_limits `{Scheduler} (p : NPUClusterPolicy) (ds : ODaemonSet) : Prop :=
  Ods_Annotations ds !! ownerAnnotation = Some (owner_value p) ∧
  ∃ keys sels, (Ods_Name ds, (keys, sels)) ∈ limits p ∧ keeps_off keys (ods_pod ds) ∧
    ∀ sel labels, sel ∈ sels → may_run (ods_pod ds) labels → excluded_by sel labels = false.

(** The same, by the requirements that are in every term. *)
Definition limited (p : NPUClusterPolicy) (ds : ODaemonSet) : Prop :=
  Ods_Annotations ds !! ownerAnnotation = Some (owner_value p) ∧
  ∃ keys sels, (Ods_Name ds, (keys, sels)) ∈ limits p ∧ Forall (λ k, demands (absent k) (ods_pod ds)) keys ∧
    Forall (λ sel, Forall (λ c, demands c (ods_pod ds)) (omap not_condition (exclusionConditions sel).1)) sels.
Lemma limited_off_limits `{!SelectorLaws, SchedulerLaws} p ds : limited p ds → off_limits p ds.
Proof.
  intros (Ho & keys & sels & Hin & Hk & Hs). split; [done|]. exists keys, sels. split_and!; [done|by apply keeps_off_demands|].
  intros sel labels Hsel Hrun. apply not_excluded_iff. rewrite Forall_forall in Hs. specialize (Hs sel Hsel).
  apply (Forall_impl _ _ _ Hs). intros c Hc. by apply (demands_hold _ _ _ Hrun).
Qed.
(** Nothing that is put back touches the affinity. *)
Lemma limited_keeps p ds ds' : Ods_Name ds' = Ods_Name ds → Ods_Annotations ds' !! ownerAnnotation = Ods_Annotations ds !! ownerAnnotation →
  Ps_Affinity (ods_pod ds') = Ps_Affinity (ods_pod ds) → limited p ds → limited p ds'.
Proof.
  intros Hn Ha Hp. unfold limited, demands, required_terms. by rewrite Hn, Ha, Hp.
Qed.

Lemma demands_exclude_all c sels s : (∃ sel, sel ∈ sels ∧ c ∈ omap not_condition (exclusionConditions sel).1) ∨ demands c s →
  demands c (foldl (λ s sel, applyExcludeNodeSelector sel s) s sels).
Proof.
  revert s. induction sels as [|sel sels IH]; intros s Hc; simpl.
  - destruct Hc as [(sel & ?%elem_of_nil & _)|]; done.
  - apply IH. destruct Hc as [(sel' & [->|Hsel]%elem_of_cons & Hc)|Hc]; [right|left; by exists sel'|right];
      apply demands_exclude; [by left|by right].
Qed.
Lemma demands_owned_all c vendors s : (∃ v, v ∈ vendors ∧ c = absent (DRAOwnedNodeLabel v)) ∨ demands c s →
  demands c (foldl (λ s v, excludeDRAOwnedNodes v s) s vendors).
Proof.
  revert s. induction vendors as [|v vendors IH]; intros s Hc; simpl.
  - destruct Hc as [(v & ?%elem_of_nil & _)|]; done.
  - apply IH. destruct Hc as [(v' & [->|Hv]%elem_of_cons & Hc)|Hc]; [right|left; by exists v'|right]; apply demands_append; [left|by right].
    by apply list_elem_of_singleton.
Qed.
Lemma narrow_demands p vendors sels s :
  Forall (λ k, demands (absent k) (narrow p vendors sels s)) (base_keys ++ (DRAOwnedNodeLabel <$> vendors)) ∧
  Forall (λ sel, Forall (λ c, demands c (narrow p vendors sels s)) (omap not_condition (exclusionConditions sel).1)) sels.
Proof.
  unfold narrow. split.
  - apply Forall_forall. intros k Hk. apply demands_secrets, demands_exclude_all. right.
    apply elem_of_app in Hk as [Hk|(v & -> & Hv)%list_elem_of_fmap]; [unfold base_keys in Hk|].
    + rewrite !elem_of_cons, elem_of_nil in Hk. destruct Hk as [->|[->|[->|[]]]].
      * apply demands_old, demands_owned_all. right. apply demands_new. by left.
      * apply demands_new. by left.
      * apply demands_new. right. by left.
    + apply demands_old, demands_owned_all. left. by exists v.
  - apply Forall_forall. intros sel Hsel. apply Forall_forall. intros c Hc. apply demands_secrets, demands_exclude_all. left. by exists sel.
Qed.

Lemma owner_set p ds : Ods_Annotations (setOwnerAnnotation p ds) !! ownerAnnotation = Some (owner_value p).
Proof. apply lookup_insert_eq. Qed.
(** The plugins that end with [narrow]. *)
Lemma narrowed_limited p ns name labels vendors sels pod :
  (name, (base_keys ++ (DRAOwnedNodeLabel <$> vendors), sels)) ∈ limits p →
  limited p (setOwnerAnnotation p (daemonset ns name labels labels ∅ (narrow p vendors sels pod))).
Proof.
  intros Hin. split; [apply owner_set|]. exists (base_keys ++ (DRAOwnedNodeLabel <$> vendors)), sels.
  split; [done|]. apply narrow_demands.
Qed.
Ltac in_table := unfold limits; repeat (first [by left|right]).
Lemma warboy_limited p : limited p (warboy_plugin p).
Proof. apply narrowed_limited. in_table. Qed.
Lemma rngd_limited p policy : limited p (rngd_plugin p policy).
Proof. apply narrowed_limited. in_table. Qed.
Lemma unified_limited p : limited p (unified_plugin p).
Proof. apply narrowed_limited. in_table. Qed.
Lemma tenstorrent_limited p : limited p (tenstorrent_plugin p).
Proof. apply narrowed_limited. in_table. Qed.
Lemma rebellions_limited p : limited p (rebellions_plugin p).
Proof. apply narrowed_limited. in_table. Qed.
Lemma nvidia_limited p name mixed : name ∈ [DevicePluginNameMixed; DevicePluginNameFlat] → limited p (nvidia_plugin p name mixed).
Proof.
  intros Hname. split; [apply owner_set|].
  exists (base_keys ++ (DRAOwnedNodeLabel <$> [vendorNvidia])), [Nv_ExcludeNodeSelector (Nvidia p)]. split_and!.
  - rewrite !elem_of_cons, elem_of_nil in Hname. destruct Hname as [->|[->|[]]]; in_table.
  - unfold nvidia_plugin, ods_pod. simpl. unfold base_keys. simpl.
    repeat apply Forall_cons_2; [| | | |apply Forall_nil_2]; apply demands_secrets, demands_exclude; right.
    + apply demands_old, demands_new. by left.
    + apply demands_new. by left.
    + apply demands_new. right. by left.
    + apply demands_old, demands_old, demands_new. by left.
  - apply Forall_singleton, Forall_forall. intros c Hc. apply demands_secrets, demands_exclude. by left.
Qed.
Lemma detector_limited p image secrets : limited p (setOwnerAnnotation p (renderDetectorDS image secrets)).
Proof.
  split; [apply owner_set|]. exists [driverUpgradingBlockingLabelKey], []. split_and!; [in_table| |done].
  apply Forall_singleton, demands_secrets, demands_new. by left.
Qed.
Lemma dcgm_limited p : limited p (dcgm_exporter p).
Proof.
  split; [apply owner_set|]. exists base_keys, []. split_and!; [in_table| |done]. unfold base_keys.
  repeat apply Forall_cons_2; [| | |apply Forall_nil_2]; apply demands_secrets.
  - apply demands_old, demands_new. by left.
  - apply demands_new. by left.
  - apply demands_new. right. by left.
Qed.

(** The DaemonSet of a driver, as [reconcileOneDRADriver] sends it. *)
Definition driver_sent (p : NPUClusterPolicy) (ds : ODaemonSet) : ODaemonSet :=
  on_pod (λ s, applyImagePullSecrets (Np_ImagePullSecrets (Ncp_Spec p)) (applyControlPlaneExclusion s)) (setOwnerAnnotation p ds).
Lemma driver_limited p ds vendors :
  (Ods_Name ds, ([controlPlaneNodeLabel; masterNodeLabel] ++ (DRARetiredNodeLabel <$> vendors), [])) ∈ limits p →
  Forall (λ v, demands (absent (DRARetiredNodeLabel v)) (ods_pod ds)) vendors → limited p (driver_sent p ds).
Proof.
  intros Hin Hv. split; [apply owner_set|].
  exists ([controlPlaneNodeLabel; masterNodeLabel] ++ (DRARetiredNodeLabel <$> vendors)), []. split_and!; [done| |done].
  apply Forall_app. split.
  - repeat apply Forall_cons_2; [| |apply Forall_nil_2]; apply demands_secrets, demands_new; [by left|right; by left].
  - apply Forall_fmap. apply (Forall_impl _ _ _ Hv). intros v Hd. by apply demands_secrets, demands_old.
Qed.
Lemma furiosa_driver_limited p spec : limited p (driver_sent p (renderFuriosaDRADaemonSet spec)).
Proof.
  apply (driver_limited p _ [vendorFuriosa; vendorRngd]); [in_table|].
  apply Forall_cons_2; [|apply Forall_singleton]; [apply demands_old|]; apply demands_new; by left.
Qed.
Lemma nvidia_driver_limited p spec : limited p (driver_sent p (renderNvidiaDRADaemonSet spec)).
Proof. apply (driver_limited p _ [vendorNvidia]); [in_table|]. apply Forall_singleton, demands_new. by left. Qed.
Lemma rebellions_driver_limited p spec : limited p (driver_sent p (renderRebellionsDRADaemonSet spec)).
Proof. apply (driver_limited p _ [vendorRebellions]); [in_table|]. apply Forall_singleton, demands_new. by left. Qed.
Lemma tenstorrent_driver_limited p spec : limited p (driver_sent p (renderTenstorrentDRADaemonSet spec)).
Proof. apply (driver_limited p _ [vendorTenstorrent]); [in_table|]. apply Forall_singleton, demands_new. by left. Qed.
Lemma rendered_limited p v render ds : v ∈ draVendors p → Dv_render v = Some render → DraDaemonSet ds ∈ render p →
  limited p (driver_sent p ds).
Proof.
  unfold draVendors. rewrite !elem_of_app.
  destruct (Rg_DRA (Rngd p)) as [s1|], (Nv_DRA (Nvidia p)) as [s2|], (Rbl_DRA (Rebellions p)) as [s3|], (Tt_DRA (Tenstorrent p)) as [s4|];
    rewrite ?elem_of_nil, ?list_elem_of_singleton; intros Hv Er Hds;
    repeat (destruct Hv as [Hv|Hv]; [try done|]); try done; subst v; injection Er as <-;
    unfold renderFuriosaDRADriver, renderNvidiaDRADriver, renderRebellionsDRADriver, renderTenstorrentDRADriver, dra_identity, nvidia_device_class in Hds;
    simpl in Hds; rewrite ?elem_of_cons, ?elem_of_nil in Hds;
    repeat (destruct Hds as [Hds|Hds]; [try discriminate Hds|]); try done; injection Hds as ->;
    auto using furiosa_driver_limited, nvidia_driver_limited, rebellions_driver_limited, tenstorrent_driver_limited.
Qed.
(** The two settings of another writer that are put back. *)
Lemma preserve_sharing_limited p live ds : limited p ds → limited p (preserveNvidiaSharing live ds).
Proof.
  unfold preserveNvidiaSharing. destruct (Ods_Annotations live !! SharingOwnerAnnotation); [|done].
  apply limited_keeps; [done| |done]. simpl. by rewrite lookup_insert_ne.
Qed.
Lemma preserve_env_limited p live ds : limited p ds → limited p (preserve_partition_env live ds).
Proof.
  unfold preserve_partition_env. destruct (Ods_Annotations live !! PartitionOwnerAnnotation); [|done].
  destruct (bool_decide (unifiedEnvValue _ _ = "")); (apply limited_keeps; [done| |done]); simpl; by rewrite lookup_insert_ne.
Qed.
End Limits.

(** ** The writes of a pass *)

Inductive NcpWrite :=
| WNcp (p : NPUClusterPolicy)
| WNcpStatus (p : NPUClusterPolicy)
| WNcpPatch (p q : NPUClusterPolicy)
| WNodeLabels (n n' : Node)
| WDsCreate (ds : ODaemonSet)
| WDsUpdate (ds : ODaemonSet)
| WDsDelete (ns name : string)
| WCmCreate (cm : ConfigMap)
| WCmUpdate (cm : ConfigMap)
| WCmDelete (ns name : string)
| WSaCreate (sa : ServiceAccount)
| WSaUpdate (sa : ServiceAccount)
| WNsCreate (n : KNamespace)
| WNsUpdate (n : KNamespace)
| WRoleCreate (r : ClusterRole)
| WRoleUpdate (r : ClusterRole)
| WBindingCreate (b : ClusterRoleBinding)
| WBindingUpdate (b : ClusterRoleBinding)
| WDraCreate (o : DRAObject)
| WDraUpdate (o : DRAObject)
| WDraDelete (o : DRAObject).

Section Writes.
Context {W : Type} `{UpgradeAPI W, IntentAPI W, ClusterAPI W, Clock W} `{MapRange} `{LabelSelectors} `{Environment} `{Scheduler}.
Definition sent_ncp (x : NcpWrite) (w : W) : W :=
  match x with
  | WNcp p => (ncp_update p w).2
  | WNcpStatus p => (ncp_status_update p w).2
  | WNcpPatch p q => (ncp_status_patch p q w).2
  | WNodeLabels n n' => (labels_patch n n' w).2
  | WDsCreate ds => (ds_create ds w).2
  | WDsUpdate ds => (ds_update ds w).2
  | WDsDelete ns name => (ds_delete ns name w).2
  | WCmCreate cm => (cm_create cm w).2
  | WCmUpdate cm => (cm_update cm w).2
  | WCmDelete ns name => (cm_delete ns name w).2
  | WSaCreate sa => (sa_create sa w).2
  | WSaUpdate sa => (sa_update sa w).2
  | WNsCreate n => (ns_create n w).2
  | WNsUpdate n => (ns_update n w).2
  | WRoleCreate r => (role_create r w).2
  | WRoleUpdate r => (role_update r w).2
  | WBindingCreate b => (binding_create b w).2
  | WBindingUpdate b => (binding_update b w).2
  | WDraCreate o => (dra_create o w).2
  | WDraUpdate o => (dra_update o w).2
  | WDraDelete o => (dra_delete o w).2
  end.


(** What a pass knows as its policy: what the API answered with, and its own changes to
    the status. *)
Inductive seen (I : W → Prop) (namespace name : string) : NPUClusterPolicy → Prop :=
| seen_get p : answers I (ncp_get namespace name) p → seen I namespace name p
| seen_update p fs q : seen I namespace name p → answers I (ncp_update (ncp_finalizers fs p)) q → seen I namespace name q
| seen_status_update p q : seen I namespace name p → answers I (ncp_status_update p) q → seen I namespace name q
| seen_status_patch p s q : seen I namespace name p → answers I (ncp_status_patch p (ncp_status s p)) q → seen I namespace name q
| seen_status p s : seen I namespace name p → seen I namespace name (ncp_status s p).
(** A node as it was listed, or as a write of its labels left it. *)
Inductive node_seen (I : W → Prop) : Node → Prop :=
| node_listed n nodes : answers I UpgradeTypes.node_list nodes → n ∈ nodes → node_seen I n
| node_patched n n' m : node_seen I n → answers I (labels_patch n n') m → node_seen I m.
Definition relabelled (f : gmap string string → gmap string string) (n n' : Node) : Prop := n' = node_labels f n.

(** The node may be given to DRA: the vendor's devices are there, the policy asks for it,
    its own driver publishes them, and no Pod holds one. *)
Definition handover (I : W → Prop) (p : NPUClusterPolicy) (vendor : string) (n : Node) : Prop :=
  ∃ adv sel n0 dra, advertiseVendors p !! vendor = Some adv ∧ AdvertisedBy adv = AdvertiseByDRA
  ∧ advertise_selector vendor adv = inl sel ∧ sel (Node_Labels n0) = true ∧ vendor_present vendor n0 = true
  ∧ (n = n0 ∨ ∃ f, answers I (labels_patch n0 (node_labels f n0)) n)
  ∧ answers I LoadDRACapability dra
  ∧ mget 0 (mget ∅ (Dra_SlicesByNodeDriver dra) (Node_Name n)) (advertiseVendorDriverName vendor) ≠ 0
  ∧ answers I (DeviceHoldingPods (advertiseQuiescer vendor) (Node_Name n)) [].
Inductive label_write (I : W → Prop) (p : NPUClusterPolicy) (n n' : Node) : Prop :=
| lw_excluded labels : exclusion_labels n (Some p) = Some labels → relabelled (λ _, labels) n n' → label_write I p n n'
| lw_retired vendor : is_Some (advertiseVendors p !! vendor) → vendorIsOperatorOwned p vendor = true →
    relabelled <[DRARetiredNodeLabel vendor := labelValueTrue]> n n' ∨ relabelled (delete (DRARetiredNodeLabel vendor)) n n' →
    label_write I p n n'
| lw_give vendor : vendorIsOperatorOwned p vendor = true → handover I p vendor n →
    relabelled <[DRAOwnedNodeLabel vendor := labelValueTrue]> n n' → label_write I p n n'
| lw_take vendor : is_Some (advertiseVendors p !! vendor) → vendorIsOperatorOwned p vendor = true →
    relabelled (delete (DRAOwnedNodeLabel vendor)) n n' → label_write I p n n'
| lw_reclaim : Ncp_Deleting p = true → relabelled (λ m, foldl (λ m k, delete k m) m (dra_label_keys p)) n n' → label_write I p n n'
| lw_forget labels : Ncp_Deleting p = true → exclusion_labels n None = Some labels → relabelled (λ _, labels) n n' → label_write I p n n'.

(** Objects that are this policy's by the annotation, as read. *)
Definition mine (p : NPUClusterPolicy) (annotations : gmap string string) : Prop :=
  mget "" annotations ownerAnnotation = owner_value p.
(** Names that only kcloud ever used, deleted without a look. *)
Definition own_names : list (string * string) :=
  [(operator_namespace, furiosaRngdV0727DSName); (kube_system, furiosaUnifiedLegacyDSName); (furiosaUnifiedDSNamespace, furiosaUnifiedDSName)].
Definition own_maps (p : NPUClusterPolicy) : list ConfigMap :=
  [furiosa_configmap p furiosaVendorDSNamespace; furiosa_configmap p furiosaUnifiedDSNamespace; rbllns_configmap p].
Definition own_accounts (p : NPUClusterPolicy) : list ServiceAccount :=
  [mkServiceAccount operator_namespace detectorServiceAccountName {[ ownerAnnotation := owner_value p ]} (Np_ImagePullSecrets (Ncp_Spec p));
   mkServiceAccount (rbllnsResolveNamespace p) rbllnsServiceAccountName {[ ownerAnnotation := owner_value p ]} (Np_ImagePullSecrets (Ncp_Spec p))].
(** The objects of a driver the policy declares for a vendor that is kcloud's. *)
Definition driver_object (p : NPUClusterPolicy) (enabled : bool) (o : DRAObject) : Prop :=
  ∃ v render, v ∈ draVendors p ∧ vendorIsOperatorOwned p (Dv_name v) = true ∧ Ds_Enabled (Dv_spec v) = enabled
  ∧ Dv_render v = Some render ∧ o ∈ render p.
Definition ncp_allowed (I : W → Prop) (p : NPUClusterPolicy) (x : NcpWrite) : Prop :=
  match x with
  | WNcp q => if Ncp_Deleting p then q = ncp_finalizers (filter (λ f, f ≠ finalizerName) (Ncp_Finalizers p)) p
              else has_finalizer p = false ∧ q = ncp_finalizers (Ncp_Finalizers p ++ [finalizerName]) p
  | WNcpStatus q => q = p
  | WNcpPatch q q' => q = p ∧ ∃ s, q' = ncp_status s p
  | WNodeLabels n n' => node_seen I n ∧ label_write I p n n'
  | WDsCreate ds => off_limits p ds
  | WDsUpdate ds => ∃ cur want, answers I (ds_get (Ods_Namespace want) (Ods_Name want)) cur ∧ Ods_Deleting cur = false ∧ off_limits p want ∧
      ds = mkODaemonSet (Ods_Namespace cur) (Ods_Name cur) (Ods_Labels want) (Ods_Annotations want) false (Ods_Spec want)
  | WDsDelete ns name => (ns, name) ∈ own_names ∨
      (∃ ds ns' name', answers I (ds_get ns' name') ds ∧ mine p (Ods_Annotations ds) ∧ ns = Ods_Namespace ds ∧ name = Ods_Name ds) ∨
      (Ncp_Deleting p = true ∧ isDevicePluginResource name = false ∧ ∃ ds ns' dss, answers I (ds_list ns') dss ∧ ds ∈ dss
         ∧ mine p (Ods_Annotations ds) ∧ ns = Ods_Namespace ds ∧ name = Ods_Name ds)
  | WCmCreate cm => cm ∈ own_maps p
  | WCmUpdate cm => ∃ cur want ns name, answers I (cm_get ns name) cur ∧ want ∈ own_maps p
      ∧ cm = mkConfigMap (Cm_Name cur) (Cm_Namespace cur) (Cm_Annotations cur) (Cm_Data want)
  | WCmDelete ns name => (ns = furiosaUnifiedDSNamespace ∧ name = Fu_ConfigMapName (Furiosa p)) ∨
      (Ncp_Deleting p = true ∧ isDevicePluginResource name = false ∧ ∃ cm ns' cms, answers I (cm_list ns') cms ∧ cm ∈ cms
         ∧ mine p (Cm_Annotations cm) ∧ ns = Cm_Namespace cm ∧ name = Cm_Name cm)
  | WSaCreate sa => sa ∈ own_accounts p
  | WSaUpdate sa => ∃ cur ns name, answers I (sa_get ns name) cur
      ∧ sa = mkServiceAccount (Sa_Namespace cur) (Sa_Name cur) (Sa_Annotations cur) (Np_ImagePullSecrets (Ncp_Spec p))
  | WNsCreate n => system_namespace (Kn_Name n) = false ∧ n = mkNamespace (rbllnsResolveNamespace p) psa_labels {[ ownerAnnotation := owner_value p ]}
  | WNsUpdate n => system_namespace (rbllnsResolveNamespace p) = false ∧ ∃ cur, answers I (ns_get (rbllnsResolveNamespace p)) cur
      ∧ n = mkNamespace (Kn_Name cur) (psa_labels ∪ Kn_Labels cur) (Kn_Annotations cur)
  | WRoleCreate r => r = mkClusterRole rbllnsClusterRoleName {[ ownerAnnotation := owner_value p ]} rbllns_rules
  | WRoleUpdate r => ∃ cur, answers I (role_get rbllnsClusterRoleName) cur ∧ r = mkClusterRole (Cr_Name cur) (Cr_Annotations cur) rbllns_rules
  | WBindingCreate b => b = mkBinding rbllnsClusterRoleName {[ ownerAnnotation := owner_value p ]} rbllnsClusterRoleName (rbllns_subjects p)
  | WBindingUpdate b => ∃ cur, answers I (binding_get rbllnsClusterRoleName) cur
      ∧ b = mkBinding (Crb_Name cur) (Crb_Annotations cur) (Crb_Role cur) (rbllns_subjects p)
  | WDraCreate o | WDraUpdate o => driver_object p true o ∧ ∀ ds, o ≠ DraDaemonSet ds
  | WDraDelete o => driver_object p false o
  end.

(** [I] survives the reads, the events, and the allowed writes of the policy asked for. *)
Class KeepsNcp (I : W → Prop) (namespace name : string) := {
  kn_get ns n : preserves I (ncp_get ns n);
  kn_nodes : preserves I UpgradeTypes.node_list;
  kn_node n : preserves I (node_get n);
  kn_holding q n : preserves I (DeviceHoldingPods q n);
  kn_classes : preserves I device_class_list;
  kn_slices : preserves I resource_slice_list;
  kn_clock : preserves I read_clock;
  kn_ds ns n : preserves I (ds_get ns n);
  kn_ds_list ns : preserves I (ds_list ns);
  kn_cm ns n : preserves I (cm_get ns n);
  kn_cm_list ns : preserves I (cm_list ns);
  kn_sa ns n : preserves I (sa_get ns n);
  kn_ns n : preserves I (ns_get n);
  kn_role n : preserves I (role_get n);
  kn_binding n : preserves I (binding_get n);
  kn_dra o : preserves I (dra_get o);
  kn_mapping g k : preserves I (rest_mapping g k);
  kn_crd n : preserves I (crd_get n);
  kn_operators g v k : preserves I (operator_list g v k);
  kn_event t r m : ∀ w, I w → I (cluster_event t r m w);
  kn_send x w : I w → (∃ p, seen I namespace name p ∧ ncp_allowed I p x) → I (sent_ncp x w);
}.
End Writes.

Section Effects.
Context {W : Type} `{UpgradeAPI W, IntentAPI W, ClusterAPI W, Clock W} `{MapRange} `{SelectorLaws} `{Environment} `{SchedulerLaws}.
Context (I : W → Prop) (namespace name : string) `{HK : !KeepsNcp I namespace name}.
Notation inv m := (preserves I m).
Notation sn := (seen I namespace name).

Lemma policy_sent p x w : sn p → ncp_allowed I p x → I w → I (sent_ncp x w).
Proof. intros Hp Hx Hw. apply (kn_send (KeepsNcp := HK) x w Hw). eauto. Qed.
Lemma inv_emit t r m : inv (emit t r m).
Proof. intros w Hw. unfold wp. simpl. by apply (kn_event (KeepsNcp := HK)). Qed.
Lemma policy_clock : inv read_clock.
Proof. apply (kn_clock (KeepsNcp := HK)). Qed.
(** Reads whose failure only decides what is said. *)
Lemma inv_read {A B} (m : M W A) (f : A + GoErr → M W B) : inv m → (∀ r, inv (f r)) → inv (r ← try m; f r).
Proof. intros Hm Hf. apply preserves_bind; [by apply preserves_try|done]. Qed.
Lemma inv_unless_missing (m : M W ()) : inv m → inv (unless_missing m).
Proof. intros Hm. apply inv_read; [done|]. intros [|e]; [by intros w|by destruct (is_not_found e); intros w]. Qed.
Lemma inv_logged (m : M W ()) : inv m → inv (logged m).
Proof. intros Hm. apply preserves_bind; [by apply preserves_try|by intros _ w]. Qed.
(** A step that either reads on or gives the error back. *)
Lemma inv_or_create {A B} R (m : M W A) (ok : A → M W B) (miss : GoErr → M W B) :
  gives I R m → (∀ a, R a → inv (ok a)) → (∀ e, inv (miss e)) →
  inv (r ← try m; match r with inr e => if is_not_found e then miss e else throw e | inl a => ok a end).
Proof. intros Hm Hok He. apply (preserves_checked I R); [done..|]. intros e. by destruct (is_not_found e); [|intros w]. Qed.

(** *** Status *)

Lemma gives_set_condition t st r m p : sn p → gives I sn (set_condition t st r m p).
Proof. intros Hp. apply gives_then; [apply policy_clock|]. intros now. apply gives_ret. by apply seen_status. Qed.
Lemma gives_status_update p : sn p → gives I sn (ncp_status_update p).
Proof.
  intros Hp. apply (gives_mono I (answers I (ncp_status_update p))); [|by intros q ?; apply (seen_status_update _ _ _ p)].
  apply preserves_gives. intros w Hw. by apply (policy_sent p (WNcpStatus p)).
Qed.
Lemma gives_ready st r m p : sn p → gives I sn (setReadyCondition st r m p).
Proof.
  intros Hp. apply (gives_bind I sn); [by apply gives_set_condition|]. intros p' Hp'.
  apply (gives_checked I sn); [by apply gives_status_update|..]; intros; by apply gives_ret.
Qed.
Lemma gives_not_ready {A} (R : A → Prop) p ev msg r e : sn p → gives I R (not_ready p ev msg r e).
Proof.
  intros Hp. apply gives_then; [apply inv_emit|intros _]. apply (gives_bind I sn); [by apply gives_ready|by intros q _ w].
Qed.
Lemma inv_not_ready {A} p ev msg r e : sn p → inv (not_ready (A := A) p ev msg r e).
Proof. intros Hp. by apply (gives_preserves I (λ _, True)), gives_not_ready. Qed.
Lemma inv_or_not_ready {A} p ev msg r (m : M W A) : sn p → inv m → inv (or_not_ready p ev msg r m).
Proof. intros Hp Hm. apply inv_read; [done|]. intros [a|e]; [by intros w|by apply inv_not_ready]. Qed.
Lemma gives_or_not_ready {A} R p ev msg r (m : M W A) : sn p → gives I R m → gives I R (or_not_ready p ev msg r m).
Proof.
  intros Hp Hm. apply (gives_checked I R); [done|by intros a ?; apply gives_ret|]. intros e.
  apply (gives_then I); [apply inv_emit|intros _]. apply (gives_bind I sn); [by apply gives_ready|by intros q _ w].
Qed.

(** *** Labels *)

Lemma gives_patch p n n' : sn p → node_seen I n → label_write I p n n' → gives I (node_seen I) (labels_patch n n').
Proof.
  intros Hp Hn Hl. apply (gives_mono I (answers I (labels_patch n n'))); [|by intros m; apply node_patched].
  apply preserves_gives. intros w Hw. by apply (policy_sent p (WNodeLabels n n')).
Qed.
Lemma gives_nodes : gives I (Forall (node_seen I)) list_nodes.
Proof.
  apply (gives_checked I (answers I UpgradeTypes.node_list)).
  - apply preserves_gives, (kn_nodes (KeepsNcp := HK)).
  - intros nodes Hn. apply gives_ret, Forall_forall. intros n. by apply node_listed.
  - intros e. apply gives_throw.
Qed.
(** A write per node, the error with the name of the node. *)
Lemma inv_patch_or {B} p n n' (f : GoErr → M W B) (g : M W B) : sn p → node_seen I n → label_write I p n n' → (∀ e, inv (f e)) → inv g →
  inv (r ← try (labels_patch n n'); match r with inl _ => g | inr e => f e end).
Proof. intros Hp Hn Hl Hf Hg. by apply (preserves_checked I (node_seen I)); [apply (gives_patch p)|..]. Qed.
Lemma inv_over_nodes (f : Node → M W ()) : (∀ n, node_seen I n → inv (f n)) → inv (nodes ← list_nodes; for_each f nodes).
Proof.
  intros Hf. apply (preserves_after I (Forall (node_seen I))); [apply gives_nodes|]. intros nodes Hn.
  apply preserves_for_each. intros n Hin. apply Hf. by apply (proj1 (Forall_forall _ _) Hn).
Qed.
Lemma inv_exclusion_labels p : sn p → inv (reconcileNodeExclusionLabels (Some p)).
Proof.
  intros Hp. apply inv_over_nodes. intros n Hn. unfold label_excluded. destruct (exclusion_labels n (Some p)) as [labels|] eqn:E; [|by intros w].
  apply (inv_patch_or p); [done|done| |by intros e w|by intros w]. by apply (lw_excluded _ _ _ _ labels).
Qed.
Lemma inv_forget_labels p : sn p → Ncp_Deleting p = true → inv (reconcileNodeExclusionLabels None).
Proof.
  intros Hp Hd. apply inv_over_nodes. intros n Hn. unfold label_excluded. destruct (exclusion_labels n None) as [labels|] eqn:E; [|by intros w].
  apply (inv_patch_or p); [done|done| |by intros e w|by intros w]. by apply (lw_forget _ _ _ _ labels).
Qed.
Lemma inv_reclaim p : sn p → Ncp_Deleting p = true → inv (reclaimDRANodeLabels p).
Proof.
  intros Hp Hd. apply inv_over_nodes. intros n Hn. unfold reclaim_node. destruct (negb _); [by intros w|].
  apply (inv_patch_or p); [done|done| |by intros e w|by intros w]. by apply lw_reclaim.
Qed.

(** One vendor of the table. *)
Section Vendor.
Context (p : NPUClusterPolicy) (dra : DRACapability) (vendor : string) (adv : AdvertiseSpec) (sel : gmap string string → bool).
Hypotheses (Hp : sn p) (Hdra : answers I LoadDRACapability dra) (Hadv : advertiseVendors p !! vendor = Some adv)
  (Hown : vendorIsOperatorOwned p vendor = true) (Hsel : advertise_selector vendor adv = inl sel).
Definition same_or_patched (n0 n : Node) : Prop := n = n0 ∨ ∃ f, answers I (labels_patch n0 (node_labels f n0)) n.

Lemma gives_retired n want has dsEnabled dsExists : node_seen I n →
  gives I (λ m, node_seen I m ∧ same_or_patched n m) (reconcileDRARetiredLabel n (DRARetiredNodeLabel vendor) want has dsEnabled dsExists).
Proof.
  intros Hn. unfold reconcileDRARetiredLabel. cbv zeta. match goal with |- context [Bool.eqb ?r ?w] => set (retired := r); destruct (Bool.eqb retired w) end.
  - apply gives_ret. split; [done|by left].
  - set (f := if retired then <[DRARetiredNodeLabel vendor := labelValueTrue]> else delete (DRARetiredNodeLabel vendor)).
    apply (gives_mono I (answers I (labels_patch n (node_labels f n)))).
    + apply preserves_gives. apply (gives_preserves I (node_seen I)). apply (gives_patch p); [done|done|].
      apply (lw_retired _ _ _ _ vendor); [by eexists|done|]. subst f. destruct retired; [by left|by right].
    + intros m Hm. split; [by eapply node_patched|right; by exists f].
Qed.
Lemma gives_refuse n : gives I (λ r, r = None → mget 0 (mget ∅ (Dra_SlicesByNodeDriver dra) (Node_Name n)) (advertiseVendorDriverName vendor) ≠ 0
    ∧ answers I (DeviceHoldingPods (advertiseQuiescer vendor) (Node_Name n)) []) (refuseAdvertiseSwitch vendor (Node_Name n) dra).
Proof.
  unfold refuseAdvertiseSwitch. cbv zeta. destruct (Z.eqb_spec (mget 0 (mget ∅ (Dra_SlicesByNodeDriver dra) (Node_Name n)) (advertiseVendorDriverName vendor)) 0)
    as [|Hne]; [by apply gives_ret|].
  apply (gives_checked I (answers I (DeviceHoldingPods (advertiseQuiescer vendor) (Node_Name n)))).
  - apply preserves_gives, (kn_holding (KeepsNcp := HK)).
  - intros [|x l] Ha; apply gives_ret; [by intros _|done].
  - intros e. apply gives_throw.
Qed.
Lemma gives_advertise_node n dsEnabled dsExists : node_seen I n →
  gives I (λ r, node_seen I r.1) (advertise_node dra vendor (AdvertisedBy adv) sel dsEnabled dsExists n).
Proof.
  intros Hn. unfold advertise_node. cbv zeta. set (has := bool_decide (is_Some _)). set (want := vendor_present vendor n && sel (Node_Labels n)).
  apply (gives_bind I (λ m, node_seen I m ∧ same_or_patched n m)); [by apply gives_retired|]. intros m [Hm Hsm].
  apply (gives_bind I (λ r, r = None → want && negb has = true → handover I p vendor m)).
  - destruct (want && negb has) eqn:E; [|by apply gives_ret]. apply (gives_mono I _ _ _ (gives_refuse m)). intros r Hr Hnone _.
    destruct (Hr Hnone). apply andb_true_iff in E as [[Hpre Hs]%andb_true_iff _]. exists adv, sel, n, dra. split_and!; try done.
    unfold advertise_selector in Hsel. case_bool_decide as Em; [done|]. injection Hsel as <-. done.
  - intros [[reason pods]|] Hr.
    + apply gives_then; [apply inv_emit|intros _]. by apply gives_ret.
    + destruct (Bool.eqb want has) eqn:E; [by apply gives_ret|].
      apply (gives_checked I (node_seen I)); [|by intros q ?; apply gives_ret|by intros e; apply gives_throw].
      apply (gives_patch p); [done|done|]. destruct want, has; try done.
      * apply (lw_give _ _ _ _ vendor); [done|by apply Hr|done].
      * apply (lw_take _ _ _ _ vendor); [by eexists|done|done].
Qed.
End Vendor.
Lemma gives_advertise_nodes f nodes : (∀ n, node_seen I n → gives I (λ r, node_seen I r.1) (f n)) →
  Forall (node_seen I) nodes → gives I (λ r, Forall (node_seen I) r.1) (advertise_nodes f nodes).
Proof.
  intros Hf. induction 1 as [|n nodes Hn _ IH]; [by apply gives_ret|]. simpl.
  apply (gives_bind I (λ r, node_seen I r.1)); [by apply Hf|]. intros [m e] Hm.
  apply (gives_bind I (λ r, Forall (node_seen I) r.1)); [done|]. intros [ms es] Hms. apply gives_ret. by constructor.
Qed.
Lemma inv_exists ds : inv (draDaemonSetExists ds).
Proof.
  unfold draDaemonSetExists. case_bool_decide; [by intros w|]. apply inv_read; [apply (kn_ds (KeepsNcp := HK))|].
  intros [|e]; [by intros w|by destruct (is_not_found e); intros w].
Qed.
Lemma inv_advertise_all p dra vendors nodes : sn p → answers I LoadDRACapability dra →
  Forall (λ va, advertiseVendors p !! va.1 = Some va.2) vendors → Forall (node_seen I) nodes → inv (advertise_all p dra vendors nodes).
Proof.
  intros Hp Hdra Hv. revert nodes. induction Hv as [|[vendor adv] vendors Hadv _ IH]; intros nodes Hn; [by intros w|]. simpl.
  apply (preserves_after I (λ r, Forall (node_seen I) r.1)).
  - unfold advertise_vendor. destruct (vendorIsOperatorOwned p vendor) eqn:Hown; [|by apply gives_ret]. simpl.
    apply gives_then; [apply preserves_try, inv_exists|]. intros [dsExists|e]; [|apply gives_throw].
    destruct (advertise_selector vendor adv) as [sel|e] eqn:Hsel; [|apply gives_throw].
    apply gives_advertise_nodes; [|done]. intros n. by apply (gives_advertise_node p).
  - intros [nodes' es] Hn'. simpl in *. apply preserves_bind; [by apply IH|by intros more w].
Qed.
Lemma gives_recorded p switches : sn p → gives I (λ r, sn r.1) (recordAdvertiseSwitch p switches).
Proof.
  intros Hp. unfold recordAdvertiseSwitch. cbv zeta. case_bool_decide; [by apply gives_ret|].
  set (st := mkNcpStatus _ _ _). apply (gives_checked I (answers I (ncp_status_patch p (ncp_status st p)))).
  - apply preserves_gives. intros w Hw. apply (policy_sent p (WNcpPatch p (ncp_status st p))); [done| |done]. split; [done|by exists st].
  - intros q Hq. apply gives_ret. by apply (seen_status_patch _ _ _ p st).
  - intros e. apply gives_ret. by apply seen_status.
Qed.
Lemma inv_dra_capability : inv LoadDRACapability.
Proof.
  apply inv_read; [apply (kn_classes (KeepsNcp := HK))|]. intros [classes|e]; [|by intros w].
  apply inv_read; [apply (kn_slices (KeepsNcp := HK))|]. intros [slices|e]; by intros w.
Qed.
Lemma gives_owned_labels p : sn p → gives I (λ r, sn r.1) (reconcileDRAOwnedLabels p).
Proof.
  intros Hp. apply (gives_bind I (Forall (node_seen I))); [apply gives_nodes|]. intros nodes Hn.
  apply (gives_checked I (answers I LoadDRACapability)); [apply preserves_gives, inv_dra_capability| |by intros e; apply gives_throw].
  intros dra Hdra. apply gives_then; [|intros switches; by apply gives_recorded]. apply inv_advertise_all; [done|done| |done].
  apply Forall_forall. intros [vendor adv] Hin. by apply elem_of_range_map.
Qed.
Lemma gives_sync p : sn p → gives I sn (syncNodeLabels p).
Proof.
  intros Hp. unfold syncNodeLabels. apply (gives_checked I (λ r, sn r.1)); [by apply gives_owned_labels| |].
  - intros [q [e|]] Hq; simpl in Hq; [by apply gives_not_ready|].
    apply gives_then; [|intros _; by apply gives_ret]. apply inv_or_not_ready; [done|by apply inv_exclusion_labels].
  - intros e. by apply gives_not_ready.
Qed.

(** *** Objects *)

Lemma inv_create_or_update_ds p ds : sn p → limited p ds → inv (createOrUpdateDS ds).
Proof.
  intros Hp Hds%limited_off_limits. apply (inv_or_create (answers I (ds_get (Ods_Namespace ds) (Ods_Name ds)))).
  - apply preserves_gives, (kn_ds (KeepsNcp := HK)).
  - intros cur Hcur. destruct (Ods_Deleting cur) eqn:Ed; [by intros w|]. destruct (_ || _); [|by intros w].
    intros w. apply (policy_sent p (WDsUpdate _)); [done|]. by exists cur, ds.
  - intros e w. by apply (policy_sent p (WDsCreate ds)).
Qed.
Lemma inv_create_or_update_cm p cm : sn p → cm ∈ own_maps p → inv (createOrUpdateCM cm).
Proof.
  intros Hp Hcm. apply (inv_or_create (answers I (cm_get (Cm_Namespace cm) (Cm_Name cm)))).
  - apply preserves_gives, (kn_cm (KeepsNcp := HK)).
  - intros cur Hcur. destruct (negb _); [|by intros w]. intros w. apply (policy_sent p (WCmUpdate _)); [done|]. by exists cur, cm, (Cm_Namespace cm), (Cm_Name cm).
  - intros e w. by apply (policy_sent p (WCmCreate cm)).
Qed.
Lemma inv_account p sa : sn p → sa ∈ own_accounts p → inv (ensure_account sa).
Proof.
  intros Hp Hsa. apply (inv_or_create (answers I (sa_get (Sa_Namespace sa) (Sa_Name sa)))).
  - apply preserves_gives, (kn_sa (KeepsNcp := HK)).
  - intros cur Hcur. destruct (negb _); [|by intros w]. intros w. apply (policy_sent p (WSaUpdate _)); [done|].
    exists cur, (Sa_Namespace sa), (Sa_Name sa). split; [done|]. f_equal. unfold own_accounts in Hsa.
    rewrite !elem_of_cons, elem_of_nil in Hsa. by destruct Hsa as [->|[->|[]]].
  - intros e w. by apply (policy_sent p (WSaCreate sa)).
Qed.
Lemma inv_delete_own p ns n : sn p → (ns, n) ∈ own_names → inv (deleteDaemonSetIn ns n).
Proof. intros Hp Hin. apply inv_unless_missing. intros w. apply (policy_sent p (WDsDelete ns n)); [done|by left]. Qed.
Lemma inv_delete_owned p ns n : sn p → inv (deleteOwnedDaemonSetInIfExists ns n p).
Proof.
  intros Hp. apply (preserves_checked I (answers I (ds_get ns n))).
  - apply preserves_gives, (kn_ds (KeepsNcp := HK)).
  - intros ds Hds. destruct (bool_decide_reflect (mget "" (Ods_Annotations ds) ownerAnnotation = owner_value p)) as [Hown|]; simpl; [|by intros w].
    apply inv_unless_missing. intros w. apply (policy_sent p (WDsDelete _ _)); [done|]. right; left. by exists ds, ns, n.
  - intros e. by destruct (is_not_found e); intros w.
Qed.
Lemma inv_delete_refs p refs : sn p → inv (for_each (λ ref : string * string, deleteOwnedDaemonSetInIfExists ref.1 ref.2 p) refs).
Proof. intros Hp. apply preserves_for_each. intros ref _. by apply inv_delete_owned. Qed.
Lemma inv_delete_refs_logged p refs : sn p → inv (for_each (λ ref : string * string, logged (deleteOwnedDaemonSetInIfExists ref.1 ref.2 p)) refs).
Proof. intros Hp. apply preserves_for_each. intros ref _. by apply inv_logged, inv_delete_owned. Qed.
Lemma inv_ensure_preserving p preserve ds : sn p → limited p ds → (∀ live, limited p (preserve live ds)) → inv (ensure_preserving preserve ds).
Proof.
  intros Hp Hds Hl. apply inv_read; [apply (kn_ds (KeepsNcp := HK))|]. intros [live|e]; by apply (inv_create_or_update_ds p).
Qed.

(** *** Steps *)

Ltac in_list := unfold own_names, own_maps, own_accounts; repeat (first [by left|right]).
Lemma inv_detector p : sn p → inv (ensureDetector p).
Proof.
  intros Hp. unfold ensureDetector. destruct (Np_Detector (Ncp_Spec p)) as [image|]; [|by intros w]. case_bool_decide; [by intros w|].
  apply preserves_bind; [apply (inv_account p); [done|in_list]|intros _]. apply (inv_create_or_update_ds p); [done|apply detector_limited].
Qed.
Lemma inv_nvidia p : sn p → inv (nvidia_step p).
Proof.
  intros Hp. unfold nvidia_step. cbv zeta. destruct (_ && _).
  - apply inv_or_not_ready; [done|]. apply preserves_for_each. intros ds Hds.
    assert (Hl : limited p ds).
    { rewrite !elem_of_cons, elem_of_nil in Hds. destruct Hds as [->|[->|[]]]; apply nvidia_limited; [by left|right; by left]. }
    apply (inv_ensure_preserving p); [done|done|]. intros live. by apply preserve_sharing_limited.
  - destruct (IsOperatorOwned _); [|by intros w]. apply preserves_for_each. intros ds _.
    apply inv_or_not_ready; [done|]. by apply inv_delete_owned.
Qed.
Lemma inv_dcgm p : sn p → inv (ensureDcgmExporter p).
Proof.
  intros Hp. unfold ensureDcgmExporter. destruct (negb _); [by intros w|]. destruct (_ && _).
  - apply preserves_bind; [by apply inv_delete_owned|intros _]. apply (inv_create_or_update_ds p); [done|apply dcgm_limited].
  - apply inv_read; [by apply inv_delete_owned|intros new]. apply inv_read; [by apply inv_delete_owned|intros legacy].
    by destruct new, legacy; intros w.
Qed.
(** The ConfigMap of the Furiosa plugins, when it has a name. *)
Lemma inv_furiosa_map p ns : sn p → furiosa_configmap p ns ∈ own_maps p →
  inv (if bool_decide (Fu_ConfigMapName (Furiosa p) = "") then mret () else createOrUpdateCM (furiosa_configmap p ns)).
Proof. intros Hp Hin. case_bool_decide; [by intros w|by apply (inv_create_or_update_cm p)]. Qed.
Lemma inv_furiosa p : sn p → inv (reconcileFuriosaDevicePlugins p).
Proof.
  intros Hp. unfold reconcileFuriosaDevicePlugins. cbv zeta. destruct (IsOperatorOwned _ && _ && _).
  - apply preserves_bind; [|by intros _; apply inv_delete_refs_logged]. apply inv_or_not_ready; [done|].
    apply preserves_bind; [apply (inv_delete_own p); [done|in_list]|intros _].
    apply preserves_bind; [apply inv_furiosa_map; [done|in_list]|intros _].
    apply (inv_ensure_preserving p); [done|apply unified_limited|]. intros live. apply preserve_env_limited, unified_limited.
  - destruct (negb _); [by intros w|]. apply preserves_bind; [by apply inv_delete_refs_logged|intros _].
    apply preserves_bind; [|intros _; apply preserves_bind; [|intros _]].
    + destruct (Fu_Enabled _); [|by intros w]. apply inv_or_not_ready; [done|].
      apply preserves_bind; [apply inv_furiosa_map; [done|in_list]|intros _].
      apply preserves_bind; [by apply inv_delete_refs|intros _]. apply (inv_create_or_update_ds p); [done|apply warboy_limited].
    + destruct (Rg_Enabled _); [|by intros w]. apply inv_or_not_ready; [done|].
      apply preserves_bind; [apply (inv_delete_own p); [done|in_list]|intros _].
      apply (inv_create_or_update_ds p); [done|apply rngd_limited].
    + apply preserves_bind; [apply inv_logged, (inv_delete_own p); [done|in_list]|intros _].
      apply preserves_bind; [apply inv_logged, (inv_delete_own p); [done|in_list]|intros _].
      case_bool_decide; [by intros w|]. apply inv_logged. intros w. apply (policy_sent p (WCmDelete _ _)); [done|by left].
Qed.
Lemma inv_rbllns_namespace p : sn p → inv (ensureRbllnsNamespace p).
Proof.
  intros Hp. unfold ensureRbllnsNamespace. cbv zeta. destruct (system_namespace _) eqn:Es; [by intros w|].
  apply (inv_or_create (answers I (ns_get (rbllnsResolveNamespace p)))); [apply preserves_gives, (kn_ns (KeepsNcp := HK))| |].
  - intros cur Hcur. case_bool_decide; [by intros w|]. intros w. apply (policy_sent p (WNsUpdate _)); [done|]. split; [done|by exists cur].
  - intros e w. by apply (policy_sent p (WNsCreate _)).
Qed.
Lemma inv_rbllns_rbac p : sn p → inv (ensureRbllnsRBAC p).
Proof.
  intros Hp. apply preserves_bind; [|intros _].
  - apply (inv_or_create (answers I (role_get rbllnsClusterRoleName))); [apply preserves_gives, (kn_role (KeepsNcp := HK))| |].
    + intros cur Hcur. case_bool_decide; [by intros w|]. intros w. apply (policy_sent p (WRoleUpdate _)); [done|]. by exists cur.
    + intros e w. by apply (policy_sent p (WRoleCreate _)).
  - apply (inv_or_create (answers I (binding_get rbllnsClusterRoleName))); [apply preserves_gives, (kn_binding (KeepsNcp := HK))| |].
    + intros cur Hcur. case_bool_decide; [by intros w|]. intros w. apply (policy_sent p (WBindingUpdate _)); [done|]. by exists cur.
    + intros e w. by apply (policy_sent p (WBindingCreate _)).
Qed.
Lemma inv_rebellions p : sn p → inv (rebellions_step p).
Proof.
  intros Hp. unfold rebellions_step. cbv zeta. destruct (_ && _).
  - apply preserves_for_each. intros step Hin. apply inv_or_not_ready; [done|].
    rewrite !elem_of_cons, elem_of_nil in Hin. destruct Hin as [->|[->|[->|[->|[->|[]]]]]]; simpl.
    + by apply inv_rbllns_namespace.
    + apply (inv_account p); [done|in_list].
    + by apply inv_rbllns_rbac.
    + apply (inv_create_or_update_cm p); [done|in_list].
    + apply (inv_create_or_update_ds p); [done|apply rebellions_limited].
  - destruct (IsOperatorOwned _); [|by intros w]. apply inv_or_not_ready; [done|]. by apply inv_delete_owned.
Qed.
Lemma inv_tenstorrent p : sn p → inv (tenstorrent_step p).
Proof.
  intros Hp. unfold tenstorrent_step. cbv zeta. destruct (_ && _).
  - apply inv_or_not_ready; [done|]. apply (inv_create_or_update_ds p); [done|apply tenstorrent_limited].
  - destruct (IsOperatorOwned _); [|by intros w]. apply inv_or_not_ready; [done|]. by apply inv_delete_owned.
Qed.

(** *** DRA drivers *)

Lemma inv_slices : inv resource_slice_list.
Proof. apply (kn_slices (KeepsNcp := HK)). Qed.
Lemma inv_dra_object p o : sn p → driver_object p true o → inv (apply_dra_object p o).
Proof.
  intros Hp Ho. assert (Hother : (∀ ds, o ≠ DraDaemonSet ds) → inv (applyDRAObject o)).
  { intros Hds. apply (inv_or_create (answers I (dra_get o))); [apply preserves_gives, (kn_dra (KeepsNcp := HK))| |].
    - intros _ _ w. by apply (policy_sent p (WDraUpdate o)).
    - intros e w. by apply (policy_sent p (WDraCreate o)). }
  destruct o; try by apply Hother. destruct Ho as (v & render & Hv & _ & _ & Er & Ho).
  apply (inv_create_or_update_ds p); [done|]. by apply (rendered_limited p v render).
Qed.
Lemma inv_deployed v : inv (draDeployed v).
Proof.
  unfold draDeployed. destruct (Dv_render v); [|by intros w]. apply inv_read; [apply (kn_ds (KeepsNcp := HK))|].
  intros [|e]; [by intros w|by destruct (is_not_found e); intros w].
Qed.
Lemma inv_publishing driver : inv (countPublishingNodes driver).
Proof.
  unfold countPublishingNodes. case_bool_decide; [by intros w|]. apply inv_read; [apply inv_slices|].
  intros [sl|e]; [by intros w|by destruct (is_no_match e); intros w].
Qed.
Lemma inv_dual_nodes vendor res counts : inv (dual_nodes vendor res counts).
Proof.
  induction counts as [|[n k] counts IH]; [by intros w|]. simpl. apply inv_read; [apply (kn_node (KeepsNcp := HK))|]. intros [node|e].
  - apply preserves_bind; [done|by intros more w].
  - by destruct (is_not_found e); [|intros w].
Qed.
Lemma inv_dual vendor driver res : inv (dualAdvertiseNodes vendor driver res).
Proof.
  apply inv_read; [apply inv_slices|]. intros [sl|e]; [|by intros w]. apply preserves_bind; [apply inv_dual_nodes|by intros d w].
Qed.
Lemma inv_note_once p v r note ev : inv (note_once p v r note ev).
Proof. unfold note_once. destruct (str_contains _ _); [by intros w|apply inv_emit]. Qed.
Lemma inv_driver p v : sn p → v ∈ draVendors p → inv (reconcileOneDRADriver p v).
Proof.
  intros Hp Hv. unfold reconcileOneDRADriver. cbv zeta. destruct (vendorIsOperatorOwned p (Dv_name v)) eqn:Eo; [|by intros w]. simpl.
  destruct (Ds_Enabled (Dv_spec v)) eqn:En; simpl.
  - apply preserves_bind; [case_bool_decide; [by intros w|apply inv_note_once]|intros _]. destruct (_ && _); [by intros w|].
    destruct (Dv_render v) as [render|] eqn:Er; [|by intros w]. apply preserves_bind; [|intros _].
    + apply preserves_for_each. intros o Ho. apply inv_dra_object; [done|]. by exists v, render.
    + apply preserves_bind; [apply inv_publishing|intros nodes]. destruct (nodes =? 0); [by intros w|].
      apply preserves_bind; [|intros dual; apply preserves_bind; [|by intros _ w]].
      * case_bool_decide; [|by intros w]. apply preserves_bind; [apply inv_dual|by intros d w].
      * case_bool_decide; [by intros w|apply inv_note_once].
  - apply preserves_bind; [apply inv_deployed|]. intros [|]; [|by intros w]. apply preserves_bind; [|by intros _ w].
    destruct (Dv_render v) as [render|] eqn:Er; [|by intros w]. apply preserves_for_each. intros o Ho. apply inv_unless_missing.
    intros w. apply (policy_sent p (WDraDelete o)); [done|]. by exists v, render.
Qed.
Lemma gives_drivers p : sn p → gives I sn (ensureDRADriver p).
Proof.
  intros Hp. apply gives_then; [|intros out; apply gives_ret; by apply seen_status].
  assert (Hall : ∀ vs, (∀ v, v ∈ vs → v ∈ draVendors p) → inv (dra_statuses p vs)); [|by apply Hall].
  induction vs as [|v vs IH]; intros Hvs; [by intros w|]. apply preserves_bind; [apply inv_driver; [done|apply Hvs; by left]|].
  intros st. apply preserves_bind; [apply IH; intros v' ?; apply Hvs; by right|by intros sts w].
Qed.
Lemma gives_side_operands p : sn p → gives I sn (ensureSideOperands p).
Proof.
  intros Hp. apply gives_then; [apply inv_or_not_ready; [done|by apply inv_dcgm]|intros _].
  apply gives_or_not_ready; [done|by apply gives_drivers].
Qed.
Lemma gives_dual_advertisement p : sn p → gives I sn (detectDualAdvertisement p).
Proof.
  intros Hp. apply gives_then.
  - generalize (range_map (advertiseVendors p)).*1. intros vs. induction vs as [|v vs IH]; [by intros w|]. simpl.
    destruct (_ || _); [done|]. apply inv_read; [apply inv_dual|]. intros [nodes|e]; [|by intros w]. apply preserves_bind; [done|by intros m w].
  - intros [[|x parts]|]; [by apply gives_set_condition| |by apply gives_ret].
    apply (gives_bind I sn); [by apply gives_set_condition|]. intros q Hq.
    apply gives_then; [case_bool_decide; [by intros w|apply inv_emit]|intros _; by apply gives_ret].
Qed.

(** *** The operators of the vendors *)

Lemma inv_mapping vendor : inv (vendorOperatorMapping vendor).
Proof.
  unfold vendorOperatorMapping. destruct (vendorOperatorSignatures !! vendor) as [sig|]; [|by intros w]. case_bool_decide as E; [by intros w|].
  clear E. generalize false. induction (groupKinds sig) as [|[g k] kinds IH]; intros failed; [by intros w|]. simpl.
  apply inv_read; [apply (kn_mapping (KeepsNcp := HK))|]. intros [m|e]; [by intros w|apply IH].
Qed.
Lemma inv_operator_state vendor : inv (readVendorOperatorState vendor).
Proof.
  unfold readVendorOperatorState. destruct (_ !! vendor); [|by intros w]. destruct (negb _); [by intros w|].
  apply inv_read; [apply (kn_operators (KeepsNcp := HK))|]. intros [items|e].
  - by destruct (sort_on fst items) as [|[n st] l]; intros w.
  - by destruct (_ || _); intros w.
Qed.
Lemma gives_operator_ready p vendor present : sn p → gives I sn (setVendorOperatorReadyCondition p vendor present).
Proof.
  intros Hp. unfold setVendorOperatorReadyCondition. destruct (vendorOperatorReadyConditionType vendor); [|by apply gives_ret]. cbv zeta.
  apply gives_then.
  - destruct (negb present); [by intros w|]. apply inv_read; [apply inv_operator_state|by intros st w].
  - intros [[st r] m]. apply (gives_bind I sn); [by apply gives_set_condition|]. intros q Hq.
    apply gives_then; [|intros _; by apply gives_ret]. destruct (_ && _); [apply inv_emit|]. destruct (_ && _); [apply inv_emit|by intros w].
Qed.
Lemma gives_operator p managed vendor : sn p → gives I sn (detectVendorOperator p managed vendor).
Proof.
  intros Hp. unfold detectVendorOperator. destruct (_ !! vendor) as [sig|]; [|by apply gives_ret].
  apply gives_then; [apply inv_mapping|]. intros [mapping presence]. cbv zeta. apply gives_then.
  - destruct mapping; [|by intros w]. destruct (_ && _); [|by intros w]. apply inv_read; [apply (kn_crd (KeepsNcp := HK))|by intros r w].
  - intros confirmed. apply (gives_bind I sn); [by apply gives_operator_ready|]. intros q Hq. destruct (_ && _).
    + apply (gives_bind I sn); [by apply gives_set_condition|]. intros q' Hq'.
      apply gives_then; [case_bool_decide; [by intros w|apply inv_emit]|intros _; by apply gives_ret].
    + match goal with |- context [let '(r, m) := ?x in _] => destruct x as [r m] end.
      apply (gives_bind I sn); [by apply gives_set_condition|]. intros q' Hq'.
      apply gives_then; [destruct (_ && _); [apply inv_emit|by intros w]|intros _; by apply gives_ret].
Qed.
Lemma inv_warn_absent p : inv (warnDelegatedOperatorAbsent p).
Proof.
  apply preserves_for_each. intros [v d] _. unfold warn_absent. destruct (negb _); [by intros w|].
  apply preserves_bind; [|intros [| |]; [by intros w|apply inv_emit|by intros w]].
  apply preserves_bind; [apply inv_mapping|by intros [m pr] w].
Qed.

(** *** The pass *)

Lemma inv_cleanup_namespace p ns : sn p → Ncp_Deleting p = true → inv (cleanup_namespace p ns).
Proof.
  intros Hp Hd. apply (preserves_after I (answers I (ds_list ns))); [apply preserves_gives, (kn_ds_list (KeepsNcp := HK))|].
  intros dss Hdss. apply preserves_bind; [|intros _].
  - apply preserves_for_each. intros ds Hin. destruct (_ && _) eqn:E; [|by intros w].
    apply andb_true_iff in E as [Hown%bool_decide_eq_true Hpl%negb_true_iff]. apply inv_unless_missing. intros w.
    apply (policy_sent p (WDsDelete _ _)); [done|]. right; right. split_and!; [done|done|]. by exists ds, ns, dss.
  - apply (preserves_after I (answers I (cm_list ns))); [apply preserves_gives, (kn_cm_list (KeepsNcp := HK))|].
    intros cms Hcms. apply preserves_for_each. intros cm Hin. destruct (_ && _) eqn:E; [|by intros w].
    apply andb_true_iff in E as [Hown%bool_decide_eq_true Hpl%negb_true_iff]. apply inv_unless_missing. intros w.
    apply (policy_sent p (WCmDelete _ _)); [done|]. right. split_and!; [done|done|]. by exists cm, ns, cms.
Qed.
Lemma inv_cleanup p : sn p → Ncp_Deleting p = true → inv (cleanupOwnedResources p).
Proof.
  intros Hp Hd. apply preserves_bind; [|intros _; apply preserves_bind; [by apply inv_reclaim|intros _; by apply (inv_forget_labels p)]].
  apply preserves_for_each. intros ns _. by apply inv_cleanup_namespace.
Qed.
Lemma gives_finalizers p fs : sn p → ncp_allowed I p (WNcp (ncp_finalizers fs p)) → gives I sn (ncp_update (ncp_finalizers fs p)).
Proof.
  intros Hp Hq. apply (gives_mono I (answers I (ncp_update (ncp_finalizers fs p)))); [|intros q; by apply seen_update].
  apply preserves_gives. intros w Hw. by apply (policy_sent p (WNcp (ncp_finalizers fs p))).
Qed.
Lemma inv_finish p : sn p → inv (finish p).
Proof.
  intros Hp. unfold finish. destruct (ready_reason p) as [reason msg].
  apply (preserves_after I sn); [by apply gives_operator|]. intros p1 H1'.
  apply (preserves_after I sn); [by apply gives_operator|]. intros p2 H2'.
  apply (preserves_after I sn); [by apply gives_operator|]. intros p3 H3'.
  apply (preserves_after I sn); [by apply gives_dual_advertisement|]. intros p4 H4'.
  apply preserves_bind; [apply inv_warn_absent|intros _].
  apply (preserves_after I sn); [by apply gives_ready|]. intros p5 _.
  apply preserves_bind; [apply inv_emit|by intros _ w].
Qed.
Lemma inv_operate p : sn p → inv (operate p).
Proof.
  intros Hp. apply preserves_bind; [apply inv_or_not_ready; [done|by apply inv_detector]|intros _].
  apply (preserves_after I sn); [by apply gives_sync|]. intros p1 Hp1.
  apply preserves_bind; [by apply inv_nvidia|intros _].
  apply (preserves_after I sn); [by apply gives_side_operands|]. intros p2 Hp2.
  apply preserves_bind; [by apply inv_furiosa|intros _].
  apply preserves_bind; [by apply inv_rebellions|intros _].
  apply preserves_bind; [by apply inv_tenstorrent|intros _]. by apply inv_finish.
Qed.
End Effects.

(** C3. Everything a pass over a cluster policy writes is one of these.  DaemonSets are
    created or rewritten only with a Pod template that stays off the nodes the policy,
    the control plane, a driver upgrade or the other way to advertise a device has
    claimed, and with the policy as owner; they are deleted only after the policy was
    read as their owner, or under a name only kcloud has used; the clean-up spares the
    device plugins.  A node's labels change only by the exclusion the policy declares
    and by the two labels of a vendor that is kcloud's; a node is given to DRA only if
    the policy asks for it, its driver publishes devices there, and no Pod holds one.
    The objects of a driver are written only while it is enabled and deleted only while
    it is not.  Of the policy itself only the finalizer and the status are written. *)
Theorem policy_writes {W} `{UpgradeAPI W, IntentAPI W, ClusterAPI W, Clock W} `{MapRange} `{SelectorLaws} `{Environment} `{SchedulerLaws}
    (I : W → Prop) namespace name w r w' :
  KeepsNcp I namespace name → I w → Reconcile namespace name w = (r, w') → I w'.
Proof.
  intros HK Hw E. cut (wp (Reconcile namespace name) (λ _ w', I w') w); [unfold wp; by rewrite E|]. clear E. revert w Hw.
  change (preserves I (Reconcile namespace name)). apply (preserves_checked I (seen I namespace name)).
  - apply (gives_mono I (answers I (ncp_get namespace name))); [apply preserves_gives, (kn_get (KeepsNcp := HK))|]. intros p. by apply seen_get.
  - intros p Hp. destruct (Ncp_Deleting p) eqn:Ed.
    + destruct (has_finalizer p); [|by intros w]. apply preserves_bind; [by apply (inv_cleanup I namespace name)|intros _].
      apply (preserves_after I (seen I namespace name)); [|by intros q _ w]. apply (gives_finalizers I namespace name p); [done|]. simpl. by rewrite Ed.
    + apply (preserves_after I (seen I namespace name)); [|intros q Hq; by apply (inv_operate I namespace name)].
      destruct (has_finalizer p) eqn:Ef; [by apply gives_ret|]. apply (gives_finalizers I namespace name p); [done|]. simpl. by rewrite Ed.
  - intros e. by destruct (is_not_found e); intros w.
Qed.

(** ** The handover of a node *)

(** What a merge patch made of the difference between two sets of labels does to the
    labels that the server has: a key that differs gets the second's value, or goes
    when the second has none; any other key stays as the server has it. *)
Definition merge_patch (base want server : gmap string string) : gmap string string :=
  filter (λ kv, base !! kv.1 ≠ want !! kv.1) want ∪ filter (λ kv, base !! kv.1 = want !! kv.1) server.
Lemma merge_patch_lookup base want server k :
  merge_patch base want server !! k = if decide (base !! k = want !! k) then server !! k else want !! k.
Proof.
  unfold merge_patch. apply option_eq. intros v.
  rewrite lookup_union_Some_raw, !map_lookup_filter_Some, map_lookup_filter_None. simpl. case_decide; naive_solver.
Qed.
(** Documented behaviour of the API server: a patch that succeeds merges the difference
    into the labels the server has at that moment, whoever wrote them, and answers with
    the node as it is then stored. *)
Class PatchLaws (W : Type) `{ClusterAPI W} := {
  labels_at : W → string → gmap string string;
  patch_merges n n' w m w' : labels_patch n n' w = (inl m, w') →
    Node_Name m = Node_Name n ∧ Node_Labels m = labels_at w' (Node_Name n)
    ∧ labels_at w' (Node_Name n) = merge_patch (Node_Labels n) (Node_Labels n') (labels_at w (Node_Name n));
}.
Lemma owned_not_retired vendor : DRAOwnedNodeLabel vendor ≠ DRARetiredNodeLabel vendor.
Proof. unfold DRAOwnedNodeLabel, DRARetiredNodeLabel. intros E%(inj (String.append _))%(inj (String.append _)). discriminate E. Qed.

Section Handover.
Context {W : Type} `{UpgradeAPI W, IntentAPI W, PatchLaws W, Clock W} `{MapRange} `{LabelSelectors} `{Environment}.
Context (vendor : string).
(** The two labels of a handover, of a set of labels and of a node on the server. *)
Definition label_pair (l : gmap string string) : option string * option string :=
  (l !! DRAOwnedNodeLabel vendor, l !! DRARetiredNodeLabel vendor).
Definition two_labels (name : string) (w : W) : option string * option string := label_pair (labels_at w name).
(** The node in hand has them as the server does. *)
Definition fresh (n : Node) (w : W) : Prop := two_labels (Node_Name n) w = label_pair (Node_Labels n).
Notation pair n := (label_pair (Node_Labels n)).

Lemma wp_label_patch n f (Q : Node + GoErr → W → Prop) w : fresh n w →
  (∀ m w', Node_Name m = Node_Name n → fresh m w' → pair m = label_pair (f (Node_Labels n)) → Q (inl m) w') →
  (∀ e w', Q (inr e) w') → wp (labels_patch n (node_labels f n)) Q w.
Proof.
  intros Hf HQ He. unfold wp. destruct (labels_patch n (node_labels f n) w) as [[m|e] w'] eqn:E; [|apply He].
  apply patch_merges in E as (En & El & Em). injection Hf as Ho Hr. apply HQ; [done| |].
  - unfold fresh, two_labels. by rewrite En, El.
  - rewrite El, Em. unfold label_pair. rewrite !merge_patch_lookup. simpl. by f_equal; case_decide; congruence.
Qed.
Lemma wp_retired_label n want has draEnabled dsExists (Q : Node + GoErr → W → Prop) w : fresh n w →
  (∀ m w', Node_Name m = Node_Name n → fresh m w' → (pair m).1 = (pair n).1 →
     (is_Some (pair m).2 ↔ want = false ∧ draEnabled || dsExists = true ∧ (has = true ∨ is_Some (pair n).2)) → Q (inl m) w') →
  (∀ e w', Q (inr e) w') →
  wp (reconcileDRARetiredLabel n (DRARetiredNodeLabel vendor) want has draEnabled dsExists) Q w.
Proof.
  intros Hf HQ He. unfold reconcileDRARetiredLabel. cbv zeta. set (r := if want then false else _). set (was := bool_decide _).
  assert (Hr : r = true ↔ want = false ∧ draEnabled || dsExists = true ∧ (has = true ∨ is_Some (pair n).2)).
  { subst r was. destruct want, draEnabled, dsExists, has; simpl; rewrite ?bool_decide_eq_true; naive_solver. }
  destruct (Bool.eqb r was) eqn:E.
  - apply eqb_prop in E. apply wp_ret, HQ; [done..|]. rewrite <-Hr, E. unfold was. by rewrite bool_decide_eq_true.
  - apply wp_label_patch; [done| |done]. intros m w' En Hm Ep. apply HQ; [done..| |]; rewrite Ep; [|rewrite <-Hr]; destruct r; simpl.
    + by rewrite lookup_insert_ne by auto using owned_not_retired, not_eq_sym.
    + by rewrite lookup_delete_ne by auto using owned_not_retired, not_eq_sym.
    + rewrite lookup_insert_eq. split; [done|by eexists].
    + rewrite lookup_delete_eq. split; [by intros []|done].
Qed.
End Handover.

Section HandoverNode.
Context {W : Type} `{UpgradeAPI W, IntentAPI W, PatchLaws W, Clock W} `{MapRange} `{LabelSelectors} `{Environment}.
Context (vendor : string) (adv : AdvertiseSpec) (sel : gmap string string → bool) (Hsel : advertise_selector vendor adv = inl sel).
Notation pair n := (label_pair vendor (Node_Labels n)).
Notation two := (two_labels vendor).
Definition wanted_by_dra (n : Node) : bool := vendor_present vendor n && sel (Node_Labels n).
Definition applied (n : Node) : AdvertiseSwitchStatus := mkSwitch vendor (Node_Name n) (AdvertisedBy adv) true "" [].
(** The labels a pass leaves, [dra-owned] and [dra-retired]. *)
Definition settled (n : Node) (deployed : bool) (left : option string * option string) (entries : list AdvertiseSwitchStatus) : Prop :=
  if wanted_by_dra n then left.2 = None ∧ (is_Some left.1 ↔ is_Some (pair n).1 ∨ applied n ∈ entries)
  else left.1 = None ∧ (is_Some left.2 ↔ deployed = true ∧ (is_Some (pair n).1 ∨ is_Some (pair n).2)).

Lemma wanted_mode n : wanted_by_dra n = true → AdvertisedBy adv = AdvertiseByDRA.
Proof.
  unfold wanted_by_dra. intros [_ Hs]%andb_true_iff. unfold advertise_selector in Hsel. case_bool_decide; [done|].
  injection Hsel as <-. done.
Qed.
Lemma not_some {A} (o : option A) : ¬ is_Some o ↔ o = None.
Proof. by rewrite eq_None_not_Some. Qed.
Context (dra : DRACapability) (n : Node) (draEnabled dsExists : bool).
Hypothesis Hread : keeps (two (Node_Name n)) (DeviceHoldingPods (advertiseQuiescer vendor) (Node_Name n)).
Hypothesis Hevent : ∀ t r msg w, two (Node_Name n) (cluster_event t r msg w) = two (Node_Name n) w.
Notation handover := (advertise_node dra vendor (AdvertisedBy adv) sel draEnabled dsExists).

Lemma keeps_refusal : keeps (two (Node_Name n)) (refuseAdvertiseSwitch vendor (Node_Name n) dra).
Proof.
  unfold refuseAdvertiseSwitch. cbv zeta. destruct (_ =? 0); [apply keeps_ret|]. apply keeps_bind; [by apply keeps_try|].
  intros [[|]|]; [apply keeps_ret..|apply keeps_throw].
Qed.
Lemma fresh_kept m w w' : Node_Name m = Node_Name n → two (Node_Name n) w' = two (Node_Name n) w → fresh vendor m w → fresh vendor m w'.
Proof. unfold fresh. intros ->. congruence. Qed.
Definition handed (r : (Node * list AdvertiseSwitchStatus) + GoErr) (w : W) : Prop :=
  match r with
  | inl (m, es) => Node_Name m = Node_Name n ∧ fresh vendor m w ∧ settled n (draEnabled || dsExists) (pair m) es
  | inr _ => True
  end.

(** The last write of the pass, on the node as the first one left it. *)
Lemma wp_last_patch (f : gmap string string → gmap string string) what m es w : Node_Name m = Node_Name n → fresh vendor m w →
  settled n (draEnabled || dsExists) (label_pair vendor (f (Node_Labels m))) es →
  wp (r ← try (labels_patch m (node_labels f m));
      match r with inl node => mret (node, es) | inr e => throw (errorf_w what e) end) handed w.
Proof.
  intros En Hf Hs. apply wp_bind, wp_try, (wp_label_patch vendor); [done| |done]. intros m' w' En' Hf' Ep. apply wp_ret.
  split; [congruence|]. split; [done|]. by rewrite Ep.
Qed.
Lemma wp_settled w : fresh vendor n w → wp (handover n) handed w.
Proof.
  intros Hf. unfold advertise_node. cbv zeta. fold (wanted_by_dra n). set (has := bool_decide (is_Some (Node_Labels n !! DRAOwnedNodeLabel vendor))).
  assert (Hhas : has = true ↔ is_Some (pair n).1) by apply bool_decide_eq_true.
  apply wp_bind, (wp_retired_label vendor); [done| |done]. intros m w1 En Hf1 Eo Hr. cbv beta iota.
  assert (Hno : wanted_by_dra n = true → vendor_present vendor n && negb (bool_decide (AdvertisedBy adv = AdvertiseByDRA)) = false).
  { intros Hw. rewrite (bool_decide_true (AdvertisedBy adv = _)) by by apply (wanted_mode n). by rewrite andb_false_r. }
  unfold settled in *. destruct (wanted_by_dra n) eqn:Hw.
  - rewrite Hno by done. assert (Hr2 : (pair m).2 = None) by (apply not_some; rewrite Hr; naive_solver).
    destruct has; cbn [andb negb Bool.eqb].
    + apply wp_bind, wp_ret, wp_ret. split; [done|]. split; [done|]. unfold settled. rewrite Hw, Eo. split; [done|]. rewrite <-Hhas. naive_solver.
    + apply wp_bind. assert (Hk := keeps_refusal w1). rewrite En. unfold wp. destruct (refuseAdvertiseSwitch _ _ _ w1) as [[[[reason pods]|]|e] w2]; simpl in Hk; [| |done].
      * assert (Hf2 : fresh vendor m (cluster_event "Warning" "AdvertiseSwitchRefused"
            ("노드 " +:+ Node_Name n +:+ " 의 " +:+ vendor +:+ " 광고 주체 전환 거절: " +:+ reason) w2)).
        { apply (fresh_kept m w1); [done|by rewrite Hevent|done]. }
        split; [done|]. split; [exact Hf2|]. unfold settled. rewrite Hw, Eo. split; [done|]. split; [by left|].
        intros [|[=]%list_elem_of_singleton]; done.
      * apply (wp_last_patch (<[DRAOwnedNodeLabel vendor := labelValueTrue]>)); [done|by apply (fresh_kept m w1)|]. unfold settled. rewrite Hw.
        unfold label_pair. cbn [fst snd]. rewrite lookup_insert_eq, lookup_insert_ne by apply owned_not_retired. split; [exact Hr2|].
        split; [|by eexists]. intros _. right. unfold applied. by left.
  - apply wp_bind. destruct has; cbn [andb negb Bool.eqb]; apply wp_ret.
    + apply (wp_last_patch (delete (DRAOwnedNodeLabel vendor))); [done|done|]. unfold settled. rewrite Hw. unfold label_pair. cbn [fst snd].
      rewrite lookup_delete_eq, lookup_delete_ne by apply owned_not_retired. split; [done|]. change (Node_Labels m !! DRARetiredNodeLabel vendor) with (pair m).2.
      rewrite Hr, <-Hhas. naive_solver.
    + apply wp_ret. split; [done|]. split; [done|]. unfold settled. rewrite Hw. split; [apply not_some; rewrite Eo, <-Hhas; done|].
      rewrite Hr, <-Hhas. naive_solver.
Qed.

(** A node whose labels have settled is left alone. *)
Lemma settled_rests es m w : settled n (draEnabled || dsExists) (pair m) es → wanted_by_dra m = wanted_by_dra n →
  wanted_by_dra n = false ∨ is_Some (pair m).1 → ∃ es', handover m w = (inl (m, es'), w).
Proof.
  unfold settled. intros Hs Ew Hcase. unfold advertise_node. cbv zeta. fold (wanted_by_dra m). rewrite Ew. unfold reconcileDRARetiredLabel. cbv zeta.
  change (Node_Labels m !! DRAOwnedNodeLabel vendor) with (pair m).1. change (Node_Labels m !! DRARetiredNodeLabel vendor) with (pair m).2.
  destruct (wanted_by_dra n).
  - destruct Hs as [Hr _]. destruct Hcase as [|Ho]; [done|]. rewrite Hr, (bool_decide_true (is_Some (pair m).1)) by done.
    rewrite (bool_decide_false (is_Some None)) by by intros []. by eexists.
  - destruct Hs as [Ho Hr]. rewrite Ho, (bool_decide_false (is_Some None)) by by intros [].
    destruct (bool_decide_reflect (is_Some (pair m).2)) as [Hs2|Hs2].
    + apply Hr in Hs2 as [Hd _]. destruct draEnabled, dsExists; try discriminate Hd; by eexists.
    + destruct draEnabled, dsExists; by eexists.
Qed.
End HandoverNode.


(** ** A cluster that runs

    One policy, nodes, Pods, what DRA publishes, and the DaemonSets by their key; every
    write of these is stored. *)

Record NcpCluster := mkNcpCluster {
  Nc_Policy : NPUClusterPolicy;
  Nc_Nodes : list Node;
  Nc_Pods : list Pod;
  Nc_Slices : list ResourceSlice;
  Nc_DaemonSets : gmap (string * string) ODaemonSet;
  Nc_ConfigMaps : gmap (string * string) ConfigMap;
}.
Definition nc_policy (f : NPUClusterPolicy → NPUClusterPolicy) (c : NcpCluster) : NcpCluster :=
  mkNcpCluster (f (Nc_Policy c)) (Nc_Nodes c) (Nc_Pods c) (Nc_Slices c) (Nc_DaemonSets c) (Nc_ConfigMaps c).
Definition nc_node (n : Node) (c : NcpCluster) : NcpCluster :=
  mkNcpCluster (Nc_Policy c) ((λ m, if bool_decide (Node_Name m = Node_Name n) then n else m) <$> Nc_Nodes c) (Nc_Pods c) (Nc_Slices c)
    (Nc_DaemonSets c) (Nc_ConfigMaps c).
Definition nc_daemonsets (f : gmap (string * string) ODaemonSet → gmap (string * string) ODaemonSet) (c : NcpCluster) : NcpCluster :=
  mkNcpCluster (Nc_Policy c) (Nc_Nodes c) (Nc_Pods c) (Nc_Slices c) (f (Nc_DaemonSets c)) (Nc_ConfigMaps c).
Definition nc_configmaps (f : gmap (string * string) ConfigMap → gmap (string * string) ConfigMap) (c : NcpCluster) : NcpCluster :=
  mkNcpCluster (Nc_Policy c) (Nc_Nodes c) (Nc_Pods c) (Nc_Slices c) (Nc_DaemonSets c) (f (Nc_ConfigMaps c)).
Definition ds_key (ds : ODaemonSet) : string * string := (Ods_Namespace ds, Ods_Name ds).
Definition nc_absent : GoErr := mkErr KNotFound "not found".
Definition nc_find {A} (f : NcpCluster → option A) : M NcpCluster A := λ c,
  match f c with Some a => (inl a, c) | None => (inr nc_absent, c) end.
(** The stored policy, after a change. *)
Definition nc_store (f : NPUClusterPolicy → NPUClusterPolicy) : M NcpCluster NPUClusterPolicy := λ c,
  (inl (f (Nc_Policy c)), nc_policy f c).
#[export] Instance nc_clock : Clock NcpCluster := {| time_now c := (0, c) |}.
#[export] Instance nc_intent : IntentAPI NcpCluster := {|
  IntentSnapshot.node_list := gets Nc_Nodes; partition_policy_list := mret []; IntentSnapshot.report_list := mret [];
  health_list := mret []; device_class_list := mret [draDriverNameNvidia]; resource_slice_list := gets Nc_Slices;
|}.
#[export] Instance nc_upgrade : UpgradeAPI NcpCluster := {|
  node_get n := nc_find (λ c, find_first (λ m, bool_decide (Node_Name m = n)) (Nc_Nodes c));
  UpgradeTypes.node_list := gets Nc_Nodes; node_patch _ _ := mret ();
  report_get _ := throw nc_absent; UpgradeTypes.report_list := mret []; policy_list := mret [];
  dus_get _ := throw nc_absent; dus_list := mret []; dus_create _ := mret (); dus_status_update d := mret d;
  dus_patch _ d := mret d; dus_status_patch _ d := mret d;
  pod_list := gets Nc_Pods; pod_get _ _ := throw nc_absent; pod_create _ := mret (); pod_delete _ := mret (); pod_evict _ := mret ();
  deployment_list := mret []; deployment_get _ _ := throw nc_absent; deployment_patch _ _ := mret ();
  daemonset_get _ := throw nc_absent; daemonset_patch _ _ := mret ();
  job_get _ := throw nc_absent; job_create _ := mret (); job_delete _ := mret (); claim_list := mret [];
|}.
#[export] Instance nc_api : ClusterAPI NcpCluster := {|
  ncp_get _ _ := gets Nc_Policy;
  ncp_update p := nc_store (ncp_finalizers (Ncp_Finalizers p));
  ncp_status_update p := nc_store (ncp_status (Ncp_Status p));
  ncp_status_patch _ p := nc_store (ncp_status (Ncp_Status p));
  labels_patch n n' c :=
    match find_first (λ m, bool_decide (Node_Name m = Node_Name n)) (Nc_Nodes c) with
    | None => (inr nc_absent, c)
    | Some m => let m' := node_labels (merge_patch (Node_Labels n) (Node_Labels n')) m in (inl m', nc_node m' c)
    end;
  ds_get ns name := nc_find (λ c, Nc_DaemonSets c !! (ns, name));
  ds_list ns := gets (λ c, filter (λ ds, Ods_Namespace ds = ns) (map_to_list (Nc_DaemonSets c)).*2);
  ds_create ds := modify (nc_daemonsets <[ds_key ds := ds]>);
  ds_update ds := modify (nc_daemonsets <[ds_key ds := ds]>);
  ds_delete ns name := modify (nc_daemonsets (delete (ns, name)));
  cm_get ns name := nc_find (λ c, Nc_ConfigMaps c !! (ns, name)); cm_list _ := mret [];
  cm_create cm := modify (nc_configmaps <[(Cm_Namespace cm, Cm_Name cm) := cm]>);
  cm_update cm := modify (nc_configmaps <[(Cm_Namespace cm, Cm_Name cm) := cm]>);
  cm_delete ns name := modify (nc_configmaps (delete (ns, name)));
  sa_get _ _ := throw nc_absent; sa_create _ := mret (); sa_update _ := mret ();
  ns_get _ := throw nc_absent; ns_create _ := mret (); ns_update _ := mret ();
  role_get _ := throw nc_absent; role_create _ := mret (); role_update _ := mret ();
  binding_get _ := throw nc_absent; binding_create _ := mret (); binding_update _ := mret ();
  dra_get _ := throw nc_absent; dra_create _ := mret (); dra_update _ := mret (); dra_delete _ := mret ();
  rest_mapping _ _ := throw (mkErr KNoMatch "no match"); api_reader := true; crd_get _ := throw nc_absent; operator_list _ _ _ := mret [];
  cluster_event _ _ _ c := c;
|}.

(** NVIDIA, handed to DRA: one node publishes, one is excluded, one is busy. *)
Definition dra_policy : NPUClusterPolicy :=
  demo_policy (mkNvidia (mkAdvertise AdvertiseByDRA None) "" true "plugin:1" ∅ (Some spare_pool) None (Some (mkDRASpec true "" "" [] []))).
Definition gpu_node (name : string) (labels : gmap string string) : Node :=
  labelled name (<[PresentNodeLabel vendorNvidia := labelValueTrue]> labels).
Definition gpu_slice (node : string) : ResourceSlice := mkSlice (Some node) draDriverNameNvidia node 4.
Definition gpu_pod (node : string) : Pod :=
  mkPod "team" "train-0" ∅ [] node "" None false 0 [mkContainer "main" "img" [] [] [("nvidia.com/gpu", 1)] false []] [] "Running" [] []
    None 0 None ∅ [].
Definition dra_cluster : NcpCluster :=
  mkNcpCluster dra_policy [gpu_node "w1" ∅; gpu_node "w2" {["pool" := "spare"]}; gpu_node "w3" ∅] [gpu_pod "w3"]
    [gpu_slice "w1"; gpu_slice "w3"] ∅ ∅.
#[local] Existing Instances plain_selectors plain_selector_laws label_scheduler label_scheduler_laws.
#[export] Instance no_environment : Environment := {| Getenv _ := "" |}.
Definition nc_run (c : NcpCluster) : (Z + GoErr) * NcpCluster := Reconcile "" "cluster" c.

(** The pass hands over the one node that is free, labels the excluded one, and says who
    is in the way. *)
Example dra_pass :
  let c := (nc_run dra_cluster).2 in
  (λ s, (Sw_Node s, Sw_Applied s, Sw_BlockingPods s)) <$> Nps_AdvertiseSwitch (Ncp_Status (Nc_Policy c))
    = [("w1", true, []); ("w2", false, []); ("w3", false, ["team/train-0"])] ∧
  (λ n, (mget "" (Node_Labels n) (DRAOwnedNodeLabel vendorNvidia), mget "" (Node_Labels n) nodeExcludedLabel)) <$> Nc_Nodes c
    = [(labelValueTrue, ""); ("", labelValueTrue); ("", "")].
Proof. vm_compute. auto. Qed.

(** Warboy with a ConfigMap of its own, and no unified plugin.  In a namespace of its own
    the operator keeps the map; where [OPERATOR_NAMESPACE] is not set, the roll-back of the
    unified plugin takes the map that the same pass has just created. *)
Definition warboy_policy : NPUClusterPolicy :=
  let p := demo_policy (demo_nvidia None) in
  mkNcp "" "cluster" 1 [] false
    (mkNcpSpec (Some "detector:1") (demo_nvidia None)
       (mkFuriosa no_advertise "" true "warboy:1" "warboy" ∅ None (Rngd p) None false "") (Rebellions p) (Tenstorrent p) []) (Ncp_Status p).
Definition warboy_run (namespace : string) : gmap (string * string) ConfigMap :=
  let env : Environment := {| Getenv _ := namespace |} in
  Nc_ConfigMaps (ClusterPolicyPass.Reconcile (H5 := env) "" "cluster" (mkNcpCluster warboy_policy [] [] [] ∅ ∅)).2.
Lemma rollback_takes_the_map :
  is_Some (warboy_run "kcloud" !! (kube_system, "warboy")) ∧ warboy_run "" !! (kube_system, "warboy") = None.
Proof. split; [|vm_compute; reflexivity]. apply (bool_decide_eq_true _). vm_compute. reflexivity. Qed.

(** The policy is the one that was declared, and every DaemonSet stays off its nodes. *)
Definition nc_ok (p0 : NPUClusterPolicy) (c : NcpCluster) : Prop :=
  (Ncp_Namespace (Nc_Policy c) = Ncp_Namespace p0 ∧ Ncp_Name (Nc_Policy c) = Ncp_Name p0 ∧ Ncp_Spec (Nc_Policy c) = Ncp_Spec p0)
  ∧ ∀ key ds, Nc_DaemonSets c !! key = Some ds → ds_key ds = key ∧ off_limits p0 ds.
Lemma nc_seen p0 p : seen (nc_ok p0) "" "cluster" p →
  Ncp_Namespace p = Ncp_Namespace p0 ∧ Ncp_Name p = Ncp_Name p0 ∧ Ncp_Spec p = Ncp_Spec p0.
Proof. by induction 1 as [p (c & c' & [Hp _] & [= <- _])|p fs q _ IH (c & c' & [Hp _] & [= <- _])|p q _ IH (c & c' & [Hp _] & [= <- _])
  |p st q _ IH (c & c' & [Hp _] & [= <- _])|p st _ IH]. Qed.
Lemma off_limits_same p p0 ds : Ncp_Namespace p = Ncp_Namespace p0 ∧ Ncp_Name p = Ncp_Name p0 ∧ Ncp_Spec p = Ncp_Spec p0 →
  off_limits p ds → off_limits p0 ds.
Proof. intros (E1 & E2 & E3). unfold off_limits, limits, owner_value. by rewrite E1, E2, E3. Qed.
Lemma nc_find_keeps {A} (f : NcpCluster → option A) P : preserves P (nc_find f).
Proof. intros c Hc. unfold wp, nc_find. by destruct (f c). Qed.
Lemma nc_put p0 ds c : nc_ok p0 c → off_limits p0 ds → nc_ok p0 (nc_daemonsets <[ds_key ds := ds]> c).
Proof.
  intros [Hp Hds] Hoff. split; [done|]. simpl. intros key ds' [[<- <-]|[_ E]]%lookup_insert_Some; [done|exact (Hds key ds' E)].
Qed.
Lemma nc_keeps p0 : KeepsNcp (nc_ok p0) "" "cluster".
Proof.
  split; try (intros; apply nc_find_keeps); try (intros; intros c Hc; exact Hc); [intros t r m c Hc; exact Hc|].
  intros x c Hc (p & Hp%nc_seen & Hx). destruct x; simpl in *; try exact Hc; try (destruct (find_first _ _); exact Hc).
  - by apply nc_put; [|by apply (off_limits_same p)].
  - destruct Hx as (cur & want & (c1 & c2 & [_ Hds] & Ecur) & Hd & Hoff & ->). unfold nc_find in Ecur.
    destruct (Nc_DaemonSets c1 !! _) as [ds|] eqn:E; [|done]. injection Ecur as <- _. destruct (Hds _ _ E) as [Hkey _].
    apply nc_put; [done|]. apply (off_limits_same p p0 _ Hp) in Hoff. injection Hkey as _ Hname. unfold off_limits, ods_pod in *. simpl. by rewrite Hname.
  - destruct Hc as [Hpol Hds]. split; [done|]. simpl. intros key ds [_ E]%lookup_delete_Some. exact (Hds key ds E).
Qed.
Lemma policy_writes_witness :
  let c := (nc_run dra_cluster).2 in
  is_Some (Nc_DaemonSets c !! (draNamespace, draDSNameNvidia)) ∧ ∀ key ds, Nc_DaemonSets c !! key = Some ds → off_limits dra_policy ds.
Proof.
  assert (Hin : bool_decide (is_Some (Nc_DaemonSets (nc_run dra_cluster).2 !! (draNamespace, draDSNameNvidia))) = true) by (vm_compute; reflexivity).
  split; [exact (proj1 (bool_decide_eq_true _) Hin)|].
  destruct (nc_run dra_cluster) as [r c'] eqn:E. intros key ds Hds.
  assert (Hok : nc_ok dra_policy c').
  { apply (policy_writes (nc_ok dra_policy) "" "cluster" dra_cluster r c').
    - apply nc_keeps.
    - split; [split_and!; reflexivity|]. intros k d Hd. destruct (lookup_empty_Some k d Hd).
    - exact E. }
  apply (proj2 Hok key ds Hds).
Defined.

Definition nc_labels (c : NcpCluster) (name : string) : gmap string string :=
  from_option Node_Labels ∅ (find_first (λ m, bool_decide (Node_Name m = name)) (Nc_Nodes c)).
Lemma nc_stored n l : find_first (λ m, bool_decide (Node_Name m = Node_Name n)) ((λ m, if bool_decide (Node_Name m = Node_Name n) then n else m) <$> l)
  = (λ _, n) <$> find_first (λ m, bool_decide (Node_Name m = Node_Name n)) l.
Proof.
  induction l as [|m l IH]; [done|]. simpl. destruct (bool_decide (Node_Name m = Node_Name n)) eqn:E; simpl.
  - by rewrite bool_decide_true.
  - by rewrite E.
Qed.
#[export] Program Instance nc_patch_laws : PatchLaws NcpCluster := {| labels_at := nc_labels |}.
Next Obligation.
  intros n n' c m c'. simpl. destruct (find_first _ _) as [m0|] eqn:E; [|done]. intros [= <- <-].
  assert (En : Node_Name m0 = Node_Name n) by (apply find_first_Some in E as (? & ? & _ & E & _); by apply bool_decide_eq_true in E).
  split; [done|]. unfold nc_labels. rewrite E. cbn [Nc_Nodes nc_node]. set (m' := node_labels _ m0).
  assert (Em : Node_Name m' = Node_Name n) by done. rewrite <-Em. rewrite nc_stored, Em, E. done.
Qed.
(** A node whose devices are in use, on the way back to its plugin; another writer has
    labelled it since it was read. *)
Definition owned_node : Node := gpu_node "w3" {[DRAOwnedNodeLabel vendorNvidia := labelValueTrue]}.
Definition owned_cluster : NcpCluster :=
  mkNcpCluster dra_policy [gpu_node "w3" (<["team" := "ml"]> (Node_Labels owned_node))] [gpu_pod "w3"] [gpu_slice "w3"] ∅ ∅.
