(* ===== verification/Webhook.v ===== *)
(** * internal/webhook: what the API server lets in

    Models [webhook.go], [acceleratorclass.go], [acceleratorworkload.go] and
    [acceleratorpartitionpolicy.go]: five validators and the mutator of Pods.  The
    manager decodes an object into the type its webhook is registered for, so a handler
    takes that type.  The theorems compare admission with the controllers that act on
    what it let in. *)

From S2P Require Import Prelude GoStrings GoTime GoText Naming VendorCap ApiTypes PolicyTypes IntentResources IntentGates IntentSnapshot IntentTranslate IntentSafety HealthController UpgradeTypes UpgradeNode DriverImage PartitionTypes PartitionProfiles PartitionController Workload PodSpec ClusterPolicy DevicePlugins.
From S2P Require UpgradeEffects PartitionSpec WorkloadSafety.

(** ** webhook.go *)

Definition InjectLabel : string := "kcloud.ai/inject".
Definition nvidiaResourcePrefix : string := "nvidia.com/".
Definition nvidiaRuntimeClass : string := "nvidia".
Definition knownVendors : gmap string bool := list_to_map
  [(nvidiaRuntimeClass, true); ("furiosa", true); ("tenstorrent", true); ("rebellions", true)].

(** The rejections counter; and the text of the error of [time.ParseDuration]. *)
Class WebhookMetrics (W : Type) := { RecordWebhookRejection : string → W → W }.
Class DurationErrors := { duration_error : string → GoErr }.

Definition validateImageRef (img : string) : option GoErr :=
  let img := trim_space img in
  if bool_decide (img = "") then Some (errorf "image must not be empty")
  else
    let name := match cut_last "/" img with Some (_, name) => name | None => img end in
    match cut_last ":" name with
    | None => Some (errorf ("image " +:+ quote img +:+ " must include an explicit tag (name:tag)"))
    | Some (_, tag) =>
        if bool_decide (trim_space tag = "") then Some (errorf ("image " +:+ quote img +:+ " has an empty tag")) else None
    end.

Definition timeouts (up : UpgradePolicy) : gmap string string := list_to_map
  [("validationTimeout", Up_ValidationTimeout up); ("drainTimeout", Up_DrainTimeout up); ("rebootTimeout", Up_RebootTimeout up)].
(** What the loop over the timeouts refuses. *)
Definition bad_duration (val : string) : bool := negb (bool_decide (val = "")) && negb (bool_decide (is_Some (parse_duration val))).
Definition validateUpgradePolicy `{MapRange, DurationErrors} (up : UpgradePolicy) : option GoErr :=
  if Up_MaxReboots up <? 0 then
    Some (errorf ("spec.upgradePolicy.maxReboots must be >= 0 (got " +:+ sprint_Z (Up_MaxReboots up) +:+ ")"))
  else match find_first (λ kv, bad_duration kv.2) (range_map (timeouts up)) with
  | Some (name, val) =>
      Some (errorf_w ("spec.upgradePolicy." +:+ name +:+ " " +:+ quote val +:+ " is not a valid duration") (duration_error val))
  | None => None
  end.
Definition validateDIP `{MapRange, DurationErrors} (dip : DriverInstallPolicy) : option GoErr :=
  let driver := Dip_Driver dip in
  if negb (mget false knownVendors (to_lower (Dip_Vendor dip))) then
    Some (errorf ("spec.vendor " +:+ quote (Dip_Vendor dip) +:+
      " is not a known vendor (allowed: nvidia, furiosa, tenstorrent, rebellions)"))
  else match validateImageRef (UpgradeTypes.Ds_Image driver) with
  | Some e => Some (errorf_w "spec.driver.image" e)
  | None =>
      if UpgradeTypes.Ds_TrackOnly driver && negb (bool_decide (UpgradeTypes.Ds_Mode driver = ""))
         && negb (bool_decide (UpgradeTypes.Ds_Mode driver = "job")) then
        Some (errorf ("spec.driver.trackOnly=true requires spec.driver.mode=job (got " +:+ quote (UpgradeTypes.Ds_Mode driver) +:+ ")"))
      else match Dip_UpgradePolicy dip with Some up => validateUpgradePolicy up | None => None end
  end.

(** The two tables of [validateNCP]. *)
Definition ncp_modes (s : NPUClusterPolicySpec) : list (string * ManagementSpec) :=
  [("nvidia", Nv_Management (Np_Nvidia s)); ("furiosa", Fu_Management (Np_Furiosa s));
   ("rebellions", Rbl_Management (Np_Rebellions s)); ("tenstorrent", Tt_Management (Np_Tenstorrent s))].
Definition mode_unknown (m : ManagementSpec) : bool := negb (IsOperatorOwned m) && negb (IsDelegated m) && negb (IsExternal m).
Record ImageCheck := mkImageCheck { Ic_Name : string; Ic_Enabled : bool; Ic_Owned : bool; Ic_Image : string }.
Definition image_checks (s : NPUClusterPolicySpec) : list ImageCheck :=
  let nv := Np_Nvidia s in let fu := Np_Furiosa s in let rb := Np_Rebellions s in let tt := Np_Tenstorrent s in
  [mkImageCheck "nvidia" (Nv_Enabled nv) (IsOperatorOwned (Nv_Management nv)) (Nv_DevicePluginImage nv);
   mkImageCheck "furiosa" (Fu_Enabled fu) (IsOperatorOwned (Fu_Management fu)) (Fu_DevicePluginImage fu);
   mkImageCheck "furiosa.rngd" (Rg_Enabled (Fu_Rngd fu)) (IsOperatorOwned (Fu_Management fu)) (Rg_DevicePluginImage (Fu_Rngd fu));
   mkImageCheck "rebellions" (Rbl_Enabled rb) (IsOperatorOwned (Rbl_Management rb)) (Rbl_DevicePluginImage rb);
   mkImageCheck "tenstorrent" (Tt_Enabled tt) (IsOperatorOwned (Tt_Management tt)) (Tt_DevicePluginImage tt)].
Definition image_missing (c : ImageCheck) : bool := Ic_Enabled c && Ic_Owned c && bool_decide (trim_space (Ic_Image c) = "").
Definition validateNCP (ncp : NPUClusterPolicy) : option GoErr :=
  let s := Ncp_Spec ncp in
  match find_first (λ m, mode_unknown m.2) (ncp_modes s) with
  | Some (name, m) =>
      Some (errorf ("spec." +:+ name +:+ ".managementMode " +:+ quote m +:+ " must be one of managed, delegated, external"))
  | None =>
      match find_first image_missing (image_checks s) with
      | Some c => Some (errorf ("spec." +:+ Ic_Name c +:+ ".enabled=true but devicePluginImage is empty"))
      | None => None
      end
  end.

(** A Pod, as far as the mutator reads it. *)
Record AdmittedPod := mkAdmittedPod {
  Pa_Labels : gmap string string;
  Pa_RuntimeClassName : option string;
  Pa_Containers : list WContainer;
  Pa_InitContainers : list WContainer;
  Pa_Other : string;
}.
Section Mutator.
Context `{MapRange}.

Definition hasNvidiaResource (rl : gmap string Z) : bool := existsb (λ kv, has_prefix kv.1 nvidiaResourcePrefix) (range_map rl).
Definition podRequestsNvidiaGPU (pod : AdmittedPod) : bool :=
  existsb (λ c, hasNvidiaResource (Wc_Limits c) || hasNvidiaResource (Wc_Requests c)) (Pa_Containers pod ++ Pa_InitContainers pod).
(** [PodMutator.Default]: the Pod that goes on. *)
Definition Default (pod : AdmittedPod) : AdmittedPod :=
  if negb (bool_decide (mget "" (Pa_Labels pod) InjectLabel = "true")) then pod
  else if podRequestsNvidiaGPU pod
          && (bool_decide (Pa_RuntimeClassName pod = None) || bool_decide (Pa_RuntimeClassName pod = Some "")) then
    mkAdmittedPod (Pa_Labels pod) (Some nvidiaRuntimeClass) (Pa_Containers pod) (Pa_InitContainers pod) (Pa_Other pod)
  else pod.
End Mutator.

(** ** acceleratorclass.go *)

Fixpoint last_char (c : ascii) (s : string) : ascii :=
  match s with EmptyString => c | String c' s' => last_char c' s' end.
(** [nativeProfileRe]: letters, digits, dots and dashes, a letter or digit at both ends. *)
Definition nativeProfileRe (s : string) : bool :=
  match s with
  | EmptyString => false
  | String c s' =>
      is_alnum c && is_alnum (last_char c s')
      && str_forall (λ c, is_alnum c || bool_decide (c = "."%char) || bool_decide (c = "-"%char)) s'
  end.

Section Class_.
Context `{MapRange}.

Definition at_mapping (i : nat) : string := "spec.mappings[" +:+ sprint_Z (Z.of_nat i) +:+ "]".
(** The body of the loop, for a vendor not [seen] yet. *)
Definition check_mapping (seen : list string) (i : nat) (m : AcceleratorMapping) : option GoErr :=
  let vendor := to_lower (trim_space (Map_Vendor m)) in
  if negb (mget false knownVendors vendor) then
    Some (errorf (at_mapping i +:+ ".vendor " +:+ quote (Map_Vendor m) +:+
      " is not a known vendor (allowed: nvidia, furiosa, tenstorrent, rebellions)"))
  else if contains_string seen vendor then
    Some (errorf (at_mapping i +:+ ": vendor " +:+ quote vendor +:+
      " appears more than once, which would make the vendor choice non-deterministic"))
  else if negb (bool_decide (Map_NativeProfile m = "")) && negb (nativeProfileRe (Map_NativeProfile m)) then
    Some (errorf (at_mapping i +:+ ".nativeProfile " +:+ quote (Map_NativeProfile m) +:+
      " must be alphanumeric with dots or dashes (it becomes part of an extended resource name)"))
  else match WholeDeviceResource (Map_Vendor m) (Map_Product m) with
  | inr e => Some (errorf_w (at_mapping i) e)
  | inl _ => None
  end.
Fixpoint check_mappings (seen : list string) (i : nat) (ms : list AcceleratorMapping) : option GoErr :=
  match ms with
  | [] => None
  | m :: ms =>
      match check_mapping seen i m with
      | Some e => Some e
      | None => check_mappings (to_lower (trim_space (Map_Vendor m)) :: seen) (S i) ms
      end
  end.
Definition validateAcceleratorClass `{Quantities} (ac : AcceleratorClass) : option GoErr :=
  match Cl_Mappings ac with
  | [] => Some (errorf "spec.mappings must not be empty")
  | ms => check_mappings [] 0 ms
  end.
End Class_.

(** ** Admission of one object *)

Section Admission.
Context {W : Type} `{WebhookMetrics W}.
Notation IO := (M W).

(** The pure validators' answer. *)
Definition verdict (e : option GoErr) : IO () := match e with Some e => throw e | None => mret () end.
Definition recordRejection {A} (kind : string) (m : IO A) : IO A :=
  r ← try m;
  match r with
  | inl x => mret x
  | inr e => _ ← modify (RecordWebhookRejection kind); throw e
  end.
(** [ValidateCreate] and [ValidateUpdate] do the same for three kinds; nothing is asked of a deletion. *)
Definition DIPValidator `{MapRange, DurationErrors} (dip : DriverInstallPolicy) : IO () :=
  recordRejection "DriverInstallPolicy" (verdict (validateDIP dip)).
Definition NCPValidator (ncp : NPUClusterPolicy) : IO () := recordRejection "NPUClusterPolicy" (verdict (validateNCP ncp)).
Definition ACValidator `{MapRange} `{Quantities} (ac : AcceleratorClass) : IO () :=
  recordRejection "AcceleratorClass" (verdict (validateAcceleratorClass ac)).
End Admission.

(** ** acceleratorworkload.go *)

Section Workload_.
Context {W : Type} `{WorkloadAPI W, IntentAPI W, WebhookMetrics W} `{MapRange}.
(** [equality.Semantic.DeepEqual] on the specs *)
Context (semantic_equal : AcceleratorWorkloadSpec → AcceleratorWorkloadSpec → bool).
Notation IO := (M W).

(** What was admitted is answered with warnings. *)
Definition share_warning (res : ResolvedAllocation) : list string :=
  if bool_decide (Ra_Mode res = AccessModeShared) || bool_decide (Ra_Mode res = AccessModePartitionedShared)
  then [Ra_Explanation res] else [].
Definition validateAcceleratorWorkload (aw : AcceleratorWorkload) : IO (list string) :=
  let name := Areq_Class (Aws_Accelerator (Aw_Spec aw)) in
  class ← try (class_get name);
  match class with
  | inr e => throw (errorf_w ("spec.accelerator.class " +:+ quote name) e)
  | inl class =>
      loaded ← try Load;
      match loaded with
      | inr e => throw (errorf_w "reading cluster capability" e)
      | inl (snap, dra) =>
          match TranslateWithDRA (BuildRequest (Aws_Accelerator (Aw_Spec aw)) class) snap dra with
          | inr rj => throw (errorf (Reject_Error rj))
          | inl res => mret (share_warning res)
          end
      end
  end.
Definition AWValidator_ValidateCreate (aw : AcceleratorWorkload) : IO (list string) :=
  recordRejection "AcceleratorWorkload" (validateAcceleratorWorkload aw).
Definition AWValidator_ValidateUpdate (oldAW newAW : AcceleratorWorkload) : IO (list string) :=
  if semantic_equal (Aw_Spec oldAW) (Aw_Spec newAW) then mret []
  else recordRejection "AcceleratorWorkload" (validateAcceleratorWorkload newAW).
End Workload_.

(** ** acceleratorpartitionpolicy.go *)

Definition declaredSupported (s : Support) : bool :=
  bool_decide (Su_State s = StateNative) || bool_decide (Su_State s = StateSoftware).
Definition sourceSuffix (source : string) : string :=
  if bool_decide (source = "") then "" else " (" +:+ source +:+ ")".
Definition reason_of (s : Support) : string := Su_Reason s +:+ sourceSuffix (Su_Source s).
(** A map with [%v]: by key. *)
Definition sprint_map (m : gmap string string) : string :=
  "map[" +:+ join " " ((λ kv : string * string, kv.1 +:+ ":" +:+ kv.2) <$> sort_on fst (map_to_list m)) +:+ "]".

Section Partition.
Context {W : Type} `{UpgradeAPI W, WebhookMetrics W} `{MapRange}.
(** The package variable of [vendorcap]. *)
Context (reg : Registry).
Notation IO := (M W).

Definition furiosa_product (d : DeviceEntry) : option string :=
  if negb (equal_fold (De_Vendor d) "furiosa") then None
  else if equal_fold (De_Model d) "rngd" then Some "rngd"
  else if equal_fold (De_Model d) "warboy" then Some "warboy" else None.
(** The loop over the devices: the first product so far, or the one that decides. *)
Fixpoint scan_devices (capability : Capability) (first : string) (ds : list DeviceEntry) : string + string :=
  match ds with
  | [] => inl first
  | d :: ds =>
      match furiosa_product d with
      | None => scan_devices capability first ds
      | Some product =>
          match VendorCap.Lookup reg "furiosa" product capability with
          | Some s => if negb (declaredSupported s) then inr product
                      else scan_devices capability (if bool_decide (first = "") then product else first) ds
          | None => scan_devices capability (if bool_decide (first = "") then product else first) ds
          end
      end
  end.
Fixpoint scan_nodes (capability : Capability) (first : string) (nodes : list Node) : IO string :=
  match nodes with
  | [] => mret first
  | n :: nodes =>
      ndr ← try (report_get (Node_Name n));
      match ndr with
      | inr _ => scan_nodes capability first nodes
      | inl ndr =>
          match scan_devices capability first (Ndr_Devices ndr) with
          | inr product => mret product
          | inl first => scan_nodes capability first nodes
          end
      end
  end.
Definition furiosaProductFromNDR (sel : gmap string string) (capability : Capability) : IO string :=
  nodes ← try (matching_nodes sel);
  match nodes with inr _ => mret "" | inl nodes => scan_nodes capability "" nodes end.
Definition vendorCapability (vendor : string) (sel : gmap string string) (capability : Capability) : IO Support :=
  if bool_decide (vendor = "furiosa") then
    product ← furiosaProductFromNDR sel capability;
    mret (match (if bool_decide (product = "") then None else VendorCap.Lookup reg vendor product capability) with
          | Some s => s
          | None => LookupVendor reg vendor capability
          end)
  else mret (LookupVendor reg vendor capability).
(** The capability of the policy's vendor on the nodes it selects. *)
Definition capable (spec : AcceleratorPartitionPolicySpec) : Capability → IO Support :=
  vendorCapability (PartitionTypes.Spec_Vendor spec) (Spec_NodeSelector spec).

Definition requirePartitionBackendForSharing (spec : AcceleratorPartitionPolicySpec) : IO () :=
  match Spec_Sharing spec with
  | None => mret ()
  | Some sh =>
      p ← capable spec CapPartition;
      if negb (declaredSupported p) then
        throw (errorf ("spec.vendor " +:+ quote (PartitionTypes.Spec_Vendor spec) +:+ ": sharing " +:+ Shs_Mode sh +:+
          " 는 ACPP 경로(partition backend 필요)에서 지원하지 않는다 — AcceleratorDescriptor spec.sharing 을 쓴다"))
      else mret ()
  end.
(** Nothing to revert: none of the three capabilities. *)
Definition requireSomethingToRevert (spec : AcceleratorPartitionPolicySpec) : IO () :=
  p ← capable spec CapPartition;
  if declaredSupported p then mret ()
  else
    t ← capable spec CapTimeSlicing;
    if declaredSupported t then mret ()
    else
      m ← capable spec CapMultiProcess;
      if declaredSupported m then mret ()
      else throw (errorf ("spec.vendor " +:+ quote (PartitionTypes.Spec_Vendor spec) +:+
             ": no partition or sharing capability to revert — " +:+ reason_of p)).
Definition requirePartition (spec : AcceleratorPartitionPolicySpec) : IO () :=
  s ← capable spec CapPartition;
  if declaredSupported s then mret ()
  else throw (errorf ("spec.vendor " +:+ quote (PartitionTypes.Spec_Vendor spec) +:+ ": partition " +:+ Su_State s +:+ " — " +:+ reason_of s)).
Definition sharing_capability (mode : string) : option Capability :=
  if bool_decide (mode = SharingModeTimeSliced) then Some CapTimeSlicing
  else if bool_decide (mode = SharingModeMPS) then Some CapMultiProcess else None.
Definition requireSharing (spec : AcceleratorPartitionPolicySpec) : IO () :=
  match Spec_Sharing spec with
  | None => mret ()
  | Some sh =>
      match sharing_capability (Shs_Mode sh) with
      | None => mret ()
      | Some c =>
          s ← capable spec c;
          if declaredSupported s then mret ()
          else throw (errorf ("spec.vendor " +:+ quote (PartitionTypes.Spec_Vendor spec) +:+ ": sharing " +:+ Shs_Mode sh +:+ " " +:+
                 Su_State s +:+ " — " +:+ reason_of s))
      end
  end.

(** A profile that the product of a node is known not to have. *)
Definition unknown_profile (requested : string) (d : DeviceEntry) : bool :=
  bool_decide (De_Vendor d = vendorNvidia) && negb (bool_decide (De_Model d = "")) &&
  match KnownMIGProfiles (De_Model d) with Some profiles => negb (bool_decide (requested ∈ profiles)) | None => false end.
Fixpoint check_profiles (requested : string) (nodes : list Node) : IO () :=
  match nodes with
  | [] => mret ()
  | n :: nodes =>
      ndr ← try (report_get (Node_Name n));
      match ndr with
      | inr _ => check_profiles requested nodes
      | inl ndr =>
          match find_first (unknown_profile requested) (Ndr_Devices ndr) with
          | Some d =>
              throw (errorf ("spec.layout[0].profile " +:+ quote requested +:+ " is not a MIG profile of product " +:+
                quote (De_Model d) +:+ " on node " +:+ Node_Name n))
          | None => check_profiles requested nodes
          end
      end
  end.
(** From the list of the nodes on. *)
Definition check_nodes (spec : AcceleratorPartitionPolicySpec) : IO () :=
  nodes ← try (matching_nodes (Spec_NodeSelector spec));
  match nodes with
  | inr _ => mret ()
  | inl [] => throw (errorf ("spec.nodeSelector " +:+ sprint_map (Spec_NodeSelector spec) +:+ " matches no node"))
  | inl nodes =>
      match Spec_Layout spec with
      | [] => mret ()
      | l :: _ => if negb (bool_decide (PartitionTypes.Spec_Vendor spec = vendorNvidia)) then mret ()
                  else check_profiles (Pl_Profile l) nodes
      end
  end.
Definition layouts_of (spec : AcceleratorPartitionPolicySpec) : list Layout :=
  (λ l, mkLayout (Pl_Profile l) (Pl_CountPerDevice l)) <$> Spec_Layout spec.
Definition no_layout (spec : AcceleratorPartitionPolicySpec) : bool := bool_decide (length (Spec_Layout spec) = 0%nat).
Definition validateACPP (acpp : AcceleratorPartitionPolicy) : IO () :=
  let spec := Acpp_Spec acpp in
  let vendor := PartitionTypes.Spec_Vendor spec in
  if no_layout spec && bool_decide (Spec_Sharing spec = None) then
    throw (errorf "spec.layout and spec.sharing are both empty — policy requests nothing")
  else if bool_decide (Spec_DeletionPolicy spec = DeletionPolicyRestoreMode) && negb (bool_decide (vendor = vendorNvidia)) then
    throw (errorf ("spec.deletionPolicy " +:+ quote (Spec_DeletionPolicy spec) +:+ ": supported only for spec.vendor " +:+
      quote "nvidia" +:+ " — vendor " +:+ quote vendor +:+ " deletion keeps the current partition (Retain)"))
  else
    _ ← (if no_layout spec && bool_decide (EffectiveSharingMode spec = SharingModeExclusive)
         then requireSomethingToRevert spec else mret ());
    _ ← (if no_layout spec then mret () else requirePartition spec);
    _ ← requirePartitionBackendForSharing spec;
    _ ← requireSharing spec;
    match ValidateLayoutShape vendor (layouts_of spec) with
    | Some e => throw (errorf_w "spec.layout" e)
    | None => check_nodes spec
    end.

Definition ACPPValidator_ValidateCreate (acpp : AcceleratorPartitionPolicy) : IO () :=
  recordRejection "AcceleratorPartitionPolicy" (validateACPP acpp).
Definition ACPPValidator_ValidateUpdate (newObj : AcceleratorPartitionPolicy) : IO () :=
  if bool_decide (is_Some (Acpp_DeletionTimestamp newObj)) then mret ()
  else recordRejection "AcceleratorPartitionPolicy" (validateACPP newObj).
End Partition.

(** ** Classes *)

Section Classes.
Context `{MapRange} `{Quantities}.
Definition vendor_key (m : AcceleratorMapping) : string := to_lower (trim_space (Map_Vendor m)).
(** What the custom resource's schema allows as a vendor. *)
Definition schema_vendors : list string := ["nvidia"; "furiosa"; "rebellions"; "tenstorrent"].

Lemma check_mappings_None seen i ms : check_mappings seen i ms = None →
  NoDup (vendor_key <$> ms) ∧ (∀ m, m ∈ ms → vendor_key m ∉ seen) ∧
  ∀ m, m ∈ ms → ∃ res, WholeDeviceResource (Map_Vendor m) (Map_Product m) = inl res.
Proof.
  revert seen i. induction ms as [|m ms IH]; intros seen i; simpl.
  { intros _. split_and!; [apply NoDup_nil_2|by intros m Hm%elem_of_nil|by intros m Hm%elem_of_nil]. }
  unfold check_mapping. fold (vendor_key m). destruct (negb (mget _ _ _)); [done|].
  destruct (contains_string seen _) eqn:Es; [done|]. destruct (negb _ && _); [done|].
  destruct (WholeDeviceResource _ _) as [res|] eqn:Er; [|done]. intros (Hnd & Hseen & Hres)%IH. split_and!.
  - apply NoDup_cons. split; [|done]. intros (m' & E & Hm')%list_elem_of_fmap. apply (Hseen m' Hm'). rewrite <-E. by left.
  - intros m' [->|Hm']%elem_of_cons.
    + intros Hin. apply contains_string_true in Hin. congruence.
    + intros Hin. apply (Hseen m' Hm'). by right.
  - intros m' [->|Hm']%elem_of_cons; eauto.
Qed.

(** Where the name of a whole device comes from. *)
Lemma WholeDeviceResource_in vendor product res : WholeDeviceResource vendor product = inl res →
  productResource !! to_lower vendor = None ∧ res = "" ∨
  ∃ products k, productResource !! to_lower vendor = Some products ∧ products !! k = Some res.
Proof.
  unfold WholeDeviceResource. destruct (productResource !! to_lower vendor) as [products|]; [|intros [= <-]; by left].
  intros E. right. exists products.
  assert (Hlook : ∀ e, match products !! to_lower product with Some res => inl res | None => inr e end = inl res (B := GoErr) →
    ∃ k, products !! k = Some res).
  { intros e. destruct (products !! to_lower product) as [n|] eqn:El; [|done]. intros [= <-]. by eexists. }
  destruct (range_map products) as [|[k n] [|? ?]] eqn:El; [by apply Hlook in E as [k ?]; exists k| |by apply Hlook in E as [k' ?]; exists k'].
  injection E as <-. exists k. split; [done|]. apply elem_of_range_map. rewrite El. by left.
Qed.
(** The resource of a vendor of the schema has a name. *)
Lemma schema_resource vendor product res :
  vendor ∈ schema_vendors → WholeDeviceResource vendor product = inl res → res ≠ "".
Proof.
  assert (Hall : map_Forall (λ _ ps, map_Forall (λ _ n, n ≠ "") (ps : gmap string string)) productResource) by decide_compute.
  assert (Hin : Forall (λ v, is_Some (productResource !! to_lower v)) schema_vendors) by decide_compute.
  rewrite Forall_forall in Hin. intros Hv [[En _]|(products & k & Hp & Hk)]%WholeDeviceResource_in.
  - destruct (Hin vendor Hv) as [products Hp]. by rewrite En in Hp.
  - by apply (Hall _ _ Hp k res).
Qed.
Lemma schema_resource_for m mode :
  Map_Vendor m ∈ schema_vendors → (∃ res, WholeDeviceResource (Map_Vendor m) (Map_Product m) = inl res) →
  ∃ res, ResourceFor m mode = inl res ∧ res ≠ "".
Proof.
  intros Hv [res Hr]. assert (Hne : res ≠ "") by by eapply schema_resource.
  unfold ResourceFor, PartitionResource. destruct (partitioned_mode mode); [|eauto].
  destruct (equal_fold _ _ && _); [by eexists|eauto].
Qed.
End Classes.

Section AdmittedClass.
Context `{MapRange} `{Quantities}.

(** C13. A class that was admitted never goes wrong: whatever the access mode, each of
    its mappings has a resource name, so none is skipped as unknown or ambiguous; and a
    workload of the class that may use the device plugin is refused only when no node
    passes both gates for any of the mappings. *)
Theorem admitted_class_serves (ac : AcceleratorClass) :
  validateAcceleratorClass ac = None → (∀ m, m ∈ Cl_Mappings ac → Map_Vendor m ∈ schema_vendors) →
  (∀ m mode, m ∈ Cl_Mappings ac → ∃ res, ResourceFor m mode = inl res ∧ res ≠ "") ∧
  (∀ acc snap dra, Tr_AllocationAPI (BuildRequest acc ac) ∈ [AllocationAPIAuto; AllocationAPIDevicePlugin] →
     (∃ res, TranslateWithDRA (BuildRequest acc ac) snap dra = inl res) ↔
     ∃ m nc, m ∈ Cl_Mappings ac ∧ nc ∈ snap ∧ serves (BuildRequest acc ac) m nc).
Proof.
  intros Hadm Hschema. unfold validateAcceleratorClass in Hadm.
  assert (Hne : Cl_Mappings ac ≠ []) by by destruct (Cl_Mappings ac).
  assert (Hck : check_mappings [] 0 (Cl_Mappings ac) = None) by by destruct (Cl_Mappings ac).
  apply check_mappings_None in Hck as (Hnd & _ & Hres). split.
  { intros m mode Hm. apply schema_resource_for; auto. }
  intros acc snap dra Hapi. set (req := BuildRequest acc ac) in *.
  rewrite plugin_run; [|by right|done|done].
  pose proof (try_mappings_spec req snap AllocationAPIDevicePlugin
    (orderMappings (Tr_Mappings req) (Tr_VendorPreference req)) None) as Hs.
  pose proof (orderMappings_perm (Tr_Mappings req) (Tr_VendorPreference req)) as Hp.
  destruct (try_mappings _ _ _ _ _) as [res|rj]; split; [|by eexists|by intros []|].
  - intros _. destruct Hs as (l1 & m & l2 & El & _ & _ & _ & _ & _ & _ & _ & _ & Hn & _ & Hall). exists m.
    destruct (Ra_Nodes res) as [|n ns] eqn:En; [done|]. destruct (proj1 (Hall n) ltac:(by left)) as (nc & Hnc & _ & Hsv).
    exists nc. split_and!; [|done..]. change (Cl_Mappings ac) with (Tr_Mappings req). rewrite <-Hp, El. apply elem_of_app. right. by left.
  - intros (m & nc & Hm & Hnc & Hsv). destruct (Hs m nc); [by rewrite Hp|done..].
Qed.
End AdmittedClass.

(** ** Cluster policies *)

(** The objects of a pass over the policy that run an image the policy names: who asks
    for it, and the DaemonSet. *)
Section Images.
Context `{MapRange, LabelSelectors, Environment}.
Inductive plugin_of (p : NPUClusterPolicy) : ODaemonSet → Prop :=
| nvidia_of name mixed : Nv_Enabled (Nvidia p) = true → IsOperatorOwned (Nv_Management (Nvidia p)) = true →
    plugin_of p (nvidia_plugin p name mixed)
| warboy_of : Fu_Enabled (Furiosa p) = true → IsOperatorOwned (Fu_Management (Furiosa p)) = true →
    plugin_of p (warboy_plugin p)
| rngd_of policy : Rg_Enabled (Rngd p) = true → IsOperatorOwned (Fu_Management (Furiosa p)) = true →
    plugin_of p (rngd_plugin p policy)
| rebellions_of : Rbl_Enabled (Rebellions p) = true → IsOperatorOwned (Rbl_Management (Rebellions p)) = true →
    plugin_of p (rebellions_plugin p)
| tenstorrent_of : Tt_Enabled (Tenstorrent p) = true → IsOperatorOwned (Tt_Management (Tenstorrent p)) = true →
    plugin_of p (tenstorrent_plugin p).

Lemma image_present (s : NPUClusterPolicySpec) name enabled owned img :
  find_first image_missing (image_checks s) = None → mkImageCheck name enabled owned img ∈ image_checks s →
  enabled = true → owned = true → trim_space img ≠ "".
Proof.
  intros Hf Hin -> -> E. apply find_first_None in Hf. rewrite Forall_forall in Hf.
  specialize (Hf _ Hin). unfold image_missing in Hf. simpl in Hf. by rewrite bool_decide_eq_true_2 in Hf.
Qed.
Lemma or_default_set (img dflt : string) : trim_space img ≠ "" → or_default img dflt = img.
Proof. intros Hi. unfold or_default. case_bool_decide as E; [|done]. by subst img. Qed.
Lemma runs_image (ds : ODaemonSet) (s : PodSpec) img :
  workload (ods_pod ds) = workload s → Forall (λ c, Oc_Image c = img) (Ps_Containers s) →
  ∀ c, c ∈ Ps_Containers (ods_pod ds) → Oc_Image c = img.
Proof. intros E Hs c. change (Ps_Containers (ods_pod ds)) with (workload (ods_pod ds)).1. rewrite E. rewrite Forall_forall in Hs. apply Hs. Qed.
End Images.

Section AdmittedNcp.
Context `{MapRange, LabelSelectors, Environment}.

(** An admitted cluster policy deploys no plugin without an image: its management
    modes are ones the controller knows, so a vendor is either deployed by the operator
    or left to somebody by name, and every container of every device plugin that the
    controller renders for an enabled vendor of its own has an image that is not blank.
    (The image of the unified Furiosa plugin has a default and is not asked about.) *)
Theorem admitted_policy_has_images (p : NPUClusterPolicy) :
  validateNCP p = None →
  (∀ name m, (name, m) ∈ ncp_modes (Ncp_Spec p) → m ∈ [""; "managed"; "delegated"; "external"]) ∧
  (∀ ds c, plugin_of p ds → c ∈ Ps_Containers (ods_pod ds) → trim_space (Oc_Image c) ≠ "").
Proof.
  unfold validateNCP. destruct (find_first _ (ncp_modes _)) as [[]|] eqn:Em; [done|].
  destruct (find_first image_missing _) eqn:Ei; [done|]. intros _. split.
  - intros name m Hin. apply find_first_None in Em. rewrite Forall_forall in Em. specialize (Em _ Hin). simpl in Em.
    unfold mode_unknown, IsOperatorOwned, IsDelegated, IsExternal in Em. rewrite !elem_of_cons. repeat case_bool_decide; simpl in Em; try discriminate Em; tauto.
  - intros ds c Hds. assert (Hck : ∀ name e o i, mkImageCheck name e o i ∈ image_checks (Ncp_Spec p) → e = true → o = true →
      trim_space i ≠ "") by (intros; by eapply image_present).
    destruct Hds as [name mixed He Ho|He Ho|policy He Ho|He Ho|He Ho]; intros Hc.
    + assert (E : Oc_Image c = Nv_DevicePluginImage (Nvidia p)).
      { change (Ps_Containers (ods_pod (nvidia_plugin p name mixed))) with (workload (ods_pod (nvidia_plugin p name mixed))).1 in Hc.
        rewrite nvidia_workload in Hc. by apply list_elem_of_singleton in Hc as ->. }
      rewrite E. eapply Hck; [by left|done|done].
    + assert (E : Oc_Image c = Fu_DevicePluginImage (Furiosa p)).
      { revert c Hc. eapply runs_image; [apply narrow_workload|]. by repeat constructor. }
      rewrite E. eapply Hck; [right; by left|done|done].
    + assert (E : Oc_Image c = or_default (Rg_DevicePluginImage (Rngd p)) furiosaRngdDevicePluginImageDefault).
      { revert c Hc. eapply runs_image; [apply narrow_workload|]. by repeat constructor. }
      assert (Hi : trim_space (Rg_DevicePluginImage (Rngd p)) ≠ "") by (eapply Hck; [do 2 right; by left|done|done]).
      by rewrite E, or_default_set.
    + assert (E : Oc_Image c = Rbl_DevicePluginImage (Rebellions p)).
      { revert c Hc. eapply runs_image; [apply narrow_workload|]. by repeat constructor. }
      rewrite E. eapply Hck; [do 3 right; by left|done|done].
    + assert (E : Oc_Image c = or_default (Tt_DevicePluginImage (Tenstorrent p)) ttImageDefault).
      { revert c Hc. eapply runs_image; [apply narrow_workload|]. by repeat constructor. }
      assert (Hi : trim_space (Tt_DevicePluginImage (Tenstorrent p)) ≠ "") by (eapply Hck; [do 4 right; by left|done|done]).
      by rewrite E, or_default_set.
Qed.
End AdmittedNcp.

(** ** Partition policies *)

Section Policies.
Context {W : Type} `{UpgradeAPI W} `{MapRange} (reg : Registry).

(** Some product of the vendor has the capability. *)
Definition some_product (vendor : string) (c : Capability) : Prop :=
  ∃ product s, VendorCap.Lookup reg vendor product c = Some s ∧ supported s = true.
Lemma entry_supported k c : supported (entry reg k c) = true → some_product (VendorCap.Vendor k) c.
Proof.
  assert (Hz : supported zero_support ≠ true) by by vm_compute.
  unfold entry, mget. destruct (reg !! k) as [caps|] eqn:E; simpl; [|intros Hs; by destruct (Hz Hs)].
  match goal with |- context [default zero_support ?o] => destruct o as [s|] eqn:Ec end; simpl; [|intros Hs; by destruct (Hz Hs)]. intros Hs. exists (VendorCap.Product k), s. split; [|done].
  destruct k as [v p]. exact (eq_trans (f_equal (λ o, o ≫= (!!) c) E) Ec).
Qed.
Lemma LookupVendor_some vendor c : supported (LookupVendor reg vendor c) = true → some_product vendor c.
Proof.
  unfold LookupVendor. destruct (lookup_vendor_supported reg vendor c (Keys reg) None) as [[Hn ->]|(k & _ & <- & Hs & ->)].
  - simpl. destruct (find_first _ _) as [k|] eqn:Ef; [|done]. apply find_first_Some in Ef as (l1 & l2 & El & Hk & _).
    simpl. bool_prop. rewrite Hn; [done|rewrite El; set_solver|done].
  - intros _. by apply entry_supported.
Qed.
Lemma capable_some spec c w s w' :
  capable reg spec c w = (inl s, w') → declaredSupported s = true → some_product (PartitionTypes.Spec_Vendor spec) c.
Proof.
  unfold capable, vendorCapability. case_bool_decide as Hv.
  - intros (product & w1 & _ & [= <- <-])%bind_inl_inv. destruct (if bool_decide _ then _ else _) as [s|] eqn:E.
    + intros Hs. exists product, s. split; [|done]. by destruct (bool_decide (product = "")).
    + apply LookupVendor_some.
  - intros [= <- <-]. apply LookupVendor_some.
Qed.
(** What each gate leaves behind. *)
Notation allowed c spec := (some_product (PartitionTypes.Spec_Vendor spec) c).
Lemma requirePartition_ok spec w w' : requirePartition reg spec w = (inl (), w') → allowed CapPartition spec.
Proof.
  intros (s & w1 & Hc & E)%bind_inl_inv. destruct (declaredSupported s) eqn:Es; [|done]. by eapply capable_some.
Qed.
Lemma requireBackend_ok spec w w' :
  requirePartitionBackendForSharing reg spec w = (inl (), w') → is_Some (Spec_Sharing spec) → allowed CapPartition spec.
Proof.
  unfold requirePartitionBackendForSharing. intros E [sh Hs]. rewrite Hs in E. apply bind_inl_inv in E as (s & w1 & Hc & E).
  destruct (declaredSupported s) eqn:Es; [|done]. by eapply capable_some.
Qed.
Lemma requireSharing_ok spec w w' sh c :
  requireSharing reg spec w = (inl (), w') → Spec_Sharing spec = Some sh → sharing_capability (Shs_Mode sh) = Some c → allowed c spec.
Proof.
  unfold requireSharing. intros E Hs Hm. rewrite Hs, Hm in E. apply bind_inl_inv in E as (s & w1 & Hc & E).
  destruct (declaredSupported s) eqn:Es; [|done]. by eapply capable_some.
Qed.
Lemma check_nodes_ok spec w w' : check_nodes spec w = (inl (), w') →
  ∃ r w1, matching_nodes (Spec_NodeSelector spec) w = (r, w1) ∧ r ≠ inl [].
Proof.
  unfold check_nodes. rewrite bind_try. destruct (matching_nodes _ w) as [r w1]. intros E. exists r, w1. split; [done|].
  by intros ->.
Qed.
Lemma ValidateLayoutShape_ok vendor spec : ValidateLayoutShape vendor (layouts_of spec) = None →
  (length (Spec_Layout spec) <= 1)%nat ∧ ∀ l, l ∈ Spec_Layout spec →
    0 < Pl_CountPerDevice l ∧ (vendor = "nvidia" → IsNvidiaMIGProfile (Pl_Profile l) = true).
Proof.
  unfold layouts_of. destruct (Spec_Layout spec) as [|l [|? ?]]; simpl; [intros _; split; [lia|by intros l ?%elem_of_nil]| |done].
  destruct (Z.leb_spec (Pl_CountPerDevice l) 0); [done|]. destruct (bool_decide _ && _) eqn:E; [done|]. intros _.
  split; [lia|]. intros l' ->%list_elem_of_singleton. split; [done|]. intros ->. by destruct (IsNvidiaMIGProfile _).
Qed.
End Policies.

(** What the registry declares. *)
Lemma declared_only (reg : Registry) (P : string → bool) vendor c :
  some_product reg vendor c →
  forallb (λ kv, match kv.2 !! c with Some s => negb (supported s) || P (VendorCap.Vendor kv.1) | None => true end)
    (map_to_list reg) = true → P vendor = true.
Proof.
  intros (product & s & E & Hs) Hall. unfold VendorCap.Lookup in E.
  destruct (reg !! (vendor, product)) as [caps|] eqn:Ek; [|done]. rewrite forallb_forall in Hall.
  assert (Hin : ((vendor, product), caps) ∈ map_to_list reg) by (by apply elem_of_map_to_list).
  specialize (Hall _ (proj1 (list_elem_of_In _ _) Hin)). change (caps !! c = Some s) in E. cbv beta iota delta [snd fst] in Hall.
  revert Hall. match goal with |- context [match ?o with Some _ => _ | None => true end] => change o with (caps !! c) end.
  rewrite E, Hs. exact id.
Qed.
Lemma partition_vendors vendor : some_product registry vendor CapPartition → is_Some (backendFor vendor).
Proof.
  intros Hs. apply (declared_only registry (λ v, bool_decide (is_Some (backendFor v)))) in Hs; [by bool_prop|]. vm_compute. reflexivity.
Qed.
Lemma sharing_vendors vendor mode c : sharing_capability mode = Some c →
  some_product registry vendor CapPartition → some_product registry vendor c → vendor = vendorNvidia.
Proof.
  intros Hm Hp Hc.
  apply (declared_only registry (λ v, bool_decide (v = "nvidia") || bool_decide (v = "furiosa"))) in Hp; [|vm_compute; reflexivity].
  apply (declared_only registry (λ v, negb (bool_decide (v = "furiosa")))) in Hc.
  - apply orb_true_iff in Hp as [Hp%bool_decide_eq_true|Hp%bool_decide_eq_true]; [done|]. by rewrite bool_decide_eq_true_2 in Hc.
  - unfold sharing_capability in Hm. repeat case_bool_decide; simplify_eq; vm_compute; reflexivity.
Qed.

Section AdmittedAcpp.
Context {W : Type} `{UpgradeAPI W} `{MapRange}.

(** C15. A partition policy that was admitted is one that the controller can serve: its
    vendor has a partition backend, whatever it asks for; it asks for one layout at
    most, with a positive count and, on NVIDIA, the name of a MIG profile, and for
    sharing when it has none; only an NVIDIA policy restores the mode when it is
    deleted or shares the device between processes; and some node was selected, unless
    the nodes could not be listed. *)
Theorem admitted_partition_is_served (p : AcceleratorPartitionPolicy) (w w' : W) :
  validateACPP registry p w = (inl (), w') →
  let spec := Acpp_Spec p in
  let vendor := PartitionTypes.Spec_Vendor spec in
  is_Some (backendFor vendor) ∧
  ((length (Spec_Layout spec) <= 1)%nat ∧ ∀ l, l ∈ Spec_Layout spec →
     0 < Pl_CountPerDevice l ∧ (vendor = "nvidia" → IsNvidiaMIGProfile (Pl_Profile l) = true)) ∧
  (Spec_Layout spec = [] → is_Some (Spec_Sharing spec)) ∧
  (Spec_DeletionPolicy spec = DeletionPolicyRestoreMode → vendor = vendorNvidia) ∧
  (∀ sh, Spec_Sharing spec = Some sh → Shs_Mode sh ∈ [SharingModeTimeSliced; SharingModeMPS] → vendor = vendorNvidia) ∧
  (∃ r w1 w2, matching_nodes (Spec_NodeSelector spec) w1 = (r, w2) ∧ r ≠ inl []).
Proof.
  intros E spec vendor. unfold validateACPP in E. fold spec in E. change (PartitionTypes.Spec_Vendor spec) with vendor in E.
  destruct (no_layout spec && _) eqn:Ee; [done|]. destruct (bool_decide (Spec_DeletionPolicy _ = _) && _) eqn:Ed; [done|].
  apply bind_inl_inv in E as ([] & w1 & _ & E). apply bind_inl_inv in E as ([] & w2 & Hp & E).
  apply bind_inl_inv in E as ([] & w3 & Hb & E). apply bind_inl_inv in E as ([] & w4 & Hs & E).
  destruct (ValidateLayoutShape vendor (layouts_of spec)) eqn:El; [done|]. apply check_nodes_ok in E as (r & w5 & Hn & Hr).
  assert (Hnone : Spec_Layout spec = [] → is_Some (Spec_Sharing spec)).
  { intros Hl. unfold no_layout in Ee. rewrite Hl in Ee. simpl in Ee. destruct (Spec_Sharing spec); [by eexists|done]. }
  assert (Hpart : some_product registry vendor CapPartition).
  { destruct (no_layout spec) eqn:Enl.
    - apply (requireBackend_ok registry _ _ _ Hb), Hnone, nil_length_inv. by apply bool_decide_eq_true in Enl.
    - by apply (requirePartition_ok registry spec w1 w2). }
  split; [by apply partition_vendors|]. split; [by apply ValidateLayoutShape_ok|]. split; [done|].
  split_and!; [| |by exists r, w4, w5].
  - intros Hd. destruct (decide (vendor = vendorNvidia)) as [|Hv]; [done|].
    by rewrite (bool_decide_eq_true_2 _ Hd), (bool_decide_eq_false_2 _ Hv) in Ed.
  - intros sh Hsh Hm. assert (is_Some (sharing_capability (Shs_Mode sh))) as [c Hc].
    { rewrite !elem_of_cons, elem_of_nil in Hm. destruct Hm as [->|[->|[]]]; by eexists. }
    by eapply sharing_vendors, (requireSharing_ok registry _ _ _ _ _ Hs).
Qed.
End AdmittedAcpp.

(** ** The webhooks and the workload controller *)

Section Agreement.
Context {W : Type} `{WorkloadAPI W, IntentAPI W, Clock W} `{MapRange}.

(** C16. Admission and the controller decide alike.  On the same answers of the API
    server, a workload that is admitted is one whose translation the controller goes on
    to realise, and the warning a user was given is the explanation the controller puts
    into the status, given exactly when the allocation is shared; a workload that is not
    admitted is one for which the controller creates nothing: it records a refusal or
    returns an error. *)
Theorem admission_agrees namespace name (w0 w w' : W) aw r :
  aw_get namespace name w0 = (inl aw, w) → validateAcceleratorWorkload aw w = (r, w') →
  match r with
  | inl warnings => ∃ class snap dra res,
      TranslateWithDRA (BuildRequest (Aws_Accelerator (Aw_Spec aw)) class) snap dra = inl res ∧
      warnings = share_warning res ∧ Reconcile namespace name w0 = realise aw res w'
  | inr e =>
      (∃ reason axis msg, Reconcile namespace name w0 = rejected aw reason axis msg w') ∨
      ∃ e', Reconcile namespace name w0 = (inr e', w')
  end.
Proof.
  intros Hget. unfold Reconcile. rewrite bind_try, Hget. cbn [fst snd]. unfold validateAcceleratorWorkload.
  rewrite !bind_try. destruct (class_get _ w) as [[class|e] w1]; cbn [fst snd].
  2:{ intros [= <- <-]. destruct (is_not_found e); [left; eexists _, _, _; reflexivity|right; eexists; reflexivity]. }
  rewrite !bind_try. destruct (Load w1) as [[[snap dra]|e] w2]; cbn [fst snd].
  2:{ intros [= <- <-]. destruct (nonRetryableAPIError e); [left; eexists _, _, _; reflexivity|right; eexists; reflexivity]. }
  destruct (TranslateWithDRA _ snap dra) as [res|[rj|]] eqn:Et; intros [= <- <-].
  - by exists class, snap, dra, res.
  - left. eexists _, _, _. reflexivity.
  - right. eexists. reflexivity.
Qed.
End Agreement.

Section Mutated.
Context `{MapRange} `{Quantities}.

(** The Pod that the Deployment of a workload creates. *)
Definition pod_of (d : WDeployment) : AdmittedPod :=
  let s := Wd_Spec d in
  mkAdmittedPod (Dsp_TemplateLabels s) (Dsp_RuntimeClassName s) (Dsp_Containers s) [] (Dsp_Other s).

Lemma nvidia_name m mode name :
  ResourceFor m mode = inl name → has_prefix name nvidiaResourcePrefix = true → to_lower (Map_Vendor m) = "nvidia".
Proof.
  assert (Hall : map_Forall (λ v ps, map_Forall (λ _ n, has_prefix n nvidiaResourcePrefix = true → v = "nvidia")
    (ps : gmap string string)) productResource) by decide_compute.
  assert (Hwhole : WholeDeviceResource (Map_Vendor m) (Map_Product m) = inl name →
    has_prefix name nvidiaResourcePrefix = true → to_lower (Map_Vendor m) = "nvidia").
  { intros [[_ ->]|(ps & k & Hps & Hk)]%WholeDeviceResource_in; [by vm_compute|]. by apply (Hall _ _ Hps k name). }
  unfold ResourceFor, PartitionResource. destruct (partitioned_mode mode); [|exact Hwhole].
  unfold equal_fold. case_bool_decide as Ev; [|exact Hwhole]. by rewrite Ev.
Qed.
Lemma asks_nvidia name (q : Z) : hasNvidiaResource {[name := q]} = has_prefix name nvidiaResourcePrefix.
Proof.
  unfold hasNvidiaResource. rewrite (existsb_perm _ _ _ (range_map_perm _)), map_to_list_singleton. simpl. apply orb_false_r.
Qed.
Lemma asks_nothing : hasNvidiaResource ∅ = false.
Proof. unfold hasNvidiaResource. by rewrite (proj2 (range_map_nil _) eq_refl). Qed.
Lemma Default_asked pod :
  (podRequestsNvidiaGPU pod = true → ∃ rc, Pa_RuntimeClassName pod = Some rc ∧ rc ≠ "") → Default pod = pod.
Proof.
  intros Hp. unfold Default. destruct (negb _); [done|]. destruct (podRequestsNvidiaGPU pod); [|done].
  destruct (Hp eq_refl) as (rc & -> & Hrc). by rewrite (bool_decide_eq_false_2 (Some rc = Some "")) by congruence.
Qed.
End Mutated.

Section AgreeOnClass.
Context `{MapRange} `{Quantities}.

(** C28. The mutating webhook and the workload controller agree on the runtime class.  A
    second admission of a Pod changes nothing, a Pod that does not opt in is left alone;
    and the Pods of a workload, which do opt in, already carry what the webhook would
    inject, whatever the translation answered: it leaves them as the controller wrote
    them. *)
Theorem mutator_agrees :
  (∀ pod, Default (Default pod) = Default pod) ∧
  (∀ pod, mget "" (Pa_Labels pod) InjectLabel ≠ "true" → Default pod = pod) ∧
  (∀ req snap dra res aw, TranslateWithDRA req snap dra = inl res →
     let pod := pod_of (renderDeployment aw res) in
     mget "" (Pa_Labels pod) InjectLabel = "true" ∧ Default pod = pod ∧
     (podRequestsNvidiaGPU pod = true → Pa_RuntimeClassName pod = Some nvidiaRuntimeClass)).
Proof.
  split_and!.
  - intros pod. destruct (Default pod) as [l rc cs ics other] eqn:E. revert E. unfold Default at 1.
    destruct (negb _) eqn:El; [intros <-; unfold Default; by rewrite El|].
    destruct (_ && _) eqn:Er; intros <-.
    + apply Default_asked. by eexists.
    + unfold Default. by rewrite El, Er.
  - intros pod Hl. unfold Default. by rewrite (bool_decide_eq_false_2 _ Hl).
  - intros req snap dra res aw Et pod.
    assert (Hl : mget "" (Pa_Labels pod) InjectLabel = "true").
    { unfold mget, pod. simpl. rewrite lookup_insert_ne by done. rewrite lookup_insert_ne by done. by rewrite lookup_singleton_eq. }
    assert (Hr : podRequestsNvidiaGPU pod = true → Pa_RuntimeClassName pod = Some nvidiaRuntimeClass).
    { unfold podRequestsNvidiaGPU, pod. simpl. rewrite asks_nothing, !orb_false_r.
      case_bool_decide as Ha; [by rewrite asks_nothing|]. rewrite asks_nvidia. intros Hp.
      apply answered_by in Et as [?|Et]; [done|].
      pose proof (try_mappings_spec req snap AllocationAPIDevicePlugin
        (orderMappings (Tr_Mappings req) (Tr_VendorPreference req)) None) as Hs. rewrite Et in Hs.
      destruct Hs as (l1 & m & l2 & _ & _ & Hname & _ & Hv & _).
      rewrite Hv, (nvidia_name _ _ _ Hname Hp). by vm_compute. }
    split_and!; [done| |done]. apply Default_asked. intros Hp. exists nvidiaRuntimeClass. split; [by apply Hr|done].
Qed.
End AgreeOnClass.

(** ** Runs *)

#[local] Existing Instances byte_quantities map_range_default UpgradeEffects.frozen_api.
#[local] Existing Instances WorkloadSafety.wl_clock WorkloadSafety.wl_intent WorkloadSafety.wl_api.

Definition large_class : AcceleratorClass := mkClass (H := byte_quantities) "large" (mkRequirements "" None)
  [mkMapping "rebellions" "" "" "" ""; mkMapping "nvidia" "" "1g.6gb" "" ""; mkMapping "furiosa" "rngd" "" "" ""].
Definition large_request : AcceleratorRequest := mkAccRequest (H := byte_quantities) "large" (mkAccess AccessModeExclusive "" 0) None None.
Example class_refusals :
  let refused vendor product profile := err_msg <$> validateAcceleratorClass (mkClass (H := byte_quantities) "c" (mkRequirements "" None)
     [mkMapping "nvidia" "" "" "" ""; mkMapping vendor product profile "" ""]) in
  refused " NVIDIA" "" "" = Some ("spec.mappings[1]: vendor " +:+ quote "nvidia" +:+ " appears more than once, which would make the vendor choice non-deterministic")
  ∧ is_Some (refused "amd" "" "") ∧ is_Some (refused "furiosa" "" "") ∧ is_Some (refused "furiosa" "rngd" "-x") ∧ refused "furiosa" "RNGD" "4pe" = None.
Proof. vm_compute. split_and!; by try eexists. Qed.

Definition partition_of (vendor : string) (layout : list PartitionLayout) (sharing : option SharingSpec) (deletion : string)
    : AcceleratorPartitionPolicy :=
  mkPolicy "acpp" "uid" 1 0 None [] "7" (mkPolicySpec ∅ vendor layout deletion sharing) 0 "" [] [].
Definition one_node : UpgradeEffects.Frozen := UpgradeEffects.demo_world true "1" [] None.
Definition admits (p : AcceleratorPartitionPolicy) : bool :=
  match (validateACPP registry p one_node).1 with inl _ => true | inr _ => false end.
(** The exclusive request is admitted for the vendors with a partition backend; that of
    Rebellions, whose registry entry supports time slicing, is not. *)
Example partition_answers :
  let shared mode := Some (mkSharingSpec mode None None) in
  let one := [mkPartitionLayout "1g.6gb" 4] in
  admits (partition_of "nvidia" one None "RestoreMode") = true ∧ admits (partition_of "furiosa" one None "") = true ∧
  admits (partition_of "nvidia" [] (shared SharingModeExclusive) "") = true ∧
  admits (partition_of "rebellions" [] (shared SharingModeExclusive) "") = false ∧
  supported (LookupVendor registry "rebellions" CapTimeSlicing) = true ∧
  admits (partition_of "nvidia" [] (shared SharingModeMPS) "") = true ∧ admits (partition_of "furiosa" one (shared SharingModeMPS) "") = false ∧
  admits (partition_of "furiosa" one None "RestoreMode") = false ∧ admits (partition_of "nvidia" [] None "") = false ∧
  admits (partition_of "nvidia" (one ++ one) None "") = false ∧ admits (partition_of "nvidia" [mkPartitionLayout "x" 1] None "") = false.
Proof. vm_compute. done. Qed.

Lemma admitted_class_serves_witness :
  (∀ m mode, m ∈ Cl_Mappings large_class → ∃ res, ResourceFor m mode = inl res ∧ res ≠ "") ∧
  ∃ res, TranslateWithDRA (BuildRequest large_request large_class) demo_snapshot no_dra = inl res.
Proof.
  destruct (admitted_class_serves large_class) as [Hres Hans]; [by vm_compute| |].
  - apply Forall_forall. decide_compute.
  - split; [exact Hres|]. apply Hans; [by left|]. exists (mkMapping "nvidia" "" "1g.6gb" "" ""), (gpu_node "w2" 2).
    split_and!; [right; by left|by left|]. apply check_node_None. vm_compute. reflexivity.
Defined.
#[export] Instance empty_environment : Environment := {| Getenv _ := EmptyString |}.
Lemma admitted_policy_has_images_witness :
  let p := demo_policy (demo_nvidia None) in
  validateNCP p = None ∧
  ∀ ds c, plugin_of (H0 := plain_selectors) p ds → c ∈ Ps_Containers (ods_pod ds) → trim_space (Oc_Image c) ≠ "".
Proof.
  intros p. assert (E : validateNCP p = None) by (vm_compute; reflexivity). split; [exact E|].
  exact (proj2 (admitted_policy_has_images (H0 := plain_selectors) p E)).
Defined.
Lemma admitted_partition_is_served_witness : is_Some (backendFor "nvidia") ∧ (1 <= 1)%nat.
Proof.
  assert (E : validateACPP registry (PartitionSpec.demo_acpp []) one_node = (inl (), one_node)) by (vm_compute; reflexivity).
  destruct (admitted_partition_is_served (PartitionSpec.demo_acpp []) one_node one_node E) as (Hb & [Hl _] & _).
  split; [exact Hb|exact Hl].
Defined.
Lemma admission_agrees_witness :
  let c := WorkloadSafety.wl_cluster None in
  let aw := WorkloadSafety.demo_workload WorkloadSafety.no_status in
  ∃ class snap dra res, TranslateWithDRA (BuildRequest (Aws_Accelerator (Aw_Spec aw)) class) snap dra = inl res ∧
    [] = share_warning res ∧ Reconcile "team" "train" c = realise aw res c.
Proof.
  intros c aw. assert (E : validateAcceleratorWorkload aw c = (inl [], c)) by (vm_compute; reflexivity).
  exact (admission_agrees "team" "train" c c c aw (inl []) eq_refl E).
Defined.
Lemma mutator_agrees_witness :
  let pod := pod_of (renderDeployment (WorkloadSafety.demo_workload WorkloadSafety.no_status) WorkloadSafety.demo_res) in
  Default (Default pod) = pod ∧ podRequestsNvidiaGPU pod = true.
Proof.
  intros pod. destruct mutator_agrees as [Hi _]. split; [rewrite Hi; vm_compute; reflexivity|vm_compute; reflexivity].
Defined.
