(* ===== verification/Descriptor.v ===== *)
(** * internal/descriptor: a device described once, for either backend

    Models [acceleratordescriptor_types.go] and [validate.go], [verify.go],
    [compile.go], [compare.go]: what a declaration must satisfy, which backends can be
    generated from it, their configuration, and the comparison of what two backends
    give a container.  [corpus.go], the mutation rules of a test corpus, is left out. *)

From S2P Require Import Prelude GoStrings GoTime GoText PolicyTypes PartitionProfiles.

(** ** acceleratordescriptor_types.go *)

Definition AllocationUnitDevice : string := "device".
Definition AllocationUnitPartition : string := "partition".
Definition IdentitySourcePCIAddress : string := "pciAddress".
Definition IdentitySourceUUID : string := "uuid".
Definition IdentitySourceSerial : string := "serial".
Definition BackendDevicePlugin : string := "devicePlugin".
Definition BackendDRA : string := "dra".

Record DescriptorIdentity := mkIdentity { Di_Source : string; Di_StableAcrossReboot : bool }.
Record DescriptorCleanup := mkCleanup { Dc_RequiresDeviceReset : bool; Dc_ResetCommand : list string }.
Record DescriptorSharing := mkDescriptorSharing { Dsh_Mode : string; Dsh_Replicas : Z }.
Record AcceleratorDescriptorSpec := mkDescriptorSpec {
  Dd_Vendor : string;
  Dd_Product : string;
  Dd_AllocationUnit : string;
  Dd_Identity : DescriptorIdentity;
  Dd_DeviceNodes : list string;
  Dd_Backends : list string;
  Dd_Cleanup : DescriptorCleanup;
  Dd_Sharing : option DescriptorSharing;
  Dd_Attributes : gmap string string;
  Dd_Capacity : gmap string string;
  Dd_CapacityFiles : gmap string string;
}.
Record NodeDeviceIDs := mkNodeIDs { Ni_Node : string; Ni_IDs : list string }.
Record DescriptorRefusal := mkRefusal { Rf_Backend : string; Rf_Reason : string }.
(** [status.conditions] is never written. *)
Record AcceleratorDescriptorStatus := mkDescriptorStatus {
  Das_FeasibleBackends : list string; Das_Refusals : list DescriptorRefusal; Das_ResolvedDevices : list NodeDeviceIDs;
}.
Record AcceleratorDescriptor := mkDescriptor {
  Da_Name : string; Da_UID : string; Da_Generation : Z; Da_Spec : AcceleratorDescriptorSpec; Da_Status : AcceleratorDescriptorStatus;
}.
(** [probe.Backends = ...] *)
Definition with_backends (l : list string) (s : AcceleratorDescriptorSpec) : AcceleratorDescriptorSpec :=
  mkDescriptorSpec (Dd_Vendor s) (Dd_Product s) (Dd_AllocationUnit s) (Dd_Identity s) (Dd_DeviceNodes s) l (Dd_Cleanup s)
    (Dd_Sharing s) (Dd_Attributes s) (Dd_Capacity s) (Dd_CapacityFiles s).

(** ** path.Clean *)

Definition clean_step (rooted : bool) (stack : list string) (c : string) : list string :=
  if bool_decide (c = "") || bool_decide (c = ".") then stack
  else if bool_decide (c = "..") then
    match stack with
    | top :: rest => if bool_decide (top = "..") then ".." :: stack else rest
    | [] => if rooted then [] else [".."]
    end
  else c :: stack.
(** The components that stay, in order. *)
Definition clean_parts (rooted : bool) (p : string) : list string :=
  reverse (foldl (clean_step rooted) [] (split_on "/" p)).
Definition path_clean (p : string) : string :=
  if has_prefix p "/" then "/" +:+ join "/" (clean_parts true p)
  else match clean_parts false p with [] => "." | l => join "/" l end.
Example path_clean_runs :
  path_clean "/dev/../etc/shadow" = "/etc/shadow" ∧ path_clean "/dev/./rngd//npu0" = "/dev/rngd/npu0" ∧ path_clean "" = "." ∧
  path_clean "/.." = "/" ∧ path_clean "a/../../b/" = "../b" ∧ path_clean "../../a" = "../../a" ∧ path_clean "a/.." = ".".
Proof. vm_compute. done. Qed.

(** ** validate.go *)

(** What the code takes from [k8s.io/apimachinery] and [k8s.io/api]: two rules on
    names (the messages of what is wrong), [resource.ParseQuantity] as whether it
    succeeds, three limits, and the text of a list of errors. *)
Inductive Problem := Required | Invalid | NotSupported (supported : list string) | Duplicate.
Record FieldError := mkFieldError { Fe_Problem : Problem; Fe_Field : string; Fe_Value : string; Fe_Detail : string }.
Class FieldRules := {
  IsDNS1123Subdomain : string → list string;
  IsQualifiedName : string → list string;
  ParseQuantity : string → bool;
  DeviceAttributeMaxValueLength : Z;
  DeviceMaxDomainLength : Z;
  DeviceMaxIDLength : Z;
  ToAggregate : list FieldError → string;
}.

Definition validUnits : list string := [AllocationUnitDevice; AllocationUnitPartition].
Definition validSources : list string := [IdentitySourcePCIAddress; IdentitySourceUUID; IdentitySourceSerial].
Definition validBackends : list string := [BackendDevicePlugin; BackendDRA].

(** [cIdentRE] *)
Definition ident_start (c : ascii) : bool := (is_alnum c && negb (is_digit c)) || bool_decide (c = "_"%char).
Definition cIdentRE (s : string) : bool :=
  match s with
  | EmptyString => false
  | String c s' => ident_start c && str_forall (λ c, is_alnum c || bool_decide (c = "_"%char)) s'
  end.
Definition strlen (s : string) : Z := Z.of_nat (String.length s).

Fixpoint first_dup (seen : list string) (xs : list string) : string :=
  match xs with
  | [] => ""
  | x :: xs => if contains_string seen x then x else first_dup (x :: seen) xs
  end.
Definition firstDuplicate (xs : list string) : string := first_dup [] xs.
Definition dup_error (child : string) (xs : list string) : list FieldError :=
  let dup := firstDuplicate xs in if bool_decide (dup = "") then [] else [mkFieldError Duplicate child dup ""].
Definition one_of (child value : string) (valid : list string) : list FieldError :=
  if bool_decide (value ∈ valid) then [] else [mkFieldError (NotSupported valid) child value ""].
(** A loop over a list, with the index. *)
Definition each_indexed {A B} (f : nat → A → list B) (l : list A) : list B := mjoin (imap f l).
Definition at_index (child : string) (i : nat) : string := child +:+ "[" +:+ sprint_Z (Z.of_nat i) +:+ "]".

(** One of [spec.deviceNodes]. *)
Definition check_node_path (i : nat) (n : string) : list FieldError :=
  let np := at_index "spec.deviceNodes" i in
  if negb (has_prefix n "/") then [mkFieldError Invalid np n "절대경로여야 한다"]
  else if negb (bool_decide (path_clean n = n)) then
    [mkFieldError Invalid np n "정규화된 경로여야 한다 — 상위 참조나 중복 슬래시가 섞이면 선언한 것과 다른 파일이 주입될 수 있다"]
  else if negb (has_prefix n "/dev/") then [mkFieldError Invalid np n "/dev 아래여야 한다"]
  else [].

Section Validate.
Context `{FieldRules} `{MapRange}.

Definition qualifiedNameErr (name : string) : string :=
  let bad_id id := if negb (cIdentRE id) || (DeviceMaxIDLength <? strlen id)
                   then "이름이 C 식별자(" +:+ sprint_Z DeviceMaxIDLength +:+ "자 이하)가 아니다" else "" in
  match cut_last "/" name with
  | Some (domain, rest) =>
      match IsDNS1123Subdomain domain with
      | msg :: _ => "도메인 접두사가 DNS subdomain 이 아니다: " +:+ msg
      | [] => if DeviceMaxDomainLength <? strlen domain
              then "도메인 접두사가 " +:+ sprint_Z DeviceMaxDomainLength +:+ "자를 넘는다" else bad_id rest
      end
  | None => bad_id name
  end.
(** [spec.<child>[<name>]] *)
Definition at_key (child name : string) : string := "spec." +:+ child +:+ "[" +:+ name +:+ "]".
Definition check_names (child : string) (vals : gmap string string) : list FieldError :=
  range_map vals ≫= λ kv, let msg := qualifiedNameErr kv.1 in
    if bool_decide (msg = "") then [] else [mkFieldError Invalid (at_key child kv.1) kv.1 msg].
Definition check_attribute (kv : string * string) : list FieldError :=
  let np := at_key "attributes" kv.1 in
  if bool_decide (trim_space kv.2 = "") then [mkFieldError Invalid np kv.2 "값이 비었다"]
  else if DeviceAttributeMaxValueLength <? strlen kv.2 then
    [mkFieldError Invalid np kv.2 ("값이 " +:+ sprint_Z DeviceAttributeMaxValueLength +:+ "자를 넘는다")]
  else [].
Definition check_capacity (kv : string * string) : list FieldError :=
  if ParseQuantity kv.2 then []
  else [mkFieldError Invalid (at_key "capacity" kv.1) kv.2 ("Quantity 표기여야 한다(예 " +:+ quote "48Gi" +:+ ")")].
Definition escapes (rel : string) : bool :=
  bool_decide (rel = "") || has_prefix rel "/" || negb (bool_decide (path_clean rel = rel)) || bool_decide (rel = "..") || has_prefix rel "../".
Definition check_capacity_file (kv : string * string) : list FieldError :=
  if escapes kv.2 then [mkFieldError Invalid (at_key "capacityFiles" kv.1) kv.2
                          "PCI 디렉터리 아래 상대 경로여야 한다 — 절대경로·상위 참조·비정규화 경로 불가"]
  else [].
Definition validateDeclarations (spec : AcceleratorDescriptorSpec) : list FieldError :=
  check_names "attributes" (Dd_Attributes spec) ++ check_names "capacity" (Dd_Capacity spec)
  ++ check_names "capacityFiles" (Dd_CapacityFiles spec)
  ++ (range_map (Dd_Attributes spec) ≫= check_attribute) ++ (range_map (Dd_Capacity spec) ≫= check_capacity)
  ++ (range_map (Dd_CapacityFiles spec) ≫= check_capacity_file).

(** A required name, and the rule it must pass. *)
Definition check_name (child value missing : string) (rule : string → list string) : list FieldError :=
  if bool_decide (trim_space value = "") then [mkFieldError Required child "" missing]
  else match rule value with msg :: _ => [mkFieldError Invalid child value msg] | [] => [] end.
Definition check_sharing (spec : AcceleratorDescriptorSpec) : list FieldError :=
  match Dd_Sharing spec with
  | None => []
  | Some sh =>
      one_of "spec.sharing.mode" (Dsh_Mode sh) [SharingModeTimeSliced]
      ++ (if (Dsh_Replicas sh <? 2) || (MaxSharingReplicas <? Dsh_Replicas sh) then
            [mkFieldError Invalid "spec.sharing.replicas" (sprint_Z (Dsh_Replicas sh)) ("2.." +:+ sprint_Z MaxSharingReplicas)] else [])
      ++ (if contains_string (Dd_Backends spec) BackendDevicePlugin then []
          else [mkFieldError Invalid "spec.sharing" (Dsh_Mode sh) "시분할은 devicePlugin backend 가 선언돼야 한다"])
  end.
Definition Validate (spec : AcceleratorDescriptorSpec) : list FieldError :=
  check_name "spec.vendor" (Dd_Vendor spec) "벤더 키가 필요하다" IsDNS1123Subdomain
  ++ check_name "spec.product" (Dd_Product spec) "제품 키가 필요하다" IsQualifiedName
  ++ (if str_contains (Dd_Product spec) "/" then
        [mkFieldError Invalid "spec.product" (Dd_Product spec)
           "product 에 '/' 를 담을 수 없다 — vendor 와 합친 리소스명의 구분자가 둘이 된다"] else [])
  ++ one_of "spec.allocationUnit" (Dd_AllocationUnit spec) validUnits
  ++ one_of "spec.identity.source" (Di_Source (Dd_Identity spec)) validSources
  ++ (if bool_decide (length (Dd_DeviceNodes spec) = 0%nat) then
        [mkFieldError Required "spec.deviceNodes" "" "주입할 장치 노드가 최소 하나 필요하다"] else [])
  ++ each_indexed check_node_path (Dd_DeviceNodes spec) ++ dup_error "spec.deviceNodes" (Dd_DeviceNodes spec)
  ++ (if bool_decide (length (Dd_Backends spec) = 0%nat) then
        [mkFieldError Required "spec.backends" "" "대상 backend 가 최소 하나 필요하다"] else [])
  ++ each_indexed (λ i b, one_of (at_index "spec.backends" i) b validBackends) (Dd_Backends spec)
  ++ dup_error "spec.backends" (Dd_Backends spec)
  ++ (if Dc_RequiresDeviceReset (Dd_Cleanup spec) && bool_decide (length (Dc_ResetCommand (Dd_Cleanup spec)) = 0%nat) then
        [mkFieldError Required "spec.cleanup.resetCommand" "" "장치 리셋이 필요하다고 선언했으면 리셋 수단이 있어야 한다"] else [])
  ++ check_sharing spec ++ validateDeclarations spec.
End Validate.

(** ** verify.go *)

Section Feasible.
Context `{FieldRules} `{MapRange}.

(** One declared backend of a consistent descriptor: feasible, or the reason why not. *)
Definition judge_backend (spec : AcceleratorDescriptorSpec) (b : string) : string + DescriptorRefusal :=
  if bool_decide (b = BackendDevicePlugin) then inl b
  else if bool_decide (b = BackendDRA) then
    if negb (Di_StableAcrossReboot (Dd_Identity spec)) then
      inr (mkRefusal b "식별자가 재부팅을 건너 안정하지 않다 — ResourceSlice 의 장치 이름이 바뀌면 기존 claim 이 그 장치를 되짚지 못한다")
    else inl b
  else inr (mkRefusal b ("모르는 backend: " +:+ b)).
Definition lefts {A B} (l : list (A + B)) : list A := omap (λ x, match x with inl a => Some a | inr _ => None end) l.
Definition rights {A B} (l : list (A + B)) : list B := omap (λ x, match x with inr b => Some b | inl _ => None end) l.
Definition inconsistent (errs : list FieldError) : string := "descriptor 정합 오류: " +:+ ToAggregate errs.
Definition FeasibleBackends (spec : AcceleratorDescriptorSpec) : list string * list DescriptorRefusal :=
  match Validate spec with
  | [] => let judged := judge_backend spec <$> Dd_Backends spec in (lefts judged, rights judged)
  | errs => ([], (λ b, mkRefusal b (inconsistent errs)) <$> Dd_Backends spec)
  end.
End Feasible.

(** ** compile.go *)

Record dpConfig := mkDpConfig { Dpc_ResourceName : string; Dpc_DeviceNodes : list string; Dpc_Replicas : Z }.
Record draConfig := mkDraConfig {
  Drc_DriverName : string; Drc_DeviceClass : string; Drc_DeviceNodes : list string;
  Drc_Attributes : gmap string string; Drc_Capacity : gmap string string; Drc_CapacityFiles : gmap string string;
}.
(** [json.Marshal], which cannot fail on these. *)
Class ConfigJSON := { dp_json : dpConfig → string; dra_json : draConfig → string }.

Definition ResourceNameFor (spec : AcceleratorDescriptorSpec) : string := Dd_Vendor spec +:+ "/" +:+ Dd_Product spec.
Definition DriverNameFor (spec : AcceleratorDescriptorSpec) : string := Dd_Product spec +:+ "." +:+ Dd_Vendor spec +:+ ".kcloud.ai".

Section Compile.
Context `{FieldRules} `{MapRange} `{ConfigJSON}.

Definition CompileDevicePlugin (spec : AcceleratorDescriptorSpec) : string + GoErr :=
  match Validate spec with
  | [] => inl (dp_json (mkDpConfig (ResourceNameFor spec) (Dd_DeviceNodes spec)
                 (match Dd_Sharing spec with Some sh => Dsh_Replicas sh | None => 0 end)))
  | errs => inr (errorf (inconsistent errs))
  end.
Definition CompileDRA (spec : AcceleratorDescriptorSpec) : string + GoErr :=
  match FeasibleBackends (with_backends [BackendDRA] spec) with
  | ([], r :: _) => inr (errorf ("DRA backend 생성 불가: " +:+ Rf_Reason r))
  | ([], []) => inr (errorf "DRA backend 생성 불가")
  | _ => inl (dra_json (mkDraConfig (DriverNameFor spec) (DriverNameFor spec) (Dd_DeviceNodes spec)
                (Dd_Attributes spec) (Dd_Capacity spec) (Dd_CapacityFiles spec)))
  end.
End Compile.

(** ** compare.go *)

Record BackendObservation := mkBackendObservation {
  Bo_Backend : string; Bo_AllocationUnits : Z; Bo_DeviceNodes : list string; Bo_DevNodes : list string; Bo_ForeignTopLevel : list string;
}.
Definition Relation : Type := string.
Definition RelationEqual : Relation := "equal".
Definition RelationSubset : Relation := "subset".
Definition RelationSuperset : Relation := "superset".
Definition RelationDisjoint : Relation := "disjoint".
Definition RelationOverlap : Relation := "overlap".
Record AxisResult := mkAxis {
  Ax_Axis : string; Ax_A : string; Ax_B : string; Ax_Relation : Relation; Ax_Match : bool; Ax_OnlyInA : list string; Ax_OnlyInB : list string;
}.
Record Comparison := mkComparison { Cmp_A : string; Cmp_B : string; Cmp_Axes : list AxisResult; Cmp_AllMatch : bool }.

Definition toSet (xs : list string) : gmap string bool := foldl (λ s x, <[x := true]> s) ∅ xs.
Definition keep_new (u : list string) (x : string) : list string := if contains_string u x then u else u ++ [x].
Definition summarize (xs : list string) : string :=
  let u := sort_strings (foldl keep_new [] xs) in
  if bool_decide (length u = 0%nat) then "없음"
  else if (length u <=? 3)%nat then join " " u
  else sprint_Z (Z.of_nat (length u)) +:+ "개".

Section Compare.
Context `{MapRange}.

(** [for k := range sa { if !sb[k] ... }], sorted *)
Definition only_in (sa sb : gmap string bool) : list string :=
  sort_strings (filter (λ k, mget false sb k = false) (range_map sa).*1).
Definition relate (a b : list string) : Relation * list string * list string :=
  let (sa, sb) := (toSet a, toSet b) in
  let (onlyA, onlyB) := (only_in sa sb, only_in sb sa) in
  let none (l : list string) := bool_decide (length l = 0%nat) in
  (if none onlyA && none onlyB then RelationEqual
   else if none onlyA then RelationSubset
   else if none onlyB then RelationSuperset
   else if bool_decide (size sa = length onlyA) && bool_decide (size sb = length onlyB) then RelationDisjoint
   else RelationOverlap, onlyA, onlyB).
Definition setAxis (name : string) (a b : list string) : AxisResult :=
  let '(rel, onlyA, onlyB) := relate a b in
  mkAxis name (summarize a) (summarize b) rel (bool_decide (rel = RelationEqual)) onlyA onlyB.
Definition Compare (a b : BackendObservation) : Comparison :=
  let unitMatch := bool_decide (Bo_AllocationUnits a = Bo_AllocationUnits b) in
  let axes :=
    [mkAxis "할당 단위 수" (sprint_Z (Bo_AllocationUnits a)) (sprint_Z (Bo_AllocationUnits b))
       (if unitMatch then RelationEqual else RelationOverlap) unitMatch [] [];
     setAxis "장치 노드 템플릿" (Bo_DeviceNodes a) (Bo_DeviceNodes b);
     setAxis "컨테이너 /dev 노드" (Bo_DevNodes a) (Bo_DevNodes b);
     setAxis "격리(다른 장치 비노출)" (Bo_ForeignTopLevel a) (Bo_ForeignTopLevel b)] in
  mkComparison (Bo_Backend a) (Bo_Backend b) axes (forallb Ax_Match axes).
End Compare.

Definition nl : string := String newline "".
Definition tick : string := String (Ascii.ascii_of_N 96) "".
Definition axis_row (a : AxisResult) : string :=
  "| " +:+ Ax_Axis a +:+ " | " +:+ Ax_A a +:+ " | " +:+ Ax_B a +:+ " | " +:+ tick +:+ Ax_Relation a +:+ tick +:+ " | "
  +:+ (if Ax_Match a then "○" else "×") +:+ " |" +:+ nl.
Definition only_line (axis side : string) (only : list string) : string :=
  if (0 <? Z.of_nat (length only)) then nl +:+ axis +:+ " — " +:+ side +:+ " 에만: " +:+ join " " only +:+ nl else "".
Definition MarkdownTable (c : Comparison) : string :=
  "| 축 | " +:+ Cmp_A c +:+ " | " +:+ Cmp_B c +:+ " | 관계 | 일치 |" +:+ nl +:+ "|---|---|---|---|:--:|" +:+ nl
  +:+ join "" (axis_row <$> Cmp_Axes c)
  +:+ join "" ((λ a, only_line (Ax_Axis a) (Cmp_A c) (Ax_OnlyInA a) +:+ only_line (Ax_Axis a) (Cmp_B c) (Ax_OnlyInB a)) <$> Cmp_Axes c).

(** ** Paths *)

(** A component that is a name, not a step. *)
Definition plain (c : string) : Prop := c ≠ "" ∧ c ≠ "." ∧ c ≠ "..".
Definition named (c : string) : Prop := plain c ∧ contains_char c "/" = false.

Lemma split_join l : l ≠ [] → Forall (λ c, contains_char c "/" = false) l → split_on "/" (join "/" l) = l.
Proof.
  intros Hne Hl. induction Hl as [|c l Hc Hl IH]; [done|]. destruct l as [|d l]; [by apply split_on_one|].
  rewrite join_cons by done. change ("/" +:+ join "/" (d :: l)) with (String "/" (join "/" (d :: l))).
  rewrite split_on_sep, split_on_one by done. by rewrite IH.
Qed.

(** The stack holds names over steps up, and a rooted path has no steps up. *)
Lemma clean_stack rooted l stack :
  Forall (λ c, contains_char c "/" = false) l →
  (∃ ps k, stack = ps ++ replicate k ".." ∧ Forall named ps ∧ (rooted = true → k = 0%nat)) →
  ∃ ps k, foldl (clean_step rooted) stack l = ps ++ replicate k ".." ∧ Forall named ps ∧ (rooted = true → k = 0%nat).
Proof.
  intros Hl. revert stack. induction Hl as [|c l Hc Hl IH]; intros stack Hs; [exact Hs|]. simpl. apply IH.
  destruct Hs as (ps & k & -> & Hps & Hk). unfold clean_step.
  destruct (decide (c = "")) as [->|He]; [by exists ps, k|].
  destruct (decide (c = ".")) as [->|Hd]; [by exists ps, k|].
  rewrite (bool_decide_eq_false_2 (c = "")), (bool_decide_eq_false_2 (c = ".")) by done. simpl. case_bool_decide as Hu.
  - destruct ps as [|p ps].
    + simpl. destruct k as [|k].
      * destruct rooted; [by exists [], 0%nat|]. exists [], 1%nat. by split_and!.
      * simpl. exists [], (S (S k)). split_and!; [done|done|]. intros Hr. by specialize (Hk Hr).
    + apply Forall_cons in Hps as [[(_ & _ & Hp) _] Hps]. simpl. rewrite bool_decide_eq_false_2 by done. by exists ps, k.
  - exists (c :: ps), k. split_and!; [done| |done]. apply Forall_cons. split; [|done]. by split.
Qed.
Lemma clean_parts_shape rooted p :
  ∃ k ps, clean_parts rooted p = replicate k ".." ++ ps ∧ Forall named ps ∧ (rooted = true → k = 0%nat).
Proof.
  destruct (clean_stack rooted (split_on "/" p) []) as (ps & k & E & Hps & Hk).
  - apply Forall_forall. intros c Hc. by eapply split_on_char.
  - exists [], 0%nat. by split_and!.
  - exists k, (reverse ps). unfold clean_parts. rewrite E, reverse_app, reverse_replicate.
    split_and!; [done|by apply Forall_reverse|done].
Qed.

Lemma rooted_clean p : has_prefix p "/" = true → path_clean p = p →
  ∃ ps, split_on "/" p = "" :: ps ∧ (ps = [""] ∨ Forall named ps).
Proof.
  intros Hr. unfold path_clean. rewrite Hr. destruct (clean_parts_shape true p) as (k & ps & -> & Hps & Hk).
  rewrite Hk by done. intros E. rewrite <-E. exists (split_on "/" (join "/" ps)). split; [exact (split_on_app "/" "" _ eq_refl)|].
  destruct ps as [|c ps]; [by left|]. right. rewrite split_join; [done|done|].
  eapply Forall_impl; [exact Hps|]. by intros x [_ ?].
Qed.
Lemma relative_clean p : has_prefix p "/" = false → path_clean p = p → p ≠ ".." → has_prefix p "../" = false →
  p = "." ∨ Forall named (split_on "/" p).
Proof.
  intros Hr. unfold path_clean. rewrite Hr. destruct (clean_parts_shape false p) as (k & ps & -> & Hps & _).
  destruct (replicate k ".." ++ ps) as [|c l] eqn:El; [by left|]. intros E Hup Hpre. right. destruct k as [|k].
  - simpl in El. subst ps. rewrite <-E. rewrite split_join; [done|done|]. eapply Forall_impl; [exact Hps|]. by intros x [_ ?].
  - exfalso. simpl in El. injection El as <- El. destruct l as [|d l]; [by apply Hup|].
    rewrite join_cons in E by done. enough (has_prefix p "../" = true) by congruence.
    apply has_prefix_true. exists (join "/" (d :: l)). by rewrite <-E.
Qed.

Section Declared.
Context `{FieldRules} `{MapRange}.

(** No error: every part of the check passed. *)
Lemma each_indexed_nil {A B} (f : nat → A → list B) l : each_indexed f l = [] → ∀ x, x ∈ l → ∃ i, f i x = [].
Proof.
  unfold each_indexed. intros E x (i & Hi)%list_elem_of_lookup. exists i.
  assert (Hin : f i x ∈ imap f l) by (apply list_elem_of_lookup; exists i; by rewrite list_lookup_imap, Hi).
  destruct (f i x) as [|b bs] eqn:Ef; [done|]. exfalso. apply (not_elem_of_nil b). rewrite <-E.
  apply list_elem_of_join. exists (f i x). split; [rewrite Ef; by left|by rewrite Ef].
Qed.
Lemma check_node_path_ok i n : check_node_path i n = [] → ∃ ps, split_on "/" n = "" :: "dev" :: ps ∧ ps ≠ [] ∧ Forall named ps.
Proof.
  unfold check_node_path. destruct (has_prefix n "/") eqn:Hr; [|done]. simpl. case_bool_decide as Hc; [|done]. simpl.
  destruct (has_prefix n "/dev/") eqn:Hd; [|done]. intros _. apply (rooted_clean n Hr) in Hc as (ps & Es & Hps).
  apply has_prefix_true in Hd as [t ->].
  assert (Et : split_on "/" ("/dev/" +:+ t) = "" :: "dev" :: split_on "/" t).
  { change ("/dev/" +:+ t) with ("" +:+ String "/" ("dev" +:+ String "/" t)). by rewrite !split_on_app. }
  rewrite Et in Es. injection Es as <-. exists (split_on "/" t). split_and!; [done|apply split_on_ne|].
  destruct Hps as [E|Hps]; [by apply (f_equal head) in E|]. by apply Forall_cons in Hps as [_ ?].
Qed.
Lemma escapes_ok rel : escapes rel = false → rel = "." ∨ Forall named (split_on "/" rel).
Proof.
  unfold escapes. rewrite !orb_false_iff. intros ((((He & Hr) & Hc) & Hu) & Hp). bool_prop.
  by apply relative_clean.
Qed.
Lemma one_of_nil child v valid : one_of child v valid = [] ↔ v ∈ valid.
Proof. unfold one_of. case_bool_decide; split; done. Qed.
Lemma required_nil (l : list string) (e : FieldError) : (if bool_decide (length l = 0%nat) then [e] else []) = [] ↔ l ≠ [].
Proof. case_bool_decide as E; [apply nil_length_inv in E as ->; done|]. split; [|done]. intros _ ->. by apply E. Qed.
(** What the later stages use of a consistent declaration. *)
Record Consistent (spec : AcceleratorDescriptorSpec) : Prop := {
  cs_nodes : Dd_DeviceNodes spec ≠ [];
  cs_paths : each_indexed check_node_path (Dd_DeviceNodes spec) = [];
  cs_backends : ∀ b, b ∈ Dd_Backends spec → b ∈ validBackends;
  cs_reset : Dc_RequiresDeviceReset (Dd_Cleanup spec) = true → Dc_ResetCommand (Dd_Cleanup spec) ≠ [];
  cs_sharing : Dd_Sharing spec ≠ None → BackendDevicePlugin ∈ Dd_Backends spec;
  cs_files : range_map (Dd_CapacityFiles spec) ≫= check_capacity_file = [];
}.
Lemma Validate_consistent spec : Validate spec = [] → Consistent spec.
Proof.
  unfold Validate, validateDeclarations. rewrite !app_nil.
  intros (_ & _ & _ & _ & _ & Hn & Hp & _ & _ & Hb & _ & Hr & Hs & _ & _ & _ & _ & _ & Hf). split; [|done| | | |done].
  - by apply required_nil in Hn.
  - intros b Hin. destruct (each_indexed_nil _ _ Hb b Hin) as [i Hi]. by apply one_of_nil in Hi.
  - intros Hd. rewrite Hd in Hr. by apply required_nil in Hr.
  - unfold check_sharing in Hs. destruct (Dd_Sharing spec); [|done]. rewrite !app_nil in Hs. destruct Hs as (_ & _ & Hs).
    destruct (contains_string _ _) eqn:Ec; [|done]. intros _. by apply contains_string_true.
Qed.
(** Only the backends and the sharing depend on the backends. *)
Lemma Validate_dra spec : Validate spec = [] →
  Validate (with_backends [BackendDRA] spec) = check_sharing (with_backends [BackendDRA] spec).
Proof.
  unfold Validate, validateDeclarations. rewrite !app_nil.
  intros (H1 & H2 & H3 & H4 & H5 & H6 & H7 & H8 & _ & _ & _ & Hr & _ & D1 & D2 & D3 & D4 & D5 & D6).
  destruct spec as [v p u i n b c sh a cap f]. cbn [Dd_Vendor Dd_Product Dd_AllocationUnit Dd_Identity Dd_DeviceNodes Dd_Cleanup
    Dd_Attributes Dd_Capacity Dd_CapacityFiles with_backends] in *.
  rewrite H1, H2, H3, H4, H5, H6, H7, H8, Hr, D1, D2, D3, D4, D5, D6. rewrite app_nil_r. reflexivity.
Qed.
Lemma judge_ok spec b : b ∈ validBackends →
  judge_backend spec b = (if bool_decide (b = BackendDRA ∧ Di_StableAcrossReboot (Dd_Identity spec) = false)
    then inr (mkRefusal b "식별자가 재부팅을 건너 안정하지 않다 — ResourceSlice 의 장치 이름이 바뀌면 기존 claim 이 그 장치를 되짚지 못한다")
    else inl b).
Proof.
  unfold validBackends. rewrite !elem_of_cons, elem_of_nil. unfold judge_backend. intros [->|[->|[]]]; [done|].
  by destruct (Di_StableAcrossReboot _).
Qed.
Lemma elem_of_lefts {A B} (l : list (A + B)) a : a ∈ lefts l ↔ inl a ∈ l.
Proof.
  unfold lefts. rewrite list_elem_of_omap. split; [intros ([?|?] & ? & E); by simplify_eq|]. intros Hl. by exists (inl a).
Qed.
Lemma elem_of_rights {A B} (l : list (A + B)) b : b ∈ rights l ↔ inr b ∈ l.
Proof.
  unfold rights. rewrite list_elem_of_omap. split; [intros ([?|?] & ? & E); by simplify_eq|]. intros Hl. by exists (inr b).
Qed.
Definition feasible (spec : AcceleratorDescriptorSpec) (b : string) : Prop :=
  b ∈ Dd_Backends spec ∧ Validate spec = [] ∧ (b = BackendDRA → Di_StableAcrossReboot (Dd_Identity spec) = true).
Lemma FeasibleBackends_spec spec :
  (∀ b, b ∈ (FeasibleBackends spec).1 ↔ feasible spec b) ∧
  (∀ r, r ∈ (FeasibleBackends spec).2 → Rf_Backend r ∈ Dd_Backends spec ∧ ¬ feasible spec (Rf_Backend r)) ∧
  (∀ b, b ∈ Dd_Backends spec → ¬ feasible spec b → ∃ reason, mkRefusal b reason ∈ (FeasibleBackends spec).2).
Proof.
  unfold FeasibleBackends, feasible. destruct (Validate spec) as [|e errs] eqn:Ev; simpl.
  - apply Validate_consistent in Ev as Hc. pose proof (cs_backends _ Hc) as Hv. split_and!.
    + intros b. rewrite elem_of_lefts, list_elem_of_fmap. split.
      * intros (b' & E & Hb). rewrite judge_ok in E by auto. case_bool_decide as Hd; simplify_eq. split_and!; [done..|].
        intros ->. destruct (Di_StableAcrossReboot _) eqn:Es; [done|]. by destruct Hd.
      * intros (Hb & _ & Hs). exists b. split; [|done]. rewrite judge_ok by auto. case_bool_decide as Hd; [|done].
        destruct Hd as [-> Hd]. rewrite Hs in Hd by done. done.
    + intros r. rewrite elem_of_rights, list_elem_of_fmap. intros (b & E & Hb). rewrite judge_ok in E by auto.
      case_bool_decide as Hd; simplify_eq. simpl. split; [done|]. intros (_ & _ & Hs). destruct Hd as [-> Hd]. by rewrite Hs in Hd.
    + intros b Hb Hn. eexists. rewrite elem_of_rights, list_elem_of_fmap. exists b. split; [|done]. rewrite judge_ok by auto.
      rewrite bool_decide_eq_true_2; [done|]. destruct (decide (b = BackendDRA)) as [Hd|Hd]; [|by destruct Hn].
      split; [done|]. destruct (Di_StableAcrossReboot _) eqn:Es; [|done]. by destruct Hn.
  - split_and!; [intros b; split; [by intros ?%elem_of_nil|by intros (_ & ? & _)]| |].
    + intros r. rewrite list_elem_of_fmap. intros (b & -> & Hb). split; [done|]. by intros (_ & ? & _).
    + intros b Hb _. eexists. apply list_elem_of_fmap. by exists b.
Qed.
End Declared.

Section Promises.
Context `{FieldRules} `{MapRange} `{ConfigJSON}.

(** No consistent descriptor names a file outside the place it is meant for, as a
    plugin that runs privileged injects what is named.  Each device node is a path
    [/dev/c1/.../cn] of at least one component below [/dev], and each capacity file a
    relative path (or [.], the directory itself), where no component is empty, a dot or
    a step up; a device that must be reset has a command to do so, and a descriptor that
    is shared is served by a device plugin. *)
Theorem declared_paths_stay_below (spec : AcceleratorDescriptorSpec) :
  Validate spec = [] →
  (Dd_DeviceNodes spec ≠ [] ∧ ∀ n, n ∈ Dd_DeviceNodes spec →
     ∃ ps, split_on "/" n = "" :: "dev" :: ps ∧ ps ≠ [] ∧ Forall plain ps) ∧
  (∀ name rel, Dd_CapacityFiles spec !! name = Some rel → rel = "." ∨ Forall plain (split_on "/" rel)) ∧
  (Dc_RequiresDeviceReset (Dd_Cleanup spec) = true → Dc_ResetCommand (Dd_Cleanup spec) ≠ []) ∧
  (Dd_Sharing spec ≠ None → BackendDevicePlugin ∈ Dd_Backends spec).
Proof.
  assert (Hweak : ∀ l, Forall named l → Forall plain l) by (intros l Hl; eapply Forall_impl; [exact Hl|]; by intros x [? _]).
  intros Hc%Validate_consistent. split_and!; [by apply cs_nodes| | |by apply cs_reset|by apply cs_sharing].
  - intros n Hn. destruct (each_indexed_nil _ _ (cs_paths _ Hc) n Hn) as [i Hi].
    apply check_node_path_ok in Hi as (ps & Es & Hne & Hps). exists ps. auto.
  - intros name rel Hr%elem_of_range_map. destruct (escapes rel) eqn:Ee.
    + exfalso. pose proof (cs_files _ Hc) as Hf. assert (Hin : (name, rel) ∈ range_map (Dd_CapacityFiles spec)) by done.
      apply (not_elem_of_nil (mkFieldError Invalid (at_key "capacityFiles" name) rel
        "PCI 디렉터리 아래 상대 경로여야 한다 — 절대경로·상위 참조·비정규화 경로 불가")). rewrite <-Hf.
      apply list_elem_of_bind. exists (name, rel). split; [|done]. unfold check_capacity_file. simpl. rewrite Ee. by left.
    + apply escapes_ok in Ee as [?|?]; auto.
Qed.

(** C17. The verifier answers about every declared backend and widens nothing: what it
    calls feasible is what is declared, consistent and, for DRA, identified across
    reboots; anything else that was declared is refused, and only that.  What it calls
    feasible then compiles, with one exception that the code rules out in its comment:
    a shared descriptor is feasible for DRA and its compilation always fails. *)
Theorem feasible_backends_compile (spec : AcceleratorDescriptorSpec) :
  let ok := (FeasibleBackends spec).1 in
  let refusals := (FeasibleBackends spec).2 in
  (∀ b, b ∈ ok ↔ b ∈ Dd_Backends spec ∧ Validate spec = [] ∧
     (b = BackendDRA → Di_StableAcrossReboot (Dd_Identity spec) = true)) ∧
  (∀ b, b ∈ Dd_Backends spec → (b ∉ ok ↔ ∃ reason, mkRefusal b reason ∈ refusals)) ∧
  (∀ r, r ∈ refusals → Rf_Backend r ∈ Dd_Backends spec) ∧
  (BackendDevicePlugin ∈ ok → ∃ config, CompileDevicePlugin spec = inl config) ∧
  (BackendDRA ∈ ok → ((∃ config, CompileDRA spec = inl config) ↔ Dd_Sharing spec = None)).
Proof.
  intros ok refusals. destruct (FeasibleBackends_spec spec) as (Hok & Hr & Hn). fold ok in Hok. fold refusals in Hr, Hn.
  split_and!; [exact Hok| |by intros r [? _]%Hr| |].
  - intros b Hb. rewrite Hok. split; [by apply Hn|]. intros [reason [_ Hf]%Hr]. exact Hf.
  - intros (_ & Hv & _)%Hok. unfold CompileDevicePlugin. rewrite Hv. by eexists.
  - intros (_ & Hv & Hs)%Hok. unfold CompileDRA. specialize (Hs eq_refl).
    assert (Hsh : Validate (with_backends [BackendDRA] spec) = [] ↔ Dd_Sharing spec = None).
    { rewrite Validate_dra by done. split.
      - intros E. destruct (Dd_Sharing spec) as [sh|] eqn:Esh; [|done]. exfalso. revert E. unfold check_sharing. simpl. rewrite Esh.
        rewrite !app_nil. intros (_ & _ & E). discriminate E.
      - intros E. unfold check_sharing. simpl. by rewrite E. }
    unfold FeasibleBackends. destruct (Validate (with_backends [BackendDRA] spec)) as [|e errs].
    + rewrite <-Hsh. split; [done|]. intros _. cbn [with_backends Dd_Backends Dd_Identity fmap list_fmap].
      unfold judge_backend at 1. cbn [Dd_Identity with_backends]. rewrite Hs. by eexists.
    + rewrite <-Hsh. split; [by intros [? ?]|done].
Qed.
End Promises.

(** ** Sets *)

Section Sets.
Context `{MapRange}.

Lemma toSet_lookup xs (s0 : gmap string bool) k :
  foldl (λ s x, <[x := true]> s) s0 xs !! k = (if bool_decide (k ∈ xs) then Some true else s0 !! k).
Proof.
  revert s0. induction xs as [|x xs IH]; intros s0; simpl; [done|]. rewrite IH. case_bool_decide as Hk.
  { by rewrite bool_decide_eq_true_2 by (by right). }
  destruct (decide (k = x)) as [->|Hx].
  - by rewrite lookup_insert_eq, bool_decide_eq_true_2 by (by left).
  - rewrite lookup_insert_ne by done. rewrite bool_decide_eq_false_2; [done|]. by intros [?|?]%elem_of_cons.
Qed.
Lemma elem_of_toSet xs k : toSet xs !! k = (if bool_decide (k ∈ xs) then Some true else None).
Proof. unfold toSet. by rewrite toSet_lookup, lookup_empty. Qed.
Lemma elem_of_range_keys xs k : k ∈ (range_map (toSet xs)).*1 ↔ k ∈ xs.
Proof.
  rewrite list_elem_of_fmap. split.
  - intros ([k' b] & -> & Hk%elem_of_range_map). rewrite elem_of_toSet in Hk. simpl. by case_bool_decide.
  - intros Hk. exists (k, true). split; [done|]. apply elem_of_range_map. rewrite elem_of_toSet. by rewrite bool_decide_eq_true_2.
Qed.
Lemma elem_of_only_in a b k : k ∈ only_in (toSet a) (toSet b) ↔ k ∈ a ∧ k ∉ b.
Proof.
  unfold only_in. rewrite elem_of_sort_strings, list_elem_of_filter, elem_of_range_keys. unfold mget. rewrite elem_of_toSet.
  case_bool_decide; simpl; intuition discriminate.
Qed.
(** Counting is the only test of disjointness: nothing of [a] was dropped. *)
Lemma all_only a b : size (toSet a) = length (only_in (toSet a) (toSet b)) ↔ ∀ k, k ∈ a → k ∉ b.
Proof.
  unfold only_in. rewrite (Permutation_length (sort_strings_perm _)).
  assert (El : size (toSet a) = length (range_map (toSet a)).*1).
  { rewrite length_fmap, (Permutation_length (range_map_perm _)). by rewrite length_map_to_list. }
  rewrite El. set (l := (range_map (toSet a)).*1).
  assert (Hl : ∀ k, k ∈ l ↔ k ∈ a) by (intros k; apply elem_of_range_keys).
  assert (Hf : ∀ P : string → Prop, ∀ `{!∀ x, Decision (P x)} (l : list string), length l = length (filter P l) ↔ ∀ k, k ∈ l → P k).
  { intros P HP l'. induction l' as [|x l' IH]; [split; [by intros _ k ?%elem_of_nil|done]|].
    pose proof (length_filter P l') as Hle. destruct (decide (P x)) as [Hx|Hx].
    - rewrite filter_cons_True by done. simpl. rewrite Nat.succ_inj_wd, IH. split; [|intros Hall k Hk; apply Hall; by right].
      intros Hall k [->|Hk]%elem_of_cons; auto.
    - rewrite filter_cons_False by done. simpl. split; [lia|]. intros Hall. exfalso. apply Hx, Hall. by left. }
  rewrite Hf. split.
  - intros Hall k Hk. specialize (Hall k (proj2 (Hl k) Hk)). unfold mget in Hall. rewrite elem_of_toSet in Hall. by case_bool_decide.
  - intros Hall k Hk. unfold mget. rewrite elem_of_toSet, bool_decide_eq_false_2; [done|]. apply Hall, Hl, Hk.
Qed.
Lemma only_in_nil a b : only_in (toSet a) (toSet b) = [] ↔ a ⊆ b.
Proof.
  split.
  - intros E k Hk. destruct (decide (k ∈ b)) as [|Hb]; [done|]. exfalso. apply (not_elem_of_nil k). rewrite <-E.
    by apply elem_of_only_in.
  - intros Hs. destruct (only_in _ _) as [|k l] eqn:E; [done|].
    assert (Hk : k ∈ only_in (toSet a) (toSet b)) by (rewrite E; by left).
    apply elem_of_only_in in Hk as [Hk Hb]. by destruct (Hb (Hs k Hk)).
Qed.
(** The five answers, in the order in which they are given. *)
Lemma relate_cases a b :
  let none := λ a b, only_in (toSet a) (toSet b) = [] in
  relate a b = (if decide (none a b) then if decide (none b a) then RelationEqual else RelationSubset
    else if decide (none b a) then RelationSuperset
    else if decide (size (toSet a) = length (only_in (toSet a) (toSet b)) ∧ size (toSet b) = length (only_in (toSet b) (toSet a)))
    then RelationDisjoint else RelationOverlap, only_in (toSet a) (toSet b), only_in (toSet b) (toSet a)).
Proof.
  intros none. unfold relate, none. f_equal. f_equal.
  assert (Hl : ∀ l : list string, bool_decide (length l = 0%nat) = bool_decide (l = [])).
  { intros l. apply bool_decide_ext. split; [apply nil_length_inv|by intros ->]. }
  rewrite !Hl. repeat case_bool_decide; repeat destruct (decide _); try done; tauto.
Qed.
End Sets.

Section Compared.
Context `{MapRange}.

(** C29. The comparison of two backends is about sets, not lists: the relation it names is
    the one between what was observed, whatever the order, the repetitions and the order
    in which Go ranges over its maps; each side's own elements are listed, sorted; and
    two observations match on all axes exactly when they have as many units and the
    same three sets. *)
Theorem comparison_is_of_sets (x y : BackendObservation) :
  (∀ a b, let '(rel, onlyA, onlyB) := relate a b in
     (∀ k, k ∈ onlyA ↔ k ∈ a ∧ k ∉ b) ∧ (∀ k, k ∈ onlyB ↔ k ∈ b ∧ k ∉ a) ∧
     StronglySorted (not_after (less_on id)) onlyA ∧ StronglySorted (not_after (less_on id)) onlyB ∧
     (rel = RelationEqual ↔ a ⊆ b ∧ b ⊆ a) ∧
     (rel = RelationSubset ↔ a ⊆ b ∧ ¬ b ⊆ a) ∧ (rel = RelationSuperset ↔ b ⊆ a ∧ ¬ a ⊆ b) ∧
     (rel = RelationDisjoint ↔ ¬ a ⊆ b ∧ ¬ b ⊆ a ∧ ∀ k, k ∈ a → k ∉ b)) ∧
  (Cmp_AllMatch (Compare x y) = true ↔
     Bo_AllocationUnits x = Bo_AllocationUnits y ∧ (∀ k, k ∈ Bo_DeviceNodes x ↔ k ∈ Bo_DeviceNodes y) ∧
     (∀ k, k ∈ Bo_DevNodes x ↔ k ∈ Bo_DevNodes y) ∧ (∀ k, k ∈ Bo_ForeignTopLevel x ↔ k ∈ Bo_ForeignTopLevel y)).
Proof.
  assert (Hrel : ∀ a b, let rel := (relate a b).1.1 in
    (rel = RelationEqual ↔ a ⊆ b ∧ b ⊆ a) ∧ (rel = RelationSubset ↔ a ⊆ b ∧ ¬ b ⊆ a) ∧
    (rel = RelationSuperset ↔ b ⊆ a ∧ ¬ a ⊆ b) ∧ (rel = RelationDisjoint ↔ ¬ a ⊆ b ∧ ¬ b ⊆ a ∧ ∀ k, k ∈ a → k ∉ b)).
  { intros a b. rewrite relate_cases. cbv zeta. cbn [fst snd]. pose proof (only_in_nil a b). pose proof (only_in_nil b a).
    pose proof (all_only a b). pose proof (all_only b a).
    assert (Hsym : (∀ k, k ∈ a → k ∉ b) ↔ (∀ k, k ∈ b → k ∉ a)) by (split; intros Hk k ? ?; by eapply Hk).
    generalize dependent (∀ k, k ∈ a → k ∉ b). intros Dab. generalize dependent (∀ k, k ∈ b → k ∉ a). intros Dba.
    repeat destruct (decide _); (split; [|split; [|split]]); (split; intros E; first [discriminate E|reflexivity|exfalso; tauto|tauto]). }
  split.
  - intros a b. specialize (Hrel a b). rewrite relate_cases in *. cbv zeta in *. cbn [fst] in Hrel.
    destruct Hrel as (? & ? & ? & ?). split_and!; try done; try (intros k; apply elem_of_only_in); apply sort_slice_sorted; apply _.
  - assert (Hax : ∀ name a b, Ax_Match (setAxis name a b) = true ↔ ∀ k, k ∈ a ↔ k ∈ b).
    { intros name a b. destruct (Hrel a b) as [He _]. unfold setAxis. destruct (relate a b) as [[rel oa] ob]. simpl in *.
      rewrite bool_decide_eq_true, He. split; [intros [? ?] k; split; auto|]. intros Hk. split; intros k; apply Hk. }
    unfold Compare. cbn [Cmp_AllMatch forallb]. rewrite !andb_true_iff, !Hax. cbn [Ax_Match]. rewrite bool_decide_eq_true. tauto.
Qed.
End Compared.

(** ** At a concrete declaration *)

(** Rules that pass every name, and a text that keeps the names only. *)
Definition lenient_rules : FieldRules :=
  {| IsDNS1123Subdomain := λ s, if bool_decide (s = "") then ["empty"] else []; IsQualifiedName := λ _, [];
     ParseQuantity := λ s, negb (bool_decide (s = "")); DeviceAttributeMaxValueLength := 64; DeviceMaxDomainLength := 63;
     DeviceMaxIDLength := 32; ToAggregate := λ l, join ", " (Fe_Field <$> l) |}.
Definition names_json : ConfigJSON := {| dp_json := Dpc_ResourceName; dra_json := Drc_DriverName |}.
Definition npu_declaration (sharing : option DescriptorSharing) : AcceleratorDescriptorSpec :=
  mkDescriptorSpec "furiosa" "rngd" AllocationUnitDevice (mkIdentity IdentitySourceSerial true) ["/dev/rngd/npu0"; "/dev/rngd/npu0bar0"]
    [BackendDevicePlugin; BackendDRA] (mkCleanup true ["furiosa-smi"; "reset"]) sharing {["arch" := "rngd"]} {["memory" := "48Gi"]}
    {["memory" := "stats/memory"]}.

Lemma declared_paths_stay_below_witness :
  let dev := npu_declaration (Some (mkDescriptorSharing SharingModeTimeSliced 4)) in
  (∃ ps, split_on "/" "/dev/rngd/npu0" = "" :: "dev" :: ps ∧ ps ≠ [] ∧ Forall plain ps) ∧
  BackendDevicePlugin ∈ Dd_Backends dev.
Proof.
  intros dev. destruct (declared_paths_stay_below (H := lenient_rules) dev) as ((_ & Hn) & _ & _ & Hs); [vm_compute; reflexivity|].
  split; [apply Hn; left|]. apply Hs. discriminate.
Defined.
Lemma feasible_backends_compile_witness :
  let dev := npu_declaration (Some (mkDescriptorSharing SharingModeTimeSliced 4)) in
  (FeasibleBackends (H := lenient_rules) dev).1 = [BackendDevicePlugin; BackendDRA] ∧
  (∀ config, CompileDRA (H := lenient_rules) (H1 := names_json) dev ≠ inl config).
Proof.
  intros dev. assert (E : (FeasibleBackends (H := lenient_rules) dev).1 = [BackendDevicePlugin; BackendDRA]) by (vm_compute; reflexivity).
  split; [exact E|]. intros config Ec.
  destruct (feasible_backends_compile (H := lenient_rules) (H1 := names_json) dev) as (_ & _ & _ & _ & Hd).
  destruct Hd as [Hd _]; [rewrite E; right; left|]. discriminate (Hd (ex_intro _ config Ec)).
Defined.
Lemma comparison_is_of_sets_witness :
  let plugin := mkBackendObservation BackendDevicePlugin 2 ["a"; "b"; "a"] ["n"] [] in
  let dra := mkBackendObservation BackendDRA 2 ["b"; "a"] ["n"; "n"] [] in
  Cmp_AllMatch (Compare plugin dra) = true.
Proof.
  intros plugin dra. destruct (comparison_is_of_sets plugin dra) as [_ [_ H]]. apply H.
  split; [reflexivity|]. unfold plugin, dra. simpl. split; [|split]; intros k; rewrite ?elem_of_cons; tauto.
Defined.
