(* ===== verification/DescriptorController.v ===== *)
(** * The descriptor controller: from a declaration to running backends

    Models acceleratordescriptor_controller.go, acceleratordescriptor_apply.go and
    generated_backend.go: the judgement of a declaration against the cluster, the objects
    rendered from it, their application and their removal.  The passes verify through
    [Verifier.Verify]. *)

From S2P Require Import Prelude GoStrings GoTime GoText Naming ApiTypes PolicyTypes VendorCap VerificationAgreement HealthController UpgradeTypes UpgradeNode PodSpec ClusterPolicy DevicePlugins DraDriver Descriptor.
From S2P Require Verifier.

(** ** acceleratordescriptor_controller.go: devices *)

Definition normalizeVendor (vendor model : string) : string :=
  if equal_fold vendor "furiosa" && equal_fold model vendorRngd then vendorRngd else vendor.
Definition descriptorRegistryKey (vendor product : string) : string * string :=
  if bool_decide (to_lower vendor = vendorRngd) then (vendorFuriosa, vendorRngd)
  else if bool_decide (to_lower vendor = vendorFuriosa) then (vendorFuriosa, product)
  else (vendor, product).
Definition matchesDescriptor (d : DeviceEntry) (spec : AcceleratorDescriptorSpec) : bool :=
  equal_fold (normalizeVendor (De_Vendor d) (De_Model d)) (Dd_Vendor spec) && equal_fold (De_Model d) (Dd_Product spec).
Definition stableID (d : DeviceEntry) : string :=
  if negb (bool_decide (De_PCIeAddress d = "")) then "PCI-" +:+ De_PCIeAddress d else De_Model d.

(** A report and its object's name. *)
Notation Report := (string * NodeDeviceReport)%type (only parsing).
Definition report_node (r : Report) : string := if bool_decide (Ndr_NodeName r.2 = "") then r.1 else Ndr_NodeName r.2.
Definition add_device (spec : AcceleratorDescriptorSpec) (node : string) (byNode : gmap string (list string)) (d : DeviceEntry)
    : gmap string (list string) :=
  if matchesDescriptor d spec then <[node := mget [] byNode node ++ [stableID d]]> byNode else byNode.
Definition devices_by_node (spec : AcceleratorDescriptorSpec) (ndrs : list Report) : gmap string (list string) :=
  foldl (λ byNode r, foldl (add_device spec (report_node r)) byNode (Ndr_Devices r.2)) ∅ ndrs.
Definition resolveDevices `{MapRange} (spec : AcceleratorDescriptorSpec) (ndrs : list Report) : list NodeDeviceIDs :=
  let byNode := devices_by_node spec ndrs in
  (λ node, mkNodeIDs node (sort_strings (mget [] byNode node))) <$> sort_strings (range_map byNode).*1.

(** *** The sharing gate *)

Definition registryCapSupport (reg : Registry) (vendor product : string) (c : Capability) : Support :=
  match Lookup reg vendor product c with
  | Some s => s
  | None => match Lookup reg vendor "" c with
            | Some s => s
            | None => mkSupport StateUnknown "" "레지스트리에 vendor/product 키 없음" "" [] ""
            end
  end.
Definition sharingSupport (vendor product : string) : Support :=
  let (rv, rp) := descriptorRegistryKey vendor product in registryCapSupport registry rv rp CapTimeSlicing.
Definition sharingRefusal (spec : AcceleratorDescriptorSpec) : option DescriptorRefusal :=
  match Dd_Sharing spec with
  | None => None
  | Some _ =>
      let s := sharingSupport (Dd_Vendor spec) (Dd_Product spec) in
      if bool_decide (Su_State s = StateSoftware) then None
      else Some (mkRefusal "*" ("sharing 거절: vendor " +:+ Dd_Vendor spec +:+ " 의 timeSlicing 이 " +:+ Su_State s +:+ " ("
             +:+ Su_Reason s +:+ ") — 동시 접근 안전 실측 없이 SW 시분할을 켜지 않는다"))
  end.

(** ** acceleratordescriptor_apply.go: the judgement *)

Definition descriptorOwnerLabel : string := "npu.ai/generated-by".
Definition idPlaceholder : string := "{{id}}".
Definition mergeLabels (base add : gmap string string) : gmap string string := add ∪ base.

(** One policy's answer for one vendor. *)
Definition manages (spec : AcceleratorDescriptorSpec) (p : NPUClusterPolicy) : bool :=
  let vendor := to_lower (Dd_Vendor spec) in
  let others m := IsDelegated m || IsExternal m in
  if bool_decide (vendor = vendorNvidia) then
    Nv_Enabled (Nvidia p) || IsEnabled (Nv_DRA (Nvidia p)) || others (Nv_Management (Nvidia p))
  else if bool_decide (vendor = vendorFuriosa) then
    Fu_Enabled (Furiosa p) || IsEnabled (Fu_DRA (Furiosa p)) || others (Fu_Management (Furiosa p))
  else if bool_decide (vendor = vendorRngd) then
    Rg_Enabled (Rngd p) || (Fu_Enabled (Furiosa p) && Fu_Unified (Furiosa p)) || IsEnabled (Rg_DRA (Rngd p))
    || others (Fu_Management (Furiosa p))
  else if bool_decide (vendor = vendorRebellions) then
    Rbl_Enabled (Rebellions p) || IsEnabled (Rbl_DRA (Rebellions p)) || others (Rbl_Management (Rebellions p))
  else if bool_decide (vendor = vendorTenstorrent) then
    Tt_Enabled (Tenstorrent p) || IsEnabled (Tt_DRA (Tenstorrent p)) || others (Tt_Management (Tenstorrent p))
  else false.
Definition descriptorVendorManaged (spec : AcceleratorDescriptorSpec) (policies : list NPUClusterPolicy) : bool :=
  existsb (manages spec) policies.

(** The parts of a template around the place of the id, or what is wrong with it. *)
Definition template_error (tmpl : string) : option string :=
  match cut_str idPlaceholder tmpl with
  | None => None
  | Some (prefix, suffix) =>
      if bool_decide (is_Some (cut_str idPlaceholder suffix)) then
        Some ("deviceNode 템플릿 " +:+ quote tmpl +:+ " 에 " +:+ idPlaceholder
              +:+ " 가 둘 이상이다 — 런타임의 문자열 발견이 ID 를 가르지 못한다")
      else if negb (has_suffix prefix "/") || (negb (bool_decide (suffix = "")) && negb (has_prefix suffix "/")) then
        Some ("deviceNode 템플릿 " +:+ quote tmpl +:+ " 의 " +:+ idPlaceholder
              +:+ " 가 깨끗한 경로 성분이 아니다 — 런타임의 문자열 발견이 ID 를 가르지 못한다(앞은 '/' 로 끝나고 뒤는 비거나 '/' 로 시작해야 함)")
      else None
  end.
Definition discoverableForAutoApply (spec : AcceleratorDescriptorSpec) : option string :=
  head (omap template_error (Dd_DeviceNodes spec)).

(** One report: whether a device matches, and the other models of the vendor. *)
Definition scan_models (spec : AcceleratorDescriptorSpec) (physVendor : string) (acc : bool * list string) (d : DeviceEntry)
    : bool * list string :=
  let (matched, models) := acc in
  if matchesDescriptor d spec then (true, models)
  else if equal_fold (De_Vendor d) physVendor && negb (contains_string models (De_Model d)) then (matched, models ++ [De_Model d])
  else (matched, models).
Definition mixed_nodes (spec : AcceleratorDescriptorSpec) (ndrs : list Report) : list string * gmap string (list string) :=
  let (physVendor, _) := descriptorRegistryKey (Dd_Vendor spec) (Dd_Product spec) in
  foldl (λ (acc : list string * gmap string (list string)) (r : Report),
    let (matched, models) := foldl (scan_models spec physVendor) (false, []) (Ndr_Devices r.2) in
    if matched && (0 <? Z.of_nat (length models)) then
      (acc.1 ++ [report_node r], <[report_node r := sort_strings models]> acc.2)
    else acc) ([], ∅) ndrs.
Definition displayModels (models : list string) : list string :=
  (λ m, if bool_decide (m = "") then "모델 미보고" else m) <$> models.
Definition mixedModelRefusal (spec : AcceleratorDescriptorSpec) (ndrs : list Report) : string :=
  if negb (existsb (λ tmpl, str_contains tmpl idPlaceholder) (Dd_DeviceNodes spec)) then ""
  else
    let (nodes, others) := mixed_nodes spec ndrs in
    match sort_strings nodes with
    | [] => ""
    | node :: _ =>
        "노드 " +:+ node +:+ " 에 같은 벤더의 다른 모델(" +:+ join "," (displayModels (mget [] others node)) +:+ ")이 있다 — "
        +:+ idPlaceholder +:+ " 열거는 파일명 글롭뿐이라 제품을 가르지 못해 " +:+ ResourceNameFor spec +:+ " 광고에 다른 제품이 섞인다"
    end.
Definition autoApplyDiscoveryRefusal (spec : AcceleratorDescriptorSpec) (ndrs : list Report) : string :=
  match discoverableForAutoApply spec with
  | Some err => "auto-apply 발견 불가: " +:+ err
  | None =>
      let reason := mixedModelRefusal spec ndrs in
      if negb (bool_decide (reason = "")) then "auto-apply 발견 불가: " +:+ reason else ""
  end.

(** ** generated_backend.go *)

Definition generatedDevicePluginNameFor (desc : AcceleratorDescriptor) : string := "kcloud-generated-" +:+ Da_Name desc +:+ "-dp".
Definition generatedDRADriverNameFor (desc : AcceleratorDescriptor) : string := "kcloud-generated-" +:+ Da_Name desc +:+ "-dra".
Definition generated_labels (name component : string) : gmap string string :=
  {[ appName := name; "app.kubernetes.io/component" := component ]}.
(** [hostVol] *)
Definition hostVol (name path : string) : Volume := (name, HostPath path "DirectoryOrCreate").
(** Privileged, and root: the kubelet's socket directory is root's. *)
Definition privileged_root : SecurityContext := mkSecurity (Some true) None [] (Some 0) None None "".
(** The Pod of a generated DaemonSet. *)
Definition generated_pod (desc : AcceleratorDescriptor) (account : string) (c : OContainer) (volumes : list Volume) : PodSpec :=
  applyControlPlaneExclusion
    (mkPodSpec (present (Dd_Vendor (Da_Spec desc))) None tolerate_all account "system-node-critical" None false false [] [c] volumes []).

Definition renderGeneratedDevicePlugin (desc : AcceleratorDescriptor) (cfgJSON image ns : string) : list DRAObject :=
  let name := generatedDevicePluginNameFor desc in
  let labels := generated_labels name "generated-device-plugin" in
  [DraConfigMap ns name labels {[ "backend.json" := cfgJSON ]};
   DraDaemonSet (daemonset ns name labels labels ∅
     (generated_pod desc ""
        (mkOContainer "plugin" image IfNotPresent [] ["--config=/etc/kcloud/backend.json"; "--host-root=/host"] [] []
           (Some privileged_root) [] [] [mnt "config" "/etc/kcloud"; mnt "dev" "/host/dev"; mnt "device-plugins" kubeletPlugins] None)
        [("config", ConfigMapVolume name); hostVol "dev" "/dev"; hostVol "device-plugins" kubeletPlugins]))].

Definition renderGeneratedDRADriver (desc : AcceleratorDescriptor) (cfgJSON image ns : string) : list DRAObject :=
  let name := generatedDRADriverNameFor desc in
  let labels := generated_labels name "generated-dra-driver" in
  let driverName := DriverNameFor (Da_Spec desc) in
  [DraConfigMap ns name labels {[ "backend.json" := cfgJSON ]};
   DraDaemonSet (daemonset ns name labels labels ∅
     (generated_pod desc name
        (mkOContainer "plugin" image IfNotPresent [] [] []
           [env_field "NODE_NAME" "spec.nodeName"; env "CONFIG_PATH" "/etc/kcloud/backend.json"; env "CDI_ROOT" draCDIRoot]
           (Some privileged_root) [] []
           [mnt "config" "/etc/kcloud"; mnt "dev" "/host/dev"; mnt "registrar" "/var/lib/kubelet/plugins_registry";
            mnt "plugins" "/var/lib/kubelet/plugins"; mnt "cdi" draCDIRoot] None)
        [("config", ConfigMapVolume name); hostVol "dev" "/dev"; hostVol "registrar" "/var/lib/kubelet/plugins_registry";
         hostVol "plugins" "/var/lib/kubelet/plugins"; hostVol "cdi" draCDIRoot]));
   DraDeviceClass driverName labels ("device.driver == '" +:+ driverName +:+ "'")].
Definition renderGeneratedDRARBAC (desc : AcceleratorDescriptor) (ns : string) : list DRAObject :=
  let name := generatedDRADriverNameFor desc in
  let labels := generated_labels name "generated-dra-driver" in
  [DraServiceAccount ns name labels;
   DraClusterRole name labels
     [mkRule ["resource.k8s.io"] ["resourceslices"] ["get"; "list"; "watch"; "create"; "update"; "patch"; "delete"];
      mkRule ["resource.k8s.io"] ["resourceclaims"] ["get"; "list"; "watch"];
      mkRule ["resource.k8s.io"] ["resourceclaims/status"] ["update"]; mkRule [""] ["nodes"] ["get"]];
   DraClusterRoleBinding name labels name name ns].

Section Render.
Context `{FieldRules} `{MapRange} `{ConfigJSON}.

(** One feasible backend. *)
Definition render_backend (desc : AcceleratorDescriptor) (dpImage draImage ns b : string) : list DRAObject + GoErr :=
  if bool_decide (b = BackendDevicePlugin) then
    if bool_decide (dpImage = "") then inl []
    else match CompileDevicePlugin (Da_Spec desc) with
         | inl cfg => inl (renderGeneratedDevicePlugin desc cfg dpImage ns)
         | inr err => inr err
         end
  else if bool_decide (b = BackendDRA) then
    if bool_decide (draImage = "") then inl []
    else match CompileDRA (Da_Spec desc) with
         | inl cfg => inl (renderGeneratedDRARBAC desc ns ++ renderGeneratedDRADriver desc cfg draImage ns)
         | inr err => inr err
         end
  else inl [].
Fixpoint render_all (desc : AcceleratorDescriptor) (dpImage draImage ns : string) (feasible : list string) : list DRAObject + GoErr :=
  match feasible with
  | [] => inl []
  | b :: feasible =>
      match render_backend desc dpImage draImage ns b with
      | inr err => inr err
      | inl objs => match render_all desc dpImage draImage ns feasible with inl rest => inl (objs ++ rest) | inr err => inr err end
      end
  end.
Definition RenderGeneratedBackends (desc : AcceleratorDescriptor) (dpImage draImage ns : string) : list DRAObject + GoErr :=
  match sharingRefusal (Da_Spec desc) with
  | Some rf => inr (errorf (Rf_Reason rf))
  | None =>
      match render_all desc dpImage draImage ns (FeasibleBackends (Da_Spec desc)).1 with
      | inr err => inr err
      | inl [] => inr (errorf "생성 가능한 backend 가 없다")
      | inl out => inl out
      end
  end.
End Render.

(** ** The API *)

Inductive GKind := KConfigMap | KDaemonSet | KServiceAccount | KClusterRole | KClusterRoleBinding | KDeviceClass.
#[export] Instance GKind_eq_dec : EqDecision GKind.
Proof. solve_decision. Defined.
Definition kind_of (o : DRAObject) : GKind :=
  match o with
  | DraServiceAccount _ _ _ => KServiceAccount | DraClusterRole _ _ _ => KClusterRole
  | DraClusterRoleBinding _ _ _ _ _ => KClusterRoleBinding | DraConfigMap _ _ _ _ => KConfigMap
  | DraDeviceClass _ _ _ => KDeviceClass | DraDaemonSet _ => KDaemonSet
  end.
Definition kind_name (k : GKind) : string :=
  match k with
  | KConfigMap => "ConfigMap" | KDaemonSet => "DaemonSet" | KServiceAccount => "ServiceAccount"
  | KClusterRole => "ClusterRole" | KClusterRoleBinding => "ClusterRoleBinding" | KDeviceClass => "DeviceClass"
  end.
(** [GetName], [GetNamespace] *)
Definition object_name (o : DRAObject) : string :=
  match o with
  | DraServiceAccount _ n _ | DraClusterRole n _ _ | DraClusterRoleBinding n _ _ _ _ | DraConfigMap _ n _ _ | DraDeviceClass n _ _ => n
  | DraDaemonSet ds => Ods_Name ds
  end.
Definition object_namespace (o : DRAObject) : string :=
  match o with
  | DraServiceAccount ns _ _ | DraConfigMap ns _ _ _ => ns
  | DraDaemonSet ds => Ods_Namespace ds
  | _ => ""
  end.
(** [GetLabels], [SetLabels] *)
Definition labels_of (o : DRAObject) : gmap string string :=
  match o with
  | DraServiceAccount _ _ l | DraClusterRole _ l _ | DraClusterRoleBinding _ l _ _ _ | DraConfigMap _ _ l _ | DraDeviceClass _ l _ => l
  | DraDaemonSet ds => Ods_Labels ds
  end.
Definition map_labels (f : gmap string string → gmap string string) (o : DRAObject) : DRAObject :=
  match o with
  | DraServiceAccount ns n l => DraServiceAccount ns n (f l)
  | DraClusterRole n l rules => DraClusterRole n (f l) rules
  | DraClusterRoleBinding n l role account ns => DraClusterRoleBinding n (f l) role account ns
  | DraConfigMap ns n l data => DraConfigMap ns n (f l) data
  | DraDeviceClass n l e => DraDeviceClass n (f l) e
  | DraDaemonSet ds =>
      DraDaemonSet (mkODaemonSet (Ods_Namespace ds) (Ods_Name ds) (f (Ods_Labels ds)) (Ods_Annotations ds) (Ods_Deleting ds) (Ods_Spec ds))
  end.

Class DescriptorAPI (W : Type) := {
  desc_get : string → M W AcceleratorDescriptor;
  desc_list : M W (list AcceleratorDescriptor);
  (** answers with the stored object *)
  desc_status_update : AcceleratorDescriptor → M W AcceleratorDescriptor;
  desc_reports : M W (list Report);
  desc_policies : M W (list NPUClusterPolicy);
  (** the RESTMapper's answer for DeviceClass of resource.k8s.io/v1, when there is a mapper *)
  device_class_mapping : option (M W ());
  (** server-side apply, taking over every field; the controlling owner is set *)
  gen_apply : OwnerRef → DRAObject → M W ();
  (** namespace and name of the objects of a kind with this owner label; in every namespace for [""] *)
  gen_list : GKind → string → string → M W (list (string * string));
  gen_delete : GKind → string → string → M W ();
}.

(** ** acceleratordescriptor_controller.go: a pass *)

Definition with_status (s : AcceleratorDescriptorStatus) (d : AcceleratorDescriptor) : AcceleratorDescriptor :=
  mkDescriptor (Da_Name d) (Da_UID d) (Da_Generation d) (Da_Spec d) s.
Definition owner_ref (d : AcceleratorDescriptor) : OwnerRef := mkOwnerRef "AcceleratorDescriptor" (Da_Name d) (Da_UID d) true.
(** The objects as they are applied. *)
Definition owned (d : AcceleratorDescriptor) (o : DRAObject) : DRAObject :=
  map_labels (λ l, mergeLabels l {[ descriptorOwnerLabel := Da_Name d ]}) o.

Record AcceleratorDescriptorReconciler (W : Type) := mkReconciler {
  DPImage : string;
  DRAImage : string;
  GeneratedNamespace : string;
  Verification : option (Verifier.Verifier W);
}.
Arguments mkReconciler {W} _ _ _ _.
Arguments DPImage {W} _.
Arguments DRAImage {W} _.
Arguments GeneratedNamespace {W} _.
Arguments Verification {W} _.

(** The request about one node: the resolved ids, and nothing observed of them. *)
Definition evidence_request (desc : AcceleratorDescriptor) (nd : NodeDeviceIDs) : Verifier.Request :=
  Verifier.mkRequest (Ni_Node nd) (Dd_Vendor (Da_Spec desc)) (Da_Name desc) (Da_Generation desc)
    (mkExpectation "" 0 "" ∅ (ResourceNameFor (Da_Spec desc)))
    (foldl (λ observed id, <[id := ""]> observed) ∅ (Ni_IDs nd)) ∅ [] (Dd_Product (Da_Spec desc)) (Z.of_nat (length (Ni_IDs nd))) true.

Section Controller.
Context {W : Type} `{DescriptorAPI W, Verifier.VerifyAPI W, Clock W} `{FieldRules} `{MapRange} `{ConfigJSON}.
Context (r : AcceleratorDescriptorReconciler W).
Notation IO := (M W).

(** An API call whose error is wrapped. *)
Definition described {A} (what : string) (m : IO A) : IO A :=
  x ← try m; match x with inl a => mret a | inr e => throw (errorf_w what e) end.

Definition verifyResolvedDevices (desc : AcceleratorDescriptor) (resolved : list NodeDeviceIDs) (feasible : list string) : IO () :=
  match Verification r with
  | None => mret ()
  | Some v =>
      if bool_decide (length feasible = 0%nat) then mret ()
      else for_each (λ nd, _ ← try (Verifier.Verify v (evidence_request desc nd)); mret ()) resolved
  end.

Definition duplicateWinnerName (desc : AcceleratorDescriptor) : IO string :=
  all ← described "AcceleratorDescriptor 목록 조회 실패" desc_list;
  let key := ResourceNameFor (Da_Spec desc) in
  mret (foldl (λ winner o,
    if negb (bool_decide (Da_Name o = Da_Name desc)) && bool_decide (ResourceNameFor (Da_Spec o) = key) && str_ltb (Da_Name o) winner
    then Da_Name o else winner) (Da_Name desc) all).

Definition draServedByMapper (m : option (IO ())) : IO bool :=
  match m with
  | None => mret false
  | Some mapping => x ← try mapping; mret (match x with inl _ => true | inr _ => false end)
  end.
Definition clusterServesDRA : IO bool := draServedByMapper device_class_mapping.

(** *** The gates: the refusals so far, and [applyOK] *)

Definition verdict : Type := list DescriptorRefusal * bool.
Definition gate (v : verdict) (m : IO (option DescriptorRefusal)) : IO verdict :=
  if v.2 then rf ← m; mret (match rf with Some rf => (v.1 ++ [rf], false) | None => v end)
  else mret v.
Definition arbitration (spec : AcceleratorDescriptorSpec) (ndrs : list Report) : IO (option DescriptorRefusal) :=
  policies ← described "NPUClusterPolicy 목록 조회 실패" desc_policies;
  mret (if descriptorVendorManaged spec policies then
          Some (mkRefusal "*" ("vendor " +:+ Dd_Vendor spec +:+ " 는 NPUClusterPolicy 가 관리 중 — 이중 광고 방지로 auto-apply 거절"))
        else let reason := autoApplyDiscoveryRefusal spec ndrs in
             if negb (bool_decide (reason = "")) then Some (mkRefusal "*" reason) else None).
Definition sole_winner (desc : AcceleratorDescriptor) : IO (option DescriptorRefusal) :=
  winner ← duplicateWinnerName desc;
  mret (if negb (bool_decide (winner = Da_Name desc)) then
          Some (mkRefusal "*" ("같은 vendor/product(" +:+ ResourceNameFor (Da_Spec desc) +:+ ")를 descriptor " +:+ quote winner
                +:+ " 가 이미 auto-apply 중 — 같은 하드웨어 이중 광고 방지로 거절"))
        else None).
(** Why a feasible backend is not deployed. *)
Definition image_refusal (served : bool) (b : string) : list DescriptorRefusal :=
  if bool_decide (b = BackendDevicePlugin) then
    if bool_decide (DPImage r = "") then [mkRefusal b "devicePlugin auto-apply 이미지 미설정(--generated-dp-image)"] else []
  else if bool_decide (b = BackendDRA) then
    if bool_decide (DRAImage r = "") then [mkRefusal b "dra auto-apply 이미지 미설정(--generated-dra-image)"]
    else if negb served then
      [mkRefusal b "클러스터가 resource.k8s.io/v1(DeviceClass)를 서빙하지 않음 — DRA 미지원(k8s 1.34+ 필요)"]
    else []
  else [].
Definition applicable (served : bool) (b : string) : bool :=
  (bool_decide (b = BackendDevicePlugin) && negb (bool_decide (DPImage r = "")))
  || (bool_decide (b = BackendDRA) && negb (bool_decide (DRAImage r = "")) && served).
Definition image_gate (served : bool) (feasible : list string) (v : verdict) : verdict :=
  if v.2 then (v.1 ++ (feasible ≫= image_refusal served), 0 <? Z.of_nat (length (filter (λ b, applicable served b = true) feasible)))
  else v.

(** *** Applying and pruning *)

Definition applyGeneratedBackends (desc : AcceleratorDescriptor) (objs : list DRAObject) : IO () :=
  for_each (λ o, described ("적용 실패(" +:+ kind_name (kind_of o) +:+ "/" +:+ object_name o +:+ ")")
                   (gen_apply (owner_ref desc) (owned desc o))) objs.
Definition prune_one (k : GKind) (want : list string) (obj : string * string) : IO () :=
  if contains_string want obj.2 then mret ()
  else x ← try (gen_delete k obj.1 obj.2);
       match x with
       | inl _ => mret ()
       | inr e => if is_not_found e then mret () else throw (errorf_w ("생성물 삭제 실패(" +:+ obj.2 +:+ ")") e)
       end.
Definition pruneKind (k : GKind) (ns owner : string) (want : list string) : IO () :=
  l ← try (gen_list k ns owner);
  match l with
  | inr e => if is_no_match e then mret () else throw (errorf_w "생성물 목록 조회 실패" e)
  | inl l => for_each (prune_one k want) l
  end.
Definition wanted_names (k : GKind) (desired : list DRAObject) : list string :=
  object_name <$> filter (λ o, kind_of o = k) desired.
Definition pruneGeneratedBackends (desc : AcceleratorDescriptor) (desired : list DRAObject) : IO () :=
  let ns := GeneratedNamespace r in
  for_each (λ k : GKind * string, pruneKind k.1 k.2 (Da_Name desc) (wanted_names k.1 desired))
    [(KConfigMap, ns); (KDaemonSet, ns); (KServiceAccount, ns); (KClusterRole, ""); (KClusterRoleBinding, ""); (KDeviceClass, "")].

(** *** Reconcile *)

Definition store_status (desc : AcceleratorDescriptor) (s : AcceleratorDescriptorStatus) : IO AcceleratorDescriptor :=
  described "status 갱신 실패" (desc_status_update (with_status s desc)).
(** An inconsistent declaration. *)
Definition refuse_inconsistent (desc : AcceleratorDescriptor) (errs : list FieldError) : IO () :=
  _ ← store_status desc (mkDescriptorStatus [] [mkRefusal "*" (inconsistent errs)] []);
  mret ().
(** What follows the judgement. *)
Definition deploy (desc : AcceleratorDescriptor) (applyOK served : bool) : IO () :=
  if negb applyOK then pruneGeneratedBackends desc []
  else
    match RenderGeneratedBackends desc (DPImage r) (if served then DRAImage r else "") (GeneratedNamespace r) with
    | inr err => throw (errorf_w "배포물 렌더 실패" err)
    | inl objs => _ ← applyGeneratedBackends desc objs; pruneGeneratedBackends desc objs
    end.
Definition judge_and_deploy (desc : AcceleratorDescriptor) : IO () :=
  let spec := Da_Spec desc in
  let (feasible, refusals) := FeasibleBackends spec in
  ndrs ← described "NodeDeviceReport 목록 조회 실패" desc_reports;
  let resolved := resolveDevices spec ndrs in
  _ ← verifyResolvedDevices desc resolved feasible;
  v1 ← gate (refusals, 0 <? Z.of_nat (length feasible)) (arbitration spec ndrs);
  v2 ← gate v1 (mret (sharingRefusal spec));
  v3 ← gate v2 (sole_winner desc);
  served ← clusterServesDRA;
  let v := image_gate served feasible v3 in
  desc' ← store_status desc (mkDescriptorStatus feasible v.1 resolved);
  deploy desc' v.2 served.
Definition Reconcile (name : string) : IO () :=
  x ← try (desc_get name);
  match x with
  | inr e => if is_not_found e then mret () else throw e
  | inl desc =>
      match Validate (Da_Spec desc) with
      | [] => judge_and_deploy desc
      | errs => refuse_inconsistent desc errs
      end
  end.

(** [descriptorsForNDR]: every descriptor again. *)
Definition descriptorsForNDR : IO (list string) :=
  x ← try desc_list;
  match x with inl l => mret (Da_Name <$> l) | inr _ => mret [] end.
End Controller.

(** ** What a pass may write *)

(** The winner is no later than anybody who asks for the same resource. *)
Lemma winner_least (desc : AcceleratorDescriptor) (all : list AcceleratorDescriptor) (start : string) :
  let winner := foldl (λ winner o,
    if negb (bool_decide (Da_Name o = Da_Name desc)) && bool_decide (ResourceNameFor (Da_Spec o) = ResourceNameFor (Da_Spec desc))
       && str_ltb (Da_Name o) winner then Da_Name o else winner) start all in
  str_leb winner start = true ∧
  ∀ o, o ∈ all → Da_Name o ≠ Da_Name desc → ResourceNameFor (Da_Spec o) = ResourceNameFor (Da_Spec desc) →
    str_leb winner (Da_Name o) = true.
Proof.
  revert start. induction all as [|x all IH]; intros start; simpl.
  { split; [apply str_leb_refl|]. by intros o ?%elem_of_nil. }
  match goal with |- context [foldl _ ?x all] => set (start' := x) end. destruct (IH start') as [Hs Ho].
  assert (Hle : str_leb start' start = true).
  { unfold start'. destruct (_ && _) eqn:E; [|apply str_leb_refl]. apply andb_true_iff in E as [_ E]. by apply str_ltb_le. }
  split; [by apply (str_leb_trans _ start')|]. intros o [->|Hin]%elem_of_cons Hne Hkey; [|by apply Ho].
  apply (str_leb_trans _ start'); [done|]. unfold start'. rewrite bool_decide_eq_false_2, bool_decide_eq_true_2 by done. simpl.
  destruct (str_ltb (Da_Name x) start) eqn:E; [apply str_leb_refl|]. by apply str_ltb_ge.
Qed.

(** The winner is the descriptor itself or one with an earlier name. *)
Notation winner_of desc all := (foldl (λ winner o,
    if negb (bool_decide (Da_Name o = Da_Name desc)) && bool_decide (ResourceNameFor (Da_Spec o) = ResourceNameFor (Da_Spec desc))
       && str_ltb (Da_Name o) winner then Da_Name o else winner) (Da_Name desc) all).
Lemma winner_someone (desc : AcceleratorDescriptor) (all : list AcceleratorDescriptor) :
  winner_of desc all = Da_Name desc
  ∨ ∃ o, o ∈ all ∧ ResourceNameFor (Da_Spec o) = ResourceNameFor (Da_Spec desc) ∧ str_ltb (Da_Name o) (Da_Name desc) = true.
Proof.
  enough (Hgen : ∀ l start, l ⊆ all → start = Da_Name desc →
    foldl (λ winner o, if negb (bool_decide (Da_Name o = Da_Name desc))
       && bool_decide (ResourceNameFor (Da_Spec o) = ResourceNameFor (Da_Spec desc))
       && str_ltb (Da_Name o) winner then Da_Name o else winner) start l = Da_Name desc
    ∨ ∃ o, o ∈ all ∧ ResourceNameFor (Da_Spec o) = ResourceNameFor (Da_Spec desc) ∧ str_ltb (Da_Name o) (Da_Name desc) = true)
    by by apply Hgen.
  induction l as [|o l IH]; intros start Hsub Es; simpl; [by left|].
  destruct (_ && _) eqn:E; [right|apply IH; [by intros x Hx; apply Hsub; right|done]].
  apply andb_true_iff in E as [ [_ Ek]%andb_true_iff Hlt]. apply bool_decide_eq_true in Ek. subst start.
  exists o. split; [apply Hsub; by left|done].
Qed.

Inductive GWrite :=
| GStatus (d : AcceleratorDescriptor)
| GApply (own : OwnerRef) (o : DRAObject)
| GDelete (k : GKind) (ns name : string).

Section Writes.
Context {W : Type} `{DescriptorAPI W, Verifier.VerifyAPI W, Clock W} `{FieldRules} `{MapRange} `{ConfigJSON}.
Context (r : AcceleratorDescriptorReconciler W).

Definition send (x : GWrite) (w : W) : W :=
  match x with
  | GStatus d => (desc_status_update d w).2
  | GApply own o => (gen_apply own o w).2
  | GDelete k ns n => (gen_delete k ns n w).2
  end.

Section Allowed.
Context (I : W → Prop) (desc : AcceleratorDescriptor).
Notation spec := (Da_Spec desc).

(** The cluster let the descriptor through, on what it answered during the pass. *)
Definition cleared : Prop :=
  (∃ policies, answers I desc_policies policies ∧ descriptorVendorManaged spec policies = false) ∧
  (∃ ndrs, answers I desc_reports ndrs ∧ autoApplyDiscoveryRefusal spec ndrs = "") ∧
  sharingRefusal spec = None ∧
  ∃ all, answers I desc_list all ∧
    ∀ o : AcceleratorDescriptor, o ∈ all → ResourceNameFor (Da_Spec o) = ResourceNameFor spec → str_leb (Da_Name desc) (Da_Name o) = true.
(** Why nothing is deployed, on what the cluster answered during the pass. *)
Inductive withheld (served : bool) : Prop :=
| withheld_infeasible : (FeasibleBackends spec).1 = [] → withheld served
| withheld_managed policies : answers I desc_policies policies → descriptorVendorManaged spec policies = true → withheld served
| withheld_unseen ndrs : answers I desc_reports ndrs → autoApplyDiscoveryRefusal spec ndrs ≠ "" → withheld served
| withheld_sharing : sharingRefusal spec ≠ None → withheld served
| withheld_later all (o : AcceleratorDescriptor) : answers I desc_list all → o ∈ all →
    ResourceNameFor (Da_Spec o) = ResourceNameFor spec → str_ltb (Da_Name o) (Da_Name desc) = true → withheld served
| withheld_undeployable : (∀ b, b ∈ (FeasibleBackends spec).1 → applicable r served b = false) → withheld served.
(** Every declared backend is refused, by name or with all the others, or deployable. *)
Definition accounted (served : bool) (s : AcceleratorDescriptorStatus) : Prop :=
  ∀ b, b ∈ Dd_Backends spec →
    (∃ rf, rf ∈ Das_Refusals s ∧ (Rf_Backend rf = b ∨ Rf_Backend rf = "*")) ∨
    (b ∈ Das_FeasibleBackends s ∧ applicable r served b = true ∧ cleared).
Definition status_judged (s : AcceleratorDescriptorStatus) : Prop :=
  (Validate spec ≠ [] ∧ Das_FeasibleBackends s = [] ∧ Das_ResolvedDevices s = [] ∧ ∃ served, accounted served s) ∨
  (Validate spec = [] ∧ Das_FeasibleBackends s = (FeasibleBackends spec).1 ∧
   (∃ ndrs, answers I desc_reports ndrs ∧ Das_ResolvedDevices s = resolveDevices spec ndrs) ∧ ∃ served, accounted served s).

Definition gen_allowed (x : GWrite) : Prop :=
  match x with
  | GStatus d => ∃ s, d = with_status s desc ∧ status_judged s
  | GApply own o => own = owner_ref desc ∧ Validate spec = [] ∧ cleared ∧
      ∃ draImage objs o', (draImage = "" ∨ draImage = DRAImage r) ∧
        RenderGeneratedBackends desc (DPImage r) draImage (GeneratedNamespace r) = inl objs ∧ o' ∈ objs ∧ o = owned desc o'
  | GDelete k ns n => Validate spec = [] ∧
      ∃ scope l, answers I (gen_list k scope (Da_Name desc)) l ∧ (ns, n) ∈ l ∧
        (scope = GeneratedNamespace r ∨ k ∈ [KClusterRole; KClusterRoleBinding; KDeviceClass] ∧ scope = "")
  end.
End Allowed.
End Writes.

(** [I] survives the reads, and the allowed writes about the descriptor that was asked
    for; a status update answers with the object it stored. *)
Class KeepsDesc {W} `{DescriptorAPI W, Verifier.VerifyAPI W, Clock W} `{FieldRules} `{MapRange} `{ConfigJSON}
    (r : AcceleratorDescriptorReconciler W) (I : W → Prop) (name : string) := {
  kd_get n : preserves I (desc_get n);
  kd_list : preserves I desc_list;
  kd_reports : preserves I desc_reports;
  kd_policies : preserves I desc_policies;
  kd_mapping (m : M W ()) : device_class_mapping = Some m → preserves I m;
  kd_gen_list k ns owner : preserves I (gen_list k ns owner);
  kd_verify v req : Verification r = Some v → preserves I (Verifier.Verify v req);
  kd_updated d d' w w' : desc_status_update d w = (inl d', w') →
    Da_Name d' = Da_Name d ∧ Da_UID d' = Da_UID d ∧ Da_Spec d' = Da_Spec d;
  kd_send x w : I w → (∃ desc, answers I (desc_get name) desc ∧ gen_allowed r I desc x) → I (send x w);
}.

Lemma render_ext `{FieldRules} `{MapRange} `{ConfigJSON} (desc d : AcceleratorDescriptor) dp dra ns : Da_Name d = Da_Name desc → Da_Spec d = Da_Spec desc →
  RenderGeneratedBackends d dp dra ns = RenderGeneratedBackends desc dp dra ns.
Proof.
  destruct d as [n u g s st], desc as [n' u' g' s' st']. simpl. intros -> ->. unfold RenderGeneratedBackends. simpl.
  assert (Hall : ∀ l, render_all (mkDescriptor n' u g s' st) dp dra ns l = render_all (mkDescriptor n' u' g' s' st') dp dra ns l).
  { induction l as [|b l IH]; [done|]. simpl. rewrite IH. done. }
  by rewrite Hall.
Qed.

Section Effects.
Context {W : Type} `{DescriptorAPI W, Verifier.VerifyAPI W, Clock W} `{FieldRules} `{MapRange} `{ConfigJSON}.
Context (r : AcceleratorDescriptorReconciler W) (I : W → Prop) (name : string) `{HK : !KeepsDesc r I name}.
Context (desc : AcceleratorDescriptor).
Hypothesis Hdesc : answers I (desc_get name) desc.
Notation inv m := (preserves I m).
Notation spec := (Da_Spec desc).

Lemma sent_allowed x w : I w → gen_allowed r I desc x → I (send x w).
Proof. intros Hw Hx. apply (kd_send (KeepsDesc := HK) x w Hw). eauto. Qed.

Lemma described_gives {A} (R : A → Prop) what (m : M W A) : gives I R m → gives I R (described what m).
Proof. intros Hm. apply (gives_checked I R); [done|intros; by apply gives_ret|intros; apply gives_throw]. Qed.
Lemma described_answers {A} what (m : M W A) : inv m → gives I (answers I m) (described what m).
Proof. intros Hm. by apply described_gives, preserves_gives. Qed.

Lemma inv_verify resolved feasible : inv (verifyResolvedDevices r desc resolved feasible).
Proof.
  unfold verifyResolvedDevices. destruct (Verification r) as [v|] eqn:Ev; [|by apply preserves_ret].
  case_bool_decide; [apply preserves_ret|]. apply preserves_for_each. intros nd _.
  apply preserves_bind; [by apply preserves_try, (kd_verify (KeepsDesc := HK))|intros; apply preserves_ret].
Qed.

(** What the gates leave behind: the refusals only grow; when the verdict is no, the
    reason covers every backend and [N] holds; when it is yes, [Q] holds. *)
Definition gated (feasible : list string) (refusals : list DescriptorRefusal) (N Q : Prop) (v : verdict) : Prop :=
  refusals ⊆ v.1 ∧ (v.2 = false → (feasible = [] ∨ ∃ rf, rf ∈ v.1 ∧ Rf_Backend rf = "*") ∧ N) ∧ (v.2 = true → Q).
Lemma gate_gives feasible refusals (N Q Q' : Prop) v m : gated feasible refusals N Q v →
  gives I (λ rf, match rf with Some rf => Rf_Backend rf = "*" ∧ N | None => Q' end) m →
  gives I (gated feasible refusals N (Q ∧ Q')) (gate v m).
Proof.
  intros (Hsub & Hno & Hyes) Hm. unfold gate. destruct (v.2) eqn:Ev.
  - apply (gives_bind I (λ rf, match rf with Some rf => Rf_Backend rf = "*" ∧ N | None => Q' end)); [exact Hm|]. intros [rf|] Hrf.
    + apply gives_ret. destruct Hrf as [Hrf HN]. split_and!; [|intros _; split; [right|exact HN]|done].
      * intros x Hx. apply elem_of_app. left. by apply Hsub.
      * exists rf. split; [|done]. apply elem_of_app. right. by left.
    + apply gives_ret. split_and!; [done|by rewrite Ev|]. intros _. split; [by apply Hyes|done].
  - apply gives_ret. split_and!; [done|by intros _; apply Hno|]. by rewrite Ev.
Qed.
Notation reasons := (∀ served, withheld r I desc served).
Lemma arbitration_gives ndrs : answers I desc_reports ndrs →
  gives I (λ rf, match rf with
     | Some rf => Rf_Backend rf = "*" ∧ reasons
     | None => (∃ policies, answers I desc_policies policies ∧ descriptorVendorManaged spec policies = false) ∧
               (∃ ndrs, answers I desc_reports ndrs ∧ autoApplyDiscoveryRefusal spec ndrs = "")
     end) (arbitration spec ndrs).
Proof.
  intros Hn. apply (gives_bind I (answers I desc_policies)); [apply described_answers, (kd_policies (KeepsDesc := HK))|].
  intros policies Hp. apply gives_ret. destruct (descriptorVendorManaged spec policies) eqn:Em.
  { split; [done|]. intros served. by apply (withheld_managed _ _ _ _ policies). }
  cbv zeta. case_bool_decide as Ed; [|split; [done|]; intros served; by apply (withheld_unseen _ _ _ _ ndrs)]. simpl. split; [by exists policies|by exists ndrs].
Qed.
Lemma sole_winner_gives :
  gives I (λ rf, match rf with
     | Some rf => Rf_Backend rf = "*" ∧ reasons
     | None => ∃ all, answers I desc_list all ∧ ∀ o, o ∈ all → ResourceNameFor (Da_Spec o) = ResourceNameFor spec →
                 str_leb (Da_Name desc) (Da_Name o) = true
     end) (sole_winner desc).
Proof.
  unfold sole_winner. apply (gives_bind I (λ winner, ∃ all, answers I desc_list all ∧ winner = winner_of desc all)).
  - unfold duplicateWinnerName. apply (gives_bind I (answers I desc_list)); [apply described_answers, (kd_list (KeepsDesc := HK))|].
    intros all Hall. apply gives_ret. by exists all.
  - intros winner (all & Hall & ->). apply gives_ret. case_bool_decide as Ew; simpl.
    + exists all. split; [done|]. intros o Ho Hkey. destruct (decide (Da_Name o = Da_Name desc)) as [->|Hne]; [apply str_leb_refl|].
      rewrite <-Ew at 1. by apply (winner_least desc all (Da_Name desc)).
    + split; [done|]. intros served. destruct (winner_someone desc all) as [E|(o & Ho & Hkey & Hlt)]; [by destruct Ew|].
      by apply (withheld_later _ _ _ _ all o).
Qed.
Lemma sharing_gives : gives I (λ rf, match rf with Some rf => Rf_Backend rf = "*" ∧ reasons | None => sharingRefusal spec = None end)
  (mret (sharingRefusal spec)).
Proof.
  apply gives_ret. destruct (sharingRefusal spec) as [rf|] eqn:Es; [|done]. split; [|intros served; by apply withheld_sharing; rewrite Es].
  unfold sharingRefusal in Es. destruct (Dd_Sharing spec); [|done]. case_bool_decide; [done|]. by injection Es as <-.
Qed.
Lemma served_gives : gives I (answers I clusterServesDRA) clusterServesDRA.
Proof.
  apply preserves_gives. unfold clusterServesDRA, draServedByMapper. destruct device_class_mapping as [m|] eqn:Em; [|by apply preserves_ret].
  apply preserves_bind; [by apply preserves_try, (kd_mapping (KeepsDesc := HK))|]. intros x. by apply preserves_ret.
Qed.

Lemma image_refusal_of served b : b ∈ validBackends → applicable r served b = false → ∃ rf, rf ∈ image_refusal r served b ∧ Rf_Backend rf = b.
Proof.
  unfold validBackends. rewrite !elem_of_cons, elem_of_nil. unfold applicable, image_refusal. intros [->|[->|[]]].
  - rewrite (bool_decide_eq_true_2 (BackendDevicePlugin = BackendDevicePlugin)) by done. simpl.
    case_bool_decide; [|done]. intros _. eexists. split; [by left|done].
  - rewrite (bool_decide_eq_false_2 (BackendDRA = BackendDevicePlugin)), (bool_decide_eq_true_2 (BackendDRA = BackendDRA)) by done.
    simpl. case_bool_decide; [intros _; eexists; split; [by left|done]|].
    simpl. intros ->. eexists. split; [by left|done].
Qed.
(** The status at the end of the judgement. *)
Lemma judged_accounted served resolved (N Q : Prop) v : Validate spec = [] →
  gated (FeasibleBackends spec).1 (FeasibleBackends spec).2 N Q v → (Q → cleared I desc) →
  accounted r I desc served (mkDescriptorStatus (FeasibleBackends spec).1 (image_gate r served (FeasibleBackends spec).1 v).1 resolved).
Proof.
  intros Hv (Hsub & Hno & Hyes) HQ b Hb. cbn [Das_Refusals Das_FeasibleBackends].
  assert (Hg : v.1 ⊆ (image_gate r served (FeasibleBackends spec).1 v).1).
  { unfold image_gate. destruct (v.2); [|done]. intros x Hx. apply elem_of_app. by left. }
  destruct (decide (b ∈ (FeasibleBackends spec).1)) as [Hf|Hf].
  - destruct (v.2) eqn:Ev.
    + destruct (applicable r served b) eqn:Ea; [right; split; [done|split; [done|by apply HQ, Hyes]]|left].
      destruct (image_refusal_of served b) as (rf & Hrf & Eb); [|done|].
      * by eapply cs_backends; [apply Validate_consistent|].
      * exists rf. split; [|by left]. unfold image_gate. rewrite Ev. apply elem_of_app. right. apply list_elem_of_bind.
        by exists b.
    + left. destruct Hno as [ [Hnil|(rf & Hrf & Eb)] _]; [done|rewrite Hnil in Hf; by apply elem_of_nil in Hf|].
      exists rf. split; [by apply Hg|by right].
  - left. destruct (FeasibleBackends_spec spec) as (Hok & _ & Hn). destruct (Hn b Hb) as [reason Hr]; [by rewrite <-Hok|].
    exists (mkRefusal b reason). split; [by apply Hg, Hsub|by left].
Qed.

Lemma inv_prune (d : AcceleratorDescriptor) objs : Da_Name d = Da_Name desc → Validate spec = [] → inv (pruneGeneratedBackends r d objs).
Proof.
  intros En Hv. apply preserves_for_each. intros [k scope] Hk. unfold pruneKind. simpl. rewrite En.
  apply (preserves_checked I (answers I (gen_list k scope (Da_Name desc)))).
  - apply preserves_gives, (kd_gen_list (KeepsDesc := HK)).
  - intros l Hl. apply preserves_for_each. intros [ns n] Hin. unfold prune_one. simpl. destruct (contains_string _ _); [apply preserves_ret|].
    apply preserves_bind; [|intros [?|e]; [apply preserves_ret|destruct (is_not_found e); [apply preserves_ret|apply preserves_throw]]].
    apply preserves_try. intros w Hw. apply (sent_allowed (GDelete k ns n)); [done|]. split; [done|]. exists scope, l.
    split_and!; [done..|]. rewrite !elem_of_cons, elem_of_nil in Hk.
    destruct Hk as [[= -> ->]|[[= -> ->]|[[= -> ->]|[[= -> ->]|[[= -> ->]|[[= -> ->]|[]]]]]]]; [by left..|right|right|right];
      (split; [|done]); rewrite !elem_of_cons; auto.
  - intros e. destruct (is_no_match e); [apply preserves_ret|apply preserves_throw].
Qed.
Lemma inv_deploy (d : AcceleratorDescriptor) ok served : Da_Name d = Da_Name desc → Da_UID d = Da_UID desc → Da_Spec d = Da_Spec desc →
  Validate spec = [] → (ok = true → cleared I desc) → inv (deploy r d ok served).
Proof.
  intros En Eu Es Hv Hok. unfold deploy. destruct ok; simpl; [|by apply inv_prune]. rewrite (render_ext desc d) by done.
  destruct (RenderGeneratedBackends desc _ _ _) as [objs|err] eqn:Er; [|apply preserves_throw].
  apply preserves_bind; [|intros _; by apply inv_prune]. apply preserves_for_each. intros o Ho. unfold described.
  apply preserves_bind; [|intros [?|e]; [apply preserves_ret|apply preserves_throw]]. apply preserves_try. intros w Hw.
  apply (sent_allowed (GApply (owner_ref d) (owned d o))); [done|]. split_and!.
  - unfold owner_ref. by rewrite En, Eu.
  - done.
  - by apply Hok.
  - eexists _, objs, o. split_and!; [|exact Er|done|]; [destruct served; auto|]. unfold owned. by rewrite En.
Qed.

Lemma store_gives s : status_judged r I desc s →
  gives I (λ d', Da_Name d' = Da_Name desc ∧ Da_UID d' = Da_UID desc ∧ Da_Spec d' = Da_Spec desc) (store_status desc s).
Proof.
  intros Hs. apply described_gives. intros w Hw.
  assert (Hsent := sent_allowed (GStatus (with_status s desc)) w Hw (ex_intro _ s (conj eq_refl Hs))). simpl in Hsent.
  unfold wp. destruct (desc_status_update (with_status s desc) w) as [[d'|e] w'] eqn:E; [|done].
  split; [done|]. by apply (kd_updated (KeepsDesc := HK)) in E.
Qed.
Lemma inv_refused errs : Validate spec ≠ [] → inv (refuse_inconsistent desc errs).
Proof.
  intros Hv. apply (preserves_after I (λ _, True)); [|intros; apply preserves_ret]. eapply gives_mono; [apply store_gives|done].
  left. split_and!; [done..|]. exists true. intros b _. left. eexists. split; [by left|by right].
Qed.
(** The judgement as a rule: what follows it starts from a stored status that accounts
    for every backend, and from a verdict with its reasons. *)
Lemma wp_judged (Q : () + GoErr → W → Prop) w : Validate spec = [] → I w →
  (∀ d' ok served w', I w' → Da_Name d' = Da_Name desc → Da_UID d' = Da_UID desc → Da_Spec d' = Da_Spec desc →
     answers I clusterServesDRA served →
     (ok = true → cleared I desc ∧ ∃ b, b ∈ (FeasibleBackends spec).1 ∧ applicable r served b = true) →
     (ok = false → withheld r I desc served) → wp (deploy r d' ok served) Q w') →
  (∀ e w', I w' → Q (inr e) w') → wp (judge_and_deploy r desc) Q w.
Proof.
  intros Hv Hw HQ He. unfold judge_and_deploy. destruct (FeasibleBackends spec) as [feasible refusals] eqn:Ef.
  apply (wp_after I (answers I desc_reports)); [apply described_answers, (kd_reports (KeepsDesc := HK))|done| |done].
  intros ndrs w1 Hw1 Hn. apply (wp_after I (λ _, True)); [apply preserves_gives_True, inv_verify|done|intros _ w2 Hw2 _|done].
  eapply (wp_after I); [apply (gate_gives feasible refusals reasons True); [|by apply arbitration_gives]|done| |done].
  { split_and!; [done| |done]. cbn [snd]. intros Hlen%Z.ltb_ge. assert (feasible = []) as -> by (destruct feasible; [done|cbn [length] in Hlen; lia]).
    split; [by left|]. intros served. apply withheld_infeasible. by rewrite Ef. }
  intros v1 w3 Hw3 Hv1. eapply (wp_after I); [apply (gate_gives _ _ _ _ _ _ _ Hv1 sharing_gives)|done| |done].
  intros v2 w4 Hw4 Hv2. eapply (wp_after I); [apply (gate_gives _ _ _ _ _ _ _ Hv2 sole_winner_gives)|done| |done].
  intros v3 w5 Hw5 Hv3. apply (wp_after I (answers I clusterServesDRA)); [apply served_gives|done| |done]. intros served w6 Hw6 Hs.
  match type of Hv3 with gated _ _ _ ?Q _ => assert (Hclear : Q → cleared I desc) end.
  { intros (((_ & Hp & Hd) & Hsh) & Hwin). by split_and!. }
  eapply (wp_after I); [apply store_gives|done| |done].
  - right. rewrite Ef. split_and!; [done|done|by exists ndrs|]. exists served.
    assert (Ha := λ N Q, judged_accounted served (resolveDevices spec ndrs) N Q v3 Hv). rewrite Ef in Ha. by eapply Ha.
  - intros d' w7 Hw7 (En & Eu & Es). apply HQ; [done..| |]; unfold image_gate; destruct Hv3 as (_ & Hno & Hyes);
      (destruct (v3.2) eqn:E3; [cbn [snd]|rewrite E3; intros Hok]).
    + intros Hlen%Z.ltb_lt. split; [by apply Hclear, Hyes|]. destruct (filter _ _) as [|b l] eqn:Eb; [cbn [length] in Hlen; lia|].
      exists b. assert (Hb : b ∈ b :: l) by left. rewrite <-Eb in Hb. apply list_elem_of_filter in Hb as [? ?]. done.
    + done.
    + intros Hlen%Z.ltb_ge. apply withheld_undeployable. rewrite Ef. intros b Hb. apply not_true_is_false. intros Ha.
      assert (Hin : b ∈ filter (λ b, applicable r served b = true) feasible) by by apply list_elem_of_filter.
      destruct (filter _ _); [by apply elem_of_nil in Hin|cbn [length] in Hlen; lia].
    + by apply Hno.
Qed.
Lemma inv_judged : Validate spec = [] → inv (judge_and_deploy r desc).
Proof.
  intros Hv w Hw. apply wp_judged; [done..| |done]. intros d' ok served w' Hw' En Eu Es _ Hok _.
  apply inv_deploy; [done..| |done]. intros Eok. by apply Hok.
Qed.
End Effects.

(** C8. Whatever a pass writes is about the descriptor it was asked for.  Objects are
    applied only for a consistent declaration that the cluster let through: no policy
    manages the vendor, every device can be told apart, sharing is supported, and no
    other descriptor with an earlier name asks for the same resource; what is applied is
    what is rendered, owned and labelled.  Objects are deleted only if they carry the
    descriptor's label.  And each status accounts for every declared backend: it is
    refused, by name or with all the others, or feasible, deployable and let through. *)
Theorem descriptor_writes {W} `{DescriptorAPI W, Verifier.VerifyAPI W, Clock W} `{FieldRules} `{MapRange} `{ConfigJSON}
    (r : AcceleratorDescriptorReconciler W) (I : W → Prop) name w x w' :
  KeepsDesc r I name → I w → Reconcile r name w = (x, w') → I w'.
Proof.
  intros HK Hw E. cut (wp (Reconcile r name) (λ _ w', I w') w); [unfold wp; by rewrite E|]. clear E. unfold Reconcile.
  apply (wp_try_of I); [apply (kd_get (KeepsDesc := HK))|done|]. intros [desc|e] w1 Ed Hw1; [|by destruct (is_not_found e)].
  assert (Hdesc : answers I (desc_get name) desc) by (by exists w, w1).
  destruct (Validate (Da_Spec desc)) as [|e errs] eqn:Ev.
  - by apply (inv_judged r I name desc Hdesc Ev).
  - apply (inv_refused r I name desc Hdesc); [by rewrite Ev|done].
Qed.

(** ** What is rendered *)

Definition cluster_scoped (k : GKind) : bool :=
  match k with KClusterRole | KClusterRoleBinding | KDeviceClass => true | _ => false end.
(** The name of a backend's DaemonSet, and its image. *)
Definition backend_name (desc : AcceleratorDescriptor) (b : string) : string :=
  if bool_decide (b = BackendDevicePlugin) then generatedDevicePluginNameFor desc else generatedDRADriverNameFor desc.
Definition backend_image (dpImage draImage b : string) : string := if bool_decide (b = BackendDevicePlugin) then dpImage else draImage.

Lemma snoc_inj a b x y : a +:+ String x "" = b +:+ String y "" → a = b ∧ x = y.
Proof.
  revert b. induction a as [|c a IH]; intros [|d b]; rewrite ?string_nil_app, ?string_cons_app; intros E.
  - by injection E.
  - apply (f_equal String.length) in E. simpl in E. rewrite string_app_length in E. simpl in E. lia.
  - apply (f_equal String.length) in E. simpl in E. rewrite string_app_length in E. simpl in E. lia.
  - injection E as -> E. by destruct (IH b E) as [-> ->].
Qed.
(** The objects of two descriptors have different names. *)
Lemma backend_name_inj desc desc' b b' : backend_name desc b = backend_name desc' b' → Da_Name desc = Da_Name desc'.
Proof.
  unfold backend_name, generatedDevicePluginNameFor, generatedDRADriverNameFor.
  assert (Hdp : ∀ n, n +:+ "-dp" = ((n +:+ "-") +:+ "d") +:+ "p") by (intros n; rewrite <-!string_app_assoc; done).
  assert (Hdra : ∀ n, n +:+ "-dra" = (((n +:+ "-") +:+ "d") +:+ "r") +:+ "a") by (intros n; rewrite <-!string_app_assoc; done).
  rewrite !Hdp, !Hdra.
  do 2 case_bool_decide; intros E%string_app_inj_l; repeat (apply snoc_inj in E as [E ?]); done.
Qed.

Section Rendered.
Context `{FieldRules} `{MapRange} `{ConfigJSON}.

(** What the code promises of a generated DaemonSet: the nodes it runs on, the Pods it
    selects, the configuration it mounts and the image it runs. *)
Definition well_deployed (desc : AcceleratorDescriptor) (image : string) (objs : list DRAObject) (ds : ODaemonSet) : Prop :=
  Dss_Selector (Ods_Spec ds) = Dss_TemplateLabels (Ods_Spec ds) ∧ Dss_Selector (Ods_Spec ds) !! appName = Some (Ods_Name ds) ∧
  Ps_NodeSelector (ods_pod ds) = present (Dd_Vendor (Da_Spec desc)) ∧
  Forall (λ k, demands (absent k) (ods_pod ds)) [controlPlaneNodeLabel; masterNodeLabel] ∧
  Oc_Image <$> Ps_Containers (ods_pod ds) = [image] ∧
  ("config", ConfigMapVolume (Ods_Name ds)) ∈ Ps_Volumes (ods_pod ds) ∧
  (∃ labels data, DraConfigMap (Ods_Namespace ds) (Ods_Name ds) labels data ∈ objs) ∧
  (Ps_ServiceAccountName (ods_pod ds) = "" ∨ ∃ labels, DraServiceAccount (Ods_Namespace ds) (Ps_ServiceAccountName (ods_pod ds)) labels ∈ objs).

Lemma render_all_spec desc dp dra ns l objs : render_all desc dp dra ns l = inl objs →
  (∀ o, o ∈ objs → ∃ b part, b ∈ l ∧ render_backend desc dp dra ns b = inl part ∧ o ∈ part ∧ part ⊆ objs) ∧
  (∀ b, b ∈ l → ∃ part, render_backend desc dp dra ns b = inl part ∧ part ⊆ objs).
Proof.
  revert objs. induction l as [|b l IH]; intros objs; simpl.
  { intros [= <-]. split; [by intros o ?%elem_of_nil|by intros b ?%elem_of_nil]. }
  destruct (render_backend _ _ _ _ b) as [part|] eqn:Eb; [|done]. destruct (render_all _ _ _ _ l) as [rest|] eqn:El; [|done].
  intros [= <-]. destruct (IH rest eq_refl) as [Ho Hb]. split.
  - intros o [Hin|Hin]%elem_of_app; [by exists b, part; split_and!; [left|..|apply list_subseteq_app_l]|].
    destruct (Ho o Hin) as (b' & p' & ? & ? & ? & ?). exists b', p'. split_and!; [by right|done|done|by apply list_subseteq_app_r].
  - intros b' [->|Hin]%elem_of_cons; [exists part; split; [done|by apply list_subseteq_app_l]|].
    destruct (Hb b' Hin) as (p' & ? & ?). exists p'. split; [done|by apply list_subseteq_app_r].
Qed.
Lemma generated_ds_ok desc account c volumes ns name component image objs labels data :
  Oc_Image c = image → ("config", ConfigMapVolume name) ∈ volumes → DraConfigMap ns name labels data ∈ objs →
  (account = "" ∨ ∃ labels, DraServiceAccount ns account labels ∈ objs) →
  let own := generated_labels name component in
  well_deployed desc image objs (daemonset ns name own own ∅ (generated_pod desc account c volumes)).
Proof.
  intros Hi Hv Hcm Ha own. split; [done|]. split; [apply lookup_insert_eq|]. split; [done|]. split.
  - unfold ods_pod. simpl. repeat apply Forall_cons_2; [| |apply Forall_nil_2]; apply demands_new; [by left|right; by left].
  - split; [by rewrite <-Hi|]. split; [done|]. split; [by exists labels, data|done].
Qed.
Definition part_ok (desc : AcceleratorDescriptor) (dp dra ns b : string) (part : list DRAObject) : Prop :=
  (∃ ds, DraDaemonSet ds ∈ part ∧ Ods_Name ds = backend_name desc b) ∧
  (∀ ds, DraDaemonSet ds ∈ part → Ods_Name ds = backend_name desc b ∧ well_deployed desc (backend_image dp dra b) part ds) ∧
  (b = BackendDRA → Dd_Sharing (Da_Spec desc) = None) ∧
  ∀ o, o ∈ part → object_namespace o = (if cluster_scoped (kind_of o) then "" else ns) ∧
    (kind_of o = KDeviceClass ∨ object_name o = backend_name desc b).
Lemma render_backend_spec desc dp dra ns b part : render_backend desc dp dra ns b = inl part → b ∈ validBackends →
  (backend_image dp dra b = "" ∧ part = []) ∨ (backend_image dp dra b ≠ "" ∧ part_ok desc dp dra ns b part).
Proof.
  unfold validBackends. rewrite !elem_of_cons, elem_of_nil. unfold render_backend, backend_image, backend_name. intros Er [->|[->|[]]].
  - rewrite (bool_decide_eq_true_2 (BackendDevicePlugin = BackendDevicePlugin)) in Er |- * by done.
    case_bool_decide as Ei; [left; by injection Er as <-|right]. destruct (CompileDevicePlugin _) as [cfg|]; [|done]. injection Er as <-.
    split; [done|]. unfold renderGeneratedDevicePlugin. split; [eexists; split; [right; left|done]|]. split; [|split; [done|]].
    + intros ds [?|[[= ->]|?%elem_of_nil]%elem_of_cons]%elem_of_cons; [done| |done]. split; [done|].
      eapply generated_ds_ok; [done|by left|left|by left].
    + intros o [->|[->|?%elem_of_nil]%elem_of_cons]%elem_of_cons; [by split; [|right]..|done].
  - rewrite (bool_decide_eq_false_2 (BackendDRA = BackendDevicePlugin)), (bool_decide_eq_true_2 (BackendDRA = BackendDRA)) in Er by done.
    rewrite (bool_decide_eq_false_2 (BackendDRA = BackendDevicePlugin)) by done.
    case_bool_decide as Ei; [left; by injection Er as <-|right]. destruct (CompileDRA _) as [cfg|] eqn:Ec; [|done]. injection Er as <-.
    split; [done|]. unfold renderGeneratedDRARBAC, renderGeneratedDRADriver. simpl. split; [eexists; split; [do 4 right; left|done]|].
    split; [|split].
    + intros ds Hin. rewrite !elem_of_cons, elem_of_nil in Hin. destruct Hin as [?|[?|[?|[?|[[= ->]|[?|[]]]]]]]; try done. split; [done|].
      eapply generated_ds_ok; [done|by left|do 3 right; left|right; eexists; left].
    + intros _. unfold CompileDRA, FeasibleBackends in Ec. destruct (Validate (with_backends [BackendDRA] (Da_Spec desc))) as [|e errs] eqn:Ev.
      * apply Validate_consistent in Ev. destruct (Dd_Sharing (Da_Spec desc)) as [sh|] eqn:Esh; [|done]. exfalso.
        assert (Hb : BackendDevicePlugin ∈ [BackendDRA]) by (apply (cs_sharing _ Ev); simpl; congruence).
        by apply list_elem_of_singleton in Hb.
      * simpl in Ec. discriminate.
    + intros o Hin. rewrite !elem_of_cons, elem_of_nil in Hin.
      destruct Hin as [->|[->|[->|[->|[->|[->|[]]]]]]]; (split; [done|]); first [by right|by left].
Qed.

Definition deployed (desc : AcceleratorDescriptor) (dp dra b : string) : Prop :=
  b ∈ (FeasibleBackends (Da_Spec desc)).1 ∧ backend_image dp dra b ≠ "".
Lemma rendered_parts desc dp dra ns objs : RenderGeneratedBackends desc dp dra ns = inl objs →
  objs ≠ [] ∧ sharingRefusal (Da_Spec desc) = None ∧
  (∀ o, o ∈ objs → ∃ b part, deployed desc dp dra b ∧ part_ok desc dp dra ns b part ∧ o ∈ part ∧ part ⊆ objs) ∧
  (∀ b, deployed desc dp dra b → ∃ part, part_ok desc dp dra ns b part ∧ part ⊆ objs).
Proof.
  intros Er. unfold RenderGeneratedBackends in Er. destruct (sharingRefusal _); [done|].
  destruct (render_all _ _ _ _ _) as [out|] eqn:Ea; [|done].
  assert (out = objs ∧ objs ≠ []) as [-> Hne] by (by destruct out; simplify_eq).
  assert (Hvalid : ∀ b, b ∈ (FeasibleBackends (Da_Spec desc)).1 → b ∈ validBackends).
  { intros b (Hb & Hv & _)%FeasibleBackends_spec. eapply cs_backends; [by apply Validate_consistent|done]. }
  destruct (render_all_spec _ _ _ _ _ _ Ea) as [Ho Hb]. split_and!; [done..| |].
  - intros o Hin. destruct (Ho o Hin) as (b & part & Hf & Ep & Hp & Hsub).
    destruct (render_backend_spec _ _ _ _ _ _ Ep (Hvalid b Hf)) as [[_ ->]|[Hi Hok]]; [by apply elem_of_nil in Hp|].
    exists b, part. by split_and!.
  - intros b [Hf Hi]. destruct (Hb b Hf) as (part & Ep & Hsub). exists part.
    by destruct (render_backend_spec _ _ _ _ _ _ Ep (Hvalid b Hf)) as [[? _]|[_ Hok]].
Qed.
Lemma well_deployed_mono desc image part objs ds : part ⊆ objs → well_deployed desc image part ds → well_deployed desc image objs ds.
Proof.
  intros Hsub (? & ? & ? & ? & ? & ? & (l & d & Hcm) & Ha). do 6 (split; [done|]). split; [exists l, d; by apply Hsub|].
  destruct Ha as [?|[l' Hl']]; [by left|right]. exists l'. by apply Hsub.
Qed.
(** Rendering fails only where a configuration does not compile. *)
Lemma render_fails desc dp dra ns l err : (∀ b, b ∈ l → b ∈ (FeasibleBackends (Da_Spec desc)).1) →
  render_all desc dp dra ns l = inr err → Dd_Sharing (Da_Spec desc) ≠ None ∧ deployed desc dp dra BackendDRA.
Proof.
  induction l as [|b l IH]; intros Hl; simpl; [done|]. destruct (render_backend _ _ _ _ b) as [part|e] eqn:Eb.
  - destruct (render_all _ _ _ _ l); [done|]. intros ?. apply IH; [|done]. intros b' Hb'. apply Hl. by right.
  - intros _. assert (Hf : b ∈ (FeasibleBackends (Da_Spec desc)).1) by (apply Hl; by left).
    pose proof (proj1 (proj1 (FeasibleBackends_spec (Da_Spec desc)) b) Hf) as (_ & Hv & Hstable).
    unfold render_backend in Eb. case_bool_decide as Edp.
    + case_bool_decide; [done|]. unfold CompileDevicePlugin in Eb. by rewrite Hv in Eb.
    + case_bool_decide as Edra; [|done]. subst b. case_bool_decide as Ei; [done|]. split; [|by split].
      intros Esh. unfold CompileDRA, FeasibleBackends in Eb. rewrite (Validate_dra _ Hv) in Eb. unfold check_sharing in Eb. simpl in Eb.
      rewrite Esh in Eb. unfold judge_backend in Eb. simpl in Eb. rewrite Hstable in Eb by done. done.
Qed.
End Rendered.

(** C19. What [RenderGeneratedBackends] produces of a descriptor: for each feasible backend
    that has an image, one DaemonSet, and no other; it runs that image on the nodes of the
    vendor and never on a control plane, selects exactly the Pods of its own template, and
    mounts a ConfigMap (and uses an account) that is rendered with it.  Names keep the
    objects of two descriptors apart, the DeviceClass excepted: two descriptors that ask
    for different resources can share one.  And rendering fails, once the gates are
    passed, only for a shared descriptor under DRA. *)
Theorem generated_objects `{FieldRules} `{MapRange} `{ConfigJSON} `{SchedulerLaws} desc dpImage draImage ns :
  let spec := Da_Spec desc in
  let deployed := deployed desc dpImage draImage in
  (∀ objs, RenderGeneratedBackends desc dpImage draImage ns = inl objs →
     objs ≠ [] ∧
     (∀ b, deployed b → ∃ ds, DraDaemonSet ds ∈ objs ∧ Ods_Name ds = backend_name desc b) ∧
     (∀ ds, DraDaemonSet ds ∈ objs → ∃ b, deployed b ∧ Ods_Name ds = backend_name desc b ∧
        well_deployed desc (backend_image dpImage draImage b) objs ds ∧ keeps_off [controlPlaneNodeLabel; masterNodeLabel] (ods_pod ds)) ∧
     (∀ desc' objs' o o', RenderGeneratedBackends desc' dpImage draImage ns = inl objs' → o ∈ objs → o' ∈ objs' →
        kind_of o = kind_of o' → object_name o = object_name o' → Da_Name desc = Da_Name desc' ∨ kind_of o = KDeviceClass)) ∧
  (sharingRefusal spec = None → (∃ b, deployed b) →
     ((∃ err, RenderGeneratedBackends desc dpImage draImage ns = inr err) ↔ Dd_Sharing spec ≠ None ∧ deployed BackendDRA)).
Proof.
  intros spec deployed. split.
  - intros objs Er. destruct (rendered_parts _ _ _ _ _ Er) as (Hne & _ & Ho & Hb). split; [done|]. split; [|split].
    + intros b Hd. destruct (Hb b Hd) as (part & ((ds & Hds & En) & _) & Hsub). exists ds. auto.
    + intros ds Hds. destruct (Ho _ Hds) as (b & part & Hd & (_ & Hwd & _) & Hin & Hsub). destruct (Hwd ds Hin) as [En Hw].
      exists b. split; [done|]. split; [done|]. split; [by eapply well_deployed_mono|]. apply keeps_off_demands. apply Hw.
    + intros desc' objs' o o' Er' Hin Hin' Ek En. destruct (rendered_parts _ _ _ _ _ Er') as (_ & _ & Ho' & _).
      destruct (Ho o Hin) as (b & part & _ & (_ & _ & _ & Hp) & Hp' & _). destruct (Ho' o' Hin') as (b' & part' & _ & (_ & _ & _ & Hq) & Hq' & _).
      destruct (Hp o Hp') as [_ [?|E1]]; [by right|]. destruct (Hq o' Hq') as [_ [?|E2]]; [right; congruence|left].
      apply (backend_name_inj _ _ b b'). congruence.
  - intros Hsh [b Hd]. unfold RenderGeneratedBackends. fold spec. rewrite Hsh.
    destruct (render_all desc dpImage draImage ns _) as [out|err] eqn:Ea.
    + assert (Hout : RenderGeneratedBackends desc dpImage draImage ns = inl out ∨ out = []).
      { unfold RenderGeneratedBackends. fold spec. rewrite Hsh, Ea. destruct out; auto. }
      destruct Hout as [Er|Eout]; [|subst out].
      * destruct (rendered_parts _ _ _ _ _ Er) as (Hne & _ & _ & Hb). split; [intros [err E]; by destruct out|].
        intros [Hs Hdra]. destruct (Hb _ Hdra) as (part & (_ & _ & Hn & _) & _). by destruct Hs, Hn.
      * exfalso. destruct (render_all_spec _ _ _ _ _ _ Ea) as [_ Hb]. destruct Hd as [Hf Hi]. destruct (Hb b Hf) as (part & Ep & Hsub).
        assert (Hv : b ∈ validBackends).
        { apply FeasibleBackends_spec in Hf as (Hb' & Hv & _). eapply cs_backends; [by apply Validate_consistent|done]. }
        destruct (render_backend_spec _ _ _ _ _ _ Ep Hv) as [[? _]|[_ ((ds & Hds & _) & _)]]; [done|].
        by apply Hsub, elem_of_nil in Hds.
    + split; [|by eexists]. intros _. eapply render_fails; [|exact Ea]. auto.
Qed.

(** ** What is resolved *)

(** The identifiers of the matching devices that the reports of one node list. *)
Definition ids_at (spec : AcceleratorDescriptorSpec) (ndrs : list (string * NodeDeviceReport)) (node : string) : list string :=
  ndrs ≫= λ r, if bool_decide (report_node r = node) then stableID <$> filter (λ d, matchesDescriptor d spec = true) (Ndr_Devices r.2) else [].
(** The map holds the lists that are not empty. *)
Definition holds_lists (m : gmap string (list string)) (f : string → list string) : Prop :=
  ∀ node, m !! node = (if bool_decide (f node = []) then None else Some (f node)).
Lemma mget_holds m f node : holds_lists m f → mget [] m node = f node.
Proof. intros Hm. unfold mget. rewrite Hm. by case_bool_decide as E; simpl; rewrite ?E. Qed.
Lemma add_devices_lookup spec at_node m f l : holds_lists m f →
  holds_lists (foldl (add_device spec at_node) m l)
    (λ node, f node ++ if bool_decide (at_node = node) then stableID <$> filter (λ d, matchesDescriptor d spec = true) l else []).
Proof.
  revert m f. induction l as [|d l IH]; intros m f Hm; simpl.
  { intros node. rewrite Hm. assert (Ef : f node ++ (if bool_decide (at_node = node) then [] else []) = f node).
    { case_bool_decide; apply app_nil_r. }
    by rewrite Ef. }
  intros node. unfold add_device at 2. destruct (matchesDescriptor d spec) eqn:Ed.
  - rewrite filter_cons_True by done. simpl.
    rewrite (IH _ (λ n, f n ++ if bool_decide (at_node = n) then [stableID d] else [])).
    + match goal with |- (if bool_decide (?a = []) then _ else _) = (if bool_decide (?b = []) then _ else _) => assert (Ef : a = b) end.
      { case_bool_decide; rewrite <-app_assoc; done. }
      by rewrite Ef.
    + intros n. rewrite (mget_holds _ _ _ Hm). destruct (decide (at_node = n)) as [->|Hn].
      * rewrite lookup_insert_eq, (bool_decide_eq_true_2 (n = n)) by done. rewrite bool_decide_eq_false_2; [done|]. by destruct (f n).
      * rewrite lookup_insert_ne by done. rewrite (bool_decide_eq_false_2 (at_node = n)) by done. by rewrite app_nil_r.
  - rewrite filter_cons_False by congruence. by apply IH.
Qed.
Lemma devices_lookup spec ndrs : holds_lists (devices_by_node spec ndrs) (ids_at spec ndrs).
Proof.
  unfold devices_by_node. assert (Hgen : ∀ m f, holds_lists m f →
    holds_lists (foldl (λ byNode r, foldl (add_device spec (report_node r)) byNode (Ndr_Devices r.2)) m ndrs)
      (λ node, f node ++ ids_at spec ndrs node)).
  { induction ndrs as [|r ndrs IH]; intros m f Hm node; simpl; [by rewrite app_nil_r|].
    rewrite (IH _ _ (add_devices_lookup spec (report_node r) m f (Ndr_Devices r.2) Hm)). unfold ids_at. simpl. by rewrite <-app_assoc. }
  intros node. rewrite (Hgen ∅ (λ _, [])); [done|]. intros n. by rewrite lookup_empty.
Qed.
Lemma ids_at_perm spec ndrs ndrs' node : ndrs ≡ₚ ndrs' → ids_at spec ndrs node ≡ₚ ids_at spec ndrs' node.
Proof. intros Hp. unfold ids_at. by rewrite Hp. Qed.

(** C30. The devices resolved of a descriptor are the matching devices of the reports: a node
    is listed exactly when it has one, once, with all of their identifiers, sorted; and
    neither the order of the reports nor the order in which Go ranges over the map can
    change the answer, so a status is written the same from the same reports. *)
Theorem resolution_is_exact (order order' : MapRange) spec ndrs :
  (∀ node ids, mkNodeIDs node ids ∈ resolveDevices (H := order) spec ndrs ↔ ids = sort_strings (ids_at spec ndrs node) ∧ ids ≠ []) ∧
  StronglySorted (not_after (less_on id)) (Ni_Node <$> resolveDevices (H := order) spec ndrs) ∧
  NoDup (Ni_Node <$> resolveDevices (H := order) spec ndrs) ∧
  (∀ ndrs', ndrs ≡ₚ ndrs' → resolveDevices (H := order') spec ndrs' = resolveDevices (H := order) spec ndrs).
Proof.
  assert (Hnodes : ∀ (o : MapRange) ndrs, Ni_Node <$> resolveDevices (H := o) spec ndrs =
    sort_strings (range_map (MapRange := o) (devices_by_node spec ndrs)).*1).
  { intros o l. unfold resolveDevices. rewrite <-list_fmap_compose. unfold compose. simpl. apply list_fmap_id. }
  assert (Hkeys : ∀ (o : MapRange) l, (range_map (MapRange := o) (devices_by_node spec l)).*1 ≡ₚ (map_to_list (devices_by_node spec l)).*1).
  { intros o l. apply fmap_Permutation, range_map_perm. }
  assert (Hin : ∀ (o : MapRange) l node, node ∈ (range_map (MapRange := o) (devices_by_node spec l)).*1 ↔ ids_at spec l node ≠ []).
  { intros o l node. rewrite (Hkeys o l), list_elem_of_fmap. pose proof (devices_lookup spec l node) as Hl. split.
    - intros ([k v] & -> & Hv%elem_of_map_to_list) Hnil. simpl in *. rewrite Hl in Hv. by rewrite bool_decide_eq_true_2 in Hv.
    - intros Hne. rewrite bool_decide_eq_false_2 in Hl by done. exists (node, ids_at spec l node). split; [done|].
      by apply elem_of_map_to_list. }
  assert (Hsame : ∀ l l' node, l ≡ₚ l' → sort_strings (ids_at spec l node) = sort_strings (ids_at spec l' node)).
  { intros. by apply sort_strings_unique, ids_at_perm. }
  split; [|split; [|split]].
  - intros node ids. unfold resolveDevices. rewrite list_elem_of_fmap. split.
    + intros (n & [= -> ->] & Hn%elem_of_sort_strings%Hin). rewrite (mget_holds _ _ _ (devices_lookup spec ndrs)). split; [done|].
      intros E. apply Hn, Permutation_nil_r. by rewrite <-E, sort_strings_perm.
    + intros [-> Hne]. exists node. rewrite (mget_holds _ _ _ (devices_lookup spec ndrs)). split; [done|].
      apply elem_of_sort_strings, Hin. intros E. apply Hne. by rewrite E.
  - rewrite Hnodes. apply sort_slice_sorted. apply _.
  - rewrite Hnodes, sort_strings_perm, Hkeys. apply NoDup_fst_map_to_list.
  - intros ndrs' Hp. unfold resolveDevices.
    assert (Ek : sort_strings (range_map (MapRange := order') (devices_by_node spec ndrs')).*1
               = sort_strings (range_map (MapRange := order) (devices_by_node spec ndrs)).*1).
    { apply sort_strings_unique, NoDup_Permutation.
      - rewrite Hkeys. apply NoDup_fst_map_to_list.
      - rewrite Hkeys. apply NoDup_fst_map_to_list.
      - intros node. rewrite !Hin. split; intros Hne E; apply Hne, Permutation_nil_r; rewrite <-E; by apply ids_at_perm. }
    rewrite Ek. apply list_fmap_ext. intros _ node _. rewrite !(mget_holds _ _ _ (devices_lookup spec _)). by rewrite (Hsame _ _ node Hp).
Qed.

(** ** What a pass leaves *)

Definition key_of (o : DRAObject) : GKind * string * string := (kind_of o, object_namespace o, object_name o).

Lemma owned_key desc o : key_of (owned desc o) = key_of o.
Proof. by destruct o. Qed.
Lemma owned_label desc o : labels_of (owned desc o) !! descriptorOwnerLabel = Some (Da_Name desc).
Proof. destruct o; simpl; unfold mergeLabels; by apply lookup_union_Some_l, lookup_singleton_eq. Qed.

(** Documented behaviour of the API server on what carries an owner label: reads and status
    updates change no object; a list answers with the objects
    that match; an object that is applied carries the labels it was sent with, and one
    that is deleted (none has a finalizer) is gone. *)
Class GeneratedStore (W : Type) `{DescriptorAPI W} := {
  label_of : W → GKind → string → string → option string;
  gs_get n : keeps label_of (desc_get n);
  gs_status d w x w' : desc_status_update d w = (x, w') → label_of w' = label_of w ∧
    ∀ d', x = inl d' → Da_Name d' = Da_Name d ∧ Da_UID d' = Da_UID d ∧ Da_Spec d' = Da_Spec d;
  gs_gen_list k ns owner w x w' : gen_list k ns owner w = (x, w') → label_of w' = label_of w ∧
    match x with
    | inl l => ∀ ns' n, (ns', n) ∈ l ↔ label_of w k ns' n = Some owner ∧ (ns = "" ∨ ns' = ns)
    | inr e => is_no_match e = true → ∀ ns' n, label_of w k ns' n = None
    end;
  gs_delete k ns n w x w' : gen_delete k ns n w = (x, w') →
    match x with
    | inl _ => ∀ k' ns' n', label_of w' k' ns' n' = if decide ((k', ns', n') = (k, ns, n)) then None else label_of w k' ns' n'
    | inr e => is_not_found e = true → label_of w' = label_of w ∧ label_of w k ns n = None
    end;
  gs_apply own o w w' : gen_apply own o w = (inl (), w') → ∀ k ns n,
    label_of w' k ns n = if decide ((k, ns, n) = key_of o) then labels_of o !! descriptorOwnerLabel else label_of w k ns n;
}.

Section Left.
Context {W : Type} `{DescriptorAPI W, Verifier.VerifyAPI W, Clock W} `{FieldRules} `{MapRange} `{ConfigJSON}.
Context (r : AcceleratorDescriptorReconciler W) `{!GeneratedStore W}.

(** Where the objects of a kind are put. *)
Definition scope (k : GKind) : string := if cluster_scoped k then "" else GeneratedNamespace r.

(** Pruning only removes, and nothing that is wanted. *)
Definition shrinks (want : GKind → list string) (w w' : W) : Prop :=
  ∀ k ns n, label_of w' k ns n = label_of w k ns n ∨ (label_of w' k ns n = None ∧ n ∉ want k).
Lemma shrinks_refl want w w' : label_of w' = label_of w → shrinks want w w'.
Proof. intros E k ns n. left. by rewrite E. Qed.
Lemma shrinks_trans want w1 w2 w3 : shrinks want w1 w2 → shrinks want w2 w3 → shrinks want w1 w3.
Proof.
  intros H1' H2' k ns n. destruct (H2' k ns n) as [E2|?]; [|by right]. destruct (H1' k ns n) as [E1|[E1 ?]]; [left|right]; by rewrite E2.
Qed.
Lemma prune_one_ok (want : GKind → list string) k ns n w w' : prune_one k (want k) (ns, n) w = (inl (), w') →
  shrinks want w w' ∧ (n ∉ want k → label_of w' k ns n = None).
Proof.
  unfold prune_one. simpl. destruct (contains_string (want k) n) eqn:Ec.
  { intros [= <-]. split; [by apply shrinks_refl|]. intros Hn. by apply contains_string_true in Ec. }
  assert (Hn : n ∉ want k) by (intros Hn%contains_string_true; congruence).
  rewrite bind_try. destruct (gen_delete k ns n w) as [[[]|e] w1] eqn:Ed; cbn [fst snd]; apply gs_delete in Ed; cbv beta iota in Ed.
  - intros [= <-]. split.
    + intros k' ns' n'. rewrite Ed. case_decide as Ek; [right|by left]. injection Ek as -> -> ->. done.
    + intros _. rewrite Ed. by case_decide.
  - destruct (is_not_found e); [|done]. intros [= <-]. destruct (Ed eq_refl) as [El Hnone]. split; [by apply shrinks_refl|].
    intros _. by rewrite El.
Qed.
Lemma prune_all_ok (want : GKind → list string) k l w w' : for_each (prune_one k (want k)) l w = (inl (), w') →
  shrinks want w w' ∧ ∀ ns n, (ns, n) ∈ l → n ∉ want k → label_of w' k ns n = None.
Proof.
  revert w. induction l as [|[ns n] l IH]; intros w; simpl.
  { intros [= <-]. split; [by apply shrinks_refl|]. by intros ? ? ?%elem_of_nil. }
  intros E. apply bind_inl_inv in E as ([] & w1 & E1 & E2). apply prune_one_ok in E1 as [Hs1 Hn1]. apply IH in E2 as [Hs2 Hn2].
  split; [by eapply shrinks_trans|]. intros ns' n' [[= -> ->]|Hin]%elem_of_cons Hw; [|by apply Hn2].
  destruct (Hs2 k ns n) as [->|[? _]]; [by apply Hn1|done].
Qed.
Lemma pruneKind_ok (want : GKind → list string) k ns owner w w' : pruneKind k ns owner (want k) w = (inl (), w') →
  shrinks want w w' ∧ ∀ n, label_of w' k ns n = Some owner → n ∈ want k.
Proof.
  unfold pruneKind. rewrite bind_try. destruct (gen_list k ns owner w) as [[l|e] w1] eqn:El; cbn [fst snd];
    apply gs_gen_list in El as [Ew Hl].
  - intros (Hs & Hdel)%(prune_all_ok want). assert (Hs' : shrinks want w w') by (eapply shrinks_trans; [by apply shrinks_refl|done]).
    split; [done|]. intros n Hn. destruct (decide (n ∈ want k)) as [|Hw]; [done|].
    destruct (Hs' k ns n) as [E|[E _]]; [|congruence]. exfalso.
    enough (label_of w' k ns n = None) by congruence. apply Hdel; [|done]. apply Hl. split; [congruence|by right].
  - destruct (is_no_match e); [|done]. intros [= <-]. split; [by apply shrinks_refl|]. intros n. rewrite Ew, (Hl eq_refl). done.
Qed.
Lemma prune_kinds_ok (want : GKind → list string) owner (kinds : list (GKind * string)) w w' :
  for_each (λ k, pruneKind k.1 k.2 owner (want k.1)) kinds w = (inl (), w') →
  shrinks want w w' ∧ ∀ k ns, (k, ns) ∈ kinds → ∀ n, label_of w' k ns n = Some owner → n ∈ want k.
Proof.
  revert w. induction kinds as [|[k ns] kinds IH]; intros w; simpl.
  { intros [= <-]. split; [by apply shrinks_refl|]. by intros ? ? ?%elem_of_nil. }
  intros E. apply bind_inl_inv in E as ([] & w1 & E1 & E2). apply pruneKind_ok in E1 as [Hs1 Hn1]. apply IH in E2 as [Hs2 Hn2].
  split; [by eapply shrinks_trans|]. intros k' ns' [[= -> ->]|Hin]%elem_of_cons n Hn; [|by eapply Hn2].
  apply Hn1. destruct (Hs2 k ns n) as [E|[E _]]; congruence.
Qed.
Lemma pruned desc objs w w' : pruneGeneratedBackends r desc objs w = (inl (), w') →
  shrinks (λ k, wanted_names k objs) w w' ∧
  ∀ k n, label_of w' k (scope k) n = Some (Da_Name desc) → n ∈ wanted_names k objs.
Proof.
  intros [Hs Hk]%(prune_kinds_ok (λ k, wanted_names k objs)). split; [done|]. intros k n. apply Hk. unfold scope.
  rewrite !elem_of_cons. destruct k; simpl; auto 10.
Qed.
Lemma applied desc objs w w' : applyGeneratedBackends desc objs w = (inl (), w') →
  ∀ o, o ∈ objs → label_of w' (kind_of o) (object_namespace o) (object_name o) = Some (Da_Name desc).
Proof.
  unfold applyGeneratedBackends. intros E.
  enough (Hgen : ∀ done_ w, (∀ o, o ∈ done_ → label_of w (kind_of o) (object_namespace o) (object_name o) = Some (Da_Name desc)) →
    for_each (λ o, described ("적용 실패(" +:+ kind_name (kind_of o) +:+ "/" +:+ object_name o +:+ ")")
                   (gen_apply (owner_ref desc) (owned desc o))) objs w = (inl (), w') →
    ∀ o, o ∈ done_ ++ objs → label_of w' (kind_of o) (object_namespace o) (object_name o) = Some (Da_Name desc)).
  { intros o Ho. apply (Hgen [] w); [by intros ? ?%elem_of_nil|done|done]. }
  clear E w. induction objs as [|o objs IH]; intros done_ w Hd; simpl.
  { intros [= <-]. by rewrite app_nil_r. }
  intros E. apply bind_inl_inv in E as ([] & w1 & E1 & E2). unfold described in E1. rewrite bind_try in E1.
  destruct (gen_apply (owner_ref desc) (owned desc o) w) as [[[]|e] w2] eqn:Ea; [|done]. injection E1 as <-.
  intros o' Ho'. apply (IH (done_ ++ [o]) w2); [|done|by rewrite <-app_assoc].
  intros o1 Ho1. rewrite (gs_apply _ _ _ _ Ea). rewrite owned_label, owned_key. case_decide as Ek; [done|].
  apply elem_of_app in Ho1 as [Ho1|Ho1%list_elem_of_singleton]; [by apply Hd|]. subst o1. by destruct Ek.
Qed.
Lemma deployed_ok (d desc : AcceleratorDescriptor) ok served w w' : Da_Name d = Da_Name desc → Da_Spec d = Da_Spec desc →
  deploy r d ok served w = (inl (), w') →
  ∃ objs, (if ok then RenderGeneratedBackends desc (DPImage r) (if served then DRAImage r else "") (GeneratedNamespace r) = inl objs
           else objs = []) ∧
    ∀ k n, label_of w' k (scope k) n = Some (Da_Name desc) ↔ ∃ o, o ∈ objs ∧ kind_of o = k ∧ object_name o = n.
Proof.
  intros En Es. unfold deploy. destruct ok; simpl.
  - rewrite (render_ext desc d) by done. destruct (RenderGeneratedBackends desc _ _ _) as [objs|err] eqn:Er; [|done].
    intros E. apply bind_inl_inv in E as ([] & w1 & Ha & Hp). exists objs. split; [done|].
    apply pruned in Hp as [Hs Hsub]. rewrite En in Hsub. intros k n. split.
    + intros (o & -> & [Ek Ho]%list_elem_of_filter)%Hsub%list_elem_of_fmap. by exists o.
    + intros (o & Ho & <- & <-). assert (Hl := applied d objs w w1 Ha o Ho). rewrite En in Hl.
      destruct (rendered_parts _ _ _ _ _ Er) as (_ & _ & Hparts & _). destruct (Hparts o Ho) as (b & part & _ & (_ & _ & _ & Hk) & Hin & _).
      destruct (Hk o Hin) as [Ens _]. change (object_namespace o = scope (kind_of o)) in Ens. rewrite Ens in Hl.
      destruct (Hs (kind_of o) (scope (kind_of o)) (object_name o)) as [->|[_ Hn]]; [done|]. destruct Hn.
      apply list_elem_of_fmap. exists o. split; [done|]. by apply list_elem_of_filter.
  - intros [_ Hsub]%pruned. rewrite En in Hsub. exists []. split; [done|]. intros k n. split.
    + intros Hl%Hsub. by apply elem_of_nil in Hl.
    + intros (o & Ho & _). by apply elem_of_nil in Ho.
Qed.
Lemma store_status_ok desc s w x w' : store_status desc s w = (x, w') → label_of w' = label_of w ∧
  ∀ d', x = inl d' → Da_Name d' = Da_Name desc ∧ Da_Spec d' = Da_Spec desc.
Proof.
  unfold store_status, described. rewrite bind_try. destruct (desc_status_update (with_status s desc) w) as [y w1] eqn:E.
  apply gs_status in E as [El Ed]. destruct y as [d'|e]; intros [= <- <-]; (split; [done|]); intros d1 [= <-].
  destruct (Ed d' eq_refl) as (En & _ & Es). done.
Qed.
End Left.

(** C18. A pass that succeeds on a consistent declaration leaves exactly the objects of
    its verdict: of each kind, in the place of that kind, those and no others carry the
    descriptor's label.  When the cluster let the descriptor through and a feasible
    backend can be deployed, they are the objects rendered with the controller's images,
    the one for DRA only if the cluster was found to serve DeviceClasses; when not, there
    are none, and the pass has its reason: no backend is feasible, a policy manages the
    vendor, the devices cannot be told apart, sharing is not supported, a descriptor with
    an earlier name asks for the same resource, or no feasible backend has an image that
    can be deployed.  Each reason is an answer that the cluster gave during the pass.  An
    inconsistent declaration is the exception: whatever was generated of the descriptor
    before stays, although the status refuses every backend. *)
Theorem pass_leaves_exactly_the_rendered {W} `{DescriptorAPI W, Verifier.VerifyAPI W, Clock W} `{FieldRules} `{MapRange} `{ConfigJSON}
    `{!GeneratedStore W} (r : AcceleratorDescriptorReconciler W) (I : W → Prop) name desc w w1 :
  KeepsDesc r I name → I w → desc_get name w = (inl desc, w1) →
  (Validate (Da_Spec desc) = [] → ∀ w', Reconcile r name w = (inl (), w') →
     ∃ served objs, answers I clusterServesDRA served ∧
       ((cleared I desc ∧ (∃ b, b ∈ (FeasibleBackends (Da_Spec desc)).1 ∧ applicable r served b = true) ∧
         RenderGeneratedBackends desc (DPImage r) (if served then DRAImage r else "") (GeneratedNamespace r) = inl objs) ∨
        (withheld r I desc served ∧ objs = [])) ∧
       ∀ k n, label_of w' k (scope r k) n = Some (Da_Name desc) ↔ ∃ o, o ∈ objs ∧ kind_of o = k ∧ object_name o = n) ∧
  (Validate (Da_Spec desc) ≠ [] → label_of (Reconcile r name w).2 = label_of w).
Proof.
  intros HK Hw Eg. assert (Hw1 : I w1) by (assert (Hg := kd_get (KeepsDesc := HK) name w Hw); unfold wp in Hg; by rewrite Eg in Hg).
  assert (Hdesc : answers I (desc_get name) desc) by (by exists w, w1).
  unfold Reconcile. rewrite bind_try, Eg. cbn [fst snd]. split.
  - intros Hv w' E. rewrite Hv in E.
    match goal with |- ?G => cut (wp (judge_and_deploy r desc) (λ x w2, x = inl () → w2 = w' → G) w1) end.
    { unfold wp. rewrite E. auto. }
    apply (wp_judged r I name desc Hdesc); [done..| |done]. intros d' ok served w2 Hw2 En Eu Es Hs Hok Hno. unfold wp.
    destruct (deploy r d' ok served w2) as [x w3] eqn:Ed. cbn [fst snd]. intros -> ->.
    destruct (deployed_ok r d' desc ok served w2 w' En Es Ed) as (objs & Hobjs & Hl). exists served, objs. split; [exact Hs|]. split; [|exact Hl].
    destruct ok; [left; destruct (Hok eq_refl); by split_and!|right; split; [by apply Hno|done]].
  - intros Hv. destruct (Validate _) as [|e errs]; [done|]. unfold refuse_inconsistent. unfold mbind, M_bind.
    assert (Hg := gs_get name w). rewrite Eg in Hg. simpl in Hg.
    destruct (store_status _ _ w1) as [x w2] eqn:Es. apply store_status_ok in Es as [El _].
    destruct x; simpl; congruence.
Qed.

(** ** A cluster on which a pass runs *)

Notation key := (GKind * string * string)%type (only parsing).
Fixpoint find_label (l : list (key * option string)) (k : key) : option string :=
  match l with [] => None | e :: l => if decide (e.1 = k) then e.2 else find_label l k end.
Definition without (k : key) (l : list (key * option string)) : list (key * option string) := filter (λ e, e.1 ≠ k) l.
Lemma find_without k k' l : find_label (without k l) k' = if decide (k' = k) then None else find_label l k'.
Proof.
  induction l as [|e l IH]; simpl; [by case_decide|]. unfold without in *. destruct (decide (e.1 = k)) as [Ek|Ek].
  - rewrite filter_cons_False by auto. rewrite IH. case_decide as Ed; [done|]. rewrite decide_False; [done|congruence].
  - rewrite filter_cons_True by done. simpl. rewrite IH. case_decide as E1; [|done]. rewrite decide_False; [done|congruence].
Qed.
Lemma find_label_in l k v : find_label l k = Some v → ∃ e, e ∈ l ∧ e.1 = k.
Proof.
  induction l as [|e l IH]; simpl; [done|]. case_decide; [intros _; exists e; split; [by left|done]|].
  intros (e' & ? & ?)%IH. exists e'. split; [by right|done].
Qed.

Record GenCluster := mkGenCluster {
  Gn_Descriptors : list AcceleratorDescriptor; Gn_Reports : list (string * NodeDeviceReport); Gn_Objects : list (key * option string);
}.
Definition gn_objects (l : list (key * option string)) (c : GenCluster) : GenCluster := mkGenCluster (Gn_Descriptors c) (Gn_Reports c) l.
Definition gn_missing : GoErr := mkErr KNotFound "not found".
Definition gn_match (c : GenCluster) (k : GKind) (ns owner : string) (e : key * option string) : Prop :=
  e.1.1.1 = k ∧ find_label (Gn_Objects c) e.1 = Some owner ∧ (ns = "" ∨ e.1.1.2 = ns).
#[export] Instance gn_match_dec c k ns owner e : Decision (gn_match c k ns owner e).
Proof. unfold gn_match. apply _. Defined.
#[export] Instance gn_clock : Clock GenCluster := {| time_now c := (0, c) |}.
#[export] Instance gn_verify : Verifier.VerifyAPI GenCluster := {|
  Verifier.node_get _ := throw gn_missing; Verifier.report_get _ := throw gn_missing; Verifier.policy_list := mret [];
  Verifier.evidence_get _ := throw gn_missing; Verifier.evidence_create ev := mret ev; Verifier.evidence_status_update ev := mret ev;
  Verifier.evidence_records_inc _ _ := mret ();
|}.
#[export] Instance gn_api : DescriptorAPI GenCluster := {|
  desc_get n c := match filter (λ d, Da_Name d = n) (Gn_Descriptors c) with d :: _ => (inl d, c) | [] => (inr gn_missing, c) end;
  desc_list := gets Gn_Descriptors;
  desc_status_update d c :=
    (inl d, mkGenCluster ((λ x, if bool_decide (Da_Name x = Da_Name d) then d else x) <$> Gn_Descriptors c) (Gn_Reports c) (Gn_Objects c));
  desc_reports := gets Gn_Reports;
  desc_policies := mret [];
  device_class_mapping := Some (mret ());
  gen_apply _ o c := (inl (), gn_objects ((key_of o, labels_of o !! descriptorOwnerLabel) :: without (key_of o) (Gn_Objects c)) c);
  gen_list k ns owner c := (inl ((λ e, (e.1.1.2, e.1.2)) <$> filter (gn_match c k ns owner) (Gn_Objects c)), c);
  gen_delete k ns n c :=
    match find_label (Gn_Objects c) (k, ns, n) with
    | Some _ => (inl (), gn_objects (without (k, ns, n) (Gn_Objects c)) c)
    | None => (inr gn_missing, c)
    end;
|}.
#[export] Program Instance gn_store : GeneratedStore GenCluster := {| label_of c k ns n := find_label (Gn_Objects c) (k, ns, n) |}.
Next Obligation. intros n c. simpl. by destruct (filter _ _). Qed.
Next Obligation. intros d c x c'. simpl. intros [= <- <-]. split; [done|]. by intros d' [= <-]. Qed.
Next Obligation.
  intros k ns owner c x c'. simpl. intros [= <- <-]. split; [done|]. intros ns' n. rewrite list_elem_of_fmap. split.
  - intros ([[[k' ns1] n1] v] & [= -> ->] & [(Ek & Ef & Ens) _]%list_elem_of_filter). simpl in *. by subst k'.
  - intros [Ef Ens]. destruct (find_label_in _ _ _ Ef) as ([[[k' ns1] n1] v] & Hin & [= -> -> ->]). exists ((k, ns', n), v).
    split; [done|]. apply list_elem_of_filter. split; [|exact Hin]. by split_and!.
Qed.
Next Obligation.
  intros k ns n c x c'. simpl. destruct (find_label _ _) eqn:Ef; intros [= <- <-].
  - intros k' ns' n'. apply find_without.
  - done.
Qed.
Next Obligation.
  intros own o c c'. simpl. intros [= <-] k ns n. simpl. rewrite find_without. case_decide as E1; case_decide as E2; congruence.
Qed.

Definition declared_npu (nodes : list string) : AcceleratorDescriptor :=
  let spec := npu_declaration None in
  mkDescriptor "npu" "uid-1" 1 (mkDescriptorSpec (Dd_Vendor spec) (Dd_Product spec) (Dd_AllocationUnit spec) (Dd_Identity spec) nodes
    (Dd_Backends spec) (Dd_Cleanup spec) None ∅ ∅ ∅) (mkDescriptorStatus [] [] []).
Definition foreign_key : key := (KDaemonSet, "operator", "foreign").
Definition gen_cluster (nodes : list string) : GenCluster :=
  mkGenCluster [declared_npu nodes] [] [(foreign_key, Some "someone"); ((KConfigMap, "operator", "old"), Some "npu")].
Definition gen_reconciler (draImage : string) : AcceleratorDescriptorReconciler GenCluster :=
  mkReconciler "generic-dp:1" draImage "operator" None.
Definition gen_run (draImage : string) (nodes : list string) : (() + GoErr) * GenCluster :=
  Reconcile (H2 := lenient_rules) (H4 := names_json) (gen_reconciler draImage) "npu" (gen_cluster nodes).

Example pass_deploys_and_prunes :
  (λ e : key * option string, e.1.2) <$> Gn_Objects (gen_run "" ["/dev/rngd/{{id}}"]).2
    = ["kcloud-generated-npu-dp"; "kcloud-generated-npu-dp"; "foreign"].
Proof. vm_compute. reflexivity. Qed.

Definition foreign_stays (c : GenCluster) : Prop := find_label (Gn_Objects c) foreign_key = Some "someone".
Lemma gn_keeps draImage : KeepsDesc (H2 := lenient_rules) (H4 := names_json) (gen_reconciler draImage) foreign_stays "npu".
Proof.
  split.
  - intros n c Hc. unfold wp, desc_get, gn_api. by destruct (filter _ _).
  - intros c Hc. exact Hc.
  - intros c Hc. exact Hc.
  - intros c Hc. exact Hc.
  - intros m [= <-] c Hc. exact Hc.
  - intros k ns owner c Hc. exact Hc.
  - intros v req [=].
  - intros d d' c c' [= <- <-]. auto.
  - intros x c Hc (desc & (c1 & c2 & Hc1 & Eg) & Hx).
    assert (En : Da_Name desc = "npu").
    { simpl in Eg. destruct (filter _ _) as [|d l] eqn:Ef; [discriminate|]. injection Eg as <- _.
      assert (Hd : d ∈ filter (λ d, Da_Name d = "npu") (Gn_Descriptors c1)) by (rewrite Ef; by left).
      by apply list_elem_of_filter in Hd as [? _]. }
    unfold foreign_stays in *. destruct x as [d|own o|k ns n]; simpl in *.
    + done.
    + destruct Hx as (_ & _ & _ & draImg & objs & o' & _ & Er & Ho & ->). rewrite find_without, owned_key.
      destruct (rendered_parts _ _ _ _ _ Er) as (_ & _ & Hparts & _). destruct (Hparts o' Ho) as (b & part & _ & (_ & _ & _ & Hk) & Hin & _).
      destruct (Hk o' Hin) as [_ Hname]. assert (Hne : foreign_key ≠ key_of o').
      { unfold key_of, foreign_key. intros [= Ek _ En']. destruct Hname as [Hk'|Hn]; [congruence|]. rewrite Hn in En'.
        unfold backend_name in En'. by case_bool_decide. }
      rewrite !decide_False by auto. done.
    + destruct Hx as (_ & scope & l & (c3 & c4 & Hc3 & [= <- _]) & Hin & _). destruct (find_label _ (k, ns, n)) eqn:Ef; [|done].
      simpl. rewrite find_without. rewrite decide_False; [done|]. intros [= <- <- <-].
      apply list_elem_of_fmap in Hin as ([[[k' ns1] n1] v] & [= <- <-] & [(Ek & Efl & _) _]%list_elem_of_filter). simpl in *. subst k'.
      unfold foreign_key in Hc3. rewrite Efl, En in Hc3. discriminate Hc3.
Qed.
Lemma descriptor_writes_witness :
  find_label (Gn_Objects (gen_run "dra:1" ["/dev/rngd/{{id}}"]).2) foreign_key = Some "someone" ∧
  length (Gn_Objects (gen_run "dra:1" ["/dev/rngd/{{id}}"]).2) = 9%nat.
Proof.
  split; [|vm_compute; reflexivity]. destruct (gen_run "dra:1" ["/dev/rngd/{{id}}"]) as [x c'] eqn:E.
  apply (descriptor_writes (H2 := lenient_rules) (H4 := names_json) (gen_reconciler "dra:1") foreign_stays "npu"
    (gen_cluster ["/dev/rngd/{{id}}"]) x c'); [apply gn_keeps|reflexivity|exact E].
Defined.
(** The declaration is edited to name no device: the status refuses everything, and the
    objects of the last pass stay. *)
Lemma pass_leaves_exactly_the_rendered_witness :
  label_of (gen_run "" ["/dev/rngd/{{id}}"]).2 KConfigMap "operator" "old" = None ∧
  label_of (gen_run "" []).2 KConfigMap "operator" "old" = Some "npu".
Proof.
  split.
  - destruct (pass_leaves_exactly_the_rendered (H2 := lenient_rules) (H4 := names_json) (gen_reconciler "") foreign_stays "npu"
      (declared_npu ["/dev/rngd/{{id}}"]) (gen_cluster ["/dev/rngd/{{id}}"]) (gen_cluster ["/dev/rngd/{{id}}"])
      (gn_keeps "") eq_refl eq_refl) as [Hok _].
    destruct (gen_run "" ["/dev/rngd/{{id}}"]) as [x c'] eqn:E. assert (Ex : x = inl ()) by (apply (f_equal fst) in E; by vm_compute in E).
    subst x. destruct (Hok ltac:(vm_compute; reflexivity) c' E) as (served & objs & _ & _ & Hobjs).
    apply (f_equal snd) in E. cbn [snd] in E |- *. rewrite <-E. vm_compute. reflexivity.
  - destruct (pass_leaves_exactly_the_rendered (H2 := lenient_rules) (H4 := names_json) (gen_reconciler "") foreign_stays "npu"
      (declared_npu []) (gen_cluster []) (gen_cluster []) (gn_keeps "") eq_refl eq_refl) as [_ Hbad].
    unfold gen_run. rewrite Hbad by (vm_compute; discriminate). reflexivity.
Defined.

Definition named_descriptor (name : string) (s : AcceleratorDescriptorSpec) : AcceleratorDescriptor :=
  mkDescriptor name "uid" 1 s (mkDescriptorStatus [] [] []).
Definition spec_of (vendor product : string) (sharing : option DescriptorSharing) : AcceleratorDescriptorSpec :=
  mkDescriptorSpec vendor product AllocationUnitDevice (mkIdentity IdentitySourceSerial true) ["/dev/x"] [BackendDevicePlugin; BackendDRA]
    (mkCleanup false []) sharing ∅ ∅ ∅.
(** Two consistent declarations of different resources: the winner of neither depends on
    the other, and both apply the DeviceClass of the same name. *)
Example driver_names_collide :
  let a := spec_of "b.c" "a" None in let b := spec_of "c" "a.b" None in
  ResourceNameFor a ≠ ResourceNameFor b ∧ DriverNameFor a = DriverNameFor b ∧
  Validate (H := lenient_rules) a = [] ∧ Validate (H := lenient_rules) b = [].
Proof. vm_compute. split_and!; [discriminate|reflexivity..]. Qed.
(** Products that differ in case match the same devices, and are two resources. *)
Example same_devices_two_winners :
  let a := spec_of "rngd" "rngd" None in let b := spec_of "rngd" "RNGD" None in
  ResourceNameFor a ≠ ResourceNameFor b ∧ ∀ d, matchesDescriptor d a = matchesDescriptor d b.
Proof. split; [vm_compute; discriminate|]. reflexivity. Qed.

Lemma generated_objects_witness :
  let shared := named_descriptor "s" (spec_of "rebellions" "atom" (Some (mkDescriptorSharing SharingModeTimeSliced 4))) in
  let plain := named_descriptor "p" (spec_of "rebellions" "atom" None) in
  let render d := RenderGeneratedBackends (H := lenient_rules) (H1 := names_json) d "dp:1" "dra:1" "operator" in
  (∃ err, render shared = inr err) ∧
  ∃ objs, render plain = inl objs ∧ length objs = 8%nat ∧
    ∀ ds, DraDaemonSet ds ∈ objs → keeps_off (H := label_scheduler) [controlPlaneNodeLabel; masterNodeLabel] (ods_pod ds).
Proof.
  intros shared plain render. split.
  - destruct (generated_objects (H := lenient_rules) (H1 := names_json) (H2 := label_scheduler)
      (H3 := label_scheduler_laws) shared "dp:1" "dra:1" "operator") as [_ Hs].
    apply Hs; [vm_compute; reflexivity| |].
    + exists BackendDevicePlugin. split; [vm_compute; left|discriminate].
    + split; [discriminate|]. split; [vm_compute; right; left|discriminate].
  - destruct (generated_objects (H := lenient_rules) (H1 := names_json) (H2 := label_scheduler)
      (H3 := label_scheduler_laws) plain "dp:1" "dra:1" "operator") as [Hr _].
    destruct (render plain) as [objs|err] eqn:E; [|exfalso; by vm_compute in E]. exists objs. split; [reflexivity|]. split.
    + apply (f_equal (λ x, match x with inl l => length l | inr _ => 0%nat end)) in E. by vm_compute in E.
    + intros ds Hds. destruct (Hr objs E) as (_ & _ & Hk & _). destruct (Hk ds Hds) as (b & _ & _ & _ & Hoff). exact Hoff.
Defined.
